(* ===== verification/_CoqProject ===== *)
-Q . S2P
Prelude.v
Forward.v
ForwardFacts.v
Values.v
Syntax.v
Linker.v
State.v
Collections.v
Env.v
VarPath.v
Nom.v
Parser.v
ParserFacts.v
ParserTotal.v
BlockFacts.v
ParserRound.v
ParserEdges.v
Chains.v
Commands.v
Effects.v
Interp.v
Compat.v
Samples.v
InterpFacts.v
ControlFacts.v
CollectionFacts.v
EnvFacts.v
ChainFacts.v
LinkFacts.v
CommandFacts.v
BnsModel.v
BnsStore.v
BnsRegistry.v
BnsQueries.v
BnsRun.v
BnsSteps.v
BnsCalls.v
BnsFacts.v
BnsAuth.v
BnsGuards.v
BnsOwners.v
BnsTotal.v
BnsLive.v
BnsQueryFacts.v
BnsSamples.v
IpAddr.v
Tasks.v
Locks.v
RelayModel.v
RelayStore.v
Relay.v
RelaySafe.v
RelayInv.v
RelaySeq.v
RelayFacts.v
RelayProtocol.v
RelayAlloc.v
RelaySamples.v
AuthModel.v
AuthStore.v
Auth.v
AuthDb.v
AuthDns.v
AuthDnsOps.v
AuthTexts.v
AuthInv.v
AuthTx.v
AuthKeeps.v
AuthLocks.v
AuthFacts.v
AuthSamples.v
ResolverModel.v
ResolverStore.v
Resolver.v
ResolverRun.v
ResolverCoherence.v
ResolverFeed.v
ResolverServe.v
ResolverSync.v
ResolverSamples.v
