(* ===== verification/Prelude.v ===== *)
(** * Verification of the CYFS gateway

    The CYFS gateway is a programmable proxy.  Requests that reach one of its
    stacks are decided by _process chains_, small programs in a shell-like
    language, and then forwarded to upstream servers over tunnels; names and
    relays come from a name service and from service nodes.  This development
    models and verifies the parts of the system in which its decisions are made
    and its records are kept:

    - the process-chain engine, [src/components/cyfs-process-chain]: the block
      parser, values and shared collections, environments and variable paths,
      linking, the execution of lines, blocks, chains and libraries, and the
      commands that change control flow, scope or variables;
    - the forwarding decision, [src/components/cyfs-gateway-lib/src/forward]:
      plans, failure records, the selector and the least-time order;
    - the registry of the name service (BNS), [src/components/bns-client] and
      [src/components/bns-indexer]: its records, its tables, the mutations and
      the queries;
    - the service nodes, [src/components/cyfs-sn], whose requests run
      concurrently over shared databases: the relay manager (relay nodes, the
      assignment of zones to them, admission and migration), the account
      database (activation codes, registration, users, domains, user DNS with
      its change feed, zones, sessions) and the name resolver (DNS,
      authoritative DNS, zones, gateways, devices and DIDs, with its caches).

    The engine calls the selector through a command that is not modelled; the
    registry is a service of its own.  In a service node the account database
    calls the relay manager, in one transaction for a registration, and the
    resolver reads both; it learns of changed records from the change feed of
    the account database.

    ** Files and what they model

    - [Prelude]: results, machine integers, stable sorting, strings, and the
      list lemmas, hints and tactics the other files share.
    - [Forward]: [forward/plan.rs], [forward/failure_state.rs],
      [forward/selector.rs] and [forward/least_time.rs].  The selector's shared
      atomic counter is an argument and a result of [select]; hashing of
      strings is a parameter.  [ForwardFacts]: its theorems.
    - [Values]: [collection/coll.rs] and the coercions of [block/block.rs].
    - [Syntax]: [block/block.rs], the executors of the control commands, chains
      and libraries as inductive types.
    - [Linker]: the [BlockCommandLinker] of [block/linker.rs], the external
      commands of [cmd/external.rs] and the [ParserContext] of
      [chain/chain.rs].  [LinkFacts]: its theorems.
    - [State]: the state of an execution and the monad of its effects.  All the
      code shares through an [Arc] (collections, visitors, environments,
      trackers, scopes) is an object of the state with a location, so aliasing
      is explicit; the execution pointer stack of [chain/stack.rs] and the
      traversal counters of [collection/mem.rs] are part of it.
    - [Collections]: the operations of [collection/mem.rs] and
      [collection/var.rs], with the facts on their index maps and sets.
      [CollectionFacts]: the theorems.
    - [Env]: [chain/env.rs], [chain/external.rs], the scopes of [cmd/map.rs],
      [chain/env_manager.rs], and the variable snapshots of [block/exec.rs].
    - [VarPath]: the evaluation of variable expressions of [block/linker.rs].
      [EnvFacts]: the theorems on both.
    - [Chains]: [chain/chain.rs], [chain/manager.rs] and [chain/context.rs].
      [ChainFacts]: its theorems.
    - [Commands]: the executors of [cmd/coll.rs], [cmd/value.rs], [cmd/type_.rs],
      the comparisons of [cmd/match_.rs] and the plain commands of
      [cmd/string.rs].  [CommandFacts]: its theorems.
    - [Interp]: [block/exec.rs], [chain/exec.rs], [cmd/control.rs],
      [cmd/exec.rs], [cmd/capture.rs], [cmd/var.rs], [cmd/map.rs] and
      [cmd/action.rs].
    - [Effects]: what every computation of the engine may do to the state (the
      preorder [Step]), and the relations on computations that are closed under
      the engine's combinators ([Closed]).  [Compat]: the interpreter respects
      every such relation.  [InterpFacts] draws the theorems on whole
      executions from it; [ControlFacts] has those on control flow.
    - [Samples]: concrete instances and programs the theorems are applied to.
    - [Nom]: the parser combinators of the nom crate, a class with the laws of
      its documentation.  [Parser]: [block/parser.rs].  [ParserFacts],
      [ParserTotal] and [BlockFacts]: that it ends, reads within its text and
      gives well-formed blocks; [ParserRound]: printing and parsing;
      [ParserEdges]: texts it reads otherwise than written.
    - [BnsModel]: [bns-client/src/model.rs], [error.rs] and [rpc.rs].
      [BnsStore]: the tables and transactions of [bns-indexer/src/sqlite.rs] and
      [store.rs].  [BnsRegistry] and [BnsQueries]: [bns-indexer/src/registry.rs].
      [BnsRun], [BnsSteps] and [BnsCalls] take its calls apart into
      steps on the tables; [BnsFacts], [BnsAuth], [BnsGuards], [BnsOwners],
      [BnsTotal], [BnsLive] and [BnsQueryFacts] have the theorems, [BnsSamples]
      a concrete registry.
    - [IpAddr]: the addresses of the standard library with their text.
      [Tasks]: programs of atomic actions on a shared world, their
      interleavings, the rely/guarantee rule [Safe] for invariants under every
      interleaving, schedules, the class of named locks, and the rule [Keeps]
      for one task among the steps of others.  [Locks]: requests that take their
      locks in order do not block each other.
    - [RelayModel], [RelayStore] and [Relay]: [cyfs-sn/src/relay_mgr.rs], its
      data and pure functions, its tables with the SQL statements, and every
      operation of [SqliteSnRelayManager].  [RelaySafe] and [RelayInv]: the
      invariant under every interleaving, and requests that run alone;
      [RelaySeq]: histories of them; [RelayFacts], [RelayProtocol] and
      [RelayAlloc]: the theorems; [RelaySamples]: a concrete manager, and what
      requests that overlap can do.
    - [AuthModel], [AuthStore], [Auth] and [AuthDb]: [cyfs-sn/src/sn_auth.rs],
      its data and pure functions, its tables with the SQL statements, its
      transactions, and the requests of [SqliteSnAuthDB] as tasks.  [AuthDns],
      [AuthDnsOps], [AuthTexts], [AuthInv], [AuthTx] and [AuthKeeps]: the
      invariant of the tables, the change feed, and that every transaction and
      every request keeps them; [AuthLocks]: the order of the locks;
      [AuthFacts]: the theorems; [AuthSamples]: a concrete node.
    - [ResolverModel], [ResolverStore] and [Resolver]:
      [cyfs-sn/src/sn_resolver.rs] (with the keys of [sn_did_resolver.rs] and
      [extract_boot_jwt] of [bns-client]): errors, names, addresses and
      documents; configuration, answers, caches and the state of the
      synchronisation; every request as a task over the databases, the caches,
      the BNS reader and the clock.  [ResolverRun]: the requests that only
      read, and the form of their answers; [ResolverCoherence] and
      [ResolverFeed]: what a cached answer says about the stored records;
      [ResolverServe]: the resolver beside the account database under every
      schedule; [ResolverSync]: a synchronisation and a question that run
      alone; [ResolverSamples]: a concrete resolver, and what requests that
      overlap can do.

    ** How the model relates to the code

    A function of the code is a definition of the same name, or of the name
    with a prefix for its type where two types share it ([em_set] for
    [EnvManager::set], [mm_insert] for the insert of a multimap).  Code that
    returns [Result] returns [Result] here, or runs in the monad [M] of [State]
    when it has effects; its outcomes are a value, an error, a panic of the
    code, or the end of the fuel.  The text of an error is its constant part,
    without the interpolated values.  Strings are byte strings, and blanks are
    the ASCII ones.  A [Float] number is its bit pattern.  Logging is left out.
    The asynchronous code of one execution of a chain runs in sequence, as its
    [await]s do; other tasks do not share its state.

    The registry runs in a state monad over its tables and the number of clock
    readings so far: a call is one transaction, and a failed one leaves the
    tables alone.  The parts of a service node share their databases with other
    requests between any two statements, so their operations are tasks: a
    statement, a transaction, a lock, a reading of the clock, a look into a
    cache or a change of a counter is one atomic action, and the requests
    interleave at the actions.  The timeout of a synchronisation is looked at
    before each page of the feed; a page only reads, so a timeout within it has
    the same effect.  A constraint that a
    statement violates is an error; that the database itself fails is not
    modelled.

    Code from outside the repository is an interface, with the laws the proofs
    use stated in a class: the text of a floating point number ([F64Text]), the
    parser combinators ([Nom], [NomLaws]), the command parsers of the linker
    ([CommandParserFactory], without laws), hashing and JSON of the name service
    ([BnsLibs], [BnsLibsLaws]), the clock ([Clock]), named locks ([NamedLocker],
    [NamedLockerLaws]), JSON lists of strings ([JsonStrings],
    [JsonStringsLaws]), the reals of SQLite ([SqlNumbers]), the Unicode tables
    ([CharTables]), the keys of JSON objects ([JsonKeys]), the order of rows
    without ORDER BY ([RowOrder]) and the decoding of NULL ([SqlxNull]).  The
    resolver adds JSON values ([SerdeJson], [SerdeViews]), JWT, OOD descriptions
    and DID texts ([NameLib]), keys ([JsonWebKeys]), the record types of DNS and
    their names ([DnsTypes], [NameClient], [NameClientLaws]), the order of a
    HashMap ([HashOrder]), the monotonic clock and timers ([Instants],
    [Timers], with the laws that time does not go back and that a timer is not
    early) and the reader of BNS documents ([BnsDocumentReader]).  Interfaces also stand between the parts: the
    commands that are not modelled ([LeafCommands], with [LeafLaws]: such a
    command evaluates its arguments first, ends, and respects stack,
    environments and traversals), the device database of the service nodes
    ([DeviceInfoDB]), and the argument parser that default expressions call
    ([ArgParser]: an argument it reads is shorter than its text), which the
    block parser discharges in [BlockFacts].

    ** Bounds

    The interpreter is structural on the program.  Only calls of blocks, chains
    and libraries take fuel; each pushes a stack entry first, and the stack
    holds at most [MAX_STACK_DEPTH] = 64, so [run_fuel] = 65 is enough for every
    execution and any larger amount gives the same result.  The loop of the
    path parser has fuel for every character of its text; the recursion of
    variable expressions has the length of the text, which bounds their
    nesting.  A chain of parent environments has fuel for every environment of
    the state, and a chain of maps behind visitors has fuel for every variable of
    a visitor.  The code follows a cyclic chain for ever; the model then runs out
    of fuel, as it does with every larger amount ([map_get_out_of_fuel]).  In a
    [grounded] state no chain is cyclic, and executions keep it so.

    The parser has fuel for the length of its text and the lines of its block,
    and the theorems on it show that this is enough.  The owner of a name is
    found with fuel for the length of the name, because a parent is shorter, and
    an owner path has at most [MAX_OWNER_REF_DEPTH] steps.  The relay manager
    and the account database need no fuel.  A synchronisation of the resolver
    takes fuel for its pages: the feed keeps 10000 changes and a page has 256, so
    40 pages or more are enough when nobody adds changes ([sync_exact]), and the
    theorems on interleavings hold for every amount.  The counters of the registry and of the relay manager wrap at
    64 bits, its generations saturate, and times that SQLite cannot store are
    refused, as in the code; the map revision and the attempts of a waiting zone,
    which SQLite adds to, are unbounded.

    ** What the theorems show

    - Executions from a grounded state end, whatever the program
      ([run_terminates]); they restore the stack, the environments and the
      scopes, on errors too; they never change a collection under traversal; they
      keep every collection well formed.  The commands that are not modelled are
      assumed to do so ([LeafLaws]).
    - Blocks, chains and libraries run their parts in order up to the control
      action that ends them; a break never leaves a chain, and no control
      action crosses a call.
    - Maps, sets and multimaps implement finite maps and sets, maps in the
      order of their insertion; a variable that is set is read back; loop
      variables are restored.
    - Linking puts an executor on every command in its reach.
    - Splitting a string is inverse to joining; the comparison commands are
      exact on the integers below 2^53.
    - Libraries and chains stay in priority order with unique ids, and lookup
      finds exactly what was added.
    - The selector returns a permutation of the candidates with healthy
      primaries first; weighted round robin is fair; the consistent-hash ring
      is stable; ejection follows the failure threshold and is isolated.
    - The block parser answers every text and a block it accepts is well formed;
      a printed program is parsed to its tree.
    - A reachable registry keeps its invariant: canonical names with their
      parents, gapless hashed versions, a hash chain of events.  A call that
      succeeds was authorised, changes only its own name and uses up its guard;
      after a change of owners every active name has somebody who can sign;
      history is never rewritten; every call returns; an owner can publish; and
      the queries answer with what the tables say.
    - The relay tables stay well formed and readable under every interleaving of
      requests.  Admission is granted under exactly the stated condition, a
      migration is completed once by the request with its generation, the
      automatic choice is the least loaded relay of the first rule that applies,
      a repeated allocation does not move a zone, and a new relay serves the
      zones that wait.  For requests that do not overlap, a generation names one
      relay, a deleted node stays deleted, and an unchanged revision means an
      unchanged map.
    - The account tables stay well formed under every interleaving, every change
      of a DNS record is told by a row of the change feed with its name and type,
      and the requests, with the locks they hold, are all answered.  The
      activation codes of a request are new, distinct and unused, or none is
      stored.  A registration is atomic over both databases; activation takes a
      domain without wildcards over, with the names of its zone and no others;
      the lookup of a domain finds the longest binding whose zone it is in; a DNS
      request changes exactly its RRset; storing and removing a value restores
      the values, and the time to live up to the smaller one.
    - A reply of the resolver agrees with the stored records, or the feed still
      has a change it has not seen, under every schedule in which its own
      requests do not overlap; after such a schedule a question that is due for
      a synchronisation and runs alone sees the records of now; a
      synchronisation drops exactly the names of the feed and backs off when it
      fails; and answers are well formed under every interleaving.
    - Where the code departs from its documentation or its intent, a theorem
      states what it does: an invoke that panics, a search that stays in the
      current library, substitutions that are never linked, a removal that
      ignores the values of its arguments, escaped variables that cannot be
      read, a round robin that does not rotate, a quoted text that is
      interpolated, an expired parent that blocks the registry, a guard that
      stays valid, relay requests that overlap and lose an update, hide a
      change of the map or bring a deleted node back, a domain with a wildcard
      that takes names of others, a text that leaves an RRset without values,
      and questions that overlap and keep a deleted record cached.  Those on
      relay requests and questions that overlap are runs of the concrete nodes of
      [RelaySamples] and [ResolverSamples].

    ** What is not modelled

    Of the engine: the clap argument parsers, the commands behind [LeafCommands]
    (globs, regular expressions, templates, URIs, [echo] and external commands),
    file and database collections, hook points and the JavaScript engine.  Of
    the forward plan, its JSON and base64 form and the texts of durations and
    sizes.  Of the name service, the EVM chain and its projection, the RPC layer
    and the migration of old schemas.  Of the service nodes, the table of
    devices, the DID cache of [sn_did_resolver.rs], the RPC server and the RPC
    forwarder of the account database, the migration of the old relay schema and
    the address file behind the relay manager; a feed that the database fails to
    read, a caller of the resolver that is cancelled in the middle of a
    synchronisation, and the copy of an answer into a [NameInfo].  The network side of the gateway (stacks, servers, tunnels,
    RTCP, DNS, ACME, SOCKS) is input and output over sockets. *)

From Stdlib Require Export Ascii.
From stdpp Require Export base list strings gmap sorting pretty.
From Stdlib Require Export ZArith Lia.
From Stdlib Require Import OrderedTypeEx.

Declare Scope gw_scope.
Delimit Scope gw_scope with gw.
Open Scope gw_scope.
Open Scope Z_scope.

(** ** Automation *)

Create HintDb gw.

(** Case analysis on the next [match], [if] or [decide] of the goal. *)
Ltac step_match :=
  match goal with
  | |- context [match ?x with _ => _ end] => destruct x eqn:?
  end.

(** Reduce boolean comparisons on integers in hypotheses and goal. *)
Ltac zbool :=
  repeat match goal with
  | H : (_ <? _) = true |- _ => apply Z.ltb_lt in H
  | H : (_ <? _) = false |- _ => apply Z.ltb_ge in H
  | H : (_ <=? _) = true |- _ => apply Z.leb_le in H
  | H : (_ <=? _) = false |- _ => apply Z.leb_gt in H
  | H : (_ =? _) = true |- _ => apply Z.eqb_eq in H
  | H : (_ =? _) = false |- _ => apply Z.eqb_neq in H
  end.

(** ** Nested induction

    The schemes that let the induction principle of a nested inductive type
    reach through lists, pairs and options. *)

Scheme All for list.
Scheme All for prod.
Scheme All for option.

(** ** Results

    [Result<T, String>] of the sources. *)

Inductive Result (A : Type) : Type :=
| Ok (a : A)
| Err (msg : string).
Arguments Ok {A} a.
Arguments Err {A} msg.

Definition rbind {A B} (m : Result A) (k : A -> Result B) : Result B :=
  match m with Ok a => k a | Err e => Err e end.

Notation "'let?' x ':=' m 'in' k" := (rbind m (fun x => k))
  (at level 10, x pattern, m at level 100, k at level 200) : gw_scope.

(** A fallible loop over a vector, stopping at the first error. *)
Definition mapR {A B} (f : A -> Result B) : list A -> Result (list B) :=
  fix go l :=
    match l with
    | [] => Ok []
    | a :: l' =>
        let? b := f a in
        let? bs := go l' in
        Ok (b :: bs)
    end.

(** The same on the content of an [Option]. *)
Definition optR {A B} (f : A -> Result B) (o : option A) : Result (option B) :=
  match o with
  | None => Ok None
  | Some a => let? b := f a in Ok (Some b)
  end.

Lemma rbind_Ok {A B} (m : Result A) (k : A -> Result B) b :
  rbind m k = Ok b <-> exists a, m = Ok a /\ k a = Ok b.
Proof. destruct m; simpl; naive_solver. Qed.

Lemma mapR_Ok {A B} (f : A -> Result B) l bs :
  mapR f l = Ok bs <-> Forall2 (fun a b => f a = Ok b) l bs.
Proof.
  revert bs. induction l as [|a l IH]; intros bs; simpl.
  - split; [intros [= <-]; constructor|by inversion 1].
  - rewrite rbind_Ok. setoid_rewrite rbind_Ok. split.
    + intros (b & Hb & bs' & Hbs & [= <-]). constructor; [done|]. by apply IH.
    + inversion 1 as [|? b ? bs' Hb Hbs]; subst. exists b. split; [done|]. exists bs'.
      split; [by apply IH|done].
Qed.

Definition is_some {A} (o : option A) : bool := match o with Some _ => true | None => false end.

(** ** Machine integers *)

Definition u32_max : Z := 2 ^ 32 - 1.
Definition u64_modulus : Z := 2 ^ 64.
Definition i64_min : Z := - 2 ^ 63.
Definition i64_max : Z := 2 ^ 63 - 1.

(** [u64] addition as a release build does it, and [u64::saturating_sub]. *)
Definition u64_add (a b : Z) : Z := (a + b) mod u64_modulus.
Definition u64_saturating_sub (a b : Z) : Z := Z.max 0 (a - b).

(** [u32::saturating_add] and [u32::saturating_mul]. *)
Definition u32_saturating_add (a b : Z) : Z := Z.min (a + b) u32_max.
Definition u32_saturating_mul (a b : Z) : Z := Z.min (a * b) u32_max.

(** The system clock: what its n-th reading gives, in seconds. *)
Class Clock : Type := clock_at : nat -> Z.

(** [str::strip_prefix]. *)
Fixpoint strip_prefix (p s : string) : option string :=
  match p, s with
  | EmptyString, _ => Some s
  | String a p', String b s' => if Ascii.eqb a b then strip_prefix p' s' else None
  | String _ _, EmptyString => None
  end.

(** ** Slices and vectors *)

(** [slice::rotate_left]. *)
Definition rotate_left {A} (n : nat) (l : list A) : list A := drop n l ++ take n l.

Lemma rotate_left_Permutation {A} n (l : list A) : rotate_left n l ≡ₚ l.
Proof.
  unfold rotate_left. rewrite Permutation_app_comm. by rewrite take_drop.
Qed.
#[export] Hint Resolve rotate_left_Permutation : gw.

Lemma rotate_left_head {A} n (l : list A) x :
  l !! n = Some x -> rotate_left n l !! 0%nat = Some x.
Proof.
  intros H. unfold rotate_left. rewrite lookup_app_l.
  - rewrite lookup_drop. by rewrite Nat.add_0_r.
  - rewrite length_drop. apply lookup_lt_Some in H. lia.
Qed.

(** ** Stable sorting

    [slice::sort_by_key] is a stable sort; any stable sort computes the same
    list ([stable_sort_unique]), so insertion sort models it. *)

Section stable_sort.
Context {A : Type} (leb : A -> A -> bool).

Fixpoint insert_sorted (x : A) (l : list A) : list A :=
  match l with
  | [] => [x]
  | y :: l' => if leb x y then x :: l else y :: insert_sorted x l'
  end.

Fixpoint stable_sort (l : list A) : list A :=
  match l with
  | [] => []
  | x :: l' => insert_sorted x (stable_sort l')
  end.

Lemma insert_sorted_Permutation x l : insert_sorted x l ≡ₚ x :: l.
Proof.
  induction l as [|y l IH]; simpl; [done|].
  destruct (leb x y); [done|]. rewrite IH. constructor.
Qed.

Lemma stable_sort_Permutation l : stable_sort l ≡ₚ l.
Proof.
  induction l as [|x l IH]; simpl; [done|].
  by rewrite insert_sorted_Permutation, IH.
Qed.

(** With a total preorder the result is sorted. *)
Lemma stable_sort_sorted l :
  (forall x y, leb x y = false -> leb y x = true) ->
  (forall x y z, leb x y = true -> leb y z = true -> leb x z = true) ->
  StronglySorted (fun x y => leb x y = true) (stable_sort l).
Proof.
  intros Htotal Htrans. induction l as [|x l IH]; simpl; [constructor|].
  induction IH as [|y l' Hs IH' Hall]; simpl; [repeat constructor|].
  destruct (leb x y) eqn:E.
  - constructor; [by constructor|]. constructor; [done|].
    eapply Forall_impl; [exact Hall|]. intros z. by apply Htrans.
  - constructor; [done|]. rewrite insert_sorted_Permutation. constructor; [by apply Htotal|done].
Qed.
End stable_sort.

Definition sort_by_key {A} (key : A -> Z) : list A -> list A :=
  stable_sort (fun x y => key x <=? key y).

Definition key_le {A} (key : A -> Z) (x y : A) : Prop := key x <= key y.

Section sort_by_key.
Context {A : Type} (key : A -> Z).
Implicit Types (l : list A) (x y : A).

Lemma sort_by_key_Permutation l : sort_by_key key l ≡ₚ l.
Proof. apply stable_sort_Permutation. Qed.

Lemma sort_by_key_cons x l :
  sort_by_key key (x :: l)
  = insert_sorted (fun x y => key x <=? key y) x (sort_by_key key l).
Proof. done. Qed.

Lemma insert_by_key_sorted x l :
  StronglySorted (key_le key) l ->
  StronglySorted (key_le key) (insert_sorted (fun x y => key x <=? key y) x l).
Proof.
  induction 1 as [|y l Hs IH Hall]; simpl; [repeat constructor|].
  destruct (key x <=? key y) eqn:E; zbool.
  - constructor; [by constructor|]. constructor; [done|].
    eapply Forall_impl; [exact Hall|]. unfold key_le. simpl. intros; lia.
  - constructor; [done|].
    rewrite (insert_sorted_Permutation _ x l). constructor; [|done].
    unfold key_le. lia.
Qed.

Lemma sort_by_key_sorted l : StronglySorted (key_le key) (sort_by_key key l).
Proof.
  induction l as [|x l IH]; [constructor|]. by apply insert_by_key_sorted.
Qed.

Lemma insert_by_key_filter x l k :
  filter (fun y => key y = k) (insert_sorted (fun x y => key x <=? key y) x l)
  = filter (fun y => key y = k) (x :: l).
Proof.
  induction l as [|y l IH]; [done|]. simpl insert_sorted.
  destruct (key x <=? key y) eqn:E; zbool; [done|].
  rewrite filter_cons, IH, !filter_cons.
  repeat case_decide; try done; lia.
Qed.

(** Stability: the elements of one key keep their order. *)
Lemma sort_by_key_stable l k :
  filter (fun x => key x = k) (sort_by_key key l) = filter (fun x => key x = k) l.
Proof.
  induction l as [|x l IH]; [done|].
  rewrite sort_by_key_cons, insert_by_key_filter, !filter_cons, IH. done.
Qed.

Lemma sorted_head_least x l y :
  StronglySorted (key_le key) (x :: l) -> y ∈ x :: l -> key x <= key y.
Proof.
  intros [_ Hall]%StronglySorted_inv [->|Hin]%elem_of_cons; [lia|].
  rewrite Forall_forall in Hall. by apply Hall.
Qed.

(** A list is determined by being sorted and by its order inside each key. *)
Lemma stable_sort_unique l1 l2 :
  StronglySorted (key_le key) l1 -> StronglySorted (key_le key) l2 ->
  (forall k, filter (fun x => key x = k) l1 = filter (fun x => key x = k) l2) ->
  l1 = l2.
Proof.
  revert l2. induction l1 as [|x l1 IH]; intros l2 H1 H2 Hf.
  { destruct l2 as [|y l2]; [done|]. specialize (Hf (key y)).
    rewrite filter_cons, decide_True in Hf by done. done. }
  destruct l2 as [|y l2].
  { specialize (Hf (key x)). rewrite filter_cons, decide_True in Hf by done. done. }
  assert (Hx : x ∈ y :: l2).
  { specialize (Hf (key x)). rewrite filter_cons, decide_True in Hf by done.
    assert (Hin : x ∈ filter (fun z => key z = key x) (y :: l2)) by (rewrite <- Hf; left).
    by apply list_elem_of_filter in Hin as [_ ?]. }
  assert (Hy : y ∈ x :: l1).
  { specialize (Hf (key y)). symmetry in Hf.
    rewrite filter_cons, decide_True in Hf by done.
    assert (Hin : y ∈ filter (fun z => key z = key y) (x :: l1)) by (rewrite <- Hf; left).
    by apply list_elem_of_filter in Hin as [_ ?]. }
  pose proof (sorted_head_least _ _ _ H1 Hy). pose proof (sorted_head_least _ _ _ H2 Hx).
  assert (Hk : key x = key y) by lia.
  pose proof (Hf (key x)) as Hxy. rewrite !filter_cons, !decide_True in Hxy by done.
  injection Hxy as -> _. f_equal.
  apply StronglySorted_inv in H1 as [? _]. apply StronglySorted_inv in H2 as [? _].
  apply IH; [done..|]. intros k. specialize (Hf k). rewrite !filter_cons in Hf.
  case_decide; [by injection Hf|done].
Qed.
End sort_by_key.

(** ** Text

    Rust strings are byte strings here.  Delimiters and letters the code looks
    for are ASCII, so scanning bytes and scanning [char]s agree; of the
    characters [char::is_whitespace] accepts, the ASCII ones are modelled. *)

Definition char_code (a : Ascii.ascii) : N := Ascii.N_of_ascii a.

Definition char_between (lo hi : N) (a : Ascii.ascii) : bool :=
  (lo <=? char_code a)%N && (char_code a <=? hi)%N.

Definition is_whitespace (a : Ascii.ascii) : bool :=
  char_between 9 13 a || (char_code a =? 32)%N.
Definition is_ascii_digit (a : Ascii.ascii) : bool := char_between 48 57 a.
Definition is_ascii_upper (a : Ascii.ascii) : bool := char_between 65 90 a.
Definition is_ascii_lower (a : Ascii.ascii) : bool := char_between 97 122 a.
Definition is_ascii_hexdigit (a : Ascii.ascii) : bool :=
  is_ascii_digit a || char_between 65 70 a || char_between 97 102 a.
Definition is_ascii_alphabetic (a : Ascii.ascii) : bool :=
  is_ascii_upper a || is_ascii_lower a.
Definition is_ascii_alphanumeric (a : Ascii.ascii) : bool :=
  is_ascii_alphabetic a || is_ascii_digit a.

Definition char_dot : Ascii.ascii := ".".
Definition char_backslash : Ascii.ascii := "\".
Definition char_lbracket : Ascii.ascii := "[".
Definition char_rbracket : Ascii.ascii := "]".
Definition char_lparen : Ascii.ascii := "(".
Definition char_rparen : Ascii.ascii := ")".
Definition char_dquote : Ascii.ascii := Ascii.ascii_of_N 34.
Definition char_squote : Ascii.ascii := "'".
Definition char_question : Ascii.ascii := "?".
Definition char_dollar : Ascii.ascii := "$".
Definition char_colon : Ascii.ascii := ":".
Definition char_semicolon : Ascii.ascii := ";".
Definition char_comma : Ascii.ascii := ",".
Definition char_lbrace : Ascii.ascii := "{".
Definition char_rbrace : Ascii.ascii := "}".
Definition char_cr : Ascii.ascii := Ascii.ascii_of_N 13.
Definition char_lf : Ascii.ascii := Ascii.ascii_of_N 10.
Definition char_tab : Ascii.ascii := Ascii.ascii_of_N 9.

Definition char_to_lower (a : Ascii.ascii) : Ascii.ascii :=
  if is_ascii_upper a then Ascii.ascii_of_N (char_code a + 32) else a.
Definition char_to_upper (a : Ascii.ascii) : Ascii.ascii :=
  if is_ascii_lower a then Ascii.ascii_of_N (char_code a - 32) else a.

Fixpoint string_map (f : Ascii.ascii -> Ascii.ascii) (s : string) : string :=
  match s with
  | EmptyString => EmptyString
  | String a s' => String (f a) (string_map f s')
  end.

Definition to_ascii_lowercase : string -> string := string_map char_to_lower.
Definition to_ascii_uppercase : string -> string := string_map char_to_upper.

Fixpoint trim_start (s : string) : string :=
  match s with
  | EmptyString => EmptyString
  | String a s' => if is_whitespace a then trim_start s' else s
  end.

Fixpoint trim_end (s : string) : string :=
  match s with
  | EmptyString => EmptyString
  | String a s' =>
      match trim_end s' with
      | EmptyString => if is_whitespace a then EmptyString else String a EmptyString
      | t => String a t
      end
  end.

(** [str::trim]. *)
Definition trim (s : string) : string := trim_end (trim_start s).

(** [str::split] on one character: never empty. *)
Fixpoint split_on (c : Ascii.ascii) (s : string) : list string :=
  match s with
  | EmptyString => [EmptyString]
  | String a s' =>
      if Ascii.eqb a c then EmptyString :: split_on c s'
      else match split_on c s' with
           | [] => [String a EmptyString]
           | p :: ps => String a p :: ps
           end
  end.

Fixpoint string_contains (c : Ascii.ascii) (s : string) : bool :=
  match s with
  | EmptyString => false
  | String a s' => Ascii.eqb a c || string_contains c s'
  end.

(** Text up to the parenthesis that closes [depth] open ones. *)
Fixpoint match_paren (s : string) (depth : nat) : option (string * string) :=
  match s with
  | EmptyString => None
  | String a s' =>
      if Ascii.eqb a char_lparen then
        option_map (fun '(c, r) => (String a c, r)) (match_paren s' (S depth))
      else if Ascii.eqb a char_rparen then
        match depth with
        | S (S d) => option_map (fun '(c, r) => (String a c, r)) (match_paren s' (S d))
        | _ => Some (EmptyString, s')
        end
      else option_map (fun '(c, r) => (String a c, r)) (match_paren s' depth)
  end.

(** [str::strip_suffix]. *)
Definition strip_suffix (d s : string) : option string :=
  let n := (String.length s - String.length d)%nat in
  if (String.length d <=? String.length s)%nat
     && String.eqb (String.substring n (String.length d) s) d
  then Some (String.substring 0 n s)
  else None.

(** [str::starts_with] and [str::ends_with]. *)
Definition starts_with (d s : string) : bool := is_some (strip_prefix d s).
Definition ends_with (d s : string) : bool := is_some (strip_suffix d s).

(** [str::find]: the text before and after the first occurrence of [d]. *)
Fixpoint split_once (d s : string) : option (string * string) :=
  match strip_prefix d s with
  | Some r => Some (EmptyString, r)
  | None =>
      match s with
      | EmptyString => None
      | String a s' => option_map (fun '(l, r) => (String a l, r)) (split_once d s')
      end
  end.

(** [str::split] on the characters of a class. *)
Fixpoint split_by (p : Ascii.ascii -> bool) (s : string) : list string :=
  match s with
  | EmptyString => [EmptyString]
  | String a s' =>
      if p a then EmptyString :: split_by p s'
      else match split_by p s' with
           | [] => [String a EmptyString]
           | t :: ts => String a t :: ts
           end
  end.

Fixpoint string_forallb (p : Ascii.ascii -> bool) (s : string) : bool :=
  match s with
  | EmptyString => true
  | String a s' => p a && string_forallb p s'
  end.

Definition string_snoc (s : string) (a : Ascii.ascii) : string :=
  s +:+ String a EmptyString.

Definition is_empty (s : string) : bool := match s with EmptyString => true | _ => false end.

(** Digits of a decimal numeral, [None] on any other character. *)
Fixpoint parse_digits (s : string) (acc : Z) : option Z :=
  match s with
  | EmptyString => Some acc
  | String a s' =>
      if is_ascii_digit a then parse_digits s' (acc * 10 + (Z.of_N (char_code a) - 48))
      else None
  end.

Definition parse_unsigned (s : string) : option Z :=
  match s with
  | EmptyString => None
  | _ => parse_digits s 0
  end.

(** [str::parse::<i64>]. *)
Definition parse_i64 (s : string) : option Z :=
  let v := match s with
           | String "-" s' => option_map Z.opp (parse_unsigned s')
           | String "+" s' => parse_unsigned s'
           | _ => parse_unsigned s
           end in
  match v with
  | Some v => if (i64_min <=? v) && (v <=? i64_max) then Some v else None
  | None => None
  end.

(** [str::parse::<usize>] on a 64-bit target. *)
Definition parse_usize (s : string) : option Z :=
  let v := match s with
           | String "+" s' => parse_unsigned s'
           | _ => parse_unsigned s
           end in
  match v with
  | Some v => if v <? u64_modulus then Some v else None
  | None => None
  end.

(** ** More on lists *)

(** Stable sorting commutes with filtering and with key-preserving maps. *)
Lemma StronglySorted_filter {A} (R : relation A) (P : A -> Prop) `{!forall x, Decision (P x)} (l : list A) :
  StronglySorted R l -> StronglySorted R (filter P l).
Proof.
  induction 1 as [|x l Hs IH Hall]; [constructor|].
  rewrite filter_cons. case_decide; [|done]. constructor; [done|].
  rewrite Forall_forall in *. intros y [_ ?]%list_elem_of_filter. auto.
Qed.

Lemma filter_comm {A} (P Q : A -> Prop) `{!forall x, Decision (P x), !forall x, Decision (Q x)} (l : list A) :
  filter P (filter Q l) = filter Q (filter P l).
Proof.
  induction l as [|x l IH]; [done|].
  rewrite !filter_cons. repeat case_decide; rewrite ?filter_cons; repeat case_decide; try done.
  by rewrite IH.
Qed.

Lemma sort_by_key_filter {A} (key : A -> Z) (P : A -> Prop) `{!forall x, Decision (P x)} (l : list A) :
  sort_by_key key (filter P l) = filter P (sort_by_key key l).
Proof.
  apply (stable_sort_unique key).
  - apply sort_by_key_sorted.
  - apply StronglySorted_filter, sort_by_key_sorted.
  - intros k. rewrite sort_by_key_stable, (filter_comm _ P), (filter_comm _ P).
    by rewrite sort_by_key_stable.
Qed.

Lemma sort_by_key_map {A B} (f : A -> B) (kA : A -> Z) (kB : B -> Z) l :
  (forall x, kB (f x) = kA x) -> sort_by_key kB (map f l) = map f (sort_by_key kA l).
Proof.
  intros Hk. induction l as [|x l IH]; [done|]. simpl map.
  rewrite !sort_by_key_cons, IH. generalize (sort_by_key kA l) as m.
  induction m as [|y m IHm]; [done|]. simpl. rewrite !Hk.
  destruct (kA x <=? kA y); [done|]. simpl. by rewrite IHm.
Qed.

(** The blocks of a list by a key, one block per key of [ks]. *)
Definition blocks {A K} `{EqDecision K} (f : A -> K) (ks : list K) (l : list A) : list A :=
  flat_map (fun k => filter (fun x => f x = k) l) ks.

Section blocks.
Context {A K : Type} `{EqDecision K} (f : A -> K).
Implicit Types (l : list A) (ks : list K).

Lemma filter_elem_of_cons k ks l :
  k ∉ ks ->
  filter (fun x => f x ∈ k :: ks) l
  ≡ₚ filter (fun x => f x = k) l ++ filter (fun x => f x ∈ ks) l.
Proof.
  intros Hk. induction l as [|x l IH]; [done|]. rewrite !filter_cons.
  destruct (decide (f x = k)) as [E|E].
  - rewrite decide_True by (rewrite E; left).
    rewrite (decide_False (P := f x ∈ ks)) by (by rewrite E). by rewrite IH.
  - destruct (decide (f x ∈ ks)).
    + rewrite decide_True by (by right). rewrite IH. by rewrite Permutation_middle.
    + rewrite decide_False; [done|]. by intros [?|?]%elem_of_cons.
Qed.

Lemma blocks_Permutation ks l :
  NoDup ks -> (forall x, x ∈ l -> f x ∈ ks) -> blocks f ks l ≡ₚ l.
Proof.
  intros Hnd Hcov.
  assert (blocks f ks l ≡ₚ filter (fun x => f x ∈ ks) l) as ->.
  { clear Hcov. induction Hnd as [|k ks Hk Hnd IH].
    - induction l as [|x l IH]; [done|]. rewrite filter_cons, decide_False; [done|].
      apply not_elem_of_nil.
    - rewrite filter_elem_of_cons by done. unfold blocks in *. simpl. by rewrite IH. }
  induction l as [|x l IH]; [done|].
  rewrite filter_cons, decide_True by (apply Hcov; left).
  rewrite IH; [done|]. intros y Hy. apply Hcov. by right.
Qed.

Lemma blocks_elem ks l x : x ∈ blocks f ks l -> x ∈ l /\ f x ∈ ks.
Proof.
  unfold blocks. induction ks as [|k ks IH]; simpl; [by intros ?%elem_of_nil|].
  intros [[<- ?]%list_elem_of_filter|[? ?]%IH]%elem_of_app; split; try done; [left|by right].
Qed.

(** Elements of one key sit next to each other. *)
Lemma blocks_contiguous ks l i j k x y z :
  NoDup ks -> (i <= j <= k)%nat ->
  blocks f ks l !! i = Some x -> blocks f ks l !! j = Some y -> blocks f ks l !! k = Some z ->
  f x = f z -> f y = f x.
Proof.
  intros Hnd. revert i j k.
  induction Hnd as [|q ks Hq Hnd IH]; intros i j k Hijk; [done|].
  unfold blocks in *. cbn [flat_map].
  set (B := filter (fun x => f x = q) l) in *.
  assert (HB : forall n w, B !! n = Some w -> f w = q).
  { intros n w Hw. apply list_elem_of_lookup_2, list_elem_of_filter in Hw. tauto. }
  assert (HR : forall n w, flat_map (fun k => filter (fun x => f x = k) l) ks !! n = Some w ->
                f w <> q).
  { intros n w Hw E. apply list_elem_of_lookup_2, (blocks_elem ks l) in Hw as [_ Hw].
    by rewrite E in Hw. }
  rewrite !lookup_app_Some.
  intros [Hx|[Hi Hx]] [Hy|[Hj Hy]] [Hz|[Hk Hz]] E;
    try (apply lookup_lt_Some in Hy; lia);
    try (apply lookup_lt_Some in Hz; lia).
  - rewrite (HB _ _ Hx). eauto.
  - rewrite (HB _ _ Hx). eauto.
  - destruct (HR _ _ Hz). rewrite <- E. eauto.
  - eapply (IH (i - length B)%nat (j - length B)%nat (k - length B)%nat); eauto. lia.
Qed.
End blocks.

Lemma List_filter_filter {A} (f : A -> bool) (P : A -> Prop) `{!forall x, Decision (P x)}
    (l : list A) :
  (forall x, f x = true <-> P x) -> List.filter f l = filter P l.
Proof.
  intros Hf. induction l as [|x l IH]; [done|].
  rewrite filter_cons. simpl. rewrite IH. specialize (Hf x).
  case_decide; destruct (f x); try done; intuition congruence.
Qed.

Lemma filter_const_StronglySorted {A} (R : relation A) (l : list A) :
  (forall x y, x ∈ l -> y ∈ l -> R x y) -> StronglySorted R l.
Proof.
  induction l as [|x l IH]; intros H; constructor.
  - apply IH. intros y z ? ?. apply H; by right.
  - apply Forall_forall. intros y ?. apply H; [left|by right].
Qed.

Lemma StronglySorted_app_2 {A} (R : relation A) (l1 l2 : list A) :
  StronglySorted R l1 -> StronglySorted R l2 ->
  (forall x y, x ∈ l1 -> y ∈ l2 -> R x y) -> StronglySorted R (l1 ++ l2).
Proof.
  induction 1 as [|x l1 Hs IH Hall]; intros H2 H; [done|]. simpl. constructor.
  - apply IH; [done|]. intros y z ? ?. apply H; [by right|done].
  - apply Forall_app. split; [done|]. apply Forall_forall. intros y ?. apply H; [left|done].
Qed.

Lemma lookup_app_left {A} (P : A -> Prop) (l1 l2 : list A) i x :
  (forall y, y ∈ l2 -> ~ P y) -> P x -> (l1 ++ l2) !! i = Some x -> l1 !! i = Some x.
Proof.
  intros H2 HP [?|[_ Hx]]%lookup_app_Some; [done|].
  apply list_elem_of_lookup_2 in Hx. naive_solver.
Qed.

Lemma lookup_app_right {A} (P : A -> Prop) (l1 l2 : list A) i x :
  (forall y, y ∈ l1 -> ~ P y) -> P x -> (l1 ++ l2) !! i = Some x ->
  (length l1 <= i)%nat /\ l2 !! (i - length l1)%nat = Some x.
Proof.
  intros H1 HP [Hx|?]%lookup_app_Some; [|done].
  apply list_elem_of_lookup_2 in Hx. naive_solver.
Qed.

Lemma filter_replicate {A} (P : A -> Prop) `{!forall x, Decision (P x)} n (x : A) :
  filter P (replicate n x) = if decide (P x) then replicate n x else [].
Proof.
  induction n as [|n IH]; simpl; [by case_decide|].
  rewrite filter_cons, IH. by case_decide.
Qed.

Lemma filter_true {A} (P : A -> Prop) `{!forall x, Decision (P x)} (l : list A) :
  (forall x, x ∈ l -> P x) -> filter P l = l.
Proof.
  induction l as [|x l IH]; intros HP; [done|].
  rewrite filter_cons, decide_True by (apply HP; left).
  rewrite IH; [done|]. intros y ?. apply HP. by right.
Qed.

Lemma filter_false {A} (P : A -> Prop) `{!forall x, Decision (P x)} (l : list A) :
  (forall x, x ∈ l -> ~ P x) -> filter P l = [].
Proof.
  induction l as [|x l IH]; intros HP; [done|].
  rewrite filter_cons, decide_False by (apply HP; left).
  apply IH. intros y ?. apply HP. by right.
Qed.

Lemma fmap_id_on {A} (f : A -> A) (l : list A) :
  (forall x, x ∈ l -> f x = x) -> f <$> l = l.
Proof.
  induction l as [|x l IH]; intros H; [done|]. rewrite fmap_cons. f_equal.
  - apply H. left.
  - apply IH. intros y ?. apply H. by right.
Qed.

(** ** Lengths of texts *)

Lemma trim_start_length s : (String.length (trim_start s) <= String.length s)%nat.
Proof. induction s as [|a s IH]; simpl; [lia|]. destruct (is_whitespace a); simpl; lia. Qed.

Lemma trim_end_length s : (String.length (trim_end s) <= String.length s)%nat.
Proof.
  induction s as [|a s IH]; simpl; [lia|].
  destruct (trim_end s); [destruct (is_whitespace a)|]; simpl in *; lia.
Qed.

Lemma string_forallb_impl p q s :
  (forall c, p c = true -> q c = true) -> string_forallb p s = true -> string_forallb q s = true.
Proof.
  intros Hpq. induction s as [|c s IH]; [done|]. simpl. intros [Hc Hs]%andb_prop.
  by rewrite (Hpq c Hc), IH.
Qed.

Lemma trim_end_solid s : string_forallb (fun c => negb (is_whitespace c)) s = true -> trim_end s = s.
Proof.
  induction s as [|c s IH]; [done|]. simpl. intros [Hc%negb_true_iff Hs]%andb_prop.
  rewrite (IH Hs). destruct s; [by rewrite Hc|done].
Qed.

Lemma trim_length s : (String.length (trim s) <= String.length s)%nat.
Proof.
  unfold trim. pose proof (trim_end_length (trim_start s)). pose proof (trim_start_length s). lia.
Qed.

Lemma append_length s t : String.length (s +:+ t) = (String.length s + String.length t)%nat.
Proof. induction s as [|a s IH]; simpl; [done|]. by rewrite IH. Qed.

Lemma append_assoc (a b c : string) : (a +:+ b) +:+ c = a +:+ (b +:+ c).
Proof. induction a as [|x a IH]; [done|]. exact (f_equal (String x) IH). Qed.

Lemma append_nil_r s : s +:+ "" = s.
Proof. induction s as [|a s IH]; [done|]. exact (f_equal (String a) IH). Qed.

(** Induction on the length of a text. *)
Lemma string_length_ind (P : string -> Prop) :
  (forall s, (forall t, (String.length t < String.length s)%nat -> P t) -> P s) -> forall s, P s.
Proof. intros HP s. induction s using (well_founded_induction (well_founded_ltof _ String.length)). auto. Qed.

Lemma substring_length n m s : (String.length (String.substring n m s) <= String.length s)%nat.
Proof.
  revert n m. induction s as [|a s IH]; intros [|n] [|m]; simpl; try lia.
  - specialize (IH 0%nat m). lia.
  - specialize (IH n 0%nat). lia.
  - specialize (IH n (S m)). lia.
Qed.

(** ** Dependent case analysis *)

(** Split the hypothesis-free matches of a hypothesis. *)
Ltac case_in H :=
  repeat match type of H with
  | context [match ?x with _ => _ end] => destruct x eqn:?
  end.

Lemma trim_start_trim s : trim_start (trim s) = trim s.
Proof.
  unfold trim. induction s as [|a s IH]; [done|]. simpl.
  destruct (is_whitespace a) eqn:E; [done|]. simpl.
  rewrite E. destruct (trim_end s); simpl; by rewrite E.
Qed.

Lemma match_paren_length s d c r :
  match_paren s d = Some (c, r) -> (String.length c + String.length r < String.length s)%nat.
Proof.
  revert d c. induction s as [|a s IH]; intros d c Hm; simpl in Hm; [done|].
  case_in Hm; simplify_eq; simpl;
    repeat match goal with
    | H : option_map _ ?x = _ |- _ => destruct x as [[c' r']|] eqn:E; simplify_eq/=; apply IH in E
    end; lia.
Qed.

Lemma strip_prefix_length p s r :
  strip_prefix p s = Some r -> String.length s = (String.length p + String.length r)%nat.
Proof.
  revert s. induction p as [|a p IH]; intros s; simpl; [by intros [= ->]|].
  destruct s as [|b s]; [done|]. case_match; [|done]. intros ?%IH. simpl. lia.
Qed.

(** ** Texts in order *)

Definition text_lt (a b : string) : Prop := String.compare a b = Lt.

Lemma text_lt_trans a b c : text_lt a b -> text_lt b c -> text_lt a c.
Proof.
  unfold text_lt. change String.compare with String_as_OT.cmp. rewrite !String_as_OT.cmp_lt.
  apply String_as_OT.lt_trans.
Qed.

Lemma text_lt_irrefl a : ~ text_lt a a.
Proof.
  unfold text_lt. change String.compare with String_as_OT.cmp.
  by rewrite (proj2 (String_as_OT.cmp_eq a a) eq_refl).
Qed.

Lemma text_leb_lt a b : String.leb a b = true -> a <> b -> text_lt a b.
Proof.
  unfold String.leb, text_lt. destruct (String.compare a b) eqn:E; [|done|done].
  by apply String.compare_eq_iff in E.
Qed.

Lemma text_leb_gt a b : String.leb a b = false -> text_lt b a.
Proof.
  unfold String.leb, text_lt. rewrite (String.compare_antisym b a). by destruct (String.compare a b).
Qed.

Lemma text_ltb_lt a b : String.ltb a b = true <-> text_lt a b.
Proof. unfold String.ltb, text_lt. by destruct (String.compare a b). Qed.

Lemma text_leb_trans a b c : String.leb a b = true -> String.leb b c = true -> String.leb a c = true.
Proof.
  intros H1 H2. destruct (decide (a = b)) as [->|Hab]; [done|]. destruct (decide (b = c)) as [->|Hbc]; [done|].
  pose proof (text_lt_trans a b c (text_leb_lt _ _ H1 Hab) (text_leb_lt _ _ H2 Hbc)) as H.
  unfold text_lt in H. unfold String.leb. by rewrite H.
Qed.

Lemma text_leb_total a b : String.leb a b = false -> String.leb b a = true.
Proof. intros H%text_leb_gt. unfold text_lt in H. unfold String.leb. by rewrite H. Qed.
