(* ===== verification/Forward.v ===== *)
(** * Forwarding: plans, failure state and candidate selection

    Models [cyfs-gateway-lib/src/forward]: the forward plan a process chain
    hands to the executor ([plan.rs]), the per-candidate failure registry
    ([failure_state.rs]) and the selector that orders the candidates of one
    request ([selector.rs]).

    Integers are [Z]; [u32] and [usize] arithmetic that the code makes
    saturating or wrapping is written out.  [Instant] and [Duration] are
    nanosecond counts.  The [DefaultHasher] of the Rust library, whose
    algorithm is unspecified, is the parameter [string_hash]. *)

From S2P Require Import Prelude.

(** ** Plan data *)

Module Plan.

Definition DEFAULT_MAX_FAILS : Z := 1.
Definition DEFAULT_FAIL_TIMEOUT_MS : Z := 10000.

Definition duration_from_millis (ms : Z) : Z := ms * 1000000.

Inductive BalanceMethod : Type :=
| RoundRobin
| IpHash
| Hash (key : string)
| ConsistentHash (key : string)
| LeastTime.

Inductive NextUpstreamCondition : Type :=
| CondError
| CondTimeout
| Http5xx
| Http502
| Http503
| Http504
| InvalidHeader
| NonIdempotent.

#[export] Instance NextUpstreamCondition_eq_dec : EqDecision NextUpstreamCondition.
Proof. solve_decision. Defined.

Definition balance_parse (s : string) : Result BalanceMethod :=
  if String.eqb s "round_robin" || String.eqb s "rr" then Ok RoundRobin
  else if String.eqb s "ip_hash" then Ok IpHash
  else if String.eqb s "least_time" then Ok LeastTime
  else
    match strip_prefix "hash:" s with
    | Some EmptyString => Err "hash balance method requires a key"
    | Some rest => Ok (Hash rest)
    | None =>
        match strip_prefix "consistent_hash:" s with
        | Some EmptyString => Err "consistent_hash balance method requires a key"
        | Some rest => Ok (ConsistentHash rest)
        | None =>
            Err ("unsupported balance method '" +:+ s +:+
                 "': expected round_robin, ip_hash, least_time, hash:<key>, or consistent_hash:<key>")
        end
    end.

Definition requires_tunnel_manager (b : BalanceMethod) : bool :=
  match b with LeastTime => true | _ => false end.

Definition condition_parse (s : string) : Result NextUpstreamCondition :=
  if String.eqb s "error" then Ok CondError
  else if String.eqb s "timeout" then Ok CondTimeout
  else if String.eqb s "http_5xx" then Ok Http5xx
  else if String.eqb s "http_502" then Ok Http502
  else if String.eqb s "http_503" then Ok Http503
  else if String.eqb s "http_504" then Ok Http504
  else if String.eqb s "invalid_header" then Ok InvalidHeader
  else if String.eqb s "non_idempotent" then Ok NonIdempotent
  else if String.eqb s "off" then
    Err "'off' is not a condition; pass next_upstream=off instead"
  else
    Err ("unsupported next_upstream condition '" +:+ s +:+
         "': expected one of error, timeout, http_5xx, http_502, http_503, http_504, invalid_header, non_idempotent").

Definition is_connect_failure (c : NextUpstreamCondition) : bool :=
  match c with CondError | CondTimeout => true | _ => false end.

Definition is_http_status (c : NextUpstreamCondition) : bool :=
  match c with
  | Http5xx | Http502 | Http503 | Http504 | InvalidHeader => true
  | _ => false
  end.

Record NextUpstreamPolicy : Type := {
  conditions : list NextUpstreamCondition;
  tries : Z;
  timeout : option Z;
  max_body_buffer_bytes : Z
}.

Definition policy_off : NextUpstreamPolicy :=
  {| conditions := []; tries := 1; timeout := None; max_body_buffer_bytes := 0 |}.

Definition is_enabled (p : NextUpstreamPolicy) : bool :=
  negb (match conditions p with [] => true | _ => false end) && (1 <? tries p).

Definition allows (p : NextUpstreamPolicy) (cond : NextUpstreamCondition) : bool :=
  if bool_decide (cond ∈ conditions p) then true
  else if bool_decide (Http5xx ∈ conditions p)
          && match cond with Http502 | Http503 | Http504 => true | _ => false end
  then true
  else false.

Definition any_http_status (p : NextUpstreamPolicy) : bool :=
  existsb is_http_status (conditions p).

Definition allow_non_idempotent (p : NextUpstreamPolicy) : bool :=
  bool_decide (NonIdempotent ∈ conditions p).

Definition matches_http_status (p : NextUpstreamPolicy) (status : Z) : bool :=
  if (status =? 502) && allows p Http502 then true
  else if (status =? 503) && allows p Http503 then true
  else if (status =? 504) && allows p Http504 then true
  else if ((500 <=? status) && (status <=? 599)) && allows p Http5xx then true
  else false.

Fixpoint parse_condition_parts (parts : list string) : Result (list NextUpstreamCondition) :=
  match parts with
  | [] => Ok []
  | part :: rest =>
      let part := trim part in
      if String.eqb part "" then parse_condition_parts rest
      else
        let? c := condition_parse part in
        let? cs := parse_condition_parts rest in
        Ok (c :: cs)
  end.

Definition parse_conditions (spec : string) : Result (list NextUpstreamCondition * bool) :=
  let trimmed := trim spec in
  if String.eqb trimmed "" then Ok ([], true)
  else if String.eqb (to_ascii_lowercase trimmed) "off" then Ok ([], true)
  else
    let? out := parse_condition_parts (split_on ","%char trimmed) in
    Ok (out, false).

Inductive HttpMethodClass : Type := Idempotent | NotIdempotent.

Definition classify (method : string) : HttpMethodClass :=
  let upper := to_ascii_uppercase method in
  if existsb (String.eqb upper) ["GET"; "HEAD"; "PUT"; "DELETE"; "OPTIONS"; "TRACE"]
  then Idempotent else NotIdempotent.

Record ForwardTarget : Type := {
  url : string;
  weight : Z;
  backup : bool;
  max_fails : Z;
  fail_timeout : Z;
  server_id : option string
}.

#[export] Instance ForwardTarget_eq_dec : EqDecision ForwardTarget.
Proof. solve_decision. Defined.

Definition ForwardTarget_new (u : string) : ForwardTarget :=
  {| url := u; weight := 1; backup := false; max_fails := DEFAULT_MAX_FAILS;
     fail_timeout := duration_from_millis DEFAULT_FAIL_TIMEOUT_MS; server_id := None |}.

Definition with_weight (t : ForwardTarget) (w : Z) : ForwardTarget :=
  {| url := url t; weight := w; backup := backup t; max_fails := max_fails t;
     fail_timeout := fail_timeout t; server_id := server_id t |}.

Definition as_backup (t : ForwardTarget) : ForwardTarget :=
  {| url := url t; weight := weight t; backup := true; max_fails := max_fails t;
     fail_timeout := fail_timeout t; server_id := server_id t |}.

Definition with_server_id (t : ForwardTarget) (sid : string) : ForwardTarget :=
  {| url := url t; weight := weight t; backup := backup t; max_fails := max_fails t;
     fail_timeout := fail_timeout t; server_id := Some sid |}.

Record ForwardServer : Type := {
  srv_id : string;
  srv_weight : Z;
  srv_backup : bool;
  routes : list ForwardTarget;
  srv_max_fails : Z;
  srv_fail_timeout : Z
}.

Inductive ProviderRouteRetry : Type := RoutesOnly | AcrossServers.

Record ForwardPlan : Type := {
  group : option string;
  balance : BalanceMethod;
  next_upstream : NextUpstreamPolicy;
  candidates : list ForwardTarget;
  hash_key_value : option string;
  servers : list ForwardServer;
  retry_scope : ProviderRouteRetry
}.

Definition single_url (u : string) : ForwardPlan :=
  {| group := None; balance := RoundRobin; next_upstream := policy_off;
     candidates := [ForwardTarget_new u]; hash_key_value := None; servers := [];
     retry_scope := RoutesOnly |}.

Definition is_single_url (p : ForwardPlan) : bool :=
  match candidates p with
  | [c] => negb (is_enabled (next_upstream p)) && negb (backup c)
  | _ => false
  end.

Fixpoint validate_candidates (cs : list ForwardTarget) : Result unit :=
  match cs with
  | [] => Ok tt
  | c :: rest =>
      if String.eqb (url c) "" then Err "forward plan candidate has empty url"
      else if weight c =? 0 then
        Err ("forward plan candidate '" +:+ url c +:+ "' has zero weight")
      else validate_candidates rest
  end.

Fixpoint validate_servers (ss : list ForwardServer) : Result unit :=
  match ss with
  | [] => Ok tt
  | s :: rest =>
      if String.eqb (srv_id s) "" then Err "forward server has empty id"
      else if match routes s with [] => true | _ => false end then
        Err ("forward server '" +:+ srv_id s +:+ "' has no routes")
      else validate_servers rest
  end.

Definition validate (p : ForwardPlan) : Result unit :=
  match candidates p with
  | [] => Err "forward plan has no candidates"
  | _ =>
      let? _ := validate_candidates (candidates p) in
      let? _ :=
        match balance p, hash_key_value p with
        | Hash _, None | ConsistentHash _, None =>
            Err "hash / consistent_hash balance requires hash_key_value to be set"
        | _, _ => Ok tt
        end in
      validate_servers (servers p)
  end.

(** [format!("{:016x}", digest)] for a [u64]. *)
Definition hex_digit (d : Z) : Ascii.ascii :=
  Ascii.ascii_of_N (Z.to_N (if d <? 10 then 48 + d else 87 + d)).

Fixpoint hex_digits (n : nat) (v : Z) (acc : string) : string :=
  match n with
  | O => acc
  | S n' => hex_digits n' (v / 16) (String (hex_digit (v mod 16)) acc)
  end.

Definition format_016x (v : Z) : string := hex_digits 16 v "".

Definition failure_state_key (simple_hash : string -> Z) (p : ForwardPlan) : string :=
  match group p with
  | Some name => "named:" +:+ name
  | None =>
      let urls := stable_sort String.leb (map url (candidates p)) in
      let joined := String.concat "|" urls in
      "auto:" +:+ format_016x (simple_hash joined)
  end.

Definition target_of_route (s : ForwardServer) (r : ForwardTarget) : ForwardTarget :=
  {| url := url r;
     weight := if weight r =? 0 then srv_weight s else weight r;
     backup := srv_backup s || backup r;
     max_fails := max_fails r;
     fail_timeout := fail_timeout r;
     server_id := Some (srv_id s) |}.

Definition candidates_from_servers (ss : list ForwardServer) : list ForwardTarget :=
  flat_map (fun s => map (target_of_route s) (routes s)) ss.

End Plan.

(** ** Failure state: [failure_state.rs] *)

Module FailureState.

Record CandidateState : Type := {
  fail_count : Z;
  last_failure_at : option Z;
  ejected_until : option Z
}.

Definition CandidateState_default : CandidateState :=
  {| fail_count := 0; last_failure_at := None; ejected_until := None |}.

Definition state_is_ejected (s : CandidateState) (now : Z) : bool :=
  match ejected_until s with
  | Some deadline => now <? deadline
  | None => false
  end.

(** The [HashMap] behind the registry's mutex. *)
Abbreviation ForwardFailureRegistry := (gmap string CandidateState).

Definition make_key (group_key candidate_url : string) : string :=
  group_key +:+ String "|" candidate_url.

Definition snapshot (r : ForwardFailureRegistry) (group_key candidate_url : string)
  : CandidateState :=
  default CandidateState_default (r !! make_key group_key candidate_url).

Definition is_ejected (r : ForwardFailureRegistry) (group_key candidate_url : string)
    (now : Z) : bool :=
  state_is_ejected (snapshot r group_key candidate_url) now.

Definition record_success (r : ForwardFailureRegistry) (group_key candidate_url : string)
  : ForwardFailureRegistry :=
  delete (make_key group_key candidate_url) r.

(** The entry update of [record_failure] at time [now]. *)
Definition fail_entry (entry : CandidateState) (max_fails fail_timeout now : Z)
  : CandidateState :=
  let stale := match ejected_until entry with
               | Some deadline => deadline <=? now
               | None => false
               end in
  let count := if stale then 0 else fail_count entry in
  let until := if stale then None else ejected_until entry in
  let count := u32_saturating_add count 1 in
  let threshold := Z.max max_fails 1 in
  {| fail_count := count;
     last_failure_at := Some now;
     ejected_until := if threshold <=? count then Some (now + fail_timeout) else until |}.

Definition record_failure (r : ForwardFailureRegistry) (group_key candidate_url : string)
    (max_fails fail_timeout now : Z) : ForwardFailureRegistry :=
  <[make_key group_key candidate_url :=
      fail_entry (snapshot r group_key candidate_url) max_fails fail_timeout now]> r.

(** A run of failures of one candidate at the given instants. *)
Definition record_failures (r : ForwardFailureRegistry) (g u : string)
    (max_fails fail_timeout : Z) (times : list Z) : ForwardFailureRegistry :=
  fold_left (fun r now => record_failure r g u max_fails fail_timeout now) times r.

End FailureState.

(** ** Candidate selection: [selector.rs] *)

Module Selector.
Export Plan FailureState.

Inductive IpAddr : Type :=
| V4 (octets : list Z)
| V6 (octets : list Z).

Definition nginx_ip_hash_key (ip : IpAddr) : list Z :=
  match ip with
  | V4 o => take 3 o
  | V6 o => o
  end.

Definition nginx_ip_hash (ip : IpAddr) : Z :=
  fold_left (fun hash b => (hash * 113 + b) mod 6271) (nginx_ip_hash_key ip) 89.

Definition total_weight (targets : list ForwardTarget) : Z :=
  foldr (fun t acc => weight t + acc) 0 targets.

(** The loop of [pick_weighted_round_robin]: the first index whose running
    weight passes the cursor. *)
Fixpoint find_by_acc (targets : list ForwardTarget) (i : nat) (acc cursor : Z) : option nat :=
  match targets with
  | [] => None
  | t :: rest =>
      let acc := Z.min (acc + weight t) (u64_modulus - 1) in
      if cursor <? acc then Some i else find_by_acc rest (S i) acc cursor
  end.

(** Returns the leader and the counter after [fetch_add]. *)
Definition pick_weighted_round_robin (targets : list ForwardTarget) (rr_counter : Z)
  : option nat * Z :=
  match targets with
  | [] => (None, rr_counter)
  | _ =>
      let total := total_weight targets in
      if total =? 0 then (Some 0%nat, rr_counter)
      else
        let cursor := rr_counter mod total in
        (Some (default 0%nat (find_by_acc targets 0 0 cursor)),
         (rr_counter + 1) mod u64_modulus)
  end.

(** The loop of [pick_ip_hash] and [pick_hash]: subtract weights until the
    cursor falls inside one. *)
Fixpoint find_by_cursor (targets : list ForwardTarget) (i : nat) (cursor : Z) : option nat :=
  match targets with
  | [] => None
  | t :: rest =>
      if cursor <? weight t then Some i else find_by_cursor rest (S i) (cursor - weight t)
  end.

Definition pick_ip_hash (targets : list ForwardTarget) (ip : option IpAddr) : option nat :=
  match ip with
  | None => None
  | Some ip =>
      let total := total_weight targets in
      if total =? 0 then Some 0%nat
      else Some (default 0%nat (find_by_cursor targets 0 (nginx_ip_hash ip mod total)))
  end.

Definition VNODE_FACTOR : Z := 40.

(** The identity a candidate has on the hash ring. *)
Definition ring_id (t : ForwardTarget) : string := default (url t) (server_id t).

Section hashing.
Context (string_hash : string -> Z).

Definition pick_hash (targets : list ForwardTarget) (key : string) : option nat :=
  match targets with
  | [] => None
  | _ =>
      let total := total_weight targets in
      if total =? 0 then Some 0%nat
      else Some (default 0%nat (find_by_cursor targets 0 (string_hash key mod total)))
  end.

(** The virtual nodes of one candidate, and the ring before it is sorted. *)
Definition vnodes (i : nat) (t : ForwardTarget) : list (Z * nat) :=
  let n := u32_saturating_mul (Z.max (weight t) 1) VNODE_FACTOR in
  map (fun j => (string_hash (ring_id t +:+ "#" +:+ pretty (Z.of_nat j)), i))
      (seq 0 (Z.to_nat n)).

Fixpoint ring_from (i : nat) (targets : list ForwardTarget) : list (Z * nat) :=
  match targets with
  | [] => []
  | t :: rest => vnodes i t ++ ring_from (S i) rest
  end.

(** [partition_point(|&(h, _)| h < key_hash)] on the sorted ring, and the node
    there, wrapping to the first one past the end. *)
Fixpoint partition_point (ring : list (Z * nat)) (key_hash : Z) : nat :=
  match ring with
  | [] => 0
  | (h, _) :: rest => if h <? key_hash then S (partition_point rest key_hash) else 0
  end.

Definition pick_consistent_hash (targets : list ForwardTarget) (key : string) : option nat :=
  match targets with
  | [] => None
  | _ =>
      match ring_from 0 targets with
      | [] => Some 0%nat
      | ring0 =>
          let ring := sort_by_key fst ring0 in
          let pos := partition_point ring (string_hash key) in
          let pos := if Nat.eqb pos (length ring) then 0%nat else pos in
          snd <$> ring !! pos
      end
  end.

(** Returns the reordered tier and the round-robin counter. *)
Definition order_tier (targets : list ForwardTarget) (method : BalanceMethod)
    (rr_counter : Z) (source_ip : option IpAddr) (hash_key : string)
  : list ForwardTarget * Z :=
  if (length targets <=? 1)%nat then (targets, rr_counter)
  else
    let '(leader, rr_counter) :=
      match method with
      | LeastTime => (None, rr_counter)
      | RoundRobin => pick_weighted_round_robin targets rr_counter
      | IpHash => (pick_ip_hash targets source_ip, rr_counter)
      | Hash _ => (pick_hash targets hash_key, rr_counter)
      | ConsistentHash _ => (pick_consistent_hash targets hash_key, rr_counter)
      end in
    (match leader with
     | Some idx => rotate_left idx targets
     | None => targets
     end, rr_counter).

(** First-appearance order of the server ids of a tier. *)
Fixpoint server_order (targets : list ForwardTarget) (order : list (option string))
  : list (option string) :=
  match targets with
  | [] => order
  | t :: rest =>
      if bool_decide (server_id t ∈ order) then server_order rest order
      else server_order rest (order ++ [server_id t])
  end.

Fixpoint fill_buckets (targets : list ForwardTarget)
    (buckets : gmap (option string) (list ForwardTarget))
  : gmap (option string) (list ForwardTarget) :=
  match targets with
  | [] => buckets
  | t :: rest =>
      fill_buckets rest
        (<[server_id t := default [] (buckets !! server_id t) ++ [t]]> buckets)
  end.

Fixpoint drain_buckets (order : list (option string))
    (buckets : gmap (option string) (list ForwardTarget)) : list ForwardTarget :=
  match order with
  | [] => []
  | sid :: rest => default [] (buckets !! sid) ++ drain_buckets rest (delete sid buckets)
  end.

Definition group_by_server_id (targets : list ForwardTarget) : list ForwardTarget :=
  if forallb (fun t => match server_id t with None => true | _ => false end) targets
  then targets
  else drain_buckets (server_order targets []) (fill_buckets targets ∅).

(** One [select] call at time [now]: the attempt order and the counter. *)
Definition select (plan : ForwardPlan) (registry : ForwardFailureRegistry)
    (source_ip : option IpAddr) (now : Z) (rr_counter : Z)
  : list ForwardTarget * Z :=
  let group_key := failure_state_key string_hash plan in
  let ejected c := is_ejected registry group_key (url c) now in
  let healthy_primary :=
    List.filter (fun c => negb (backup c) && negb (ejected c)) (candidates plan) in
  let healthy_backup :=
    List.filter (fun c => backup c && negb (ejected c)) (candidates plan) in
  let ejected_primary :=
    List.filter (fun c => negb (backup c) && ejected c) (candidates plan) in
  let ejected_backup :=
    List.filter (fun c => backup c && ejected c) (candidates plan) in
  let hash_key := default "" (hash_key_value plan) in
  let '(hp, rr_counter) :=
    order_tier healthy_primary (balance plan) rr_counter source_ip hash_key in
  let '(hb, rr_counter) :=
    order_tier healthy_backup (balance plan) rr_counter source_ip hash_key in
  (group_by_server_id hp ++ group_by_server_id hb ++ ejected_primary ++ ejected_backup,
   rr_counter).

End hashing.

(** [apply_least_time_order]: the rank of a URL is its last index in the list
    (later [HashMap::insert]s overwrite earlier ones). *)
Fixpoint url_rank (u : string) (urls : list string) (i : Z) (found : option Z) : option Z :=
  match urls with
  | [] => found
  | v :: rest => url_rank u rest (i + 1) (if String.eqb v u then Some i else found)
  end.

Definition apply_least_time_order (plan : ForwardPlan) (sorted_urls : list string)
  : ForwardPlan :=
  match candidates plan, sorted_urls with
  | [], _ => plan
  | _, [] => plan
  | cs, _ =>
      let unknown_rank := Z.of_nat (length sorted_urls) in
      let rank c := default unknown_rank (url_rank (url c) sorted_urls 0 None) in
      {| group := group plan; balance := balance plan;
         next_upstream := next_upstream plan;
         candidates := sort_by_key rank cs;
         hash_key_value := hash_key_value plan; servers := servers plan;
         retry_scope := retry_scope plan |}
  end.

End Selector.
