(* ===== verification/ForwardFacts.v ===== *)
(** * Correctness of forwarding

    Theorems about [Forward]: the selector permutes the candidates and orders
    them by health tier, keeps the routes of one server together, is fair in
    round robin and stable in consistent hashing; the failure registry ejects
    a candidate exactly on its threshold; plan validation and retry policy
    mean what their documentation says. *)

From S2P Require Import Prelude Forward.
Import Selector.

(** ** Grouping by server *)

Lemma server_order_spec ts order :
  NoDup order ->
  NoDup (server_order ts order) /\
  (forall s, s ∈ server_order ts order <-> s ∈ order \/ exists t, t ∈ ts /\ server_id t = s).
Proof.
  revert order. induction ts as [|t ts IH]; intros order Hnd; simpl.
  { split; [done|]. intros s. split; [by left|].
    intros [?|[? [?%elem_of_nil _]]]; done. }
  case_bool_decide as Hin.
  - destruct (IH order Hnd) as [? Hs]. split; [done|]. intros s. rewrite Hs.
    set_solver.
  - destruct (IH (order ++ [server_id t])) as [? Hs].
    { apply NoDup_app. split; [done|]. split; [set_solver|]. apply NoDup_singleton. }
    split; [done|]. intros s. rewrite Hs. set_solver.
Qed.

Lemma fill_buckets_lookup ts b sid :
  default [] (fill_buckets ts b !! sid)
  = default [] (b !! sid) ++ filter (fun t => server_id t = sid) ts.
Proof.
  revert b. induction ts as [|t ts IH]; intros b; simpl.
  { by rewrite app_nil_r. }
  rewrite IH, filter_cons. case_decide as E.
  - subst sid. rewrite lookup_insert_eq. simpl. by rewrite <- app_assoc.
  - by rewrite lookup_insert_ne.
Qed.

Lemma drain_buckets_spec order b :
  NoDup order ->
  drain_buckets order b = flat_map (fun sid => default [] (b !! sid)) order.
Proof.
  intros Hnd. revert b. induction Hnd as [|s order Hs Hnd IH]; intros b; [done|].
  simpl. rewrite IH. f_equal. clear IH Hnd.
  induction order as [|s' order IH]; [done|]. simpl.
  rewrite lookup_delete_ne by set_solver. rewrite IH by set_solver. done.
Qed.

(** The grouped tier is the concatenation of the blocks of its server ids in
    first-appearance order. *)
Lemma group_by_server_id_blocks ts :
  group_by_server_id ts = blocks server_id (server_order ts []) ts.
Proof.
  unfold group_by_server_id. destruct (forallb _ ts) eqn:E.
  - assert (Hn : forall t, t ∈ ts -> server_id t = None).
    { intros t Ht%list_elem_of_In. rewrite forallb_forall in E.
      specialize (E t Ht). by destruct (server_id t). }
    clear E. destruct ts as [|t ts]; [done|].
    assert (Ho : server_order (t :: ts) [] = [None]).
    { cbn [server_order]. rewrite bool_decide_false by apply not_elem_of_nil. simpl app.
      rewrite Hn by set_solver.
      assert (Hn' : forall u, u ∈ ts -> server_id u = None) by set_solver.
      clear Hn. induction ts as [|u ts IH]; [done|]. cbn [server_order].
      rewrite Hn' by set_solver. rewrite bool_decide_true by set_solver.
      apply IH. set_solver. }
    rewrite Ho. unfold blocks. simpl flat_map. rewrite app_nil_r.
    clear Ho. induction (t :: ts) as [|u us IH]; [done|].
    rewrite filter_cons, decide_True by (apply Hn; set_solver).
    rewrite <- IH; [done|]. set_solver.
  - destruct (server_order_spec ts []) as [Hnd _]; [constructor|].
    rewrite drain_buckets_spec by done. unfold blocks.
    induction (server_order ts []) as [|s o IH]; [done|]. simpl.
    rewrite fill_buckets_lookup, lookup_empty. simpl.
    rewrite IH; [done|]. by inversion Hnd.
Qed.

Lemma server_order_NoDup ts : NoDup (server_order ts []).
Proof. apply server_order_spec. constructor. Qed.

Lemma group_by_server_id_Permutation ts : group_by_server_id ts ≡ₚ ts.
Proof.
  rewrite group_by_server_id_blocks. apply blocks_Permutation.
  - apply server_order_NoDup.
  - intros t Ht. apply (server_order_spec ts []); [constructor|]. eauto.
Qed.
#[export] Hint Resolve group_by_server_id_Permutation : gw.

Lemma group_by_server_id_contiguous ts i j k x y z :
  (i <= j <= k)%nat ->
  group_by_server_id ts !! i = Some x -> group_by_server_id ts !! j = Some y ->
  group_by_server_id ts !! k = Some z ->
  server_id x = server_id z -> server_id y = server_id x.
Proof.
  rewrite group_by_server_id_blocks. intros.
  eapply (blocks_contiguous server_id); eauto using server_order_NoDup.
Qed.

(** ** Leaders are valid indices *)

Lemma find_by_cursor_lt ts i c j :
  find_by_cursor ts i c = Some j -> (i <= j < i + length ts)%nat.
Proof.
  revert i c. induction ts as [|t ts IH]; intros i c; simpl; [done|].
  destruct (c <? weight t); [intros [= <-]; lia|]. intros ?%IH. lia.
Qed.

Lemma find_by_acc_lt ts i acc c j :
  find_by_acc ts i acc c = Some j -> (i <= j < i + length ts)%nat.
Proof.
  revert i acc. induction ts as [|t ts IH]; intros i acc; simpl; [done|].
  destruct (c <? _); [intros [= <-]; lia|]. intros ?%IH. lia.
Qed.

Lemma ring_from_index h i ts p :
  p ∈ ring_from h i ts -> (i <= p.2 < i + length ts)%nat.
Proof.
  revert i. induction ts as [|t ts IH]; intros i; simpl; [by intros ?%elem_of_nil|].
  intros [Hp|Hp%IH]%elem_of_app; [|lia].
  unfold vnodes in Hp. apply list_elem_of_fmap in Hp as [j [-> _]]. simpl. lia.
Qed.

(** The leader an [order_tier] call rotates to. *)
Definition tier_leader (string_hash : string -> Z) (targets : list ForwardTarget)
    (method : BalanceMethod) (rr : Z) (ip : option IpAddr) (key : string) : option nat :=
  match method with
  | LeastTime => None
  | RoundRobin => fst (pick_weighted_round_robin targets rr)
  | IpHash => pick_ip_hash targets ip
  | Hash _ => pick_hash string_hash targets key
  | ConsistentHash _ => pick_consistent_hash string_hash targets key
  end.

Lemma default_find_lt {ts : list ForwardTarget} (o : option nat) :
  ts <> [] -> (forall j, o = Some j -> (j < length ts)%nat) ->
  (default 0%nat o < length ts)%nat.
Proof.
  intros Hne Ho. destruct o as [j|]; simpl; [auto|]. destruct ts; [done|]. simpl. lia.
Qed.

Lemma tier_leader_lt h ts m rr ip key j :
  ts <> [] -> tier_leader h ts m rr ip key = Some j -> (j < length ts)%nat.
Proof.
  intros Hne. assert (0 < length ts)%nat by (destruct ts; simpl; [done|lia]).
  assert (Hc : forall c, (default 0%nat (find_by_cursor ts 0 c) < length ts)%nat).
  { intros c. apply default_find_lt; [done|]. intros ? ?%find_by_cursor_lt. lia. }
  assert (Ha : forall c, (default 0%nat (find_by_acc ts 0 0 c) < length ts)%nat).
  { intros c. apply default_find_lt; [done|]. intros ? ?%find_by_acc_lt. lia. }
  destruct m; simpl; try done.
  - unfold pick_weighted_round_robin. destruct ts; [done|].
    case_match; simpl; intros [= <-]; [done|]. apply Ha.
  - unfold pick_ip_hash. destruct ip; [|done]. case_match; intros [= <-]; [done|]. apply Hc.
  - unfold pick_hash. destruct ts; [done|]. case_match; intros [= <-]; [done|]. apply Hc.
  - unfold pick_consistent_hash. destruct ts as [|t ts]; [done|].
    destruct (ring_from h 0 (t :: ts)) as [|r rs] eqn:Er; [intros [= <-]; done|].
    rewrite <- Er. intros [p [Hp ->]]%fmap_Some.
    apply list_elem_of_lookup_2 in Hp. rewrite sort_by_key_Permutation in Hp.
    apply ring_from_index in Hp. lia.
Qed.

Lemma order_tier_eq h ts m rr ip key :
  fst (order_tier h ts m rr ip key)
  = if (length ts <=? 1)%nat then ts
    else match tier_leader h ts m rr ip key with
         | Some idx => rotate_left idx ts
         | None => ts
         end.
Proof.
  unfold order_tier, tier_leader. destruct (length ts <=? 1)%nat; [done|].
  destruct m; try done. by destruct (pick_weighted_round_robin ts rr).
Qed.

Lemma order_tier_Permutation h ts m rr ip key :
  fst (order_tier h ts m rr ip key) ≡ₚ ts.
Proof.
  rewrite order_tier_eq. repeat case_match; auto with gw.
Qed.

(** ** The attempt order *)

(** Health tier of a candidate: healthy primaries, healthy backups, ejected
    primaries, ejected backups. *)
Definition tier_rank (string_hash : string -> Z) (plan : ForwardPlan)
    (registry : ForwardFailureRegistry) (now : Z) (c : ForwardTarget) : Z :=
  (if is_ejected registry (failure_state_key string_hash plan) (url c) now then 2 else 0)
  + (if backup c then 1 else 0).

Section select.
Context (h : string -> Z) (plan : ForwardPlan) (reg : ForwardFailureRegistry)
  (ip : option IpAddr) (now rr : Z).
#[local] Abbreviation rank := (tier_rank h plan reg now).
#[local] Abbreviation out := (fst (select h plan reg ip now rr)).

Definition tier (k : Z) : list ForwardTarget :=
  filter (fun c => rank c = k) (candidates plan).

(** The four segments of the attempt order. *)
Lemma select_segments :
  exists t0 t1,
    out = group_by_server_id t0 ++ group_by_server_id t1 ++ tier 2 ++ tier 3 /\
    t0 ≡ₚ tier 0 /\ t1 ≡ₚ tier 1.
Proof.
  assert (Hr : forall k (f : ForwardTarget -> bool),
    (forall c, f c = true <-> rank c = k) -> List.filter f (candidates plan) = tier k).
  { intros. by apply List_filter_filter. }
  unfold select.
  rewrite (Hr 0), (Hr 1), (Hr 2), (Hr 3);
    try (intros c; unfold tier_rank; destruct (backup c), (is_ejected _ _ _ _); simpl; lia).
  pose proof (order_tier_Permutation h (tier 0) (balance plan) rr ip
                (default "" (hash_key_value plan))) as P0.
  destruct (order_tier _ (tier 0) _ _ _ _) as [hp rr1].
  pose proof (order_tier_Permutation h (tier 1) (balance plan) rr1 ip
                (default "" (hash_key_value plan))) as P1.
  destruct (order_tier _ (tier 1) _ _ _ _) as [hb rr2].
  by exists hp, hb.
Qed.

Lemma tier_elem k c : c ∈ tier k -> rank c = k.
Proof. by intros [? _]%list_elem_of_filter. Qed.

Lemma tiers_Permutation : tier 0 ++ tier 1 ++ tier 2 ++ tier 3 ≡ₚ candidates plan.
Proof.
  rewrite <- (blocks_Permutation rank [0; 1; 2; 3] (candidates plan)).
  - unfold blocks. simpl. by rewrite app_nil_r.
  - apply (bool_decide_unpack _). by vm_compute.
  - intros c _. unfold tier_rank. destruct (backup c), (is_ejected _ _ _ _); simpl; set_solver.
Qed.

Lemma group_tier_rank ts k :
  ts ≡ₚ tier k -> forall c, c ∈ group_by_server_id ts -> rank c = k.
Proof. intros H c. rewrite group_by_server_id_Permutation, H. apply tier_elem. Qed.

(** No candidate is dropped or duplicated: the attempt order of a request
    is a permutation of the plan's candidates. *)
Theorem select_permutation : fst (select h plan reg ip now rr) ≡ₚ candidates plan.
Proof.
  destruct select_segments as (t0 & t1 & -> & H0 & H1).
  rewrite !group_by_server_id_Permutation, H0, H1. apply tiers_Permutation.
Qed.

(** Primaries come before backups and candidates inside their ejection
    window come last: the order is sorted by health tier. *)
Theorem select_tier_sorted :
  StronglySorted (key_le (tier_rank h plan reg now)) (fst (select h plan reg ip now rr)).
Proof.
  destruct select_segments as (t0 & t1 & -> & H0 & H1).
  pose proof (group_tier_rank t0 0 H0) as R0. pose proof (group_tier_rank t1 1 H1) as R1.
  pose proof (tier_elem 2) as R2. pose proof (tier_elem 3) as R3.
  assert (Hc : forall l k, (forall c, c ∈ l -> rank c = k) -> StronglySorted (key_le rank) l).
  { intros l k Hl. apply filter_const_StronglySorted. intros x y Hx Hy. unfold key_le.
    rewrite (Hl x Hx), (Hl y Hy). lia. }
  repeat apply StronglySorted_app_2; eauto; intros x y Hx Hy; unfold key_le;
    rewrite ?elem_of_app in Hy; destruct_or?;
    repeat match goal with
    | H : _ ∈ _ |- _ => first [apply R0 in H|apply R1 in H|apply R2 in H|apply R3 in H]
    end; lia.
Qed.

(** The routes of one server stay adjacent: between two healthy candidates
    of one tier that share a server id, every attempt has that server id. *)
Theorem select_server_adjacent i j k x y z :
  let attempts := fst (select h plan reg ip now rr) in
  (i <= j <= k)%nat ->
  attempts !! i = Some x -> attempts !! j = Some y -> attempts !! k = Some z ->
  tier_rank h plan reg now x = tier_rank h plan reg now z ->
  tier_rank h plan reg now x < 2 -> server_id x = server_id z ->
  server_id y = server_id x.
Proof.
  intros attempts. subst attempts. destruct select_segments as (t0 & t1 & -> & H0 & H1).
  pose proof (group_tier_rank t0 0 H0) as R0. pose proof (group_tier_rank t1 1 H1) as R1.
  intros Hijk Hx Hy Hz Hr Hlt.
  assert (HE : forall c, c ∈ tier 2 ++ tier 3 -> ~ rank c < 2).
  { intros c [->%tier_elem| ->%tier_elem]%elem_of_app; lia. }
  destruct (decide (rank x = 0)) as [E|E].
  - assert (HG : forall c, c ∈ group_by_server_id t1 ++ tier 2 ++ tier 3 -> ~ rank c = 0).
    { intros c [Hc%R1|Hc%HE]%elem_of_app; lia. }
    apply (lookup_app_left _ _ _ _ _ HG) in Hx; [|done].
    apply (lookup_app_left _ _ _ _ _ HG) in Hz; [|congruence].
    rewrite lookup_app_l in Hy by (apply lookup_lt_Some in Hz; lia).
    by eapply group_by_server_id_contiguous.
  - assert (HG : forall c, c ∈ group_by_server_id t0 -> ~ rank c <> 0).
    { intros c Hc%R0. lia. }
    apply (lookup_app_right _ _ _ _ _ HG) in Hx as [Hi Hx]; [|done].
    apply (lookup_app_right _ _ _ _ _ HG) in Hz as [Hk Hz]; [|congruence].
    rewrite lookup_app_r in Hy by lia.
    apply (lookup_app_left _ _ _ _ _ HE) in Hx; [|lia].
    apply (lookup_app_left _ _ _ _ _ HE) in Hz; [|lia].
    rewrite lookup_app_l in Hy by (apply lookup_lt_Some in Hz; lia).
    set (n := length (group_by_server_id t0)) in *.
    apply (group_by_server_id_contiguous t1 (i - n) (j - n) (k - n)); [lia|done..].
Qed.
End select.

(** ** Weighted round robin *)

(** The leaders of [n] successive calls on one tier. *)
Fixpoint rr_leaders (n : nat) (ts : list ForwardTarget) (rr : Z) : list (option nat) :=
  match n with
  | O => []
  | S n' => let '(l, rr') := pick_weighted_round_robin ts rr in l :: rr_leaders n' ts rr'
  end.

(** Index [i] as many times as its weight, then index [i+1], and so on. *)
Fixpoint expand_weights (i : nat) (ts : list ForwardTarget) : list (option nat) :=
  match ts with
  | [] => []
  | t :: rest => replicate (Z.to_nat (weight t)) (Some i) ++ expand_weights (S i) rest
  end.

Definition weights_ok (ts : list ForwardTarget) : Prop := Forall (fun t => 0 <= weight t) ts.

Lemma total_weight_nonneg ts : weights_ok ts -> 0 <= total_weight ts.
Proof. induction 1; simpl; lia. Qed.

Lemma find_by_acc_cursor ts i acc c :
  weights_ok ts -> 0 <= acc -> acc + total_weight ts < u64_modulus ->
  find_by_acc ts i acc c = find_by_cursor ts i (c - acc).
Proof.
  intros Hw. revert i acc. induction Hw as [|t ts Ht Hw IH]; intros i acc Ha Hs; [done|].
  cbn [find_by_acc find_by_cursor total_weight foldr] in *.
  pose proof (total_weight_nonneg ts Hw). fold (total_weight ts) in Hs.
  rewrite Z.min_l by lia.
  destruct (c <? acc + weight t) eqn:E1, (c - acc <? weight t) eqn:E2; zbool; try lia; [done|].
  rewrite IH by lia. f_equal. lia.
Qed.

Lemma find_by_cursor_schedule ts i :
  weights_ok ts ->
  find_by_cursor ts i <$> seqZ 0 (total_weight ts) = expand_weights i ts.
Proof.
  intros Hw. revert i. induction Hw as [|t ts Ht Hw IH]; intros i; [done|].
  cbn [total_weight foldr expand_weights]. fold (total_weight ts).
  rewrite seqZ_app by (auto using total_weight_nonneg).
  rewrite fmap_app. f_equal.
  - rewrite <- (length_seqZ 0 (weight t)). apply const_fmap.
    intros j c [-> Hc]%lookup_seqZ. simpl. rewrite (proj2 (Z.ltb_lt _ _)); [done|lia].
  - rewrite <- IH, Z.add_0_l, <- (Z.add_0_r (weight t)), <- fmap_add_seqZ.
    rewrite <- list_fmap_compose. apply list_fmap_ext. intros j c [-> Hc]%lookup_seqZ.
    simpl. rewrite (proj2 (Z.ltb_ge _ _)) by lia. f_equal. lia.
Qed.

(** A window of [total] consecutive counters meets every residue once. *)
Lemma mod_window_Permutation c T :
  0 < T -> (fun k => k mod T) <$> seqZ c T ≡ₚ seqZ 0 T.
Proof.
  intros HT. apply NoDup_Permutation.
  - apply NoDup_fmap_2_strong; [|apply NoDup_seqZ].
    intros x y Hx%elem_of_seqZ Hy%elem_of_seqZ E.
    pose proof (Z.div_mod x T). pose proof (Z.div_mod y T).
    assert (x / T = y / T) by nia. nia.
  - apply NoDup_seqZ.
  - intros x. rewrite list_elem_of_fmap, elem_of_seqZ. split.
    + intros [k [-> _]]. pose proof (Z.mod_pos_bound k T). lia.
    + intros Hx. exists (c + (x - c) mod T). split.
      * rewrite Zplus_mod_idemp_r. rewrite Z.mod_small by lia. lia.
      * apply elem_of_seqZ. pose proof (Z.mod_pos_bound (x - c) T). lia.
Qed.

Lemma expand_weights_low ts i k :
  (k < i)%nat -> filter (fun l => l = Some k) (expand_weights i ts) = [].
Proof.
  revert i. induction ts as [|t ts IH]; intros i Hk; [done|]. simpl.
  rewrite filter_app, IH, filter_replicate, decide_False by (lia || (intros [= ->]; lia)).
  done.
Qed.

Lemma expand_weights_count ts i j t :
  ts !! j = Some t ->
  length (filter (fun l => l = Some (i + j)%nat) (expand_weights i ts)) = Z.to_nat (weight t).
Proof.
  revert i j. induction ts as [|u ts IH]; intros i [|j]; intros H; try done; simpl in *.
  - injection H as ->. rewrite Nat.add_0_r, filter_app, length_app, expand_weights_low by lia.
    rewrite filter_replicate, decide_True, length_replicate by done. simpl. lia.
  - rewrite filter_app, length_app, filter_replicate, decide_False by (intros [= E]; lia).
    simpl. rewrite <- Nat.add_succ_comm. by apply IH.
Qed.

Lemma find_by_cursor_total ts i c :
  weights_ok ts -> 0 <= c < total_weight ts -> is_Some (find_by_cursor ts i c).
Proof.
  intros Hw. revert i c. induction Hw as [|t ts Ht Hw IH]; intros i c Hc;
    cbn [total_weight foldr find_by_cursor] in *; [lia|].
  fold (total_weight ts) in Hc. destruct (c <? weight t) eqn:E; zbool; [done|].
  apply IH. lia.
Qed.

Lemma rr_leaders_window ts n c :
  ts <> [] -> weights_ok ts -> 0 < total_weight ts < u64_modulus ->
  0 <= c -> c + Z.of_nat n <= u64_modulus ->
  rr_leaders n ts c
  = (fun k => find_by_cursor ts 0 (k mod total_weight ts)) <$> seqZ c (Z.of_nat n).
Proof.
  intros Hne Hw HT. revert c. induction n as [|n IH]; intros c H0 Hc; [done|].
  rewrite seqZ_cons by lia. cbn [rr_leaders fmap list_fmap].
  unfold pick_weighted_round_robin. destruct ts as [|t ts]; [done|].
  rewrite (proj2 (Z.eqb_neq _ _)) by lia.
  pose proof (Z.mod_pos_bound c (total_weight (t :: ts))) as Hm.
  rewrite find_by_acc_cursor, Z.sub_0_r by (done || lia).
  destruct (find_by_cursor_total (t :: ts) 0 (c mod total_weight (t :: ts))) as [j Hj];
    [done|lia|].
  rewrite Hj. simpl default. f_equal.
  destruct n as [|n]; [done|].
  rewrite Z.mod_small by lia. rewrite IH by lia. do 2 f_equal; lia.
Qed.

(** C36: weighted round robin is fair: over [total] consecutive requests, from
    any counter value from which the counter does not wrap, each candidate of an unchanged tier leads exactly as
    often as its weight says. *)
Theorem weighted_round_robin_fair ts c j t :
  weights_ok ts -> 0 < total_weight ts ->
  0 <= c -> c + total_weight ts <= u64_modulus -> total_weight ts < u64_modulus ->
  ts !! j = Some t ->
  length (filter (fun l => l = Some j) (rr_leaders (Z.to_nat (total_weight ts)) ts c))
  = Z.to_nat (weight t).
Proof.
  intros Hw HT H0 Hc Hm Hj.
  rewrite rr_leaders_window by (done || lia || (by intros ->)).
  rewrite Z2Nat.id by lia.
  rewrite (list_fmap_compose (fun k => k mod total_weight ts) (find_by_cursor ts 0)).
  rewrite mod_window_Permutation, find_by_cursor_schedule by done.
  by apply (expand_weights_count ts 0 j).
Qed.

Lemma weighted_round_robin_fair_witness :
  let ts := [with_weight (ForwardTarget_new "rtcp://a/") 3; ForwardTarget_new "rtcp://b/"] in
  length (filter (fun l => l = Some 0%nat) (rr_leaders 4 ts 7)) = 3%nat.
Proof.
  intros ts. apply (weighted_round_robin_fair ts 7 0 (with_weight (ForwardTarget_new "rtcp://a/") 3));
    [repeat constructor; simpl; lia|vm_compute; congruence..|done].
Defined.

(** ** Consistent hashing *)

(** The node a key falls on: the first one at or after its hash, or the first
    of the ring. *)
Definition ring_node (ring : list (Z * nat)) (key_hash : Z) : option (Z * nat) :=
  match List.find (fun p => key_hash <=? p.1) ring with
  | Some p => Some p
  | None => head ring
  end.

Lemma partition_point_node ring kh :
  (ring !! (let pos := partition_point ring kh in
            if Nat.eqb pos (length ring) then 0%nat else pos)) = ring_node ring kh.
Proof.
  unfold ring_node. cbv zeta.
  assert (H : (partition_point ring kh = length ring /\
               List.find (fun p => kh <=? p.1) ring = None) \/
              ((partition_point ring kh < length ring)%nat /\
               exists p, List.find (fun p => kh <=? p.1) ring = Some p /\
                         ring !! partition_point ring kh = Some p)).
  { induction ring as [|[h i] ring IH]; [by left|]. simpl.
    destruct (h <? kh) eqn:E1, (kh <=? h) eqn:E2; zbool; try lia.
    - destruct IH as [[-> ?]|[? ?]]; [left|right]; (split; [lia|done]).
    - right. split; [lia|]. eauto. }
  destruct H as [[-> ->]|[Hlt [p [-> Hp]]]].
  - rewrite Nat.eqb_refl. by destruct ring.
  - rewrite (proj2 (Nat.eqb_neq _ _)) by lia. done.
Qed.

(** Dropping nodes other than the chosen one does not change the choice. *)
Lemma ring_node_filter (P : Z * nat -> Prop) `{!forall x, Decision (P x)} ring kh p :
  ring_node ring kh = Some p -> P p -> ring_node (filter P ring) kh = Some p.
Proof.
  unfold ring_node. intros Hn HP.
  destruct (List.find _ ring) as [q|] eqn:E.
  - injection Hn as ->. induction ring as [|q ring IH]; [done|]. simpl in E.
    destruct (kh <=? q.1) eqn:Eq.
    + injection E as ->. rewrite filter_cons, decide_True by done. simpl. by rewrite Eq.
    + rewrite filter_cons. case_decide; [simpl; rewrite Eq|]; auto.
      specialize (IH E). destruct (List.find _ (filter P ring)) eqn:E2; [done|].
      apply List.find_some in E as [Hin Hp].
      rewrite (List.find_none _ _ E2 p) in Hp; [done|].
      apply list_elem_of_In, list_elem_of_filter. split; [done|]. by apply list_elem_of_In.
  - destruct ring as [|q ring]; [done|]. simpl in Hn. injection Hn as ->.
    rewrite filter_cons, decide_True by done. simpl in *.
    destruct (kh <=? p.1); [done|].
    destruct (List.find _ (filter P ring)) as [q|] eqn:E2; [|done].
    apply List.find_some in E2 as [Hin%list_elem_of_In Hq].
    apply list_elem_of_filter in Hin as [_ Hin].
    rewrite (List.find_none _ _ E q) in Hq; [done|]. by apply list_elem_of_In.
Qed.

(** Indices after the candidate at [n] is removed. *)
Definition drop_index (n i : nat) : nat := if (i <? n)%nat then i else (i - 1)%nat.

Lemma ring_from_shift h i ts :
  ring_from h (S i) ts = (fun p => (p.1, S p.2)) <$> ring_from h i ts.
Proof.
  revert i. induction ts as [|t ts IH]; intros i; [done|]. simpl.
  rewrite IH, fmap_app. f_equal. unfold vnodes. by rewrite <- list_fmap_compose.
Qed.

Lemma ring_from_app h i l1 l2 :
  ring_from h i (l1 ++ l2) = ring_from h i l1 ++ ring_from h (i + length l1) l2.
Proof.
  revert i. induction l1 as [|t l1 IH]; intros i; simpl; [by rewrite Nat.add_0_r|].
  by rewrite IH, <- app_assoc, Nat.add_succ_r.
Qed.

(** The ring without one candidate is the ring with its nodes removed. *)
Lemma ring_from_remove h l1 x l2 :
  ring_from h 0 (l1 ++ l2)
  = prod_map id (drop_index (length l1))
    <$> filter (fun p => p.2 <> length l1) (ring_from h 0 (l1 ++ x :: l2)).
Proof.
  rewrite !ring_from_app, filter_app, fmap_app. simpl. f_equal.
  - assert (Hi : forall p, p ∈ ring_from h 0 l1 -> (p.2 < length l1)%nat).
    { intros p Hp%ring_from_index. lia. }
    rewrite filter_true by (intros p Hp%Hi; lia). symmetry. apply fmap_id_on.
    intros [a k] Hk%Hi. unfold drop_index, prod_map. simpl in *.
    by rewrite (proj2 (Nat.ltb_lt _ _)).
  - rewrite filter_app, (filter_false _ (vnodes _ _ _)), ring_from_shift.
    + simpl. set (n := length l1).
      assert (Hi : forall p, p ∈ ring_from h n l2 -> (n <= p.2)%nat).
      { intros p Hp%ring_from_index. lia. }
      rewrite filter_true.
      * rewrite <- list_fmap_compose. symmetry. apply fmap_id_on.
        intros [a k] Hk%Hi. unfold drop_index, prod_map. simpl in *.
        rewrite (proj2 (Nat.ltb_ge _ _)) by lia. f_equal. lia.
      * intros p [q [-> Hq%Hi]]%list_elem_of_fmap. simpl. lia.
    + intros p [j [-> _]]%list_elem_of_fmap. simpl. lia.
Qed.

Lemma vnodes_nonempty h i t : vnodes h i t <> [].
Proof.
  unfold vnodes, u32_saturating_mul, VNODE_FACTOR, u32_max.
  intros Hn%(f_equal length). rewrite length_map, length_seq in Hn. simpl in Hn. lia.
Qed.

Lemma pick_consistent_hash_node h ts key :
  ts <> [] ->
  pick_consistent_hash h ts key = snd <$> ring_node (sort_by_key fst (ring_from h 0 ts)) (h key).
Proof.
  intros Hne. unfold pick_consistent_hash. destruct ts as [|t ts]; [done|].
  destruct (ring_from h 0 (t :: ts)) eqn:E.
  - simpl in E. apply app_eq_nil in E as [E _]. by apply vnodes_nonempty in E.
  - by rewrite <- partition_point_node.
Qed.

Lemma ring_node_map f ring kh :
  ring_node (prod_map id f <$> ring) kh = prod_map id f <$> ring_node ring kh.
Proof.
  unfold ring_node. assert (E : List.find (fun p => kh <=? p.1) (prod_map id f <$> ring)
    = prod_map id f <$> List.find (fun p => kh <=? p.1) ring).
  { induction ring as [|[h i] ring IH]; [done|]. simpl. by destruct (kh <=? h). }
  rewrite E. destruct (List.find _ ring); [done|]. by destruct ring.
Qed.

(** Consistent hashing is stable: removing a candidate that does not serve
    a key leaves the key on the candidate that serves it. *)
Theorem consistent_hash_stable h l1 x l2 key i t :
  pick_consistent_hash h (l1 ++ x :: l2) key = Some i ->
  i <> length l1 -> (l1 ++ x :: l2) !! i = Some t ->
  exists j, pick_consistent_hash h (l1 ++ l2) key = Some j /\ (l1 ++ l2) !! j = Some t.
Proof.
  intros Hp Hi Ht.
  assert (Ht' : (l1 ++ l2) !! drop_index (length l1) i = Some t).
  { unfold drop_index. destruct (Nat.ltb_spec i (length l1)).
    - rewrite lookup_app_l in * by lia. done.
    - rewrite lookup_app_r in * by lia. rewrite <- Ht.
      replace (i - length l1)%nat with (S (i - 1 - length l1)) by lia. done. }
  exists (drop_index (length l1) i). split; [|done].
  rewrite pick_consistent_hash_node in Hp by (by destruct l1).
  rewrite pick_consistent_hash_node by (intros E; by rewrite E in Ht').
  apply fmap_Some in Hp as [p [Hp ->]].
  rewrite (ring_from_remove _ _ x),
    (sort_by_key_map (prod_map id (drop_index (length l1))) fst fst) by done.
  rewrite sort_by_key_filter.
  apply (ring_node_filter (fun p => p.2 <> length l1)) in Hp; [|done].
  change (map ?f ?l) with (f <$> l). by rewrite ring_node_map, Hp.
Qed.

Lemma consistent_hash_stable_witness :
  let h := fun s => Z.of_nat (String.length s) in
  let mk u := with_weight (ForwardTarget_new u) 1 in
  exists j, pick_consistent_hash h ([mk "a://x"] ++ [mk "c://longer"]) "k" = Some j /\
            ([mk "a://x"] ++ [mk "c://longer"]) !! j = Some (mk "a://x").
Proof.
  intros h mk.
  apply (consistent_hash_stable h [mk "a://x"] (mk "b://yy") [mk "c://longer"] "k" 0);
    [vm_compute; reflexivity|discriminate|reflexivity].
Defined.

(** ** Failure registry *)

Section registry.
Implicit Types (r : ForwardFailureRegistry) (g u : string).

Lemma snapshot_record_failure r g u mf ft now :
  snapshot (record_failure r g u mf ft now) g u = fail_entry (snapshot r g u) mf ft now.
Proof. unfold snapshot at 1, record_failure. by rewrite lookup_insert_eq. Qed.

Lemma snapshot_record_failure_ne r g u g' u' mf ft now :
  make_key g u <> make_key g' u' ->
  snapshot (record_failure r g u mf ft now) g' u' = snapshot r g' u'.
Proof. intros. unfold snapshot, record_failure. by rewrite lookup_insert_ne. Qed.

Lemma record_failures_snoc r g u mf ft times t :
  record_failures r g u mf ft (times ++ [t])
  = record_failure (record_failures r g u mf ft times) g u mf ft t.
Proof. unfold record_failures. by rewrite fold_left_app. Qed.

(** Below the threshold failures only count. *)
Lemma record_failures_below r g u mf ft times :
  snapshot r g u = CandidateState_default ->
  Z.of_nat (length times) < Z.max mf 1 <= u32_max ->
  fail_count (snapshot (record_failures r g u mf ft times) g u) = Z.of_nat (length times) /\
  ejected_until (snapshot (record_failures r g u mf ft times) g u) = None.
Proof.
  intros Hr. induction times as [|t times IH] using rev_ind; intros Hn.
  { simpl. by rewrite Hr. }
  rewrite length_app in *. simpl in *.
  destruct IH as [IHc IHe]; [lia|].
  rewrite record_failures_snoc, snapshot_record_failure. unfold fail_entry.
  rewrite IHe, IHc. simpl. unfold u32_saturating_add.
  rewrite Z.min_l by lia. rewrite (proj2 (Z.leb_gt _ _)) by lia. split; [lia|done].
Qed.

(** A candidate with a clean record is ejected by its failure number
    [max(max_fails, 1)] and not before, and then until [fail_timeout] after
    that failure. *)
Theorem ejection_threshold r g u mf ft times t now :
  snapshot r g u = CandidateState_default ->
  Z.of_nat (length times) + 1 <= Z.max mf 1 <= u32_max ->
  is_ejected (record_failures r g u mf ft (times ++ [t])) g u now
  = (Z.max mf 1 =? Z.of_nat (length times) + 1) && (now <? t + ft).
Proof.
  intros Hr Hn.
  destruct (record_failures_below r g u mf ft times Hr) as [Hc He]; [lia|].
  unfold is_ejected, state_is_ejected.
  rewrite record_failures_snoc, snapshot_record_failure. unfold fail_entry.
  rewrite He, Hc. simpl. unfold u32_saturating_add. rewrite Z.min_l by lia.
  destruct (Z.max mf 1 =? Z.of_nat (length times) + 1) eqn:E; zbool.
  - by rewrite (proj2 (Z.leb_le _ _)) by lia.
  - by rewrite (proj2 (Z.leb_gt _ _)) by lia.
Qed.

Lemma ejection_threshold_witness :
  is_ejected (record_failures ∅ "named:g" "rtcp://a/" 2 10 ([100] ++ [105])) "named:g" "rtcp://a/" 114
  = true.
Proof. rewrite (ejection_threshold ∅ "named:g" "rtcp://a/" 2 10 [100] 105 114);
  [reflexivity|reflexivity|vm_compute; split; congruence]. Defined.

(** the first failure after an ejection window has run out starts a new
    count, so the candidate is ejected again at once only when its threshold
    is one. *)
Theorem stale_window_restarts_count r g u mf ft d t now :
  ejected_until (snapshot r g u) = Some d -> d <= t -> t < t + ft ->
  fail_count (snapshot (record_failure r g u mf ft t) g u) = 1 /\
  is_ejected (record_failure r g u mf ft t) g u now = (mf <=? 1) && (now <? t + ft).
Proof.
  intros Hd Ht Hft. unfold is_ejected, state_is_ejected. rewrite snapshot_record_failure.
  unfold fail_entry. rewrite Hd. rewrite (proj2 (Z.leb_le d t)) by done. simpl.
  split; [done|]. change (u32_saturating_add 0 1) with 1.
  destruct (Z.leb_spec mf 1); simpl.
  - by rewrite Z.max_r by lia.
  - by rewrite (proj2 (Z.leb_gt _ _)) by lia.
Qed.

Lemma stale_window_restarts_count_witness :
  let r := record_failures ∅ "named:g" "rtcp://a/" 2 10 [100; 105] in
  fail_count (snapshot (record_failure r "named:g" "rtcp://a/" 2 10 120) "named:g" "rtcp://a/") = 1.
Proof.
  intros r. apply (stale_window_restarts_count r "named:g" "rtcp://a/" 2 10 115 120 121);
    [vm_compute; reflexivity|lia|lia].
Defined.

(** ** Registry keys *)

Lemma make_key_cons a g u : make_key (String a g) u = String a (make_key g u).
Proof. done. Qed.

Lemma make_key_inj g g' u u' :
  string_contains "|" g = false -> string_contains "|" g' = false ->
  make_key g u = make_key g' u' -> g = g' /\ u = u'.
Proof.
  revert g'. induction g as [|a g IH]; intros [|b g'] Hg Hg' E.
  - by injection E.
  - by injection E as <- _.
  - by injection E as -> _.
  - simpl in Hg, Hg'. apply orb_false_iff in Hg as [_ Hg]. apply orb_false_iff in Hg' as [_ Hg'].
    rewrite !make_key_cons in E. injection E as -> E.
    destruct (IH g') as [-> ->]; done.
Qed.

Lemma string_contains_app c s1 s2 :
  string_contains c (s1 +:+ s2) = string_contains c s1 || string_contains c s2.
Proof. induction s1 as [|a s1 IH]; simpl; [done|]. rewrite IH. by rewrite orb_assoc. Qed.

Lemma hex_digits_no_pipe n v acc :
  string_contains "|" acc = false -> string_contains "|" (hex_digits n v acc) = false.
Proof.
  revert v acc. induction n as [|n IH]; intros v acc H; [done|]. simpl. apply IH.
  cbn [string_contains]. rewrite H, orb_false_r.
  pose proof (Z.mod_pos_bound v 16 ltac:(lia)) as Hb.
  revert Hb. generalize (v mod 16) as d. intros d Hb.
  assert (Hd : d ∈ seqZ 0 16) by (apply elem_of_seqZ; lia).
  clear Hb. revert d Hd. apply Forall_forall. apply (bool_decide_unpack _). by vm_compute.
Qed.

Lemma failure_state_key_no_pipe h plan :
  (forall name, group plan = Some name -> string_contains "|" name = false) ->
  string_contains "|" (failure_state_key h plan) = false.
Proof.
  intros Hg. unfold failure_state_key. destruct (group plan) as [name|].
  - rewrite string_contains_app. simpl. auto.
  - rewrite string_contains_app. apply orb_false_intro; [done|]. by apply hex_digits_no_pipe.
Qed.

(** Failures are isolated: with group names free of the separator, a
    failure of one candidate in one plan changes the ejection of no other
    candidate, and of no candidate of a plan with another group. *)
Theorem failure_isolated h plan plan' r u u' mf ft t now :
  (forall name, group plan = Some name -> string_contains "|" name = false) ->
  (forall name, group plan' = Some name -> string_contains "|" name = false) ->
  failure_state_key h plan <> failure_state_key h plan' \/ u <> u' ->
  is_ejected (record_failure r (failure_state_key h plan) u mf ft t)
    (failure_state_key h plan') u' now
  = is_ejected r (failure_state_key h plan') u' now.
Proof.
  intros Hp Hp' Hne. unfold is_ejected. rewrite snapshot_record_failure_ne; [done|].
  intros [E1 E2]%make_key_inj; auto using failure_state_key_no_pipe. tauto.
Qed.

Lemma failure_isolated_witness :
  let p := single_url "rtcp://a/" in
  let r := record_failure ∅ (failure_state_key (fun _ => 7) p) "rtcp://a/" 1 10 100 in
  is_ejected r (failure_state_key (fun _ => 7) p) "rtcp://b/" 101
  = is_ejected ∅ (failure_state_key (fun _ => 7) p) "rtcp://b/" 101.
Proof.
  intros p r. apply (failure_isolated (fun _ => 7) p p ∅ "rtcp://a/" "rtcp://b/" 1 10 100 101);
    [done|done|by right].
Defined.

(** A success clears exactly the record of its candidate. *)
Theorem record_success_clears r g u g' u' now :
  is_ejected (record_success r g u) g' u' now
  = if decide (make_key g u = make_key g' u') then false else is_ejected r g' u' now.
Proof.
  unfold is_ejected, snapshot, record_success. case_decide as E.
  - by rewrite E, lookup_delete_eq.
  - by rewrite lookup_delete_ne.
Qed.
End registry.

(** ** Plans *)

(** Validation accepts a plan exactly when it has candidates, each with a
    URL and a positive weight, a captured key for the hash methods, and only
    named servers with routes. *)
Theorem validate_ok_iff plan :
  validate plan = Ok tt <->
  candidates plan <> [] /\
  Forall (fun c => url c <> "" /\ weight c <> 0) (candidates plan) /\
  (forall k, balance plan = Hash k \/ balance plan = ConsistentHash k ->
     is_Some (hash_key_value plan)) /\
  Forall (fun s => srv_id s <> "" /\ routes s <> []) (servers plan).
Proof.
  assert (Hc : forall cs, validate_candidates cs = Ok tt <->
    Forall (fun c => url c <> "" /\ weight c <> 0) cs).
  { induction cs as [|c cs IH]; simpl; [split; [constructor|done]|].
    rewrite Forall_cons, <- IH.
    destruct (String.eqb_spec (url c) ""); [naive_solver|].
    destruct (Z.eqb_spec (weight c) 0); naive_solver. }
  assert (Hs : forall ss, validate_servers ss = Ok tt <->
    Forall (fun s => srv_id s <> "" /\ routes s <> []) ss).
  { induction ss as [|s ss IH]; simpl; [split; [constructor|done]|].
    rewrite Forall_cons, <- IH.
    destruct (String.eqb_spec (srv_id s) ""); [naive_solver|].
    destruct (routes s); naive_solver. }
  unfold validate. rewrite <- Hc, <- Hs.
  destruct (candidates plan) as [|c cs]; [naive_solver|].
  destruct (validate_candidates (c :: cs)) as [[]|]; [|naive_solver]. simpl.
  destruct (balance plan), (hash_key_value plan); simpl;
    destruct (validate_servers (servers plan)) as [[]|]; naive_solver.
Qed.

(** the retry policy fires on an upstream status exactly when the status
    is a server error and the policy names all of them or that one. *)
Theorem matches_http_status_iff p status :
  matches_http_status p status = true <->
  500 <= status <= 599 /\
  (Http5xx ∈ conditions p \/
   (status = 502 /\ Http502 ∈ conditions p) \/
   (status = 503 /\ Http503 ∈ conditions p) \/
   (status = 504 /\ Http504 ∈ conditions p)).
Proof.
  unfold matches_http_status, allows.
  destruct (Z.eqb_spec status 502), (Z.eqb_spec status 503), (Z.eqb_spec status 504),
    (Z.leb_spec 500 status), (Z.leb_spec status 599); try lia; simpl;
    repeat case_bool_decide; simpl; naive_solver lia.
Qed.

(** Ordering by round-trip time keeps all candidates, puts them in the
    order of the given list, and leaves candidates of one URL, and those the
    list does not name, in their relative order at the end. *)
Theorem apply_least_time_order_spec plan urls :
  let rank c := default (Z.of_nat (length urls)) (url_rank (url c) urls 0 None) in
  let cs := candidates (apply_least_time_order plan urls) in
  cs ≡ₚ candidates plan /\ StronglySorted (key_le rank) cs /\
  forall k, filter (fun c => rank c = k) cs = filter (fun c => rank c = k) (candidates plan).
Proof.
  intros rank cs. subst cs. unfold apply_least_time_order.
  destruct (candidates plan) as [|c cs] eqn:E; [rewrite E; repeat constructor|].
  destruct urls as [|u us].
  - rewrite E. split; [done|]. split; [|done].
    apply filter_const_StronglySorted. intros. unfold key_le, rank. simpl. lia.
  - cbn [candidates]. split; [apply sort_by_key_Permutation|].
    split; [apply sort_by_key_sorted|apply sort_by_key_stable].
Qed.

(** Two equally weighted healthy primaries and two equally weighted healthy
    backups. *)
Definition two_tier_plan : ForwardPlan :=
  {| group := Some "g"; balance := RoundRobin; next_upstream := policy_off;
     candidates := [ForwardTarget_new "rtcp://p1/"; ForwardTarget_new "rtcp://p2/";
                    as_backup (ForwardTarget_new "rtcp://b1/");
                    as_backup (ForwardTarget_new "rtcp://b2/")];
     hash_key_value := None; servers := []; retry_scope := RoutesOnly |}.

Lemma pick_two_equal t1 t2 c :
  weight t1 = 1 -> weight t2 = 1 ->
  pick_weighted_round_robin [t1; t2] c = (Some (Z.to_nat (c mod 2)), (c + 1) mod u64_modulus).
Proof.
  intros H1 H2. unfold pick_weighted_round_robin.
  assert (total_weight [t1; t2] = 2) as -> by (simpl; lia).
  cbn [find_by_acc]. rewrite H1, H2.
  pose proof (Z.mod_pos_bound c 2 ltac:(lia)).
  assert (c mod 2 = 0 \/ c mod 2 = 1) as [-> | ->] by lia; reflexivity.
Qed.

Lemma select_two_tier h now c :
  select h two_tier_plan ∅ None now c
  = (rotate_left (Z.to_nat (c mod 2)) (take 2 (candidates two_tier_plan))
     ++ rotate_left (Z.to_nat ((c + 1) mod u64_modulus mod 2)) (drop 2 (candidates two_tier_plan)),
     ((c + 1) mod u64_modulus + 1) mod u64_modulus).
Proof.
  unfold select, order_tier, two_tier_plan.
  cbn [candidates balance hash_key_value List.filter backup ForwardTarget_new as_backup url negb
       andb length Nat.leb].
  assert (Hr : forall u, is_ejected ∅ (failure_state_key h two_tier_plan) u now = false) by done.
  unfold two_tier_plan in Hr. rewrite !Hr. cbn [negb length Nat.leb].
  rewrite !pick_two_equal by done. rewrite app_nil_r.
  pose proof (Z.mod_pos_bound c 2 ltac:(lia)).
  pose proof (Z.mod_pos_bound ((c + 1) mod u64_modulus) 2 ltac:(lia)).
  assert (c mod 2 = 0 \/ c mod 2 = 1) as [-> | ->] by lia;
  assert ((c + 1) mod u64_modulus mod 2 = 0 \/ (c + 1) mod u64_modulus mod 2 = 1)
    as [-> | ->] by lia; reflexivity.
Qed.

(** The round-robin counter is shared by the primary and the backup tier
    of a request, so with two equal primaries and two equal backups it advances
    by two per request and the same primary leads every time. *)
Theorem shared_counter_starves_primary h now c :
  0 <= c < u64_modulus - 3 ->
  snd (select h two_tier_plan ∅ None now c) = c + 2 /\
  fst (select h two_tier_plan ∅ None now (c + 2)) = fst (select h two_tier_plan ∅ None now c).
Proof.
  intros Hc. rewrite !select_two_tier. cbn [fst snd].
  rewrite (Z.mod_small (c + 1)), (Z.mod_small (c + 2 + 1)) by lia.
  rewrite Z.mod_small by lia. split; [lia|].
  replace ((c + 2) mod 2) with (c mod 2) by (Z.to_euclidean_division_equations; lia).
  by replace ((c + 2 + 1) mod 2) with ((c + 1) mod 2) by (Z.to_euclidean_division_equations; lia).
Qed.

Lemma shared_counter_starves_primary_witness :
  snd (select (fun _ => 0) two_tier_plan ∅ None 0 5) = 7.
Proof.
  apply (shared_counter_starves_primary (fun _ => 0) 0 5). vm_compute. split; congruence.
Defined.

Lemma select_server_adjacent_witness :
  let mk u s := with_server_id (ForwardTarget_new u) s in
  let plan := {| group := Some "g"; balance := LeastTime; next_upstream := policy_off;
     candidates := [mk "rtcp://a1/" "a"; mk "rtcp://b1/" "b"; mk "rtcp://a2/" "a"; mk "rtcp://a3/" "a"];
     hash_key_value := None; servers := []; retry_scope := RoutesOnly |} in
  server_id (mk "rtcp://a2/" "a") = server_id (mk "rtcp://a1/" "a").
Proof.
  intros mk plan.
  apply (select_server_adjacent (fun _ => 0) plan ∅ None 0 0 0 1 2
           (mk "rtcp://a1/" "a") (mk "rtcp://a2/" "a") (mk "rtcp://a3/" "a"));
    [lia|vm_compute; reflexivity..].
Defined.
