(* ===== verification/Values.v ===== *)
(** * Process-chain values, coercions and command results

    Models [cyfs-process-chain]: the values of [collection/coll.rs], the
    coercions of [block/block.rs] and the command results of [cmd/cmd.rs].

    A collection is shared by reference, so a collection value is the location
    of a collection object; the objects are in [State].  An [f64] is its bit
    pattern, which is also what the code compares; its decimal text is the
    interface [F64Text]. *)

From S2P Require Import Prelude.

(** Location of a shared object. *)
Abbreviation loc := nat (only parsing).

(** ** Numbers *)

Inductive NumberValue : Type :=
| NInt (v : Z)
| NFloat (bits : Z).

#[export] Instance NumberValue_eq_dec : EqDecision NumberValue.
Proof. solve_decision. Defined.

(** Decimal text of binary64 numbers ([Display] and [FromStr] of [f64]). *)
Class F64Text : Type := {
  f64_display : Z -> string;
  f64_parse : string -> option Z
}.

(** [v.as_f64() != 0.0]: false for both zeros only. *)
Definition number_nonzero (n : NumberValue) : bool :=
  match n with
  | NInt v => negb (v =? 0)
  | NFloat bits => negb ((bits =? 0) || (bits =? 2 ^ 63))
  end.

(** [i64 as f64]: the nearest number, ties to even.  The significand of [n],
    with its leading bit, is added to the exponent field less one, so that a
    carry out of the rounding raises the exponent. *)
Definition f64_of_pos (n : Z) : Z :=
  let e := Z.log2 n in
  if e <=? 52 then (e + 1022) * 2 ^ 52 + n * 2 ^ (52 - e)
  else
    let s := e - 52 in
    let q := n / 2 ^ s in
    let r := n mod 2 ^ s in
    let half := 2 ^ (s - 1) in
    let up := (half <? r) || ((r =? half) && Z.odd q) in
    (e + 1022) * 2 ^ 52 + q + (if up then 1 else 0).

Definition f64_of_i64 (v : Z) : Z :=
  if v =? 0 then 0 else if 0 <? v then f64_of_pos v else 2 ^ 63 + f64_of_pos (- v).

(** Comparison of binary64 numbers by their bit patterns: [f64_key] is the
    magnitude with the sign, which orders all numbers but NaNs. *)
Definition f64_is_nan (bits : Z) : bool := 2047 * 2 ^ 52 <? bits mod 2 ^ 63.
Definition f64_key (bits : Z) : Z := if bits <? 2 ^ 63 then bits else - (bits - 2 ^ 63).
Definition f64_compare (test : Z -> Z -> bool) (a b : Z) : bool :=
  negb (f64_is_nan a) && negb (f64_is_nan b) && test (f64_key a) (f64_key b).

Definition as_f64 (n : NumberValue) : Z :=
  match n with NInt v => f64_of_i64 v | NFloat bits => bits end.

Definition number_display `{F64Text} (n : NumberValue) : string :=
  match n with
  | NInt v => pretty v
  | NFloat bits => f64_display bits
  end.

(** ** Values *)

Inductive TypedValue : Type :=
| VNull
| VBool (v : bool)
| VNumber (v : NumberValue)
| VString (v : string)
| VList (l : loc)
| VSet (l : loc)
| VMap (l : loc)
| VMultiMap (l : loc)
| VVisitor (l : loc)
| VAny (id : loc).

#[export] Instance TypedValue_eq_dec : EqDecision TypedValue.
Proof. solve_decision. Defined.

Definition bool_display (b : bool) : string := if b then "true" else "false".

Definition value_display `{F64Text} (v : TypedValue) : string :=
  match v with
  | VNull => "null"
  | VBool b => bool_display b
  | VNumber n => number_display n
  | VString s => s
  | VList _ => "[List]"
  | VSet _ => "[Set]"
  | VMap _ => "[Map]"
  | VMultiMap _ => "[MultiMap]"
  | VVisitor _ => "[Visitor]"
  | VAny _ => "[Any]"
  end.

(** [PartialEq for TypedValue]: collections are equal to nothing. *)
Definition value_eqb (a b : TypedValue) : bool :=
  match a, b with
  | VNull, VNull => true
  | VBool x, VBool y => eqb x y
  | VNumber x, VNumber y => bool_decide (x = y)
  | VString x, VString y => String.eqb x y
  | _, _ => false
  end.

Definition get_type (v : TypedValue) : string :=
  match v with
  | VNull => "Null"
  | VBool _ => "Bool"
  | VNumber _ => "Number"
  | VString _ => "String"
  | VList _ => "List"
  | VSet _ => "Set"
  | VMap _ => "Map"
  | VMultiMap _ => "MultiMap"
  | VVisitor _ => "Visitor"
  | VAny _ => "Any"
  end.

Definition treat_as_str (v : TypedValue) : string :=
  match v with
  | VNull => "null"
  | VBool _ => "[Bool]"
  | VNumber _ => "[Number]"
  | VString s => s
  | VList _ => "[List]"
  | VSet _ => "[Set]"
  | VMap _ => "[Map]"
  | VMultiMap _ => "[MultiMap]"
  | VVisitor _ => "[Visitor]"
  | VAny _ => "[Any]"
  end.

Definition is_null (v : TypedValue) : bool :=
  match v with VNull => true | _ => false end.

Definition as_str (v : TypedValue) : option string :=
  match v with VString s => Some s | _ => None end.

Definition is_collection (v : TypedValue) : bool :=
  match v with VList _ | VSet _ | VMap _ | VMultiMap _ => true | _ => false end.

(** ** Coercions *)

Inductive MissingVarPolicy : Type := MvLenient | MvStrict.
Inductive CoercionPolicy : Type := CoLegacy | CoWarn | CoStrict.

Record ExecutionPolicy : Type := {
  missing_var : MissingVarPolicy;
  coercion : CoercionPolicy
}.

Definition default_policy : ExecutionPolicy :=
  {| missing_var := MvLenient; coercion := CoLegacy |}.

Definition parse_bool_literal (raw : string) : option bool :=
  let s := to_ascii_lowercase (trim raw) in
  if existsb (String.eqb s) ["true"; "1"; "yes"; "on"] then Some true
  else if existsb (String.eqb s) ["false"; "0"; "no"; "off"] then Some false
  else None.

Definition parse_number_literal `{F64Text} (raw : string) : option NumberValue :=
  let trimmed := trim raw in
  match parse_i64 trimmed with
  | Some v => Some (NInt v)
  | None => option_map NFloat (f64_parse trimmed)
  end.

Definition coerce_to_string `{F64Text} (v : TypedValue) (policy : CoercionPolicy)
  : Result string :=
  match v with
  | VString s => Ok s
  | VNull =>
      match policy with
      | CoLegacy | CoWarn => Ok ""
      | CoStrict => Err "Expected string value, found Null (strict coercion)"
      end
  | VBool b =>
      match policy with
      | CoLegacy | CoWarn => Ok (bool_display b)
      | CoStrict => Err "Expected string value, found Bool (strict coercion)"
      end
  | VNumber n =>
      match policy with
      | CoLegacy | CoWarn => Ok (number_display n)
      | CoStrict => Err "Expected string value, found Number (strict coercion)"
      end
  | other => Err ("Expected string value, found: " +:+ value_display other)
  end.

Definition coerce_to_bool `{F64Text} (v : TypedValue) (policy : CoercionPolicy)
  : Result bool :=
  match v with
  | VBool b => Ok b
  | VString s =>
      match parse_bool_literal s with
      | Some b => Ok b
      | None => Err ("Cannot convert string '" +:+ s +:+ "' to bool")
      end
  | VNumber n =>
      match policy with
      | CoLegacy | CoWarn => Ok (number_nonzero n)
      | CoStrict => Err "Expected bool value, found Number (strict coercion)"
      end
  | VNull =>
      match policy with
      | CoLegacy | CoWarn => Ok false
      | CoStrict => Err "Expected bool value, found Null (strict coercion)"
      end
  | other => Err ("Expected bool value, found: " +:+ value_display other)
  end.

Definition coerce_to_number `{F64Text} (v : TypedValue) (policy : CoercionPolicy)
  : Result NumberValue :=
  match v with
  | VNumber n => Ok n
  | VString s =>
      match parse_number_literal s with
      | Some n => Ok n
      | None => Err ("Cannot convert string '" +:+ s +:+ "' to number")
      end
  | VBool b =>
      match policy with
      | CoLegacy | CoWarn => Ok (NInt (if b then 1 else 0))
      | CoStrict => Err "Expected number value, found Bool (strict coercion)"
      end
  | VNull =>
      match policy with
      | CoLegacy | CoWarn => Ok (NInt 0)
      | CoStrict => Err "Expected number value, found Null (strict coercion)"
      end
  | other => Err ("Expected number value, found: " +:+ value_display other)
  end.

(** ** Command results *)

Inductive CommandAction : Type := ActDrop | ActAccept | ActReject.

Definition action_str (a : CommandAction) : string :=
  match a with ActDrop => "drop" | ActAccept => "accept" | ActReject => "reject" end.

Inductive CommandControlLevel : Type := LvBlock | LvChain | LvLib.

#[export] Instance CommandControlLevel_eq_dec : EqDecision CommandControlLevel.
Proof. solve_decision. Defined.

Definition control_level_str (l : CommandControlLevel) : string :=
  match l with LvBlock => "block" | LvChain => "chain" | LvLib => "lib" end.

Definition control_level_of_str (s : string) : option CommandControlLevel :=
  if String.eqb s "block" then Some LvBlock
  else if String.eqb s "chain" then Some LvChain
  else if String.eqb s "lib" then Some LvLib
  else None.

Inductive CommandControl : Type :=
| CBreak (v : TypedValue)
| CReturn (level : CommandControlLevel) (v : TypedValue)
| CError (level : CommandControlLevel) (v : TypedValue)
| CExit (v : TypedValue).

Definition is_return_from_lib (c : CommandControl) : bool :=
  match c with CReturn LvLib _ => true | _ => false end.
Definition is_error_from_lib (c : CommandControl) : bool :=
  match c with CError LvLib _ => true | _ => false end.
Definition is_exit (c : CommandControl) : bool :=
  match c with CExit _ => true | _ => false end.
Definition is_break (c : CommandControl) : bool :=
  match c with CBreak _ => true | _ => false end.

Definition control_value (c : CommandControl) : TypedValue :=
  match c with CReturn _ v | CError _ v | CExit v | CBreak v => v end.

Inductive CommandResult : Type :=
| RSuccess (v : TypedValue)
| RError (v : TypedValue)
| RControl (c : CommandControl).

#[export] Instance CommandControl_eq_dec : EqDecision CommandControl.
Proof. solve_decision. Defined.
#[export] Instance CommandResult_eq_dec : EqDecision CommandResult.
Proof. solve_decision. Defined.

Definition success : CommandResult := RSuccess (VString "").
Definition action_result (a : CommandAction) : CommandResult :=
  RControl (CExit (VString (action_str a))).

Definition try_not (r : CommandResult) : Result CommandResult :=
  match r with
  | RSuccess v => Ok (RError v)
  | RError v => Ok (RSuccess v)
  | RControl _ => Err "Cannot negate action result"
  end.

Definition result_value (r : CommandResult) : TypedValue :=
  match r with RSuccess v | RError v => v | RControl c => control_value c end.

Definition is_success (r : CommandResult) : bool :=
  match r with RSuccess _ => true | _ => false end.
Definition is_error (r : CommandResult) : bool :=
  match r with RError _ => true | _ => false end.
Definition is_control (r : CommandResult) : bool :=
  match r with RControl _ => true | _ => false end.

(** [is_accept], [is_drop] and [is_reject]. *)
Definition is_action (a : CommandAction) (r : CommandResult) : bool :=
  match r with
  | RControl (CExit (VString s)) => String.eqb s (action_str a)
  | _ => false
  end.

Definition into_substitution_value (r : CommandResult) : option TypedValue :=
  match r with RSuccess v | RError v => Some v | RControl _ => None end.
