(* ===== verification/Syntax.v ===== *)
(** * Linked process-chain programs

    Models the syntax trees of [block/block.rs], the command executors that
    linking puts on them ([cmd/control.rs], [cmd/exec.rs], [cmd/var.rs],
    [cmd/capture.rs], [cmd/map.rs], [cmd/action.rs]) and the chains and
    libraries of [chain/chain.rs] and [chain/manager.rs].

    A [dyn CommandExecutor] is a constructor of [CommandExecutor] for every
    command that decides itself what it evaluates: control flow, scopes,
    variables, and the commands that stop early or catch an error.  Any other
    command evaluates its arguments first and then acts on their values: it is
    an [XLeaf], with the groups of arguments it evaluates together; [Commands]
    has what it does with them. *)

From S2P Require Import Prelude Values.

Inductive Operator : Type := OpAnd | OpOr | OpNot.

#[export] Instance Operator_eq_dec : EqDecision Operator.
Proof. solve_decision. Defined.

Definition is_unary (o : Operator) : bool := match o with OpNot => true | _ => false end.
Definition is_binary (o : Operator) : bool := match o with OpAnd | OpOr => true | _ => false end.

Inductive AssignKind : Type := AsChain | AsBlock | AsGlobal.

Definition assign_kind_of_str (s : string) : option AssignKind :=
  if String.eqb s "chain" then Some AsChain
  else if String.eqb s "block" then Some AsBlock
  else if String.eqb s "global" then Some AsGlobal
  else None.

Inductive EnvLevel : Type := EvGlobal | EvChain | EvBlock.

#[export] Instance EnvLevel_eq_dec : EqDecision EnvLevel.
Proof. solve_decision. Defined.

(** [EnvLevel::default()]. *)
Definition EnvLevel_default : EnvLevel := EvChain.

Inductive ExecScope : Type := ScBlock | ScChain | ScLib.

(** How a leaf command evaluates a group of arguments: [evaluate],
    [evaluate_string], [evaluate_bool] or [evaluate_number], [evaluate_string]
    followed by [parse_list_index], or its text as it is ([as_str]). *)
Inductive ArgMode : Type := AmValue | AmString | AmBool | AmNumber | AmIndex | AmRaw.

(** [ValuePredicateKind] of [cmd/value.rs] and [NumberCompareOp] of
    [cmd/match_.rs]. *)
Inductive ValuePredicateKind : Type := PkNull | PkBool | PkNumber.
Inductive NumberCompareOp : Type := CmpGt | CmpGe | CmpLt | CmpLe.

(** The leaf commands, with the options their parsers fix.  [LcOther] is a
    command that is not modelled. *)
Inductive LeafCommand : Type :=
| LcMatchInclude
| LcListCreate (level : EnvLevel)
| LcListPush
| LcListInsert
| LcListSet
| LcListRemove
| LcListPop
| LcListClear
| LcSetCreate (level : EnvLevel)
| LcSetAdd
| LcSetRemove
| LcMapCreate (is_multi : bool) (level : EnvLevel)
| LcMapAdd
| LcMapRemove
| LcType (level : option EnvLevel) (variable_name : string)
| LcPredicate (kind : ValuePredicateKind)
| LcEq (ignore_case loose : bool)
| LcNe (ignore_case loose : bool)
| LcCompare (op : NumberCompareOp) (loose : bool)
| LcRange
| LcAppend
| LcSlice
| LcSplit (capture : option string) (skip_empty : bool)
| LcStrlen
| LcStartsWith (ignore_case : bool)
| LcEndsWith (ignore_case : bool)
| LcStripPrefix (ignore_case : bool)
| LcStripSuffix (ignore_case : bool)
| LcReplace
| LcOther (name : string).

(** The targets of [capture]. *)
Record CaptureTargets : Type := {
  cap_value : option string;
  cap_status : option string;
  cap_ok : option string;
  cap_error : option string;
  cap_control : option string;
  cap_control_kind : option string;
  cap_from : option string
}.

Inductive CommandArg : Type :=
| Literal (s : string)
| StringLiteral (s : string)
| TypedLiteral (raw : string) (v : TypedValue)
| ListLiteral (items : list CommandArg)
| MapLiteral (entries : list (string * CommandArg))
| Var (s : string)
| CommandSubstitution (e : Expression)

with Expression : Type :=
| ECommand (name : string) (args : list CommandArg) (executor : option CommandExecutor)
| EGroup (exprs : list (option Operator * Expression * option Operator))

with CommandExecutor : Type :=
| XReturn (from_level : CommandControlLevel) (value : option CommandArg)
| XError (from_level : CommandControlLevel) (value : option CommandArg)
| XExit (value : option CommandArg)
| XBreak (value : option CommandArg)
| XAction (action : CommandAction)
| XFirstOk (commands : list Expression)
| XExec (scope : ExecScope) (target : CommandArg)
| XInvoke (scope : ExecScope) (target : CommandArg) (args : list (string * CommandArg))
| XGoto (scope : ExecScope) (target : CommandArg) (args : list (string * CommandArg))
    (ok_from_level err_from_level : CommandControlLevel)
| XAssign (kind : AssignKind) (key : string) (value : option CommandArg)
| XDelete (level : option EnvLevel) (var : string)
| XCapture (targets : CaptureTargets) (sub_command : Expression)
| XMapReduce (collection : string) (begin_cmd : option Expression) (map_cmd : Expression)
    (reduce_cmd : option Expression)
| XOneOf (ignore_case loose : bool) (value : CommandArg) (candidates : list CommandArg)
| XToBool (value : CommandArg)
| XToNumber (value : CommandArg)
| XLeaf (command : LeafCommand) (args : list (ArgMode * list CommandArg)).

Scheme CommandArg_mutind := Induction for CommandArg Sort Prop
  with Expression_mutind := Induction for Expression Sort Prop
  with CommandExecutor_mutind := Induction for CommandExecutor Sort Prop.

Combined Scheme syntax_mutind from CommandArg_mutind, Expression_mutind, CommandExecutor_mutind.

Definition ExpressionChain := list (option Operator * Expression * option Operator).

(** The statement forms, over the type [L] of lines nested in them. *)
Record IfBranch (L : Type) : Type := mkIfBranch {
  if_condition : ExpressionChain;
  if_lines : list L
}.
Arguments mkIfBranch {L}.
Arguments if_condition {L}.
Arguments if_lines {L}.

Record IfStatement (L : Type) : Type := mkIfStatement {
  if_branches : list (IfBranch L);
  if_else : option (list L)
}.
Arguments mkIfStatement {L}.
Arguments if_branches {L}.
Arguments if_else {L}.

Record CaseStatement (L : Type) : Type := mkCaseStatement {
  case_subject : option CommandArg;
  case_binding_var : option string;
  case_branches : list (IfBranch L);
  case_else : option (list L)
}.
Arguments mkCaseStatement {L}.
Arguments case_subject {L}.
Arguments case_binding_var {L}.
Arguments case_branches {L}.
Arguments case_else {L}.

Record ForStatement (L : Type) : Type := mkForStatement {
  key_var : string;
  value_var : option string;
  iterable : CommandArg;
  for_lines : list L
}.
Arguments mkForStatement {L}.
Arguments key_var {L}.
Arguments value_var {L}.
Arguments iterable {L}.
Arguments for_lines {L}.

Record MatchResultBranch (L : Type) : Type := mkMatchResultBranch {
  mr_binding_var : string;
  mr_lines : list L
}.
Arguments mkMatchResultBranch {L}.
Arguments mr_binding_var {L}.
Arguments mr_lines {L}.

Record MatchResultControlBranch (L : Type) : Type := mkMatchResultControlBranch {
  mc_action_var : string;
  mc_from_var : string;
  mc_value_var : string;
  mc_lines : list L
}.
Arguments mkMatchResultControlBranch {L}.
Arguments mc_action_var {L}.
Arguments mc_from_var {L}.
Arguments mc_value_var {L}.
Arguments mc_lines {L}.

Record MatchResultStatement (L : Type) : Type := mkMatchResultStatement {
  mr_command : Expression;
  ok_branch : option (MatchResultBranch L);
  err_branch : option (MatchResultBranch L);
  control_branch : option (MatchResultControlBranch L)
}.
Arguments mkMatchResultStatement {L}.
Arguments mr_command {L}.
Arguments ok_branch {L}.
Arguments err_branch {L}.
Arguments control_branch {L}.

Record StatementOf (L : Type) : Type := mkStatement {
  st_expressions : ExpressionChain;
  st_if : option (IfStatement L);
  st_case : option (CaseStatement L);
  st_for : option (ForStatement L);
  st_match_result : option (MatchResultStatement L)
}.
Arguments mkStatement {L}.
Arguments st_expressions {L}.
Arguments st_if {L}.
Arguments st_case {L}.
Arguments st_for {L}.
Arguments st_match_result {L}.

Scheme All for IfBranch.
Scheme All for IfStatement.
Scheme All for CaseStatement.
Scheme All for ForStatement.
Scheme All for MatchResultBranch.
Scheme All for MatchResultControlBranch.
Scheme All for MatchResultStatement.
Scheme All for StatementOf.

Inductive Line : Type :=
| mkLine (source : string) (statements : list (StatementOf Line)).

Abbreviation Statement := (StatementOf Line).

Definition new_expressions (es : ExpressionChain) : Statement :=
  mkStatement es None None None None.
Definition new_if (s : IfStatement Line) : Statement := mkStatement [] (Some s) None None None.
Definition new_case (s : CaseStatement Line) : Statement := mkStatement [] None (Some s) None None.
Definition new_for (s : ForStatement Line) : Statement := mkStatement [] None None (Some s) None.
Definition new_match_result (s : MatchResultStatement Line) : Statement :=
  mkStatement [] None None None (Some s).

Record Block : Type := mkBlock {
  block_id : string;
  block_lines : list Line
}.

(** ** Chains and libraries *)

Record ProcessChain : Type := mkProcessChain {
  chain_id : string;
  chain_priority : Z;
  chain_blocks : list Block
}.

(** The two implementations of the [ProcessChainLib] trait. *)
Inductive LibKind : Type := ListLib | ConstListLib.

Record ProcessChainLib : Type := mkProcessChainLib {
  lib_kind : LibKind;
  lib_id : string;
  lib_priority : Z;
  lib_chains : list ProcessChain
}.
