(* ===== verification/Linker.v ===== *)
(** * Linking

    Models the linking half of [block/linker.rs] ([BlockCommandLinker]) and the
    parser context of [chain/chain.rs]: before a program runs, every command of
    it gets the executor its parser builds from its arguments.  The parsers
    themselves ([cmd/factory.rs] and the [CommandParser]s it registers, which
    are built on the clap library) are an interface. *)

From S2P Require Import Prelude Values Syntax.

(** ** External commands *)

(** What linking uses of the [ExternalCommand] trait. *)
Record ExternalCommand : Type := mkExternalCommand {
  overrides_builtin : list CommandArg -> bool
}.

Abbreviation ExternalCommandFactory := (gmap string ExternalCommand).

Definition factory_register (f : ExternalCommandFactory) (name : string) (c : ExternalCommand)
  : Result ExternalCommandFactory :=
  match f !! name with
  | Some _ => Err "External command already exists, will be replaced"
  | None => Ok (<[name := c]> f)
  end.

(** [ParserContext] with the process-wide factory. *)
Record ParserContext : Type := mkParserContext {
  external_commands : ExternalCommandFactory;
  global_commands : ExternalCommandFactory
}.

Definition register_external_command (p : ParserContext) (name : string) (c : ExternalCommand)
  : Result ParserContext :=
  match global_commands p !! name with
  | Some _ => Err "External command already exists in global"
  | None =>
      let? f := factory_register (external_commands p) name c in
      Ok (mkParserContext f (global_commands p))
  end.

Inductive ExternalCommandScope : Type := ExAuto | ExLocal | ExGlobal.

Definition parse_external_command_name (name : string) : ExternalCommandScope * string :=
  match strip_prefix "local::" name with
  | Some rest => (ExLocal, rest)
  | None =>
      match strip_prefix "global::" name with
      | Some rest => (ExGlobal, rest)
      | None => (ExAuto, name)
      end
  end.

Definition get_external_command (p : ParserContext) (name : string) : option ExternalCommand :=
  let '(scope, name) := parse_external_command_name name in
  match scope with
  | ExLocal => external_commands p !! name
  | ExGlobal => global_commands p !! name
  | ExAuto =>
      match external_commands p !! name with
      | Some c => Some c
      | None => global_commands p !! name
      end
  end.

(** [CommandParserFactory]: the parser of a name, and its [parse_origin]. *)
Abbreviation CommandParser := (ParserContext -> list CommandArg -> Result CommandExecutor).

Class CommandParserFactory : Type := {
  get_parser : string -> option CommandParser
}.

(** ** The linker *)

Section linker.
Context `{CommandParserFactory} (p : ParserContext).

(** The head of [link_command]: the parser, the name and the arguments it is
    called with, before the arguments are linked. *)
Definition resolve_parser (name : string) (args : list CommandArg)
  : Result (string * list CommandArg * CommandParser) :=
  let parser := get_parser name in
  let parser :=
    match get_external_command p name with
    | Some external => if overrides_builtin external args then None else parser
    | None => parser
    end in
  match parser with
  | Some parser => Ok (name, [], parser)
  | None =>
      match get_external_command p name, get_parser "call" with
      | Some _, Some parser => Ok ("call", [Literal "call"], parser)
      | _, _ => Err "No parser for command"
      end
  end.

(** Only an argument that is a command substitution itself is linked. *)
Definition link_arg (link : Expression -> Result Expression) (a : CommandArg)
  : Result CommandArg :=
  match a with
  | CommandSubstitution e => let? e' := link e in Ok (CommandSubstitution e')
  | _ => Ok a
  end.

Fixpoint link_expression (e : Expression) : Result Expression :=
  match e with
  | ECommand name args _ =>
      let? (name', front, parser) := resolve_parser name args in
      let? args' := mapR (link_arg link_expression) args in
      match parser p (front ++ args') with
      | Ok x => Ok (ECommand name' (front ++ args') (Some x))
      | Err _ => Err "Failed to parse command"
      end
  | EGroup exprs =>
      let? exprs' := mapR (fun '(o, e, o') => let? e' := link_expression e in Ok (o, e', o')) exprs in
      Ok (EGroup exprs')
  end.

Definition link_expressions (es : ExpressionChain) : Result ExpressionChain :=
  mapR (fun '(o, e, o') => let? e' := link_expression e in Ok (o, e', o')) es.

Section statements.
Context {L : Type} (link_line : L -> Result L).

Definition link_branch (b : IfBranch L) : Result (IfBranch L) :=
  let? c := link_expressions (if_condition b) in
  let? lines := mapR link_line (if_lines b) in
  Ok (mkIfBranch c lines).

Definition link_if_statement (s : IfStatement L) : Result (IfStatement L) :=
  let? bs := mapR link_branch (if_branches s) in
  let? e := optR (mapR link_line) (if_else s) in
  Ok (mkIfStatement bs e).

Definition link_case_statement (s : CaseStatement L) : Result (CaseStatement L) :=
  let? subject := optR (link_arg link_expression) (case_subject s) in
  let? bs := mapR link_branch (case_branches s) in
  let? e := optR (mapR link_line) (case_else s) in
  Ok (mkCaseStatement subject (case_binding_var s) bs e).

Definition link_for_statement (s : ForStatement L) : Result (ForStatement L) :=
  let? it := link_arg link_expression (iterable s) in
  let? lines := mapR link_line (for_lines s) in
  Ok (mkForStatement (key_var s) (value_var s) it lines).

Definition link_result_branch (b : MatchResultBranch L) : Result (MatchResultBranch L) :=
  let? lines := mapR link_line (mr_lines b) in
  Ok (mkMatchResultBranch (mr_binding_var b) lines).

Definition link_control_branch (b : MatchResultControlBranch L)
  : Result (MatchResultControlBranch L) :=
  let? lines := mapR link_line (mc_lines b) in
  Ok (mkMatchResultControlBranch (mc_action_var b) (mc_from_var b) (mc_value_var b) lines).

Definition link_match_result_statement (s : MatchResultStatement L)
  : Result (MatchResultStatement L) :=
  let? c := link_expression (mr_command s) in
  let? ok := optR link_result_branch (ok_branch s) in
  let? err := optR link_result_branch (err_branch s) in
  let? control := optR link_control_branch (control_branch s) in
  Ok (mkMatchResultStatement c ok err control).

(** One form of statement is linked, the first that is present. *)
Definition link_statement (s : StatementOf L) : Result (StatementOf L) :=
  match s with
  | mkStatement es (Some i) c f m =>
      let? i' := link_if_statement i in Ok (mkStatement es (Some i') c f m)
  | mkStatement es None (Some c) f m =>
      let? c' := link_case_statement c in Ok (mkStatement es None (Some c') f m)
  | mkStatement es None None (Some f) m =>
      let? f' := link_for_statement f in Ok (mkStatement es None None (Some f') m)
  | mkStatement es None None None (Some m) =>
      let? m' := link_match_result_statement m in Ok (mkStatement es None None None (Some m'))
  | mkStatement es None None None None =>
      let? es' := link_expressions es in Ok (mkStatement es' None None None None)
  end.
End statements.

Fixpoint link_line (l : Line) : Result Line :=
  match l with
  | mkLine source statements =>
      let? statements' := mapR (link_statement link_line) statements in
      Ok (mkLine source statements')
  end.

Definition link_block (b : Block) : Result Block :=
  let? lines := mapR link_line (block_lines b) in
  Ok (mkBlock (block_id b) lines).

(** [ProcessChain::link]. *)
Definition link_chain (c : ProcessChain) : Result ProcessChain :=
  let? blocks := mapR link_block (chain_blocks c) in
  Ok (mkProcessChain (chain_id c) (chain_priority c) blocks).
End linker.
