(* ===== verification/State.v ===== *)
(** * Execution state and effects

    The state a process-chain execution works on, and the effects its code has
    on it.  Everything the code shares through an [Arc] is an object of the
    state with a location: memory collections ([collection/mem.rs]), variable
    visitors ([collection/var.rs]), environments ([chain/env.rs]), variable
    level trackers ([chain/env_manager.rs]), the scopes of [map-reduce]
    ([cmd/map.rs]) and the execution pointer stack ([chain/stack.rs]), which
    all contexts of one execution share.

    A computation returns a value, an error ([Err] of the code), a panic of
    the code, or runs out of the fuel that bounds nested calls in [Interp],
    chains of visitors in [Collections] and chains of parents in [Env]: then
    the model says nothing of what the code does, which may not return. *)

From S2P Require Import Prelude Values Syntax.

(** ** Objects *)

(** A memory collection: its elements in insertion order and the number of
    traversals under way ([transverse_counter]). *)
Record Obj (E : Type) : Type := mkObj {
  obj_data : list E;
  obj_trav : nat
}.
Arguments mkObj {E}.
Arguments obj_data {E}.
Arguments obj_trav {E}.

Definition empty_obj {E} : Obj E := mkObj [] 0.

(** The four collection types, by the type of their elements. *)
Inductive kind : Type -> Type :=
| KList : kind TypedValue
| KSet : kind string
| KMap : kind (string * TypedValue)
| KMultiMap : kind (string * list string).

(** [VariableVisitorWrapperForMapCollection]: the visited map and, per
    variable id, the key there and whether it is read-only. *)
Record VisitorObj : Type := mkVisitor {
  vis_collection : loc;
  vis_vars : gmap string (string * bool)
}.

(** [Env]: its values are a map collection; its externals are [map-reduce]
    scopes, by id in order of registration. *)
Record Env : Type := mkEnv {
  env_level : EnvLevel;
  env_values : loc;
  env_parent : option loc;
  env_external : list (string * loc)
}.

(** One entry of the execution pointer stack. *)
Inductive Frame : Type :=
| FLib (l : ProcessChainLib)
| FChain (c : ProcessChain)
| FBlock (id : string).

Record state : Type := mkState {
  st_lists : gmap nat (Obj TypedValue);
  st_sets : gmap nat (Obj string);
  st_maps : gmap nat (Obj (string * TypedValue));
  st_multimaps : gmap nat (Obj (string * list string));
  st_visitors : gmap nat VisitorObj;
  st_envs : gmap nat Env;
  st_scopes : gmap nat (list loc);
  st_trackers : gmap nat (gmap string EnvLevel);
  st_stack : list Frame
}.

Definition empty_state : state := mkState ∅ ∅ ∅ ∅ ∅ ∅ ∅ ∅ [].

(** ** Reading and updating *)

Definition heap {E} (k : kind E) (st : state) : gmap nat (Obj E) :=
  match k in kind E return gmap nat (Obj E) with
  | KList => st_lists st
  | KSet => st_sets st
  | KMap => st_maps st
  | KMultiMap => st_multimaps st
  end.

Definition set_heap {E} (k : kind E) : gmap nat (Obj E) -> state -> state :=
  match k in kind E return gmap nat (Obj E) -> state -> state with
  | KList => fun h st =>
      mkState h (st_sets st) (st_maps st) (st_multimaps st) (st_visitors st) (st_envs st)
        (st_scopes st) (st_trackers st) (st_stack st)
  | KSet => fun h st =>
      mkState (st_lists st) h (st_maps st) (st_multimaps st) (st_visitors st) (st_envs st)
        (st_scopes st) (st_trackers st) (st_stack st)
  | KMap => fun h st =>
      mkState (st_lists st) (st_sets st) h (st_multimaps st) (st_visitors st) (st_envs st)
        (st_scopes st) (st_trackers st) (st_stack st)
  | KMultiMap => fun h st =>
      mkState (st_lists st) (st_sets st) (st_maps st) h (st_visitors st) (st_envs st)
        (st_scopes st) (st_trackers st) (st_stack st)
  end.

Definition set_envs (m : gmap nat Env) (st : state) : state :=
  mkState (st_lists st) (st_sets st) (st_maps st) (st_multimaps st) (st_visitors st) m
    (st_scopes st) (st_trackers st) (st_stack st).

Definition set_scopes (m : gmap nat (list loc)) (st : state) : state :=
  mkState (st_lists st) (st_sets st) (st_maps st) (st_multimaps st) (st_visitors st)
    (st_envs st) m (st_trackers st) (st_stack st).

Definition set_trackers (m : gmap nat (gmap string EnvLevel)) (st : state) : state :=
  mkState (st_lists st) (st_sets st) (st_maps st) (st_multimaps st) (st_visitors st)
    (st_envs st) (st_scopes st) m (st_stack st).

Definition set_stack (s : list Frame) (st : state) : state :=
  mkState (st_lists st) (st_sets st) (st_maps st) (st_multimaps st) (st_visitors st)
    (st_envs st) (st_scopes st) (st_trackers st) s.

Definition obj_at {E} (k : kind E) (l : loc) (st : state) : Obj E :=
  default empty_obj (heap k st !! l).

Definition set_obj {E} (k : kind E) (l : loc) (o : Obj E) (st : state) : state :=
  set_heap k (<[l := o]> (heap k st)) st.

Definition env_at (e : loc) (st : state) : Env :=
  default (mkEnv EvChain 0 None []) (st_envs st !! e).

Definition tracker_at (t : loc) (st : state) : gmap string EnvLevel :=
  default ∅ (st_trackers st !! t).

Definition scopes_at (l : loc) (st : state) : list loc :=
  default [] (st_scopes st !! l).

(** A location not in use. *)
Definition fresh_in {A} (m : gmap nat A) : loc := fresh (dom m).

(** A location for a new environment: not in use, and not the one its parent
    has, which the code builds before. *)
Definition fresh_env (e : Env) (st : state) : loc :=
  fresh (from_option singleton ∅ (env_parent e) ∪ dom (st_envs st)).

(** ** Computations *)

Inductive Outcome (A : Type) : Type :=
| Done (a : A)
| Fail (msg : string)
| Panicked (msg : string)
| OutOfFuel.
Arguments Done {A} a.
Arguments Fail {A} msg.
Arguments Panicked {A} msg.
Arguments OutOfFuel {A}.

Definition M (A : Type) : Type := state -> Outcome A * state.

Definition ret {A} (a : A) : M A := fun st => (Done a, st).
Definition fail {A} (msg : string) : M A := fun st => (Fail msg, st).
Definition panic {A} (msg : string) : M A := fun st => (Panicked msg, st).
Definition out_of_fuel {A} : M A := fun st => (OutOfFuel, st).
Definition gets {A} (f : state -> A) : M A := fun st => (Done (f st), st).
Definition modify (f : state -> state) : M unit := fun st => (Done tt, f st).

Definition bind {A B} (m : M A) (k : A -> M B) : M B := fun st =>
  let '(r, st1) := m st in
  match r with
  | Done a => k a st1
  | Fail e => (Fail e, st1)
  | Panicked e => (Panicked e, st1)
  | OutOfFuel => (OutOfFuel, st1)
  end.

(** The [Result] of a computation as a value, where the code inspects it. *)
Definition attempt {A} (m : M A) : M (Result A) := fun st =>
  let '(r, st1) := m st in
  match r with
  | Done a => (Done (Ok a), st1)
  | Fail e => (Done (Err e), st1)
  | Panicked e => (Panicked e, st1)
  | OutOfFuel => (OutOfFuel, st1)
  end.

Definition of_result {A} (r : Result A) : M A :=
  match r with Ok a => ret a | Err e => fail e end.

Notation "'let*' x ':=' m 'in' k" := (bind m (fun x => k))
  (at level 10, x pattern, m at level 100, k at level 200) : gw_scope.
Notation "m ';;' k" := (bind m (fun _ => k))
  (at level 100, right associativity) : gw_scope.

Section loops.
Context {A B : Type}.

(** Run [f] on each element in order, collecting the results. *)
Definition mapM (f : A -> M B) : list A -> M (list B) :=
  fix go l :=
    match l with
    | [] => ret []
    | a :: l' =>
        let* b := f a in
        let* bs := go l' in
        ret (b :: bs)
    end.

Definition forM_ (f : A -> M unit) : list A -> M unit :=
  fix go l :=
    match l with
    | [] => ret tt
    | a :: l' => f a ;; go l'
    end.
End loops.

(** ** Allocation *)

Definition alloc {E} (k : kind E) (data : list E) : M loc := fun st =>
  let l := fresh_in (heap k st) in
  (Done l, set_obj k l (mkObj data 0) st).

Definition alloc_env (e : Env) : M loc := fun st =>
  let l := fresh_env e st in
  (Done l, set_envs (<[l := e]> (st_envs st)) st).

Definition alloc_tracker : M loc := fun st =>
  let l := fresh_in (st_trackers st) in
  (Done l, set_trackers (<[l := ∅]> (st_trackers st)) st).

(** ** Execution pointer stack: [chain/stack.rs] *)

Definition MAX_STACK_DEPTH : nat := 64.

Definition same_frame_kind (f g : Frame) : bool :=
  match f, g with
  | FLib _, FLib _ | FChain _, FChain _ | FBlock _, FBlock _ => true
  | _, _ => false
  end.

(** [ExecPointer::set_lib], [set_chain] and [set_block]. *)
Definition push_frame (f : Frame) : M unit := fun st =>
  if (MAX_STACK_DEPTH <=? length (st_stack st))%nat
  then (Fail "Execution stack depth exceeds maximum limit", st)
  else (Done tt, set_stack (f :: st_stack st) st).

(** [ExecPointer::reset_lib], [reset_chain] and [reset_block]. *)
Definition pop_frame (f : Frame) : M unit := fun st =>
  match st_stack st with
  | g :: rest =>
      if same_frame_kind f g then (Done tt, set_stack rest st)
      else (Panicked "unexpected top of the execution stack", set_stack rest st)
  | [] => (Panicked "unexpected top of the execution stack", st)
  end.

(** Run a computation inside an [ExecPointer*Guard]: the guard's [drop] runs
    on success and on error. *)
Definition with_frame {A} (f : Frame) (m : M A) : M A :=
  push_frame f ;;
  let* r := attempt m in
  pop_frame f ;;
  of_result r.

(** The first frame of each kind from the top. *)
Definition current_lib (st : state) : option ProcessChainLib :=
  head (omap (fun f => match f with FLib l => Some l | _ => None end) (st_stack st)).
Definition current_chain (st : state) : option ProcessChain :=
  head (omap (fun f => match f with FChain c => Some c | _ => None end) (st_stack st)).
Definition current_block (st : state) : option string :=
  head (omap (fun f => match f with FBlock b => Some b | _ => None end) (st_stack st)).

(** ** Traversal: [TraverseGuard] of [collection/mem.rs] *)

Definition enter_traverse {E} (k : kind E) (l : loc) (st : state) : state :=
  let o := obj_at k l st in set_obj k l (mkObj (obj_data o) (S (obj_trav o))) st.

Definition leave_traverse {E} (k : kind E) (l : loc) (st : state) : state :=
  let o := obj_at k l st in set_obj k l (mkObj (obj_data o) (obj_trav o - 1)) st.

Definition with_traverse {E A} (k : kind E) (l : loc) (m : M A) : M A :=
  modify (enter_traverse k l) ;;
  let* r := attempt m in
  modify (leave_traverse k l) ;;
  of_result r.

(** A mutation of a collection, refused while it is traversed. *)
Definition mutate {E B} (k : kind E) (l : loc) (msg : string)
    (f : list E -> Result B * list E) : M B := fun st =>
  let o := obj_at k l st in
  if (0 <? obj_trav o)%nat then (Fail msg, st)
  else
    let '(r, data) := f (obj_data o) in
    match r with
    | Ok b => (Done b, set_obj k l (mkObj data (obj_trav o)) st)
    | Err e => (Fail e, st)
    end.

Definition read {E B} (k : kind E) (l : loc) (f : list E -> B) : M B :=
  gets (fun st => f (obj_data (obj_at k l st))).
