(* ===== verification/Collections.v ===== *)
(** * Memory collections

    Models [collection/mem.rs] and the visitor wrapper of
    [collection/var.rs]: the operations of the list, set, map and multimap
    collections on the objects of [State], with their refusal to change while
    they are traversed.  [IndexMap] and [IndexSet] are association lists in
    insertion order, which implement finite maps and sets. *)

From S2P Require Import Prelude Values Syntax State.

(** ** [IndexMap] and [IndexSet] *)

Section indexmap.
Context {V : Type}.
Implicit Types (m : list (string * V)).

Fixpoint im_get (k : string) (m : list (string * V)) : option V :=
  match m with
  | [] => None
  | (k', v) :: m' => if String.eqb k k' then Some v else im_get k m'
  end.

(** Replaces in place, or appends. *)
Fixpoint im_insert (k : string) (v : V) (m : list (string * V)) : list (string * V) :=
  match m with
  | [] => [(k, v)]
  | (k', v') :: m' =>
      if String.eqb k k' then (k', v) :: m' else (k', v') :: im_insert k v m'
  end.

(** [shift_remove]: the other entries keep their order. *)
Fixpoint im_remove (k : string) (m : list (string * V)) : list (string * V) :=
  match m with
  | [] => []
  | (k', v') :: m' => if String.eqb k k' then m' else (k', v') :: im_remove k m'
  end.

Definition im_keys (m : list (string * V)) : list string := map fst m.
End indexmap.

Definition is_mem (x : string) (s : list string) : bool := existsb (String.eqb x) s.

(** [IndexSet::insert]: the set and whether the value is new. *)
Definition is_insert (x : string) (s : list string) : bool * list string :=
  if is_mem x s then (false, s) else (true, s ++ [x]).

Fixpoint is_remove (x : string) (s : list string) : list string :=
  match s with
  | [] => []
  | y :: s' => if String.eqb x y then s' else y :: is_remove x s'
  end.

(** ** Lists *)

Definition zlen {A} (l : list A) : Z := Z.of_nat (length l).

Definition list_len (l : loc) : M Z := read KList l zlen.

Definition list_push (l : loc) (v : TypedValue) : M unit :=
  mutate KList l "Cannot push value during traversal" (fun d => (Ok tt, d ++ [v])).

Definition list_insert (l : loc) (index : Z) (v : TypedValue) : M unit :=
  mutate KList l "Cannot insert during traversal" (fun d =>
    if zlen d <? index then (Err "List index out of bounds for insert", d)
    else (Ok tt, take (Z.to_nat index) d ++ v :: drop (Z.to_nat index) d)).

Definition list_set (l : loc) (index : Z) (v : TypedValue) : M (option TypedValue) :=
  mutate KList l "Cannot set index during traversal" (fun d =>
    if zlen d <=? index then (Err "List index out of bounds for set", d)
    else (Ok (d !! Z.to_nat index), <[Z.to_nat index := v]> d)).

Definition list_get (l : loc) (index : Z) : M (option TypedValue) :=
  read KList l (fun d => if zlen d <=? index then None else d !! Z.to_nat index).

Definition list_remove (l : loc) (index : Z) : M (option TypedValue) :=
  mutate KList l "Cannot remove index during traversal" (fun d =>
    if zlen d <=? index then (Ok None, d)
    else (Ok (d !! Z.to_nat index), delete (Z.to_nat index) d)).

Definition list_pop (l : loc) : M (option TypedValue) :=
  mutate KList l "Cannot pop value during traversal" (fun d => (Ok (last d), removelast d)).

Definition list_clear (l : loc) : M unit :=
  mutate KList l "Cannot clear list during traversal" (fun _ => (Ok tt, [])).

Definition list_get_all (l : loc) : M (list TypedValue) := read KList l id.

(** The values of [contains_all_strings] still to be found. *)
Fixpoint remaining_after (remaining : list string) (d : list TypedValue) : bool :=
  match d with
  | [] => match remaining with [] => true | _ => false end
  | VString s :: d' =>
      let remaining := List.filter (fun x => negb (String.eqb x s)) remaining in
      match remaining with [] => true | _ => remaining_after remaining d' end
  | _ :: d' => remaining_after remaining d'
  end.

Definition list_contains_all_strings (l : loc) (values : list string) : M bool :=
  match values with
  | [] => ret true
  | _ => read KList l (remaining_after values)
  end.

(** ** Sets *)

Definition set_len (l : loc) : M Z := read KSet l zlen.

Definition set_insert (l : loc) (x : string) : M bool :=
  mutate KSet l "Cannot insert key during traversal" (fun d =>
    let '(b, d') := is_insert x d in (Ok b, d')).

Definition set_contains (l : loc) (x : string) : M bool := read KSet l (is_mem x).

Definition set_remove (l : loc) (x : string) : M bool :=
  mutate KSet l "Cannot remove key during traversal" (fun d => (Ok (is_mem x d), is_remove x d)).

Definition set_get_all (l : loc) : M (list string) := read KSet l id.

(** ** Maps *)

Definition map_len (l : loc) : M Z := read KMap l zlen.

Definition map_contains_key (l : loc) (key : string) : M bool :=
  read KMap l (fun d => match im_get key d with Some _ => true | None => false end).

Definition map_insert_new (l : loc) (key : string) (v : TypedValue) : M bool :=
  mutate KMap l "Cannot insert new key during traversal" (fun d =>
    match im_get key d with
    | Some _ => (Ok false, d)
    | None => (Ok true, im_insert key v d)
    end).

Definition visitor_at (v : loc) (st : state) : VisitorObj :=
  default (mkVisitor 0 ∅) (st_visitors st !! v).

(** [VariableVisitor::get] of the wrapper, over the [get] of its map. *)
Definition visitor_get (get : loc -> string -> M (option TypedValue)) (v : loc) (id : string)
  : M TypedValue :=
  let* vis := gets (visitor_at v) in
  match vis_vars vis !! id with
  | Some (key, _) =>
      let* r := get (vis_collection vis) key in
      match r with
      | Some value => ret value
      | None => fail "Variable not found in visitor collection"
      end
  | None => fail "Variable not registered"
  end.

Definition visitor_set (insert : loc -> string -> TypedValue -> M (option TypedValue))
    (v : loc) (id : string) (value : TypedValue) : M (option TypedValue) :=
  let* vis := gets (visitor_at v) in
  match vis_vars vis !! id with
  | Some (key, read_only) =>
      if read_only : bool then fail "Cannot set read-only variable"
      else insert (vis_collection vis) key value
  | None => fail "Variable not registered"
  end.

(** The loop of [MapCollection::get] that follows visitors. *)
Fixpoint visitor_loop (get : loc -> string -> M (option TypedValue)) (fuel : nat)
    (v : loc) (key : string) : M (option TypedValue) :=
  let* r := visitor_get get v key in
  match r with
  | VVisitor v' =>
      match fuel with
      | O => out_of_fuel
      | S fuel' => visitor_loop get fuel' v' key
      end
  | _ => ret (Some r)
  end.

(** [fuel] bounds the length of a chain of visitors.  Each link of a chain goes
    through a registered variable, and a chain that goes through one twice
    never ends: fuel for every registered variable is enough for the chains
    that end, and on the others the code does not return. *)
Fixpoint map_get_fuel (fuel : nat) (l : loc) (key : string) : M (option TypedValue) :=
  let* r := read KMap l (im_get key) in
  match r with
  | Some (VVisitor v) =>
      match fuel with
      | O => out_of_fuel
      | S fuel' => visitor_loop (map_get_fuel fuel') fuel' v key
      end
  | _ => ret r
  end.

Fixpoint map_insert_fuel (fuel : nat) (l : loc) (key : string) (v : TypedValue)
  : M (option TypedValue) :=
  let* r := mutate KMap l "Cannot insert key during traversal" (fun d =>
    match im_get key d with
    | Some (VVisitor vis) => (Ok (inl vis), d)
    | Some prev => (Ok (inr (Some prev)), im_insert key v d)
    | None => (Ok (inr None), im_insert key v d)
    end) in
  match r with
  | inr prev => ret prev
  | inl vis =>
      match fuel with
      | O => out_of_fuel
      | S fuel' => visitor_set (map_insert_fuel fuel') vis key v
      end
  end.

(** The registered variables of all visitors, with their visitor. *)
Definition visitor_ids (st : state) : list (loc * string) :=
  concat (map (fun '(v, vis) => map (fun '(id, _) => (v, id)) (map_to_list (vis_vars vis)))
    (map_to_list (st_visitors st))).

Definition map_get (l : loc) (key : string) : M (option TypedValue) :=
  let* n := gets (fun st => length (visitor_ids st)) in map_get_fuel (S n) l key.

Definition map_insert (l : loc) (key : string) (v : TypedValue) : M (option TypedValue) :=
  let* n := gets (fun st => length (visitor_ids st)) in map_insert_fuel (S n) l key v.

Definition map_remove (l : loc) (key : string) : M (option TypedValue) :=
  mutate KMap l "Cannot remove key during traversal" (fun d =>
    (Ok (im_get key d), im_remove key d)).

Definition map_keys_snapshot (l : loc) : M (list string) := read KMap l im_keys.
Definition map_dump (l : loc) : M (list (string * TypedValue)) := read KMap l id.

(** ** Multimaps *)

Definition mm_len (l : loc) : M Z := read KMultiMap l zlen.

Definition mm_entry (key : string) (d : list (string * list string)) : list string :=
  default [] (im_get key d).

Definition mm_insert (l : loc) (key value : string) : M bool :=
  mutate KMultiMap l "Cannot insert key during traversal" (fun d =>
    let '(b, s) := is_insert value (mm_entry key d) in (Ok b, im_insert key s d)).

Definition is_insert_all (values : list string) (s : list string) : list string :=
  fold_left (fun s v => snd (is_insert v s)) values s.

Definition mm_insert_many (l : loc) (key : string) (values : list string) : M bool :=
  mutate KMultiMap l "Cannot insert key during traversal" (fun d =>
    let s := mm_entry key d in
    let s' := is_insert_all values s in
    (Ok (length s <? length s')%nat, im_insert key s' d)).

Definition mm_get (l : loc) (key : string) : M (option string) :=
  read KMultiMap l (fun d => head (mm_entry key d)).

(** A fresh set with a copy of the values. *)
Definition mm_get_many (l : loc) (key : string) : M (option loc) :=
  let* s := read KMultiMap l (im_get key) in
  match s with
  | Some s => let* c := alloc KSet s in ret (Some c)
  | None => ret None
  end.

Definition mm_contains_key (l : loc) (key : string) : M bool :=
  read KMultiMap l (fun d => match im_get key d with Some _ => true | None => false end).

(** The loop of [contains_value]: stops at the first value not in the set. *)
Fixpoint contains_value_loop (s values : list string) (exists_ : bool) : bool :=
  match values with
  | [] => exists_
  | v :: rest => if is_mem v s then contains_value_loop s rest true else false
  end.

Definition mm_contains_value (l : loc) (key : string) (values : list string) : M bool :=
  read KMultiMap l (fun d =>
    match im_get key d with
    | Some s => contains_value_loop s values false
    | None => false
    end).

(** Puts back the set of a key, or drops the key when the set is empty. *)
Definition mm_put (key : string) (s : list string) (d : list (string * list string))
  : list (string * list string) :=
  match s with
  | [] => im_remove key d
  | _ => im_insert key s d
  end.

Definition mm_remove (l : loc) (key value : string) : M bool :=
  mutate KMultiMap l "Cannot remove key during traversal" (fun d =>
    match im_get key d with
    | Some s => (Ok (is_mem value s), mm_put key (is_remove value s) d)
    | None => (Ok false, d)
    end).

Definition mm_remove_many (l : loc) (key : string) (values : list string) : M (option loc) :=
  let* removed := mutate KMultiMap l "Cannot remove key during traversal" (fun d =>
    match im_get key d with
    | Some s =>
        let '(s', removed) :=
          fold_left (fun '(s, removed) v =>
            if is_mem v s then (is_remove v s, snd (is_insert v removed)) else (s, removed))
            values (s, []) in
        (Ok (Some removed), mm_put key s' d)
    | None => (Ok None, d)
    end) in
  match removed with
  | Some r => let* c := alloc KSet r in ret (Some c)
  | None => ret None
  end.

Definition mm_remove_all (l : loc) (key : string) : M (option loc) :=
  let* s := mutate KMultiMap l "Cannot remove all during traversal" (fun d =>
    (Ok (im_get key d), im_remove key d)) in
  match s with
  | Some s => let* c := alloc KSet s in ret (Some c)
  | None => ret None
  end.

(** ** Traversal *)

(** Calls [f] on each element with its index, threading a state of the
    callback, until [f] says to stop. *)
Definition traverse_loop {E S} (f : S -> nat -> E -> M (S * bool)) : S -> nat -> list E -> M S :=
  fix go s i l :=
    match l with
    | [] => ret s
    | x :: l' =>
        let* (s', go_on) := f s i x in
        if go_on : bool then go s' (Datatypes.S i) l' else ret s'
    end.

(** The [traverse] functions: the elements are read once, under the guard. *)
Definition traverse {E S} (k : kind E) (l : loc) (f : S -> nat -> E -> M (S * bool)) (s : S)
  : M S :=
  with_traverse k l (let* data := read k l id in traverse_loop f s 0 data).

(** The pairs [traverse] of a multimap visits. *)
Definition mm_pairs (d : list (string * list string)) : list (string * string) :=
  concat (map (fun '(k, s) => map (pair k) s) d).

Definition mm_traverse {S} (l : loc) (f : S -> nat -> string * string -> M (S * bool)) (s : S)
  : M S :=
  with_traverse KMultiMap l (let* data := read KMultiMap l mm_pairs in traverse_loop f s 0 data).

(** * Insertion-ordered maps and sets

    The lists that model [IndexMap] and [IndexSet] implement finite maps and
    sets: lookup, insertion and removal are those of their abstraction, and no
    key or value occurs twice. *)

(** ** [IndexMap] *)

Section indexmap.
Context {V : Type}.
Implicit Types (m : list (string * V)).

Definition im_abs (m : list (string * V)) : gmap string V := list_to_map m.

Lemma im_get_abs k m : im_get k m = im_abs m !! k.
Proof.
  unfold im_abs. induction m as [|[k' v] m IH]; [done|]. simpl.
  destruct (String.eqb_spec k k') as [->|Hn].
  - by rewrite lookup_insert_eq.
  - by rewrite lookup_insert_ne by done.
Qed.

Lemma im_insert_abs k v m : im_abs (im_insert k v m) = <[k := v]> (im_abs m).
Proof.
  unfold im_abs. induction m as [|[k' v'] m IH]; [done|]. simpl.
  destruct (String.eqb_spec k k') as [->|Hn]; simpl.
  - by rewrite insert_insert_eq.
  - by rewrite IH, insert_insert_ne.
Qed.

Lemma im_keys_insert k v m :
  im_keys (im_insert k v m) = if decide (k ∈ im_keys m) then im_keys m else im_keys m ++ [k].
Proof.
  induction m as [|[k' v'] m IH]; [done|]. simpl.
  destruct (String.eqb_spec k k') as [->|Hn]; simpl.
  - by rewrite decide_True by set_solver.
  - rewrite IH. repeat case_decide; set_solver.
Qed.

Lemma im_insert_NoDup k v m : NoDup (im_keys m) -> NoDup (im_keys (im_insert k v m)).
Proof.
  intros Hm. rewrite im_keys_insert. case_decide as Hk; [done|].
  apply NoDup_app. split; [done|]. split; [set_solver|apply NoDup_singleton].
Qed.

Lemma im_keys_remove k m : im_keys (im_remove k m) = is_remove k (im_keys m).
Proof.
  induction m as [|[k' v'] m IH]; [done|]. simpl. destruct (String.eqb k k'); simpl; congruence.
Qed.

Lemma im_get_None k m : im_get k m = None <-> k ∉ im_keys m.
Proof.
  induction m as [|[k' v'] m IH]; simpl; [set_solver|].
  destruct (String.eqb_spec k k') as [->|Hn]; [set_solver|]. rewrite IH. set_solver.
Qed.

Lemma im_remove_abs k m : NoDup (im_keys m) -> im_abs (im_remove k m) = delete k (im_abs m).
Proof.
  unfold im_abs. induction m as [|[k' v'] m IH]; simpl; intros Hm.
  { by rewrite delete_empty. }
  apply NoDup_cons in Hm as [Hk Hm]. destruct (String.eqb_spec k k') as [->|Hn]; simpl.
  - rewrite delete_insert_id; [done|]. change (im_abs m !! k' = None).
    rewrite <- im_get_abs. by apply im_get_None.
  - by rewrite IH, delete_insert_ne.
Qed.
End indexmap.

(** ** [IndexSet] *)

Lemma is_mem_spec x s : is_mem x s = true <-> x ∈ s.
Proof.
  unfold is_mem. rewrite existsb_exists. split.
  - intros (y & Hy & ->%String.eqb_eq). by apply list_elem_of_In.
  - intros Hx. exists x. split; [by apply list_elem_of_In|apply String.eqb_refl].
Qed.

Lemma is_mem_decide x s : is_mem x s = bool_decide (x ∈ s).
Proof. apply eq_bool_prop_intro. rewrite bool_decide_spec, Is_true_true. apply is_mem_spec. Qed.

Lemma is_insert_elem x y s : y ∈ snd (is_insert x s) <-> y = x \/ y ∈ s.
Proof. unfold is_insert. destruct (is_mem x s) eqn:E; [apply is_mem_spec in E|]; set_solver. Qed.

Lemma is_insert_NoDup x s : NoDup s -> NoDup (snd (is_insert x s)).
Proof.
  intros Hs. unfold is_insert. destruct (is_mem x s) eqn:E; [done|].
  assert (x ∉ s) by (rewrite <- is_mem_spec; congruence).
  apply NoDup_app. split; [done|]. split; [set_solver|apply NoDup_singleton].
Qed.

Lemma is_remove_sublist x s : is_remove x s `sublist_of` s.
Proof. induction s as [|y s IH]; simpl; [done|]. destruct (String.eqb x y); by constructor. Qed.

Lemma is_remove_NoDup x s : NoDup s -> NoDup (is_remove x s).
Proof. intros Hs. eapply sublist_NoDup; eauto using is_remove_sublist. Qed.

Lemma is_remove_elem x y s : NoDup s -> y ∈ is_remove x s <-> y <> x /\ y ∈ s.
Proof.
  induction s as [|z s IH]; simpl; intros Hs; [set_solver|].
  apply NoDup_cons in Hs as [Hz Hs].
  destruct (String.eqb_spec x z) as [->|Hn]; [set_solver|]. rewrite !elem_of_cons, IH by done.
  set_solver.
Qed.

Lemma im_remove_NoDup {V} k (m : list (string * V)) :
  NoDup (im_keys m) -> NoDup (im_keys (im_remove k m)).
Proof. rewrite im_keys_remove. apply is_remove_NoDup. Qed.

Lemma im_get_insert {V} k k' (v : V) d :
  im_get k' (im_insert k v d) = if decide (k = k') then Some v else im_get k' d.
Proof.
  rewrite !im_get_abs, im_insert_abs. case_decide; subst.
  - by rewrite lookup_insert_eq.
  - by rewrite lookup_insert_ne.
Qed.

Lemma im_get_remove {V} k k' (d : list (string * V)) :
  NoDup (im_keys d) -> im_get k' (im_remove k d) = if decide (k = k') then None else im_get k' d.
Proof.
  intros Hd. rewrite !im_get_abs, im_remove_abs by done. case_decide; subst.
  - by rewrite lookup_delete_eq.
  - by rewrite lookup_delete_ne.
Qed.

Lemma is_insert_all_NoDup xs s : NoDup s -> NoDup (is_insert_all xs s).
Proof.
  unfold is_insert_all. revert s. induction xs as [|x xs IH]; intros s Hs; simpl; [done|].
  by apply IH, is_insert_NoDup.
Qed.

(** ** Well-formed collections *)

(** What a collection of each kind never loses: no key, and no value of a set,
    occurs twice. *)
Definition kind_wf {E} (k : kind E) : list E -> Prop :=
  match k in kind E return list E -> Prop with
  | KList => fun _ => True
  | KSet => fun d => NoDup d
  | KMap => fun d => NoDup (im_keys d)
  | KMultiMap => fun d => NoDup (im_keys d) /\ forall k s, im_get k d = Some s -> NoDup s
  end.

Lemma mm_wf_get d k : kind_wf KMultiMap d -> NoDup (mm_entry k d).
Proof.
  intros [_ Hd]. unfold mm_entry. destruct (im_get k d) eqn:E; simpl; [by apply (Hd k)|constructor].
Qed.

Lemma mm_wf_set d k s : kind_wf KMultiMap d -> NoDup s -> kind_wf KMultiMap (im_insert k s d).
Proof.
  intros [Hk Hd] Hs. split; [by apply im_insert_NoDup|].
  intros k' s'. rewrite im_get_insert. case_decide; [naive_solver|apply Hd].
Qed.

Lemma mm_wf_delete d k : kind_wf KMultiMap d -> kind_wf KMultiMap (im_remove k d).
Proof.
  intros [Hk Hd]. split; [by apply im_remove_NoDup|].
  intros k' s'. rewrite im_get_remove by done. case_decide; [done|apply Hd].
Qed.

Lemma mm_wf_put_set d k s : kind_wf KMultiMap d -> NoDup s -> kind_wf KMultiMap (mm_put k s d).
Proof. intros Hd Hs. destruct s; [by apply mm_wf_delete|by apply mm_wf_set]. Qed.

(** The fold of [remove_many] leaves the values not removed, and collects the
    removed ones. *)
Lemma remove_many_NoDup xs s r :
  NoDup s -> NoDup r ->
  let '(s', r') := fold_left (fun '(s, removed) v =>
    if is_mem v s then (is_remove v s, snd (is_insert v removed)) else (s, removed)) xs (s, r) in
  NoDup s' /\ NoDup r'.
Proof.
  revert s r. induction xs as [|x xs IH]; intros s r Hs Hr; simpl; [done|].
  destruct (is_mem x s); apply IH; auto using is_remove_NoDup, is_insert_NoDup.
Qed.
