(* ===== verification/Env.v ===== *)
(** * Environments

    Models [chain/env.rs] (one environment: local values, externals, parent),
    [chain/external.rs] with its implementation in [cmd/map.rs] (the scopes of
    [map-reduce]), and [chain/env_manager.rs] (the three levels of a context,
    variable paths, and the tracker of variable levels).

    The environments of a [map-reduce] scope stack have neither parent nor
    externals, so each is its map of values. *)

From S2P Require Import Prelude Values Syntax State Collections.

(** ** Externals *)

(** [MapReduceVariableEnv::current_env]. *)
Definition current_scope (x : loc) : M loc :=
  let* s := gets (scopes_at x) in
  match s with
  | e :: _ => ret e
  | [] => panic "called Option::unwrap on a None value"
  end.

Definition ext_contains (x : loc) (key : string) : M bool :=
  let* e := current_scope x in map_contains_key e key.

Definition ext_get_existing (x : loc) (key : string) : M (bool * option TypedValue) :=
  let* e := current_scope x in
  let* r := map_get e key in
  ret (match r with Some _ => true | None => false end, r).

Definition ext_set_existing (x : loc) (key : string) (v : TypedValue)
  : M (bool * option TypedValue) :=
  let* e := current_scope x in
  let* r := map_get e key in
  match r with
  | None => ret (false, None)
  | Some _ => let* old := map_insert e key v in ret (true, old)
  end.

Definition ext_remove_existing (x : loc) (key : string) : M (bool * option TypedValue) :=
  let* e := current_scope x in
  let* r := map_remove e key in
  ret (match r with Some _ => true | None => false end, r).

(** The loops of [EnvExternalManager]: the first external that handles the key. *)
Fixpoint exts_contains (xs : list (string * loc)) (key : string) : M bool :=
  match xs with
  | [] => ret false
  | (_, x) :: xs' =>
      let* b := ext_contains x key in
      if b : bool then ret true else exts_contains xs' key
  end.

Fixpoint exts_first (f : loc -> M (bool * option TypedValue)) (xs : list (string * loc))
  : M (bool * option TypedValue) :=
  match xs with
  | [] => ret (false, None)
  | (_, x) :: xs' =>
      let* (handled, v) := f x in
      if handled : bool then ret (true, v) else exts_first f xs'
  end.

(** ** Scopes of [map-reduce] *)

Definition MAP_REDUCE_ENV_ID : string := "__map_reduce__".
Definition MAP_REDUCE_ENV_KEY : string := "__key".
Definition MAP_REDUCE_ENV_VALUE : string := "__value".
Definition MAP_REDUCE_ENV_RESULT : string := "__result".

Fixpoint find_external (id : string) (xs : list (string * loc)) : option loc :=
  match xs with
  | [] => None
  | (id', x) :: xs' => if String.eqb id' id then Some x else find_external id xs'
  end.

Fixpoint drop_external (id : string) (xs : list (string * loc)) : list (string * loc) :=
  match xs with
  | [] => []
  | (id', x) :: xs' => if String.eqb id' id then xs' else (id', x) :: drop_external id xs'
  end.

Definition set_external (e : loc) (xs : list (string * loc)) (st : state) : state :=
  let env := env_at e st in
  set_envs (<[e := mkEnv (env_level env) (env_values env) (env_parent env) xs]> (st_envs st)) st.

Definition add_external (e : loc) (id : string) (x : loc) : M unit := fun st =>
  match find_external id (env_external (env_at e st)) with
  | Some _ => (Fail "External environment with id already exists", st)
  | None => (Done tt, set_external e (env_external (env_at e st) ++ [(id, x)]) st)
  end.

Definition remove_external (e : loc) (id : string) : M unit :=
  modify (fun st => set_external e (drop_external id (env_external (env_at e st))) st).

(** [MapReduceVariableEnv::new], [new_env] and [pop_env]. *)
Definition alloc_scopes : M loc := fun st =>
  let x := fresh_in (st_scopes st) in
  (Done x, set_scopes (<[x := []]> (st_scopes st)) st).

Definition push_scope (x : loc) : M unit :=
  let* e := alloc KMap [] in
  modify (fun st => set_scopes (<[x := e :: scopes_at x st]> (st_scopes st)) st).

Definition pop_scope (x : loc) : M unit :=
  modify (fun st => set_scopes (<[x := tail (scopes_at x st)]> (st_scopes st)) st).

(** Run [body] in a new scope of the stack [x]. *)
Definition in_scope {A} (x : loc) (body : loc -> M A) : M (Result A) :=
  push_scope x ;;
  let* r := attempt (body x) in
  pop_scope x ;;
  ret r.

(** The frame of [MapReduceCommand::exec]: find or register the scope stack of
    the block environment, and run [body] in a new scope of it. *)
Definition with_map_reduce {A} (block : loc) (body : loc -> M A) : M A :=
  let* env := gets (env_at block) in
  let* (x, need_remove) :=
    match find_external MAP_REDUCE_ENV_ID (env_external env) with
    | Some x => ret (x, false)
    | None =>
        let* x := alloc_scopes in
        add_external block MAP_REDUCE_ENV_ID x ;;
        ret (x, true)
    end in
  let* r := in_scope x body in
  (if need_remove : bool then remove_external block MAP_REDUCE_ENV_ID else ret tt) ;;
  of_result r.

(** [current_env().set(..)] on a scope stack. *)
Definition scope_set (x : loc) (key : string) (v : TypedValue) : M unit :=
  let* e := current_scope x in
  map_insert e key v ;; ret tt.

(** ** One environment *)

Definition has_external (e : Env) : bool :=
  match env_external e with [] => false | _ => true end.

Definition env_contains (e : loc) (key : string) : M bool :=
  let* env := gets (env_at e) in
  let* b := map_contains_key (env_values env) key in
  if b : bool then ret true
  else if has_external env then exts_contains (env_external env) key
  else ret false.

Definition env_create (e : loc) (key : string) (v : TypedValue) : M bool :=
  let* env := gets (env_at e) in map_insert_new (env_values env) key v.

Definition env_set (e : loc) (key : string) (v : TypedValue) : M (option TypedValue) :=
  let* env := gets (env_at e) in
  if negb (has_external env) then map_insert (env_values env) key v
  else
    let* b := map_contains_key (env_values env) key in
    if b : bool then map_insert (env_values env) key v
    else
      let* (handled, old) := exts_first (fun x => ext_set_existing x key v) (env_external env) in
      if handled : bool then ret old else map_insert (env_values env) key v.

(** [fuel] bounds the length of the parent chain: a chain with more links than
    there are environments never ends, and the code does not return. *)
Fixpoint env_get_fuel (fuel : nat) (e : loc) (key : string) : M (option TypedValue) :=
  let* env := gets (env_at e) in
  let* local := map_get (env_values env) key in
  match local with
  | Some v => ret (Some v)
  | None =>
      let* (handled, v) :=
        (if has_external env
         then exts_first (fun x => ext_get_existing x key) (env_external env)
         else ret (false, None)) in
      if handled : bool then ret v
      else
        match env_parent env with
        | None => ret None
        | Some p =>
            match fuel with
            | O => out_of_fuel
            | S fuel' => env_get_fuel fuel' p key
            end
        end
  end.

Definition env_get (e : loc) (key : string) : M (option TypedValue) :=
  let* n := gets (fun st => size (st_envs st)) in env_get_fuel n e key.

Definition env_remove (e : loc) (key : string) : M (option TypedValue) :=
  let* env := gets (env_at e) in
  let* local := map_remove (env_values env) key in
  match local with
  | Some v => ret (Some v)
  | None =>
      if negb (has_external env) then ret None
      else
        let* (handled, old) := exts_first (fun x => ext_remove_existing x key) (env_external env) in
        if handled : bool then ret old else ret None
  end.

(** [Env::new]. *)
Definition env_new (level : EnvLevel) (parent : option loc) : M loc :=
  let* values := alloc KMap [] in
  alloc_env (mkEnv level values parent []).

(** ** Collections on a variable path *)

Inductive PathCollection : Type :=
| PRoot (e : loc)
| PList (l : loc)
| PMap (l : loc)
| PSet (l : loc)
| PMultiMap (l : loc).

Definition path_list_index (key : string) : M Z :=
  match parse_usize key with
  | Some i => ret i
  | None => fail "Invalid list index"
  end.

Definition path_get (c : PathCollection) (key : string) : M (option TypedValue) :=
  match c with
  | PRoot e => env_get e key
  | PList l => let* i := path_list_index key in list_get l i
  | PMap l => map_get l key
  | PSet l => let* b := set_contains l key in ret (if b : bool then Some (VString key) else None)
  | PMultiMap l => let* s := mm_get_many l key in ret (option_map VSet s)
  end.

Definition path_insert_new (c : PathCollection) (key : string) (v : TypedValue) : M bool :=
  match c with
  | PRoot e => env_create e key v
  | PList l =>
      let* i := path_list_index key in
      let* n := list_len l in
      if n <? i then fail "List index out of bounds for create"
      else if i =? n then list_insert l i v ;; ret true
      else ret false
  | PMap l => map_insert_new l key v
  | PSet l =>
      match v with
      | VString s => set_insert l s
      | _ => fail "Expected a string value for Set collection"
      end
  | PMultiMap _ => fail "Cannot insert new value into MultiMap collection"
  end.

Definition path_insert (c : PathCollection) (key : string) (v : TypedValue)
  : M (option TypedValue) :=
  match c with
  | PRoot e => env_set e key v
  | PList l =>
      let* i := path_list_index key in
      let* n := list_len l in
      if i <? n then list_set l i v
      else if i =? n then list_insert l i v ;; ret None
      else fail "List index out of bounds for set"
  | PMap l => map_insert l key v
  | PSet l =>
      match v with
      | VString s =>
          let* b := set_insert l s in ret (if b : bool then None else Some (VString s))
      | _ => fail "Expected a string value for Set collection"
      end
  | PMultiMap l =>
      match v with
      | VString s =>
          let* b := mm_insert l key s in ret (if b : bool then None else Some (VString s))
      | _ => fail "Expected a Set value for MultiMap collection"
      end
  end.

Definition path_remove (c : PathCollection) (key : string) : M (option TypedValue) :=
  match c with
  | PRoot e => env_remove e key
  | PList l => let* i := path_list_index key in list_remove l i
  | PMap l => map_remove l key
  | PSet l =>
      let* b := set_contains l key in
      if b : bool then set_remove l key ;; ret (Some (VString key)) else ret None
  | PMultiMap l => let* s := mm_remove_all l key in ret (option_map VSet s)
  end.

(** ** Variable paths *)

Definition root_char_ok (a : Ascii.ascii) : bool :=
  negb (existsb (Ascii.eqb a)
          [char_dot; char_lbracket; char_rbracket; char_backslash; char_lparen; char_rparen])
  && negb (is_whitespace a).

Definition is_simple_root_key (key : string) : bool :=
  match key with
  | EmptyString => false
  | _ => string_forallb root_char_ok key
  end.

(** [s] without its first and last character, when it is [(...)]. *)
Definition strip_parens (s : string) : option string :=
  match s with
  | String a s' =>
      if Ascii.eqb a char_lparen && (2 <=? String.length s)%nat
         && match String.get (String.length s - 1) s with
            | Some b => Ascii.eqb b char_rparen
            | None => false
            end
      then Some (String.substring 0 (String.length s - 2) s')
      else None
  | EmptyString => None
  end.

Definition normalize_path_part (part : string) : string :=
  let part := trim part in
  match strip_parens part with
  | Some inner => trim inner
  | None => part
  end.

(** Quoted content up to the closing quote: the content and what follows. *)
Fixpoint quoted_content (quote : Ascii.ascii) (s : string) (escaped : bool)
  : option (string * string) :=
  match s with
  | EmptyString => None
  | String a s' =>
      if escaped then option_map (fun '(c, r) => (String a c, r)) (quoted_content quote s' false)
      else if Ascii.eqb a char_backslash then quoted_content quote s' true
      else if Ascii.eqb a quote then Some (EmptyString, s')
      else option_map (fun '(c, r) => (String a c, r)) (quoted_content quote s' false)
  end.

(** Content up to the bracket that closes [depth] open ones. *)
Fixpoint bracket_content (s : string) (depth : nat) : option (string * string) :=
  match s with
  | EmptyString => None
  | String a s' =>
      if Ascii.eqb a char_lbracket then
        option_map (fun '(c, r) => (String a c, r)) (bracket_content s' (S depth))
      else if Ascii.eqb a char_rbracket then
        match depth with
        | S (S d) => option_map (fun '(c, r) => (String a c, r)) (bracket_content s' (S d))
        | _ => Some (EmptyString, s')
        end
      else option_map (fun '(c, r) => (String a c, r)) (bracket_content s' depth)
  end.

(** [parse_bracket_part]: [s] is the text after the opening bracket; returns
    the part and the text after the closing one. *)
Definition parse_bracket_part (s : string) : option (string * string) :=
  match trim_start s with
  | EmptyString => None
  | String a s' =>
      if Ascii.eqb a char_dquote || Ascii.eqb a char_squote then
        match quoted_content a s' false with
        | None => None
        | Some (content, rest) =>
            match trim_start rest with
            | String b rest' =>
                if Ascii.eqb b char_rbracket then Some (content, rest') else None
            | EmptyString => None
            end
        end
      else option_map (fun '(c, r) => (trim c, r)) (bracket_content (trim_start s) 1)
  end.

Definition push_part (parts : list string) (current : string) : list string :=
  match current with
  | EmptyString => parts
  | _ => parts ++ [normalize_path_part current]
  end.

(** The loop of [parse_var]; each turn consumes at least one character. *)
Fixpoint parse_var_loop (fuel : nat) (s : string) (current : string) (parts : list string)
  : list string :=
  let finish :=
    match current, parts with
    | EmptyString, _ :: _ => parts
    | _, _ => parts ++ [normalize_path_part current]
    end in
  match fuel, s with
  | O, _ | _, EmptyString => finish
  | S fuel', String a s' =>
      if Ascii.eqb a char_backslash then
        match s' with
        | String b s'' => parse_var_loop fuel' s'' (string_snoc current b) parts
        | EmptyString => parse_var_loop fuel' s' (string_snoc current char_backslash) parts
        end
      else if Ascii.eqb a char_dot then
        parse_var_loop fuel' s' EmptyString (push_part parts current)
      else if Ascii.eqb a char_lbracket then
        let parts := push_part parts current in
        match parse_bracket_part s' with
        | Some (part, rest) =>
            parse_var_loop fuel' rest EmptyString (parts ++ [normalize_path_part part])
        | None => parse_var_loop fuel' s' (String a EmptyString) parts
        end
      else parse_var_loop fuel' s' (string_snoc current a) parts
  end.

Definition parse_var (key : string) : list string :=
  parse_var_loop (S (String.length key)) key EmptyString [].

(** ** The environment manager of a context *)

Record EnvManager : Type := mkEnvManager {
  em_global : loc;
  em_chain : loc;
  em_block : loc;
  em_tracker : loc;
  em_policy : ExecutionPolicy
}.

(** [EnvManager::new] followed by [set_policy], as [fork_block] and
    [fork_chain] call it. *)
Definition em_new (global chain : loc) (policy : ExecutionPolicy) : M EnvManager :=
  let* block := env_new EvBlock (Some chain) in
  let* tracker := alloc_tracker in
  ret (mkEnvManager global chain block tracker policy).

Definition get_env (em : EnvManager) (level : EnvLevel) : loc :=
  match level with
  | EvGlobal => em_global em
  | EvChain => em_chain em
  | EvBlock => em_block em
  end.

(** The root of a key: the key itself when it is simple. *)
Definition root_of (key : string) : string :=
  if is_simple_root_key key then key else default EmptyString (head (parse_var key)).

Definition var_level_entry_for_root (em : EnvManager) (key : string) : M (option EnvLevel) :=
  gets (fun st => tracker_at (em_tracker em) st !! key).

Definition get_var_level_for_root (em : EnvManager) (key : string) : M EnvLevel :=
  let* e := var_level_entry_for_root em key in ret (default EnvLevel_default e).

Definition get_var_level (em : EnvManager) (key : string) : M EnvLevel :=
  get_var_level_for_root em (root_of key).

Definition var_level_entry (em : EnvManager) (key : string) : M (option EnvLevel) :=
  var_level_entry_for_root em (root_of key).

Definition update_tracker (em : EnvManager) (f : gmap string EnvLevel -> gmap string EnvLevel)
  : M unit :=
  modify (fun st =>
    set_trackers (<[em_tracker em := f (tracker_at (em_tracker em) st)]> (st_trackers st)) st).

Definition restore_var_level_entry (em : EnvManager) (key : string) (level : option EnvLevel)
  : M unit :=
  update_tracker em (fun t =>
    match level with
    | Some level => <[root_of key := level]> t
    | None => delete (root_of key) t
    end).

Definition change_var_level_for_root (em : EnvManager) (key : string) (level : option EnvLevel)
  : M unit :=
  let level := default EnvLevel_default level in
  update_tracker em (fun t =>
    match t !! key with
    | Some cur => if decide (cur = level) then t else <[key := level]> t
    | None => if decide (level = EnvLevel_default) then t else <[key := level]> t
    end).

Definition change_var_level (em : EnvManager) (key : string) (level : option EnvLevel) : M unit :=
  change_var_level_for_root em (root_of key) level.

Definition should_change_var_level_for_root (em : EnvManager) (key : string) (level : EnvLevel)
  : M bool :=
  let* e := var_level_entry_for_root em key in
  ret (match e with
       | Some cur => bool_decide (cur <> level)
       | None => bool_decide (level <> EnvLevel_default)
       end).

Definition resolve_level (em : EnvManager) (key : string) (level : option EnvLevel) : M EnvLevel :=
  match level with
  | Some l => ret l
  | None => get_var_level_for_root em key
  end.

(** The tail shared by the setters: track the level the variable now has. *)
Definition track_level (em : EnvManager) (root : string) (level : EnvLevel) : M unit :=
  let* b := should_change_var_level_for_root em root level in
  if b : bool then change_var_level_for_root em root (Some level) else ret tt.

(** The loop of [get_parent_collection_by_path] over the parts before the
    last one. *)
Fixpoint parent_loop (c : PathCollection) (parts : list string) : M (option PathCollection) :=
  match parts with
  | [] => ret (Some c)
  | part :: rest =>
      let* v := path_get c part in
      match v with
      | None => ret None
      | Some (VMap l) => parent_loop (PMap l) rest
      | Some (VList l) => parent_loop (PList l) rest
      | Some (VMultiMap l) =>
          match rest with
          | [] => ret (Some (PMultiMap l))
          | _ => fail "Expected a map"
          end
      | Some (VSet l) =>
          match rest with
          | [] => ret (Some (PSet l))
          | _ => fail "Expected a map"
          end
      | Some _ => fail "Expected a map"
      end
  end.

Definition get_parent_collection_by_path (em : EnvManager) (key_list : list string)
    (level : EnvLevel) : M (option PathCollection) :=
  parent_loop (PRoot (get_env em level)) (removelast key_list).

Definition last_part (key_list : list string) : string := default EmptyString (last key_list).

Definition create_inner (em : EnvManager) (level : EnvLevel) (key_list : list string)
    (v : TypedValue) : M bool :=
  let* c := get_parent_collection_by_path em key_list level in
  match c with
  | None => fail "Parent collection not found"
  | Some c => path_insert_new c (last_part key_list) v
  end.

Definition em_create (em : EnvManager) (key : string) (v : TypedValue) (level : EnvLevel)
  : M bool :=
  if is_simple_root_key key then
    let* r := env_create (get_env em level) key v in
    (if r : bool then track_level em key level else ret tt) ;;
    ret r
  else
    let key_list := parse_var key in
    let* r := create_inner em level key_list v in
    (if r : bool then track_level em (root_of key) level else ret tt) ;;
    ret r.

Definition set_simple_root_at_level (em : EnvManager) (key : string) (v : TypedValue)
    (level : EnvLevel) : M (option TypedValue) :=
  let* r := env_set (get_env em level) key v in
  track_level em key level ;;
  ret r.

Definition set_simple_root_at_explicit_level (em : EnvManager) (key : string) (v : TypedValue)
    (level : EnvLevel) : M (option TypedValue) :=
  let* r := env_set (get_env em level) key v in
  change_var_level_for_root em key (Some level) ;;
  ret r.

Definition set_inner (em : EnvManager) (level : EnvLevel) (key_list : list string)
    (v : TypedValue) : M (option TypedValue) :=
  let* c := get_parent_collection_by_path em key_list level in
  match c with
  | None => fail "Parent collection not found"
  | Some c => path_insert c (last_part key_list) v
  end.

Definition em_set (em : EnvManager) (key : string) (v : TypedValue) (level : option EnvLevel)
  : M (option TypedValue) :=
  let* level := resolve_level em (root_of key) level in
  if is_simple_root_key key then set_simple_root_at_level em key v level
  else
    let* r := set_inner em level (parse_var key) v in
    track_level em (root_of key) level ;;
    ret r.

Definition get_inner (em : EnvManager) (level : EnvLevel) (key_list : list string)
  : M (option TypedValue) :=
  let* c := get_parent_collection_by_path em key_list level in
  match c with
  | None => ret None
  | Some c => path_get c (last_part key_list)
  end.

Definition em_get (em : EnvManager) (key : string) (level : option EnvLevel)
  : M (option TypedValue) :=
  let* level := resolve_level em (root_of key) level in
  if is_simple_root_key key then env_get (get_env em level) key
  else get_inner em level (parse_var key).

Definition remove_inner (em : EnvManager) (level : EnvLevel) (key_list : list string)
  : M (option TypedValue) :=
  let* c := get_parent_collection_by_path em key_list level in
  match c with
  | None => fail "Parent collection not found"
  | Some c => path_remove c (last_part key_list)
  end.

Definition em_remove (em : EnvManager) (key : string) (level : option EnvLevel)
  : M (option TypedValue) :=
  let* level := resolve_level em (root_of key) level in
  if is_simple_root_key key then env_remove (get_env em level) key
  else remove_inner em level (parse_var key).

(** [create_collection]. *)
Inductive CollectionType : Type := CtList | CtSet | CtMap | CtMultiMap.

Definition alloc_collection (t : CollectionType) : M TypedValue :=
  match t with
  | CtList => let* l := alloc KList [] in ret (VList l)
  | CtSet => let* l := alloc KSet [] in ret (VSet l)
  | CtMap => let* l := alloc KMap [] in ret (VMap l)
  | CtMultiMap => let* l := alloc KMultiMap [] in ret (VMultiMap l)
  end.

Definition create_collection (em : EnvManager) (key : string) (t : CollectionType)
    (level : EnvLevel) : M (option TypedValue) :=
  let* v := alloc_collection t in
  let* b := em_create em key v level in
  ret (if b : bool then Some v else None).

(** ** Block-variable snapshots of [block/exec.rs] *)

Record VarSnapshot : Type := mkVarSnapshot {
  snap_name : string;
  snap_value : option TypedValue;
  snap_level : option EnvLevel
}.

Definition snapshot_block_var (em : EnvManager) (name : string) : M VarSnapshot :=
  let* b := env_contains (em_block em) name in
  let* v := (if b : bool then em_get em name (Some EvBlock) else ret None) in
  let* level := var_level_entry em name in
  ret (mkVarSnapshot name v level).

Definition restore_block_var (em : EnvManager) (s : VarSnapshot) : M unit :=
  match snap_value s with
  | Some v => em_set em (snap_name s) v (Some EvBlock) ;; ret tt
  | None => em_remove em (snap_name s) (Some EvBlock) ;; ret tt
  end ;;
  restore_var_level_entry em (snap_name s) (snap_level s).

Definition restore_block_vars (em : EnvManager) (ss : list VarSnapshot) : M unit :=
  forM_ (restore_block_var em) ss.
