(* ===== verification/VarPath.v ===== *)
(** * Variable expressions

    Models the variable part of [CommandArgEvaluator] in [block/linker.rs]:
    the parser of variable paths ([a.b], [a\[k\]], [a?.b], dynamic segments),
    the coalescing operator, and their evaluation in a context.

    Scanning by byte index is scanning of the remaining text here, so a
    function that returns an index in the code returns the text before and
    after it.  The parser of command arguments ([BlockParser::parse_arg]),
    which defaults of the coalescing operator go through, is the interface
    [ArgParser]. *)

From S2P Require Import Prelude Values Syntax State Collections Env.

(** ** Data *)

Inductive VarPathSegment : Type :=
| SegStatic (s : string)
| SegDynamic (expr : string).

Record VarPathAccessSegment : Type := mkAccess {
  segment : VarPathSegment;
  optional : bool
}.

Inductive VarEvalResult : Type :=
| EvValue (v : TypedValue)
| EvMissing (key : string) (explicit : bool).

(** [BlockParser::parse_arg]: the rest of the text and the argument.  An
    argument that starts with a dollar or a quote is never a collection
    literal, and the name of a variable in it is shorter than the text. *)
Class ArgParser : Type := {
  parse_arg : string -> option (string * CommandArg);
  parse_arg_default_ok : forall s rest arg,
    parse_arg s = Some (rest, arg) ->
    match s with
    | String a _ =>
        Ascii.eqb a char_dollar || Ascii.eqb a char_dquote || Ascii.eqb a char_squote = true ->
        match arg with
        | Var v => (String.length v < String.length s)%nat
        | ListLiteral _ | MapLiteral _ => False
        | _ => True
        end
    | EmptyString => True
    end
}.

(** ** Scanning *)

(** The text after [c], when it starts with [c]. *)
Definition after_char (c : Ascii.ascii) (s : string) : option string :=
  match s with
  | String a s' => if Ascii.eqb a c then Some s' else None
  | EmptyString => None
  end.

(** Text up to the bracket that closes [depth] open ones, outside quotes. *)
Fixpoint match_bracket (s : string) (depth : nat) (quote : option Ascii.ascii) (escaped : bool)
  : option (string * string) :=
  match s with
  | EmptyString => None
  | String a s' =>
      let keep := option_map (fun '(c, r) => (String a c, r)) in
      match quote with
      | Some q =>
          if escaped then keep (match_bracket s' depth quote false)
          else if Ascii.eqb a char_backslash then keep (match_bracket s' depth quote true)
          else if Ascii.eqb a q then keep (match_bracket s' depth None false)
          else keep (match_bracket s' depth quote false)
      | None =>
          if Ascii.eqb a char_dquote || Ascii.eqb a char_squote then
            keep (match_bracket s' depth (Some a) false)
          else if Ascii.eqb a char_lbracket then keep (match_bracket s' (S depth) None false)
          else if Ascii.eqb a char_rbracket then
            match depth with
            | S (S d) => keep (match_bracket s' (S d) None false)
            | _ => Some (EmptyString, s')
            end
          else keep (match_bracket s' depth None false)
      end
  end.

Fixpoint escape_path_segment (s : string) : string :=
  match s with
  | EmptyString => EmptyString
  | String a s' =>
      if Ascii.eqb a char_backslash then
        String char_backslash (String char_backslash (escape_path_segment s'))
      else if Ascii.eqb a char_dot then
        String char_backslash (String char_dot (escape_path_segment s'))
      else String a (escape_path_segment s')
  end.

Definition normalize_segment_list (segments : list string) : string :=
  String.concat "." (map escape_path_segment segments).

Definition string_last (s : string) : option Ascii.ascii :=
  String.get (String.length s - 1) s.

(** The text without its last character. *)
Definition string_butlast (s : string) : string :=
  String.substring 0 (String.length s - 1) s.

Definition parse_dynamic_segment (inner : string) : Result VarPathSegment :=
  let inner := trim inner in
  match after_char char_dollar inner with
  | Some rest =>
        match after_char "{" rest with
        | Some inner_var =>
            if match string_last inner with
               | Some b => Ascii.eqb b "}"%char
               | None => false
               end
            then
              let inner_var := trim (string_butlast inner_var) in
              if String.eqb inner_var "" then Err "Dynamic segment cannot be empty"
              else Ok (SegDynamic inner_var)
            else Err "Invalid braced dynamic segment"
        | None =>
            let inner_var := trim rest in
            if String.eqb inner_var "" then Err "Dynamic segment cannot be empty after '$'"
            else Ok (SegDynamic inner_var)
        end
  | None => Ok (SegStatic inner)
  end.

(** The content of a quoted bracket segment. *)
Fixpoint unescape (s : string) (escaped : bool) : string :=
  match s with
  | EmptyString => if escaped then String char_backslash EmptyString else EmptyString
  | String a s' =>
      if escaped then String a (unescape s' false)
      else if Ascii.eqb a char_backslash then unescape s' true
      else String a (unescape s' false)
  end.

(** [parse_bracket_segment]: [s] is the text after the opening bracket. *)
Definition parse_bracket_segment (s : string) : Result (VarPathSegment * string) :=
  match match_bracket s 1 None false with
  | None => Err "Unclosed bracket segment in variable"
  | Some (inner, rest) =>
      let inner := trim inner in
      match inner with
      | EmptyString => Ok (SegStatic EmptyString, rest)
      | String first inner' =>
          let quoted :=
            match string_last inner with
            | Some last =>
                (Ascii.eqb first char_dquote && Ascii.eqb last char_dquote)
                || (Ascii.eqb first char_squote && Ascii.eqb last char_squote)
            | None => false
            end in
          if quoted then Ok (SegStatic (unescape (string_butlast inner') false), rest)
          else
            let? seg := parse_dynamic_segment inner in
            Ok (seg, rest)
      end
  end.

(** [push_static_segment]: the segments and the pending optional flag. *)
Definition push_static_segment (segments : list VarPathAccessSegment) (current : string)
    (pending : bool) : list VarPathAccessSegment * bool :=
  match current with
  | EmptyString => (segments, pending)
  | _ => (segments ++ [mkAccess (SegStatic current) pending], false)
  end.

(** The parenthesised dynamic segment at the start of [s], after its opening
    parenthesis: the segment and the rest. *)
Definition paren_segment (s : string) : Result (VarPathSegment * string) :=
  match match_paren s 1 with
  | None => Err "Unclosed dynamic segment in variable"
  | Some (inner, rest) => let? seg := parse_dynamic_segment inner in Ok (seg, rest)
  end.

Definition finish_path (current : string) (segments : list VarPathAccessSegment) (pending : bool)
  : Result (list VarPathAccessSegment) :=
  match current, pending with
  | EmptyString, true => Err "Invalid variable path ending with optional access"
  | _, _ =>
      let segments :=
        match current with
        | EmptyString => segments
        | _ => segments ++ [mkAccess (SegStatic current) pending]
        end in
      match segments with
      | [] => Err "Variable path is empty"
      | _ => Ok segments
      end
  end.

Definition at_start (current : string) (segments : list VarPathAccessSegment) : bool :=
  match current, segments with
  | EmptyString, [] => true
  | _, _ => false
  end.

(** The loop of [parse_var_path]; each turn consumes at least one character. *)
Fixpoint parse_path_loop (fuel : nat) (s current : string)
    (segments : list VarPathAccessSegment) (pending : bool)
  : Result (list VarPathAccessSegment) :=
  match fuel, s with
  | O, _ | _, EmptyString => finish_path current segments pending
  | S fuel', String a s' =>
      if Ascii.eqb a char_backslash then
        match s' with
        | String b s'' => parse_path_loop fuel' s'' (string_snoc current b) segments pending
        | EmptyString =>
            parse_path_loop fuel' s' (string_snoc current char_backslash) segments pending
        end
      else if Ascii.eqb a char_question && is_some (after_char char_dot s') then
        if at_start current segments then
          Err "Invalid optional access at beginning of variable path"
        else
          let s'' := default EmptyString (after_char char_dot s') in
          let segments := fst (push_static_segment segments current pending) in
          match after_char char_lparen s'' with
          | Some s3 =>
              let? (seg, rest) := paren_segment s3 in
              parse_path_loop fuel' rest EmptyString (segments ++ [mkAccess seg true]) false
          | None => parse_path_loop fuel' s'' EmptyString segments true
          end
      else if Ascii.eqb a char_question && is_some (after_char char_lbracket s') then
        if at_start current segments then
          Err "Invalid optional bracket access at beginning of variable path"
        else
          let s'' := default EmptyString (after_char char_lbracket s') in
          let segments := fst (push_static_segment segments current pending) in
          let? (seg, rest) := parse_bracket_segment s'' in
          parse_path_loop fuel' rest EmptyString (segments ++ [mkAccess seg true]) false
      else if Ascii.eqb a char_dot then
        let '(segments, pending) := push_static_segment segments current pending in
        match after_char char_lparen s' with
        | Some s'' =>
            let? (seg, rest) := paren_segment s'' in
            parse_path_loop fuel' rest EmptyString (segments ++ [mkAccess seg pending]) false
        | None => parse_path_loop fuel' s' EmptyString segments pending
        end
      else if Ascii.eqb a char_lbracket then
        let '(segments, pending) := push_static_segment segments current pending in
        let? (seg, rest) := parse_bracket_segment s' in
        parse_path_loop fuel' rest EmptyString (segments ++ [mkAccess seg pending]) false
      else parse_path_loop fuel' s' (string_snoc current a) segments pending
  end.

Definition parse_var_path (var : string) : Result (list VarPathAccessSegment) :=
  parse_path_loop (S (String.length var)) var EmptyString [] false.

(** [find_top_level_coalesce]: the text before and after the operator. *)
Fixpoint split_coalesce (s : string) (paren bracket : nat) (quote : option Ascii.ascii)
    (escaped : bool) : option (string * string) :=
  match s with
  | EmptyString => None
  | String a s' =>
      let keep := option_map (fun '(c, r) => (String a c, r)) in
      match quote with
      | Some q =>
          if escaped then keep (split_coalesce s' paren bracket quote false)
          else if Ascii.eqb a char_backslash then keep (split_coalesce s' paren bracket quote true)
          else if Ascii.eqb a q then keep (split_coalesce s' paren bracket None false)
          else keep (split_coalesce s' paren bracket quote false)
      | None =>
          if Ascii.eqb a char_dquote || Ascii.eqb a char_squote then
            keep (split_coalesce s' paren bracket (Some a) false)
          else if Ascii.eqb a char_lbracket then keep (split_coalesce s' paren (S bracket) None false)
          else if Ascii.eqb a char_rbracket then
            keep (split_coalesce s' paren (bracket - 1) None false)
          else if Ascii.eqb a char_lparen then keep (split_coalesce s' (S paren) bracket None false)
          else if Ascii.eqb a char_rparen then
            keep (split_coalesce s' (paren - 1) bracket None false)
          else
            match Ascii.eqb a char_question && (bracket =? 0)%nat && (paren =? 0)%nat,
                  after_char char_question s' with
            | true, Some s'' => Some (EmptyString, s'')
            | _, _ => keep (split_coalesce s' paren bracket None false)
            end
      end
  end.

Definition should_parse_default_as_arg (expr : string) : bool :=
  match trim_start expr with
  | String a _ =>
      Ascii.eqb a char_dollar || Ascii.eqb a char_dquote || Ascii.eqb a char_squote
  | EmptyString => false
  end.

(** ** Evaluation *)

Section eval.
Context `{ArgParser} (em : EnvManager).

(** What [evaluate] makes of the result of a variable. *)
Definition var_value (r : VarEvalResult) : M TypedValue :=
  match r with
  | EvValue v => ret v
  | EvMissing _ explicit =>
      if explicit then ret (VString "")
      else
        match missing_var (em_policy em) with
        | MvLenient => ret (VString "")
        | MvStrict => fail "Variable not found in context"
        end
  end.

(** The functions below take the evaluation of nested expressions as [ev]. *)
Section nested.
Context (ev : string -> M VarEvalResult).

Definition resolve_segment_key (seg : VarPathSegment) : M string :=
  match seg with
  | SegStatic s => ret s
  | SegDynamic expr =>
      let* r := ev expr in
      match r with
      | EvValue (VString s) => ret s
      | EvValue _ => fail "Expected TypedValue::String"
      | EvMissing _ explicit =>
          match explicit, missing_var (em_policy em) with
          | true, _ | _, MvLenient => ret ""
          | false, MvStrict => fail "Dynamic segment variable not found"
          end
      end
  end.

(** One access step: the next value, or a result that ends the path. *)
Definition access_step (current : option TypedValue) (key : string) (opt is_last : bool)
    (resolved : list string) : M (sum (option TypedValue) VarEvalResult) :=
  let missing := ret (inr (EvMissing (normalize_segment_list resolved) true)) in
  match current with
  | Some (VList l) =>
      match parse_usize key with
      | Some i => let* v := list_get l i in ret (inl v)
      | None => if opt then missing else fail "Invalid list index"
      end
  | Some (VMap l) => let* v := map_get l key in ret (inl v)
  | Some (VSet l) =>
      if is_last then
        let* b := set_contains l key in
        ret (inl (if b : bool then Some (VString key) else None))
      else if opt then missing
      else fail "Expected a map"
  | Some (VMultiMap l) =>
      if is_last then
        let* s := mm_get_many l key in ret (inl (option_map VSet s))
      else if opt then missing
      else fail "Expected a map"
  | Some _ => if opt then missing else fail "Expected a map"
  | None => ret (inr (EvMissing (normalize_segment_list resolved) opt))
  end.

(** The loop over the segments after the root; [last_opt] is the optional flag
    of the last segment taken. *)
Fixpoint access_loop (current : option TypedValue) (segs : list VarPathAccessSegment)
    (resolved : list string) (last_opt : bool) : M VarEvalResult :=
  match segs with
  | [] =>
      ret (match current with
           | Some v => EvValue v
           | None => EvMissing (normalize_segment_list resolved) last_opt
           end)
  | access :: rest =>
      let* key := resolve_segment_key (segment access) in
      let resolved := resolved ++ [key] in
      let is_last := match rest with [] => true | _ => false end in
      let* next := access_step current key (optional access) is_last resolved in
      match next with
      | inl v => access_loop v rest resolved (optional access)
      | inr r => ret r
      end
  end.

Definition evaluate_var_path (var : string) : M VarEvalResult :=
  let* parsed := of_result (parse_var_path var) in
  match parsed with
  | [] => fail "Variable path is empty"
  | first :: rest =>
      if optional first then fail "Invalid optional access for root segment"
      else
        let* root_key := resolve_segment_key (segment first) in
        let* current := em_get em root_key None in
        access_loop current rest [root_key] false
  end.

(** [evaluate] of an argument that is not a collection literal or a command
    substitution. *)
Definition evaluate_default_arg (arg : CommandArg) : M VarEvalResult :=
  match arg with
  | Literal s | StringLiteral s => ret (EvValue (VString s))
  | TypedLiteral _ v => ret (EvValue v)
  | Var v =>
      let* r := ev v in
      let* value := var_value r in
      ret (EvValue value)
  | CommandSubstitution _ =>
      fail "Command substitution is not supported in default expression yet"
  | ListLiteral _ | MapLiteral _ => panic "unreachable: collection literal"
  end.

Definition evaluate_default_expression (expr : string) : M VarEvalResult :=
  let expr := trim expr in
  if String.eqb expr "" then fail "Default expression is empty"
  else if should_parse_default_as_arg expr then
    match parse_arg expr with
    | None => fail "Invalid default expression"
    | Some (rest, arg) =>
        if String.eqb (trim rest) "" then evaluate_default_arg arg
        else fail "Invalid trailing content in default expression"
    end
  else ev expr.

Definition evaluate_coalesce (lhs rhs : string) : M VarEvalResult :=
  let lhs := trim lhs in
  let rhs := trim rhs in
  if String.eqb lhs "" || String.eqb rhs "" then fail "Invalid coalesce expression"
  else
    let* l := ev lhs in
    match l with
    | EvValue v => ret (EvValue v)
    | EvMissing _ _ => evaluate_default_expression rhs
    end.
End nested.

(** Nested expressions are shorter than the one they occur in, so the length
    of the text bounds the recursion. *)
Fixpoint evaluate_var_fuel (fuel : nat) (var : string) : M VarEvalResult :=
  match fuel with
  | O => out_of_fuel
  | S fuel' =>
      let var := trim var in
      if String.eqb var "" then fail "Variable expression is empty"
      else
        match split_coalesce var 0 0 None false with
        | Some (lhs, rhs) => evaluate_coalesce (evaluate_var_fuel fuel') lhs rhs
        | None => evaluate_var_path (evaluate_var_fuel fuel') var
        end
  end.

Definition evaluate_var_expression (var : string) : M VarEvalResult :=
  evaluate_var_fuel (S (String.length var)) var.

(** The [CommandArg::Var] case of [evaluate]. *)
Definition evaluate_var (var : string) : M TypedValue :=
  let* r := evaluate_var_expression var in var_value r.
End eval.
