(* ===== verification/Nom.v ===== *)
(** * Parser combinators

    The block parser is written with the [nom] crate.  The crate is an
    interface here: [Nom] has the combinators the parser calls, and [NomLaws]
    what their documentation says of them.  [nom_model] is one implementation,
    used to run the parser on concrete text.

    A parser answers with the rest of the text and a value, or with one of the
    three errors of the crate: [NError] lets an alternative try, [NFailure] and
    [NIncomplete] do not.  A panic of the code and the end of the fuel are
    outcomes of the model; like a failure, they are passed on. *)

From S2P Require Import Prelude.

Inductive NomErr : Type := NError | NFailure | NIncomplete.

Inductive IResult (A : Type) : Type :=
| IOk (rest : string) (a : A)
| IErr (e : NomErr)
| IPanic
| IFuel.
Arguments IOk {A} rest a.
Arguments IErr {A} e.
Arguments IPanic {A}.
Arguments IFuel {A}.

Definition parser (A : Type) : Type := string -> IResult A.

(** The [?] operator on an [IResult]. *)
Definition pbind {A B} (r : IResult A) (k : string -> A -> IResult B) : IResult B :=
  match r with
  | IOk rest a => k rest a
  | IErr e => IErr e
  | IPanic => IPanic
  | IFuel => IFuel
  end.

Notation "'let!' ( i , x ) ':=' m 'in' k" := (pbind m (fun i x => k))
  (at level 10, i name, x pattern, m at level 100, k at level 200) : gw_scope.

(** An outcome that neither stands for a value nor lets an alternative try. *)
Definition fatal {A} (r : IResult A) : bool :=
  match r with IOk _ _ | IErr NError => false | _ => true end.

(** The same outcome, of a parser of another type. *)
Definition recast {A B} (r : IResult A) : IResult B :=
  match r with
  | IOk _ _ => IErr NError
  | IErr e => IErr e
  | IPanic => IPanic
  | IFuel => IFuel
  end.

(** ** Scanning *)

Fixpoint take_while (p : Ascii.ascii -> bool) (s : string) : string :=
  match s with
  | EmptyString => EmptyString
  | String a s' => if p a then String a (take_while p s') else EmptyString
  end.

Fixpoint drop_while (p : Ascii.ascii -> bool) (s : string) : string :=
  match s with
  | EmptyString => EmptyString
  | String a s' => if p a then drop_while p s' else s
  end.

Fixpoint string_drop (n : nat) (s : string) : string :=
  match n, s with
  | S n', String _ s' => string_drop n' s'
  | _, _ => s
  end.

Fixpoint string_take (n : nat) (s : string) : string :=
  match n, s with
  | S n', String a s' => String a (string_take n' s')
  | _, _ => EmptyString
  end.

Definition is_blank (a : Ascii.ascii) : bool :=
  (char_code a =? 32)%N || (char_code a =? 9)%N.

(** One or more characters of a class, not looking beyond the end. *)
Definition one_or_more (p : Ascii.ascii -> bool) : parser string := fun s =>
  match take_while p s with
  | EmptyString => IErr NError
  | t => IOk (drop_while p s) t
  end.

(** ** The interface *)

Class Nom : Type := {
  space0 : parser string;
  space1 : parser string;
  alpha1 : parser string;
  alphanumeric1 : parser string;
  tag : string -> parser string;
  char : Ascii.ascii -> parser Ascii.ascii;
  is_not : string -> parser string;
  take_while1 : (Ascii.ascii -> bool) -> parser string;
  map : forall A B : Type, parser A -> (A -> B) -> parser B;
  value : forall A B : Type, B -> parser A -> parser B;
  opt : forall A : Type, parser A -> parser (option A);
  complete : forall A : Type, parser A -> parser A;
  recognize : forall A : Type, parser A -> parser string;
  pair : forall A B : Type, parser A -> parser B -> parser (A * B);
  preceded : forall A B : Type, parser A -> parser B -> parser B;
  terminated : forall A B : Type, parser A -> parser B -> parser A;
  delimited : forall A B C : Type, parser A -> parser B -> parser C -> parser B;
  alt : forall A : Type, list (parser A) -> parser A;
  many0 : forall A : Type, parser A -> parser (list A);
  separated_list0 : forall A B : Type, parser A -> parser B -> parser (list B);
  escaped_transform : parser string -> Ascii.ascii -> parser string -> parser string
}.
Arguments map {_ A B}.
Arguments value {_ A B}.
Arguments opt {_ A}.
Arguments complete {_ A}.
Arguments recognize {_ A}.
Arguments pair {_ A B}.
Arguments preceded {_ A B}.
Arguments terminated {_ A B}.
Arguments delimited {_ A B C}.
Arguments alt {_ A}.
Arguments many0 {_ A}.
Arguments separated_list0 {_ A B}.

(** A parser that answers with a rest no longer than its text, and one that
    answers with a shorter rest. *)
Definition shrinks {A} (p : parser A) : Prop :=
  forall s r a, p s = IOk r a -> (String.length r <= String.length s)%nat.
Definition consumes {A} (p : parser A) : Prop :=
  forall s r a, p s = IOk r a -> (String.length r < String.length s)%nat.

(** A parser of strings that does not answer with more than it read. *)
Definition echoes (p : parser string) : Prop :=
  forall s r a, p s = IOk r a -> (String.length r + String.length a <= String.length s)%nat.

(** An outcome of the code that is not a panic. *)
Definition settled {A} (r : IResult A) : Prop :=
  match r with IOk _ _ | IErr _ => True | _ => False end.
Definition settles {A} (p : parser A) : Prop := forall s, settled (p s).

(** What the documentation of the crate says.  [many0] and [separated_list0]
    are described for parsers that do not lengthen their text, the only ones
    there are; of [escaped_transform] only that it ends, and does not write more
    than it reads, when its parts do. *)
Class NomLaws `{Nom} : Prop := {
  space0_law : forall s, space0 s = IOk (drop_while is_blank s) (take_while is_blank s);
  space1_law : forall s, space1 s = one_or_more is_blank s;
  alpha1_law : forall s, alpha1 s = one_or_more is_ascii_alphabetic s;
  alphanumeric1_law : forall s, alphanumeric1 s = one_or_more is_ascii_alphanumeric s;
  tag_law : forall t s,
    tag t s = match strip_prefix t s with Some r => IOk r t | None => IErr NError end;
  char_law : forall c s,
    char c s = match s with
               | String a r => if Ascii.eqb a c then IOk r c else IErr NError
               | EmptyString => IErr NError
               end;
  is_not_law : forall cs s,
    is_not cs s = one_or_more (fun a => negb (string_contains a cs)) s;
  take_while1_law : forall p s,
    take_while1 p s = match drop_while p s with
                      | EmptyString => IErr NIncomplete
                      | _ => one_or_more p s
                      end;
  map_law : forall A B (p : parser A) (f : A -> B) s,
    map p f s = let! (r, a) := p s in IOk r (f a);
  value_law : forall A B (b : B) (p : parser A) s,
    value b p s = let! (r, _) := p s in IOk r b;
  opt_law : forall A (p : parser A) s,
    opt p s = match p s with
              | IOk r a => IOk r (Some a)
              | IErr NError => IOk s None
              | e => recast e
              end;
  complete_law : forall A (p : parser A) s,
    complete p s = match p s with IErr NIncomplete => IErr NError | r => r end;
  recognize_law : forall A (p : parser A) s,
    recognize p s =
      let! (r, _) := p s in IOk r (string_take (String.length s - String.length r) s);
  pair_law : forall A B (p : parser A) (q : parser B) s,
    pair p q s = let! (r, a) := p s in let! (r', b) := q r in IOk r' (a, b);
  preceded_law : forall A B (p : parser A) (q : parser B) s,
    preceded p q s = let! (r, _) := p s in q r;
  terminated_law : forall A B (p : parser A) (q : parser B) s,
    terminated p q s = let! (r, a) := p s in let! (r', _) := q r in IOk r' a;
  delimited_law : forall A B C (p : parser A) (q : parser B) (t : parser C) s,
    delimited p q t s =
      let! (r, _) := p s in let! (r', b) := q r in let! (r'', _) := t r' in IOk r'' b;
  alt_nil_law : forall A s, alt ([] : list (parser A)) s = IErr NError;
  alt_cons_law : forall A (p : parser A) ps s,
    alt (p :: ps) s = match p s with IErr NError => alt ps s | r => r end;
  many0_law : forall A (p : parser A) s, shrinks p ->
    many0 p s =
      match p s with
      | IOk r a =>
          if (String.length r =? String.length s)%nat then IErr NError
          else let! (r', l) := many0 p r in IOk r' (a :: l)
      | IErr NError => IOk s []
      | e => recast e
      end;
  separated_list0_law : forall A B (sep : parser A) (p : parser B) s,
    consumes sep -> shrinks p ->
    separated_list0 sep p s =
      match p s with
      | IOk r b =>
          let! (r', l) := many0 (preceded sep p) r in IOk r' (b :: l)
      | IErr NError => IOk s []
      | e => recast e
      end;
  escaped_transform_law : forall normal c transform,
    echoes normal -> echoes transform -> echoes (escaped_transform normal c transform);
  escaped_settles_law : forall normal c transform,
    settles normal -> settles transform -> settles (escaped_transform normal c transform)
}.

(** ** An implementation *)

Fixpoint alt_loop {A} (ps : list (parser A)) (s : string) : IResult A :=
  match ps with
  | [] => IErr NError
  | p :: ps' => match p s with IErr NError => alt_loop ps' s | r => r end
  end.

Fixpoint many0_loop {A} (p : parser A) (fuel : nat) (s : string) : IResult (list A) :=
  match fuel with
  | O => IFuel
  | S f =>
      match p s with
      | IOk r a =>
          if (String.length r =? String.length s)%nat then IErr NError
          else let! (r', l) := many0_loop p f r in IOk r' (a :: l)
      | IErr NError => IOk s []
      | e => recast e
      end
  end.

Definition many0_model {A} (p : parser A) : parser (list A) := fun s =>
  many0_loop p (S (String.length s)) s.

Definition preceded_model {A B} (p : parser A) (q : parser B) : parser B := fun s =>
  let! (r, _) := p s in q r.

(** The text up to the first character that is neither normal nor escaped. *)
Fixpoint escaped_loop (normal : parser string) (c : Ascii.ascii) (transform : parser string)
    (fuel : nat) (s : string) (first : bool) : IResult string :=
  match fuel, s with
  | O, _ => IFuel
  | S _, EmptyString => IOk EmptyString EmptyString
  | S f, String a s' =>
      match normal s with
      | IOk r o =>
          if (String.length s <=? String.length r)%nat then IOk s EmptyString
          else let! (r', o') := escaped_loop normal c transform f r false in IOk r' (o +:+ o')
      | IErr NError =>
          if Ascii.eqb a c then
            match s' with
            | EmptyString => IErr NError
            | _ =>
                let! (r, o) := transform s' in
                if (String.length s <=? String.length r)%nat then IErr NError
                else let! (r', o') := escaped_loop normal c transform f r false in
                     IOk r' (o +:+ o')
            end
          else if first then IErr NError else IOk s EmptyString
      | e => e
      end
  end.

Definition nom_model : Nom := {|
  space0 := fun s => IOk (drop_while is_blank s) (take_while is_blank s);
  space1 := one_or_more is_blank;
  alpha1 := one_or_more is_ascii_alphabetic;
  alphanumeric1 := one_or_more is_ascii_alphanumeric;
  tag := fun t s => match strip_prefix t s with Some r => IOk r t | None => IErr NError end;
  char := fun c s =>
    match s with
    | String a r => if Ascii.eqb a c then IOk r c else IErr NError
    | EmptyString => IErr NError
    end;
  is_not := fun cs => one_or_more (fun a => negb (string_contains a cs));
  take_while1 := fun p s =>
    match drop_while p s with EmptyString => IErr NIncomplete | _ => one_or_more p s end;
  map := fun A B p f s => let! (r, a) := p s in IOk r (f a);
  value := fun A B b p s => let! (r, _) := p s in IOk r b;
  opt := fun A p s =>
    match p s with IOk r a => IOk r (Some a) | IErr NError => IOk s None | e => recast e end;
  complete := fun A p s => match p s with IErr NIncomplete => IErr NError | r => r end;
  recognize := fun A p s =>
    let! (r, _) := p s in IOk r (string_take (String.length s - String.length r) s);
  pair := fun A B p q s => let! (r, a) := p s in let! (r', b) := q r in IOk r' (a, b);
  preceded := @preceded_model;
  terminated := fun A B p q s => let! (r, a) := p s in let! (r', _) := q r in IOk r' a;
  delimited := fun A B C p q t s =>
    let! (r, _) := p s in let! (r', b) := q r in let! (r'', _) := t r' in IOk r'' b;
  alt := @alt_loop;
  many0 := @many0_model;
  separated_list0 := fun A B sep p s =>
    match p s with
    | IOk r b => let! (r', l) := many0_model (preceded_model sep p) r in IOk r' (b :: l)
    | IErr NError => IOk s []
    | e => recast e
    end;
  escaped_transform := fun normal c transform s =>
    escaped_loop normal c transform (S (String.length s)) s true
|}.

(** ** The implementation satisfies the laws *)

Lemma take_drop_while p s :
  (String.length (take_while p s) + String.length (drop_while p s) = String.length s)%nat.
Proof. induction s as [|a s IH]; [done|]. simpl. destruct (p a); simpl; lia. Qed.

Lemma drop_while_length p s : (String.length (drop_while p s) <= String.length s)%nat.
Proof. pose proof (take_drop_while p s). lia. Qed.

Lemma one_or_more_IOk p s r t :
  one_or_more p s = IOk r t -> r = drop_while p s /\ t = take_while p s /\ t <> EmptyString.
Proof. unfold one_or_more. intros E. destruct (take_while p s) eqn:?; by simplify_eq. Qed.

Lemma one_or_more_consumes p : consumes (one_or_more p).
Proof.
  intros s r t (-> & -> & Ht)%one_or_more_IOk. pose proof (take_drop_while p s).
  destruct (take_while p s); [done|]. simpl in *. lia.
Qed.

Lemma one_or_more_echoes p : echoes (one_or_more p).
Proof.
  intros s r t (-> & -> & Ht)%one_or_more_IOk. pose proof (take_drop_while p s). lia.
Qed.

Lemma pbind_IOk {A B} (m : IResult A) (k : string -> A -> IResult B) r b :
  pbind m k = IOk r b <-> exists r' a, m = IOk r' a /\ k r' a = IOk r b.
Proof. destruct m; simpl; naive_solver. Qed.

Lemma many0_loop_fuel {A} (p : parser A) n m s :
  shrinks p -> (String.length s < n)%nat -> (String.length s < m)%nat ->
  many0_loop p n s = many0_loop p m s.
Proof.
  intros Hp. revert m s. induction n as [|n IH]; intros [|m] s Hn Hm; try lia.
  simpl. destruct (p s) as [r a|[]| |] eqn:E; try done.
  case_match eqn:El; [done|]. apply Nat.eqb_neq in El. apply Hp in E.
  by rewrite (IH m r) by lia.
Qed.

Lemma escaped_loop_echoes normal c transform fuel first :
  echoes normal -> echoes transform ->
  echoes (fun s => escaped_loop normal c transform fuel s first).
Proof.
  intros Hn Ht. revert first. induction fuel as [|f IH]; intros first s r o; simpl; [done|].
  destruct s as [|a s']; [intros; simplify_eq; simpl; lia|].
  destruct (normal _) as [r1 o1|[]| |] eqn:E; try done.
  - case_match; [intros; simplify_eq; simpl; lia|].
    intros (r2 & o2 & E2 & [= <- <-])%pbind_IOk.
    apply Hn in E. apply (IH false) in E2. rewrite append_length. simpl in *. lia.
  - case_match; [|case_match; intros; simplify_eq; simpl; lia].
    destruct s'; [done|]. intros (r1 & o1 & E1 & E2)%pbind_IOk.
    case_match; [done|]. apply pbind_IOk in E2 as (r2 & o2 & E2 & [= <- <-]).
    apply Ht in E1. apply (IH false) in E2. rewrite append_length. simpl in *. lia.
Qed.

Lemma escaped_loop_settled normal c transform fuel s first :
  settles normal -> settles transform -> (String.length s < fuel)%nat ->
  settled (escaped_loop normal c transform fuel s first).
Proof.
  intros Hn Ht. revert s first. induction fuel as [|f IH]; intros s first Hs; [lia|].
  assert (Htail : forall r o, (String.length s <=? String.length r)%nat = false ->
    settled (let! (r', o') := escaped_loop normal c transform f r false in IOk r' (o +:+ o'))).
  { intros r o ?%Nat.leb_gt. pose proof (IH r false ltac:(lia)).
    by destruct (escaped_loop _ _ _ _ r false). }
  destruct s as [|a s']; [done|]. cbn -[Nat.leb].
  pose proof (Hn (String a s')). destruct (normal _) as [r1 o1|[]| |]; try done.
  - case_match eqn:E; [done|]. by apply Htail.
  - case_match; [|by case_match]. destruct s' as [|b s'']; [done|].
    pose proof (Ht (String b s'')). destruct (transform _) as [r1 o1| | |]; try done.
    cbn -[Nat.leb]. case_match eqn:E; [done|]. by apply Htail.
Qed.

Lemma nom_model_laws : @NomLaws nom_model.
Proof.
  split; try done.
  - intros A p s Hp. cbn -[Nat.eqb]. unfold many0_model. cbn -[Nat.eqb].
    destruct (p s) as [r a|[]| |] eqn:E; try done. case_match eqn:El; [done|].
    apply Nat.eqb_neq in El. apply Hp in E.
    by rewrite (many0_loop_fuel p (String.length s) (S (String.length r))) by (done || lia).
  - intros normal c transform Hn Ht s r o. by apply escaped_loop_echoes.
  - intros normal c transform Hn Ht s. apply escaped_loop_settled; [done..|lia].
Qed.
