(* ===== verification/Parser.v ===== *)
(** * The block parser

    Models [block/parser.rs]: the splitting of a block into logical lines, the
    statements that span several of them, and the expressions, commands and
    arguments of one line.  The parsers of a line are written with the
    combinators of [Nom]; letters and digits are the ASCII ones.

    The code recurses on parts of its text and on later lines.  Here the
    recursive parsers take fuel and the parts between them take the recursive
    parser as an argument; a text has fuel for its length and a block for its
    lines, which is enough ([ParserFacts]). *)

From S2P Require Import Prelude Values Syntax State Nom.

(** ** Logical lines *)

Record LogicalLineState : Type := mkLogicalLineState {
  paren_depth : nat;
  bracket_depth : nat;
  brace_depth : nat;
  ls_quote : option Ascii.ascii;
  escaped_in_quote : bool
}.

Definition LogicalLineState_default : LogicalLineState := mkLogicalLineState 0 0 0 None false.

(** One character of [LogicalLineState::consume]; [Nat.pred] does not go below
    zero, as the guards of the code. *)
Definition consume_char (st : LogicalLineState) (ch : Ascii.ascii) : LogicalLineState :=
  let 'mkLogicalLineState p b c q e := st in
  match q with
  | Some quote =>
      if e then mkLogicalLineState p b c q false
      else if Ascii.eqb ch char_backslash then mkLogicalLineState p b c q true
      else if Ascii.eqb ch quote then mkLogicalLineState p b c None e
      else st
  | None =>
      if Ascii.eqb ch char_dquote || Ascii.eqb ch char_squote
      then mkLogicalLineState p b c (Some ch) e
      else if Ascii.eqb ch char_lparen then mkLogicalLineState (S p) b c q e
      else if Ascii.eqb ch char_rparen then mkLogicalLineState (Nat.pred p) b c q e
      else if Ascii.eqb ch char_lbracket then mkLogicalLineState p (S b) c q e
      else if Ascii.eqb ch char_rbracket then mkLogicalLineState p (Nat.pred b) c q e
      else if Ascii.eqb ch char_lbrace then mkLogicalLineState p b (S c) q e
      else if Ascii.eqb ch char_rbrace then mkLogicalLineState p b (Nat.pred c) q e
      else st
  end.

Fixpoint consume (st : LogicalLineState) (input : string) : LogicalLineState :=
  match input with
  | EmptyString => st
  | String ch rest => consume (consume_char st ch) rest
  end.

Definition is_open (st : LogicalLineState) : bool :=
  is_some (ls_quote st) || (0 <? paren_depth st)%nat || (0 <? bracket_depth st)%nat
  || (0 <? brace_depth st)%nat.

Definition is_line_break (a : Ascii.ascii) : bool := Ascii.eqb a char_lf || Ascii.eqb a char_cr.

(** [str::trim_end_matches] of a carriage return. *)
Fixpoint trim_end_cr (s : string) : string :=
  match s with
  | EmptyString => EmptyString
  | String a s' =>
      match trim_end_cr s' with
      | EmptyString => if Ascii.eqb a char_cr then EmptyString else String a EmptyString
      | t => String a t
      end
  end.

Definition is_comment (line : string) : bool := starts_with "#" line || starts_with "//" line.

(** The loop of [split_lines]: the pieces of a logical line are joined by a
    space until nothing is open. *)
Fixpoint split_lines_loop (raw : list string) (current : string) (st : LogicalLineState)
  : list string :=
  match raw with
  | [] => if is_empty current then [] else [current]
  | raw_line :: raw' =>
      let line := trim (trim_end_cr raw_line) in
      if is_empty line then split_lines_loop raw' current st
      else if is_comment line then split_lines_loop raw' current st
      else
        let current :=
          (if is_empty current then EmptyString else current +:+ " ") +:+ line in
        let st := consume st line in
        if is_open st then split_lines_loop raw' current st
        else current :: split_lines_loop raw' EmptyString st
  end.

Definition split_lines (block : string) : list string :=
  split_lines_loop (split_by is_line_break block) EmptyString LogicalLineState_default.

(** ** Keywords and headers *)

Inductive LineControlKeyword : Type := KwElse | KwElif | KwWhen | KwEnd | KwOk | KwErr | KwControl.

Definition line_control_keyword (line : string) : option LineControlKeyword :=
  let line := trim line in
  if String.eqb line "else" then Some KwElse
  else if starts_with "when " line && ends_with " then" line then Some KwWhen
  else if String.eqb line "end" then Some KwEnd
  else if starts_with "elif " line && ends_with " then" line then Some KwElif
  else if starts_with "ok(" line && ends_with ")" line then Some KwOk
  else if starts_with "err(" line && ends_with ")" line then Some KwErr
  else if starts_with "control(" line && ends_with ")" line then Some KwControl
  else None.

Definition is_if_header (line : string) : bool :=
  let line := trim line in starts_with "if " line && ends_with " then" line.
Definition is_case_header (line : string) : bool :=
  let line := trim line in starts_with "case" line && ends_with "then" line.
Definition is_for_header (line : string) : bool :=
  let line := trim line in starts_with "for " line && ends_with " then" line.
Definition is_match_result_header (line : string) : bool :=
  let line := trim line in starts_with "match-result " line.

Definition is_valid_loop_var_name (name : string) : bool :=
  match name with
  | EmptyString => false
  | String first rest =>
      (is_ascii_alphabetic first || Ascii.eqb first "_")
      && string_forallb (fun c => is_ascii_alphanumeric c || Ascii.eqb c "_") rest
  end.

(** ** Typed literals *)

Definition parse_typed_number_literal `{F64Text} (input : string) : option TypedValue :=
  let rest := match strip_prefix "-" input with Some r => r | None => input end in
  if is_empty input then None
  else if is_empty rest then None
  else if negb (string_contains char_dot rest) then
    if string_forallb is_ascii_digit rest
    then option_map (fun v => VNumber (NInt v)) (parse_i64 input)
    else None
  else
    match split_on char_dot rest with
    | [int_part; frac_part] =>
        if is_empty int_part || is_empty frac_part then None
        else if negb (string_forallb is_ascii_digit int_part)
                || negb (string_forallb is_ascii_digit frac_part) then None
        else option_map (fun v => VNumber (NFloat v)) (f64_parse input)
    | _ => None
    end.

Definition parse_typed_literal `{F64Text} (input : string) : option TypedValue :=
  if String.eqb input "true" then Some (VBool true)
  else if String.eqb input "false" then Some (VBool false)
  else if String.eqb input "null" then Some VNull
  else parse_typed_number_literal input.

(** [CommandArg::as_literal_str]. *)
Definition as_literal_str (a : CommandArg) : option string :=
  match a with
  | Literal s | StringLiteral s | TypedLiteral s _ => Some s
  | _ => None
  end.

(** [AssignKind::as_str]. *)
Definition assign_kind_str (k : AssignKind) : string :=
  match k with AsChain => "chain" | AsBlock => "block" | AsGlobal => "global" end.

(** A command as the parser makes it, without an executor. *)
Definition command_item (name : string) (args : list CommandArg) : Expression :=
  ECommand name args None.

(** The command substitution that concatenates parts of one argument. *)
Definition append_parts (parts : list CommandArg) : CommandArg :=
  CommandSubstitution (command_item "append" (Literal "append" :: parts)).

(** ** Variables *)

(** Where the scan of a variable stands: open parentheses and brackets, and the
    quote it is inside of. *)
Record VarScan : Type := mkVarScan {
  vs_paren : nat;
  vs_bracket : nat;
  vs_quote : option Ascii.ascii;
  vs_escaped : bool
}.

Definition VarScan_start : VarScan := mkVarScan 0 0 None false.

Definition vs_closed (v : VarScan) : bool :=
  (vs_paren v =? 0)%nat && (vs_bracket v =? 0)%nat && negb (is_some (vs_quote v)).

(** A character inside a quote of a bracket segment. *)
Definition scan_quoted (v : VarScan) (quote ch : Ascii.ascii) : VarScan :=
  let 'mkVarScan p b q e := v in
  if e then mkVarScan p b q false
  else if Ascii.eqb ch char_backslash then mkVarScan p b q true
  else if Ascii.eqb ch quote then mkVarScan p b None e
  else v.

(** A character inside a bracket segment. *)
Definition scan_bracket (v : VarScan) (ch : Ascii.ascii) : VarScan :=
  let 'mkVarScan p b q e := v in
  if Ascii.eqb ch char_dquote || Ascii.eqb ch char_squote then mkVarScan p b (Some ch) e
  else if Ascii.eqb ch char_lbracket then mkVarScan p (S b) q e
  else if Ascii.eqb ch char_rbracket then mkVarScan p (Nat.pred b) q e
  else v.

(** The characters that end [$VAR] outside of its segments. *)
Definition ends_var_dollar (ch : Ascii.ascii) : bool :=
  is_whitespace ch || Ascii.eqb ch char_semicolon || Ascii.eqb ch char_rparen
  || Ascii.eqb ch char_comma || Ascii.eqb ch char_rbracket || Ascii.eqb ch char_rbrace.

(** The loop of [parse_var_dollar]: the characters of the variable, the rest
    and the state at its end. *)
Fixpoint scan_var_dollar (s : string) (v : VarScan) : string * string * VarScan :=
  match s with
  | EmptyString => (EmptyString, s, v)
  | String ch s' =>
      let push v' := let '(t, r, v'') := scan_var_dollar s' v' in (String ch t, r, v'') in
      match vs_quote v with
      | Some quote => push (scan_quoted v quote ch)
      | None =>
          if (vs_paren v =? 0)%nat && (vs_bracket v =? 0)%nat && ends_var_dollar ch
          then (EmptyString, s, v)
          else if (0 <? vs_bracket v)%nat then push (scan_bracket v ch)
          else
            let 'mkVarScan p b q e := v in
            if Ascii.eqb ch char_lbracket then push (mkVarScan p (S b) q e)
            else if Ascii.eqb ch char_lparen then push (mkVarScan (S p) b q e)
            else if Ascii.eqb ch char_rparen then
              match p with
              | O => (EmptyString, s, v)
              | S p' => push (mkVarScan p' b q e)
              end
            else push v
      end
  end.

Definition var_first_ok (c : Ascii.ascii) : bool := is_ascii_alphabetic c || Ascii.eqb c "_".
Definition var_char_ok (c : Ascii.ascii) : bool :=
  is_ascii_alphanumeric c || Ascii.eqb c "_" || Ascii.eqb c char_dot || Ascii.eqb c "-"
  || Ascii.eqb c char_question.

(** A variable with neither a dynamic nor a bracket segment is a plain name. *)
Definition plain_var_ok (parsed : string) : bool :=
  if is_some (split_once ".(" parsed) || string_contains char_lbracket parsed then true
  else match parsed with
       | EmptyString => false
       | String first rest => var_first_ok first && string_forallb var_char_ok rest
       end.

(** The loop of [parse_var_braced]; [None] for a parenthesis that was not open. *)
Fixpoint scan_var_braced (s : string) (v : VarScan) : option (string * string * VarScan) :=
  match s with
  | EmptyString => Some (EmptyString, s, v)
  | String ch s' =>
      let push v' := option_map (fun '(t, r, v'') => (String ch t, r, v'')) (scan_var_braced s' v') in
      match vs_quote v with
      | Some quote => push (scan_quoted v quote ch)
      | None =>
          if Ascii.eqb ch char_rbrace && (vs_paren v =? 0)%nat && (vs_bracket v =? 0)%nat
          then Some (EmptyString, s, v)
          else if (0 <? vs_bracket v)%nat then push (scan_bracket v ch)
          else
            let 'mkVarScan p b q e := v in
            if Ascii.eqb ch char_lbracket then push (mkVarScan p (S b) q e)
            else if Ascii.eqb ch char_lparen then push (mkVarScan (S p) b q e)
            else if Ascii.eqb ch char_rparen then
              match p with
              | O => None
              | S p' => push (mkVarScan p' b q e)
              end
            else push v
      end
  end.

Section nom.
Context `{Nom} `{F64Text}.

Definition parse_var_dollar : parser CommandArg := fun input =>
  let! (rest, _) := char char_dollar input in
  if is_empty rest then IErr NError
  else
    let '(parsed, remaining, v) := scan_var_dollar rest VarScan_start in
    if is_empty parsed then IErr NError
    else if negb (plain_var_ok parsed) then IErr NError
    else if negb (vs_closed v) then IErr NError
    else IOk remaining (Var parsed).

Definition parse_var_braced : parser CommandArg := fun input =>
  let! (rest, _) := tag "${" input in
  match scan_var_braced rest VarScan_start with
  | None => IErr NError
  | Some (parsed, remaining, v) =>
      match remaining with
      | String ch remaining' =>
          if is_empty parsed || negb (Ascii.eqb ch char_rbrace) || negb (vs_closed v)
          then IErr NError
          else IOk remaining' (Var parsed)
      | EmptyString => IErr NError
      end
  end.

(** ** Literals *)

(** The escapes of a double-quoted text that both kinds of it know. *)
Definition common_escapes : list (parser string) :=
  [ value "\" (tag "\");
    value (String char_dquote EmptyString) (tag (String char_dquote EmptyString));
    value (String char_lf EmptyString) (tag "n");
    value (String char_tab EmptyString) (tag "t");
    value (String char_cr EmptyString) (tag "r");
    value " " (tag " ") ].

Definition or_empty (o : option string) : string := default EmptyString o.

Definition parse_map_literal_key : parser string :=
  let double_quoted :=
    delimited (char char_dquote)
      (map (opt (escaped_transform (is_not (String char_backslash (String char_dquote EmptyString)))
                   char_backslash (alt common_escapes)))
         or_empty)
      (char char_dquote) in
  let single_quoted :=
    delimited (char char_squote) (map (opt (is_not "'")) or_empty) (char char_squote) in
  let bare_key :=
    recognize (pair (alt [alpha1; tag "_"])
                 (many0 (alt [alphanumeric1; tag "_"; tag "-"; tag "."]))) in
  preceded space0 (alt [double_quoted; single_quoted; bare_key]).

(** A part of a double-quoted text that is not an empty literal. *)
Definition nonempty_part (a : CommandArg) : bool :=
  match a with
  | Literal s | StringLiteral s | TypedLiteral s _ => negb (is_empty s)
  | _ => true
  end.

Definition quoted_arg (args : list CommandArg) : CommandArg :=
  match List.filter nonempty_part args with
  | [] => StringLiteral EmptyString
  | [arg] => arg
  | args => append_parts args
  end.

Definition quoted_normal (c : Ascii.ascii) : bool :=
  negb (Ascii.eqb c char_backslash) && negb (Ascii.eqb c char_dollar)
  && negb (Ascii.eqb c char_dquote).

Definition double_quoted : parser CommandArg :=
  delimited (char char_dquote)
    (map (many0 (alt [ parse_var_braced;
                       map (escaped_transform (take_while1 quoted_normal) char_backslash
                              (alt (common_escapes ++ [value "$" (tag "$")])))
                         StringLiteral ]))
       quoted_arg)
    (char char_dquote).

Definition single_quoted : parser CommandArg :=
  delimited (char char_squote)
    (map (opt (is_not "'")) (fun s => StringLiteral (or_empty s)))
    (char char_squote).

Definition unquoted_arg (s : string) : CommandArg :=
  match parse_typed_literal s with
  | Some v => TypedLiteral s v
  | None => Literal s
  end.

Definition unquoted : parser CommandArg :=
  map (recognize (pair (alt [alphanumeric1; tag "_"])
                    (many0 (alt [alphanumeric1; tag "_"; tag "-"; tag "."; tag ":"; tag "/"]))))
    unquoted_arg.

Definition parse_literal : parser CommandArg :=
  complete (alt [double_quoted; single_quoted; unquoted]).

Definition parse_option : parser CommandArg := fun input =>
  let! (input, option) :=
    recognize
      (alt [ pair (tag "--") (pair (alt [alpha1; tag "_"])
                                (many0 (alt [alphanumeric1; tag "_"; tag "-"])));
             pair (tag "-") (pair (alt [alpha1; tag "_"])
                               (many0 (alt [alphanumeric1; tag "_"]))) ]) input in
  if String.eqb option "-" || String.eqb option "--" then IErr NError
  else IOk input (Literal option).

Definition is_command_char (c : Ascii.ascii) : bool :=
  is_ascii_alphanumeric c || Ascii.eqb c "-" || Ascii.eqb c "_" || Ascii.eqb c char_dot
  || Ascii.eqb c "/".

Definition parse_command_literal : parser CommandArg :=
  map (complete (take_while1 is_command_char)) Literal.

(** ** Arguments *)

Section arg.
Context (parse_arg : parser CommandArg).

(** The loop of [parse_list_literal]. *)
Fixpoint list_literal_loop (fuel : nat) (rest : string) (items : list CommandArg)
  : IResult CommandArg :=
  match fuel with
  | O => IFuel
  | S fuel' =>
      let! (rest, _) := space0 rest in
      match strip_prefix "]" rest with
      | Some next => IOk next (ListLiteral items)
      | None =>
          let! (next, v) := parse_arg rest in
          let items := items ++ [v] in
          let! (rest, _) := space0 next in
          match strip_prefix "," rest with
          | Some next =>
              let! (rest, _) := space0 next in
              match strip_prefix "]" rest with
              | Some next => IOk next (ListLiteral items)
              | None => list_literal_loop fuel' rest items
              end
          | None =>
              let! (next, _) := char char_rbracket rest in
              IOk next (ListLiteral items)
          end
      end
  end.

Definition parse_list_literal : parser CommandArg := fun input =>
  let! (rest, _) := preceded space0 (char char_lbracket) input in
  list_literal_loop (S (String.length rest)) rest [].

(** The loop of [parse_map_literal]. *)
Fixpoint map_literal_loop (fuel : nat) (rest : string) (entries : list (string * CommandArg))
  : IResult CommandArg :=
  match fuel with
  | O => IFuel
  | S fuel' =>
      let! (rest, _) := space0 rest in
      match strip_prefix "}" rest with
      | Some next => IOk next (MapLiteral entries)
      | None =>
          let! (next, key) := parse_map_literal_key rest in
          let! (next, _) := preceded space0 (char char_colon) next in
          let! (next, v) := parse_arg next in
          let entries := entries ++ [(key, v)] in
          let! (rest, _) := space0 next in
          match strip_prefix "," rest with
          | Some next =>
              let! (rest, _) := space0 next in
              match strip_prefix "}" rest with
              | Some next => IOk next (MapLiteral entries)
              | None => map_literal_loop fuel' rest entries
              end
          | None =>
              let! (next, _) := char char_rbrace rest in
              IOk next (MapLiteral entries)
          end
      end
  end.

Definition parse_map_literal : parser CommandArg := fun input =>
  let! (rest, _) := preceded space0 (char char_lbrace) input in
  map_literal_loop (S (String.length rest)) rest [].

(** [parse_command]: the name, then the arguments. *)
Definition parse_command : parser Expression := fun input =>
  let! (input, _) := space0 input in
  let! (input, cmd_name) := parse_command_literal input in
  let! (input, args) := separated_list0 space1 (preceded space0 parse_arg) input in
  match as_literal_str cmd_name with
  | Some name =>
      if starts_with "-" name then IErr NError
      else IOk input (command_item name (cmd_name :: args))
  | None => match args with [] => IPanic | _ => IErr NError end
  end.

Definition parse_command_subst : parser CommandArg := fun input =>
  let! (rest, _) := tag "$(" input in
  match match_paren rest 1 with
  | Some (content, remaining) =>
      let! (cmd_rest, exp) := parse_command (trim content) in
      if is_empty (trim cmd_rest) then IOk remaining (CommandSubstitution exp)
      else IErr NFailure
  | None => IErr NError
  end.

(** The characters that end an unquoted argument with dynamic segments. *)
Definition ends_interpolated (ch : Ascii.ascii) : bool :=
  is_whitespace ch || Ascii.eqb ch char_semicolon || Ascii.eqb ch char_comma
  || Ascii.eqb ch char_rbracket || Ascii.eqb ch char_rbrace.

(** What [parse_interpolated_unquoted] makes of its parts. *)
Definition finish_interpolated (rest literal : string) (parts : list CommandArg) (used : bool)
  : IResult CommandArg :=
  if negb used then IErr NError
  else
    let parts := if is_empty literal then parts else parts ++ [StringLiteral literal] in
    match parts with
    | [part] => IOk rest part
    | _ => IOk rest (append_parts parts)
    end.

Fixpoint interpolated_loop (fuel : nat) (s literal : string) (parts : list CommandArg)
    (used : bool) : IResult CommandArg :=
  match fuel with
  | O => IFuel
  | S fuel' =>
      match s with
      | EmptyString => finish_interpolated s literal parts used
      | String ch s' =>
          if ends_interpolated ch then finish_interpolated s literal parts used
          else if Ascii.eqb ch char_lparen && ends_with "." literal then
            match match_paren s' 1 with
            | None => IErr NError
            | Some (inner, remaining) =>
                let! (inner_rest, inner_arg) := parse_arg (trim inner) in
                if is_empty (trim inner_rest) then
                  let parts :=
                    if is_empty literal then parts else parts ++ [StringLiteral literal] in
                  interpolated_loop fuel' remaining EmptyString (parts ++ [inner_arg]) true
                else IErr NError
            end
          else interpolated_loop fuel' s' (string_snoc literal ch) parts used
      end
  end.

Definition parse_interpolated_unquoted : parser CommandArg := fun input =>
  interpolated_loop (S (String.length input)) input EmptyString [] false.

Definition arg_alternatives : list (parser CommandArg) :=
  [ parse_command_subst; parse_var_braced; parse_var_dollar; parse_map_literal;
    parse_list_literal; parse_interpolated_unquoted; parse_literal; parse_option ].
End arg.

Fixpoint parse_arg_fuel (fuel : nat) : parser CommandArg :=
  match fuel with
  | O => fun _ => IFuel
  | S fuel' => preceded space0 (alt (arg_alternatives (parse_arg_fuel fuel')))
  end.

Definition parse_arg : parser CommandArg := fun input =>
  parse_arg_fuel (S (String.length input)) input.

(** ** Expressions *)

Definition parse_assign_key : parser string :=
  let ident := recognize (pair (alt [alpha1; tag "_"]) (many0 (alt [alphanumeric1; tag "_"]))) in
  let var_key p : parser string := fun input =>
    let! (rest, arg) := p input in
    match arg with Var key => IOk rest key | _ => IPanic end in
  preceded space0 (alt [ var_key parse_var_braced; var_key parse_var_dollar; ident ]).

Definition parse_assign : parser Expression := fun input =>
  let! (input, kind) :=
    opt (terminated
           (alt [ value AsGlobal (tag "export"); value AsGlobal (tag "global");
                  value AsChain (tag "chain"); value AsBlock (tag "local");
                  value AsBlock (tag "block") ])
           space1) input in
  let! (input, key) := parse_assign_key input in
  let! (input, _) := space0 input in
  let! (input, v) :=
    (if starts_with "=" input then
       if starts_with "==" input then IErr NError
       else
         let! (input, _) := char "=" input in
         let! (input, v) := parse_arg input in
         IOk input (Some v)
     else IOk input None) in
  match kind, v with
  | None, None => IErr NError
  | _, _ =>
      let kind := default AsChain kind in
      IOk input (command_item "assign"
        (Literal (assign_kind_str kind) :: Literal key :: match v with Some v => [v] | None => [] end))
  end.

(** The command of a comparison operator. *)
Definition comparison_command (op : string) : option string :=
  if String.eqb op "==" || String.eqb op "===" then Some "eq"
  else if String.eqb op "!=" || String.eqb op "!==" then Some "ne"
  else if String.eqb op ">" then Some "gt"
  else if String.eqb op ">=" then Some "ge"
  else if String.eqb op "<" then Some "lt"
  else if String.eqb op "<=" then Some "le"
  else None.

Definition parse_comparison_sugar : parser Expression := fun input =>
  let! (input, lhs) := parse_arg input in
  let! (input, op) :=
    preceded space0
      (alt [tag "!=="; tag "!="; tag "==="; tag "=="; tag ">="; tag "<="; tag ">"; tag "<"]) input in
  let! (input, rhs) := parse_arg input in
  match comparison_command op with
  | None => IPanic
  | Some name =>
      let loose := if String.eqb op "==" || String.eqb op "!=" then [Literal "--loose"] else [] in
      IOk input (command_item name (Literal name :: loose ++ [lhs; rhs]))
  end.

Section expr.
Context (parse_expressions : parser ExpressionChain).

Definition parse_group : parser Expression := fun input =>
  let! (input, es) :=
    preceded space0 (delimited (tag "(") parse_expressions (tag ")")) input in
  IOk input (EGroup es).

Definition parse_expression : parser Expression :=
  alt [ parse_assign; parse_group; parse_comparison_sugar; parse_command parse_arg ].

(** One expression with its operators. *)
Definition parse_operand : parser (option Operator * Expression * option Operator) := fun i =>
  let! (i, nots) := many0 (preceded space0 (tag "!")) i in
  let prefix_op := if Nat.odd (length nots) then Some OpNot else None in
  let! (i, expr) := parse_expression i in
  let! (i, post_op) :=
    opt (preceded space0
           (alt [map (tag "&&") (fun _ => OpAnd); map (tag "||") (fun _ => OpOr)])) i in
  IOk i (prefix_op, expr, post_op).

(** Only the last expression can have no operator. *)
Definition missing_operator (es : ExpressionChain) : bool :=
  existsb (fun '(_, _, post) => negb (is_some (A := Operator) post)) (removelast es).

Definition parse_expressions_body : parser ExpressionChain := fun input =>
  let input := trim input in
  if is_empty input then IOk input []
  else
    let! (i, exprs) := many0 parse_operand input in
    if missing_operator exprs then IErr NFailure else IOk i exprs.
End expr.

Fixpoint parse_expressions_fuel (fuel : nat) : parser ExpressionChain :=
  match fuel with
  | O => fun _ => IFuel
  | S fuel' => parse_expressions_body (parse_expressions_fuel fuel')
  end.

Definition parse_expressions : parser ExpressionChain := fun input =>
  parse_expressions_fuel (S (String.length input)) input.

Definition parse_statements : parser (list Statement) := fun input =>
  let! (rest, groups) :=
    separated_list0 (preceded space0 (char char_semicolon)) (preceded space0 parse_expressions)
      input in
  IOk rest (List.map new_expressions
              (List.filter (fun es : ExpressionChain => negb (match es with [] => true | _ => false end))
                 groups)).

(** ** Lines *)

(** Sequencing of outcomes, and the outcome of a parser whose error is reported
    with [msg]. *)
Definition obind {A B} (m : Outcome A) (k : A -> Outcome B) : Outcome B :=
  match m with
  | Done a => k a
  | Fail e => Fail e
  | Panicked e => Panicked e
  | OutOfFuel => OutOfFuel
  end.

Local Notation "'letO' x ':=' m 'in' k" := (obind m (fun x => k))
  (at level 10, x pattern, m at level 100, k at level 200).

Definition parsed {A} (msg : string) (r : IResult A) : Outcome (string * A) :=
  match r with
  | IOk rest a => Done (rest, a)
  | IErr _ => Fail msg
  | IPanic => Panicked msg
  | IFuel => OutOfFuel
  end.

(** [ok_or_else] and the early returns on a condition. *)
Definition or_fail {A} (msg : string) (o : option A) : Outcome A :=
  match o with Some a => Done a | None => Fail msg end.
Definition refuse (b : bool) (msg : string) : Outcome unit := if b then Fail msg else Done tt.

Definition parse_line (line : string) : Outcome Line :=
  let trimmed := trim line in
  if is_empty trimmed then Done (mkLine trimmed [])
  else
    letO (rest, statements) := parsed "Parse statements error" (parse_statements trimmed) in
    letO _ := refuse (negb (is_empty (trim rest))) "Unexpected content after statements" in
    Done (mkLine trimmed statements).

Definition parse_for_header (line : string) : Outcome (string * option string * CommandArg) :=
  let line := trim line in
  letO body := or_fail "Invalid 'for' header" (strip_prefix "for" line) in
  letO body := or_fail "'for' header must end with 'then'" (strip_suffix "then" (trim_start body)) in
  let body := trim_end body in
  letO _ := refuse (is_empty body) "'for' header must not be empty" in
  letO (vars_part, iterable_part) :=
    or_fail "'for' header must contain 'in'" (split_once " in " body) in
  let vars_part := trim vars_part in
  let iterable_part := trim iterable_part in
  letO _ := refuse (is_empty vars_part || is_empty iterable_part) "Invalid 'for' header" in
  let vars := List.map trim (split_on char_comma vars_part) in
  letO _ := refuse ((length vars =? 0)%nat || (2 <? length vars)%nat || existsb is_empty vars)
              "Invalid loop variable list" in
  letO key_var := match vars with v :: _ => Done v | [] => Panicked "index out of bounds" end in
  letO _ := refuse (negb (is_valid_loop_var_name key_var)) "Invalid loop variable name" in
  letO value_var :=
    match vars with
    | [_; value_var] =>
        letO _ := refuse (negb (is_valid_loop_var_name value_var)) "Invalid loop variable name" in
        letO _ := refuse (String.eqb value_var key_var) "Loop variable names must be different" in
        Done (Some value_var)
    | _ => Done None
    end in
  letO (rest, iterable) :=
    parsed "Parse iterable in 'for' header error" (parse_arg iterable_part) in
  letO _ := refuse (negb (is_empty (trim rest))) "Unexpected content in 'for' header iterable" in
  Done (key_var, value_var, iterable).

Definition parse_if_condition (line keyword : string) : Outcome ExpressionChain :=
  let line := trim line in
  letO c := or_fail "Invalid header" (strip_prefix keyword line) in
  letO c := or_fail "header must end with 'then'" (strip_suffix "then" (trim_start c)) in
  let c := trim_end c in
  letO _ := refuse (is_empty c) "condition must not be empty" in
  letO (rest, condition) := parsed "Parse condition error" (parse_expressions c) in
  letO _ := refuse (negb (is_empty (trim rest))) "Unexpected content in condition" in
  letO _ := refuse (match condition with [] => true | _ => false end) "condition must not be empty" in
  Done condition.

Definition parse_case_header (line : string) : Outcome (option CommandArg * option string) :=
  let line := trim line in
  letO body := or_fail "Invalid 'case' header" (strip_prefix "case" line) in
  letO body :=
    or_fail "'case' header must end with 'then'" (strip_suffix "then" (trim_start body)) in
  let body := trim_end body in
  if is_empty body then Done (None, None)
  else
    letO (rest, subject) := parsed "Parse 'case' subject error" (parse_arg body) in
    letO binding := or_fail "'case' subject form requires 'as <name>' after the subject"
                      (strip_prefix "as " (trim rest)) in
    let binding := trim binding in
    letO _ := refuse (negb (is_valid_loop_var_name binding)) "Invalid case binding variable" in
    Done (Some subject, Some binding).

Definition parse_match_result_command (line : string) : Outcome Expression :=
  let line := trim line in
  letO body := or_fail "Invalid 'match-result' header" (strip_prefix "match-result" line) in
  let body := trim_start body in
  letO _ := refuse (is_empty body) "'match-result' header must not be empty" in
  letO _ := refuse (negb (starts_with "$(" body))
              "'match-result' requires command substitution syntax '$(...)'" in
  letO (rest, arg) := parsed "Parse 'match-result' command error" (parse_arg body) in
  letO _ := refuse (negb (is_empty (trim rest))) "Unexpected content in 'match-result' header" in
  match arg with
  | CommandSubstitution command => Done command
  | _ => Fail "'match-result' requires command substitution syntax '$(...)'"
  end.

(** The text between the parentheses of a branch header. *)
Definition branch_header_body (line keyword : string) : Outcome string :=
  letO body :=
    or_fail "Invalid branch header"
      (match strip_prefix keyword (trim line) with
       | Some rest =>
           match strip_prefix "(" rest with Some rest => strip_suffix ")" rest | None => None end
       | None => None
       end) in
  Done (trim body).

Definition parse_match_result_branch_binding (line keyword : string) : Outcome string :=
  letO body := branch_header_body line keyword in
  letO _ := refuse (negb (is_valid_loop_var_name body)) "Invalid binding variable" in
  Done body.

Definition parse_match_result_control_binding (line : string) : Outcome (string * string * string) :=
  letO body := branch_header_body line "control" in
  match List.map trim (split_on char_comma body) with
  | [a; f; v] =>
      letO _ := refuse (negb (forallb is_valid_loop_var_name [a; f; v]))
                  "Invalid 'control' binding variable" in
      letO _ := refuse (String.eqb a f || String.eqb a v || String.eqb f v)
                  "'control' binding variables must be distinct" in
      Done (a, f, v)
  | _ => Fail "'control' branch must declare three variables 'action, from, value'"
  end.

(** ** Statements over several lines *)

Section lines.
Context (lines : list string) (parse_lines : nat -> bool -> Outcome (list Line * nat)).

Definition line_at (index : nat) : Outcome string :=
  match lines !! index with
  | Some l => Done (trim l)
  | None => Panicked "index out of bounds"
  end.

(** The line at [cursor] is an [end]. *)
Definition ends_at (cursor : nat) : bool :=
  match lines !! cursor with Some l => String.eqb (trim l) "end" | None => false end.

(** The branches of [if] and [case], which differ in the keyword [kw] of their
    further branches: the conditions with their lines, the lines of [else], and
    where the statement ends. *)
Fixpoint branches_from (kw : LineControlKeyword -> bool) (keyword : string) (fuel : nat)
    (condition : ExpressionChain) (cursor : nat) (branches : list (IfBranch Line))
  : Outcome (list (IfBranch Line) * option (list Line) * nat) :=
  match fuel with
  | O => OutOfFuel
  | S fuel' =>
      letO (branch_lines, next_cursor) := parse_lines cursor true in
      let branches := branches ++ [mkIfBranch condition branch_lines] in
      letO _ := refuse (length lines <=? next_cursor)%nat "Missing 'end'" in
      letO control_line := line_at next_cursor in
      match line_control_keyword control_line with
      | Some KwElse =>
          letO (else_lines, end_cursor) := parse_lines (S next_cursor) true in
          letO _ := refuse (negb (ends_at end_cursor)) "Missing 'end' after else branch" in
          Done (branches, Some else_lines, S end_cursor)
      | Some KwEnd => Done (branches, None, S next_cursor)
      | Some k =>
          if kw k then
            letO condition := parse_if_condition control_line keyword in
            branches_from kw keyword fuel' condition (S next_cursor) branches
          else Fail "Unexpected control keyword"
      | None => Panicked "parse_lines must stop at a control keyword"
      end
  end.

Definition is_elif (k : LineControlKeyword) : bool := match k with KwElif => true | _ => false end.
Definition is_when (k : LineControlKeyword) : bool := match k with KwWhen => true | _ => false end.

Definition parse_if_statement (index : nat) : Outcome (Line * nat) :=
  letO source := line_at index in
  letO condition := parse_if_condition source "if" in
  letO (branches, else_lines, cursor) :=
    branches_from is_elif "elif" (S (length lines)) condition (S index) [] in
  Done (mkLine source [new_if (mkIfStatement branches else_lines)], cursor).

Definition parse_case_statement (index : nat) : Outcome (Line * nat) :=
  letO source := line_at index in
  letO (subject, binding_var) := parse_case_header source in
  letO _ := refuse (length lines <=? S index)%nat "Missing 'when'/'end' for case statement" in
  letO first := line_at (S index) in
  letO condition :=
    match line_control_keyword first with
    | Some KwWhen => parse_if_condition first "when"
    | _ => Fail "Case statement requires a 'when ... then' branch"
    end in
  letO (branches, else_lines, cursor) :=
    branches_from is_when "when" (S (length lines)) condition (S (S index)) [] in
  Done (mkLine source [new_case (mkCaseStatement subject binding_var branches else_lines)], cursor).

Definition parse_for_statement (index : nat) : Outcome (Line * nat) :=
  letO source := line_at index in
  letO (key_var, value_var, iterable) := parse_for_header source in
  letO (for_lines, end_cursor) := parse_lines (S index) true in
  letO _ := refuse (negb (ends_at end_cursor)) "Missing 'end' for for statement" in
  Done (mkLine source [new_for (mkForStatement key_var value_var iterable for_lines)],
        S end_cursor).

(** The loop of [parse_match_result_statement]. *)
Fixpoint match_result_from (fuel cursor : nat) (s : MatchResultStatement Line) (saw_branch : bool)
  : Outcome (MatchResultStatement Line * nat) :=
  match fuel with
  | O => OutOfFuel
  | S fuel' =>
      letO _ := refuse (length lines <=? cursor)%nat "Missing 'end' for match-result statement" in
      letO control_line := line_at cursor in
      match line_control_keyword control_line with
      | Some KwOk =>
          letO _ := refuse (is_some (ok_branch s)) "Duplicate 'ok' branch" in
          letO var := parse_match_result_branch_binding control_line "ok" in
          letO (branch_lines, next) := parse_lines (S cursor) true in
          match_result_from fuel' next
            (mkMatchResultStatement (mr_command s) (Some (mkMatchResultBranch var branch_lines))
               (err_branch s) (control_branch s)) true
      | Some KwErr =>
          letO _ := refuse (is_some (err_branch s)) "Duplicate 'err' branch" in
          letO var := parse_match_result_branch_binding control_line "err" in
          letO (branch_lines, next) := parse_lines (S cursor) true in
          match_result_from fuel' next
            (mkMatchResultStatement (mr_command s) (ok_branch s)
               (Some (mkMatchResultBranch var branch_lines)) (control_branch s)) true
      | Some KwControl =>
          letO _ := refuse (is_some (control_branch s)) "Duplicate 'control' branch" in
          letO (a, f, v) := parse_match_result_control_binding control_line in
          letO (branch_lines, next) := parse_lines (S cursor) true in
          match_result_from fuel' next
            (mkMatchResultStatement (mr_command s) (ok_branch s) (err_branch s)
               (Some (mkMatchResultControlBranch a f v branch_lines))) true
      | Some KwEnd =>
          letO _ := refuse (negb saw_branch) "'match-result' must contain at least one branch" in
          Done (s, S cursor)
      | Some _ => Fail "Unexpected control keyword in match-result statement"
      | None => Fail "Expected 'ok(...)', 'err(...)', 'control(...)' or 'end' in match-result"
      end
  end.

Definition parse_match_result_statement (index : nat) : Outcome (Line * nat) :=
  letO source := line_at index in
  letO command := parse_match_result_command source in
  letO (s, cursor) :=
    match_result_from (S (length lines)) (S index)
      (mkMatchResultStatement command None None None) false in
  Done (mkLine source [new_match_result s], cursor).

(** The statement that starts on the line at [index]. *)
Definition parse_statement_at (index : nat) (line : string) : Outcome (Line * nat) :=
  if is_if_header line then parse_if_statement index
  else if is_case_header line then parse_case_statement index
  else if is_for_header line then parse_for_statement index
  else if is_match_result_header line then parse_match_result_statement index
  else letO l := parse_line line in Done (l, S index).
End lines.

Fixpoint parse_lines (lines : list string) (fuel index : nat) (stop_at_control_keywords : bool)
  : Outcome (list Line * nat) :=
  match fuel with
  | O => OutOfFuel
  | S fuel' =>
      match lines !! index with
      | None => Done ([], index)
      | Some l =>
          let line := trim l in
          match line_control_keyword line with
          | Some _ =>
              if stop_at_control_keywords then Done ([], index)
              else Fail "Unexpected keyword without matching block statement"
          | None =>
              letO (parsed_line, next) :=
                parse_statement_at lines (parse_lines lines fuel') index line in
              letO (rest, end_index) := parse_lines lines fuel' next stop_at_control_keywords in
              Done (parsed_line :: rest, end_index)
          end
      end
  end.

(** [BlockParser::parse]. *)
Definition parse_block (id block : string) : Outcome Block :=
  match split_lines block with
  | [] => Done (mkBlock id [])
  | lines =>
      letO (parsed_lines, index) := parse_lines lines (S (length lines)) 0 false in
      letO _ := refuse (negb (index =? length lines)%nat) "Unexpected parser stop" in
      Done (mkBlock id parsed_lines)
  end.
End nom.
