(* ===== verification/ParserFacts.v ===== *)
(** * Theorems on the block parser

    Every parser answers with a rest of its text, the fuel of the model is
    always enough, no [unreachable!] is reached, and the trees have the shape
    the linker and the interpreter expect. *)

From S2P Require Import Prelude Values Syntax State VarPath Nom Parser.

#[local] Arguments strip_prefix : simpl never.

(** ** What a parser answers with *)

(** A success leaves a rest shorter by [k] and a value in [Q]. *)
Definition yields {A} (k : nat) (Q : A -> Prop) (p : parser A) : Prop :=
  forall s r a, p s = IOk r a -> (String.length r + k <= String.length s)%nat /\ Q a.

Definition any {A} (_ : A) : Prop := True.

Lemma yields_weaken {A} k k' (Q Q' : A -> Prop) p :
  yields k Q p -> (k' <= k)%nat -> (forall a, Q a -> Q' a) -> yields k' Q' p.
Proof. intros Hp Hk HQ s r a E. apply Hp in E as [? ?]. split; [lia|auto]. Qed.

Lemma yields_shrinks {A} k Q (p : parser A) : yields k Q p -> shrinks p.
Proof. intros Hp s r a E. apply Hp in E as [? _]. lia. Qed.

Lemma yields_consumes {A} k Q (p : parser A) : yields k Q p -> (1 <= k)%nat -> consumes p.
Proof. intros Hp Hk s r a E. apply Hp in E as [? _]. lia. Qed.

Lemma yields_one_or_more c : yields 1 any (one_or_more c).
Proof. intros s r a E%one_or_more_consumes. split; [lia|done]. Qed.

Section yields.
Context `{NomLaws}.

Lemma yields_space0 : yields 0 any space0.
Proof.
  intros s r a. rewrite space0_law. intros [= <- <-]. pose proof (drop_while_length is_blank s).
  split; [lia|done].
Qed.

Lemma yields_space1 : yields 1 any space1.
Proof. intros s r a. rewrite space1_law. apply yields_one_or_more. Qed.

Lemma yields_alpha1 : yields 1 any alpha1.
Proof. intros s r a. rewrite alpha1_law. apply yields_one_or_more. Qed.

Lemma yields_alphanumeric1 : yields 1 any alphanumeric1.
Proof. intros s r a. rewrite alphanumeric1_law. apply yields_one_or_more. Qed.

Lemma yields_tag t : yields (String.length t) (fun a => a = t) (tag t).
Proof.
  intros s r a. rewrite tag_law. case_match eqn:E; [|done]. intros [= <- <-].
  apply strip_prefix_length in E. split; [lia|done].
Qed.

Lemma yields_char c : yields 1 (fun a => a = c) (char c).
Proof.
  intros s r a. rewrite char_law. destruct s as [|b s]; [done|]. case_match; [|done].
  intros [= <- <-]. simpl. split; [lia|done].
Qed.

Lemma yields_is_not cs : yields 1 any (is_not cs).
Proof. intros s r a. rewrite is_not_law. apply yields_one_or_more. Qed.

Lemma yields_take_while1 c : yields 1 any (take_while1 c).
Proof. intros s r a. rewrite take_while1_law. case_match; [done|]. apply yields_one_or_more. Qed.

Lemma yields_map {A B} k (Q : B -> Prop) (f : A -> B) p :
  yields k (fun a => Q (f a)) p -> yields k Q (map p f).
Proof.
  intros Hp s r b. rewrite map_law. intros (r' & a & E & [= <- <-])%pbind_IOk. by apply Hp in E.
Qed.

Lemma yields_value {A B} k (Q : A -> Prop) (b : B) p :
  yields k Q p -> yields k (fun a => a = b) (value b p).
Proof.
  intros Hp s r c. rewrite value_law. intros (r' & a & E & [= <- <-])%pbind_IOk.
  apply Hp in E as [? _]. done.
Qed.

Lemma yields_opt {A} k (Q : A -> Prop) p :
  yields k Q p -> yields 0 (fun o => forall a, o = Some a -> Q a) (opt p).
Proof.
  intros Hp s r o. rewrite opt_law. destruct (p s) as [r' a|[]| |] eqn:E; try done.
  - intros [= <- <-]. apply Hp in E as [? ?]. split; [lia|]. by intros ? [= <-].
  - intros [= <- <-]. split; [lia|done].
Qed.

Lemma yields_complete {A} k (Q : A -> Prop) p : yields k Q p -> yields k Q (complete p).
Proof.
  intros Hp s r a. rewrite complete_law. destruct (p s) as [r' a'|[]| |] eqn:E; try done.
  intros [= <- <-]. by apply Hp in E.
Qed.

Lemma yields_recognize {A} k (Q : A -> Prop) p : yields k Q p -> yields k any (recognize p).
Proof.
  intros Hp s r o. rewrite recognize_law. intros (r' & a & E & [= <- <-])%pbind_IOk.
  apply Hp in E as [? _]. done.
Qed.

Lemma yields_pair {A B} k k' (Q : A -> Prop) (Q' : B -> Prop) p q :
  yields k Q p -> yields k' Q' q -> yields (k + k') any (pair p q).
Proof.
  intros Hp Hq s r o. rewrite pair_law.
  intros (r1 & a & E1 & (r2 & b & E2 & [= <- <-])%pbind_IOk)%pbind_IOk.
  apply Hp in E1 as [? _]. apply Hq in E2 as [? _]. split; [lia|done].
Qed.

Lemma yields_preceded {A B} k k' (Q : A -> Prop) (Q' : B -> Prop) p q :
  yields k Q p -> yields k' Q' q -> yields (k + k') Q' (preceded p q).
Proof.
  intros Hp Hq s r b. rewrite preceded_law. intros (r1 & a & E1 & E2)%pbind_IOk.
  apply Hp in E1 as [? _]. apply Hq in E2 as [? ?]. split; [lia|done].
Qed.

Lemma yields_terminated {A B} k k' (Q : A -> Prop) (Q' : B -> Prop) p q :
  yields k Q p -> yields k' Q' q -> yields (k + k') Q (terminated p q).
Proof.
  intros Hp Hq s r o. rewrite terminated_law.
  intros (r1 & a & E1 & (r2 & b & E2 & [= <- <-])%pbind_IOk)%pbind_IOk.
  apply Hp in E1 as [? ?]. apply Hq in E2 as [? _]. split; [lia|done].
Qed.

Lemma yields_delimited {A B C} k1 k2 k3 (Q : A -> Prop) (Q' : B -> Prop) (Q'' : C -> Prop) p q t :
  yields k1 Q p -> yields k2 Q' q -> yields k3 Q'' t ->
  yields (k1 + k2 + k3) Q' (delimited p q t).
Proof.
  intros Hp Hq Ht s r o. rewrite delimited_law.
  intros (r1 & a & E1 & (r2 & b & E2 & (r3 & c & E3 & [= <- <-])%pbind_IOk)%pbind_IOk)%pbind_IOk.
  apply Hp in E1 as [? _]. apply Hq in E2 as [? ?]. apply Ht in E3 as [? _]. split; [lia|done].
Qed.

Lemma yields_alt {A} k (Q : A -> Prop) ps : Forall (yields k Q) ps -> yields k Q (alt ps).
Proof.
  induction 1 as [|p ps Hp _ IH]; intros s r a; [by rewrite alt_nil_law|].
  rewrite alt_cons_law. destruct (p s) as [r' a'|[]| |] eqn:E; try done; [|apply IH].
  intros [= <- <-]. by apply Hp in E.
Qed.

Lemma alt_IOk {A} (ps : list (parser A)) s r a :
  alt ps s = IOk r a -> exists p, p ∈ ps /\ p s = IOk r a.
Proof.
  induction ps as [|p ps IH]; [by rewrite alt_nil_law|]. rewrite alt_cons_law.
  destruct (p s) as [r' a'|[]| |] eqn:E; try done.
  - intros [= <- <-]. exists p. split; [left|done].
  - intros (q & ? & ?)%IH. exists q. split; [by right|done].
Qed.

Lemma yields_many0 {A} k (Q : A -> Prop) p : yields k Q p -> yields 0 (Forall Q) (many0 p).
Proof.
  intros Hp s. induction s as [s IH] using string_length_ind. intros r l.
  rewrite many0_law by eauto using yields_shrinks.
  destruct (p s) as [r' a|[]| |] eqn:E; try done.
  - case_match eqn:El; [done|]. apply Nat.eqb_neq in El. apply Hp in E as [? ?].
    intros (r2 & l2 & [? ?]%IH & [= <- <-])%pbind_IOk; [|lia].
    split; [lia|by constructor].
  - intros [= <- <-]. split; [lia|constructor].
Qed.

Lemma yields_separated_list0 {A B} k k' (Q : A -> Prop) (Q' : B -> Prop) sep p :
  yields (S k) Q sep -> yields k' Q' p -> yields 0 (Forall Q') (separated_list0 sep p).
Proof.
  intros Hs Hp s r l.
  rewrite separated_list0_law by eauto using yields_shrinks, yields_consumes with lia.
  destruct (p s) as [r' a|[]| |] eqn:E; try done.
  - apply Hp in E as [? ?]. intros (r2 & l2 & E2 & [= <- <-])%pbind_IOk.
    eapply yields_many0 in E2 as [? ?]; [|eapply yields_preceded; eauto].
    split; [lia|by constructor].
  - intros [= <- <-]. split; [lia|constructor].
Qed.

Lemma yields_escaped n c t : echoes n -> echoes t -> yields 0 any (escaped_transform n c t).
Proof.
  intros Hn Ht s r a E. apply (escaped_transform_law n c t Hn Ht) in E. split; [lia|done].
Qed.

Lemma echoes_is_not cs : echoes (is_not cs).
Proof. intros s r a. rewrite is_not_law. apply one_or_more_echoes. Qed.

Lemma echoes_take_while1 c : echoes (take_while1 c).
Proof. intros s r a. rewrite take_while1_law. case_match; [done|]. apply one_or_more_echoes. Qed.

Lemma echoes_value b t : (String.length b <= String.length t)%nat -> echoes (value b (tag t)).
Proof.
  intros Hb s r a. rewrite value_law. intros (r' & a' & [? _]%yields_tag & [= <- <-])%pbind_IOk. lia.
Qed.

Lemma echoes_alt ps : Forall echoes ps -> echoes (alt ps).
Proof.
  induction 1 as [|p ps Hp _ IH]; intros s r a; [by rewrite alt_nil_law|].
  rewrite alt_cons_law. destruct (p s) as [r' a'|[]| |] eqn:E; try done; [|apply IH].
  intros [= <- <-]. by apply Hp in E.
Qed.
End yields.

(** ** The shape of parsed trees *)

Section wf.
Context `{F64Text}.

(** The operators of an operand: a negation before it, [&&] or [||] after it. *)
Definition wf_operators (prefix post : option Operator) : bool :=
  match prefix with None | Some OpNot => true | _ => false end
  && match post with None | Some OpAnd | Some OpOr => true | _ => false end.

(** The arguments of a command: a level, a key and a value for [assign], the
    name itself first for any other. *)
Definition wf_command_args (name : string) (args : list CommandArg) : bool :=
  match args with
  | Literal n :: rest =>
      String.eqb n name
      || String.eqb name "assign" && is_some (assign_kind_of_str n)
         && match rest with [Literal _] | [Literal _; _] => true | _ => false end
  | _ => false
  end.

(** Arguments and expressions as the parser makes them: not linked, typed
    literals that are what their text says, names for variables. *)
Fixpoint wf_arg (a : CommandArg) : bool :=
  match a with
  | Literal _ | StringLiteral _ => true
  | TypedLiteral raw _ => is_some (parse_typed_literal raw)
  | ListLiteral items => forallb wf_arg items
  | MapLiteral entries => forallb (fun '(_, v) => wf_arg v) entries
  | Var s => negb (is_empty s)
  | CommandSubstitution e => match e with ECommand _ _ _ => wf_expr e | EGroup _ => false end
  end
with wf_expr (e : Expression) : bool :=
  match e with
  | ECommand name args (Some _) => false
  | ECommand name args None => wf_command_args name args && forallb wf_arg args
  | EGroup es =>
      negb (missing_operator es)
      && forallb (fun '(prefix, e, post) => wf_operators prefix post && wf_expr e) es
  end.

Definition wf_operand (o : option Operator * Expression * option Operator) : bool :=
  let '(prefix, e, post) := o in wf_operators prefix post && wf_expr e.

(** Only the last operand may lack an operator. *)
Definition wf_chain (es : ExpressionChain) : bool :=
  negb (missing_operator es) && forallb wf_operand es.

Lemma wf_group es : wf_expr (EGroup es) = wf_chain es.
Proof. done. Qed.

Definition nonempty {A} (l : list A) : bool := match l with [] => false | _ => true end.
Definition opt_forallb {A} (f : A -> bool) (o : option A) : bool :=
  match o with Some a => f a | None => true end.

Section statement.
Context {L : Type} (wf_line : L -> bool).

Definition wf_branch (b : IfBranch L) : bool :=
  nonempty (if_condition b) && wf_chain (if_condition b) && forallb wf_line (if_lines b).

Definition wf_branches (bs : list (IfBranch L)) (els : option (list L)) : bool :=
  nonempty bs && forallb wf_branch bs && opt_forallb (forallb wf_line) els.

Definition distinct2 (a b : string) : bool := negb (String.eqb a b).

(** One form per statement, with the names it binds valid and distinct. *)
Definition wf_statement (s : StatementOf L) : bool :=
  match st_expressions s, st_if s, st_case s, st_for s, st_match_result s with
  | (_ :: _) as es, None, None, None, None => wf_chain es
  | [], Some i, None, None, None => wf_branches (if_branches i) (if_else i)
  | [], None, Some c, None, None =>
      match case_subject c, case_binding_var c with
      | None, None => true
      | Some a, Some v => wf_arg a && is_valid_loop_var_name v
      | _, _ => false
      end && wf_branches (case_branches c) (case_else c)
  | [], None, None, Some f, None =>
      is_valid_loop_var_name (key_var f)
      && opt_forallb (fun v => is_valid_loop_var_name v && distinct2 v (key_var f)) (value_var f)
      && wf_arg (iterable f) && forallb wf_line (for_lines f)
  | [], None, None, None, Some m =>
      match mr_command m with ECommand _ _ _ => wf_expr (mr_command m) | EGroup _ => false end
      && (is_some (ok_branch m) || is_some (err_branch m) || is_some (control_branch m))
      && opt_forallb (fun b => is_valid_loop_var_name (mr_binding_var b)
                               && forallb wf_line (mr_lines b)) (ok_branch m)
      && opt_forallb (fun b => is_valid_loop_var_name (mr_binding_var b)
                               && forallb wf_line (mr_lines b)) (err_branch m)
      && opt_forallb (fun b => forallb is_valid_loop_var_name
                                 [mc_action_var b; mc_from_var b; mc_value_var b]
                               && distinct2 (mc_action_var b) (mc_from_var b)
                               && distinct2 (mc_action_var b) (mc_value_var b)
                               && distinct2 (mc_from_var b) (mc_value_var b)
                               && forallb wf_line (mc_lines b)) (control_branch m)
  | _, _, _, _, _ => false
  end.
End statement.

Fixpoint wf_line (l : Line) : bool :=
  match l with mkLine _ statements => forallb (wf_statement wf_line) statements end.

Definition wf_block (b : Block) : bool := forallb wf_line (block_lines b).
End wf.

(** ** Values and rests of the parsers of a line *)

(** Solves [yields] for parsers of strings made from the combinators; an
    alternative is taken to read at least one character. *)
Ltac yields_text :=
  lazymatch goal with
  | |- yields _ _ (alt _) =>
      refine (yields_weaken 1 _ any _ _ _ _ _);
      [apply yields_alt; repeat (apply List.Forall_cons; [yields_text|]); apply List.Forall_nil
      |lia|done]
  | |- yields _ _ _ =>
      eapply yields_weaken;
      [lazymatch goal with
       | |- yields _ _ space0 => apply yields_space0
       | |- yields _ _ space1 => apply yields_space1
       | |- yields _ _ alpha1 => apply yields_alpha1
       | |- yields _ _ alphanumeric1 => apply yields_alphanumeric1
       | |- yields _ _ (tag _) => apply yields_tag
       | |- yields _ _ (char _) => apply yields_char
       | |- yields _ _ (is_not _) => apply yields_is_not
       | |- yields _ _ (take_while1 _) => apply yields_take_while1
       | |- yields _ _ (many0 _) => eapply (yields_many0 1 any); yields_text
       | |- yields _ _ (opt _) => eapply (yields_opt 0 any); yields_text
       | |- yields _ _ (map _ _) => eapply (yields_map 0 any); yields_text
       | |- yields _ _ (pair _ _) => eapply (yields_pair 1 0 any any); yields_text
       | |- yields _ _ (recognize _) => eapply (yields_recognize 1 any); yields_text
       | |- yields _ _ (preceded _ _) => eapply (yields_preceded 0 1 any any); yields_text
       | |- yields _ _ (delimited _ _ _) => eapply (yields_delimited 1 0 1 any any any); yields_text
       | |- yields _ _ (value _ _) => eapply (yields_value 1 any); yields_text
       | |- yields _ _ (terminated _ _) => eapply (yields_terminated 1 1 any any); yields_text
       end
      |simpl; lia|done]
  end.

Section text.
Context `{F64Text} `{NomLaws}.

Lemma yields_recognized {A} (p : parser A) : yields 1 any p -> yields 1 any (recognize p).
Proof. apply yields_recognize. Qed.

Lemma echoes_common : Forall echoes common_escapes.
Proof.
  unfold common_escapes. repeat (apply List.Forall_cons; [apply echoes_value; simpl; lia|]).
  apply List.Forall_nil.
Qed.

Lemma yields_map_literal_key : yields 1 any parse_map_literal_key.
Proof.
  eapply yields_weaken; [eapply (yields_preceded 0 1 any any); [yields_text|]|lia|done].
  apply yields_alt. repeat (apply List.Forall_cons); [| | |apply List.Forall_nil]; try yields_text.
  eapply yields_weaken; [eapply (yields_delimited 1 0 1 any any any); [yields_text| |yields_text]|lia|done].
  apply yields_map. eapply yields_weaken; [eapply (yields_opt 0 any), yields_escaped|lia|done].
  - apply echoes_is_not.
  - apply echoes_alt, echoes_common.
Qed.

Lemma scan_var_dollar_length s v t r v' :
  scan_var_dollar s v = (t, r, v') -> (String.length t + String.length r = String.length s)%nat.
Proof.
  revert v t r v'. induction s as [|c s IH]; intros v t r v'; simpl; [by intros [= <- <- <-]|].
  destruct v as [p b q e]. intros E.
  repeat case_match; simplify_eq/=; try done;
    match goal with E : scan_var_dollar _ _ = _ |- _ => apply IH in E; lia end.
Qed.

Lemma scan_var_braced_length s v t r v' :
  scan_var_braced s v = Some (t, r, v') ->
  (String.length t + String.length r = String.length s)%nat.
Proof.
  revert v t r v'. induction s as [|c s IH]; intros v t r v'; simpl; [by intros [= <- <- <-]|].
  destruct v as [p b q e]. intros E.
  repeat case_match; simplify_eq/=; try done;
    apply fmap_Some in E as ([[t0 r0] v0] & E & ?); simplify_eq/=; apply IH in E; lia.
Qed.

Lemma var_dollar_shape s r a :
  parse_var_dollar s = IOk r a ->
  exists v, a = Var v /\ v <> EmptyString
            /\ (String.length r + String.length v + 1 = String.length s)%nat.
Proof.
  unfold parse_var_dollar. rewrite char_law. destruct s as [|c s]; [done|].
  destruct (Ascii.eqb c char_dollar); [|done]. simpl. case_match; [done|].
  destruct (scan_var_dollar s _) as [[t r'] v] eqn:E. destruct (is_empty t) eqn:Et; [done|].
  do 2 (case_match; [done|]). intros [= <- <-]. apply scan_var_dollar_length in E.
  exists t. split; [done|]. split; [by intros ->|lia].
Qed.

Lemma var_braced_shape s r a :
  parse_var_braced s = IOk r a ->
  exists v, a = Var v /\ v <> EmptyString
            /\ (String.length r + String.length v + 3 = String.length s)%nat.
Proof.
  unfold parse_var_braced. rewrite tag_law. destruct (strip_prefix _ s) as [s'|] eqn:Ep; [|done].
  apply strip_prefix_length in Ep. simpl.
  destruct (scan_var_braced s' _) as [[[t r'] v]|] eqn:E; [|done].
  apply scan_var_braced_length in E. destruct r' as [|c r']; [done|].
  destruct (is_empty t) eqn:Et; [done|]. simpl. case_match; [done|]. intros [= <- <-].
  simpl in *. exists t. split; [done|]. split; [by intros ->|lia].
Qed.

Definition wf_arg_ok (a : CommandArg) : Prop := wf_arg a = true.
Definition wf_expr_ok (e : Expression) : Prop := wf_expr e = true.

Lemma yields_var_dollar : yields 2 wf_arg_ok parse_var_dollar.
Proof.
  intros s r a (v & -> & Hv & ?)%var_dollar_shape. destruct v; [done|]. simpl in *. split; [lia|done].
Qed.

Lemma yields_var_braced : yields 4 wf_arg_ok parse_var_braced.
Proof.
  intros s r a (v & -> & Hv & ?)%var_braced_shape. destruct v; [done|]. simpl in *. split; [lia|done].
Qed.

Lemma forallb_Forall {A} (f : A -> bool) l : forallb f l = true <-> Forall (fun a => f a = true) l.
Proof. rewrite forallb_forall, Forall_forall. by setoid_rewrite list_elem_of_In. Qed.

Lemma wf_append_parts parts :
  Forall wf_arg_ok parts -> wf_arg_ok (append_parts parts).
Proof. intros Hp. unfold wf_arg_ok. simpl. by apply forallb_Forall. Qed.

Lemma wf_quoted_arg args : Forall wf_arg_ok args -> wf_arg_ok (quoted_arg args).
Proof.
  intros Hargs. unfold quoted_arg.
  assert (Hf : Forall wf_arg_ok (List.filter nonempty_part args)).
  { apply Forall_forall. intros a Ha%list_elem_of_In. apply filter_In in Ha as [Ha _].
    rewrite Forall_forall in Hargs. by apply Hargs, list_elem_of_In. }
  destruct (List.filter nonempty_part args) as [|a [|b l]]; [done| |by apply wf_append_parts].
  by inversion Hf.
Qed.

Lemma yields_quoted_part :
  yields 0 wf_arg_ok
    (alt [ parse_var_braced;
           map (escaped_transform (take_while1 quoted_normal) char_backslash
                  (alt (common_escapes ++ [value "$" (tag "$")]))) StringLiteral ]).
Proof.
  apply yields_alt. repeat apply List.Forall_cons; [| |apply List.Forall_nil].
  - eapply yields_weaken; [apply yields_var_braced|lia|done].
  - apply yields_map. eapply yields_weaken; [apply yields_escaped|lia|done].
    + apply echoes_take_while1.
    + apply echoes_alt, Forall_app. split; [apply echoes_common|].
      apply List.Forall_cons; [apply echoes_value; simpl; lia|apply List.Forall_nil].
Qed.

Lemma yields_double_quoted : yields 2 wf_arg_ok double_quoted.
Proof.
  eapply yields_weaken; [eapply (yields_delimited 1 0 1 any wf_arg_ok any); try yields_text|lia|done].
  apply yields_map. eapply yields_weaken; [eapply (yields_many0 0 wf_arg_ok)|lia|apply wf_quoted_arg].
  apply yields_quoted_part.
Qed.

Lemma yields_single_quoted : yields 2 wf_arg_ok single_quoted.
Proof.
  eapply yields_weaken; [eapply (yields_delimited 1 0 1 any wf_arg_ok any); try yields_text|lia|done].
  apply yields_map. yields_text.
Qed.

Lemma wf_unquoted_arg s : wf_arg_ok (unquoted_arg s).
Proof. unfold unquoted_arg, wf_arg_ok. case_match eqn:E; [|done]. simpl. by rewrite E. Qed.

Lemma yields_unquoted : yields 1 wf_arg_ok unquoted.
Proof.
  apply yields_map. eapply yields_weaken; [apply yields_recognized|lia|intros ? _; apply wf_unquoted_arg].
  yields_text.
Qed.

Lemma yields_literal : yields 1 wf_arg_ok parse_literal.
Proof.
  apply yields_complete, yields_alt. repeat apply List.Forall_cons; [| | |apply List.Forall_nil].
  - eapply yields_weaken; [apply yields_double_quoted|lia|done].
  - eapply yields_weaken; [apply yields_single_quoted|lia|done].
  - apply yields_unquoted.
Qed.

Lemma yields_option : yields 1 wf_arg_ok parse_option.
Proof.
  intros s r a. unfold parse_option. intros (r' & o & E & E')%pbind_IOk. case_match; [done|].
  simplify_eq. eapply (yields_recognized _) in E as [? _]; [by split; [lia|]|]. yields_text.
Qed.

Lemma yields_command_literal : yields 1 (fun a => exists s, a = Literal s) parse_command_literal.
Proof.
  apply yields_map. eapply yields_weaken; [apply yields_complete, yields_take_while1|lia|eauto].
Qed.
End text.

(** ** Recursive parsers *)

Section recursive.
Context `{F64Text} `{NomLaws}.

Section arg.
Context (pa : parser CommandArg) (Hpa : yields 1 wf_arg_ok pa).

Lemma space0_rest s r a : space0 s = IOk r a -> (String.length r <= String.length s)%nat.
Proof. intros [? _]%yields_space0. lia. Qed.

Lemma strip_one_rest c s r :
  strip_prefix (String c EmptyString) s = Some r -> (S (String.length r) = String.length s)%nat.
Proof. intros E%strip_prefix_length. done. Qed.

Lemma list_literal_loop_yields fuel s items r a :
  Forall wf_arg_ok items -> list_literal_loop pa fuel s items = IOk r a ->
  (String.length r + 1 <= String.length s)%nat /\ wf_arg_ok a.
Proof.
  revert s items. induction fuel as [|fuel IH]; intros s items Hi; simpl; [done|].
  intros (r1 & w1 & E1%space0_rest & E)%pbind_IOk.
  case_match eqn:Es1; [apply strip_one_rest in Es1; simplify_eq; split; [lia|by apply forallb_Forall]|].
  apply pbind_IOk in E as (r2 & v & [? Hv]%Hpa & (r3 & w3 & E3%space0_rest & E)%pbind_IOk).
  assert (Hi' : Forall wf_arg_ok (items ++ [v])) by (apply Forall_app; split; [done|by repeat constructor]).
  case_match eqn:Es3.
  - apply strip_one_rest in Es3. apply pbind_IOk in E as (r4 & w4 & E4%space0_rest & E).
    case_match eqn:Es4.
    + apply strip_one_rest in Es4. simplify_eq. split; [lia|by apply forallb_Forall].
    + apply IH in E as [? ?]; [|done]. split; [lia|done].
  - apply pbind_IOk in E as (r4 & w4 & [? _]%yields_char & [= <- <-]).
    split; [lia|by apply forallb_Forall].
Qed.

Lemma yields_list_literal : yields 2 wf_arg_ok (parse_list_literal pa).
Proof.
  intros s r a. unfold parse_list_literal. intros (r1 & w1 & E1 & E)%pbind_IOk.
  eapply (yields_preceded 0 1 any any) in E1 as [? _]; [|yields_text..].
  apply list_literal_loop_yields in E as [? ?]; [|done]. split; [lia|done].
Qed.

Definition wf_entry (e : string * CommandArg) : Prop := wf_arg_ok e.2.

Lemma wf_map_literal entries : Forall wf_entry entries -> wf_arg_ok (MapLiteral entries).
Proof.
  intros He. unfold wf_arg_ok. simpl. apply forallb_Forall.
  eapply Forall_impl; [exact He|]. by intros [k v].
Qed.

Lemma map_literal_loop_yields fuel s entries r a :
  Forall wf_entry entries -> map_literal_loop pa fuel s entries = IOk r a ->
  (String.length r + 1 <= String.length s)%nat /\ wf_arg_ok a.
Proof.
  revert s entries. induction fuel as [|fuel IH]; intros s entries Hi; simpl; [done|].
  intros (r1 & w1 & E1%space0_rest & E)%pbind_IOk.
  case_match eqn:Es1; [apply strip_one_rest in Es1; simplify_eq; split; [lia|by apply wf_map_literal]|].
  apply pbind_IOk in E as (r2 & k & [? _]%yields_map_literal_key & E).
  apply pbind_IOk in E as (r2' & w2 & E2 & E).
  eapply (yields_preceded 0 1 any any) in E2 as [? _]; [|yields_text..].
  apply pbind_IOk in E as (r3 & v & [? Hv]%Hpa & (r3' & w3 & E3%space0_rest & E)%pbind_IOk).
  assert (Hi' : Forall wf_entry (entries ++ [(k, v)])) by (apply Forall_app; split; [done|by repeat constructor]).
  case_match eqn:Es3.
  - apply strip_one_rest in Es3. apply pbind_IOk in E as (r4 & w4 & E4%space0_rest & E).
    case_match eqn:Es4.
    + apply strip_one_rest in Es4. simplify_eq. split; [lia|by apply wf_map_literal].
    + apply IH in E as [? ?]; [|done]. split; [lia|done].
  - apply pbind_IOk in E as (r4 & w4 & [? _]%yields_char & [= <- <-]).
    split; [lia|by apply wf_map_literal].
Qed.

Lemma yields_map_literal : yields 2 wf_arg_ok (parse_map_literal pa).
Proof.
  intros s r a. unfold parse_map_literal. intros (r1 & w1 & E1 & E)%pbind_IOk.
  eapply (yields_preceded 0 1 any any) in E1 as [? _]; [|yields_text..].
  apply map_literal_loop_yields in E as [? ?]; [|done]. split; [lia|done].
Qed.

Lemma yields_args : yields 0 (Forall wf_arg_ok) (separated_list0 space1 (preceded space0 pa)).
Proof.
  eapply (yields_separated_list0 0 1 any); [yields_text|].
  eapply (yields_preceded 0 1 any); [yields_text|done].
Qed.

(** A command is never a group and never linked. *)
Definition wf_command_ok (e : Expression) : Prop :=
  wf_expr_ok e /\ exists name args, e = ECommand name args None.

Lemma yields_command : yields 1 wf_command_ok (parse_command pa).
Proof.
  intros s r e. unfold parse_command.
  intros (r1 & w1 & E1%space0_rest & (r2 & n & [? [w ->]]%yields_command_literal & E)%pbind_IOk)%pbind_IOk.
  apply pbind_IOk in E as (r3 & args & [? Ha]%yields_args & E). simpl in E. case_match; [done|].
  simplify_eq. split; [lia|]. split; [|unfold command_item; eauto].
  unfold wf_expr_ok. simpl. rewrite String.eqb_refl. simpl. by apply forallb_Forall.
Qed.

Lemma yields_command_subst : yields 3 wf_arg_ok (parse_command_subst pa).
Proof.
  intros s r a. unfold parse_command_subst. intros (r1 & w1 & [? _]%yields_tag & E)%pbind_IOk.
  case_match eqn:Em; [|done]. destruct p as [content remaining].
  apply match_paren_length in Em.
  apply pbind_IOk in E as (r2 & e & [_ [? (name & args & ->)]]%yields_command & E).
  case_match; [|done]. simplify_eq. simpl in *. split; [lia|done].
Qed.

Lemma finish_interpolated_yields s literal parts used r a :
  Forall wf_arg_ok parts -> (used = true -> 2 <= length parts)%nat ->
  finish_interpolated s literal parts used = IOk r a ->
  r = s /\ used = true /\ exists ps, a = append_parts ps /\ Forall wf_arg_ok ps.
Proof.
  intros Hp Hu. unfold finish_interpolated. destruct used; [|done]. simpl. specialize (Hu eq_refl).
  set (ps := if is_empty literal then parts else parts ++ [StringLiteral literal]).
  assert (Forall wf_arg_ok ps /\ 2 <= length ps)%nat as [? ?].
  { subst ps. destruct (is_empty literal); [done|].
    rewrite length_app. split; [apply Forall_app; split; [done|by repeat constructor]|simpl; lia]. }
  destruct ps as [|p1 [|p2 ps']]; simpl in *; [lia..|]. intros [= <- <-]. eauto.
Qed.

Lemma interpolated_loop_yields fuel s literal parts used r a :
  Forall wf_arg_ok parts -> (used = true -> 2 <= length parts)%nat ->
  interpolated_loop pa fuel s literal parts used = IOk r a ->
  (String.length r <= String.length s)%nat
  /\ (used = false -> String.length r < String.length s)%nat
  /\ exists ps, a = append_parts ps /\ Forall wf_arg_ok ps.
Proof.
  revert s literal parts used.
  induction fuel as [|fuel IH]; intros s literal parts used Hp Hu; simpl; [done|].
  destruct s as [|ch s].
  { intros (-> & -> & ?)%finish_interpolated_yields; [split_and!; [lia|done..]|done..]. }
  case_match.
  { intros (-> & -> & ?)%finish_interpolated_yields; [split_and!; [lia|done..]|done..]. }
  case_match eqn:Ec.
  - destruct (match_paren s 1) as [[inner remaining]|] eqn:Em; [|done].
    apply match_paren_length in Em. intros (ir & ia & [_ Hia]%Hpa & E)%pbind_IOk.
    case_match; [|done]. apply andb_prop in Ec as [_ Hdot].
    destruct literal as [|c0 lit]; [done|]. apply IH in E as (? & _ & ?).
    + simpl. repeat split; [lia|lia|done].
    + repeat (apply Forall_app; split); by repeat constructor.
    + intros _. simpl. rewrite !length_app. simpl. lia.
  - intros (? & ? & ?)%IH; [|done..]. simpl. repeat split; [lia|lia|done].
Qed.

Lemma interpolated_shape s r a :
  parse_interpolated_unquoted pa s = IOk r a ->
  (String.length r < String.length s)%nat /\ exists ps, a = append_parts ps /\ Forall wf_arg_ok ps.
Proof. intros (_ & ? & ?)%interpolated_loop_yields; [auto|done..]. Qed.

Lemma yields_interpolated : yields 1 wf_arg_ok (parse_interpolated_unquoted pa).
Proof. intros s r a (? & ps & -> & ?)%interpolated_shape. split; [lia|by apply wf_append_parts]. Qed.

Lemma yields_arg_alternatives : yields 1 wf_arg_ok (alt (arg_alternatives pa)).
Proof.
  apply yields_alt. repeat apply List.Forall_cons; [..|apply List.Forall_nil].
  - eapply yields_weaken; [apply yields_command_subst|lia|done].
  - eapply yields_weaken; [apply yields_var_braced|lia|done].
  - eapply yields_weaken; [apply yields_var_dollar|lia|done].
  - eapply yields_weaken; [apply yields_map_literal|lia|done].
  - eapply yields_weaken; [apply yields_list_literal|lia|done].
  - apply yields_interpolated.
  - apply yields_literal.
  - apply yields_option.
Qed.
End arg.

Lemma yields_parse_arg_fuel fuel : yields 1 wf_arg_ok (parse_arg_fuel fuel).
Proof.
  induction fuel as [|fuel IH]; [done|]. simpl.
  eapply yields_weaken; [eapply (yields_preceded 0 1 any wf_arg_ok); [yields_text|]|lia|done].
  by apply yields_arg_alternatives.
Qed.

Lemma yields_parse_arg : yields 1 wf_arg_ok parse_arg.
Proof. intros s r a. apply yields_parse_arg_fuel. Qed.

(** ** Expressions *)

Lemma yields_assign_key : yields 1 any parse_assign_key.
Proof.
  eapply yields_weaken; [eapply (yields_preceded 0 1 any any); [yields_text|]|lia|done].
  apply yields_alt. repeat apply List.Forall_cons; [| |yields_text|apply List.Forall_nil].
  - intros s r k (r' & a & E & E')%pbind_IOk. apply yields_var_braced in E as [? _].
    case_match; simplify_eq. split; [lia|done].
  - intros s r k (r' & a & E & E')%pbind_IOk. apply yields_var_dollar in E as [? _].
    case_match; simplify_eq. split; [lia|done].
Qed.

Lemma wf_assign kind key v :
  (forall a, v = Some a -> wf_arg_ok a) ->
  wf_command_ok (command_item "assign"
    (Literal (assign_kind_str kind) :: Literal key :: match v with Some v => [v] | None => [] end)).
Proof.
  intros Hv. split; [|unfold command_item; eauto].
  unfold wf_arg_ok, wf_expr_ok in *. destruct v as [v|].
  - pose proof (Hv v eq_refl) as Hw. destruct kind; simpl; by rewrite Hw.
  - by destruct kind.
Qed.

Lemma yields_assign : yields 1 wf_expr_ok parse_assign.
Proof.
  intros s r e. unfold parse_assign. intros (r1 & kind & E1 & E)%pbind_IOk.
  eapply (yields_opt 0 any) in E1 as [? _]; [|yields_text].
  apply pbind_IOk in E as (r2 & key & [? _]%yields_assign_key & E).
  apply pbind_IOk in E as (r3 & w & E3%space0_rest & (r4 & v & Ev & E)%pbind_IOk).
  assert ((String.length r4 <= String.length r3)%nat /\ forall a, v = Some a -> wf_arg_ok a) as [? Hv].
  { clear E. destruct (starts_with "=" r3); [|simplify_eq; split; [lia|done]].
    destruct (starts_with "==" r3); [done|].
    apply pbind_IOk in Ev as (r5 & c & [? _]%yields_char & (r6 & a & [? ?]%yields_parse_arg & ?)%pbind_IOk).
    simplify_eq. split; [lia|]. by intros ? [= <-]. }
  pose proof (wf_assign (default AsChain kind) key v Hv) as [Hwf _].
  destruct kind, v; simplify_eq; (split; [lia|done]).
Qed.

Lemma yields_comparison_sugar : yields 1 wf_expr_ok parse_comparison_sugar.
Proof.
  intros s r e. unfold parse_comparison_sugar. intros (r1 & a & [? Ha]%yields_parse_arg & E)%pbind_IOk.
  apply pbind_IOk in E as (r2 & op & E2 & E).
  eapply (yields_preceded 0 1 any any) in E2 as [? _]; [|yields_text..].
  apply pbind_IOk in E as (r3 & b & [? Hb]%yields_parse_arg & E).
  destruct (comparison_command op) as [name|]; [|done]. simplify_eq. split; [lia|].
  unfold wf_expr_ok. simpl. rewrite String.eqb_refl. simpl.
  case_match; simpl; rewrite Ha, Hb; done.
Qed.

Section chain.
Context (pe : parser ExpressionChain) (Hpe : yields 0 (fun es => wf_chain es = true) pe).

Lemma yields_group : yields 2 wf_expr_ok (parse_group pe).
Proof.
  intros s r e. unfold parse_group. intros (r1 & es & E1 & [= <- <-])%pbind_IOk.
  eapply (yields_preceded 0 2 any (fun es => wf_chain es = true)) in E1 as [? ?]; [|yields_text|].
  - split; [lia|done].
  - apply (yields_delimited 1 0 1 any _ any); [yields_text|apply Hpe|yields_text].
Qed.

Lemma yields_expression : yields 1 wf_expr_ok (parse_expression pe).
Proof.
  apply yields_alt. repeat apply List.Forall_cons; [..|apply List.Forall_nil].
  - apply yields_assign.
  - eapply yields_weaken; [apply yields_group|lia|done].
  - apply yields_comparison_sugar.
  - eapply yields_weaken; [apply yields_command, yields_parse_arg|lia|by intros ? [? _]].
Qed.

Lemma yields_operand : yields 1 (fun o => wf_operand o = true) (parse_operand pe).
Proof.
  intros s r o. unfold parse_operand. intros (r1 & nots & E1 & E)%pbind_IOk.
  eapply (yields_many0 1 any) in E1 as [? _]; [|yields_text].
  apply pbind_IOk in E as (r2 & e & [? He]%yields_expression & (r3 & post & E3 & [= <- <-])%pbind_IOk).
  eapply (yields_opt 1 (fun o => o = OpAnd \/ o = OpOr)) in E3 as [? Hpost].
  - split; [lia|]. unfold wf_operand, wf_operators. rewrite He, andb_true_r.
    assert (match post with None | Some OpAnd | Some OpOr => true | _ => false end = true) as ->.
    { destruct post as [o|]; [|done]. by destruct (Hpost o eq_refl) as [-> | ->]. }
    by destruct (Nat.odd _).
  - apply (yields_preceded 0 1 any); [yields_text|].
    apply yields_alt. repeat apply List.Forall_cons; [..|apply List.Forall_nil].
    + apply yields_map. eapply yields_weaken; [apply yields_tag|simpl; lia|auto].
    + apply yields_map. eapply yields_weaken; [apply yields_tag|simpl; lia|auto].
Qed.

Lemma yields_expressions_body :
  yields 0 (fun es => wf_chain es = true) (parse_expressions_body pe).
Proof.
  intros s r es. unfold parse_expressions_body. pose proof (trim_length s). case_match.
  - intros [= <- <-]. split; [lia|done].
  - intros (i & es' & E & E')%pbind_IOk.
    eapply yields_many0 in E as [? Hes]; [|apply yields_operand].
    destruct (missing_operator es') eqn:Em; [done|]. simplify_eq. split; [lia|].
    unfold wf_chain. rewrite Em. simpl. by apply forallb_Forall.
Qed.
End chain.

Lemma yields_parse_expressions_fuel fuel :
  yields 0 (fun es => wf_chain es = true) (parse_expressions_fuel fuel).
Proof. induction fuel as [|fuel IH]; [done|]. by apply yields_expressions_body. Qed.

Lemma yields_parse_expressions : yields 0 (fun es => wf_chain es = true) parse_expressions.
Proof. intros s r a. apply yields_parse_expressions_fuel. Qed.

Lemma yields_statements :
  yields 0 (fun ss => forallb (wf_statement wf_line) ss = true) parse_statements.
Proof.
  intros s r ss. unfold parse_statements. intros (r1 & groups & E & [= <- <-])%pbind_IOk.
  eapply (yields_separated_list0 0 0 any (fun es => wf_chain es = true)) in E as [? Hg].
  - split; [lia|]. apply forallb_forall. intros st (es & <- & [Hin Hne]%filter_In)%in_map_iff.
    rewrite Forall_forall in Hg. apply list_elem_of_In in Hin. specialize (Hg _ Hin).
    destruct es; [done|]. exact Hg.
  - eapply yields_weaken; [eapply (yields_preceded 0 1 any any)|simpl; lia|done]; yields_text.
  - eapply (yields_preceded 0 0 any); [yields_text|apply yields_parse_expressions].
Qed.
End recursive.
