(* ===== verification/ParserTotal.v ===== *)
(** * The block parser always answers

    The fuel of the recursive parsers is enough, no index is out of bounds and
    no [unreachable!] is reached: every text is parsed or refused.  Two runs of
    a recursive parser with enough fuel agree, so that it satisfies the
    recursive equation of the code. *)

From S2P Require Import Prelude Values Syntax State VarPath Nom Parser ParserFacts.

#[local] Arguments strip_prefix : simpl never.

(** ** Settled outcomes *)

(** The same settled outcome. *)
Definition same {A} (r r' : IResult A) : Prop := r = r' /\ settled r.

(** Two parsers with the same settled outcomes on the texts shorter than [n]. *)
Definition agree {A} (n : nat) (p q : parser A) : Prop :=
  forall s, (String.length s < n)%nat -> same (p s) (q s).

Lemma same_pbind {A B} (m m' : IResult A) (k k' : string -> A -> IResult B) :
  same m m' -> (forall r a, m = IOk r a -> same (k r a) (k' r a)) -> same (pbind m k) (pbind m' k').
Proof. intros [<- Hs] Hk. destruct m; simpl; try done. by apply Hk. Qed.

Lemma agree_le {A} n m (p q : parser A) : agree m p q -> (n <= m)%nat -> agree n p q.
Proof. intros Hp ? s ?. apply Hp. lia. Qed.

Lemma same_settled {A} (r : IResult A) : settled r -> same r r.
Proof. by split. Qed.

Lemma settles_agree {A} n (p : parser A) : settles p -> agree n p p.
Proof. intros Hp s _. by split. Qed.

Lemma settled_one_or_more c : settles (one_or_more c).
Proof. intros s. unfold one_or_more. by case_match. Qed.

Lemma settled_recast {A B} (r : IResult A) : settled r -> settled (recast r : IResult B).
Proof. by destruct r. Qed.

Section agree.
Context `{NomLaws}.

Lemma settles_space0 : settles space0.
Proof. intros s. by rewrite space0_law. Qed.
Lemma settles_space1 : settles space1.
Proof. intros s. rewrite space1_law. apply settled_one_or_more. Qed.
Lemma settles_alpha1 : settles alpha1.
Proof. intros s. rewrite alpha1_law. apply settled_one_or_more. Qed.
Lemma settles_alphanumeric1 : settles alphanumeric1.
Proof. intros s. rewrite alphanumeric1_law. apply settled_one_or_more. Qed.
Lemma settles_tag t : settles (tag t).
Proof. intros s. rewrite tag_law. by case_match. Qed.
Lemma settles_char c : settles (char c).
Proof. intros s. rewrite char_law. destruct s; [done|]. by case_match. Qed.
Lemma settles_is_not cs : settles (is_not cs).
Proof. intros s. rewrite is_not_law. apply settled_one_or_more. Qed.
Lemma settles_take_while1 c : settles (take_while1 c).
Proof. intros s. rewrite take_while1_law. case_match; [done|]. apply settled_one_or_more. Qed.

Lemma agree_map {A B} n (p q : parser A) (f : A -> B) : agree n p q -> agree n (map p f) (map q f).
Proof.
  intros Hp s Hs. rewrite !map_law. apply same_pbind; [by apply Hp|]. intros. by apply same_settled.
Qed.

Lemma agree_value {A B} n (p q : parser A) (b : B) :
  agree n p q -> agree n (value b p) (value b q).
Proof.
  intros Hp s Hs. rewrite !value_law. apply same_pbind; [by apply Hp|].
  intros. by apply same_settled.
Qed.

Lemma agree_opt {A} n (p q : parser A) : agree n p q -> agree n (opt p) (opt q).
Proof.
  intros Hp s Hs. rewrite !opt_law. destruct (Hp s Hs) as [<- Hst].
  destruct (p s) as [| [] | |]; done.
Qed.

Lemma agree_complete {A} n (p q : parser A) : agree n p q -> agree n (complete p) (complete q).
Proof.
  intros Hp s Hs. rewrite !complete_law. destruct (Hp s Hs) as [<- Hst].
  destruct (p s) as [| [] | |]; done.
Qed.

Lemma agree_recognize {A} n (p q : parser A) :
  agree n p q -> agree n (recognize p) (recognize q).
Proof.
  intros Hp s Hs. rewrite !recognize_law. apply same_pbind; [by apply Hp|].
  intros. by apply same_settled.
Qed.

Lemma agree_pair {A B} n (p p' : parser A) (q q' : parser B) :
  shrinks p -> agree n p p' -> agree n q q' -> agree n (pair p q) (pair p' q').
Proof.
  intros Hk Hp Hq s Hs. rewrite !pair_law. apply same_pbind; [by apply Hp|].
  intros r a E%Hk. apply same_pbind; [apply Hq; lia|]. intros. by apply same_settled.
Qed.

Lemma agree_preceded {A B} n (p p' : parser A) (q q' : parser B) :
  shrinks p -> agree n p p' -> agree n q q' -> agree n (preceded p q) (preceded p' q').
Proof.
  intros Hk Hp Hq s Hs. rewrite !preceded_law. apply same_pbind; [by apply Hp|].
  intros r a E%Hk. apply Hq; lia.
Qed.

Lemma agree_terminated {A B} n (p p' : parser A) (q q' : parser B) :
  shrinks p -> agree n p p' -> agree n q q' -> agree n (terminated p q) (terminated p' q').
Proof.
  intros Hk Hp Hq s Hs. rewrite !terminated_law. apply same_pbind; [by apply Hp|].
  intros r a E%Hk. apply same_pbind; [apply Hq; lia|]. intros. by apply same_settled.
Qed.

(** Behind an opening text, the middle parser only reads shorter texts. *)
Lemma agree_delimited {A B C} n (p : parser A) (q q' : parser B) (t : parser C) :
  consumes p -> shrinks q -> settles p -> agree n q q' -> settles t ->
  agree (S n) (delimited p q t) (delimited p q' t).
Proof.
  intros Hkp Hkq Hp Hq Ht s Hs. rewrite !delimited_law.
  apply same_pbind; [by apply same_settled|]. intros r a E%Hkp.
  apply same_pbind; [apply Hq; lia|]. intros r' b _.
  apply same_pbind; [by apply same_settled|]. intros. by apply same_settled.
Qed.

Lemma agree_alt {A} n (ps qs : list (parser A)) :
  Forall2 (agree n) ps qs -> agree n (alt ps) (alt qs).
Proof.
  induction 1 as [|p q ps qs Hp _ IH]; intros s Hs; [by rewrite alt_nil_law|].
  rewrite !alt_cons_law. destruct (Hp s Hs) as [<- Hst].
  destruct (p s) as [| [] | |]; try done. by apply IH.
Qed.

Lemma settles_alt {A} (ps : list (parser A)) : Forall settles ps -> settles (alt ps).
Proof.
  intros Hp s. apply (agree_alt (S (String.length s)) ps ps); [|lia].
  induction Hp; constructor; auto using settles_agree.
Qed.

Lemma agree_many0 {A} n (p q : parser A) :
  shrinks p -> shrinks q -> agree n p q -> agree n (many0 p) (many0 q).
Proof.
  intros Hkp Hkq Hp s. induction s as [s IH] using string_length_ind. intros Hs.
  rewrite !many0_law by done. destruct (Hp s Hs) as [<- Hst].
  destruct (p s) as [r a| [] | |] eqn:E; try done. case_match eqn:El; [done|].
  apply Nat.eqb_neq in El. apply Hkp in E. apply same_pbind; [apply IH; lia|].
  intros. by apply same_settled.
Qed.

Lemma agree_separated_list0 {A B} n (sep : parser A) (p q : parser B) :
  consumes sep -> settles sep -> shrinks p -> shrinks q -> agree n p q ->
  agree n (separated_list0 sep p) (separated_list0 sep q).
Proof.
  intros Hks Hs Hkp Hkq Hp s Hlt. rewrite !separated_list0_law by done.
  destruct (Hp s Hlt) as [<- Hst]. destruct (p s) as [r a| [] | |] eqn:E; try done.
  apply Hkp in E. apply same_pbind; [|intros; by apply same_settled].
  assert (Hsep : shrinks sep) by (intros s' r' a' E'%Hks; lia).
  apply (agree_many0 n); [| |by apply agree_preceded; [|apply settles_agree|]|lia].
  - intros s' r' a'. rewrite preceded_law. intros (r1 & a1 & E1%Hsep & E2%Hkp)%pbind_IOk. lia.
  - intros s' r' a'. rewrite preceded_law. intros (r1 & a1 & E1%Hsep & E2%Hkq)%pbind_IOk. lia.
Qed.

Lemma agree_settles {A} (p : parser A) : (forall n, agree n p p) -> settles p.
Proof. intros Hp s. apply (Hp (S (String.length s)) s). lia. Qed.

Lemma settles_map {A B} (p : parser A) (f : A -> B) : settles p -> settles (map p f).
Proof. intros. apply agree_settles. intros n. apply agree_map; try done; by apply settles_agree. Qed.
Lemma settles_value {A B} (p : parser A) (b : B) : settles p -> settles (value b p).
Proof. intros. apply agree_settles. intros n. apply agree_value; try done; by apply settles_agree. Qed.
Lemma settles_opt {A} (p : parser A) : settles p -> settles (opt p).
Proof. intros. apply agree_settles. intros n. apply agree_opt; try done; by apply settles_agree. Qed.
Lemma settles_complete {A} (p : parser A) : settles p -> settles (complete p).
Proof. intros. apply agree_settles. intros n. apply agree_complete; try done; by apply settles_agree. Qed.
Lemma settles_recognize {A} (p : parser A) : settles p -> settles (recognize p).
Proof. intros. apply agree_settles. intros n. apply agree_recognize; try done; by apply settles_agree. Qed.
Lemma settles_pair {A B} (p : parser A) (q : parser B) :
  shrinks p -> settles p -> settles q -> settles (pair p q).
Proof. intros. apply agree_settles. intros n. apply agree_pair; try done; by apply settles_agree. Qed.
Lemma settles_preceded {A B} (p : parser A) (q : parser B) :
  shrinks p -> settles p -> settles q -> settles (preceded p q).
Proof. intros. apply agree_settles. intros n. apply agree_preceded; try done; by apply settles_agree. Qed.
Lemma settles_terminated {A B} (p : parser A) (q : parser B) :
  shrinks p -> settles p -> settles q -> settles (terminated p q).
Proof. intros. apply agree_settles. intros n. apply agree_terminated; try done; by apply settles_agree. Qed.
Lemma settles_many0 {A} (p : parser A) : shrinks p -> settles p -> settles (many0 p).
Proof. intros. apply agree_settles. intros n. apply agree_many0; try done; by apply settles_agree. Qed.
Lemma settles_separated_list0 {A B} (sep : parser A) (p : parser B) :
  consumes sep -> settles sep -> shrinks p -> settles p -> settles (separated_list0 sep p).
Proof.
  intros. apply agree_settles. intros n. apply agree_separated_list0; try done; by apply settles_agree.
Qed.
Lemma settles_delimited {A B C} (p : parser A) (q : parser B) (t : parser C) :
  settles p -> settles q -> settles t -> settles (delimited p q t).
Proof.
  intros Hp Hq Ht s. rewrite delimited_law.
  pose proof (Hp s). destruct (p s) as [r a| | |]; try done. simpl.
  pose proof (Hq r). destruct (q r) as [r' b| | |]; try done. simpl.
  pose proof (Ht r'). by destruct (t r').
Qed.
End agree.

(** Solves [settles] for parsers made from the combinators. *)
Ltac settles_text :=
  lazymatch goal with
  | |- settles (alt _) =>
      apply settles_alt; repeat (apply List.Forall_cons; [settles_text|]); apply List.Forall_nil
  | |- settles space0 => apply settles_space0
  | |- settles space1 => apply settles_space1
  | |- settles alpha1 => apply settles_alpha1
  | |- settles alphanumeric1 => apply settles_alphanumeric1
  | |- settles (tag _) => apply settles_tag
  | |- settles (char _) => apply settles_char
  | |- settles (is_not _) => apply settles_is_not
  | |- settles (take_while1 _) => apply settles_take_while1
  | |- settles (map _ _) => apply settles_map; settles_text
  | |- settles (value _ _) => apply settles_value; settles_text
  | |- settles (opt _) => apply settles_opt; settles_text
  | |- settles (complete _) => apply settles_complete; settles_text
  | |- settles (recognize _) => apply settles_recognize; settles_text
  | |- settles (pair _ _) =>
      apply settles_pair; [apply (yields_shrinks 0 any); yields_text|settles_text|settles_text]
  | |- settles (preceded _ _) =>
      apply settles_preceded; [apply (yields_shrinks 0 any); yields_text|settles_text|settles_text]
  | |- settles (terminated _ _) =>
      apply settles_terminated; [apply (yields_shrinks 0 any); yields_text|settles_text|settles_text]
  | |- settles (many0 _) =>
      apply settles_many0; [apply (yields_shrinks 0 any); yields_text|settles_text]
  | |- settles (delimited _ _ _) => apply settles_delimited; settles_text
  | |- settles (escaped_transform _ _ _) => apply escaped_settles_law; settles_text
  | |- _ => try done
  end.

Section text.
Context `{F64Text} `{NomLaws}.

Lemma settles_map_literal_key : settles parse_map_literal_key.
Proof. unfold parse_map_literal_key, common_escapes. settles_text. Qed.

Lemma settles_var_dollar : settles parse_var_dollar.
Proof.
  intros s. unfold parse_var_dollar. pose proof (settles_char char_dollar s).
  destruct (char char_dollar s); try done. simpl. case_match; [done|].
  destruct (scan_var_dollar _ _) as [[? ?] ?]. by repeat case_match.
Qed.

Lemma settles_var_braced : settles parse_var_braced.
Proof.
  intros s. unfold parse_var_braced. pose proof (settles_tag "${" s).
  destruct (tag "${" s); try done. simpl. by repeat case_match.
Qed.

Lemma settles_literal : settles parse_literal.
Proof.
  unfold parse_literal. apply settles_complete, settles_alt.
  repeat (apply List.Forall_cons); [| | |apply List.Forall_nil].
  - unfold double_quoted. apply settles_delimited; [settles_text| |settles_text].
    apply settles_map, settles_many0.
    + eapply yields_shrinks, yields_quoted_part.
    + unfold common_escapes. simpl. apply settles_alt.
      apply List.Forall_cons; [apply settles_var_braced|].
      apply List.Forall_cons; [settles_text|apply List.Forall_nil].
  - unfold single_quoted. settles_text.
  - unfold unquoted. settles_text.
Qed.

Lemma settles_option : settles parse_option.
Proof.
  intros s. unfold parse_option. lazymatch goal with
  | |- settled (pbind (?p s) _) => assert (Hp : settles p) by settles_text
  end.
  specialize (Hp s). destruct (recognize _ s); try done. simpl. by case_match.
Qed.

Lemma settles_command_literal : settles parse_command_literal.
Proof. unfold parse_command_literal. settles_text. Qed.
End text.

(** ** Enough fuel for arguments *)

Section arg.
Context `{F64Text} `{NomLaws}.
Context (n : nat) (pa pa' : parser CommandArg).
Context (Hpa : yields 1 wf_arg_ok pa) (Hpa' : yields 1 wf_arg_ok pa') (Hag : agree n pa pa').

Lemma same_space0 {B} s (k k' : string -> string -> IResult B) :
  (forall r a, (String.length r <= String.length s)%nat -> same (k r a) (k' r a)) ->
  same (pbind (space0 s) k) (pbind (space0 s) k').
Proof.
  intros Hk. apply same_pbind; [apply same_settled, settles_space0|].
  intros r a E%space0_rest. by apply Hk.
Qed.

Lemma same_char {B} c s (k k' : string -> Ascii.ascii -> IResult B) :
  (forall r a, (String.length r < String.length s)%nat -> same (k r a) (k' r a)) ->
  same (pbind (char c s) k) (pbind (char c s) k').
Proof.
  intros Hk. apply same_pbind; [apply same_settled, settles_char|].
  intros r a [? _]%yields_char. apply Hk. lia.
Qed.

Lemma same_open {B} c s (k k' : string -> Ascii.ascii -> IResult B) :
  (forall r a, (String.length r < String.length s)%nat -> same (k r a) (k' r a)) ->
  same (pbind (preceded space0 (char c) s) k) (pbind (preceded space0 (char c) s) k').
Proof.
  intros Hk. assert (Hp : settles (preceded space0 (char c))) by settles_text.
  apply same_pbind; [apply same_settled, Hp|].
  intros r a E. eapply (yields_preceded 0 1 any any) in E as [? _]; [|yields_text..].
  apply Hk. lia.
Qed.

Lemma same_arg {B} s (k k' : string -> CommandArg -> IResult B) :
  (String.length s < n)%nat ->
  (forall r a, (String.length r < String.length s)%nat -> same (k r a) (k' r a)) ->
  same (pbind (pa s) k) (pbind (pa' s) k').
Proof.
  intros Hs Hk. apply same_pbind; [by apply Hag|]. intros r a [? _]%Hpa. apply Hk. lia.
Qed.

Lemma same_list_loop fuel s items :
  (String.length s < fuel)%nat -> (String.length s < n)%nat ->
  same (list_literal_loop pa fuel s items) (list_literal_loop pa' fuel s items).
Proof.
  revert s items. induction fuel as [|fuel IH]; intros s items Hf Hs; [lia|]. simpl.
  apply same_space0. intros r1 _ L1. case_match; [by apply same_settled|].
  apply same_arg; [lia|]. intros r2 v L2. apply same_space0. intros r3 _ L3.
  case_match eqn:E3.
  - apply strip_one_rest in E3. apply same_space0. intros r4 _ L4.
    case_match; [by apply same_settled|]. apply IH; lia.
  - apply same_char. intros. by apply same_settled.
Qed.

Lemma agree_list_literal : agree (S n) (parse_list_literal pa) (parse_list_literal pa').
Proof. intros s Hs. apply same_open. intros r _ Hr. apply same_list_loop; lia. Qed.

Lemma same_map_loop fuel s entries :
  (String.length s < fuel)%nat -> (String.length s < n)%nat ->
  same (map_literal_loop pa fuel s entries) (map_literal_loop pa' fuel s entries).
Proof.
  revert s entries. induction fuel as [|fuel IH]; intros s entries Hf Hs; [lia|]. simpl.
  apply same_space0. intros r1 _ L1. case_match; [by apply same_settled|].
  apply same_pbind; [apply same_settled, settles_map_literal_key|].
  intros r2 k [? _]%yields_map_literal_key. apply same_open. intros r2' _ L2'.
  apply same_arg; [lia|]. intros r2'' v L2. apply same_space0. intros r3 _ L3.
  case_match eqn:E3.
  - apply strip_one_rest in E3. apply same_space0. intros r4 _ L4.
    case_match; [by apply same_settled|]. apply IH; lia.
  - apply same_char. intros. by apply same_settled.
Qed.

Lemma agree_map_literal : agree (S n) (parse_map_literal pa) (parse_map_literal pa').
Proof. intros s Hs. apply same_open. intros r _ Hr. apply same_map_loop; lia. Qed.

Lemma yields_spaced_arg (p : parser CommandArg) :
  yields 1 wf_arg_ok p -> yields 1 wf_arg_ok (preceded space0 p).
Proof. intros Hp. apply (yields_preceded 0 1 any); [yields_text|done]. Qed.

Lemma agree_command : agree (S n) (parse_command pa) (parse_command pa').
Proof.
  intros s Hs. apply same_space0. intros r1 _ L1.
  apply same_pbind; [apply same_settled, settles_command_literal|].
  intros r2 name [? [w ->]]%yields_command_literal.
  apply same_pbind.
  - apply (agree_separated_list0 n); [| | | | |lia].
    + apply (yields_consumes 1 any); [apply yields_space1|lia].
    + apply settles_space1.
    + eapply yields_shrinks. by apply yields_spaced_arg.
    + eapply yields_shrinks. by apply yields_spaced_arg.
    + apply agree_preceded; [|apply settles_agree, settles_space0|done].
      apply (yields_shrinks 0 any), yields_space0.
  - intros r3 args _. simpl. case_match; by apply same_settled.
Qed.

Lemma agree_command_subst : agree (S n) (parse_command_subst pa) (parse_command_subst pa').
Proof.
  intros s Hs. unfold parse_command_subst.
  apply same_pbind; [apply same_settled, settles_tag|]. intros r1 _ [L1 _]%yields_tag.
  destruct (match_paren r1 1) as [[content remaining]|] eqn:Em; [|by apply same_settled].
  apply match_paren_length in Em. pose proof (trim_length content).
  apply same_pbind; [apply agree_command; simpl in *; lia|].
  intros r2 e _. case_match; by apply same_settled.
Qed.

Lemma settled_finish s literal parts used : settled (finish_interpolated s literal parts used).
Proof. unfold finish_interpolated. by repeat case_match. Qed.

Lemma same_interpolated_loop fuel s literal parts used :
  (String.length s < fuel)%nat -> (String.length s < S n)%nat ->
  same (interpolated_loop pa fuel s literal parts used)
       (interpolated_loop pa' fuel s literal parts used).
Proof.
  revert s literal parts used.
  induction fuel as [|fuel IH]; intros s literal parts used Hf Hs; [lia|]. simpl.
  destruct s as [|ch s]; [apply same_settled, settled_finish|]. simpl in *.
  case_match; [apply same_settled, settled_finish|]. case_match; [|apply IH; lia].
  destruct (match_paren s 1) as [[inner remaining]|] eqn:Em; [|by apply same_settled].
  apply match_paren_length in Em. pose proof (trim_length inner).
  apply same_arg; [lia|]. intros r a _. case_match; [|by apply same_settled]. apply IH; lia.
Qed.

Lemma agree_interpolated :
  agree (S n) (parse_interpolated_unquoted pa) (parse_interpolated_unquoted pa').
Proof. intros s Hs. apply same_interpolated_loop; lia. Qed.

Lemma agree_arg_alternatives :
  agree (S n) (preceded space0 (alt (arg_alternatives pa)))
              (preceded space0 (alt (arg_alternatives pa'))).
Proof.
  apply agree_preceded;
    [apply (yields_shrinks 0 any), yields_space0|apply settles_agree, settles_space0|].
  apply agree_alt. unfold arg_alternatives. repeat apply Forall2_cons_2; [..|apply Forall2_nil_2].
  - apply agree_command_subst.
  - apply settles_agree, settles_var_braced.
  - apply settles_agree, settles_var_dollar.
  - apply agree_map_literal.
  - apply agree_list_literal.
  - apply agree_interpolated.
  - apply settles_agree, settles_literal.
  - apply settles_agree, settles_option.
Qed.
End arg.

Section total.
Context `{F64Text} `{NomLaws}.

Lemma agree_parse_arg_fuel f g : (f <= g)%nat -> agree f (parse_arg_fuel f) (parse_arg_fuel g).
Proof.
  revert g. induction f as [|f IH]; intros [|g] Hfg; try lia; [intros s Hs; lia..|].
  simpl. apply agree_arg_alternatives; [apply yields_parse_arg_fuel..|]. apply IH. lia.
Qed.

Lemma parse_arg_enough f s :
  (String.length s < f)%nat -> same (parse_arg s) (parse_arg_fuel f s).
Proof. intros Hs. apply (agree_parse_arg_fuel (S (String.length s)) f); lia. Qed.

Lemma settles_parse_arg : settles parse_arg.
Proof. intros s. apply (parse_arg_enough (S (String.length s))). lia. Qed.

(** The recursive equation of [parse_arg]. *)
Lemma parse_arg_equation s :
  parse_arg s = preceded space0 (alt (arg_alternatives parse_arg)) s.
Proof.
  unfold parse_arg at 1. simpl.
  apply (agree_arg_alternatives (String.length s)); [apply yields_parse_arg_fuel|apply yields_parse_arg| |lia].
  intros t Ht. destruct (parse_arg_enough (String.length s) t Ht) as [E ?].
  split; [done|]. by rewrite <- E.
Qed.

(** ** Enough fuel for expressions *)

Lemma settled_pbind {A B} (m : IResult A) (k : string -> A -> IResult B) :
  settled m -> (forall r a, m = IOk r a -> settled (k r a)) -> settled (pbind m k).
Proof. intros Hm Hk. destruct m; simpl; try done. by apply Hk. Qed.

Lemma settles_assign_key : settles parse_assign_key.
Proof.
  unfold parse_assign_key. apply settles_preceded;
    [apply (yields_shrinks 0 any), yields_space0|apply settles_space0|].
  apply settles_alt. repeat apply List.Forall_cons; [| |settles_text|apply List.Forall_nil].
  - intros s. apply settled_pbind; [apply settles_var_braced|].
    by intros r a (v & -> & _)%var_braced_shape.
  - intros s. apply settled_pbind; [apply settles_var_dollar|].
    by intros r a (v & -> & _)%var_dollar_shape.
Qed.

Lemma settles_assign : settles parse_assign.
Proof.
  intros s. unfold parse_assign.
  lazymatch goal with
  | |- settled (pbind (?p s) _) => assert (Hp : settles p) by settles_text
  end.
  apply settled_pbind; [apply Hp|]. intros r1 kind _.
  apply settled_pbind; [apply settles_assign_key|]. intros r2 key _.
  apply settled_pbind; [apply settles_space0|]. intros r3 _ _.
  apply settled_pbind.
  - do 2 (case_match; [|done || idtac]); try done.
    apply settled_pbind; [apply settles_char|]. intros r4 _ _.
    apply settled_pbind; [apply settles_parse_arg|]. by intros.
  - intros r4 v _. by destruct kind, v.
Qed.

Lemma settles_comparison_sugar : settles parse_comparison_sugar.
Proof.
  intros s. unfold parse_comparison_sugar.
  apply settled_pbind; [apply settles_parse_arg|]. intros r1 a _.
  set (ops := preceded space0 _).
  assert (Hp : settles ops) by (subst ops; settles_text).
  assert (Hops : yields 0 (fun op => is_some (comparison_command op) = true) ops).
  { apply (yields_preceded 0 0 any); [yields_text|]. apply yields_alt.
    repeat apply List.Forall_cons; [..|apply List.Forall_nil];
      (eapply yields_weaken; [apply yields_tag|lia|by intros ? ->]). }
  apply settled_pbind; [apply Hp|]. intros r2 op [_ Hop]%Hops.
  apply settled_pbind; [apply settles_parse_arg|]. intros r3 b _.
  by destruct (comparison_command op).
Qed.

Section chain.
Context (n : nat) (pe pe' : parser ExpressionChain).
Context (Hpe : yields 0 (fun es => wf_chain es = true) pe).
Context (Hpe' : yields 0 (fun es => wf_chain es = true) pe') (Hag : agree n pe pe').

Lemma agree_group : agree (S n) (parse_group pe) (parse_group pe').
Proof.
  intros s Hs. unfold parse_group. apply same_pbind; [|intros; by apply same_settled].
  apply (agree_preceded (S n)); [| | |done].
  - apply (yields_shrinks 0 any), yields_space0.
  - apply settles_agree, settles_space0.
  - apply agree_delimited; [|by eapply yields_shrinks|settles_text|done|settles_text].
    apply (yields_consumes 1 any); [yields_text|lia].
Qed.

Lemma settles_command : settles (parse_command parse_arg).
Proof.
  apply agree_settles. intros m. eapply agree_le; [apply (agree_command m)|lia].
  - apply yields_parse_arg.
  - apply yields_parse_arg.
  - apply settles_agree, settles_parse_arg.
Qed.

Lemma agree_expression : agree (S n) (parse_expression pe) (parse_expression pe').
Proof.
  apply agree_alt. repeat apply Forall2_cons_2; [..|apply Forall2_nil_2].
  - apply settles_agree, settles_assign.
  - apply agree_group.
  - apply settles_agree, settles_comparison_sugar.
  - apply settles_agree, settles_command.
Qed.

Lemma agree_operand : agree (S n) (parse_operand pe) (parse_operand pe').
Proof.
  intros s Hs. unfold parse_operand.
  set (bangs := many0 _). assert (Hb : settles bangs) by (subst bangs; settles_text).
  assert (Hb' : yields 0 any bangs) by (subst bangs; yields_text).
  apply same_pbind; [apply same_settled, Hb|]. intros r1 nots [? _]%Hb'.
  apply same_pbind; [apply agree_expression; lia|]. intros r2 e _.
  set (post := opt _). assert (Hp : settles post) by (subst post; settles_text).
  apply same_pbind; [apply same_settled, Hp|]. intros. by apply same_settled.
Qed.

Lemma agree_expressions_body :
  agree (S n) (parse_expressions_body pe) (parse_expressions_body pe').
Proof.
  intros s Hs. unfold parse_expressions_body. pose proof (trim_length s).
  case_match; [by apply same_settled|].
  apply same_pbind; [|intros; case_match; by apply same_settled].
  apply (agree_many0 (S n)); [| |apply agree_operand|lia].
  - eapply yields_shrinks. by apply yields_operand.
  - eapply yields_shrinks. by apply yields_operand.
Qed.
End chain.

Lemma agree_parse_expressions_fuel f g :
  (f <= g)%nat -> agree f (parse_expressions_fuel f) (parse_expressions_fuel g).
Proof.
  revert g. induction f as [|f IH]; intros [|g] Hfg; try lia; [intros s Hs; lia..|].
  simpl. apply agree_expressions_body; [apply yields_parse_expressions_fuel..|]. apply IH. lia.
Qed.

Lemma parse_expressions_enough f s :
  (String.length s < f)%nat -> same (parse_expressions s) (parse_expressions_fuel f s).
Proof. intros Hs. apply (agree_parse_expressions_fuel (S (String.length s)) f); lia. Qed.

Lemma settles_parse_expressions : settles parse_expressions.
Proof. intros s. apply (parse_expressions_enough (S (String.length s))). lia. Qed.

(** The recursive equation of [parse_expressions]. *)
Lemma parse_expressions_equation s :
  parse_expressions s = parse_expressions_body parse_expressions s.
Proof.
  unfold parse_expressions at 1. simpl.
  apply (agree_expressions_body (String.length s));
    [apply yields_parse_expressions_fuel|apply yields_parse_expressions| |lia].
  intros t Ht. destruct (parse_expressions_enough (String.length s) t Ht) as [E ?].
  split; [done|]. by rewrite <- E.
Qed.

Lemma settles_statements : settles parse_statements.
Proof.
  intros s. unfold parse_statements. apply settled_pbind; [|by intros].
  apply settles_separated_list0.
  - apply (yields_consumes 1 any); [yields_text|lia].
  - settles_text.
  - apply (yields_shrinks 0 (fun es => wf_chain es = true)).
    apply (yields_preceded 0 0 any); [yields_text|apply yields_parse_expressions].
  - apply settles_preceded.
    + apply (yields_shrinks 0 any), yields_space0.
    + apply settles_space0.
    + apply settles_parse_expressions.
Qed.
End total.
