(* ===== verification/BlockFacts.v ===== *)
(** * Theorems on parsed blocks

    [BlockParser::parse] answers for every text, and a block it accepts has
    the shape [wf_block].  Its argument parser discharges the interface that
    the evaluation of variables relies on. *)

From S2P Require Import Prelude Values Syntax State VarPath Nom Parser.
From S2P Require Import ParserFacts ParserTotal.

(** ** Outcomes of the parsers of lines *)

(** A value in [Q] or an error: neither a panic nor the end of the fuel. *)
Definition finishes {A} (Q : A -> Prop) (o : Outcome A) : Prop :=
  match o with Done a => Q a | Fail _ => True | _ => False end.

Lemma finishes_obind {A B} (P : A -> Prop) (Q : B -> Prop) m (k : A -> Outcome B) :
  finishes P m -> (forall a, P a -> finishes Q (k a)) -> finishes Q (obind m k).
Proof. intros Hm Hk. destruct m; simpl; try done. by apply Hk. Qed.

Lemma finishes_refuse {B} (Q : B -> Prop) b msg (k : unit -> Outcome B) :
  (b = false -> finishes Q (k tt)) -> finishes Q (obind (refuse b msg) k).
Proof. intros Hk. destruct b; simpl; [done|]. by apply Hk. Qed.

Lemma finishes_or_fail {A B} (Q : B -> Prop) msg o (k : A -> Outcome B) :
  (forall a, o = Some a -> finishes Q (k a)) -> finishes Q (obind (or_fail msg o) k).
Proof. intros Hk. destruct o; simpl; [|done]. by apply Hk. Qed.

Lemma finishes_parsed {A} k (P : A -> Prop) msg (p : parser A) s :
  settles p -> yields k P p -> finishes (fun x => P x.2) (parsed msg (p s)).
Proof.
  intros Hs Hy. pose proof (Hs s). destruct (p s) as [r a| | |] eqn:E; try done.
  by apply Hy in E as [_ ?].
Qed.

Section lines.
Context `{F64Text} `{NomLaws}.

Lemma parse_line_finishes l : finishes (fun l => wf_line l = true) (parse_line l).
Proof.
  unfold parse_line. case_match; [done|].
  eapply finishes_obind; [eapply finishes_parsed; [apply settles_statements|apply yields_statements]|].
  intros [rest ss] Hss. apply finishes_refuse. intros _. done.
Qed.

Lemma parse_if_condition_finishes l kw :
  finishes (fun es => nonempty es = true /\ wf_chain es = true) (parse_if_condition l kw).
Proof.
  unfold parse_if_condition. do 2 (apply finishes_or_fail; intros ? _).
  apply finishes_refuse. intros _.
  eapply finishes_obind;
    [eapply finishes_parsed; [apply settles_parse_expressions|apply yields_parse_expressions]|].
  intros [rest es] Hes. do 2 (apply finishes_refuse; intros ?). simpl. by destruct es.
Qed.

Lemma parse_arg_finishes msg s : finishes (fun x => wf_arg_ok x.2) (parsed msg (parse_arg s)).
Proof. eapply finishes_parsed; [apply settles_parse_arg|apply yields_parse_arg]. Qed.

Lemma parse_for_header_finishes l :
  finishes (fun '(k, v, it) =>
    is_valid_loop_var_name k = true
    /\ opt_forallb (fun v => is_valid_loop_var_name v && distinct2 v k) v = true
    /\ wf_arg_ok it) (parse_for_header l).
Proof.
  unfold parse_for_header. do 2 (apply finishes_or_fail; intros ? _).
  apply finishes_refuse. intros _. apply finishes_or_fail. intros [vars it] _.
  apply finishes_refuse. intros _. apply finishes_refuse. intros Hv.
  destruct (List.map trim _) as [|k vs]; [done|]. cbn [obind]. cbn [obind].
  apply finishes_refuse. intros Hk%negb_false_iff.
  apply (finishes_obind (fun v => opt_forallb (fun v => is_valid_loop_var_name v && distinct2 v k) v = true)).
  - destruct vs as [|v [|]]; try done. apply finishes_refuse. intros Hval%negb_false_iff.
    apply finishes_refuse. intros Hne. simpl. unfold distinct2. by rewrite Hval, Hne.
  - intros v Hvar. eapply finishes_obind; [apply parse_arg_finishes|]. intros [rest arg] Harg.
    by apply finishes_refuse.
Qed.

Lemma parse_case_header_finishes l :
  finishes (fun '(subject, binding) =>
    match subject, binding with
    | None, None => True
    | Some a, Some v => wf_arg_ok a /\ is_valid_loop_var_name v = true
    | _, _ => False
    end) (parse_case_header l).
Proof.
  unfold parse_case_header. do 2 (apply finishes_or_fail; intros ? _). case_match; [done|].
  eapply finishes_obind; [apply parse_arg_finishes|]. intros [rest arg] Harg.
  apply finishes_or_fail. intros b _. apply finishes_refuse. by intros ?%negb_false_iff.
Qed.

Lemma parse_match_result_command_finishes l :
  finishes (fun e => match e with ECommand _ _ _ => wf_expr_ok e | EGroup _ => False end)
    (parse_match_result_command l).
Proof.
  unfold parse_match_result_command. apply finishes_or_fail. intros ? _.
  do 2 (apply finishes_refuse; intros _).
  eapply finishes_obind; [apply parse_arg_finishes|]. intros [rest arg] Harg.
  apply finishes_refuse. intros _. destruct arg as [| | | | | |e]; try done. by destruct e.
Qed.

Lemma parse_branch_binding_finishes l kw :
  finishes (fun v => is_valid_loop_var_name v = true) (parse_match_result_branch_binding l kw).
Proof.
  unfold parse_match_result_branch_binding.
  eapply (finishes_obind (fun _ => True)); [unfold branch_header_body; by apply finishes_or_fail|].
  intros v _. apply finishes_refuse. by intros ?%negb_false_iff.
Qed.

Lemma parse_control_binding_finishes l :
  finishes (fun '(a, f, v) =>
    forallb is_valid_loop_var_name [a; f; v] && distinct2 a f && distinct2 a v && distinct2 f v = true)
    (parse_match_result_control_binding l).
Proof.
  unfold parse_match_result_control_binding.
  eapply (finishes_obind (fun _ => True)); [unfold branch_header_body; by apply finishes_or_fail|].
  intros body _. destruct (List.map trim _) as [|a [|f [|v [|]]]]; try done.
  apply finishes_refuse. intros Hval%negb_false_iff. apply finishes_refuse. intros Hne.
  unfold finishes. rewrite Hval. unfold distinct2. by destruct (String.eqb a f), (String.eqb a v), (String.eqb f v).
Qed.

(** ** Statements over several lines *)

(** What [parse_lines] answers from [index]: well-formed lines, and a later
    index, at the end or at a keyword that stopped it. *)
Definition lines_post (lines : list string) (index : nat) (stop : bool) (x : list Line * nat) : Prop :=
  let '(ls, j) := x in
  forallb wf_line ls = true
  /\ (index <= j)%nat
  /\ ((index <= length lines)%nat -> (j <= length lines)%nat)
  /\ (forall l, lines !! j = Some l -> stop = true /\ line_control_keyword (trim l) <> None).

(** A statement that starts at [index] ends behind it. *)
Definition statement_post (lines : list string) (index : nat) (x : Line * nat) : Prop :=
  let '(l, j) := x in wf_line l = true /\ (index < j <= length lines)%nat.

Section statements.
Context (lines : list string) (pl : nat -> bool -> Outcome (list Line * nat)) (m : nat).
Context (Hpl : forall i stop, (m <= i)%nat -> finishes (lines_post lines i stop) (pl i stop)).

Lemma line_at_finishes i : (i < length lines)%nat ->
  exists l, lines !! i = Some l /\ line_at lines i = Done (trim l).
Proof.
  intros [l Hl]%lookup_lt_is_Some_2. exists l. split; [done|]. unfold line_at. by rewrite Hl.
Qed.

Lemma ends_at_lt i : ends_at lines i = true -> (i < length lines)%nat.
Proof. unfold ends_at. case_match eqn:E; [|done]. intros _. by eapply lookup_lt_Some. Qed.

Lemma wf_branches_snoc bs c ls els :
  forallb (wf_branch wf_line) bs = true -> nonempty c = true -> wf_chain c = true ->
  forallb wf_line ls = true -> opt_forallb (forallb wf_line) els = true ->
  wf_branches wf_line (bs ++ [mkIfBranch c ls]) els = true.
Proof.
  intros Hbs Hc Hw Hls Hels. unfold wf_branches. rewrite forallb_app, Hbs, Hels. simpl.
  unfold wf_branch. simpl. rewrite Hc, Hw, Hls. by destruct bs.
Qed.

Lemma branches_from_finishes kw keyword fuel condition cursor bs :
  kw KwElse = false -> kw KwEnd = false ->
  (length lines < fuel + cursor)%nat -> (m <= cursor <= length lines)%nat ->
  nonempty condition = true -> wf_chain condition = true ->
  forallb (wf_branch wf_line) bs = true ->
  finishes (fun '(bs, els, j) =>
    wf_branches wf_line bs els = true /\ (cursor < j <= length lines)%nat)
    (branches_from lines pl kw keyword fuel condition cursor bs).
Proof.
  intros Hk1 Hk2. revert condition cursor bs.
  induction fuel as [|fuel IH]; intros condition cursor bs Hf Hm Hc Hw Hbs; [lia|]. simpl.
  eapply finishes_obind; [apply Hpl; lia|]. intros [ls j] (Hls & Hj & Hjle & Hkw).
  apply finishes_refuse. intros Hlt%Nat.leb_gt.
  destruct (line_at_finishes j Hlt) as (l & Hl & ->). simpl.
  destruct (Hkw l Hl) as [_ Hnone].
  assert (Hrec : forall k : bool, finishes (fun '(bs, els, j) =>
    wf_branches wf_line bs els = true /\ (cursor < j <= length lines)%nat)
    (if k then obind (parse_if_condition (trim l) keyword) (fun c =>
       branches_from lines pl kw keyword fuel c (S j) (bs ++ [mkIfBranch condition ls]))
     else Fail "Unexpected control keyword")).
  { intros [|]; [|done]. eapply finishes_obind; [apply parse_if_condition_finishes|].
    intros c [Hc' Hw']. assert (forallb (wf_branch wf_line) (bs ++ [mkIfBranch condition ls]) = true).
    { rewrite forallb_app, Hbs. simpl. unfold wf_branch. simpl. by rewrite Hc, Hw, Hls. }
    pose proof (IH c (S j) (bs ++ [mkIfBranch condition ls])) as IH'.
    destruct (branches_from _ _ _ _ _ c _ _) as [[[bs' els'] j']| | |]; simpl in *;
      [destruct IH'; [lia|lia|done..|split; [done|lia]]|done|apply IH'; (done || lia)..]. }
  destruct (line_control_keyword (trim l)) as [k|]; [|done].
  destruct k; try apply Hrec.
  - eapply finishes_obind; [apply Hpl; lia|]. intros [els e] (Hels & He & Hele & _).
    apply finishes_refuse. intros Hend%negb_false_iff%ends_at_lt. simpl.
    split; [by apply wf_branches_snoc|lia].
  - simpl. split; [by apply wf_branches_snoc|lia].
Qed.

Lemma wf_line_single src s : wf_statement wf_line s = true -> wf_line (mkLine src [s]) = true.
Proof. intros Hs. change (wf_statement wf_line s && true = true). by rewrite Hs. Qed.

Context (index : nat) (Hindex : (index < length lines)%nat) (Hm : (m <= S index)%nat).

Lemma parse_if_finishes : finishes (statement_post lines index) (parse_if_statement lines pl index).
Proof.
  unfold parse_if_statement. destruct (line_at_finishes index Hindex) as (l & Hl & ->). cbn [obind].
  eapply finishes_obind; [apply parse_if_condition_finishes|]. intros c [Hc Hw].
  eapply finishes_obind; [apply branches_from_finishes; (done || lia)|].
  intros [[bs els] j] [Hbs Hj]. split; [|lia]. apply wf_line_single. exact Hbs.
Qed.

Lemma parse_case_finishes :
  finishes (statement_post lines index) (parse_case_statement lines pl index).
Proof.
  unfold parse_case_statement. destruct (line_at_finishes index Hindex) as (l & Hl & ->). cbn [obind].
  eapply finishes_obind; [apply parse_case_header_finishes|]. intros [subject binding] Hh.
  apply finishes_refuse. intros Hlt%Nat.leb_gt.
  destruct (line_at_finishes (S index) Hlt) as (l' & Hl' & ->). cbn [obind].
  eapply (finishes_obind (fun es => nonempty es = true /\ wf_chain es = true)).
  { repeat case_match; try done; apply parse_if_condition_finishes. }
  intros c [Hc Hw].
  eapply finishes_obind; [apply branches_from_finishes; (done || lia)|].
  intros [[bs els] j] [Hbs Hj]. split; [|lia]. apply wf_line_single.
  cbn -[wf_branches wf_arg wf_line is_valid_loop_var_name]. rewrite Hbs, andb_true_r. destruct subject, binding; try done. by destruct Hh as [-> ->].
Qed.

Lemma parse_for_finishes :
  finishes (statement_post lines index) (parse_for_statement lines pl index).
Proof.
  unfold parse_for_statement. destruct (line_at_finishes index Hindex) as (l & Hl & ->). cbn [obind].
  eapply finishes_obind; [apply parse_for_header_finishes|]. intros [[k v] it] (Hk & Hv & Hit).
  eapply finishes_obind; [apply Hpl; lia|]. intros [ls j] (Hls & Hj & _ & _).
  apply finishes_refuse. intros Hend%negb_false_iff%ends_at_lt. split; [|lia].
  apply wf_line_single. cbn -[forallb opt_forallb wf_arg wf_line is_valid_loop_var_name].
  by rewrite Hk, Hv, Hit, Hls.
Qed.

(** A [match-result] under construction. *)
Definition wf_binding (b : MatchResultBranch Line) : bool :=
  is_valid_loop_var_name (mr_binding_var b) && forallb wf_line (mr_lines b).
Definition wf_control (b : MatchResultControlBranch Line) : bool :=
  forallb is_valid_loop_var_name [mc_action_var b; mc_from_var b; mc_value_var b]
  && distinct2 (mc_action_var b) (mc_from_var b) && distinct2 (mc_action_var b) (mc_value_var b)
  && distinct2 (mc_from_var b) (mc_value_var b) && forallb wf_line (mc_lines b).

Definition wf_partial (saw : bool) (s : MatchResultStatement Line) : Prop :=
  match mr_command s with ECommand _ _ _ => wf_expr_ok (mr_command s) | EGroup _ => False end
  /\ (saw = true -> is_some (ok_branch s) || is_some (err_branch s) || is_some (control_branch s) = true)
  /\ opt_forallb wf_binding (ok_branch s) = true
  /\ opt_forallb wf_binding (err_branch s) = true
  /\ opt_forallb wf_control (control_branch s) = true.

Lemma wf_partial_done s : wf_partial true s -> wf_statement wf_line (new_match_result s) = true.
Proof.
  intros (Hc & Hs & H1' & H2' & H3').
  change (match mr_command s with ECommand _ _ _ => wf_expr (mr_command s) | EGroup _ => false end
      && (is_some (ok_branch s) || is_some (err_branch s) || is_some (control_branch s))
      && opt_forallb wf_binding (ok_branch s) && opt_forallb wf_binding (err_branch s)
      && opt_forallb wf_control (control_branch s) = true).
  rewrite H1', H2', H3', (Hs eq_refl), !andb_true_r.
  destruct (mr_command s); [exact Hc|done].
Qed.

Lemma match_result_from_finishes fuel cursor s saw :
  (length lines < fuel + cursor)%nat -> (m <= S cursor)%nat -> (cursor <= length lines)%nat ->
  wf_partial saw s ->
  finishes (fun '(s, j) => wf_partial true s /\ (cursor < j <= length lines)%nat)
    (match_result_from lines pl fuel cursor s saw).
Proof.
  revert cursor s saw. induction fuel as [|fuel IH]; intros cursor s saw Hf Hc Hle Hs; [lia|].
  assert (Hnext : forall (f : list Line -> MatchResultStatement Line),
    (forall ls, forallb wf_line ls = true -> wf_partial true (f ls)) -> (cursor < length lines)%nat ->
    finishes (fun '(s, j) => wf_partial true s /\ (cursor < j <= length lines)%nat)
      (obind (pl (S cursor) true) (fun '(ls, next) =>
         match_result_from lines pl fuel next (f ls) true))).
  { intros f Hf' Hlt. eapply finishes_obind; [apply Hpl; lia|].
    intros [ls next] (Hls & Hn & Hnle & _).
    pose proof (IH next (f ls) true ltac:(lia) ltac:(lia) ltac:(lia) (Hf' _ Hls)) as IH'.
    destruct (match_result_from _ _ _ _ _ _) as [[s' j]| | |]; simpl in *; try done.
    destruct IH'. split; [done|lia]. }
  simpl. apply finishes_refuse. intros Hlt%Nat.leb_gt.
  destruct (line_at_finishes cursor Hlt) as (l & Hl & ->). cbn [obind].
  destruct Hs as (Hcmd & Hsaw & Hok & Herr & Hctl).
  destruct (line_control_keyword (trim l)) as [[]|]; try done.
  - apply finishes_refuse. intros ->%negb_false_iff. simpl. split; [by repeat split|lia].
  - apply finishes_refuse. intros _.
    eapply finishes_obind; [apply parse_branch_binding_finishes|]. intros v Hv.
    apply (Hnext (fun ls => mkMatchResultStatement _ (Some (mkMatchResultBranch v ls)) _ _)); [|done].
    intros ls Hls. split_and!; try done. simpl. unfold wf_binding. simpl. by rewrite Hv.
  - apply finishes_refuse. intros _.
    eapply finishes_obind; [apply parse_branch_binding_finishes|]. intros v Hv.
    apply (Hnext (fun ls => mkMatchResultStatement _ _ (Some (mkMatchResultBranch v ls)) _)); [|done].
    intros ls Hls. split_and!; try done.
    + intros _. simpl. by rewrite orb_true_r.
    + simpl. unfold wf_binding. simpl. by rewrite Hv.
  - apply finishes_refuse. intros _.
    eapply finishes_obind; [apply parse_control_binding_finishes|]. intros [[a f] v] Hv.
    apply (Hnext (fun ls => mkMatchResultStatement _ _ _ (Some (mkMatchResultControlBranch a f v ls)))); [|done].
    intros ls Hls. split_and!; try done.
    + intros _. simpl. by rewrite !orb_true_r.
    + unfold opt_forallb, wf_control. cbn [control_branch mc_action_var mc_from_var mc_value_var mc_lines].
      by rewrite Hv, Hls.
Qed.

Lemma parse_match_result_finishes :
  finishes (statement_post lines index) (parse_match_result_statement lines pl index).
Proof.
  unfold parse_match_result_statement.
  destruct (line_at_finishes index Hindex) as (l & Hl & ->). cbn [obind].
  eapply finishes_obind; [apply parse_match_result_command_finishes|]. intros cmd Hcmd.
  eapply finishes_obind; [apply match_result_from_finishes; [lia..|]|].
  - by repeat split.
  - intros [s j] [Hs Hj]. split; [|lia]. by apply wf_line_single, wf_partial_done.
Qed.

Lemma parse_statement_at_finishes line :
  finishes (statement_post lines index) (parse_statement_at lines pl index line).
Proof.
  unfold parse_statement_at. repeat case_match.
  - apply parse_if_finishes.
  - apply parse_case_finishes.
  - apply parse_for_finishes.
  - apply parse_match_result_finishes.
  - eapply finishes_obind; [apply parse_line_finishes|]. intros l Hl. split; [done|lia].
Qed.
End statements.

Lemma parse_lines_finishes lines fuel index stop :
  (length lines - index < fuel)%nat ->
  finishes (lines_post lines index stop) (parse_lines lines fuel index stop).
Proof.
  revert index stop. induction fuel as [|fuel IH]; intros index stop Hf; [lia|]. simpl.
  destruct (lines !! index) as [l|] eqn:El.
  2: { simpl. split_and!; [done|lia|lia|]. intros l El'. congruence. }
  pose proof (lookup_lt_Some _ _ _ El) as Hlt.
  destruct (line_control_keyword (trim l)) as [k|] eqn:Ek.
  { destruct stop; [|done]. simpl. split_and!; [done|lia|lia|].
    intros l' El'. rewrite El in El'. injection El' as <-. by rewrite Ek. }
  eapply finishes_obind; [eapply (parse_statement_at_finishes _ _ (S index))|].
  - intros i st Hi. apply IH. lia.
  - done.
  - lia.
  - intros [l' j] [Hl' Hj]. eapply finishes_obind; [apply IH; lia|].
    intros [ls j'] (Hls & Hj' & Hle & Hkw). unfold finishes, lines_post.
    split_and!; [|lia|lia|done]. change (wf_line l' && forallb wf_line ls = true).
    by rewrite Hl', Hls.
Qed.

Lemma parse_block_finishes id text : finishes (fun b => wf_block b = true) (parse_block id text).
Proof.
  unfold parse_block. destruct (split_lines text) as [|l ls]; [done|].
  eapply finishes_obind; [apply parse_lines_finishes; lia|]. intros [parsed j] (Hp & _).
  apply finishes_refuse. intros _. exact Hp.
Qed.

(** C5: the block parser answers every text with a block or an error: its
    recursion ends, no line is read out of bounds, and none of its
    [unreachable!] is reached. *)
Theorem parse_block_total id text :
  (exists b, parse_block id text = Done b) \/ (exists e, parse_block id text = Fail e).
Proof.
  pose proof (parse_block_finishes id text) as Hf.
  destruct (parse_block id text); [eauto|eauto|done|done].
Qed.

(** C6: a block the parser accepts is well formed: every statement has one form;
    only the last operand of a chain may lack an operator and the operators are
    where the interpreter looks for them; every command carries its own name and
    is not linked yet; conditions are not empty; a [match-result] has a branch;
    the names bound by [for], [case] and [match-result] are valid and distinct. *)
Theorem parse_block_wf id text b : parse_block id text = Done b -> wf_block b = true.
Proof. intros E. pose proof (parse_block_finishes id text) as Hf. by rewrite E in Hf. Qed.

(** ** Default expressions *)

(** Neither a collection nor a variable as long as the text. *)
Definition short_arg (n : nat) (a : CommandArg) : Prop :=
  match a with
  | Var v => (String.length v < n)%nat
  | ListLiteral _ | MapLiteral _ => False
  | _ => True
  end.

Lemma many0_bounded {A} (p : parser A) (Q : A -> Prop) s r l :
  shrinks p ->
  (forall s' r' a, (String.length s' <= String.length s)%nat -> p s' = IOk r' a -> Q a) ->
  many0 p s = IOk r l -> Forall Q l.
Proof.
  intros Hk. revert r l. induction s as [s IH] using string_length_ind. intros r l HQ.
  rewrite many0_law by done. destruct (p s) as [r' a|[]| |] eqn:E; try done.
  - case_match eqn:El; [done|]. apply Nat.eqb_neq in El. pose proof (Hk _ _ _ E).
    intros (r2 & l2 & E2 & [= <- <-])%pbind_IOk. constructor; [exact (HQ s _ _ ltac:(lia) E)|].
    eapply IH in E2; [done|lia|]. intros s' r'' a'' ?. apply HQ. lia.
  - intros [= <- <-]. constructor.
Qed.

Lemma short_quoted_arg n args : Forall (short_arg n) args -> short_arg n (quoted_arg args).
Proof.
  intros Ha. unfold quoted_arg.
  assert (Hf : Forall (short_arg n) (List.filter nonempty_part args)).
  { apply Forall_forall. intros a Hin%list_elem_of_In. apply filter_In in Hin as [Hin _].
    rewrite Forall_forall in Ha. by apply Ha, list_elem_of_In. }
  destruct (List.filter nonempty_part args) as [|a [|b l]]; [done| |done]. by inversion Hf.
Qed.

Lemma short_double_quoted s r a : double_quoted s = IOk r a -> short_arg (String.length s) a.
Proof.
  unfold double_quoted. rewrite delimited_law.
  intros (r1 & c & [L1 _]%yields_char & (r2 & b & E2 & (r3 & d & _ & [= <- <-])%pbind_IOk)%pbind_IOk)%pbind_IOk.
  rewrite map_law in E2. apply pbind_IOk in E2 as (r2' & args & E2 & [= <- <-]).
  apply short_quoted_arg. eapply many0_bounded; [| |exact E2].
  - eapply yields_shrinks. apply (yields_quoted_part).
  - intros s' r' a' Hs' (p & Hp & E)%alt_IOk.
    apply list_elem_of_In in Hp as [<-|[<-|[]]].
    + apply var_braced_shape in E as (v & -> & _ & ?). simpl. lia.
    + rewrite map_law in E. by apply pbind_IOk in E as (? & ? & _ & [= <- <-]).
Qed.

Lemma short_literal s r a : parse_literal s = IOk r a -> short_arg (String.length s) a.
Proof.
  unfold parse_literal. rewrite complete_law. intros E.
  assert (E' : alt [double_quoted; single_quoted; unquoted] s = IOk r a)
    by (destruct (alt _ s) as [| [] | |]; done). clear E.
  apply alt_IOk in E' as (p & Hp & E). apply list_elem_of_In in Hp as [<-|[<-|[<-|[]]]].
  - by eapply short_double_quoted.
  - unfold single_quoted in E. rewrite delimited_law in E.
    apply pbind_IOk in E as (? & ? & _ & (? & ? & E & (? & ? & _ & [= <- <-])%pbind_IOk)%pbind_IOk).
    rewrite map_law in E. by apply pbind_IOk in E as (? & ? & _ & [= <- <-]).
  - unfold unquoted in E. rewrite map_law in E. apply pbind_IOk in E as (? & ? & _ & [= <- <-]).
    unfold unquoted_arg. by case_match.
Qed.

Lemma space0_none c s : is_blank c = false -> space0 (String c s) = IOk (String c s) EmptyString.
Proof. intros Hc. rewrite space0_law. simpl. by rewrite Hc. Qed.

Lemma short_default_arg c s r a :
  Ascii.eqb c char_dollar || Ascii.eqb c char_dquote || Ascii.eqb c char_squote = true ->
  parse_arg (String c s) = IOk r a -> short_arg (S (String.length s)) a.
Proof.
  intros Hc. rewrite parse_arg_equation, preceded_law.
  assert (Hc' : is_blank c = false /\ c <> char_lbrace /\ c <> char_lbracket).
  { repeat (apply orb_prop in Hc as [Hc|Hc]); apply Ascii.eqb_eq in Hc as ->; done. }
  destruct Hc' as (Hb & Hn1 & Hn2). rewrite space0_none by done. simpl pbind.
  assert (Hopen : forall d, c <> d -> preceded space0 (char d) (String c s) = IErr NError).
  { intros d Hd. rewrite preceded_law, space0_none by done. simpl. rewrite char_law.
    by destruct (Ascii.eqb_spec c d). }
  intros (p & Hp & E)%alt_IOk. unfold arg_alternatives in Hp. apply list_elem_of_In in Hp.
  repeat destruct Hp as [<-|Hp]; try done.
  - unfold parse_command_subst in E. apply pbind_IOk in E as (? & ? & _ & E).
    destruct (match_paren _ _) as [[? ?]|]; [|done]. apply pbind_IOk in E as (? & ? & _ & E).
    destruct (is_empty _); by simplify_eq.
  - apply var_braced_shape in E as (v & -> & _ & ?). simpl in *. lia.
  - apply var_dollar_shape in E as (v & -> & _ & ?). simpl in *. lia.
  - unfold parse_map_literal in E. by rewrite Hopen in E.
  - unfold parse_list_literal in E. by rewrite Hopen in E.
  - apply interpolated_shape in E as (_ & ps & -> & _); [done|apply yields_parse_arg].
  - by apply short_literal in E.
  - unfold parse_option in E. apply pbind_IOk in E as (? & o & _ & E).
    destruct (String.eqb o _ || _); by simplify_eq.
Qed.

(** [BlockParser::parse_arg] as the evaluation of default expressions calls it. *)
Definition default_arg (s : string) : option (string * CommandArg) :=
  match parse_arg s with IOk rest arg => Some (rest, arg) | _ => None end.

Lemma default_arg_ok s rest arg :
  default_arg s = Some (rest, arg) ->
  match s with
  | String a _ =>
      Ascii.eqb a char_dollar || Ascii.eqb a char_dquote || Ascii.eqb a char_squote = true ->
      match arg with
      | Var v => (String.length v < String.length s)%nat
      | ListLiteral _ | MapLiteral _ => False
      | _ => True
      end
  | EmptyString => True
  end.
Proof.
  destruct s as [|c s]; [done|]. unfold default_arg. case_match eqn:E; [|done..].
  intros [= <- <-] Hc. by eapply short_default_arg.
Qed.

#[export] Instance block_arg_parser : ArgParser :=
  {| VarPath.parse_arg := default_arg; parse_arg_default_ok := default_arg_ok |}.
End lines.
