(* ===== verification/ParserRound.v ===== *)
(** * Printing and parsing

    Programs made of plain commands, printed as text and parsed back. *)

From S2P Require Import Prelude Values Syntax State Nom Parser ParserFacts ParserTotal.

#[local] Arguments strip_prefix : simpl never.

(** ** Maximal runs *)

Definition head_fails (p : Ascii.ascii -> bool) (s : string) : bool :=
  match s with EmptyString => true | String c _ => negb (p c) end.

Lemma take_while_app p w s :
  string_forallb p w = true -> head_fails p s = true -> take_while p (w +:+ s) = w.
Proof.
  intros Hw Hs. induction w as [|c w IH]; simpl in *.
  - destruct s as [|d s]; [done|]. simpl in *. by apply negb_true_iff in Hs as ->.
  - apply andb_prop in Hw as [-> Hw]. by rewrite IH.
Qed.

Lemma drop_while_app p w s :
  string_forallb p w = true -> head_fails p s = true -> drop_while p (w +:+ s) = s.
Proof.
  intros Hw Hs. induction w as [|c w IH]; simpl in *.
  - destruct s as [|d s]; [done|]. simpl in *. by apply negb_true_iff in Hs as ->.
  - apply andb_prop in Hw as [-> Hw]. by rewrite IH.
Qed.

Lemma drop_while_head p s : head_fails p (drop_while p s) = true.
Proof. induction s as [|c s IH]; [done|]. simpl. destruct (p c) eqn:E; [done|]. simpl. by rewrite E. Qed.

Lemma drop_while_none p s : head_fails p s = true -> drop_while p s = s.
Proof. destruct s as [|c s]; [done|]. simpl. by intros ->%negb_true_iff. Qed.

Lemma take_while_none p s : head_fails p s = true -> take_while p s = EmptyString.
Proof. destruct s as [|c s]; [done|]. simpl. by intros ->%negb_true_iff. Qed.

Lemma take_while_drop p s : take_while p s +:+ drop_while p s = s.
Proof. induction s as [|c s IH]; [done|]. simpl. destruct (p c); [|done]. exact (f_equal (String c) IH). Qed.

Lemma string_take_app w s : string_take (String.length (w +:+ s) - String.length s) (w +:+ s) = w.
Proof.
  rewrite append_length. replace (_ + _ - _)%nat with (String.length w) by lia.
  induction w as [|c w IH]; [by destruct s|]. simpl. by rewrite IH.
Qed.

Lemma string_take_while p s :
  string_take (String.length s - String.length (drop_while p s)) s = take_while p s.
Proof. rewrite <- (take_while_drop p s) at 1 3. apply string_take_app. Qed.

Lemma one_or_more_app p w s :
  string_forallb p w = true -> w <> EmptyString -> head_fails p s = true ->
  one_or_more p (w +:+ s) = IOk s w.
Proof.
  intros Hw Hne Hs. unfold one_or_more. rewrite take_while_app, drop_while_app by done.
  by destruct w.
Qed.

Lemma one_or_more_none p s : head_fails p s = true -> one_or_more p s = IErr NError.
Proof. intros Hs. unfold one_or_more. by rewrite take_while_none. Qed.

Lemma drop_while_weaken p q s :
  (forall c, p c = true -> q c = true) -> drop_while q (drop_while p s) = drop_while q s.
Proof.
  intros Hpq. induction s as [|c s IH]; [done|]. simpl. destruct (p c) eqn:E; [|done].
  by rewrite (Hpq c E).
Qed.

Section runs.
Context `{NomLaws}.

(** A class of characters: letters, digits and the ones of [cs]. *)
Definition in_class (cs : list Ascii.ascii) (c : Ascii.ascii) : bool :=
  is_ascii_alphanumeric c || existsb (Ascii.eqb c) cs.

Definition class_parsers (cs : list Ascii.ascii) : list (parser string) :=
  alphanumeric1 :: List.map (fun c => tag (String c EmptyString)) cs.

Lemma tag_one c s :
  tag (String c EmptyString) s =
    match s with String d r => if Ascii.eqb c d then IOk r (String c EmptyString) else IErr NError
               | EmptyString => IErr NError end.
Proof. rewrite tag_law. destruct s as [|d r]; [done|]. unfold strip_prefix.
  by destruct (Ascii.eqb c d). Qed.

Lemma alt_tags cs s :
  alt (List.map (fun c => tag (String c EmptyString)) cs) s =
    match s with
    | String d r => if existsb (Ascii.eqb d) cs then IOk r (String d EmptyString) else IErr NError
    | EmptyString => IErr NError
    end.
Proof.
  induction cs as [|c cs IH]; simpl.
  - rewrite alt_nil_law. by destruct s.
  - rewrite alt_cons_law, tag_one, IH. destruct s as [|d r]; [done|].
    rewrite (Ascii.eqb_sym d c). destruct (Ascii.eqb_spec c d) as [->|]; done.
Qed.

(** [many0] over a class reads its longest run. *)
Lemma many0_class cs s :
  exists l, many0 (alt (class_parsers cs)) s = IOk (drop_while (in_class cs) s) l.
Proof.
  assert (Hk : yields 1 any (alt (class_parsers cs))).
  { apply yields_alt, List.Forall_cons; [yields_text|]. apply Forall_forall.
    intros p (c & -> & _)%list_elem_of_fmap. yields_text. }
  induction s as [s IH] using string_length_ind.
  rewrite many0_law by by eapply yields_shrinks.
  destruct (alt (class_parsers cs) s) as [r a|e| |] eqn:E.
  - pose proof (Hk _ _ _ E) as [Hlen _]. rewrite (proj2 (Nat.eqb_neq _ _)) by lia.
    destruct (IH r ltac:(lia)) as [l ->]. simpl. eexists. f_equal.
    unfold class_parsers in E. rewrite alt_cons_law, alphanumeric1_law, alt_tags in E.
    destruct (one_or_more _ s) as [r' a'|[]| |] eqn:E1; try done.
    + simplify_eq. apply one_or_more_IOk in E1 as (-> & _). symmetry.
      rewrite drop_while_weaken; [done|]. intros c Hc. unfold in_class. by rewrite Hc.
    + destruct s as [|d s]; [done|]. destruct (existsb _ cs) eqn:Ex; [|done]. simplify_eq.
      simpl. unfold in_class at 2. by rewrite Ex, orb_true_r.
  - unfold class_parsers in E. rewrite alt_cons_law, alphanumeric1_law, alt_tags in E.
    unfold one_or_more in E. destruct s as [|d s]; simpl in *; [simplify_eq; by eexists|].
    destruct (is_ascii_alphanumeric d) eqn:Ed; [done|]. destruct (existsb _ cs) eqn:Ex; [done|].
    simplify_eq. unfold in_class at 1. rewrite Ed, Ex. by eexists.
  - exfalso. unfold class_parsers in E. rewrite alt_cons_law, alphanumeric1_law, alt_tags in E.
    unfold one_or_more in E. by repeat case_match.
  - exfalso. unfold class_parsers in E. rewrite alt_cons_law, alphanumeric1_law, alt_tags in E.
    unfold one_or_more in E. by repeat case_match.
Qed.
End runs.

(** ** Plain programs *)

(** An argument: a word, a single-quoted text or a braced variable. *)
Inductive PlainArg : Type := PWord (w : string) | PQuoted (s : string) | PVar (v : string).

Record PlainCommand : Type := mkPlainCommand {
  pc_negated : bool;
  pc_name : string;
  pc_args : list PlainArg
}.

(** A command and the ones joined to it, by [&&] for [true] and [||] for [false]. *)
Record PlainStatement : Type := mkPlainStatement {
  ps_first : PlainCommand;
  ps_more : list (bool * PlainCommand)
}.

Definition print_arg (a : PlainArg) : string :=
  match a with
  | PWord w => w
  | PQuoted s => "'" +:+ s +:+ "'"
  | PVar v => "${" +:+ v +:+ "}"
  end.

Fixpoint print_args (args : list PlainArg) (rest : string) : string :=
  match args with
  | [] => rest
  | a :: args' => " " +:+ print_arg a +:+ print_args args' rest
  end.

Definition print_command (c : PlainCommand) (rest : string) : string :=
  (if pc_negated c then "!" else "") +:+ pc_name c +:+ print_args (pc_args c) rest.

Fixpoint print_more (more : list (bool * PlainCommand)) (rest : string) : string :=
  match more with
  | [] => rest
  | (op, c) :: more' => (if op : bool then " && " else " || ") +:+ print_command c (print_more more' rest)
  end.

Definition print_statement (s : PlainStatement) (rest : string) : string :=
  print_command (ps_first s) (print_more (ps_more s) (";" +:+ rest)).

Fixpoint print_line (ss : list PlainStatement) : string :=
  match ss with
  | [] => ""
  | s :: ss' => print_statement s (print_line ss')
  end.

(** Their trees. *)
Section trees.
Context `{F64Text}.

Definition arg_tree (a : PlainArg) : CommandArg :=
  match a with
  | PWord w => unquoted_arg w
  | PQuoted s => StringLiteral s
  | PVar v => Var v
  end.

Definition command_tree (c : PlainCommand) : Expression :=
  command_item (pc_name c) (Literal (pc_name c) :: List.map arg_tree (pc_args c)).

Definition prefix_of (c : PlainCommand) : option Operator :=
  if pc_negated c then Some OpNot else None.

Fixpoint chain_tree (c : PlainCommand) (more : list (bool * PlainCommand)) : ExpressionChain :=
  match more with
  | [] => [(prefix_of c, command_tree c, None)]
  | (op, c') :: more' =>
      (prefix_of c, command_tree c, Some (if op : bool then OpAnd else OpOr)) :: chain_tree c' more'
  end.

Definition statement_tree (s : PlainStatement) : Statement :=
  new_expressions (chain_tree (ps_first s) (ps_more s)).
End trees.

(** A text without a dynamic segment before the character that ends it. *)
Fixpoint static (after_dot : bool) (s : string) : bool :=
  match s with
  | EmptyString => true
  | String c s' =>
      ends_interpolated c
      || negb (Ascii.eqb c char_lparen && after_dot) && static (Ascii.eqb c char_dot) s'
  end.

Definition word_chars : list Ascii.ascii := ["_"; "-"; "."; ":"; "/"]%char.
Definition word_first (c : Ascii.ascii) : bool := is_ascii_alphanumeric c || Ascii.eqb c "_".

Definition plain_arg (a : PlainArg) : bool :=
  match a with
  | PWord EmptyString => false
  | PWord (String c w) => word_first c && string_forallb (in_class word_chars) w
  | PQuoted s => string_forallb (fun c => negb (Ascii.eqb c char_squote)) s && static false s
  | PVar v => negb (is_empty v) && string_forallb var_char_ok v
  end.

Definition assign_keywords : list string := ["export"; "global"; "chain"; "local"; "block"].

Definition plain_command (c : PlainCommand) : bool :=
  match pc_name c with
  | EmptyString => false
  | String a w => (is_ascii_alphabetic a || Ascii.eqb a "_") && string_forallb is_command_char w
  end
  && negb (existsb (String.eqb (pc_name c)) assign_keywords)
  && forallb plain_arg (pc_args c).

Definition plain_statement (s : PlainStatement) : bool :=
  plain_command (ps_first s) && forallb (fun '(_, c) => plain_command c) (ps_more s).

(** ** Reading arguments *)

(** What follows an argument: a blank or a semicolon. *)
Definition stops (s : string) : bool :=
  match s with
  | String c _ => Ascii.eqb c " " || Ascii.eqb c char_semicolon
  | EmptyString => false
  end.

Lemma stops_head s :
  stops s = true -> exists c r, s = String c r /\ (c = " "%char \/ c = char_semicolon).
Proof.
  destruct s as [|c r]; [done|]. simpl. intros [E|E]%orb_prop; apply Ascii.eqb_eq in E as ->; eauto.
Qed.

Lemma stops_fails p s : stops s = true -> p " "%char = false -> p char_semicolon = false ->
  head_fails p s = true.
Proof. intros (c & r & -> & [-> | ->])%stops_head H1 H2; simpl; by rewrite ?H1, ?H2. Qed.

Lemma static_stops b s : stops s = true -> static b s = true.
Proof. by intros (c & r & -> & [-> | ->])%stops_head. Qed.

Lemma static_app b s t :
  static b s = true -> (forall b', static b' t = true) -> static b (s +:+ t) = true.
Proof.
  intros Hs Ht. revert b Hs. induction s as [|c s IH]; intros b; simpl; [done|].
  destruct (ends_interpolated c); [done|]. simpl. intros [-> Hs]%andb_prop. by apply IH.
Qed.

Lemma static_forallb p b s :
  (forall c, p c = true -> c <> char_lparen) -> string_forallb p s = true -> static b s = true.
Proof.
  intros Hp. revert b. induction s as [|c s IH]; intros b; simpl; [done|].
  intros [Hc Hs]%andb_prop. rewrite (IH _ Hs), andb_true_r.
  destruct (Ascii.eqb_spec c char_lparen) as [->|]; [by apply Hp in Hc|by rewrite orb_true_r].
Qed.

Lemma last_dot literal c : ends_with "." (string_snoc literal c) = Ascii.eqb c char_dot.
Proof.
  unfold ends_with, strip_suffix, string_snoc. rewrite append_length. cbn [String.length].
  rewrite (proj2 (Nat.leb_le _ _)) by lia.
  replace (String.length literal + 1 - 1)%nat with (String.length literal) by lia.
  assert (E : String.substring (String.length literal) 1 (literal +:+ String c "") = String c "").
  { induction literal; simpl; [done|]. exact IHliteral. }
  rewrite E. destruct (Ascii.eqb_spec c char_dot) as [->|Hc]; [done|].
  destruct (String.eqb_spec (String c "") ".") as [[= ->]|]; done.
Qed.

Section read.
Context `{F64Text} `{NomLaws}.

Lemma interpolated_static pa fuel s literal :
  static (ends_with "." literal) s = true -> (String.length s < fuel)%nat ->
  interpolated_loop pa fuel s literal [] false = IErr NError.
Proof.
  revert s literal. induction fuel as [|fuel IH]; intros s literal Hs Hf; [lia|]. simpl.
  destruct s as [|c s]; [done|]. simpl in *. destruct (ends_interpolated c); [done|].
  apply andb_prop in Hs as [Hc Hs]. apply negb_true_iff in Hc. rewrite Hc.
  apply IH; [by rewrite last_dot|lia].
Qed.

(** A text whose first character opens no argument but a word or a quote. *)
Definition word_or_quote (c : Ascii.ascii) : bool :=
  negb (is_blank c || Ascii.eqb c char_dollar || Ascii.eqb c char_lbrace || Ascii.eqb c char_lbracket).

Lemma parse_arg_blank s : parse_arg (" " +:+ s) = parse_arg s.
Proof. rewrite !parse_arg_equation, !preceded_law, !space0_law. done. Qed.

Lemma tag_head_fails c t d s : c <> d -> tag (String c t) (String d s) = IErr NError.
Proof. intros Hc. rewrite tag_law. unfold strip_prefix. by destruct (Ascii.eqb_spec c d). Qed.

Lemma char_head_fails c d s : d <> c -> char c (String d s) = IErr NError.
Proof. intros Hc. rewrite char_law. by destruct (Ascii.eqb_spec d c). Qed.

Lemma parse_arg_alternatives c s :
  word_or_quote c = true ->
  parse_arg (String c s) =
    match parse_interpolated_unquoted parse_arg (String c s) with
    | IErr NError =>
        match parse_literal (String c s) with
        | IErr NError => parse_option (String c s)
        | r => r
        end
    | r => r
    end.
Proof.
  unfold word_or_quote. intros Hc.
  apply negb_true_iff in Hc. rewrite !orb_false_iff in Hc. destruct Hc as [[[Hb H1'] H2'] H3'].
  apply Ascii.eqb_neq in H1', H2', H3'.
  assert (Hsp : space0 (String c s) = IOk (String c s) EmptyString)
    by (rewrite space0_law; simpl; by rewrite Hb).
  rewrite parse_arg_equation, preceded_law, Hsp. simpl pbind. unfold arg_alternatives.
  rewrite !alt_cons_law, alt_nil_law.
  unfold parse_command_subst at 1. rewrite tag_head_fails by done. simpl pbind.
  unfold parse_var_braced at 1. rewrite tag_head_fails by done. simpl pbind.
  unfold parse_var_dollar at 1. rewrite char_head_fails by done. simpl pbind.
  unfold parse_map_literal at 1. rewrite preceded_law, Hsp. simpl pbind.
  rewrite char_head_fails by done. simpl pbind.
  unfold parse_list_literal at 1. rewrite preceded_law, Hsp. simpl pbind.
  rewrite char_head_fails by done. simpl pbind.
  destruct (parse_interpolated_unquoted _ _) as [|[]| |]; try done.
  destruct (parse_literal _) as [|[]| |]; try done. by destruct (parse_option _) as [|[]| |].
Qed.

Lemma parse_arg_word c s :
  word_or_quote c = true -> static false (String c s) = true ->
  parse_arg (String c s) =
    match parse_literal (String c s) with
    | IErr NError => parse_option (String c s)
    | r => r
    end.
Proof.
  intros Hc Hs. rewrite parse_arg_alternatives by done.
  unfold parse_interpolated_unquoted. by rewrite interpolated_static by (done || lia).
Qed.

Lemma parse_unquoted c w rest :
  word_first c = true -> string_forallb (in_class word_chars) w = true ->
  head_fails (in_class word_chars) rest = true ->
  unquoted (String c w +:+ rest) = IOk rest (unquoted_arg (String c w)).
Proof.
  intros Hc Hw Hr. unfold unquoted. rewrite map_law, recognize_law, pair_law.
  assert (Hfirst : exists t r, alt [alphanumeric1; tag "_"] (String c w +:+ rest) = IOk r t
    /\ drop_while (in_class word_chars) r = rest).
  { rewrite alt_cons_law, alphanumeric1_law. unfold one_or_more. simpl.
    unfold word_first in Hc. destruct (is_ascii_alphanumeric c) eqn:Ea.
    - eexists _, _. split; [done|]. rewrite drop_while_weaken.
      + by apply drop_while_app.
      + intros d Hd. unfold in_class. by rewrite Hd.
    - simpl in Hc. apply Ascii.eqb_eq in Hc as ->. rewrite alt_cons_law, tag_one. simpl.
      eexists _, _. split; [done|]. by apply drop_while_app. }
  destruct Hfirst as (t & r & -> & Hr'). simpl pbind.
  destruct (many0_class word_chars r) as [l Hl]. unfold class_parsers, word_chars in Hl.
  simpl List.map in Hl. rewrite Hl. fold word_chars. rewrite Hr'. cbn [pbind].
  f_equal. f_equal. exact (string_take_app (String c w) rest).
Qed.

Lemma double_quoted_fails c s : c <> char_dquote -> double_quoted (String c s) = IErr NError.
Proof. intros Hc. unfold double_quoted. rewrite delimited_law, char_head_fails by done. done. Qed.

Lemma single_quoted_fails c s : c <> char_squote -> single_quoted (String c s) = IErr NError.
Proof. intros Hc. unfold single_quoted. rewrite delimited_law, char_head_fails by done. done. Qed.

Lemma word_first_facts c : word_first c = true ->
  word_or_quote c = true /\ c <> char_dquote /\ c <> char_squote /\ c <> char_lparen.
Proof.
  intros Hc. assert (Hne : forall d, word_first d = false -> c <> d) by (intros d Hd ->; congruence).
  split_and!; [|by apply Hne..]. unfold word_or_quote, is_blank.
  destruct (is_blank c) eqn:Eb.
  - unfold is_blank in Eb. unfold word_first, is_ascii_alphanumeric, is_ascii_alphabetic,
      is_ascii_upper, is_ascii_lower, is_ascii_digit, char_between in Hc.
    apply orb_prop in Eb as [E|E]; apply N.eqb_eq in E; rewrite E in Hc; simpl in Hc;
      apply Ascii.eqb_eq in Hc as ->; done.
  - unfold is_blank in Eb. rewrite Eb. simpl.
    rewrite (proj2 (Ascii.eqb_neq c char_dollar)), (proj2 (Ascii.eqb_neq c char_lbrace)),
      (proj2 (Ascii.eqb_neq c char_lbracket)) by (by apply Hne). done.
Qed.

(** What ends a word: no character of a word and no dynamic segment. *)
Definition ends_word (s : string) : bool :=
  head_fails (in_class word_chars) s && static false s && static true s.

Lemma stops_ends_word s : stops s = true -> ends_word s = true.
Proof. intros Hs. unfold ends_word. rewrite !static_stops, stops_fails by done. done. Qed.

Lemma ends_word_static b s : ends_word s = true -> static b s = true.
Proof. intros [[_ ?]%andb_prop ?]%andb_prop. by destruct b. Qed.

Lemma ends_word_head s : ends_word s = true -> head_fails (in_class word_chars) s = true.
Proof. by intros [[? _]%andb_prop _]%andb_prop. Qed.

Lemma in_word_static b w rest :
  string_forallb (in_class word_chars) w = true -> ends_word rest = true ->
  static b (w +:+ rest) = true.
Proof.
  intros Hw Hr. apply static_app; [|intros; by apply ends_word_static].
  eapply static_forallb; [|exact Hw]. by intros c Hc ->.
Qed.

Lemma parse_arg_plain_word c w rest :
  word_first c = true -> string_forallb (in_class word_chars) w = true -> ends_word rest = true ->
  parse_arg (String c w +:+ rest) = IOk rest (unquoted_arg (String c w)).
Proof.
  intros Hc Hw Hr. destruct (word_first_facts c Hc) as (Hq & Hd & Hs & Hp).
  change (String c w +:+ rest) with (String c (w +:+ rest)).
  rewrite parse_arg_word; [|done|].
  - unfold parse_literal. rewrite complete_law, !alt_cons_law.
    rewrite double_quoted_fails, single_quoted_fails by done.
    change (String c (w +:+ rest)) with (String c w +:+ rest).
    by rewrite parse_unquoted by (done || by apply ends_word_head).
  - simpl. rewrite (proj2 (Ascii.eqb_neq c char_lparen)) by done. simpl.
    rewrite in_word_static by done. by rewrite orb_true_r.
Qed.

Lemma is_not_text s d rest :
  string_forallb (fun c => negb (Ascii.eqb c d)) s = true ->
  opt (is_not (String d EmptyString)) (s +:+ String d rest)
  = IOk (String d rest) (match s with EmptyString => None | _ => Some s end).
Proof.
  intros Hs. rewrite opt_law, is_not_law.
  set (p := fun a => negb (string_contains a (String d EmptyString))).
  assert (Hp : forall c, p c = negb (Ascii.eqb c d)).
  { intros c. unfold p. simpl. by rewrite orb_false_r, Ascii.eqb_sym. }
  assert (Hd : head_fails p (String d rest) = true) by (simpl; by rewrite Hp, Ascii.eqb_refl).
  destruct s as [|c s]; [by rewrite one_or_more_none|].
  rewrite one_or_more_app; [done| |done|done].
  clear -Hs Hp. induction (String c s) as [|a t IH]; [done|]. simpl in *.
  apply andb_prop in Hs as [Ha Ht]. by rewrite Hp, Ha, IH.
Qed.

Lemma parse_arg_quoted s rest :
  plain_arg (PQuoted s) = true -> stops rest = true ->
  parse_arg (print_arg (PQuoted s) +:+ rest) = IOk rest (StringLiteral s).
Proof.
  intros [Hs Hst]%andb_prop Hr.
  assert (E : print_arg (PQuoted s) +:+ rest = String char_squote (s +:+ String char_squote rest)).
  { change (String char_squote ((s +:+ "'") +:+ rest) = String char_squote (s +:+ String char_squote rest)).
    by rewrite append_assoc. }
  rewrite E, parse_arg_word; [|done|].
  - unfold parse_literal. rewrite complete_law, !alt_cons_law, double_quoted_fails by done.
    unfold single_quoted. rewrite delimited_law, char_law, Ascii.eqb_refl. cbn [pbind].
    rewrite map_law, is_not_text by done. cbn [pbind].
    rewrite char_law, Ascii.eqb_refl. cbn [pbind]. by destruct s.
  - simpl. apply static_app; [done|]. intros b. simpl. by apply static_stops.

Qed.

Lemma scan_plain_var v rest :
  string_forallb var_char_ok v = true ->
  scan_var_braced (v +:+ String char_rbrace rest) VarScan_start
  = Some (v, String char_rbrace rest, VarScan_start).
Proof.
  induction v as [|c v IH]; [done|]. simpl. intros [Hc Hv]%andb_prop. rewrite (IH Hv).
  assert (Hne : forall d, var_char_ok d = false -> Ascii.eqb c d = false).
  { intros d Hd. apply Ascii.eqb_neq. intros ->. congruence. }
  rewrite !Hne by done. done.
Qed.

Lemma parse_arg_var v rest :
  plain_arg (PVar v) = true -> parse_arg (print_arg (PVar v) +:+ rest) = IOk rest (Var v).
Proof.
  intros [Hne Hv]%andb_prop.
  assert (E : print_arg (PVar v) +:+ rest = "${" +:+ (v +:+ String char_rbrace rest)).
  { change ("${" +:+ ((v +:+ "}") +:+ rest) = "${" +:+ (v +:+ String char_rbrace rest)).
    by rewrite append_assoc. }
  rewrite E. set (t := v +:+ String char_rbrace rest).
  rewrite parse_arg_equation, preceded_law, space0_law. cbn [pbind drop_while].
  replace (drop_while is_blank ("${" +:+ t)) with ("${" +:+ t) by done.
  unfold arg_alternatives. rewrite !alt_cons_law.
  unfold parse_command_subst at 1. rewrite tag_law. replace (strip_prefix "$(" ("${" +:+ t)) with (@None string) by done.
  cbn [pbind]. unfold parse_var_braced at 1. rewrite tag_law.
  replace (strip_prefix "${" ("${" +:+ t)) with (Some t) by done. cbn [pbind].
  unfold t at 1. rewrite scan_plain_var by done. simpl. by destruct v.
Qed.

(** Every plain argument is read back. *)
Lemma parse_print_arg a rest :
  plain_arg a = true -> stops rest = true ->
  parse_arg (print_arg a +:+ rest) = IOk rest (arg_tree a).
Proof.
  intros Ha Hr. destruct a as [[|c w]|s|v].
  - done.
  - apply andb_prop in Ha as [Hc Hw]. apply parse_arg_plain_word; [done..|by apply stops_ends_word].
  - by apply parse_arg_quoted.
  - by apply parse_arg_var.
Qed.

(** An operator or a semicolon starts no argument. *)
Definition dead (c : Ascii.ascii) : bool :=
  Ascii.eqb c "&" || Ascii.eqb c "|" || Ascii.eqb c char_semicolon.

Lemma dead_cases c : dead c = true -> c = "&"%char \/ c = "|"%char \/ c = char_semicolon.
Proof.
  unfold dead. rewrite !orb_true_iff, !Ascii.eqb_eq. tauto.
Qed.

Lemma unquoted_dead c s : dead c = true -> unquoted (String c s) = IErr NError.
Proof.
  intros Hc%dead_cases. unfold unquoted. rewrite map_law, recognize_law, pair_law, !alt_cons_law,
    alt_nil_law, alphanumeric1_law, tag_one, one_or_more_none.
  - by destruct Hc as [-> | [-> | ->]].
  - by destruct Hc as [-> | [-> | ->]].
Qed.

Lemma parse_arg_dead c s :
  dead c = true -> static false (String c s) = true -> parse_arg (String c s) = IErr NError.
Proof.
  intros Hc Hs. pose proof (dead_cases c Hc) as Hcs.
  rewrite parse_arg_word; [|by destruct Hcs as [-> | [-> | ->]]|done].
  unfold parse_literal. rewrite complete_law, !alt_cons_law, alt_nil_law.
  rewrite double_quoted_fails, single_quoted_fails, unquoted_dead by
    (done || by destruct Hcs as [-> | [-> | ->]]).
  unfold parse_option. rewrite recognize_law, !alt_cons_law, alt_nil_law, !pair_law.
  rewrite !tag_head_fails by (by destruct Hcs as [-> | [-> | ->]]). done.
Qed.

(** ** Reading commands *)

(** What ends the arguments of a command: a semicolon, or a blank and an
    operator. *)
Definition ends_command (s : string) : bool :=
  match s with
  | String c t =>
      Ascii.eqb c char_semicolon
      || Ascii.eqb c " " && match t with
                            | String d _ => (Ascii.eqb d "&" || Ascii.eqb d "|") && static false t
                            | EmptyString => false
                            end
  | EmptyString => false
  end.

Lemma ends_command_cases s : ends_command s = true ->
  exists c t, dead c = true /\ static false (String c t) = true
    /\ (s = String c t /\ c = char_semicolon \/ s = String " " (String c t)).
Proof.
  destruct s as [|c t]; [done|]. simpl. intros [E%Ascii.eqb_eq|[E%Ascii.eqb_eq Ht]%andb_prop]%orb_prop.
  - subst. exists char_semicolon, t. auto.
  - subst. destruct t as [|d t]; [done|]. apply andb_prop in Ht as [Hd Ht].
    exists d, t. split; [|split; [done|by right]]. unfold dead.
    by apply orb_prop in Hd as [-> | ->]; rewrite ?orb_true_r.
Qed.

Lemma ends_command_stops s : ends_command s = true -> stops s = true.
Proof. by intros (c & t & _ & _ & [[-> ->]| ->])%ends_command_cases. Qed.

Lemma drop_blank_idem s : drop_while is_blank (drop_while is_blank s) = drop_while is_blank s.
Proof. apply drop_while_none, drop_while_head. Qed.

Lemma spaced_arg s : preceded space0 parse_arg s = parse_arg s.
Proof.
  rewrite preceded_law, space0_law. cbn [pbind].
  rewrite !parse_arg_equation, !preceded_law, !space0_law. cbn [pbind]. by rewrite drop_blank_idem.
Qed.

Lemma no_more_args s : ends_command s = true -> parse_arg s = IErr NError.
Proof.
  intros (c & t & Hc & Hst & [[-> _]| ->])%ends_command_cases.
  - by apply parse_arg_dead.
  - change (String " " (String c t)) with (" " +:+ String c t). rewrite parse_arg_blank.
    by apply parse_arg_dead.
Qed.

Lemma print_arg_head a rest : plain_arg a = true ->
  exists c t, print_arg a +:+ rest = String c t
    /\ (word_first c = true \/ c = char_squote \/ c = char_dollar).
Proof.
  destruct a as [[|c w]|s|v]; [done| | |].
  - intros [Hc _]%andb_prop. exists c. simpl. eauto.
  - intros _. eexists _, _. simpl. eauto.
  - intros _. eexists _, _. simpl. eauto.
Qed.

Lemma print_args_stops args rest :
  ends_command rest = true -> stops (print_args args rest) = true.
Proof. intros Hr. destruct args; [by apply ends_command_stops|done]. Qed.

Lemma many0_args args rest :
  forallb plain_arg args = true -> ends_command rest = true ->
  many0 (preceded space1 (preceded space0 parse_arg)) (print_args args rest)
  = IOk rest (List.map arg_tree args).
Proof.
  intros Ha Hr.
  assert (Hk : shrinks (preceded space1 (preceded space0 parse_arg))).
  { apply (yields_shrinks 2 wf_arg_ok), (yields_preceded 1 1 any); [yields_text|].
    apply yields_spaced_arg, yields_parse_arg. }
  induction args as [|a args IH]; rewrite many0_law by done; rewrite preceded_law, space1_law.
  - assert (E : (let! (r, _) := one_or_more is_blank rest in preceded space0 parse_arg r)
                = IErr NError :> IResult CommandArg).
    { destruct (ends_command_cases _ Hr) as (c & t & Hc & Hst & [[-> ->]| ->]); [done|].
      unfold one_or_more. simpl. rewrite spaced_arg.
      assert (Hb : is_blank c = false) by by destruct (dead_cases c Hc) as [-> | [-> | ->]].
      rewrite Hb. by apply parse_arg_dead. }
    simpl print_args. by rewrite E.
  - simpl in Ha. apply andb_prop in Ha as [Ha Has].
    assert (E : one_or_more is_blank (print_args (a :: args) rest)
                = IOk (print_arg a +:+ print_args args rest) " ").
    { change (print_args (a :: args) rest) with (" " +:+ (print_arg a +:+ print_args args rest)).
      apply one_or_more_app; [done|done|].
      destruct (print_arg_head a (print_args args rest) Ha) as (c & t & -> & Hc).
      destruct Hc as [Hc|[-> | ->]]; [|done..].
      apply word_first_facts in Hc as [Hc _]. unfold word_or_quote in Hc.
      rewrite !negb_orb in Hc. simpl. by destruct (is_blank c). }
    rewrite E. cbn [pbind]. rewrite spaced_arg, parse_print_arg; [|done|by apply print_args_stops].
    rewrite (IH Has), (proj2 (Nat.eqb_neq _ _)); [done|].
    change (print_args (a :: args) rest) with (" " +:+ (print_arg a +:+ print_args args rest)).
    rewrite !append_length. cbn [String.length]. lia.
Qed.

Lemma parse_print_args args rest :
  forallb plain_arg args = true -> ends_command rest = true ->
  separated_list0 space1 (preceded space0 parse_arg) (print_args args rest)
  = IOk rest (List.map arg_tree args).
Proof.
  intros Ha Hr. rewrite separated_list0_law.
  - destruct args as [|a args].
    + simpl. by rewrite spaced_arg, no_more_args.
    + simpl in Ha. apply andb_prop in Ha as [Ha Has]. rewrite spaced_arg.
      change (print_args (a :: args) rest) with (" " +:+ (print_arg a +:+ print_args args rest)).
      rewrite parse_arg_blank, parse_print_arg; [|done|by apply print_args_stops].
      by rewrite many0_args.
  - apply (yields_consumes 1 any); [apply yields_space1|lia].
  - eapply yields_shrinks, yields_spaced_arg, yields_parse_arg.
Qed.

(** The name of a plain command. *)
Lemma plain_name c : plain_command c = true ->
  exists a w, pc_name c = String a w /\ (is_ascii_alphabetic a || Ascii.eqb a "_") = true
    /\ string_forallb is_command_char w = true
    /\ existsb (String.eqb (pc_name c)) assign_keywords = false
    /\ forallb plain_arg (pc_args c) = true.
Proof.
  unfold plain_command. destruct (pc_name c) as [|a w]; [done|].
  rewrite !andb_true_iff, negb_true_iff. intros [[[? ?] ?] ?]. eexists _, _. split_and!; done.
Qed.

Lemma alpha_word_first a : (is_ascii_alphabetic a || Ascii.eqb a "_") = true -> word_first a = true.
Proof.
  unfold word_first, is_ascii_alphanumeric. intros [-> | ->]%orb_prop; by rewrite ?orb_true_r.
Qed.

Lemma alpha_command_char a :
  (is_ascii_alphabetic a || Ascii.eqb a "_") = true -> is_command_char a = true.
Proof.
  unfold is_command_char, is_ascii_alphanumeric. intros [-> | ->]%orb_prop; by rewrite ?orb_true_r.
Qed.

Lemma command_char_word c : is_command_char c = true -> in_class word_chars c = true.
Proof.
  unfold is_command_char, in_class, word_chars. simpl. rewrite !orb_true_iff. tauto.
Qed.

(** The head of a text behind its blanks. *)
Definition next_char (s : string) : option Ascii.ascii :=
  match drop_while is_blank s with EmptyString => None | String c _ => Some c end.

(** No operator of a comparison or an assignment comes next. *)
Definition no_operator (s : string) : bool :=
  match next_char s with
  | Some c => negb (existsb (Ascii.eqb c) ["="; "!"; "<"; ">"]%char)
  | None => true
  end.

Lemma no_operator_args args rest :
  forallb plain_arg args = true -> ends_command rest = true ->
  no_operator (print_args args rest) = true.
Proof.
  intros Ha Hr. unfold no_operator, next_char. destruct args as [|a args].
  - destruct (ends_command_cases _ Hr) as (c & t & Hc & _ & [[-> _]| ->]); simpl;
      by destruct (dead_cases c Hc) as [-> | [-> | ->]].
  - simpl in Ha. apply andb_prop in Ha as [Ha _].
    change (print_args (a :: args) rest) with (" " +:+ (print_arg a +:+ print_args args rest)).
    destruct (print_arg_head a (print_args args rest) Ha) as (c & t & -> & Hc). simpl.
    destruct Hc as [Hc|[-> | ->]]; [|done..].
    assert (Hb : is_blank c = false).
    { apply word_first_facts in Hc as [Hc _]. unfold word_or_quote in Hc.
      rewrite !negb_orb in Hc. by destruct (is_blank c). }
    rewrite Hb. apply negb_true_iff. rewrite !orb_false_iff, !Ascii.eqb_neq.
    split_and!; try done; by intros ->.
Qed.

Section name.
Context (c : PlainCommand) (t : string) (Hc : plain_command c = true).

(** The name of the command and what follows it, behind one blank or none. *)
Definition body : string := pc_name c +:+ t.
Definition lead (b : bool) : string := if b then " " else "".

Lemma body_drop b : drop_while is_blank (lead b +:+ body) = body.
Proof.
  unfold body. destruct (plain_name c Hc) as (a & w & -> & Ha & _).
  assert (Hb : is_blank a = false).
  { apply alpha_word_first, word_first_facts in Ha as [Ha _]. unfold word_or_quote in Ha.
    rewrite !negb_orb in Ha. by destruct (is_blank a). }
  destruct b; simpl; by rewrite Hb.
Qed.

Lemma group_fails b pe : parse_group pe (lead b +:+ body) = IErr NError.
Proof.
  unfold parse_group. rewrite preceded_law, space0_law, body_drop. cbn [pbind].
  rewrite delimited_law. unfold body. destruct (plain_name c Hc) as (a & w & -> & Ha & _).
  change (String a w +:+ ?t) with (String a (w +:+ t)).
  rewrite tag_head_fails; [done|]. by intros <-.
Qed.

Context (Ht : ends_word t = true) (Hno : no_operator t = true).

Lemma comparison_fails b : parse_comparison_sugar (lead b +:+ body) = IErr NError.
Proof.
  unfold parse_comparison_sugar.
  assert (E : parse_arg (lead b +:+ body) = IOk t (unquoted_arg (pc_name c))).
  { assert (E' : parse_arg (lead b +:+ body) = parse_arg body)
      by (destruct b; [apply parse_arg_blank|done]).
    rewrite E'. unfold body. destruct (plain_name c Hc) as (a & w & -> & Ha & Hw & _).
    apply parse_arg_plain_word; [by apply alpha_word_first| |done].
    eapply string_forallb_impl; [apply command_char_word|done]. }
  rewrite E. cbn [pbind]. rewrite preceded_law, space0_law. cbn [pbind].
  pose proof Hno as Hno'. unfold no_operator, next_char in Hno'.
  destruct (drop_while is_blank _) as [|d t'].
  - rewrite !alt_cons_law, alt_nil_law, !tag_law. done.
  - apply negb_true_iff in Hno'. simpl in Hno'. rewrite !orb_false_iff, !Ascii.eqb_neq in Hno'.
    destruct Hno' as (? & ? & ? & ? & _).
    rewrite !alt_cons_law, alt_nil_law, !tag_head_fails by congruence. done.
Qed.

Lemma strip_prefix_cons k p a s :
  strip_prefix (String k p) (String a s) = if Ascii.eqb k a then strip_prefix p s else None.
Proof. done. Qed.

Lemma is_blank_cases a : is_blank a = true -> a = " "%char \/ a = char_tab.
Proof.
  unfold is_blank, char_code. rewrite orb_true_iff, !N.eqb_eq.
  intros [E|E]; rewrite <- (ascii_N_embedding a), E; auto.
Qed.

(** A keyword of [assign] that starts the command is followed by more of its
    name. *)
Lemma keyword_rest kw name r :
  string_forallb is_ascii_alphabetic kw = true -> string_forallb is_command_char name = true ->
  strip_prefix kw (name +:+ t) = Some r ->
  kw = name \/ head_fails is_blank r = true.
Proof.
  intros Hk Hn. revert name Hn. induction kw as [|k kw IH]; intros name Hn E.
  - injection E as <-. destruct name as [|a name]; [by left|]. right. simpl in *.
    apply andb_prop in Hn as [Ha _]. destruct (is_blank a) eqn:Eb; [|done].
    by apply is_blank_cases in Eb as [-> | ->].
  - destruct name as [|a name].
    + exfalso. apply ends_word_head in Ht as Hh. simpl in Hk. apply andb_prop in Hk as [Hk _].
      change ("" +:+ t) with t in E. destruct t as [|d t']; [done|]. rewrite strip_prefix_cons in E.
      destruct (Ascii.eqb_spec k d) as [->|]; [|done]. simpl in Hh.
      unfold in_class, is_ascii_alphanumeric in Hh. by rewrite Hk in Hh.
    + simpl in *. apply andb_prop in Hk as [_ Hk]. apply andb_prop in Hn as [_ Hn].
      change (String a name +:+ t) with (String a (name +:+ t)) in E. rewrite strip_prefix_cons in E.
      destruct (Ascii.eqb_spec k a) as [->|]; [|done].
      destruct (IH Hk name Hn E) as [->|]; [by left|by right].
Qed.

Definition assign_kinds : list (parser AssignKind) :=
  [ value AsGlobal (tag "export"); value AsGlobal (tag "global");
    value AsChain (tag "chain"); value AsBlock (tag "local"); value AsBlock (tag "block") ].

Lemma assign_kinds_read s :
  match alt assign_kinds s with
  | IOk r _ => exists kw, kw ∈ assign_keywords /\ strip_prefix kw s = Some r
  | IErr NError => True
  | _ => False
  end.
Proof.
  unfold assign_kinds. rewrite !alt_cons_law, alt_nil_law, !value_law, !tag_law.
  repeat match goal with
  | |- context [strip_prefix ?k s] =>
      destruct (strip_prefix k s) eqn:?; simpl; [exists k; split; [|done]; by repeat constructor|]
  end. done.
Qed.

Lemma no_assign_kind b :
  opt (terminated (alt assign_kinds) space1) (lead b +:+ body) = IOk (lead b +:+ body) None.
Proof.
  rewrite opt_law, terminated_law. pose proof (assign_kinds_read (lead b +:+ body)) as Hk.
  destruct (alt assign_kinds _) as [r k|[]| |]; try done.
  destruct Hk as (kw & Hkw & E). cbn [pbind].
  assert (Hf : head_fails is_blank r = true).
  { destruct b.
    - exfalso. unfold lead, strip_prefix in E. apply list_elem_of_In in Hkw.
      repeat destruct Hkw as [<-|Hkw]; done.
    - destruct (plain_name c Hc) as (a & w & Hn & Ha & Hw & Hkey & _).
      destruct (keyword_rest kw (pc_name c) r) as [->|]; [| |done| |done].
      + apply list_elem_of_In in Hkw. by repeat destruct Hkw as [<-|Hkw].
      + rewrite Hn. simpl. by rewrite (alpha_command_char a Ha).
      + exfalso. apply list_elem_of_In in Hkw.
        assert (Hx : existsb (String.eqb (pc_name c)) assign_keywords = true)
          by (apply existsb_exists; eexists; split; [done|apply String.eqb_refl]).
        congruence. }
  rewrite space1_law, one_or_more_none by done. done.
Qed.

(** Behind an identifier at the start of the command no [=] follows. *)
Lemma key_rest_no_operator : no_operator (drop_while (in_class ["_"%char]) body) = true.
Proof.
  destruct (plain_name c Hc) as (a & w & Hn & Ha & Hw & _ & Hargs).
  assert (Hall : string_forallb is_command_char (pc_name c) = true).
  { rewrite Hn. simpl. by rewrite (alpha_command_char a Ha). }
  unfold body. clear Hn Hw. induction (pc_name c) as [|d name IH].
  - change ("" +:+ t) with t. rewrite drop_while_none; [done|]. apply ends_word_head in Ht as Hh.
    destruct t as [|d t']; [done|]. simpl in *. unfold in_class in *. simpl in *.
    rewrite !negb_orb in *. by destruct (is_ascii_alphanumeric d), (Ascii.eqb d "_").
  - simpl in Hall. apply andb_prop in Hall as [Hd Hall].
    change (String d name +:+ ?t) with (String d (name +:+ t)). cbn [drop_while].
    destruct (in_class ["_"%char] d) eqn:Ed; [by apply IH|].
    assert (Hd' : d = "-"%char \/ d = "."%char \/ d = "/"%char).
    { unfold in_class in Ed. unfold is_command_char in Hd. simpl in Ed.
      rewrite !orb_false_iff in Ed. destruct Ed as (E1 & E2 & _). rewrite E1, E2 in Hd. simpl in Hd.
      rewrite !orb_false_r, !orb_true_iff, !Ascii.eqb_eq in Hd. tauto. }
    by destruct Hd' as [-> | [-> | ->]].
Qed.

Lemma assign_fails b : parse_assign (lead b +:+ body) = IErr NError.
Proof.
  unfold parse_assign. fold assign_kinds. rewrite no_assign_kind. cbn [pbind].
  assert (Hkey : exists k, parse_assign_key (lead b +:+ body)
                           = IOk (drop_while (in_class ["_"%char]) body) k).
  { unfold parse_assign_key. rewrite preceded_law, space0_law, body_drop. cbn [pbind].
    destruct (plain_name c Hc) as (a & w & Hn & Ha & _).
    assert (Hbody : body = String a (w +:+ t)) by (unfold body; by rewrite Hn).
    rewrite !alt_cons_law. rewrite Hbody.
    assert (Hd : "$"%char <> a) by (by intros <-).
    unfold parse_var_braced at 1. rewrite tag_head_fails by done. cbn [pbind].
    unfold parse_var_dollar at 1. rewrite char_head_fails by (by intros ->). cbn [pbind].
    rewrite <- Hbody, recognize_law, pair_law.
    assert (Hfirst : exists x r, alt [alpha1; tag "_"] body = IOk r x
      /\ drop_while (in_class ["_"%char]) r = drop_while (in_class ["_"%char]) body).
    { rewrite alt_cons_law, alpha1_law, Hbody. unfold one_or_more. simpl.
      destruct (is_ascii_alphabetic a) eqn:Ea.
      - eexists _, _. split; [done|]. rewrite drop_while_weaken.
        + assert (Hi : in_class ["_"%char] a = true)
            by (unfold in_class, is_ascii_alphanumeric; by rewrite Ea).
          by rewrite Hi.
        + intros d Hd'. unfold in_class, is_ascii_alphanumeric. by rewrite Hd'.
      - simpl in Ha. apply Ascii.eqb_eq in Ha as ->. rewrite alt_cons_law, tag_one. simpl.
        eexists _, _. split; [done|]. done. }
    destruct Hfirst as (x & r & -> & Hr'). cbn [pbind].
    destruct (many0_class ["_"%char] r) as [l Hl]. unfold class_parsers in Hl. simpl List.map in Hl.
    rewrite Hl, Hr'. cbn [pbind]. by eexists. }
  destruct Hkey as [k ->]. cbn [pbind]. rewrite space0_law. cbn [pbind].
  pose proof key_rest_no_operator as Hno'. unfold no_operator, next_char in Hno'.
  destruct (drop_while is_blank _) as [|d t']; [done|].
  assert (Heq : starts_with "=" (String d t') = false).
  { unfold starts_with. rewrite strip_prefix_cons. destruct (Ascii.eqb_spec "=" d) as [<-|]; done. }
  by rewrite Heq.
Qed.

End name.

Section command.
Context (c : PlainCommand) (rest : string).
Context (Hc : plain_command c = true) (Hr : ends_command rest = true).

Local Abbreviation text := (body c (print_args (pc_args c) rest)).

Lemma tail_ends_word : ends_word (print_args (pc_args c) rest) = true.
Proof. by apply stops_ends_word, print_args_stops. Qed.

Lemma tail_no_operator : no_operator (print_args (pc_args c) rest) = true.
Proof. destruct (plain_name c Hc) as (_ & _ & _ & _ & _ & _ & ?). by apply no_operator_args. Qed.

Lemma command_reads b : parse_command parse_arg (lead b +:+ text) = IOk rest (command_tree c).
Proof.
  unfold parse_command. rewrite space0_law, body_drop by done. cbn [pbind].
  destruct (plain_name c Hc) as (a & w & Hn & Ha & Hw & _ & Hargs).
  unfold parse_command_literal. rewrite map_law, complete_law, take_while1_law.
  unfold body.
  assert (Hall : string_forallb is_command_char (pc_name c) = true).
  { rewrite Hn. simpl. by rewrite (alpha_command_char a Ha). }
  pose proof (print_args_stops (pc_args c) rest Hr) as Hst.
  assert (Hf : head_fails is_command_char (print_args (pc_args c) rest) = true) by (by apply stops_fails).
  rewrite drop_while_app by done.
  assert (E : match print_args (pc_args c) rest with
              | EmptyString => IErr NIncomplete
              | _ => one_or_more is_command_char (pc_name c +:+ print_args (pc_args c) rest)
              end = IOk (print_args (pc_args c) rest) (pc_name c)).
  { destruct (print_args (pc_args c) rest) eqn:Ep; [done|]. apply one_or_more_app; [done| |done].
    by rewrite Hn. }
  rewrite E. cbn [pbind]. rewrite parse_print_args by done. cbn [pbind as_literal_str].
  assert (Hd : starts_with "-" (pc_name c) = false).
  { rewrite Hn. unfold starts_with, strip_prefix. destruct (Ascii.eqb_spec "-" a) as [<-|]; done. }
  by rewrite Hd.
Qed.

Lemma expression_reads b pe : parse_expression pe (lead b +:+ text) = IOk rest (command_tree c).
Proof.
  unfold parse_expression. rewrite !alt_cons_law, assign_fails, group_fails, comparison_fails
    by (done || apply tail_ends_word || apply tail_no_operator).
  by rewrite command_reads.
Qed.

(** The operator behind a command, as [parse_operand] reads it. *)
Definition post_operator : parser (option Operator) :=
  opt (preceded space0 (alt [map (tag "&&") (fun _ => OpAnd); map (tag "||") (fun _ => OpOr)])).

Lemma operand_reads b pe :
  parse_operand pe (lead b +:+ print_command c rest) =
    let! (i, post) := post_operator rest in IOk i (prefix_of c, command_tree c, post).
Proof.
  unfold parse_operand.
  assert (Hk : shrinks (preceded space0 (tag "!"))) by (apply (yields_shrinks 0 any); yields_text).
  assert (Hstop : forall b', preceded space0 (tag "!") (lead b' +:+ text) = IErr NError).
  { intros b'. rewrite preceded_law, space0_law, body_drop by done. cbn [pbind].
    unfold body. destruct (plain_name c Hc) as (a & w & -> & Ha & _).
    change (String a w +:+ ?t) with (String a (w +:+ t)). rewrite tag_head_fails; [done|]. by intros <-. }
  unfold print_command, prefix_of. change (pc_name c +:+ print_args (pc_args c) rest) with text.
  destruct (pc_negated c).
  - assert (E : preceded space0 (tag "!") (lead b +:+ "!" +:+ text) = IOk text "!").
    { rewrite preceded_law, space0_law. destruct b; cbn [pbind]; simpl drop_while; by rewrite tag_law. }
    rewrite many0_law, E by done. rewrite (proj2 (Nat.eqb_neq _ _)).
    2: { rewrite !append_length. simpl. lia. }
    rewrite many0_law by done. pose proof (Hstop false) as Hs. change (lead false +:+ text) with text in Hs. rewrite Hs.
    cbn [pbind]. pose proof (expression_reads false pe) as He.
    change (lead false +:+ text) with text in He. by rewrite He.
  - change ("" +:+ text) with text. rewrite many0_law, Hstop by done. cbn [pbind].
    rewrite expression_reads. done.
Qed.
End command.

(** ** Reading chains, statements and lines *)

Lemma print_args_length l t : (String.length t <= String.length (print_args l t))%nat.
Proof.
  induction l as [|x l IH]; [done|].
  change (print_args (x :: l) t) with (" " +:+ (print_arg x +:+ print_args l t)).
  rewrite !append_length. lia.
Qed.

Lemma print_command_longer c t b :
  plain_command c = true -> (String.length t < String.length (lead b +:+ print_command c t))%nat.
Proof.
  intros Hc. unfold print_command. rewrite !append_length.
  pose proof (print_args_length (pc_args c) t).
  destruct (plain_name c Hc) as (a & w & -> & _). cbn [String.length]. lia.
Qed.

Lemma more_ends more r : ends_command (print_more more (";" +:+ r)) = true.
Proof. destruct more as [|[[] c] more]; done. Qed.

Lemma semicolon_no_operand pe r : parse_operand pe (";" +:+ r) = IErr NError.
Proof.
  unfold parse_operand. assert (Hk : shrinks (preceded space0 (tag "!"))) by (apply (yields_shrinks 0 any); yields_text).
  assert (Hsp : space0 (";" +:+ r) = IOk (";" +:+ r) "") by by rewrite space0_law.
  rewrite many0_law, preceded_law, Hsp by done. cbn [pbind].
  change (";" +:+ r) with (String char_semicolon r). rewrite tag_head_fails by done. cbn [pbind].
  change (String char_semicolon r) with (";" +:+ r) in *.
  unfold parse_expression. rewrite !alt_cons_law, alt_nil_law.
  assert (E1 : parse_assign (";" +:+ r) = IErr NError).
  { unfold parse_assign. fold assign_kinds.
    assert (E : opt (terminated (alt assign_kinds) space1) (";" +:+ r) = IOk (";" +:+ r) None).
    { unfold assign_kinds. rewrite opt_law, terminated_law, !alt_cons_law, alt_nil_law, !value_law.
      change (";" +:+ r) with (String char_semicolon r). by rewrite !tag_head_fails. }
    rewrite E. cbn [pbind]. unfold parse_assign_key. rewrite preceded_law, Hsp. cbn [pbind].
    change (";" +:+ r) with (String char_semicolon r). rewrite !alt_cons_law, alt_nil_law.
    unfold parse_var_braced at 1. rewrite tag_head_fails by done. cbn [pbind].
    unfold parse_var_dollar at 1. rewrite char_head_fails by done. cbn [pbind].
    rewrite recognize_law, pair_law, !alt_cons_law, alt_nil_law, alpha1_law, tag_head_fails by done.
    by rewrite one_or_more_none. }
  assert (E2 : parse_group pe (";" +:+ r) = IErr NError).
  { unfold parse_group. rewrite preceded_law, Hsp. cbn [pbind]. rewrite delimited_law.
    change (";" +:+ r) with (String char_semicolon r). by rewrite tag_head_fails. }
  assert (E3 : parse_comparison_sugar (";" +:+ r) = IErr NError).
  { unfold parse_comparison_sugar. by rewrite no_more_args. }
  assert (E4 : parse_command parse_arg (";" +:+ r) = IErr NError).
  { unfold parse_command. rewrite Hsp. cbn [pbind]. unfold parse_command_literal.
    by rewrite map_law, complete_law, take_while1_law. }
  by rewrite E1, E2, E3, E4.
Qed.

Lemma chain_reads c more r b :
  plain_command c = true -> forallb (fun '(_, c) => plain_command c) more = true ->
  many0 (parse_operand parse_expressions) (lead b +:+ print_command c (print_more more (";" +:+ r)))
  = IOk (";" +:+ r) (chain_tree c more).
Proof.
  assert (Hk : shrinks (parse_operand parse_expressions)).
  { eapply yields_shrinks, yields_operand, yields_parse_expressions. }
  revert c b. induction more as [|[op c'] more IH]; intros c b Hc Hm.
  - assert (E : post_operator (";" +:+ r) = IOk (";" +:+ r) None).
    { unfold post_operator. rewrite opt_law, preceded_law, space0_law. cbn [pbind].
      change (drop_while is_blank (";" +:+ r)) with (String char_semicolon r).
      rewrite !alt_cons_law, alt_nil_law, !map_law, !tag_head_fails by done. done. }
    simpl print_more. rewrite many0_law, operand_reads, E by done. cbn [pbind].
    rewrite (proj2 (Nat.eqb_neq _ _)).
    2: { pose proof (print_command_longer c (";" +:+ r) b Hc). lia. }
    rewrite many0_law, semicolon_no_operand by done. done.
  - simpl in Hm. apply andb_prop in Hm as [Hc' Hm].
    set (next := print_command c' (print_more more (";" +:+ r))).
    assert (E : post_operator (print_more ((op, c') :: more) (";" +:+ r))
                = IOk (" " +:+ next) (Some (if op then OpAnd else OpOr))).
    { unfold post_operator. rewrite opt_law, preceded_law, space0_law. cbn [pbind].
      rewrite !alt_cons_law, !map_law. destruct op; simpl print_more; fold next; simpl drop_while.
      - rewrite tag_law. done.
      - rewrite !tag_law. done. }
    rewrite many0_law, operand_reads, E by (done || apply more_ends). cbn [pbind].
    rewrite (proj2 (Nat.eqb_neq _ _)).
    2: { pose proof (print_command_longer c (print_more ((op, c') :: more) (";" +:+ r)) b Hc).
         change (print_more ((op, c') :: more) (";" +:+ r))
           with ((if op then " && " else " || ") +:+ next) in *.
         rewrite (append_length (if op then _ else _)) in *. rewrite (append_length " ").
         destruct op; cbn [String.length] in *; lia. }
    pose proof (IH c' true Hc' Hm) as IH'. unfold lead in IH'. fold next in IH'. rewrite IH'. done.
Qed.

(** A printed line ends with a semicolon and starts with no blank. *)
Lemma print_args_app args t : exists p, print_args args t = p +:+ t.
Proof.
  induction args as [|a args [p IH]]; [by exists ""|]. exists (" " +:+ (print_arg a +:+ p)).
  change (print_args (a :: args) t) with (" " +:+ (print_arg a +:+ print_args args t)).
  by rewrite IH, !append_assoc.
Qed.

Lemma print_command_app c t : exists p, print_command c t = p +:+ t.
Proof.
  unfold print_command. destruct (print_args_app (pc_args c) t) as [p ->].
  eexists. by rewrite <- !append_assoc.
Qed.

Lemma print_more_app more t : exists p, print_more more t = p +:+ t.
Proof.
  induction more as [|[op c] more [p IH]]; [by exists ""|]. simpl. rewrite IH.
  destruct (print_command_app c (p +:+ t)) as [q ->].
  exists ((if op then " && " else " || ") +:+ (q +:+ p)). by rewrite !append_assoc.
Qed.

Lemma print_statement_app s t : exists p, print_statement s t = p +:+ ";" +:+ t.
Proof.
  unfold print_statement. destruct (print_more_app (ps_more s) (";" +:+ t)) as [p ->].
  destruct (print_command_app (ps_first s) (p +:+ ";" +:+ t)) as [q ->].
  exists (q +:+ p). by rewrite append_assoc.
Qed.

Lemma print_line_ends s ss : exists p, print_line (s :: ss) = p +:+ ";".
Proof.
  revert s. induction ss as [|s' ss IH]; intros s.
  - destruct (print_statement_app s "") as [p E]. exists p. exact E.
  - destruct (IH s') as [p E]. destruct (print_statement_app s (print_line (s' :: ss))) as [q E'].
    exists (q +:+ ";" +:+ p). change (print_line (s :: s' :: ss)) with (print_statement s (print_line (s' :: ss))).
    by rewrite E', E, !append_assoc.
Qed.

Lemma trim_end_semicolon p : trim_end (p +:+ ";") = p +:+ ";".
Proof.
  induction p as [|c p IH]; [done|].
  change (String c p +:+ ";") with (String c (p +:+ ";")). cbn [trim_end]. rewrite IH.
  by destruct p.
Qed.

Lemma not_whitespace a : (is_ascii_alphabetic a || Ascii.eqb a "_") = true -> is_whitespace a = false.
Proof.
  intros Ha. destruct (is_whitespace a) eqn:E; [|done]. exfalso. revert Ha E.
  unfold is_ascii_alphabetic, is_ascii_upper, is_ascii_lower, is_whitespace, char_between.
  rewrite !orb_true_iff, !andb_true_iff, !N.leb_le, N.eqb_eq, Ascii.eqb_eq.
  intros [[[? ?]|[? ?]]|E]; [lia..|subst; by vm_compute; intros [[]|]].
Qed.

Lemma trim_print_line s ss :
  plain_statement s = true -> trim (print_line (s :: ss)) = print_line (s :: ss).
Proof.
  intros [Hc _]%andb_prop. unfold trim.
  assert (E : trim_start (print_line (s :: ss)) = print_line (s :: ss)).
  { change (print_line (s :: ss)) with (print_statement s (print_line ss)).
    unfold print_statement, print_command.
    destruct (plain_name _ Hc) as (a & w & -> & Ha & _).
    destruct (pc_negated (ps_first s)); [done|]. change ("" +:+ ?t) with t.
    change (String a w +:+ ?t) with (String a (w +:+ t)). cbn [trim_start].
    by rewrite (not_whitespace a Ha). }
  rewrite E. destruct (print_line_ends s ss) as [p ->]. apply trim_end_semicolon.
Qed.

Lemma chain_tree_operators c more : missing_operator (chain_tree c more) = false.
Proof.
  revert c. induction more as [|[op c'] more IH]; intros c; [done|].
  specialize (IH c'). unfold missing_operator in *. simpl chain_tree.
  destruct (chain_tree c' more) as [|x l] eqn:E; [done|]. simpl in *. exact IH.
Qed.

Lemma statement_reads s ss :
  plain_statement s = true ->
  parse_expressions (print_line (s :: ss))
  = IOk (";" +:+ print_line ss) (chain_tree (ps_first s) (ps_more s)).
Proof.
  intros Hs. rewrite parse_expressions_equation. unfold parse_expressions_body.
  rewrite trim_print_line by done. apply andb_prop in Hs as [Hc Hm].
  destruct (print_line_ends s ss) as [p Ep].
  assert (is_empty (print_line (s :: ss)) = false) as -> by (rewrite Ep; by destruct p).
  pose proof (chain_reads (ps_first s) (ps_more s) (print_line ss) false Hc Hm) as E.
  change (lead false +:+ ?t) with t in E.
  change (print_line (s :: ss))
    with (print_command (ps_first s) (print_more (ps_more s) (";" +:+ print_line ss))).
  rewrite E. cbn [pbind]. by rewrite chain_tree_operators.
Qed.

Definition element : parser ExpressionChain := preceded space0 parse_expressions.
Definition separator : parser Ascii.ascii := preceded space0 (char char_semicolon).

Lemma element_reads s ss :
  plain_statement s = true ->
  element (print_line (s :: ss)) = IOk (";" +:+ print_line ss) (chain_tree (ps_first s) (ps_more s)).
Proof.
  intros Hs. unfold element. rewrite preceded_law, space0_law. cbn [pbind].
  rewrite drop_while_none; [by apply statement_reads|].
  apply andb_prop in Hs as [Hc _].
  change (print_line (s :: ss)) with (print_statement s (print_line ss)).
  unfold print_statement, print_command. destruct (plain_name _ Hc) as (a & w & -> & Ha & _).
  destruct (pc_negated _); [done|]. change ("" +:+ ?t) with t.
  change (String a w +:+ ?t) with (String a (w +:+ t)). simpl.
  apply alpha_word_first, word_first_facts in Ha as [Ha _]. unfold word_or_quote in Ha.
  rewrite !negb_orb in Ha. by destruct (is_blank a).
Qed.

Lemma shrinks_element : shrinks element.
Proof. eapply yields_shrinks, (yields_preceded 0 0 any); [yields_text|apply yields_parse_expressions]. Qed.

Lemma shrinks_sep_element : shrinks (preceded separator element).
Proof.
  intros s r a. rewrite preceded_law. intros (r1 & c & E1 & E2%shrinks_element)%pbind_IOk.
  eapply (yields_preceded 0 1 any any) in E1 as [? _]; [lia|yields_text..].
Qed.

Lemma separator_reads t : separator (";" +:+ t) = IOk t char_semicolon.
Proof. unfold separator. rewrite preceded_law, space0_law. cbn [pbind]. by rewrite char_law. Qed.

Lemma statements_read ss :
  forallb plain_statement ss = true ->
  many0 (preceded separator element) (";" +:+ print_line ss)
  = IOk "" (List.map (fun s => chain_tree (ps_first s) (ps_more s)) ss ++ [[]]).
Proof.
  pose proof shrinks_sep_element as Hk.
  induction ss as [|s ss IH]; intros Hss; rewrite many0_law by done;
    rewrite preceded_law, separator_reads; cbn [pbind].
  - assert (E : element "" = IOk "" []).
    { unfold element. by rewrite preceded_law, space0_law. }
    simpl print_line. rewrite E. cbn [pbind]. simpl Nat.eqb.
    rewrite many0_law, preceded_law by done. unfold separator.
    rewrite preceded_law, space0_law. cbn [pbind]. by rewrite char_law.
  - simpl in Hss. apply andb_prop in Hss as [Hs Hss]. rewrite element_reads by done.
    rewrite (proj2 (Nat.eqb_neq _ _)).
    2: { destruct (print_statement_app s (print_line ss)) as [p E].
         change (print_line (s :: ss)) with (print_statement s (print_line ss)).
         rewrite E, !append_length. cbn [String.length]. lia. }
    by rewrite (IH Hss).
Qed.

Lemma filter_trees ss :
  List.map new_expressions
    (List.filter (fun es : ExpressionChain => negb (match es with [] => true | _ => false end))
       (List.map (fun s => chain_tree (ps_first s) (ps_more s)) ss ++ [[]]))
  = List.map statement_tree ss.
Proof.
  induction ss as [|s ss IH]; [done|]. simpl.
  destruct (chain_tree (ps_first s) (ps_more s)) as [|x l] eqn:E.
  - exfalso. by destruct (ps_more s) as [|[]].
  - simpl. rewrite IH. unfold statement_tree. by rewrite E.
Qed.
End read.

Lemma printed_statements_read `{F64Text} `{NomLaws} s ss :
  forallb plain_statement (s :: ss) = true ->
  parse_statements (print_line (s :: ss)) = IOk "" (List.map statement_tree (s :: ss)).
Proof.
  intros [Hs Hss]%andb_prop. unfold parse_statements. fold element. fold separator.
  rewrite separated_list0_law; [| |apply shrinks_element].
  - rewrite element_reads, statements_read by done. cbn [pbind].
    f_equal. exact (filter_trees (s :: ss)).
  - apply (yields_consumes 1 any); [unfold separator; yields_text|lia].
Qed.

Lemma print_line_not_empty s ss : is_empty (print_line (s :: ss)) = false.
Proof. destruct (print_line_ends s ss) as [p ->]. by destruct p. Qed.

(** C7: a line of plain commands, printed as text, is parsed to exactly its
    tree: names, words, quoted texts and variables, negations and operators,
    statement by statement. *)
Theorem parse_print_line `{F64Text} `{NomLaws} s ss :
  forallb plain_statement (s :: ss) = true ->
  parse_line (print_line (s :: ss))
  = Done (mkLine (print_line (s :: ss)) (List.map statement_tree (s :: ss))).
Proof.
  intros Hs. pose proof (andb_prop _ _ Hs) as [Hfirst _].
  unfold parse_line. rewrite trim_print_line by done.
  by rewrite print_line_not_empty, printed_statements_read.
Qed.
