(* ===== verification/ParserEdges.v ===== *)
(** Texts that the block parser does not read the way they are written: a
    command at the end of its text and a quoted text with a dynamic segment. *)

From S2P Require Import Prelude Values Syntax State VarPath Nom Parser ParserFacts ParserTotal ParserRound.

Lemma command_char_not_whitespace c : is_command_char c = true -> is_whitespace c = false.
Proof. destruct c as [[] [] [] [] [] [] [] []]; by vm_compute. Qed.

(** ** A command at the end of its text *)

Section bare.
Context `{F64Text} `{NomLaws}.
Context (name : string) (Hc : plain_command (mkPlainCommand false name []) = true).

Local Abbreviation c := (mkPlainCommand false name []).

Lemma bare_body : body c "" = name.
Proof. apply append_nil_r. Qed.

Lemma bare_drop : drop_while is_blank name = name.
Proof. pose proof (body_drop c "" Hc false) as Hd. by rewrite bare_body in Hd. Qed.

Lemma bare_head : exists a w, name = String a w /\ (is_ascii_alphabetic a || Ascii.eqb a "_") = true.
Proof. destruct (plain_name c Hc) as (a & w & Hn & Ha & _). eauto. Qed.

Lemma bare_chars : string_forallb is_command_char name = true.
Proof.
  destruct (plain_name c Hc) as (a & w & Hn & Ha & Hw & _). simpl in Hn. rewrite Hn.
  simpl. by rewrite (alpha_command_char a Ha).
Qed.

Lemma bare_trim : trim name = name.
Proof.
  destruct bare_head as (a & w & Hn & Ha). unfold trim.
  assert (trim_start name = name) as -> by (rewrite Hn; simpl; by rewrite (not_whitespace a Ha)).
  apply trim_end_solid. eapply string_forallb_impl; [|exact bare_chars].
  intros d Hd. by rewrite command_char_not_whitespace.
Qed.

Lemma bare_not_empty : is_empty name = false.
Proof. by destruct bare_head as (a & w & -> & _). Qed.

Lemma bare_command_fails : parse_command parse_arg name = IErr NError.
Proof.
  unfold parse_command. rewrite space0_law, bare_drop. cbn [pbind].
  unfold parse_command_literal. rewrite map_law, complete_law, take_while1_law.
  assert (drop_while is_command_char name = "") as E.
  { rewrite <- (append_nil_r name). apply drop_while_app; [exact bare_chars|done]. }
  by rewrite E.
Qed.

Lemma bare_operand_fails pe : parse_operand pe name = IErr NError.
Proof.
  destruct bare_head as (a & w & Hn & Ha).
  assert (Hk : shrinks (preceded space0 (tag "!"))) by (apply (yields_shrinks 0 any); yields_text).
  unfold parse_operand. rewrite many0_law, preceded_law, space0_law, bare_drop by done. cbn [pbind].
  assert (tag "!" name = IErr NError) as -> by (rewrite Hn; apply tag_head_fails; by intros <-).
  cbn [pbind]. unfold parse_expression. rewrite !alt_cons_law, alt_nil_law.
  pose proof (assign_fails c "" Hc eq_refl eq_refl false) as E1.
  pose proof (group_fails c "" Hc false pe) as E2.
  pose proof (comparison_fails c "" Hc eq_refl eq_refl false) as E3.
  rewrite bare_body in E1, E2, E3. change (lead false +:+ name) with name in E1, E2, E3.
  by rewrite E1, E2, E3, bare_command_fails.
Qed.

Lemma bare_element : element name = IOk name [].
Proof.
  unfold element. rewrite preceded_law, space0_law. cbn [pbind].
  rewrite bare_drop, parse_expressions_equation. unfold parse_expressions_body.
  rewrite bare_trim, bare_not_empty.
  rewrite many0_law; [|eapply yields_shrinks, yields_operand, yields_parse_expressions].
  by rewrite bare_operand_fails.
Qed.

Lemma bare_separator : separator name = IErr NError.
Proof.
  destruct bare_head as (a & w & Hn & Ha). unfold separator.
  rewrite preceded_law, space0_law, bare_drop. cbn [pbind].
  rewrite Hn. apply char_head_fails. by intros ->.
Qed.

Lemma bare_statements : parse_statements name = IOk name [].
Proof.
  unfold parse_statements. fold element. fold separator.
  rewrite separated_list0_law; [| |apply shrinks_element].
  - rewrite bare_element. cbn [pbind]. rewrite many0_law by apply shrinks_sep_element.
    by rewrite preceded_law, bare_separator.
  - apply (yields_consumes 1 any); [unfold separator; yields_text|lia].
Qed.
End bare.

(** A command without arguments is read before a semicolon and refused at
    the end of its text, where the help of the actions writes it. *)
Theorem bare_command_refused `{F64Text} `{NomLaws} name :
  plain_command (mkPlainCommand false name []) = true ->
  parse_line name = Fail "Unexpected content after statements"
  /\ exists l, parse_line (name +:+ ";") = Done l.
Proof.
  intros Hc. split.
  - unfold parse_line. rewrite bare_trim, bare_not_empty, bare_statements by done. cbn [parsed obind].
    by rewrite bare_trim, bare_not_empty.
  - set (s := mkPlainStatement (mkPlainCommand false name []) []).
    assert (E : name +:+ ";" = print_line [s]) by done.
    assert (Hs : forallb plain_statement [s] = true) by (simpl; unfold plain_statement; simpl; by rewrite Hc).
    eexists. rewrite E. unfold parse_line. rewrite trim_print_line by (simpl in Hs; by apply andb_prop in Hs as [? _]).
    by rewrite print_line_not_empty, printed_statements_read.
Qed.

(** ** A quoted text with a dynamic segment *)

Section dynamic.
Context `{F64Text} `{NomLaws}.

(** The characters that are neither a parenthesis nor an end. *)
Definition passes (c : Ascii.ascii) : bool :=
  negb (ends_interpolated c) && negb (Ascii.eqb c char_lparen).

Lemma interpolated_passes pa w fuel s literal parts used :
  string_forallb passes w = true ->
  interpolated_loop pa (String.length w + fuel) (w +:+ s) literal parts used
  = interpolated_loop pa fuel s (literal +:+ w) parts used.
Proof.
  revert literal. induction w as [|c w IH]; intros literal; [intros _; by rewrite append_nil_r|].
  cbn [string_forallb]. unfold passes at 1. intros [[Hc%negb_true_iff Hp%negb_true_iff]%andb_prop Hw]%andb_prop.
  change (String c w +:+ s) with (String c (w +:+ s)). cbn [String.length plus interpolated_loop].
  rewrite Hc, Hp. cbn [andb]. rewrite IH by done. f_equal. unfold string_snoc.
  by rewrite append_assoc.
Qed.

Lemma match_paren_word w rest :
  string_forallb (fun c => negb (Ascii.eqb c char_lparen) && negb (Ascii.eqb c char_rparen)) w = true ->
  match_paren (w +:+ ")" +:+ rest) 1 = Some (w, rest).
Proof.
  induction w as [|c w IH]; [done|].
  cbn [string_forallb]. intros [[Hc%negb_true_iff Hp%negb_true_iff]%andb_prop Hw]%andb_prop.
  change (String c w +:+ ?s) with (String c (w +:+ s)). cbn [match_paren].
  rewrite Hc, Hp. by rewrite (IH Hw).
Qed.

Lemma trim_word c w :
  word_first c = true -> string_forallb (in_class word_chars) w = true ->
  trim (String c w) = String c w.
Proof.
  intros Hc Hw. assert (Hs : forall d, in_class word_chars d = true -> is_whitespace d = false)
    by (intros [[] [] [] [] [] [] [] []]; by vm_compute).
  assert (Hc' : is_whitespace c = false).
  { apply Hs. unfold word_first in Hc. unfold in_class, word_chars. simpl.
    apply orb_prop in Hc as [-> | ->]; [done|]. by rewrite !orb_true_r. }
  unfold trim. assert (trim_start (String c w) = String c w) as -> by (simpl; by rewrite Hc').
  apply trim_end_solid. simpl. rewrite Hc'. simpl.
  eapply string_forallb_impl; [|exact Hw]. intros d Hd. by rewrite Hs.
Qed.

Lemma word_passes : forall d, in_class word_chars d = true -> passes d = true.
Proof. intros [[] [] [] [] [] [] [] []]; by vm_compute. Qed.

Lemma word_no_paren : forall d, in_class word_chars d = true ->
  negb (Ascii.eqb d char_lparen) && negb (Ascii.eqb d char_rparen) = true.
Proof. intros [[] [] [] [] [] [] [] []]; by vm_compute. Qed.

Lemma word_first_in_class c : word_first c = true -> in_class word_chars c = true.
Proof. revert c. intros [[] [] [] [] [] [] [] []]; by vm_compute. Qed.

Lemma interpolated_segment pa fuel front inner rest arg parts used :
  ends_with "." front = true ->
  string_forallb (in_class word_chars) inner = true -> pa (trim inner) = IOk "" arg ->
  interpolated_loop pa (S fuel) ("(" +:+ inner +:+ ")" +:+ rest) front parts used
  = interpolated_loop pa fuel rest "" (parts ++ [StringLiteral front; arg]) true.
Proof.
  intros Hdot Hin Ha.
  change ("(" +:+ inner +:+ ")" +:+ rest) with (String char_lparen (inner +:+ ")" +:+ rest)).
  cbn [interpolated_loop]. rewrite Hdot.
  change (ends_interpolated char_lparen) with false. rewrite Ascii.eqb_refl. cbn [andb].
  rewrite match_paren_word by (eapply string_forallb_impl; [exact word_no_paren|exact Hin]).
  rewrite Ha. cbn [pbind]. change (is_empty (trim "")) with true. cbn match.
  assert (is_empty front = false) as -> by by destruct front.
  by rewrite <- app_assoc.
Qed.

Lemma interpolated_ends pa fuel rest part parts :
  stops rest = true ->
  interpolated_loop pa (S (S fuel)) ("'" +:+ rest) "" (part :: parts) true
  = IOk rest (append_parts (part :: parts ++ [StringLiteral "'"])).
Proof.
  intros (c & r & -> & [-> | ->])%stops_head; simpl; by destruct parts.
Qed.

(** A single-quoted text with a parenthesis after a dot is not read as the
    text it quotes: the segment becomes an argument of its own, and the quotes
    stay in the texts around it. *)
Theorem quoted_text_interpolated a c w rest :
  string_forallb (in_class word_chars) a = true ->
  word_first c = true -> string_forallb (in_class word_chars) w = true ->
  stops rest = true ->
  parse_arg (("'" +:+ a +:+ ".") +:+ "(" +:+ String c w +:+ ")" +:+ "'" +:+ rest)
  = IOk rest (append_parts
      [StringLiteral ("'" +:+ a +:+ "."); unquoted_arg (String c w); StringLiteral "'"]).
Proof.
  intros Ha Hc Hw Hr. set (inner := String c w).
  assert (Hin : string_forallb (in_class word_chars) inner = true)
    by (simpl; by rewrite Hw, (word_first_in_class c Hc)).
  assert (Harg : parse_arg (trim inner) = IOk "" (unquoted_arg inner)).
  { unfold inner. rewrite trim_word by done. rewrite <- (append_nil_r (String c w)) at 1.
    by apply parse_arg_plain_word. }
  set (front := "'" +:+ a +:+ ".").
  assert (Hdot : ends_with "." front = true) by exact (last_dot ("'" +:+ a) char_dot).
  assert (Hfront : string_forallb passes front = true).
  { change (string_forallb passes (a +:+ ".") = true). clear -Ha.
    induction a as [|d a IH]; [done|]. simpl in Ha. apply andb_prop in Ha as [Hd Ha].
    simpl. by rewrite (word_passes d Hd), (IH Ha). }
  set (tail := "(" +:+ inner +:+ ")" +:+ "'" +:+ rest).
  change (front +:+ tail) with (String char_squote ((a +:+ ".") +:+ tail)).
  rewrite parse_arg_alternatives by done.
  change (String char_squote ((a +:+ ".") +:+ tail)) with (front +:+ tail).
  unfold parse_interpolated_unquoted. rewrite append_length, <- Nat.add_succ_r.
  rewrite (interpolated_passes _ front _ tail _ _ _ Hfront). change ("" +:+ front) with front.
  assert (Ht : exists fuel, String.length tail = S (S fuel))
    by (unfold tail, inner; eexists; cbn [String.length String.append]; done).
  destruct Ht as [fuel ->]. unfold tail. rewrite (interpolated_segment _ _ _ _ _ _ _ _ Hdot Hin Harg).
  change ([] ++ ?l) with l. rewrite interpolated_ends by done. done.
Qed.
End dynamic.
