(* ===== verification/Chains.v ===== *)
(** * Chains, libraries and lookup

    Models [chain/chain.rs] (the blocks of a chain), [chain/manager.rs] (the
    chains of a library, the manager and the linked manager) and the searches
    and forks of [chain/context.rs]. *)

From S2P Require Import Prelude Values Syntax State Collections Env Linker.

(** ** Chains *)

Definition get_block (c : ProcessChain) (id : string) : option Block :=
  List.find (fun b => String.eqb (block_id b) id) (chain_blocks c).

Definition add_block (c : ProcessChain) (b : Block) : Result ProcessChain :=
  match get_block c (block_id b) with
  | Some _ => Err "Block with id already exists in the chain"
  | None => Ok (mkProcessChain (chain_id c) (chain_priority c) (chain_blocks c ++ [b]))
  end.

(** ** Libraries *)

Definition find_chain (chains : list ProcessChain) (id : string) : option ProcessChain :=
  List.find (fun c => String.eqb (chain_id c) id) chains.

Definition sort_chains : list ProcessChain -> list ProcessChain := sort_by_key chain_priority.

(** [ProcessChainListLib::new] and [ProcessChainConstListLib::new]. *)
Definition lib_new (k : LibKind) (id : string) (priority : Z) (chains : list ProcessChain)
  : ProcessChainLib :=
  mkProcessChainLib k id priority (sort_chains chains).

(** [ProcessChainListLib::add_chain]. *)
Definition add_chain (l : ProcessChainLib) (c : ProcessChain) : Result ProcessChainLib :=
  if existsb (fun d => String.eqb (chain_id d) (chain_id c)) (lib_chains l)
  then Err "Process chain with id already exists"
  else Ok (mkProcessChainLib (lib_kind l) (lib_id l) (lib_priority l)
             (sort_chains (lib_chains l ++ [c]))).

(** [ProcessChainLib::get_chain]: the constant library reports a missing chain
    as an error, the other as [None]. *)
Definition lib_get_chain (l : ProcessChainLib) (id : string) : Result (option ProcessChain) :=
  match find_chain (lib_chains l) id, lib_kind l with
  | Some c, _ => Ok (Some c)
  | None, ListLib => Ok None
  | None, ConstListLib => Err "Process chain with id not found"
  end.

Definition get_len (l : ProcessChainLib) : nat := length (lib_chains l).

Definition get_chain_by_index (l : ProcessChainLib) (i : nat) : Result ProcessChain :=
  match lib_chains l !! i with
  | Some c => Ok c
  | None => Err "Index out of bounds for process chain list"
  end.

(** ** Managers *)

Definition find_lib (libs : list ProcessChainLib) (id : string) : option ProcessChainLib :=
  List.find (fun l => String.eqb (lib_id l) id) libs.

(** [add_lib] of both managers. *)
Definition add_lib (libs : list ProcessChainLib) (l : ProcessChainLib)
  : Result (list ProcessChainLib) :=
  if existsb (fun d => String.eqb (lib_id d) (lib_id l)) libs
  then Err "Process chain library with id already exists"
  else Ok (sort_by_key lib_priority (libs ++ [l])).

Fixpoint remove_lib (libs : list ProcessChainLib) (id : string)
  : option ProcessChainLib * list ProcessChainLib :=
  match libs with
  | [] => (None, [])
  | l :: rest =>
      if String.eqb (lib_id l) id then (Some l, rest)
      else let '(r, rest') := remove_lib rest id in (r, l :: rest')
  end.

(** [ProcessChainManager::link]: every library becomes a constant one with its
    chains linked. *)
Section linking.
Context `{CommandParserFactory} (p : ParserContext).

Definition link_lib (l : ProcessChainLib) : Result ProcessChainLib :=
  let? chains := mapR (link_chain p) (lib_chains l) in
  Ok (lib_new ConstListLib (lib_id l) (lib_priority l) chains).

Definition link_manager (libs : list ProcessChainLib) : Result (list ProcessChainLib) :=
  mapR link_lib libs.
End linking.

(** The search loop over all libraries of [get_chain]: an error of one library
    ends it. *)
Fixpoint search_libs_chain (libs : list ProcessChainLib) (id : string)
  : Result (option (ProcessChainLib * ProcessChain)) :=
  match libs with
  | [] => Ok None
  | l :: rest =>
      let? r := lib_get_chain l id in
      match r with
      | Some c => Ok (Some (l, c))
      | None => search_libs_chain rest id
      end
  end.

(** [ProcessChainManager::get_chain]. *)
Definition manager_get_chain (libs : list ProcessChainLib) (id : string)
  : Result (option ProcessChain) :=
  let? r := search_libs_chain libs id in Ok (option_map snd r).

Definition linked_get_chain (libs : list ProcessChainLib) (lib : option string) (id : string)
  : Result (option (ProcessChainLib * ProcessChain)) :=
  match lib with
  | Some lib =>
      match find_lib libs lib with
      | Some l =>
          let? r := lib_get_chain l id in Ok (option_map (fun c => (l, c)) r)
      | None => Ok None
      end
  | None => search_libs_chain libs id
  end.

Fixpoint search_libs_block (libs : list ProcessChainLib) (id block : string)
  : Result (option (ProcessChainLib * ProcessChain)) :=
  match libs with
  | [] => Ok None
  | l :: rest =>
      let? r := lib_get_chain l id in
      match r with
      | Some c =>
          match get_block c block with
          | Some _ => Ok (Some (l, c))
          | None => search_libs_block rest id block
          end
      | None => search_libs_block rest id block
      end
  end.

Definition linked_get_block (libs : list ProcessChainLib) (lib : option string) (id block : string)
  : Result (option (ProcessChainLib * ProcessChain)) :=
  match lib with
  | Some lib =>
      match find_lib libs lib with
      | Some l =>
          let? r := lib_get_chain l id in
          match r with
          | Some c =>
              match get_block c block with
              | Some _ => Ok (Some (l, c))
              | None => Ok None
              end
          | None => Ok None
          end
      | None => Ok None
      end
  | None => search_libs_block libs id block
  end.

(** ** Contexts *)

Record Context : Type := mkContext {
  ctx_libs : list ProcessChainLib;
  ctx_env : EnvManager
}.

Record SearchResult : Type := mkSearchResult {
  sr_lib : option ProcessChainLib;
  same_lib : bool;
  sr_chain : option ProcessChain;
  same_chain : bool
}.

Definition search_lib (ctx : Context) (id : string) : M (option SearchResult) :=
  let* cur := gets current_lib in
  let from_manager :=
    match find_lib (ctx_libs ctx) id with
    | Some l => ret (Some (mkSearchResult (Some l) false None false))
    | None => ret None
    end in
  match cur with
  | Some l =>
      if String.eqb (lib_id l) id then ret (Some (mkSearchResult (Some l) true None false))
      else from_manager
  | None => from_manager
  end.

(** The library named is the current one, or none is named. *)
Definition lib_matches (l : ProcessChainLib) (id : option string) : bool :=
  match id with Some id => String.eqb (lib_id l) id | None => true end.

(** The [None] arm of both searches unwraps the library id for its log line. *)
Definition not_found_in_manager {A} (lib : option string) : M (option A) :=
  match lib with
  | Some _ => ret None
  | None => panic "called Option::unwrap on a None value"
  end.

Definition search_chain (ctx : Context) (lib : option string) (id : string)
  : M (option SearchResult) :=
  let from_manager :=
    let* r := of_result (linked_get_chain (ctx_libs ctx) lib id) in
    match r with
    | Some (l, c) => ret (Some (mkSearchResult (Some l) false (Some c) false))
    | None => not_found_in_manager lib
    end in
  let* cur_lib := gets current_lib in
  let* cur_chain := gets current_chain in
  match cur_lib with
  | Some l =>
      if lib_matches l lib then
        let in_lib :=
          let* r := of_result (lib_get_chain l id) in
          match r with
          | Some c => ret (Some (mkSearchResult (Some l) true (Some c) false))
          | None => if is_some lib then ret None else from_manager
          end in
        match cur_chain with
        | Some c =>
            if String.eqb (chain_id c) id
            then ret (Some (mkSearchResult (Some l) true (Some c) true))
            else in_lib
        | None => in_lib
        end
      else from_manager
  | None => from_manager
  end.

Definition search_block (ctx : Context) (lib chain : option string) (block : string)
  : M (option SearchResult) :=
  let from_manager :=
    match chain with
    | None => ret None
    | Some chain =>
        let* r := of_result (linked_get_block (ctx_libs ctx) lib chain block) in
        match r with
        | Some (l, c) => ret (Some (mkSearchResult (Some l) false (Some c) false))
        | None => not_found_in_manager lib
        end
    end in
  let* cur_lib := gets current_lib in
  let* cur_chain := gets current_chain in
  match cur_lib with
  | Some l =>
      if lib_matches l lib then
        let in_lib :=
          match chain with
          | None => from_manager
          | Some chain =>
              let* r := of_result (lib_get_chain l chain) in
              match r with
              | Some c =>
                  match get_block c block with
                  | Some _ => ret (Some (mkSearchResult (Some l) true (Some c) false))
                  | None => if is_some lib then ret None else from_manager
                  end
              | None => if is_some lib then ret None else from_manager
              end
          end in
        match cur_chain with
        | Some c =>
            if match chain with None => true | Some id => String.eqb (chain_id c) id end then
              match get_block c block with
              | Some _ => ret (Some (mkSearchResult (Some l) true (Some c) true))
              | None => if is_some chain then in_lib else ret None
              end
            else in_lib
        | None => if is_some chain then in_lib else ret None
        end
      else from_manager
  | None => from_manager
  end.

(** [fork_block] shares the chain environment, [fork_chain] makes a new one. *)
Definition fork_block (ctx : Context) : M Context :=
  let em := ctx_env ctx in
  let* em' := em_new (em_global em) (em_chain em) (em_policy em) in
  ret (mkContext (ctx_libs ctx) em').

Definition fork_chain (ctx : Context) : M Context :=
  let em := ctx_env ctx in
  let* chain := env_new EvChain (Some (em_global em)) in
  let* em' := em_new (em_global em) chain (em_policy em) in
  ret (mkContext (ctx_libs ctx) em').

(** [Context::new] with the global environment [ProcessChainLibExecutor::new]
    makes for it. *)
Definition context_new (libs : list ProcessChainLib) (hook_point_env : option loc)
    (policy : ExecutionPolicy) : M Context :=
  let* global := env_new EvGlobal hook_point_env in
  let* chain := env_new EvChain (Some global) in
  let* em := em_new global chain policy in
  ret (mkContext libs em).
