(* ===== verification/Commands.v ===== *)
(** * Leaf commands

    Models the executors of [cmd/coll.rs], [cmd/type_.rs], [cmd/value.rs], the
    comparisons of [cmd/match_.rs] and the plain string commands of
    [cmd/string.rs]: what a command does with the values of its arguments.
    The groups of values come in the order of the executor's fields.  Other
    commands are the interface [LeafCommands]. *)

From S2P Require Import Prelude Values Syntax State Collections Linker Env Chains.

(** ** Strings *)

(** The text before and after the first occurrence of [d]. *)
Fixpoint find_str (d s : string) : option (string * string) :=
  match strip_prefix d s with
  | Some rest => Some (EmptyString, rest)
  | None =>
      match s with
      | EmptyString => None
      | String a s' => option_map (fun '(pre, rest) => (String a pre, rest)) (find_str d s')
      end
  end.

(** [str::split] by a string that is not empty; each turn consumes it once. *)
Fixpoint split_fuel (fuel : nat) (d s : string) : list string :=
  match fuel, find_str d s with
  | S fuel', Some (pre, rest) => pre :: split_fuel fuel' d rest
  | _, _ => [s]
  end.

Definition split_str (d s : string) : list string := split_fuel (String.length s) d s.

Definition chars (s : string) : list string :=
  map (fun a => String a EmptyString) (String.list_ascii_of_string s).

(** [str::replace]; an empty pattern matches around every character. *)
Definition replace_str (d new s : string) : string :=
  String.concat new
    (if String.eqb d "" then EmptyString :: chars s ++ [EmptyString] else split_str d s).

Definition string_drop (n : nat) (s : string) : string :=
  String.substring n (String.length s - n) s.

Definition strip_prefix_ignore_case (value prefix : string) : option string :=
  match strip_prefix (to_ascii_lowercase prefix) (to_ascii_lowercase value) with
  | None => None
  | Some _ => Some (string_drop (String.length prefix) value)
  end.

Definition strip_suffix_ignore_case (value suffix : string) : option string :=
  match strip_suffix (to_ascii_lowercase suffix) (to_ascii_lowercase value) with
  | None => None
  | Some _ => Some (String.substring 0 (String.length value - String.length suffix) value)
  end.

Definition parse_range (range : string) : Result (Z * Z) :=
  match split_on ":" range with
  | [a; b] =>
      match parse_usize a with
      | None => Err "Invalid start index"
      | Some s =>
          match parse_usize b with
          | None => Err "Invalid end index"
          | Some e => Ok (s, e)
          end
      end
  | _ => Err "Invalid range format"
  end.

(** [str::get(start..end)] with [start <= end]. *)
Definition slice (s : string) (range : Z * Z) : option string :=
  let '(a, b) := range in
  if (a <=? b) && (b <=? Z.of_nat (String.length s))
  then Some (String.substring (Z.to_nat a) (Z.to_nat (b - a)) s)
  else None.

Definition split_segments (value delimiter : string) (skip_empty : bool) : Result (list string) :=
  if String.eqb delimiter "" then Err "Delimiter for split command cannot be empty"
  else Ok (List.filter (fun s => negb skip_empty || negb (String.eqb s "")) (split_str delimiter value)).

(** ** Comparisons *)

Definition eq_ignore_ascii_case (a b : string) : bool :=
  String.eqb (to_ascii_lowercase a) (to_ascii_lowercase b).

Definition compare_strict (ignore_case : bool) (a b : TypedValue) : bool :=
  match a, b with
  | VString x, VString y => if ignore_case then eq_ignore_ascii_case x y else value_eqb a b
  | _, _ => value_eqb a b
  end.

Section compare.
Context `{F64Text}.

(** [parse_number_literal] of the comparisons. *)
Definition literal_f64 (raw : string) : option Z := option_map as_f64 (parse_number_literal raw).

Definition as_loose_number (v : TypedValue) : option Z :=
  match v with
  | VNumber n => Some (as_f64 n)
  | VString s => literal_f64 s
  | _ => None
  end.

Definition compare_loose (ignore_case : bool) (a b : TypedValue) : bool :=
  match a, b with
  | VString x, VString y => if ignore_case then eq_ignore_ascii_case x y else String.eqb x y
  | _, _ =>
      if is_null a || is_null b then is_null a && is_null b
      else
        match a, b with
        | VNumber x, VNumber y => f64_compare Z.eqb (as_f64 x) (as_f64 y)
        | VBool x, VBool y => eqb x y
        | VString _, VNumber _ | VNumber _, VString _ =>
            match as_loose_number a, as_loose_number b with
            | Some x, Some y => f64_compare Z.eqb x y
            | _, _ => value_eqb a b
            end
        | _, _ => value_eqb a b
        end
  end.

Definition compare_values (ignore_case loose : bool) (a b : TypedValue) : bool :=
  if loose then compare_loose ignore_case a b else compare_strict ignore_case a b.

Definition compare_op (op : NumberCompareOp) (a b : Z) : bool :=
  match op with
  | CmpGt => f64_compare Z.ltb b a
  | CmpGe => f64_compare Z.leb b a
  | CmpLt => f64_compare Z.ltb a b
  | CmpLe => f64_compare Z.leb a b
  end.

Definition parse_compare_number (v : TypedValue) (loose : bool) : option Z :=
  match v with
  | VNumber n => Some (as_f64 n)
  | VString s => if loose then literal_f64 s else None
  | _ => None
  end.

Definition number_compare (op : NumberCompareOp) (loose : bool) (a b : TypedValue) : bool :=
  match parse_compare_number a loose, parse_compare_number b loose with
  | Some x, Some y => compare_op op x y
  | _, _ => false
  end.

Definition in_range (value min max : NumberValue) : bool :=
  compare_op CmpGe (as_f64 value) (as_f64 min) && compare_op CmpLe (as_f64 value) (as_f64 max).
End compare.

(** ** Executors *)

Definition bool_result (b : bool) : CommandResult :=
  if b then RSuccess (VBool true) else RError (VBool false).
Definition error : CommandResult := RError (VString "").
Definition error_with_string (s : string) : CommandResult := RError (VString s).
Definition value_or_error (v : option TypedValue) : CommandResult :=
  match v with Some v => RSuccess v | None => error end.

(** The string an argument of mode [AmString] evaluated to. *)
Definition string_of (v : TypedValue) : string :=
  match v with VString s => s | _ => EmptyString end.

(** The head of the collection commands: a string names a variable with the
    collection; a missing one is an error result, a value of another type an
    error. *)
Definition with_collection (em : EnvManager) (v : TypedValue) (accept : TypedValue -> bool)
    (missing expected must : string) (body : TypedValue -> M CommandResult) : M CommandResult :=
  match v with
  | VString id =>
      let* r := em_get em id None in
      match r with
      | None => ret (error_with_string missing)
      | Some c => if accept c then body c else fail expected
      end
  | _ => if accept v then body v else fail must
  end.

Definition is_list (v : TypedValue) : bool := match v with VList _ => true | _ => false end.
Definition is_set (v : TypedValue) : bool := match v with VSet _ => true | _ => false end.
Definition is_any_map (v : TypedValue) : bool :=
  match v with VMap _ | VMultiMap _ => true | _ => false end.

Definition with_list (em : EnvManager) (v : TypedValue) (body : loc -> M CommandResult)
  : M CommandResult :=
  with_collection em v is_list "List collection with id not found"
    "Expected CollectionValue::List" "Collection must be a List"
    (fun c => match c with VList l => body l | _ => panic "unreachable: not a list" end).

Definition with_set (em : EnvManager) (v : TypedValue) (body : loc -> M CommandResult)
  : M CommandResult :=
  with_collection em v is_set "Set collection with id not found"
    "Expected CollectionValue::Set" "Collection must be a Set"
    (fun c => match c with VSet l => body l | _ => panic "unreachable: not a set" end).

Definition match_include (em : EnvManager) (collection : TypedValue) (key : string)
    (values : list string) : M CommandResult :=
  with_collection em collection is_collection "Collection with id not found"
    "Expected a collection type for match-include command"
    "Collection must be List/Set/Map/MultiMap for match-include command"
    (fun c =>
       match c with
       | VList l => let* b := list_contains_all_strings l (key :: values) in ret (bool_result b)
       | VSet l => let* b := set_contains l key in ret (bool_result b)
       | VMap l =>
           let* v := map_get l key in
           ret (bool_result
                  match v, values with
                  | None, _ => false
                  | Some _, [] => true
                  | Some (VString s), x :: _ => String.eqb x s
                  | Some _, _ :: _ => false
                  end)
       | VMultiMap l =>
           let* b :=
             match values with
             | [] => mm_contains_key l key
             | _ => mm_contains_value l key values
             end in
           ret (bool_result b)
       | _ => panic "unreachable: not a collection"
       end).

Definition index_of (v : TypedValue) : Z := default 0 (parse_usize (string_of v)).

Definition list_push_command (em : EnvManager) (target : TypedValue) (values : list TypedValue)
  : M CommandResult :=
  with_list em target (fun l => forM_ (list_push l) values ;; ret success).

Definition list_insert_command (em : EnvManager) (target index value : TypedValue)
  : M CommandResult :=
  with_list em target (fun l => list_insert l (index_of index) value ;; ret success).

Definition list_set_command (em : EnvManager) (target index value : TypedValue) : M CommandResult :=
  with_list em target (fun l =>
    let* r := list_set l (index_of index) value in
    ret (match r with Some prev => RSuccess prev | None => success end)).

Definition list_remove_command (em : EnvManager) (target index : TypedValue) : M CommandResult :=
  with_list em target (fun l =>
    let* r := list_remove l (index_of index) in ret (value_or_error r)).

Definition list_pop_command (em : EnvManager) (target : TypedValue) : M CommandResult :=
  with_list em target (fun l => let* r := list_pop l in ret (value_or_error r)).

Definition list_clear_command (em : EnvManager) (target : TypedValue) : M CommandResult :=
  with_list em target (fun l => list_clear l ;; ret success).

(** [create_collection] of the create commands. *)
Definition create_command (em : EnvManager) (id : string) (t : CollectionType) (level : EnvLevel)
    (msg : string) : M CommandResult :=
  let* r := create_collection em id t level in
  ret (match r with Some _ => success | None => error_with_string msg end).

(** The loops of [set-add] and [set-remove]: whether any call changed the set. *)
Fixpoint any_changed (f : string -> M bool) (values : list string) : M bool :=
  match values with
  | [] => ret false
  | v :: rest =>
      let* b := f v in
      let* r := any_changed f rest in
      ret (b || r)
  end.

Definition set_command (em : EnvManager) (set : TypedValue) (op : loc -> string -> M bool)
    (values : list string) : M CommandResult :=
  with_set em set (fun l =>
    let* b := any_changed (op l) values in
    ret (if b : bool then success else error)).

(** [join_set_collection_values]. *)
Definition join_set_values (l : loc) : M string :=
  with_traverse KSet l (read KSet l (String.concat " ")).

Definition map_add (em : EnvManager) (map : TypedValue) (key : string) (values : list string)
  : M CommandResult :=
  with_collection em map is_any_map "Map collection with id not found"
    "Expected CollectionValue::Map or CollectionValue::MultiMap"
    "Collection must be a Map or MultiMap for map-add command"
    (fun c =>
       match c, values with
       | VMap l, v :: _ => map_insert l key (VString v) ;; ret success
       | VMultiMap l, _ :: _ =>
           let* b :=
             match values with
             | [v] => mm_insert l key v
             | _ => mm_insert_many l key values
             end in
           ret (if b : bool then success
                else error_with_string "Key with values already exists in multi-map collection")
       | _, _ => panic "index out of bounds"
       end).

(** [raw] are the texts of the value arguments. *)
Definition map_remove_command (em : EnvManager) (map : TypedValue) (key : string)
    (values raw : list string) : M CommandResult :=
  with_collection em map is_any_map "Map collection with id not found"
    "Expected CollectionValue::Map or CollectionValue::MultiMap"
    "Collection must be a Map or MultiMap for map-remove command"
    (fun c =>
       match c with
       | VMap l => let* v := map_remove l key in ret (value_or_error v)
       | VMultiMap l =>
           let joined := fun s : option loc =>
             match s with
             | Some l => let* v := join_set_values l in ret (Some (VString v))
             | None => ret None
             end in
           let* v :=
             match values with
             | [] => let* s := mm_remove_all l key in joined s
             | [v] => let* b := mm_remove l key v in
                      ret (if b : bool then Some (VString v) else None)
             | _ => let* s := mm_remove_many l key raw in joined s
             end in
           ret (value_or_error v)
       | _ => panic "unreachable: not a map"
       end).

Definition has_kind (k : ValuePredicateKind) (v : TypedValue) : bool :=
  match k, v with
  | PkNull, VNull | PkBool, VBool _ | PkNumber, VNumber _ => true
  | _, _ => false
  end.

Definition type_command (em : EnvManager) (level : option EnvLevel) (name : string)
  : M CommandResult :=
  let* r := em_get em name level in
  ret (match r with
       | Some v => RSuccess (VString (get_type v))
       | None => error_with_string "None"
       end).

(** [StringSplitCommand::build_list]. *)
Definition build_list (segments : list string) : M TypedValue :=
  let* l := alloc KList [] in
  forM_ (fun s => list_push l (VString s)) segments ;;
  ret (VList l).

Definition split_command (em : EnvManager) (value delimiter : string) (capture : option string)
    (skip_empty : bool) : M CommandResult :=
  let* segments := of_result (split_segments value delimiter skip_empty) in
  match capture with
  | Some name => let* l := build_list segments in em_set em name l None ;; ret tt
  | None => ret tt
  end ;;
  let* l := build_list segments in
  ret (RSuccess l).

Definition replace_command (em : EnvManager) (key match_text new_text key_name : string)
  : M CommandResult :=
  if is_some (find_str match_text key) then
    let rewritten := replace_str match_text new_text key in
    em_set em key_name (VString rewritten) None ;;
    ret (RSuccess (VString rewritten))
  else ret error.

Definition slice_command (s range : string) : M CommandResult :=
  let* r := of_result (parse_range range) in
  ret (value_or_error (option_map VString (slice s r))).

Definition append_command (params : list TypedValue) : CommandResult :=
  RSuccess (VString (String.concat "" (map treat_as_str params))).

Definition strlen_command (s : string) : CommandResult :=
  RSuccess (VNumber (NInt (Z.of_nat (String.length s)))).

(** [starts_with] and [ends_with], on the lower-case texts if [ignore_case]. *)
Definition starts_with_command (ignore_case : bool) (s prefix : string) : CommandResult :=
  bool_result (is_some (
    if ignore_case then strip_prefix (to_ascii_lowercase prefix) (to_ascii_lowercase s)
    else strip_prefix prefix s)).

Definition ends_with_command (ignore_case : bool) (s suffix : string) : CommandResult :=
  bool_result (is_some (
    if ignore_case then strip_suffix (to_ascii_lowercase suffix) (to_ascii_lowercase s)
    else strip_suffix suffix s)).

Definition strip_prefix_command (ignore_case : bool) (value prefix : string) : CommandResult :=
  value_or_error (option_map VString (
    if ignore_case then strip_prefix_ignore_case value prefix else strip_prefix prefix value)).

Definition strip_suffix_command (ignore_case : bool) (value suffix : string) : CommandResult :=
  value_or_error (option_map VString (
    if ignore_case then strip_suffix_ignore_case value suffix else strip_suffix suffix value)).

(** The commands that are not modelled. *)
Class LeafCommands : Type := {
  leaf_exec : string -> list (list TypedValue) -> Context -> M CommandResult
}.

Section leaf.
Context `{F64Text} `{LeafCommands}.

(** [exec] of the collection commands, on the values of their arguments. *)
Definition collection_command (em : EnvManager) (c : LeafCommand) (args : list (list TypedValue))
  : option (M CommandResult) :=
  match c, args with
  | LcMatchInclude, [[coll]; [key]; values] =>
      Some (match_include em coll (string_of key) (map string_of values))
  | LcListCreate level, [[id]] =>
      Some (create_command em (string_of id) CtList level "Failed to create list collection with id")
  | LcListPush, [[l]; values] =>
      Some (list_push_command em l values)
  | LcListInsert, [[l]; [i]; [v]] =>
      Some (list_insert_command em l i v)
  | LcListSet, [[l]; [i]; [v]] =>
      Some (list_set_command em l i v)
  | LcListRemove, [[l]; [i]] =>
      Some (list_remove_command em l i)
  | LcListPop, [[l]] => Some (list_pop_command em l)
  | LcListClear, [[l]] => Some (list_clear_command em l)
  | LcSetCreate level, [[id]] =>
      Some (create_command em (string_of id) CtSet level "Failed to create set collection with id")
  | LcSetAdd, [[s]; values] => Some (set_command em s set_insert (map string_of values))
  | LcSetRemove, [[s]; values] => Some (set_command em s set_remove (map string_of values))
  | LcMapCreate is_multi level, [[id]] =>
      Some (create_command em (string_of id) (if is_multi : bool then CtMultiMap else CtMap) level
              "Failed to create map collection with id")
  | LcMapAdd, [[m]; [key]; values] =>
      Some (map_add em m (string_of key) (map string_of values))
  | LcMapRemove, [[m]; [key]; values; raw] =>
      Some (map_remove_command em m (string_of key) (map string_of values) (map string_of raw))
  | _, _ => None
  end.

(** [exec] of the comparison and string commands. *)
Definition value_command (em : EnvManager) (c : LeafCommand) (args : list (list TypedValue))
  : option (M CommandResult) :=
  match c, args with
  | LcType level name, [] => Some (type_command em level name)
  | LcPredicate k, [[v]] => Some (ret (bool_result (has_kind k v)))
  | LcEq ic loose, [[a]; [b]] => Some (ret (bool_result (compare_values ic loose a b)))
  | LcNe ic loose, [[a]; [b]] => Some (ret (bool_result (negb (compare_values ic loose a b))))
  | LcCompare op loose, [[a]; [b]] => Some (ret (bool_result (number_compare op loose a b)))
  | LcRange, [[VNumber v]; [VNumber min]; [VNumber max]] =>
      Some (ret (bool_result (in_range v min max)))
  | LcAppend, [params] => Some (ret (append_command params))
  | LcSlice, [[s]; [range]] => Some (slice_command (string_of s) (string_of range))
  | LcSplit capture skip_empty, [[v]; [d]] =>
      Some (split_command em (string_of v) (string_of d) capture skip_empty)
  | LcStrlen, [[s]] => Some (ret (strlen_command (string_of s)))
  | LcStartsWith ic, [[s]; [prefix]] =>
      Some (ret (starts_with_command ic (string_of s) (string_of prefix)))
  | LcEndsWith ic, [[s]; [suffix]] =>
      Some (ret (ends_with_command ic (string_of s) (string_of suffix)))
  | LcStripPrefix ic, [[v]; [prefix]] =>
      Some (ret (strip_prefix_command ic (string_of v) (string_of prefix)))
  | LcStripSuffix ic, [[v]; [suffix]] =>
      Some (ret (strip_suffix_command ic (string_of v) (string_of suffix)))
  | LcReplace, [[key]; [m]; [n]; [name]] =>
      Some (replace_command em (string_of key) (string_of m) (string_of n) (string_of name))
  | _, _ => None
  end.

(** A command with other groups of arguments than its parser builds does not
    exist in the code. *)
Definition leaf_command (c : LeafCommand) (args : list (list TypedValue)) (ctx : Context)
  : M CommandResult :=
  match c with
  | LcOther name => leaf_exec name args ctx
  | _ =>
      match collection_command (ctx_env ctx) c args, value_command (ctx_env ctx) c args with
      | Some m, _ | None, Some m => m
      | None, None => panic "malformed command"
      end
  end.
End leaf.
