(* ===== verification/Effects.v ===== *)
(** * The effects of a command

    What any step of an execution may do to the shared state ([Step]): new
    objects appear, collections that nobody traverses change, but the
    execution stack, the registered environments and scopes, the traversal
    counters and the collections under traversal stay as they are.  A
    computation with such effects that does not run out of fuel in a
    [grounded] state is [benign]; every operation on collections, environments
    and variables is.

    [Closed] relations are relations on computations compatible with the ways
    the interpreter builds commands from benign operations, nested calls and
    the three guards; [Interp] proves that execution is compatible with every
    closed relation, and its theorems are instances. *)

From S2P Require Import Prelude Values Syntax State Collections Env VarPath Chains.

(** ** State steps *)

Definition heap_wf (st : state) : Prop :=
  forall E (k : kind E) l, kind_wf k (obj_data (obj_at k l st)).

(** Variables of visitors are registered without a cycle: [rank] goes down
    from a variable to the key it stands for. *)
Definition visitors_ranked (rank : string -> nat) (st : state) : Prop :=
  forall v vis id key read_only, st_visitors st !! v = Some vis ->
    vis_vars vis !! id = Some (key, read_only) -> (rank key < rank id)%nat.

(** The parent of an environment is an older one. *)
Definition parents_older (st : state) : Prop :=
  forall e env p, st_envs st !! e = Some env -> env_parent env = Some p -> (p < e)%nat.

(** The states in which every chain of visitors and of parents ends. *)
Record grounded (st : state) : Prop := {
  grounded_visitors : exists rank, visitors_ranked rank st;
  grounded_parents : parents_older st
}.

Record Step (st st' : state) : Prop := {
  step_stack : st_stack st' = st_stack st;
  step_envs : forall e env, st_envs st !! e = Some env -> st_envs st' !! e = Some env;
  step_scopes : forall x s, st_scopes st !! x = Some s -> st_scopes st' !! x = Some s;
  step_trav : forall E (k : kind E) l, obj_trav (obj_at k l st') = obj_trav (obj_at k l st);
  step_data : forall E (k : kind E) l,
    (0 < obj_trav (obj_at k l st))%nat -> obj_at k l st' = obj_at k l st;
  step_visitors : st_visitors st' = st_visitors st;
  step_wf : heap_wf st -> heap_wf st';
  step_parents : parents_older st -> parents_older st'
}.

Lemma step_grounded st st' : Step st st' -> grounded st -> grounded st'.
Proof.
  intros HS [[rank Hr] Hp]. split; [|by apply (step_parents _ _ HS)].
  exists rank. unfold visitors_ranked. by rewrite (step_visitors _ _ HS).
Qed.

#[export] Instance Step_PreOrder : PreOrder Step.
Proof.
  split.
  - intros st. by split.
  - intros s1 s2 s3 H12 H23. split.
    + by rewrite (step_stack _ _ H23), (step_stack _ _ H12).
    + intros. by apply (step_envs _ _ H23), (step_envs _ _ H12).
    + intros. by apply (step_scopes _ _ H23), (step_scopes _ _ H12).
    + intros. by rewrite (step_trav _ _ H23), (step_trav _ _ H12).
    + intros E k l Hl. rewrite (step_data _ _ H23); [by apply (step_data _ _ H12)|].
      by rewrite (step_trav _ _ H12).
    + by rewrite (step_visitors _ _ H23), (step_visitors _ _ H12).
    + intros Hw. by apply (step_wf _ _ H23), (step_wf _ _ H12).
    + intros Hp. by apply (step_parents _ _ H23), (step_parents _ _ H12).
Qed.

(** ** Objects *)

Lemma heap_set_heap {E} (k : kind E) h st : heap k (set_heap k h st) = h.
Proof. by destruct k. Qed.

Lemma obj_at_set_obj {E} (k : kind E) l l' o st :
  obj_at k l' (set_obj k l o st) = if decide (l = l') then o else obj_at k l' st.
Proof.
  unfold obj_at, set_obj. rewrite heap_set_heap. case_decide; subst.
  - by rewrite lookup_insert_eq.
  - by rewrite lookup_insert_ne.
Qed.

(** A step, and then a change of the object at [l], which nobody traverses. *)
Lemma Step_set_obj_from {E} st0 (k : kind E) l o st :
  Step st0 st -> obj_trav (obj_at k l st) = 0%nat -> obj_trav o = 0%nat ->
  (heap_wf st0 -> kind_wf k (obj_data o)) -> Step st0 (set_obj k l o st).
Proof.
  intros HS Hl Ho Hwf. split.
  - destruct k; apply (step_stack _ _ HS).
  - pose proof (step_envs _ _ HS). by destruct k.
  - pose proof (step_scopes _ _ HS). by destruct k.
  - intros E' k' l'. pose proof (step_trav _ _ HS E' k' l').
    destruct k, k'; try done; rewrite obj_at_set_obj; case_decide; congruence.
  - intros E' k' l' Ht. pose proof (step_trav _ _ HS E' k' l').
    pose proof (step_data _ _ HS E' k' l' Ht).
    destruct k, k'; try done; (rewrite obj_at_set_obj, decide_False; [done|intros ->; lia]).
  - destruct k; apply (step_visitors _ _ HS).
  - intros Hw E' k' l'. specialize (Hwf Hw). pose proof (step_wf _ _ HS Hw E' k' l').
    destruct k, k'; try done; rewrite obj_at_set_obj; by case_decide.
  - pose proof (step_parents _ _ HS). by destruct k.
Qed.

Lemma Step_set_obj {E} (k : kind E) l o st :
  obj_trav (obj_at k l st) = 0%nat -> obj_trav o = 0%nat ->
  (heap_wf st -> kind_wf k (obj_data o)) -> Step st (set_obj k l o st).
Proof. by apply Step_set_obj_from. Qed.

Lemma fresh_in_lookup {A} (m : gmap nat A) : m !! fresh_in m = None.
Proof. apply not_elem_of_dom, is_fresh. Qed.

Lemma Step_alloc_from {E} st0 (k : kind E) o st :
  Step st0 st -> obj_trav o = 0%nat -> (heap_wf st0 -> kind_wf k (obj_data o)) ->
  Step st0 (set_obj k (fresh_in (heap k st)) o st).
Proof.
  intros HS Ho Hw. apply Step_set_obj_from; [done| |done|done].
  unfold obj_at. by rewrite fresh_in_lookup.
Qed.

Lemma Step_alloc {E} (k : kind E) o st :
  obj_trav o = 0%nat -> (heap_wf st -> kind_wf k (obj_data o)) ->
  Step st (set_obj k (fresh_in (heap k st)) o st).
Proof. by apply Step_alloc_from. Qed.

Lemma Step_set_trackers m st : Step st (set_trackers m st).
Proof.
  split; try done; try (intros E k l; by destruct k).
Qed.

Lemma lt_fresh (x : nat) (X : gset nat) : x ∈ X -> (x < fresh X)%nat.
Proof.
  intros Hx. apply elem_of_elements in Hx. unfold fresh, set_fresh, fresh, infinite_fresh.
  simpl. induction Hx; simpl; lia.
Qed.

Lemma Step_add_env e st : Step st (set_envs (<[fresh_env e st := e]> (st_envs st)) st).
Proof.
  split; try done; try (intros E k l; by destruct k).
  - intros e' env He. simpl. rewrite lookup_insert_ne; [done|].
    intros <-. apply elem_of_dom_2 in He.
    apply (is_fresh (from_option singleton ∅ (env_parent e) ∪ dom (st_envs st))), elem_of_union.
    by right.
  - intros Hp e' env p He Hpar. simpl in He. apply lookup_insert_Some in He as [[<- <-]|[_ He]].
    + apply lt_fresh, elem_of_union. left. rewrite Hpar. by apply elem_of_singleton.
    + by eapply Hp.
Qed.

(** ** Benign computations *)

Definition benign {A} (m : M A) : Prop :=
  forall st, (grounded st -> fst (m st) <> OutOfFuel) /\ Step st (snd (m st)).

Create HintDb benign discriminated.

Lemma benign_ret {A} (a : A) : benign (ret a).
Proof. by intros st. Qed.
Lemma benign_fail {A} msg : benign (@fail A msg).
Proof. by intros st. Qed.
Lemma benign_panic {A} msg : benign (@panic A msg).
Proof. by intros st. Qed.
Lemma benign_gets {A} (f : state -> A) : benign (gets f).
Proof. by intros st. Qed.
Lemma benign_of_result {A} (r : Result A) : benign (of_result r).
Proof. destruct r; [apply benign_ret|apply benign_fail]. Qed.

Lemma bind_ret_l {A B} (a : A) (k : A -> M B) : bind (ret a) k = k a.
Proof. reflexivity. Qed.

Lemma bind_run {A B} (m : M A) (k : A -> M B) st a st1 :
  m st = (Done a, st1) -> bind m k st = k a st1.
Proof. intros Hm. unfold bind. by rewrite Hm. Qed.

Lemma benign_bind {A B} (m : M A) (k : A -> M B) :
  benign m -> (forall a, benign (k a)) -> benign (bind m k).
Proof.
  intros Hm Hk st. unfold bind. destruct (Hm st) as [Hf Hs].
  destruct (m st) as [r st1]. simpl in *.
  destruct r as [a| | |]; [|done|done|split; [intros Hg; by destruct (Hf Hg)|done]].
  destruct (Hk a st1) as [Hf' Hs']. split; [|by etransitivity].
  intros Hg. by apply Hf', (step_grounded st).
Qed.

Lemma benign_attempt {A} (m : M A) : benign m -> benign (attempt m).
Proof.
  intros Hm st. unfold attempt. destruct (Hm st) as [Hf Hs].
  destruct (m st) as [r st1]. destruct r; [done..|]. split; [intros Hg; by destruct (Hf Hg)|done].
Qed.

Lemma benign_mutate {E B} (k : kind E) l msg (f : list E -> Result B * list E) :
  (forall d, kind_wf k d -> kind_wf k (snd (f d))) -> benign (mutate k l msg f).
Proof.
  intros Hf st. unfold mutate. destruct (Nat.ltb_spec 0 (obj_trav (obj_at k l st))); [done|].
  specialize (Hf (obj_data (obj_at k l st))).
  destruct (f _) as [[b|e] data]; [|done]. split; [done|].
  apply Step_set_obj; simpl; [lia..|]. intros Hw. by apply Hf, Hw.
Qed.

Lemma benign_read {E B} (k : kind E) l (f : list E -> B) : benign (read k l f).
Proof. apply benign_gets. Qed.

Lemma benign_alloc {E} (k : kind E) data : kind_wf k data -> benign (alloc k data).
Proof. intros Hd st. split; [done|]. by apply Step_alloc. Qed.

Lemma kind_wf_nil {E} (k : kind E) : kind_wf k [].
Proof. destruct k; simpl; try apply NoDup_nil_2; [done|]. split; [apply NoDup_nil_2|done]. Qed.

Lemma benign_alloc_nil {E} (k : kind E) : benign (alloc k []).
Proof. apply benign_alloc, kind_wf_nil. Qed.

Lemma benign_alloc_list data : benign (alloc KList data).
Proof. by apply benign_alloc. Qed.

(** A set built from an iterator of values: insertion drops the duplicates. *)
Lemma benign_alloc_set values : benign (alloc KSet (is_insert_all values [])).
Proof. apply benign_alloc, is_insert_all_NoDup, NoDup_nil_2. Qed.

Lemma benign_alloc_env e : benign (alloc_env e).
Proof. intros st. split; [done|]. apply Step_add_env. Qed.

Lemma benign_alloc_tracker : benign alloc_tracker.
Proof. intros st. split; [done|]. apply Step_set_trackers. Qed.

Lemma benign_update_tracker em f : benign (update_tracker em f).
Proof. intros st. split; [done|]. apply Step_set_trackers. Qed.

Lemma benign_mapM {A B} (f : A -> M B) l : (forall a, benign (f a)) -> benign (mapM f l).
Proof.
  intros Hf. induction l; simpl; auto using benign_ret, benign_bind.
Qed.

Lemma benign_forM_ {A} (f : A -> M unit) l : (forall a, benign (f a)) -> benign (forM_ f l).
Proof.
  intros Hf. induction l; simpl; auto using benign_ret, benign_bind.
Qed.

#[export] Hint Resolve benign_ret benign_fail benign_panic benign_gets benign_of_result
  benign_read benign_alloc_nil benign_alloc_list benign_alloc_set benign_alloc_env benign_alloc_tracker
  benign_update_tracker benign_attempt : benign.

(** Decompose a computation along its binds and case distinctions. *)
Ltac benign :=
  intros;
  repeat match goal with
  | |- benign (bind _ _) => apply benign_bind; [|intros ?]
  | |- benign (mapM _ _) => apply benign_mapM; intros ?
  | |- benign (forM_ _ _) => apply benign_forM_; intros ?
  | |- benign (match ?x with _ => _ end) => destruct x
  | |- benign (let '(_, _) := ?x in _) => destruct x
  | |- benign _ => solve [eauto 2 with benign]
  end.

(** ** Collections *)

Lemma benign_list_len l : benign (list_len l).
Proof. unfold list_len. benign. Qed.
Lemma benign_list_push l v : benign (list_push l v).
Proof. by apply benign_mutate. Qed.
Lemma benign_list_insert l i v : benign (list_insert l i v).
Proof. by apply benign_mutate. Qed.
Lemma benign_list_set l i v : benign (list_set l i v).
Proof. by apply benign_mutate. Qed.
Lemma benign_list_get l i : benign (list_get l i).
Proof. unfold list_get. benign. Qed.
Lemma benign_list_remove l i : benign (list_remove l i).
Proof. by apply benign_mutate. Qed.
Lemma benign_list_pop l : benign (list_pop l).
Proof. by apply benign_mutate. Qed.
Lemma benign_list_clear l : benign (list_clear l).
Proof. by apply benign_mutate. Qed.
Lemma benign_set_insert l x : benign (set_insert l x).
Proof.
  apply benign_mutate. intros d Hd. pose proof (is_insert_NoDup x d Hd). by destruct (is_insert x d).
Qed.
Lemma benign_set_contains l x : benign (set_contains l x).
Proof. unfold set_contains. benign. Qed.
Lemma benign_set_remove l x : benign (set_remove l x).
Proof. apply benign_mutate. intros d Hd. by apply is_remove_NoDup. Qed.
Lemma benign_map_contains_key l k : benign (map_contains_key l k).
Proof. unfold map_contains_key. benign. Qed.
Lemma benign_map_insert_new l k v : benign (map_insert_new l k v).
Proof.
  apply benign_mutate. intros d Hd. destruct (im_get k d); [done|]. by apply im_insert_NoDup.
Qed.
Lemma benign_map_remove l k : benign (map_remove l k).
Proof. apply benign_mutate. intros d Hd. by apply im_remove_NoDup. Qed.
Lemma benign_mm_insert l k v : benign (mm_insert l k v).
Proof.
  apply benign_mutate. intros d Hd.
  pose proof (is_insert_NoDup v _ (mm_wf_get d k Hd)) as Hs. destruct (is_insert v _).
  by apply mm_wf_set.
Qed.
Lemma benign_mm_insert_many l k vs : benign (mm_insert_many l k vs).
Proof.
  apply benign_mutate. intros d Hd. by apply mm_wf_set, is_insert_all_NoDup, mm_wf_get.
Qed.
Lemma benign_mm_remove l k v : benign (mm_remove l k v).
Proof.
  apply benign_mutate. intros d Hd. destruct (im_get k d) eqn:E; [|done].
  apply mm_wf_put_set; [done|]. by eapply is_remove_NoDup, (proj2 Hd).
Qed.

(** A fresh set with the values a multimap operation yields. *)
Lemma benign_alloc_values (m : M (option (list string))) :
  benign m -> (forall st s st', heap_wf st -> m st = (Done (Some s), st') -> NoDup s) ->
  benign (let* o := m in
          match o with Some s => let* c := alloc KSet s in ret (Some c) | None => ret None end).
Proof.
  intros Hm Hs st. unfold bind. destruct (Hm st) as [Hf HS]. specialize (Hs st).
  destruct (m st) as [[[s|]| | |] st1]; [|done..|split; [intros Hg; by destruct (Hf Hg)|done]].
  split; [done|]. apply (Step_alloc_from st KSet (mkObj s 0) st1); [done|done|]. intros Hw. by eapply Hs.
Qed.

Lemma benign_mm_get_many l k : benign (mm_get_many l k).
Proof.
  apply benign_alloc_values; [benign|]. intros st s st' Hw Hr. unfold read, gets in Hr.
  simplify_eq. by eapply (proj2 (Hw _ KMultiMap l)).
Qed.

Lemma benign_mm_remove_all l k : benign (mm_remove_all l k).
Proof.
  apply benign_alloc_values; [apply benign_mutate; intros d; apply mm_wf_delete|].
  intros st s st' Hw Hr. unfold mutate in Hr. case_in Hr; simplify_eq.
  by eapply (proj2 (Hw _ KMultiMap l)).
Qed.

Lemma benign_mm_remove_many l k vs : benign (mm_remove_many l k vs).
Proof.
  assert (forall d s, kind_wf KMultiMap d -> im_get k d = Some s ->
    let '(s', r') := fold_left (fun '(s, removed) v =>
      if is_mem v s then (is_remove v s, snd (is_insert v removed)) else (s, removed)) vs (s, []) in
    NoDup s' /\ NoDup r') as Hn.
  { intros d s Hd Hg. apply remove_many_NoDup; [by eapply (proj2 Hd)|apply NoDup_nil_2]. }
  apply benign_alloc_values.
  - apply benign_mutate. intros d Hd. destruct (im_get k d) as [s|] eqn:E; [|done].
    specialize (Hn d s Hd E). destruct (fold_left _ vs (s, [])) as [s' r'].
    apply mm_wf_put_set; [done|apply Hn].
  - intros st s st' Hw Hr. unfold mutate in Hr. specialize (Hw _ KMultiMap l).
    destruct (0 <? _)%nat; [done|].
    destruct (im_get k (obj_data (obj_at KMultiMap l st))) as [s0|] eqn:E; [|done].
    specialize (Hn _ s0 Hw E). destruct (fold_left _ vs (s0, [])) as [s' r'].
    simplify_eq. apply Hn.
Qed.

(** *** Chains of visitors

    [map_get] changes nothing and never yields a visitor; the rank of the key
    goes down with each visitor it follows. *)

Definition pure {A} (m : M A) : Prop := forall st, snd (m st) = st.

Lemma pure_bind {A B} (m : M A) (k : A -> M B) : pure m -> (forall a, pure (k a)) -> pure (bind m k).
Proof.
  intros Hm Hk st. unfold bind. specialize (Hm st). destruct (m st) as [[a| | |] st1];
    simpl in *; subst; [apply Hk|done..].
Qed.

Lemma bind_not_out {A B} (m : M A) (k : A -> M B) st :
  fst (m st) <> OutOfFuel -> pure m -> (forall a, fst (k a st) <> OutOfFuel) ->
  fst (bind m k st) <> OutOfFuel.
Proof.
  intros Hf Hm Hk. unfold bind. specialize (Hm st). destruct (m st) as [[a| | |] st1];
    simpl in *; subst; auto.
Qed.

Ltac pure :=
  repeat match goal with
  | |- pure (bind _ _) => apply pure_bind; [|intros ?]
  | |- pure (match ?x with _ => _ end) => destruct x
  | |- pure _ => first [by intros ?|by eauto]
  end.

Lemma pure_visitor_loop get fuel v k : (forall l k, pure (get l k)) -> pure (visitor_loop get fuel v k).
Proof. intros Hg. revert v. induction fuel; intros v; simpl; unfold visitor_get; pure. Qed.

Lemma pure_map_get_fuel fuel l k : pure (map_get_fuel fuel l k).
Proof. revert l k. induction fuel; intros l k; simpl; pure. by apply pure_visitor_loop. Qed.

Lemma pure_map_get l k : pure (map_get l k).
Proof. unfold map_get. apply pure_bind; [done|]. intros n. apply pure_map_get_fuel. Qed.

Lemma filter_length_lt {A} (P Q : A -> Prop) `{!forall x, Decision (P x), !forall x, Decision (Q x)} x l :
  (forall y, P y -> Q y) -> x ∈ l -> Q x -> ~ P x -> (length (filter P l) < length (filter Q l))%nat.
Proof.
  intros HPQ Hx Hq Hp. apply elem_of_Permutation in Hx as [l' ->].
  rewrite filter_cons_False, filter_cons_True by done. simpl. apply Nat.lt_succ_r.
  induction l' as [|y l' IH]; [done|]. rewrite !filter_cons.
  destruct (decide (P y)) as [Hy|]; [rewrite decide_True by auto; simpl; lia|].
  case_decide; simpl; lia.
Qed.

(** The registered variables up to the rank of a key. *)
Definition ids_below (rank : string -> nat) (key : string) (st : state) : nat :=
  length (filter (fun p => (rank p.2 <= rank key)%nat) (visitor_ids st)).

Lemma ids_below_le rank key st : (ids_below rank key st <= length (visitor_ids st))%nat.
Proof. apply length_filter. Qed.

Lemma elem_of_visitor_ids v vis id x st :
  st_visitors st !! v = Some vis -> vis_vars vis !! id = Some x -> (v, id) ∈ visitor_ids st.
Proof.
  intros Hv Hi. apply list_elem_of_In, in_concat.
  exists (map (fun '(id, _) => (v, id)) (map_to_list (vis_vars vis))).
  split; apply in_map_iff; [exists (v, vis)|exists (id, x)];
    (split; [done|]); apply list_elem_of_In; by apply elem_of_map_to_list.
Qed.

Lemma ids_below_lt rank v id key read_only st :
  visitors_ranked rank st -> vis_vars (visitor_at v st) !! id = Some (key, read_only) ->
  (ids_below rank key st < ids_below rank id st)%nat.
Proof.
  unfold visitor_at. intros Hr Hi. destruct (st_visitors st !! v) as [vis|] eqn:Hv; [|done].
  pose proof (Hr v vis id key read_only Hv Hi) as Hlt.
  apply (filter_length_lt _ _ (v, id)); simpl; [lia|by eapply elem_of_visitor_ids|lia..].
Qed.

Definition no_visitor (r : Outcome (option TypedValue)) : Prop :=
  match r with OutOfFuel => False | Done (Some (VVisitor _)) => False | _ => True end.

Lemma map_get_fuel_ends rank fuel l key st :
  visitors_ranked rank st -> (ids_below rank key st < fuel)%nat ->
  no_visitor (fst (map_get_fuel fuel l key st)).
Proof.
  intros Hr. revert l key. induction fuel as [|fuel IH]; intros l key Hlt; [lia|].
  cbn [map_get_fuel]. unfold bind at 1, read, gets.
  destruct (im_get key _) as [[]|]; try done. rename l0 into v.
  assert (no_visitor (fst (visitor_loop (map_get_fuel fuel) fuel v key st))); [|done].
  destruct fuel as [|fuel]; cbn [visitor_loop]; unfold visitor_get, gets, bind at 1 2;
    (destruct (vis_vars (visitor_at v st) !! key) as [[key' ro]|] eqn:Hi; [|done]);
    pose proof (ids_below_lt rank v key key' ro st Hr Hi);
    (specialize (IH (vis_collection (visitor_at v st)) key' ltac:(lia)));
    unfold bind; destruct (map_get_fuel _ _ _ st) as [[[[]|]| | |] st1]; done.
Qed.

Lemma map_insert_fuel_ends rank fuel l key v st :
  visitors_ranked rank st -> (ids_below rank key st < fuel)%nat ->
  fst (map_insert_fuel fuel l key v st) <> OutOfFuel.
Proof.
  intros Hr. revert l key st Hr. induction fuel as [|fuel IH]; intros l key st Hr Hlt; [lia|].
  cbn [map_insert_fuel]. unfold bind, mutate. destruct (0 <? _)%nat; [done|].
  destruct (im_get key _) as [[]|]; try done. set (st1 := set_obj KMap _ _ st).
  unfold visitor_set, bind, gets. destruct (vis_vars (visitor_at l0 st1) !! key) as [[key' []]|] eqn:Hi;
    try done.
  apply IH; [done|]. pose proof (ids_below_lt rank l0 key key' false st Hr Hi).
  change (ids_below rank key' st1) with (ids_below rank key' st). lia.
Qed.

Lemma Step_map_insert_fuel fuel l k v st : Step st (snd (map_insert_fuel fuel l k v st)).
Proof.
  assert (forall k l, benign (mutate KMap l "Cannot insert key during traversal" (fun d =>
    match im_get k d with
    | Some (VVisitor vis) => (Ok (inl vis), d)
    | Some prev => (Ok (inr (Some prev)), im_insert k v d)
    | None => (Ok (inr None : loc + option TypedValue), im_insert k v d)
    end))) as Hm.
  { intros k' l'. apply benign_mutate. intros d Hd.
    destruct (im_get k' d) as [[]|]; simpl; try done; by apply im_insert_NoDup. }
  revert l k st. induction fuel as [|fuel IH]; intros l k st; cbn [map_insert_fuel];
    unfold bind at 1; pose proof (proj2 (Hm k l st)) as HS;
    destruct (mutate _ _ _ _ st) as [[[vis|prev]| | |] st1]; try exact HS.
  unfold visitor_set, bind, gets. destruct (vis_vars (visitor_at vis st1) !! k) as [[k' []]|];
    try exact HS. by transitivity st1.
Qed.

Lemma benign_map_get l k : benign (map_get l k).
Proof.
  intros st. rewrite pure_map_get. split; [|done]. intros [[rank Hr] _].
  pose proof (map_get_fuel_ends rank (S (length (visitor_ids st))) l k st Hr) as He.
  pose proof (ids_below_le rank k st). unfold map_get, bind, gets.
  intros E. rewrite E in He. apply He. lia.
Qed.

Lemma benign_map_insert l k v : benign (map_insert l k v).
Proof.
  intros st. unfold map_insert, bind, gets. split; [|apply Step_map_insert_fuel].
  intros [[rank Hr] _]. apply (map_insert_fuel_ends rank); [done|].
  pose proof (ids_below_le rank k st). lia.
Qed.

#[export] Hint Resolve benign_list_len benign_list_push benign_list_insert benign_list_set
  benign_list_get benign_list_remove benign_list_pop benign_list_clear benign_set_insert benign_set_contains benign_set_remove
  benign_map_contains_key benign_map_insert_new benign_map_remove benign_mm_insert
  benign_mm_insert_many benign_mm_remove benign_mm_remove_many
  benign_mm_get_many benign_mm_remove_all benign_map_get benign_map_insert : benign.

(** ** Environments *)

Lemma benign_current_scope x : benign (current_scope x).
Proof. unfold current_scope. benign. Qed.
#[export] Hint Resolve benign_current_scope : benign.

Lemma benign_ext_contains x k : benign (ext_contains x k).
Proof. unfold ext_contains. benign. Qed.
Lemma benign_ext_get_existing x k : benign (ext_get_existing x k).
Proof. unfold ext_get_existing. benign. Qed.
Lemma benign_ext_set_existing x k v : benign (ext_set_existing x k v).
Proof. unfold ext_set_existing. benign. Qed.
Lemma benign_ext_remove_existing x k : benign (ext_remove_existing x k).
Proof. unfold ext_remove_existing. benign. Qed.
Lemma benign_scope_set x k v : benign (scope_set x k v).
Proof. unfold scope_set. benign. Qed.
#[export] Hint Resolve benign_ext_contains benign_ext_get_existing benign_ext_set_existing
  benign_ext_remove_existing benign_scope_set : benign.

Lemma benign_exts_contains xs k : benign (exts_contains xs k).
Proof. induction xs as [|[i x] xs IH]; simpl; benign. Qed.

Lemma benign_exts_first f xs : (forall x, benign (f x)) -> benign (exts_first f xs).
Proof. intros Hf. induction xs as [|[i x] xs IH]; simpl; benign. Qed.
#[export] Hint Resolve benign_exts_contains benign_exts_first : benign.

Lemma benign_env_contains e k : benign (env_contains e k).
Proof. unfold env_contains. benign. Qed.
Lemma benign_env_create e k v : benign (env_create e k v).
Proof. unfold env_create. benign. Qed.
Lemma benign_env_set e k v : benign (env_set e k v).
Proof. unfold env_set. benign. Qed.

(** *** Chains of parents *)

Lemma pure_exts_first f xs : (forall x, pure (f x)) -> pure (exts_first f xs).
Proof. intros Hf. induction xs as [|[i x] xs IH]; simpl; pure. Qed.

Lemma pure_ext_get_existing x k : pure (ext_get_existing x k).
Proof.
  unfold ext_get_existing, current_scope, map_contains_key. pure; apply pure_map_get.
Qed.

Lemma pure_env_get_fuel n e k : pure (env_get_fuel n e k).
Proof.
  revert e. induction n; intros e; simpl; pure;
    (apply pure_map_get || (apply pure_exts_first; intros; apply pure_ext_get_existing)).
Qed.

(** The environments up to a location. *)
Definition envs_below (e : loc) (st : state) : nat :=
  length (filter (fun x => (x <= e)%nat) (elements (dom (st_envs st)))).

Lemma envs_below_lt e p st :
  parents_older st -> env_parent (env_at e st) = Some p ->
  (envs_below p st < envs_below e st)%nat.
Proof.
  unfold env_at. intros Ho Hp. destruct (st_envs st !! e) as [env|] eqn:He; [|done].
  pose proof (Ho e env p He Hp). apply (filter_length_lt _ _ e); [lia| |lia..].
  apply elem_of_elements. by eapply elem_of_dom_2.
Qed.

Lemma env_get_fuel_ends n e k st :
  grounded st -> (envs_below e st <= n)%nat -> fst (env_get_fuel n e k st) <> OutOfFuel.
Proof.
  intros Hg. revert e. induction n as [|n IH]; intros e Hn; cbn [env_get_fuel];
    unfold bind at 1, gets; set (env := env_at e st);
    (apply (bind_not_out (map_get (env_values env) k));
      [by apply benign_map_get|apply pure_map_get|intros [v|]; [done|]]);
    (apply bind_not_out;
      [destruct (has_external env); [apply benign_exts_first; [benign|done]|done]
      |destruct (has_external env); [apply pure_exts_first; intros; apply pure_ext_get_existing|done]
      |intros [[] v]; [done|]]);
    (destruct (env_parent env) as [p|] eqn:Hp; [|done]);
    pose proof (envs_below_lt e p st (grounded_parents _ Hg) Hp); [lia|].
  apply IH. lia.
Qed.

Lemma benign_env_get e k : benign (env_get e k).
Proof.
  intros st. unfold env_get, bind, gets. rewrite pure_env_get_fuel. split; [|done].
  intros Hg. apply env_get_fuel_ends; [done|]. unfold envs_below.
  etransitivity; [apply length_filter|]. by rewrite <- size_dom.
Qed.
Lemma benign_env_remove e k : benign (env_remove e k).
Proof. unfold env_remove. benign. Qed.
Lemma benign_env_new lvl p : benign (env_new lvl p).
Proof. unfold env_new. benign. Qed.
Lemma benign_path_list_index k : benign (path_list_index k).
Proof. unfold path_list_index. benign. Qed.
#[export] Hint Resolve benign_env_contains benign_env_create benign_env_set benign_env_get
  benign_env_remove benign_env_new benign_path_list_index : benign.

Lemma benign_path_get c k : benign (path_get c k).
Proof. destruct c; simpl; benign. Qed.
Lemma benign_path_insert_new c k v : benign (path_insert_new c k v).
Proof. destruct c; simpl; benign. Qed.
Lemma benign_path_insert c k v : benign (path_insert c k v).
Proof. destruct c; simpl; benign. Qed.
Lemma benign_path_remove c k : benign (path_remove c k).
Proof. destruct c; simpl; benign. Qed.
#[export] Hint Resolve benign_path_get benign_path_insert_new benign_path_insert
  benign_path_remove : benign.

Lemma benign_parent_loop c parts : benign (parent_loop c parts).
Proof. revert c. induction parts; intros c; simpl; benign. Qed.
#[export] Hint Resolve benign_parent_loop : benign.

Lemma benign_resolve_level em k l : benign (resolve_level em k l).
Proof.
  unfold resolve_level, get_var_level_for_root, var_level_entry_for_root. benign.
Qed.
Lemma benign_track_level em k l : benign (track_level em k l).
Proof.
  unfold track_level, should_change_var_level_for_root, var_level_entry_for_root,
    change_var_level_for_root. benign.
Qed.
#[export] Hint Resolve benign_resolve_level benign_track_level : benign.

Lemma benign_em_get em k l : benign (em_get em k l).
Proof. unfold em_get, get_inner, get_parent_collection_by_path. benign. Qed.
Lemma benign_em_set em k v l : benign (em_set em k v l).
Proof.
  unfold em_set, set_simple_root_at_level, set_inner, get_parent_collection_by_path. benign.
Qed.
Lemma benign_set_explicit em k v l : benign (set_simple_root_at_explicit_level em k v l).
Proof. unfold set_simple_root_at_explicit_level, change_var_level_for_root. benign. Qed.
Lemma benign_em_remove em k l : benign (em_remove em k l).
Proof. unfold em_remove, remove_inner, get_parent_collection_by_path. benign. Qed.
Lemma benign_em_create em k v l : benign (em_create em k v l).
Proof. unfold em_create, create_inner, get_parent_collection_by_path. benign. Qed.
Lemma benign_change_var_level em k l : benign (change_var_level em k l).
Proof. unfold change_var_level, change_var_level_for_root. benign. Qed.
Lemma benign_em_new g c p : benign (em_new g c p).
Proof. unfold em_new. benign. Qed.
#[export] Hint Resolve benign_em_get benign_em_set benign_set_explicit benign_em_remove
  benign_em_create benign_change_var_level benign_em_new : benign.

Lemma benign_snapshot_block_var em n : benign (snapshot_block_var em n).
Proof. unfold snapshot_block_var, var_level_entry, var_level_entry_for_root. benign. Qed.
Lemma benign_restore_block_var em s : benign (restore_block_var em s).
Proof. unfold restore_block_var, restore_var_level_entry. benign. Qed.
#[export] Hint Resolve benign_snapshot_block_var benign_restore_block_var : benign.
Lemma benign_restore_block_vars em ss : benign (restore_block_vars em ss).
Proof. unfold restore_block_vars. benign. Qed.
#[export] Hint Resolve benign_restore_block_vars : benign.

(** ** Lookup and forks *)

Lemma benign_not_found A l : benign (@not_found_in_manager A l).
Proof. unfold not_found_in_manager. benign. Qed.
#[export] Hint Resolve benign_not_found : benign.

Lemma benign_search_lib ctx id : benign (search_lib ctx id).
Proof. unfold search_lib. benign. Qed.
Lemma benign_search_chain ctx l id : benign (search_chain ctx l id).
Proof. unfold search_chain. benign. Qed.
Lemma benign_search_block ctx l c id : benign (search_block ctx l c id).
Proof. unfold search_block. benign. Qed.
Lemma benign_fork_block ctx : benign (fork_block ctx).
Proof. unfold fork_block. benign. Qed.
Lemma benign_fork_chain ctx : benign (fork_chain ctx).
Proof. unfold fork_chain. benign. Qed.
#[export] Hint Resolve benign_search_lib benign_search_chain benign_search_block
  benign_fork_block benign_fork_chain : benign.

(** ** Variable expressions *)

Abbreviation slen := String.length (only parsing).

Lemma after_char_length c s r : after_char c s = Some r -> slen s = S (slen r).
Proof. destruct s; simpl; intros H; [done|]. case_in H; by simplify_eq. Qed.

Lemma match_bracket_length s d q e c r :
  match_bracket s d q e = Some (c, r) -> (slen c + slen r < slen s)%nat.
Proof.
  revert d q e c. induction s as [|a s IH]; intros d q e c Hm; simpl in Hm; [done|].
  case_in Hm; simplify_eq; simpl;
    repeat match goal with
    | H : option_map _ ?x = _ |- _ => destruct x as [[c' r']|] eqn:E; simplify_eq/=; apply IH in E
    end; lia.
Qed.

Lemma split_coalesce_length s p b q e l r :
  split_coalesce s p b q e = Some (l, r) -> (slen l + slen r < slen s)%nat.
Proof.
  revert p b q e l. induction s as [|a s IH]; intros p b q e l Hm; [done|].
  cbn [split_coalesce] in Hm.
  assert (Hk : forall p b q e l,
    option_map (fun '(c, r) => (String a c, r)) (split_coalesce s p b q e) = Some (l, r) ->
    (slen l + slen r < S (slen s))%nat).
  { intros p' b' q' e' l' H. destruct (split_coalesce s p' b' q' e') as [[c r']|] eqn:E; [|done].
    simplify_eq/=. apply IH in E. lia. }
  clear IH. change (slen (String a s)) with (S (slen s)).
  case_in Hm; try (by eapply Hk).
  simplify_eq. match goal with H : after_char _ _ = Some _ |- _ => apply after_char_length in H end.
  simpl. lia.
Qed.

(** The expression of a dynamic segment is shorter than [n]. *)
Definition seg_lt (n : nat) (s : VarPathSegment) : Prop :=
  match s with SegDynamic e => (slen e < n)%nat | SegStatic _ => True end.

Lemma parse_dynamic_segment_lt inner seg n :
  parse_dynamic_segment inner = Ok seg -> (slen inner <= n)%nat -> seg_lt n seg.
Proof.
  intros Hp Hn. pose proof (trim_length inner) as Ht. unfold parse_dynamic_segment in Hp.
  destruct (after_char char_dollar (trim inner)) as [rest|] eqn:E; [|by simplify_eq].
  apply after_char_length in E. pose proof (trim_length rest).
  destruct (after_char "{" rest) as [s|] eqn:E2; case_in Hp; simplify_eq; simpl; [|lia].
  apply after_char_length in E2. unfold string_butlast.
  pose proof (substring_length 0 (slen s - 1) s).
  pose proof (trim_length (String.substring 0 (slen s - 1) s)). lia.
Qed.

Lemma parse_bracket_segment_lt s seg rest n :
  parse_bracket_segment s = Ok (seg, rest) -> (slen s <= n)%nat ->
  seg_lt n seg /\ (slen rest < slen s)%nat.
Proof.
  unfold parse_bracket_segment. intros Hp Hn.
  destruct (match_bracket s 1 None false) as [[inner r]|] eqn:E; [|done].
  apply match_bracket_length in E. pose proof (trim_length inner) as Ht.
  destruct (trim inner) as [|a t] eqn:Et; [simplify_eq; split; [done|lia]|].
  match type of Hp with (if ?b then _ else _) = _ => destruct b end;
    [simplify_eq; split; [done|lia]|].
  destruct (parse_dynamic_segment (String a t)) eqn:Ed; simplify_eq/=.
  split; [|lia]. eapply parse_dynamic_segment_lt; [exact Ed|]. simpl in *. lia.
Qed.

Lemma paren_segment_lt s seg rest n :
  paren_segment s = Ok (seg, rest) -> (slen s <= n)%nat ->
  seg_lt n seg /\ (slen rest < slen s)%nat.
Proof.
  unfold paren_segment. intros Hp Hn.
  destruct (match_paren s 1) as [[inner r]|] eqn:E; [|done].
  apply match_paren_length in E.
  destruct (parse_dynamic_segment inner) eqn:Ed; simplify_eq/=.
  split; [|lia]. eapply parse_dynamic_segment_lt; [exact Ed|lia].
Qed.

Definition segs_lt (n : nat) (segs : list VarPathAccessSegment) : Prop :=
  Forall (fun a => seg_lt n (segment a)) segs.

Lemma push_static_lt n segs cur p :
  segs_lt n segs -> segs_lt n (fst (push_static_segment segs cur p)).
Proof.
  intros H. unfold push_static_segment. destruct cur; simpl; [done|].
  apply Forall_app. split; [done|]. by repeat constructor.
Qed.

Lemma segs_lt_snoc n segs seg o :
  segs_lt n segs -> seg_lt n seg -> segs_lt n (segs ++ [mkAccess seg o]).
Proof. intros. apply Forall_app. split; [done|]. by repeat constructor. Qed.

Lemma finish_path_lt n cur segs p out :
  finish_path cur segs p = Ok out -> segs_lt n segs -> segs_lt n out.
Proof.
  unfold finish_path. intros Hf Hs.
  assert (segs_lt n (match cur with
    | EmptyString => segs | _ => segs ++ [mkAccess (SegStatic cur) p] end)) as Hs'.
  { destruct cur; [done|]. by apply segs_lt_snoc. }
  destruct cur, p; simplify_eq; case_in Hf; by simplify_eq.
Qed.

(** Every dynamic segment of a path is shorter than the path. *)
Lemma parse_path_loop_lt n fuel s cur segs p out :
  parse_path_loop fuel s cur segs p = Ok out -> segs_lt n segs -> (slen s <= n)%nat ->
  segs_lt n out.
Proof.
  revert s cur segs p. induction fuel as [|fuel IH]; intros s cur segs p Hp Hs Hn.
  { simpl in Hp. destruct s; eapply finish_path_lt; eauto. }
  destruct s as [|a s]; [eapply finish_path_lt; eauto|].
  cbn [parse_path_loop] in Hp. simpl in Hn.
  pose proof (push_static_lt n segs cur p Hs) as Hpush.
  destruct (push_static_segment segs cur p) as [segs' p']. simpl in Hpush.
  destruct (Ascii.eqb a char_backslash).
  { destruct s; eapply IH; eauto; simpl in *; lia. }
  assert (Hsnoc : forall (f : string -> Result (VarPathSegment * string)) t o,
    (forall seg rest, f t = Ok (seg, rest) -> seg_lt n seg /\ (slen rest < slen t)%nat) ->
    (let? (seg, rest) := f t in
     parse_path_loop fuel rest "" (segs' ++ [mkAccess seg o]) false) = Ok out ->
    (slen t <= n)%nat -> segs_lt n out).
  { intros f t o Hf Hb Ht. destruct (f t) as [[seg rest]|] eqn:E; [|done]. simpl in Hb.
    destruct (Hf seg rest eq_refl). eapply IH; [exact Hb| |lia]. by apply segs_lt_snoc. }
  destruct (after_char char_dot s) as [s1|] eqn:E1;
    [apply after_char_length in E1|];
  destruct (after_char char_lbracket s) as [s2|] eqn:E2;
    try apply after_char_length in E2; simpl in Hp;
  repeat match type of Hp with
  | (if ?b then _ else _) = _ => destruct b
  | match after_char ?c ?x with _ => _ end = _ =>
      destruct (after_char c x) eqn:?
  end; try done;
  repeat match goal with H : after_char _ _ = Some _ |- _ => apply after_char_length in H end;
  first [eapply IH; [exact Hp|done|simpl; lia]
        |eapply Hsnoc; [|exact Hp|lia]; intros; (eapply paren_segment_lt + eapply parse_bracket_segment_lt); eauto; lia].
Qed.

Lemma benign_access_step cur k o l r : benign (access_step cur k o l r).
Proof. unfold access_step. benign. Qed.
#[export] Hint Resolve benign_access_step : benign.

Section variables.
Context `{ArgParser} (em : EnvManager).

Lemma benign_var_value r : benign (var_value em r).
Proof. unfold var_value. benign. Qed.

Section nested.
Context (n : nat) (ev : string -> M VarEvalResult).
Hypothesis ev_benign : forall v, (slen v < n)%nat -> benign (ev v).

Lemma benign_resolve_segment_key seg : seg_lt n seg -> benign (resolve_segment_key em ev seg).
Proof. destruct seg; simpl; intros Hn; benign. Qed.

Lemma benign_access_loop cur segs res o :
  segs_lt n segs -> benign (access_loop em ev cur segs res o).
Proof.
  revert cur res o. induction segs as [|a segs IH]; intros cur res o Hs; simpl; [benign|].
  inversion_clear Hs. apply benign_bind; [by apply benign_resolve_segment_key|].
  intros k. apply benign_bind; [benign|]. intros [v|r]; [by apply IH|benign].
Qed.

Lemma benign_evaluate_var_path var : (slen var <= n)%nat -> benign (evaluate_var_path em ev var).
Proof.
  intros Hv. unfold evaluate_var_path.
  destruct (parse_var_path var) as [segs|msg] eqn:E; simpl; [rewrite bind_ret_l|apply (benign_fail msg)].
  assert (Hs : segs_lt n segs).
  { unfold parse_var_path in E. eapply parse_path_loop_lt; [exact E|constructor|done]. }
  destruct segs as [|first rest]; [benign|]. inversion_clear Hs.
  destruct (optional first); [benign|].
  apply benign_bind; [by apply benign_resolve_segment_key|]. intros k.
  apply benign_bind; [benign|]. intros cur. by apply benign_access_loop.
Qed.

Lemma benign_evaluate_default_expression e :
  (slen e < n)%nat -> benign (evaluate_default_expression em ev e).
Proof.
  intros He. unfold evaluate_default_expression. pose proof (trim_length e) as Ht.
  destruct (String.eqb (trim e) ""); [benign|].
  destruct (should_parse_default_as_arg (trim e)) eqn:Ed; [|by apply ev_benign; lia].
  destruct (parse_arg (trim e)) as [[rest arg]|] eqn:Ep; [|benign].
  destruct (String.eqb (trim rest) ""); [|benign].
  pose proof (parse_arg_default_ok _ _ _ Ep) as Hok.
  unfold should_parse_default_as_arg in Ed. rewrite trim_start_trim in Ed.
  destruct (trim e) as [|a t]; [done|]. specialize (Hok Ed).
  destruct arg; simpl in *; try done; benign; [apply ev_benign; lia|apply benign_var_value].
Qed.

Lemma benign_evaluate_coalesce l r :
  (slen l < n)%nat -> (slen r < n)%nat -> benign (evaluate_coalesce em ev l r).
Proof.
  intros Hl Hr. unfold evaluate_coalesce.
  pose proof (trim_length l). pose proof (trim_length r).
  destruct (_ || _); [benign|]. apply benign_bind; [apply ev_benign; lia|].
  intros [v|k x]; [benign|]. apply benign_evaluate_default_expression. lia.
Qed.
End nested.

(** Evaluation of a variable expression never runs out of its fuel. *)
Lemma benign_evaluate_var_fuel fuel var :
  (slen var < fuel)%nat -> benign (evaluate_var_fuel em fuel var).
Proof.
  revert var. induction fuel as [|fuel IH]; intros var Hv; [lia|]. simpl.
  pose proof (trim_length var). destruct (String.eqb (trim var) ""); [benign|].
  destruct (split_coalesce (trim var) 0 0 None false) as [[l r]|] eqn:E.
  - apply split_coalesce_length in E. apply (benign_evaluate_coalesce (slen (trim var))); try lia.
    intros v Hl. apply IH. lia.
  - apply (benign_evaluate_var_path (slen (trim var))); [|lia]. intros v Hl. apply IH. lia.
Qed.

Lemma benign_evaluate_var var : benign (evaluate_var em var).
Proof.
  unfold evaluate_var, evaluate_var_expression. apply benign_bind.
  - apply benign_evaluate_var_fuel. lia.
  - intros r. apply benign_var_value.
Qed.
End variables.
#[export] Hint Resolve benign_evaluate_var : benign.

(** ** Closed relations *)

Class Closed (P : forall A, M A -> M A -> Prop) : Prop := {
  cl_benign : forall A (m : M A), benign m -> P A m m;
  cl_bind : forall A B (m m' : M A) (k k' : A -> M B),
    P A m m' -> (forall a, P B (k a) (k' a)) -> P B (bind m k) (bind m' k');
  cl_attempt : forall A (m m' : M A), P A m m' -> P _ (attempt m) (attempt m');
  cl_frame : forall A f (m m' : M A), P A m m' -> P A (with_frame f m) (with_frame f m');
  cl_traverse : forall E A (k : kind E) l (m m' : M A),
    P A m m' -> P A (with_traverse k l m) (with_traverse k l m');
  cl_map_reduce : forall A e (b b' : loc -> M A),
    (forall x, P A (b x) (b' x)) -> P A (with_map_reduce e b) (with_map_reduce e b')
}.
Arguments cl_bind {P _ A B}.

(** A result of the code, as opposed to a panic. *)
Definition completed {A} (r : Outcome A) : bool :=
  match r with Done _ | Fail _ => true | _ => false end.

(** *** Steps of completed runs *)

Definition steps A (m _ : M A) : Prop :=
  forall st, completed (fst (m st)) = true -> Step st (snd (m st)).

(** The collections do not depend on the other parts of the state. *)
Lemma heap_wf_ext st st' :
  (forall E (k : kind E) l, obj_at k l st' = obj_at k l st) -> heap_wf st -> heap_wf st'.
Proof. intros Ho Hw E k l. by rewrite Ho. Qed.

Ltac solve_wf HS :=
  let Hw := fresh "Hw" in
  intros Hw; refine (heap_wf_ext _ _ _ (step_wf _ _ HS (heap_wf_ext _ _ _ Hw)));
  intros ? k ?; by destruct k.

Lemma heap_wf_set_obj {E} (k : kind E) l o st :
  heap_wf st -> kind_wf k (obj_data o) -> heap_wf (set_obj k l o st).
Proof.
  intros Hw Ho E' k' l'. specialize (Hw E' k' l').
  destruct k, k'; try done; rewrite obj_at_set_obj; by case_decide.
Qed.

Lemma Step_frame f st st2 :
  Step (set_stack (f :: st_stack st) st) st2 ->
  st_stack st2 = f :: st_stack st /\ Step st (set_stack (st_stack st) st2).
Proof.
  intros HS. split; [by rewrite (step_stack _ _ HS)|]. split; try done.
  - apply (step_envs _ _ HS).
  - apply (step_scopes _ _ HS).
  - intros E k l. pose proof (step_trav _ _ HS E k l). by destruct k.
  - intros E k l Hl. pose proof (step_data _ _ HS E k l). destruct k; auto.
  - apply (step_visitors _ _ HS).
  - solve_wf HS.
  - apply (step_parents _ _ HS).
Qed.

Lemma steps_frame A f (m m' : M A) : steps A m m' -> steps A (with_frame f m) (with_frame f m').
Proof.
  intros Hm st. unfold with_frame, bind, push_frame, attempt.
  destruct (_ <=? _)%nat; [by intros|].
  pose proof (Hm (set_stack (f :: st_stack st) st)) as HS.
  destruct (m _) as [r st2]. simpl in HS. intros Hc.
  assert (completed r = true) as Hr by (by destruct r).
  destruct (Step_frame _ _ _ (HS Hr)) as [Hs Hst].
  destruct r; try done; unfold pop_frame; rewrite Hs; by destruct f.
Qed.

Lemma Step_traverse {E} (k : kind E) l st st2 :
  Step (enter_traverse k l st) st2 -> Step st (leave_traverse k l st2).
Proof.
  intros HS. pose proof (step_data _ _ HS E k l) as Hd.
  unfold enter_traverse, leave_traverse in *.
  rewrite obj_at_set_obj, decide_True in Hd by done. rewrite Hd by (simpl; lia). simpl.
  assert (Ho : forall E' (k' : kind E') l',
    obj_at k' l' (set_obj k l (mkObj (obj_data (obj_at k l st)) (obj_trav (obj_at k l st) - 0)) st2)
      = obj_at k' l' st \/
    (obj_at k' l' (set_obj k l (mkObj (obj_data (obj_at k l st)) (obj_trav (obj_at k l st) - 0)) st2)
      = obj_at k' l' st2 /\
     obj_at k' l' (set_obj k l (mkObj (obj_data (obj_at k l st)) (S (obj_trav (obj_at k l st)))) st)
      = obj_at k' l' st)).
  { intros E' k' l'. rewrite Nat.sub_0_r. destruct k, k'; try (by right);
      (rewrite !obj_at_set_obj; case_decide; [left; subst; by destruct (obj_at _ _ st)|by right]). }
  split.
  - destruct k; apply (step_stack _ _ HS).
  - pose proof (step_envs _ _ HS). by destruct k.
  - pose proof (step_scopes _ _ HS). by destruct k.
  - intros E' k' l'. pose proof (step_trav _ _ HS E' k' l').
    destruct (Ho E' k' l') as [->|[-> Ho2]]; [done|]. by rewrite Ho2 in *.
  - intros E' k' l' Hl. pose proof (step_data _ _ HS E' k' l').
    destruct (Ho E' k' l') as [->|[-> Ho2]]; [done|]. rewrite Ho2 in *. auto.
  - destruct k; apply (step_visitors _ _ HS).
  - intros Hw. apply heap_wf_set_obj; [|apply Hw]. apply (step_wf _ _ HS).
    by apply heap_wf_set_obj; [|apply Hw].
  - pose proof (step_parents _ _ HS). by destruct k.
Qed.

Lemma steps_traverse E A (k : kind E) l (m m' : M A) :
  steps A m m' -> steps A (with_traverse k l m) (with_traverse k l m').
Proof.
  intros Hm st. unfold with_traverse, bind, modify, attempt.
  pose proof (Hm (enter_traverse k l st)) as HS. destruct (m _) as [r st2]. simpl in HS.
  intros Hc. assert (completed r = true) as Hr by (by destruct r).
  pose proof (Step_traverse k l st st2 (HS Hr)). by destruct r.
Qed.

Lemma drop_external_snoc id x xs :
  find_external id xs = None -> drop_external id (xs ++ [(id, x)]) = xs.
Proof.
  induction xs as [|[i y] xs IH]; simpl; intros Hf.
  - by rewrite String.eqb_refl.
  - destruct (String.eqb i id); [done|]. by rewrite IH.
Qed.

(** A new scope on the stack [x], and its removal. *)
Lemma Step_scope x e st st2 :
  Step (set_scopes (<[x := e :: scopes_at x st]> (st_scopes st)) st) st2 ->
  scopes_at x st2 = e :: scopes_at x st /\
  Step st (set_scopes (<[x := tail (scopes_at x st2)]> (st_scopes st2)) st2).
Proof.
  intros HS. pose proof (step_scopes _ _ HS x (e :: scopes_at x st)) as Hx.
  simpl in Hx. rewrite lookup_insert_eq in Hx. specialize (Hx eq_refl).
  assert (scopes_at x st2 = e :: scopes_at x st) as Hx' by (unfold scopes_at at 1; by rewrite Hx).
  split; [done|]. rewrite Hx'. simpl. split.
  - apply (step_stack _ _ HS).
  - apply (step_envs _ _ HS).
  - intros y s Hy. simpl. destruct (decide (x = y)) as [<-|Hn].
    + rewrite lookup_insert_eq. unfold scopes_at. by rewrite Hy.
    + rewrite lookup_insert_ne by done. apply (step_scopes _ _ HS). simpl.
      by rewrite lookup_insert_ne.
  - intros E k l. pose proof (step_trav _ _ HS E k l). by destruct k.
  - intros E k l Hl. pose proof (step_data _ _ HS E k l). destruct k; auto.
  - apply (step_visitors _ _ HS).
  - solve_wf HS.
  - apply (step_parents _ _ HS).
Qed.

(** Externals do not touch the parents. *)
Lemma parents_older_external b xs st : parents_older st <-> parents_older (set_external b xs st).
Proof.
  unfold parents_older, set_external, env_at. simpl. split; intros Hp e env p He Hpar.
  - apply lookup_insert_Some in He as [[<- <-]|[_ He]]; [|by eapply Hp].
    simpl in Hpar. destruct (st_envs st !! b) as [env|] eqn:Hb; [|done]. by eapply Hp.
  - destruct (decide (b = e)) as [<-|Hn]; [|eapply Hp; [by rewrite lookup_insert_ne|done]].
    eapply Hp; [apply lookup_insert_eq|]. by rewrite He.
Qed.

(** A new external of the environment [b], and its removal. *)
Lemma Step_external b id x st st2 :
  find_external id (env_external (env_at b st)) = None ->
  Step (set_external b (env_external (env_at b st) ++ [(id, x)]) st) st2 ->
  Step st (set_external b (drop_external id (env_external (env_at b st2))) st2).
Proof.
  intros Hf HS. unfold set_external in *. pose proof (step_envs _ _ HS b) as Hb.
  simpl in Hb. rewrite lookup_insert_eq in Hb. specialize (Hb _ eq_refl).
  assert (env_at b st2 = mkEnv (env_level (env_at b st)) (env_values (env_at b st))
    (env_parent (env_at b st)) (env_external (env_at b st) ++ [(id, x)])) as He2
    by (unfold env_at at 1; by rewrite Hb).
  rewrite He2. simpl. rewrite drop_external_snoc by done. split.
  - apply (step_stack _ _ HS).
  - intros y s Hy. simpl. destruct (decide (b = y)) as [<-|Hn].
    + rewrite lookup_insert_eq. unfold env_at. rewrite Hy. by destruct s.
    + rewrite lookup_insert_ne by done. apply (step_envs _ _ HS). simpl.
      by rewrite lookup_insert_ne.
  - apply (step_scopes _ _ HS).
  - intros E k l. pose proof (step_trav _ _ HS E k l). by destruct k.
  - intros E k l Hl. pose proof (step_data _ _ HS E k l). destruct k; auto.
  - apply (step_visitors _ _ HS).
  - solve_wf HS.
  - intros Hp. apply (parents_older_external b (env_external (env_at b st) ++ [(id, x)])) in Hp.
    apply (step_parents _ _ HS) in Hp.
    assert (parents_older (set_external b (env_external (env_at b st)) st2)) as Hr
      by (by apply parents_older_external). unfold set_external in Hr. by rewrite He2 in Hr.
Qed.

Lemma Step_alloc_scopes st :
  Step st (set_scopes (<[fresh_in (st_scopes st) := []]> (st_scopes st)) st).
Proof.
  split; try done; try (intros E k l; by destruct k).
  intros x s Hx. simpl. rewrite lookup_insert_ne; [done|].
  intros <-. by rewrite fresh_in_lookup in Hx.
Qed.

Lemma steps_in_scope A x (b : loc -> M A) : steps A (b x) (b x) -> steps _ (in_scope x b) (in_scope x b).
Proof.
  intros Hb st. unfold in_scope, push_scope, bind, modify, attempt.
  destruct (alloc KMap [] st) as [r st0] eqn:E. pose proof (proj2 (benign_alloc_nil KMap st)) as H0.
  rewrite E in H0. simpl in H0. unfold alloc in E. simplify_eq.
  set (st1 := set_obj KMap _ _ st) in *. set (e := fresh_in (heap KMap st)).
  pose proof (Hb (set_scopes (<[x := e :: scopes_at x st1]> (st_scopes st1)) st1)) as HS.
  destruct (b x _) as [r st2]. simpl in HS. intros Hc.
  assert (completed r = true) as Hr by (by destruct r).
  destruct (Step_scope x e st1 st2 (HS Hr)) as [_ H2].
  destruct r; try done; by transitivity st1.
Qed.

Lemma in_scope_no_fail A x (b : loc -> M A) st msg : fst (in_scope x b st) <> Fail msg.
Proof.
  unfold in_scope, push_scope, bind, modify, attempt. simpl.
  destruct (b x _) as [r st2]. by destruct r.
Qed.

Lemma steps_map_reduce A e (b b' : loc -> M A) :
  (forall x, steps A (b x) (b' x)) -> steps A (with_map_reduce e b) (with_map_reduce e b').
Proof.
  intros Hb st. unfold with_map_reduce, bind, gets.
  destruct (find_external MAP_REDUCE_ENV_ID (env_external (env_at e st))) as [x|] eqn:Ef; simpl.
  - pose proof (steps_in_scope A x b (Hb x) st) as HS.
    destruct (in_scope x b st) as [r st2]. simpl in HS.
    destruct r as [[a|m]|m|m|]; simpl; auto.
  - assert (forall m, find_external MAP_REDUCE_ENV_ID
      (env_external (env_at e (set_scopes m st))) = None) as Hf by (intros; exact Ef).
    unfold add_external. rewrite Hf. simpl.
    set (x := fresh_in (st_scopes st)). set (st0 := set_scopes _ st).
    set (st1 := set_external e _ st0).
    pose proof (steps_in_scope A x b (Hb x) st1) as HS.
    pose proof (in_scope_no_fail A x b st1) as Hnf.
    destruct (in_scope x b st1) as [r st2]. simpl in HS, Hnf. intros Hc.
    assert (completed r = true -> Step st (set_external e
      (drop_external MAP_REDUCE_ENV_ID (env_external (env_at e st2))) st2)) as Hend.
    { intros Hr. transitivity st0; [apply Step_alloc_scopes|].
      apply (Step_external e _ x); [exact (Hf _)|]. by apply HS. }
    destruct r as [[a|m]|m|m|]; simpl in *; try done; auto. by destruct (Hnf m).
Qed.

Lemma steps_bind A B (m m' : M A) (k k' : A -> M B) :
  steps A m m' -> (forall a, steps B (k a) (k' a)) -> steps B (bind m k) (bind m' k').
Proof.
  intros Hm Hk st. unfold bind. pose proof (Hm st) as HS. destruct (m st) as [r st1].
  simpl in HS. destruct r as [a| | |]; simpl; auto.
  intros Hc. transitivity st1; [by apply HS|]. by apply Hk.
Qed.

#[export] Instance steps_Closed : Closed steps.
Proof.
  split.
  - intros A m Hm st _. apply Hm.
  - apply steps_bind.
  - intros A m m' Hm st. unfold attempt. pose proof (Hm st). destruct (m st) as [r st1].
    by destruct r.
  - apply steps_frame.
  - apply steps_traverse.
  - apply steps_map_reduce.
Qed.

(** *** Monotonicity in the fuel *)

Definition fuel_le A (m m' : M A) : Prop :=
  forall st, fst (m st) = OutOfFuel \/ m st = m' st.

Lemma fuel_le_refl A (m : M A) : fuel_le A m m.
Proof. intros st. by right. Qed.

Lemma fuel_le_bind A B (m m' : M A) (k k' : A -> M B) :
  fuel_le A m m' -> (forall a, fuel_le B (k a) (k' a)) -> fuel_le B (bind m k) (bind m' k').
Proof.
  intros Hm Hk st. unfold bind. destruct (Hm st) as [Hf|<-].
  - left. destruct (m st) as [r st1]. simpl in Hf. by subst.
  - destruct (m st) as [[a| | |] st1]; auto. apply Hk.
Qed.

Lemma fuel_le_attempt A (m m' : M A) : fuel_le A m m' -> fuel_le _ (attempt m) (attempt m').
Proof.
  intros Hm st. unfold attempt. destruct (Hm st) as [Hf|<-]; [left|by right].
  destruct (m st) as [r st1]. simpl in Hf. by subst.
Qed.

#[export] Instance fuel_le_Closed : Closed fuel_le.
Proof.
  split.
  - intros. apply fuel_le_refl.
  - intros. by apply fuel_le_bind.
  - intros. by apply fuel_le_attempt.
  - intros A f m m' Hm. unfold with_frame. apply fuel_le_bind; [apply fuel_le_refl|intros _].
    apply fuel_le_bind; [by apply fuel_le_attempt|intros r]. apply fuel_le_refl.
  - intros E A k l m m' Hm. unfold with_traverse.
    apply fuel_le_bind; [apply fuel_le_refl|intros _].
    apply fuel_le_bind; [by apply fuel_le_attempt|intros r]. apply fuel_le_refl.
  - intros A e b b' Hb. unfold with_map_reduce, in_scope.
    apply fuel_le_bind; [apply fuel_le_refl|intros env].
    apply fuel_le_bind; [apply fuel_le_refl|intros [x nr]].
    apply fuel_le_bind; [|intros r; apply fuel_le_refl].
    apply fuel_le_bind; [apply fuel_le_refl|intros _].
    apply fuel_le_bind; [by apply fuel_le_attempt|intros r]. apply fuel_le_refl.
Qed.

(** *** Enough fuel *)

Definition depth (st : state) : nat := length (st_stack st).

(** In a grounded state with a stack depth of [d] or more, [m] does not run out
    of fuel; it leaves the stack as it found it and the state grounded. *)
Definition good (d : nat) A (m _ : M A) : Prop :=
  forall st, grounded st -> (d <= depth st <= MAX_STACK_DEPTH)%nat ->
    fst (m st) <> OutOfFuel /\
    (completed (fst (m st)) = true ->
      st_stack (snd (m st)) = st_stack st /\ grounded (snd (m st))).

(** The parts of the state that grounding depends on. *)
Lemma grounded_ext st st' :
  st_visitors st' = st_visitors st -> st_envs st' = st_envs st -> grounded st -> grounded st'.
Proof.
  intros Hv He [[rank Hr] Hp]. split; [exists rank|]; unfold visitors_ranked, parents_older;
    by rewrite ?Hv, ?He.
Qed.

Lemma grounded_external b xs st : grounded st -> grounded (set_external b xs st).
Proof. intros [Hv Hp]. split; [exact Hv|by apply parents_older_external]. Qed.

Lemma good_frame_S d A f (m m' : M A) : good (S d) A m m' -> good d A (with_frame f m) (with_frame f m').
Proof.
  intros Hm st Hg Hd. unfold with_frame, bind, push_frame, attempt.
  destruct (Nat.leb_spec MAX_STACK_DEPTH (length (st_stack st))) as [|Hlt]; [done|].
  destruct (Hm (set_stack (f :: st_stack st) st)) as [Hf Hs];
    [by apply (grounded_ext st)|unfold depth in *; simpl; lia|].
  destruct (m _) as [r st2]. simpl in Hf, Hs.
  destruct r; try done; destruct (Hs eq_refl) as [Hst Hgr]; unfold pop_frame; rewrite Hst;
    destruct f; simpl; (split; [done|]); intros _; (split; [done|]); by apply (grounded_ext st2).
Qed.

Lemma good_bind d A B (m m' : M A) (k k' : A -> M B) :
  good d A m m' -> (forall a, good d B (k a) (k' a)) -> good d B (bind m k) (bind m' k').
Proof.
  intros Hm Hk st Hg Hd. unfold bind. destruct (Hm st Hg Hd) as [Hf Hs].
  destruct (m st) as [r st1]. simpl in *. destruct r as [a| | |]; try done.
  destruct (Hs eq_refl) as [Hst Hg1].
  destruct (Hk a st1 Hg1) as [Hf' Hs']; [unfold depth in *; by rewrite Hst|].
  split; [done|]. intros Hc. destruct (Hs' Hc). by rewrite <- Hst.
Qed.

Lemma good_attempt d A (m m' : M A) : good d A m m' -> good d _ (attempt m) (attempt m').
Proof.
  intros Hm st Hg Hd. unfold attempt. destruct (Hm st Hg Hd) as [Hf Hs].
  destruct (m st) as [r st1]. by destruct r.
Qed.

Lemma good_benign d A (m : M A) : benign m -> good d A m m.
Proof.
  intros Hm st Hg _. destruct (Hm st) as [Hf Hs]. split; [by apply Hf|]. intros _.
  split; [apply Hs|by apply (step_grounded st)].
Qed.

(** Computations that leave the stack alone and end. *)
Lemma good_quiet d A (m : M A) :
  (forall st, fst (m st) <> OutOfFuel /\ st_stack (snd (m st)) = st_stack st /\
    (grounded st -> grounded (snd (m st)))) -> good d A m m.
Proof. intros Hm st Hg _. destruct (Hm st) as (Hf & Hs & Hgr). auto. Qed.

Lemma grounded_set_obj {E} (k : kind E) l o st : grounded st -> grounded (set_obj k l o st).
Proof. by destruct k; apply grounded_ext. Qed.

#[export] Instance good_Closed d : Closed (good d).
Proof.
  split.
  - intros. by apply good_benign.
  - intros. by apply good_bind.
  - intros. by apply good_attempt.
  - intros A f m m' Hm. apply good_frame_S. intros st Hg Hd. apply Hm; [done|lia].
  - intros E A k l m m' Hm. unfold with_traverse.
    apply good_bind;
      [apply good_quiet; intros st; split_and!; [done|by destruct k|apply grounded_set_obj]|intros _].
    apply good_bind; [by apply good_attempt|intros r].
    apply good_bind;
      [apply good_quiet; intros st; split_and!; [done|by destruct k|apply grounded_set_obj]|intros _].
    apply good_benign, benign_of_result.
  - intros A e b b' Hb. unfold with_map_reduce, in_scope.
    apply good_bind; [apply good_benign; benign|intros env]. apply good_bind.
    + destruct (find_external _ _); [apply good_benign; benign|].
      apply good_quiet. intros st. unfold add_external, alloc_scopes, bind.
      destruct (find_external _ (env_external (env_at e _))); simpl; split_and!; try done;
        intros Hg; try apply grounded_external; by apply (grounded_ext st).
    + intros [x nr]. apply good_bind.
      * apply good_bind; [apply good_quiet; intros st; split_and!; try done;
          intros Hg; by apply (grounded_ext st)|intros _].
        apply good_bind; [by apply good_attempt|intros r].
        apply good_bind; [apply good_quiet; intros st; split_and!; try done;
          intros Hg; by apply (grounded_ext st)|intros _]. apply good_benign. benign.
      * intros r. apply good_bind; [|intros _; apply good_benign, benign_of_result].
        destruct nr; apply good_quiet; intros st; split_and!; try done.
        apply grounded_external.
Qed.
