(* ===== verification/Interp.v ===== *)
(** * The interpreter

    Models the execution of linked programs: [block/exec.rs] (blocks, lines,
    statements, expression chains), the executors of [cmd/control.rs],
    [cmd/exec.rs], [cmd/var.rs], [cmd/capture.rs], [cmd/map.rs] and
    [cmd/action.rs], argument evaluation ([block/linker.rs]) and
    [chain/exec.rs] (chains and libraries).

    Expressions and lines are finite trees, so they execute by structural
    recursion.  Only [exec], [invoke] and [goto] leave the tree: they call
    a block, chain or library through the parameter [call], which [run] ties
    with fuel.  An error message that wraps another one has it as its cause. *)

From S2P Require Import Prelude Values Syntax State Collections Env VarPath Chains Commands.

(** What [exec], [invoke] and [goto] can run. *)
Inductive Callee : Type :=
| CallBlock (c : ProcessChain) (id : string)
| CallChain (c : ProcessChain)
| CallLib (l : ProcessChainLib).

(** ** Errors *)

(** [map_err] with [wrap_runtime_error]. *)
Definition wrap {A} (msg : string) (m : M A) : M A :=
  let* r := attempt m in
  match r with
  | Ok a => ret a
  | Err e => fail (msg +:+ " | cause=" +:+ e)
  end.

(** The end of [case], [for] and [match-result]: the variables are restored on
    both outcomes, and an error of either is reported. *)
Definition scoped {A} (exec_msg restore_msg both_msg : string) (m : M A) (restore : M unit) : M A :=
  let* r := attempt m in
  let* r' := attempt restore in
  match r, r' with
  | Ok a, Ok _ => ret a
  | Err e, Ok _ => fail (exec_msg +:+ " | cause=" +:+ e)
  | Ok _, Err e => fail (restore_msg +:+ " | cause=" +:+ e)
  | Err e, Err e' => fail (both_msg +:+ " | cause=exec_error=" +:+ e +:+ ", restore_error=" +:+ e')
  end.

(** ** Expression chains *)

(** [execute_expression_chain], over the execution [ex] of one expression. *)
Definition chain_loop (ex : Expression -> M CommandResult) (allow_control : bool) (msg : string)
  : ExpressionChain -> CommandResult -> M CommandResult :=
  fix go exprs result :=
    match exprs with
    | [] => ret result
    | (prefix_op, expr, post_op) :: rest =>
        let* r := wrap "Failed to execute expression" (ex expr) in
        let* r :=
          match prefix_op with
          | Some OpNot => wrap "Failed to apply NOT operator" (of_result (try_not r))
          | _ => ret r
          end in
        if is_control r then if allow_control then ret r else fail msg
        else
          match post_op with
          | Some OpAnd => if is_success r then go rest r else ret r
          | Some OpOr => if is_success r then ret r else go rest r
          | _ => go rest r
          end
    end.

Definition control_not_allowed : string :=
  "Control action is not allowed in this expression chain".

(** The loop of [first-ok]. *)
Definition first_ok_loop (ex : Expression -> M CommandResult)
  : list Expression -> option CommandResult -> M CommandResult :=
  fix go commands last_error :=
    match commands with
    | [] => ret (default (RError (VString "")) last_error)
    | command :: rest =>
        let* r := ex command in
        if is_success r || is_control r then ret r else go rest (Some r)
    end.

(** ** Targets of calls *)

Record ExecTarget : Type := mkExecTarget {
  target_lib : option string;
  target_chain : option string;
  target_block : option string
}.

Definition parse_target (scope : ExecScope) (target : string) : Result ExecTarget :=
  match scope, split_on char_colon target with
  | ScBlock, [b] => Ok (mkExecTarget None None (Some b))
  | ScBlock, [c; b] => Ok (mkExecTarget None (Some c) (Some b))
  | ScBlock, [l; c; b] => Ok (mkExecTarget (Some l) (Some c) (Some b))
  | ScBlock, _ => Err "Invalid block ID format"
  | ScChain, [c] => Ok (mkExecTarget None (Some c) None)
  | ScChain, [l; c] => Ok (mkExecTarget (Some l) (Some c) None)
  | ScChain, _ => Err "Invalid chain ID format"
  | ScLib, [l] => Ok (mkExecTarget (Some l) None None)
  | ScLib, _ => Err "Invalid lib ID format"
  end.

Definition normalize_exec_result (r : CommandResult) : Result CommandResult :=
  match r with
  | RControl (CReturn _ v) => Ok (RSuccess v)
  | RControl (CError _ v) => Ok (RError v)
  | RControl (CExit _) => Err "Exit control action is not allowed"
  | RControl (CBreak _) => Err "break action only valid in map-reduce loop"
  | RSuccess _ | RError _ => Ok r
  end.

(** [Option::unwrap]. *)
Definition unwrap {A} (o : option A) : M A :=
  match o with
  | Some a => ret a
  | None => panic "called Option::unwrap on a None value"
  end.

(** The library guard of a found target. *)
Definition in_lib_of {A} (r : SearchResult) (m : M A) : M A :=
  if same_lib r then m
  else let* l := unwrap (sr_lib r) in with_frame (FLib l) m.

Definition in_chain_of {A} (r : SearchResult) (m : M A) : M A :=
  let* c := unwrap (sr_chain r) in with_frame (FChain c) m.

Definition found (msg : string) (r : option SearchResult) : M SearchResult :=
  match r with Some r => ret r | None => fail msg end.

Section calls.
Context (call : Callee -> Context -> M CommandResult).

Definition exec_block_target (ctx : Context) (t : ExecTarget) : M CommandResult :=
  let* block := unwrap (target_block t) in
  let* r := search_block ctx (target_lib t) (target_chain t) block in
  let* r := found "Block not found" r in
  in_lib_of r
    (if same_chain r then
       if same_lib r then
         let* c := unwrap (sr_chain r) in call (CallBlock c block) ctx
       else panic "Chain must be in the same library if same_chain is true"
     else
       in_chain_of r
         (let* ctx' := fork_chain ctx in
          let* c := unwrap (sr_chain r) in
          call (CallBlock c block) ctx')).

Definition exec_chain_target (ctx : Context) (t : ExecTarget) : M CommandResult :=
  let* chain := unwrap (target_chain t) in
  let* r := search_chain ctx (target_lib t) chain in
  let* r := found "Chain not found" r in
  in_lib_of r
    (let* ctx' := fork_chain ctx in
     let* c := unwrap (sr_chain r) in
     call (CallChain c) ctx').

Definition exec_lib_target (ctx : Context) (t : ExecTarget) : M CommandResult :=
  let* lib := unwrap (target_lib t) in
  let* r := search_lib ctx lib in
  let* r := found "Process chain library not found" r in
  let* l := unwrap (sr_lib r) in
  let* ctx' := fork_chain ctx in
  call (CallLib l) ctx'.

Definition run_exec (scope : ExecScope) (target_id : string) (ctx : Context) : M CommandResult :=
  let* t := wrap "Failed to parse exec target" (of_result (parse_target scope target_id)) in
  let* r :=
    match scope with
    | ScBlock => exec_block_target ctx t
    | ScChain => exec_chain_target ctx t
    | ScLib => exec_lib_target ctx t
    end in
  of_result (normalize_exec_result r).

Definition INVOKE_ARGS : string := "__args".

(** The context [invoke] runs its target in. *)
Definition invoke_context (ctx : Context) (args : loc) : M Context :=
  let* ctx' := fork_chain ctx in
  em_set (ctx_env ctx') INVOKE_ARGS (VMap args) (Some EvChain) ;;
  ret ctx'.

Definition invoke_block_target (ctx : Context) (t : ExecTarget) (args : loc) : M CommandResult :=
  let* block := unwrap (target_block t) in
  let* r := search_block ctx (target_lib t) (target_chain t) block in
  let* r := found "Block not found" r in
  let body :=
    let* ctx' := invoke_context ctx args in
    let* c := unwrap (sr_chain r) in
    call (CallBlock c block) ctx' in
  in_lib_of r
    (if same_chain r then
       if same_lib r then body
       else panic "Chain must be in the same library if same_chain is true"
     else if same_lib r then
       panic "Chain must not be in the same library if same_chain is false"
     else in_chain_of r body).

Definition invoke_chain_target (ctx : Context) (t : ExecTarget) (args : loc) : M CommandResult :=
  let* chain := unwrap (target_chain t) in
  let* r := search_chain ctx (target_lib t) chain in
  let* r := found "Chain not found" r in
  in_lib_of r
    (let* ctx' := invoke_context ctx args in
     let* c := unwrap (sr_chain r) in
     call (CallChain c) ctx').

Definition invoke_lib_target (ctx : Context) (t : ExecTarget) (args : loc) : M CommandResult :=
  let* lib := unwrap (target_lib t) in
  let* r := search_lib ctx lib in
  let* r := found "Process chain library not found" r in
  let* l := unwrap (sr_lib r) in
  let* ctx' := invoke_context ctx args in
  call (CallLib l) ctx'.

(** [InvokeCommandExecutor::exec]; [build_args] evaluates the arguments. *)
Definition run_invoke (scope : ExecScope) (target_id : string) (build_args : M loc) (ctx : Context)
  : M CommandResult :=
  let* t := wrap "Failed to parse invoke target" (of_result (parse_target scope target_id)) in
  let* args := build_args in
  let* r :=
    match scope with
    | ScBlock => invoke_block_target ctx t args
    | ScChain => invoke_chain_target ctx t args
    | ScLib => invoke_lib_target ctx t args
    end in
  of_result (normalize_exec_result r).
End calls.

(** ** Commands *)

(** The targets of [capture], in the order they are set, with their values. *)
Definition control_kind_value (c : CommandControl) : TypedValue :=
  VString (match c with
           | CReturn _ _ => "return"
           | CError _ _ => "error"
           | CExit _ => "exit"
           | CBreak _ => "break"
           end).

Definition control_from_value (c : CommandControl) : TypedValue :=
  match c with
  | CReturn level _ | CError level _ => VString (control_level_str level)
  | CExit _ | CBreak _ => VNull
  end.

Definition result_status (r : CommandResult) : string :=
  if is_success r then "success" else if is_error r then "error" else "control".

Definition capture_values (t : CaptureTargets) (r : CommandResult)
  : list (option string * TypedValue) :=
  [ (cap_value t, result_value r);
    (cap_status t, VString (result_status r));
    (cap_ok t, VBool (is_success r));
    (cap_error t, VBool (is_error r));
    (cap_control t, VBool (is_control r));
    (cap_control_kind t, match r with RControl c => control_kind_value c | _ => VNull end);
    (cap_from t, match r with RControl c => control_from_value c | _ => VNull end) ].

(** [CaptureTarget::set]. *)
Definition capture_set (em : EnvManager) (key : string) (v : TypedValue) : M unit :=
  if is_simple_root_key key then
    set_simple_root_at_explicit_level em key v EvBlock ;; ret tt
  else em_set em key v (Some EvBlock) ;; ret tt.

Definition capture_all (em : EnvManager) (t : CaptureTargets) (r : CommandResult) : M unit :=
  forM_ (fun '(target, v) =>
    match target with
    | Some key => capture_set em key v
    | None => ret tt
    end) (capture_values t r).

Definition level_of_assign (k : AssignKind) : EnvLevel :=
  match k with AsBlock => EvBlock | AsChain => EvChain | AsGlobal => EvGlobal end.

Definition run_delete (em : EnvManager) (level : option EnvLevel) (var : string)
  : M CommandResult :=
  let* r := wrap "Failed to delete variable" (em_remove em var level) in
  ret (match r with
       | Some v => RSuccess v
       | None => RError (VString "Variable not found in scope")
       end).

(** [goto]: the result of the invocation, returned from the given level. *)
Definition goto_result (ok_level err_level : CommandControlLevel) (r : CommandResult)
  : Result CommandResult :=
  match r with
  | RSuccess v => Ok (RControl (CReturn ok_level v))
  | RError v => Ok (RControl (CError err_level v))
  | RControl _ => Err "Unexpected control result in goto target execution"
  end.

(** *** [map-reduce] *)

Section map_reduce.
Context (em : EnvManager) (run_map : M CommandResult) (x : loc).

(** One call of the traversal: bind the variables, run the map command. *)
Definition map_step (vars : list (string * TypedValue)) : M (CommandResult * bool) :=
  forM_ (fun '(k, v) => scope_set x k v) vars ;;
  let* r := run_map in
  ret (r, negb (is_control r)).

(** The traversal of [exec_impl]. *)
Definition map_collection (coll : TypedValue) : M CommandResult :=
  match coll with
  | VSet l =>
      change_var_level em MAP_REDUCE_ENV_KEY (Some EvBlock) ;;
      traverse KSet l (fun _ _ key => map_step [(MAP_REDUCE_ENV_KEY, VString key)]) success
  | VMap l =>
      change_var_level em MAP_REDUCE_ENV_KEY (Some EvBlock) ;;
      change_var_level em MAP_REDUCE_ENV_VALUE (Some EvBlock) ;;
      traverse KMap l (fun _ _ '(key, value) =>
        map_step [(MAP_REDUCE_ENV_KEY, VString key); (MAP_REDUCE_ENV_VALUE, value)]) success
  | VMultiMap l =>
      change_var_level em MAP_REDUCE_ENV_KEY (Some EvBlock) ;;
      change_var_level em MAP_REDUCE_ENV_VALUE (Some EvBlock) ;;
      mm_traverse l (fun _ _ '(key, value) =>
        map_step [(MAP_REDUCE_ENV_KEY, VString key); (MAP_REDUCE_ENV_VALUE, VString value)]) success
  | _ => fail "Unsupported collection type for map-reduce"
  end.

(** [exec_impl]: [run_begin] and [run_reduce] execute those commands. *)
Definition map_reduce_impl (run_begin run_reduce : option (M CommandResult)) (coll : TypedValue)
  : M CommandResult :=
  let* b := match run_begin with Some m => m | None => ret success end in
  if negb (is_success b) then ret b
  else
    let* r := map_collection coll in
    match r with
    | RControl (CReturn _ _) | RControl (CError _ _) | RControl (CExit _) => ret r
    | _ =>
        match run_reduce with
        | Some m =>
            scope_set x MAP_REDUCE_ENV_RESULT
              (default (VString "") (into_substitution_value r)) ;;
            m
        | None => ret r
        end
    end.
End map_reduce.

(** [MapReduceCommand::exec]. *)
Definition run_map_reduce (em : EnvManager) (collection : string) (run_map : M CommandResult)
    (run_begin run_reduce : option (M CommandResult)) : M CommandResult :=
  let* coll := em_get em collection None in
  match coll with
  | None => fail "Collection not found in context"
  | Some coll =>
      if negb (is_collection coll) then fail "Expected a collection"
      else
        with_map_reduce (em_block em)
          (fun x => map_reduce_impl em run_map x run_begin run_reduce coll)
  end.

(** ** Arguments, expressions and executors *)

Section exec.
Context `{F64Text} `{ArgParser} `{LeafCommands}.
Context (call : Callee -> Context -> M CommandResult).

(** A value as the coercions of [evaluate_string], [evaluate_bool] and
    [evaluate_number] leave it, and [parse_list_index] of a string. *)
Definition coerce_mode (mode : ArgMode) (v : TypedValue) (policy : CoercionPolicy)
  : Result TypedValue :=
  match mode with
  | AmValue | AmRaw => Ok v
  | AmString => let? s := coerce_to_string v policy in Ok (VString s)
  | AmBool => let? b := coerce_to_bool v policy in Ok (VBool b)
  | AmNumber => let? n := coerce_to_number v policy in Ok (VNumber n)
  | AmIndex =>
      let? s := coerce_to_string v policy in
      match parse_usize s with
      | Some _ => Ok (VString s)
      | None => Err "Invalid index, expected non-negative integer"
      end
  end.

(** [CommandArg::as_str]. *)
Definition arg_str (a : CommandArg) : string :=
  match a with
  | Literal s | StringLiteral s | TypedLiteral s _ | Var s => s
  | CommandSubstitution _ => "[command substitution]"
  | ListLiteral _ => "[list literal]"
  | MapLiteral _ => "[map literal]"
  end.

(** A group of arguments: all are evaluated, then all coerced, as in
    [evaluate_string_list]. *)
Definition eval_group (eval : CommandArg -> M TypedValue) (policy : CoercionPolicy)
    (mode : ArgMode) (args : list CommandArg) : M (list TypedValue) :=
  match mode with
  | AmRaw => ret (map (fun a => VString (arg_str a)) args)
  | _ =>
      let* vs := mapM eval args in
      of_result (mapR (fun v => coerce_mode mode v policy) vs)
  end.

(** The loop of [oneof]: the candidates after the first match are not
    evaluated. *)
Definition one_of_loop (eval : CommandArg -> M TypedValue) (ignore_case loose : bool)
    (value : TypedValue) : list CommandArg -> M CommandResult :=
  fix go candidates :=
    match candidates with
    | [] => ret (bool_result false)
    | c :: rest =>
        let* v := eval c in
        if compare_values ignore_case loose value v then ret (bool_result true) else go rest
    end.

(** [to-bool] and [to-number]: an error of the evaluation is an error result. *)
Definition conversion (m : M TypedValue) : M CommandResult :=
  let* r := attempt m in
  ret (match r with Ok v => RSuccess v | Err e => error_with_string e end).

Definition ctx_coercion (ctx : Context) : CoercionPolicy := coercion (em_policy (ctx_env ctx)).

(** [CommandArgEvaluator::evaluate], [execute_expression] and
    [CommandExecutor::exec]. *)
Fixpoint eval_arg (arg : CommandArg) (ctx : Context) {struct arg} : M TypedValue :=
  match arg with
  | Literal s | StringLiteral s => ret (VString s)
  | TypedLiteral _ v => ret v
  | ListLiteral items =>
      let* l := alloc KList [] in
      forM_ (fun item => let* v := eval_arg item ctx in list_push l v) items ;;
      ret (VList l)
  | MapLiteral entries =>
      let* l := alloc KMap [] in
      forM_ (fun '(key, value) =>
        let* v := eval_arg value ctx in map_insert l key v ;; ret tt) entries ;;
      ret (VMap l)
  | Var v => evaluate_var (ctx_env ctx) v
  | CommandSubstitution e =>
      let* r := exec_expr e ctx in
      match into_substitution_value r with
      | Some v => ret v
      | None => fail "Command substitution did not return a value"
      end
  end

with exec_expr (expr : Expression) (ctx : Context) {struct expr} : M CommandResult :=
  match expr with
  | ECommand _ _ executor =>
      wrap "Failed to execute command expression"
        match executor with
        | None => fail "Command not linked"
        | Some x => wrap "Command execution failed" (exec_cmd x ctx)
        end
  | EGroup exprs => chain_loop (fun e => exec_expr e ctx) true control_not_allowed exprs success
  end

with exec_cmd (x : CommandExecutor) (ctx : Context) {struct x} : M CommandResult :=
  let eval_opt := fun v : option CommandArg =>
    match v with Some a => eval_arg a ctx | None => ret (VString "") end in
  let eval_str := fun a =>
    let* v := eval_arg a ctx in of_result (coerce_to_string v (ctx_coercion ctx)) in
  let build_args := fun args : list (string * CommandArg) =>
    let* l := alloc KMap [] in
    forM_ (fun '(key, value) =>
      let* v := eval_arg value ctx in map_insert l key v ;; ret tt) args ;;
    ret l in
  match x with
  | XReturn level v => let* v := eval_opt v in ret (RControl (CReturn level v))
  | XError level v => let* v := eval_opt v in ret (RControl (CError level v))
  | XExit v => let* v := eval_opt v in ret (RControl (CExit v))
  | XBreak v => let* v := eval_opt v in ret (RControl (CBreak v))
  | XAction a => ret (action_result a)
  | XFirstOk commands => first_ok_loop (fun e => exec_expr e ctx) commands None
  | XExec scope target =>
      let* target_id := eval_str target in run_exec call scope target_id ctx
  | XInvoke scope target args =>
      let* target_id := eval_str target in
      run_invoke call scope target_id (build_args args) ctx
  | XGoto scope target args ok_level err_level =>
      let* target_id := eval_str target in
      let* r := run_invoke call scope target_id (build_args args) ctx in
      of_result (goto_result ok_level err_level r)
  | XAssign kind key value =>
      match value with
      | Some a =>
          let* v := eval_arg a ctx in
          em_set (ctx_env ctx) key v (Some (level_of_assign kind)) ;;
          ret (RSuccess v)
      | None =>
          change_var_level (ctx_env ctx) key (Some (level_of_assign kind)) ;;
          ret success
      end
  | XDelete level var => run_delete (ctx_env ctx) level var
  | XCapture targets sub_command =>
      let* r := exec_expr sub_command ctx in
      capture_all (ctx_env ctx) targets r ;;
      ret r
  | XMapReduce collection begin_cmd map_cmd reduce_cmd =>
      run_map_reduce (ctx_env ctx) collection (exec_expr map_cmd ctx)
        match begin_cmd with Some e => Some (exec_expr e ctx) | None => None end
        match reduce_cmd with Some e => Some (exec_expr e ctx) | None => None end
  | XOneOf ignore_case loose value candidates =>
      let* v := eval_arg value ctx in
      one_of_loop (fun a => eval_arg a ctx) ignore_case loose v candidates
  | XToBool value =>
      conversion (let* v := eval_arg value ctx in
                  of_result (coerce_mode AmBool v (ctx_coercion ctx)))
  | XToNumber value =>
      conversion (let* v := eval_arg value ctx in
                  of_result (coerce_mode AmNumber v (ctx_coercion ctx)))
  | XLeaf command args =>
      let* vs := mapM (fun '(mode, args) =>
        eval_group (fun a => eval_arg a ctx) (ctx_coercion ctx) mode args) args in
      leaf_command command vs ctx
  end.

(** ** Statements *)

Section statements.
Context (ctx : Context) {L : Type} (ex_line : L -> M CommandResult).

(** [execute_nested_lines]. *)
Definition nested_lines : list L -> CommandResult -> M CommandResult :=
  fix go lines result :=
    match lines with
    | [] => ret result
    | line :: rest =>
        let* r := ex_line line in
        if is_control r then ret r else go rest r
    end.

Definition expression_chain (allow : bool) (msg : string) (es : ExpressionChain)
  : M CommandResult :=
  chain_loop (fun e => exec_expr e ctx) allow msg es success.

(** The branches of [if] and [case]. *)
Definition branches_loop (msg : string) (else_lines : option (list L))
  : list (IfBranch L) -> M CommandResult :=
  fix go branches :=
    match branches with
    | [] =>
        match else_lines with
        | Some lines => nested_lines lines success
        | None => ret success
        end
    | branch :: rest =>
        let* c := expression_chain false msg (if_condition branch) in
        if is_success c then nested_lines (if_lines branch) success else go rest
    end.

Definition execute_if_statement (s : IfStatement L) : M CommandResult :=
  branches_loop "Control action is not allowed in if condition" (if_else s) (if_branches s).

Definition execute_case_branches (s : CaseStatement L) : M CommandResult :=
  branches_loop "Control action is not allowed in case condition" (case_else s) (case_branches s).

Definition execute_case_statement (s : CaseStatement L) : M CommandResult :=
  let em := ctx_env ctx in
  match case_subject s, case_binding_var s with
  | Some subject, Some binding_var =>
      let* v := eval_arg subject ctx in
      let* snap := snapshot_block_var em binding_var in
      scoped "Failed to execute case statement"
        "Failed to restore case subject binding"
        "Failed to execute case statement and restore subject binding"
        (em_set em binding_var v (Some EvBlock) ;; execute_case_branches s)
        (restore_block_vars em [snap])
  | _, _ => execute_case_branches s
  end.

(** [execute_match_result_branch_lines]. *)
Definition match_result_branch (bindings : list (string * TypedValue)) (lines : list L)
  : M CommandResult :=
  let em := ctx_env ctx in
  let* snaps := mapM (fun '(name, _) => snapshot_block_var em name) bindings in
  scoped "Failed to execute match-result branch"
    "Failed to restore match-result branch scope"
    "Failed to execute match-result branch and restore scope"
    (forM_ (fun '(name, v) => em_set em name v (Some EvBlock) ;; ret tt) bindings ;;
     nested_lines lines success)
    (restore_block_vars em snaps).

Definition execute_match_result_statement (s : MatchResultStatement L) : M CommandResult :=
  let* r := exec_expr (mr_command s) ctx in
  let value_branch := fun (b : option (MatchResultBranch L)) v =>
    match b with
    | Some b => match_result_branch [(mr_binding_var b, v)] (mr_lines b)
    | None => ret r
    end in
  match r with
  | RSuccess v => value_branch (ok_branch s) v
  | RError v => value_branch (err_branch s) v
  | RControl c =>
      match control_branch s with
      | Some b =>
          match_result_branch
            [ (mc_action_var b, control_kind_value c);
              (mc_from_var b, control_from_value c);
              (mc_value_var b, control_value c) ] (mc_lines b)
      | None => ret r
      end
  end.

(** *** [for] *)

Inductive ForIterationOutcome : Type :=
| ItContinue (r : CommandResult)
| ItBreak (r : CommandResult)
| ItPropagate (r : CommandResult).

(** [ForTraverseState]: the result so far and the control that ends the loop. *)
Record ForState : Type := mkForState {
  for_result : CommandResult;
  for_terminal : option CommandResult
}.

Definition for_start : ForState := mkForState success None.

Definition execute_for_iteration (s : ForStatement L) (key : TypedValue)
    (value : option TypedValue) : M ForIterationOutcome :=
  let em := ctx_env ctx in
  em_set em (key_var s) key (Some EvBlock) ;;
  match value_var s with
  | Some v => em_set em v (default VNull value) (Some EvBlock) ;; ret tt
  | None => ret tt
  end ;;
  let* r := nested_lines (for_lines s) success in
  ret (match r with
       | RControl (CBreak v) => ItBreak (RSuccess v)
       | RControl _ => ItPropagate r
       | _ => ItContinue r
       end).

(** [apply_iteration_outcome_bool] and [apply_iteration_outcome_control]. *)
Definition apply_outcome (st : ForState) (o : ForIterationOutcome) : ForState * bool :=
  match o with
  | ItContinue r => (mkForState r (for_terminal st), true)
  | ItBreak r => (mkForState r (for_terminal st), false)
  | ItPropagate r => (mkForState (for_result st) (Some r), false)
  end.

Definition for_step (s : ForStatement L) (st : ForState) (key : TypedValue)
    (value : option TypedValue) : M (ForState * bool) :=
  let* o := execute_for_iteration s key value in ret (apply_outcome st o).

Definition finalize_for (st : ForState) : CommandResult :=
  default (for_result st) (for_terminal st).

(** The value bound by the second variable, when there is one. *)
Definition loop_value (s : ForStatement L) (v : TypedValue) : option TypedValue :=
  match value_var s with Some _ => Some v | None => None end.

Definition for_traverse (s : ForStatement L) (iterable : TypedValue) : M ForState :=
  match iterable with
  | VList l =>
      traverse KList l (fun st i v =>
        for_step s st
          (if is_some (value_var s) then VNumber (NInt (Z.of_nat i)) else v) (loop_value s v))
        for_start
  | VSet l =>
      traverse KSet l (fun st _ item => for_step s st (VString item) (loop_value s (VString item)))
        for_start
  | VMap l =>
      traverse KMap l (fun st _ '(k, v) => for_step s st (VString k) (loop_value s v)) for_start
  | VMultiMap l =>
      if is_some (value_var s) then
        traverse KMultiMap l (fun st _ '(k, values) =>
          let* set := alloc KSet (is_insert_all values []) in
          for_step s st (VString k) (Some (VSet set))) for_start
      else
        traverse KMultiMap l (fun st _ '(k, _) => for_step s st (VString k) None) for_start
  | _ => fail "For-loop iterable must be List/Set/Map/MultiMap"
  end.

Definition execute_for_statement (s : ForStatement L) : M CommandResult :=
  let em := ctx_env ctx in
  let* key_snap := snapshot_block_var em (key_var s) in
  let* value_snap :=
    match value_var s with
    | Some v => let* snap := snapshot_block_var em v in ret [snap]
    | None => ret []
    end in
  scoped "Failed to execute for statement"
    "Failed to restore loop variable scope"
    "Failed to execute for statement and restore loop variable scope"
    (let* it := eval_arg (iterable s) ctx in
     let* st := for_traverse s it in
     ret (finalize_for st))
    (restore_block_vars em (key_snap :: value_snap)).

Definition execute_statement (s : StatementOf L) : M CommandResult :=
  match st_if s, st_case s, st_for s, st_match_result s with
  | Some i, _, _, _ => execute_if_statement i
  | None, Some c, _, _ => execute_case_statement c
  | None, None, Some f, _ => execute_for_statement f
  | None, None, None, Some m => execute_match_result_statement m
  | None, None, None, None => expression_chain true control_not_allowed (st_expressions s)
  end.

(** The statements of one line, in order, until a control action. *)
Definition statements_loop : list (StatementOf L) -> CommandResult -> M CommandResult :=
  fix go statements result :=
    match statements with
    | [] => ret result
    | s :: rest =>
        let* r := execute_statement s in
        if is_control r then ret r else go rest r
    end.
End statements.

Fixpoint execute_line (ctx : Context) (line : Line) : M CommandResult :=
  match line with
  | mkLine _ statements => statements_loop ctx (execute_line ctx) statements success
  end.

(** ** Blocks, chains and libraries *)

(** [BlockExecuter::execute_block]. *)
Fixpoint block_loop (ctx : Context) (lines : list Line) (result : CommandResult)
  : M CommandResult :=
  match lines with
  | [] => ret result
  | line :: rest =>
      let* r := wrap "Failed to execute line" (execute_line ctx line) in
      if is_control r then ret r else block_loop ctx rest r
  end.

(** A block of a chain, in its guard and its own context. *)
Definition run_block (b : Block) (ctx : Context) : M CommandResult :=
  with_frame (FBlock (block_id b))
    (let* ctx' := fork_block ctx in block_loop ctx' (block_lines b) success).

(** [ProcessChainExecutor::execute_block]. *)
Definition execute_block (c : ProcessChain) (id : string) (ctx : Context) : M CommandResult :=
  match get_block c id with
  | None => fail "Block not found in chain"
  | Some b => run_block b ctx
  end.

Fixpoint blocks_loop (blocks : list Block) (ctx : Context) (result : CommandResult)
  : M CommandResult :=
  match blocks with
  | [] => ret result
  | b :: rest =>
      let* r := run_block b ctx in
      match r with
      | RControl (CReturn LvBlock _) | RControl (CError LvBlock _) => blocks_loop rest ctx r
      | RControl (CReturn _ _) | RControl (CError _ _) | RControl (CExit _) => ret r
      | RControl (CBreak _) => fail "break action only valid in map-reduce loop"
      | _ => blocks_loop rest ctx r
      end
  end.

(** [ProcessChainExecutor::execute_chain]. *)
Definition execute_chain (c : ProcessChain) (ctx : Context) : M CommandResult :=
  match chain_blocks c with
  | [] => ret success
  | blocks => with_frame (FChain c) (blocks_loop blocks ctx success)
  end.

Definition ends_lib (c : CommandControl) : bool :=
  is_exit c || is_return_from_lib c || is_error_from_lib c.

Fixpoint chains_loop (chains : list ProcessChain) (ctx : Context) (result : CommandResult)
  : M CommandResult :=
  match chains with
  | [] => ret result
  | c :: rest =>
      let* r := execute_chain c ctx in
      match r with
      | RControl ctl => if ends_lib ctl then ret r else chains_loop rest ctx r
      | _ => chains_loop rest ctx r
      end
  end.

(** [ProcessChainLibExecutor::execute_lib]. *)
Definition execute_lib (l : ProcessChainLib) (ctx : Context) : M CommandResult :=
  with_frame (FLib l) (chains_loop (lib_chains l) ctx success).

Definition execute_callee (callee : Callee) (ctx : Context) : M CommandResult :=
  match callee with
  | CallBlock c id => execute_block c id ctx
  | CallChain c => execute_chain c ctx
  | CallLib l => execute_lib l ctx
  end.
End exec.

(** Nested calls: each one pushes a frame of the execution stack, so no more
    than [MAX_STACK_DEPTH] of them can be under way. *)
Fixpoint run `{F64Text} `{ArgParser} `{LeafCommands} (fuel : nat) (callee : Callee) (ctx : Context)
  : M CommandResult :=
  match fuel with
  | O => out_of_fuel
  | S fuel' => execute_callee (run fuel') callee ctx
  end.

Definition run_fuel : nat := S MAX_STACK_DEPTH.

(** [ProcessChainLibExecutor::execute_chain]: one chain of the library. *)
Definition execute_lib_chain `{F64Text} `{ArgParser} `{LeafCommands}
    (l : ProcessChainLib) (id : string) (ctx : Context) : M CommandResult :=
  let* r := of_result (lib_get_chain l id) in
  match r with
  | None => fail "Process chain not found in lib"
  | Some c => with_frame (FLib l) (run run_fuel (CallChain c) ctx)
  end.
