(* ===== verification/Compat.v ===== *)
(** * Execution is compatible with closed relations

    If two ways to run nested calls are related by a closed relation
    ([Effects]), so are two executions of the same program that use them.
    The theorems on execution in [InterpFacts] are instances. *)

From S2P Require Import Prelude Values Syntax State Collections Env VarPath Chains Commands Effects Interp.

(** What the interpreter relies on of the commands that are not modelled: they
    return in a grounded state, and they work on collections and variables
    only, like the commands that are. *)
Class LeafLaws `{LeafCommands} : Prop := {
  leaf_benign : forall name vs ctx, benign (leaf_exec name vs ctx)
}.

(** ** Leaf commands *)

Lemma benign_join_set_values l : benign (join_set_values l).
Proof.
  intros st. split; [done|]. apply (Step_traverse KSet l st (enter_traverse KSet l st)).
  reflexivity.
Qed.
Lemma benign_mm_contains_key l k : benign (mm_contains_key l k).
Proof. unfold mm_contains_key. benign. Qed.
Lemma benign_mm_contains_value l k vs : benign (mm_contains_value l k vs).
Proof. unfold mm_contains_value. benign. Qed.
Lemma benign_contains_all l vs : benign (list_contains_all_strings l vs).
Proof. unfold list_contains_all_strings. benign. Qed.
Lemma benign_create_collection em k t lv : benign (create_collection em k t lv).
Proof. unfold create_collection, alloc_collection. benign. Qed.
#[export] Hint Resolve benign_join_set_values benign_mm_contains_key benign_mm_contains_value
  benign_contains_all benign_create_collection : benign.

Lemma benign_with_collection em v accept m e u body :
  (forall c, benign (body c)) -> benign (with_collection em v accept m e u body).
Proof. intros Hb. unfold with_collection. benign. Qed.

Lemma benign_with_list em v body : (forall l, benign (body l)) -> benign (with_list em v body).
Proof. intros Hb. apply benign_with_collection. intros []; benign. Qed.

Lemma benign_any_changed f vs : (forall v, benign (f v)) -> benign (any_changed f vs).
Proof. intros Hf. induction vs; simpl; benign. Qed.

Lemma benign_set_command em s op vs :
  (forall l x, benign (op l x)) -> benign (set_command em s op vs).
Proof.
  intros Ho. apply benign_with_collection. intros []; benign. by apply benign_any_changed.
Qed.

Lemma benign_build_list ss : benign (build_list ss).
Proof. unfold build_list. benign. Qed.
#[export] Hint Resolve benign_build_list : benign.

Lemma benign_collection_command em c args m :
  collection_command em c args = Some m -> benign m.
Proof.
  intros Hc. unfold collection_command, list_push_command, list_insert_command, list_set_command,
    list_remove_command, list_pop_command, list_clear_command in Hc.
  repeat case_match; simplify_eq;
    try (apply benign_with_list; benign); try (apply benign_set_command; benign);
    try (unfold create_command; benign).
  all: apply benign_with_collection; intros []; cbv zeta; benign.
Qed.

Lemma benign_value_command `{F64Text} em c args m :
  value_command em c args = Some m -> benign m.
Proof.
  intros Hc. unfold value_command in Hc. repeat case_match; simplify_eq;
    unfold type_command, slice_command, split_command, replace_command; benign.
Qed.

Lemma benign_leaf_command `{F64Text} `{LeafLaws} c args ctx : benign (leaf_command c args ctx).
Proof.
  assert (benign match collection_command (ctx_env ctx) c args, value_command (ctx_env ctx) c args with
    | Some m, _ | None, Some m => m
    | None, None => panic "malformed command"
    end) as Hb.
  { destruct (collection_command (ctx_env ctx) c args) eqn:Hc;
      [by eapply benign_collection_command|].
    destruct (value_command (ctx_env ctx) c args) eqn:Hv; [by eapply benign_value_command|benign]. }
  destruct c; try exact Hb. apply leaf_benign.
Qed.

Lemma benign_unwrap {A} (o : option A) : benign (unwrap o).
Proof. unfold unwrap. benign. Qed.
Lemma benign_found msg r : benign (found msg r).
Proof. unfold found. benign. Qed.
Lemma benign_invoke_context ctx args : benign (invoke_context ctx args).
Proof. unfold invoke_context. benign. Qed.
Lemma benign_capture_set em k v : benign (capture_set em k v).
Proof. unfold capture_set. benign. Qed.
#[export] Hint Resolve benign_unwrap benign_found benign_invoke_context benign_capture_set
  : benign.
Lemma benign_capture_all em t r : benign (capture_all em t r).
Proof. unfold capture_all. benign. Qed.
Lemma benign_wrap {A} msg (m : M A) : benign m -> benign (wrap msg m).
Proof. intros. unfold wrap. benign. Qed.
#[export] Hint Resolve benign_capture_all benign_wrap : benign.
Lemma benign_run_delete em l v : benign (run_delete em l v).
Proof. unfold run_delete. benign. Qed.
#[export] Hint Resolve benign_run_delete : benign.

Lemma list_all_impl {A} (Q R : A -> Prop) l :
  (forall a, Q a -> R a) -> list_all A Q l -> list_all A R l.
Proof. intros HQ Hl. induction Hl; constructor; auto. Qed.

(** The same from a predicate in [Type], as [prod_all] is. *)
Lemma list_all_impl_type {A} (Q : A -> Type) (R : A -> Prop) l :
  (forall a, Q a -> R a) -> list_all A Q l -> list_all A R l.
Proof. intros HQ Hl. induction Hl; constructor; auto. Qed.

Section compat.
Context (P : forall A, M A -> M A -> Prop) `{!Closed P}.

(** Decompose two computations of the same shape. *)
Ltac closed :=
  intros; cbv beta in *;
  repeat match goal with
  | |- P _ (bind _ _) (bind _ _) => apply cl_bind; [|intros ?]
  | |- P _ (attempt _) (attempt _) => apply cl_attempt
  | |- P _ (with_frame _ _) (with_frame _ _) => apply cl_frame
  | |- P _ (with_traverse _ _ _) (with_traverse _ _ _) => apply cl_traverse
  | |- P _ (with_map_reduce _ _) (with_map_reduce _ _) => apply cl_map_reduce; intros ?
  | |- P _ (match ?x with _ => _ end) (match ?x with _ => _ end) => destruct x
  end;
  try match goal with
  | X : P _ ?m ?m' |- P _ ?m ?m' => exact X
  | |- P _ ?m ?m => solve [apply cl_benign; benign]
  | X : forall _, P _ _ _ |- _ => solve [apply X]
  | X : forall _ _, P _ _ _ |- _ => solve [apply X]
  | X : forall _ _ _, P _ _ _ |- _ => solve [apply X]
  end.

Lemma closed_wrap {A} msg (m m' : M A) : P A m m' -> P A (wrap msg m) (wrap msg m').
Proof. unfold wrap. closed. Qed.

Lemma closed_scoped {A} e r b (m m' : M A) restore :
  P A m m' -> benign restore -> P A (scoped e r b m restore) (scoped e r b m' restore).
Proof. unfold scoped. closed. Qed.

Lemma closed_mapM {A B} (f f' : A -> M B) l :
  list_all _ (fun a => P B (f a) (f' a)) l -> P _ (mapM f l) (mapM f' l).
Proof. intros Hl. induction Hl; simpl; closed. Qed.

Lemma closed_forM_ {A} (f f' : A -> M unit) l :
  list_all _ (fun a => P _ (f a) (f' a)) l -> P _ (forM_ f l) (forM_ f' l).
Proof. intros Hl. induction Hl; simpl; closed. Qed.

(** *** Loops *)

Lemma closed_chain_loop ex ex' allow msg exprs r :
  list_all _ (fun '(_, e, _) => P _ (ex e) (ex' e)) exprs ->
  P _ (chain_loop ex allow msg exprs r) (chain_loop ex' allow msg exprs r).
Proof.
  intros Hl. revert r. induction Hl as [|[[pre e] post] He exprs _ IH]; intros r; simpl; [closed|].
  apply cl_bind; [by apply closed_wrap|]. intros r1. closed.
Qed.

Lemma closed_first_ok_loop ex ex' l e :
  list_all _ (fun e => P _ (ex e) (ex' e)) l ->
  P _ (first_ok_loop ex l e) (first_ok_loop ex' l e).
Proof. intros Hl. revert e. induction Hl; intros e; simpl; closed. Qed.

Lemma closed_traverse_loop {E S} (f f' : S -> nat -> E -> M (S * bool)) l :
  (forall s i x, P _ (f s i x) (f' s i x)) ->
  forall s i, P _ (traverse_loop f s i l) (traverse_loop f' s i l).
Proof. intros Hf. induction l; simpl; closed. Qed.

Lemma closed_traverse {E S} (k : kind E) l (f f' : S -> nat -> E -> M (S * bool)) s :
  (forall s i x, P _ (f s i x) (f' s i x)) -> P _ (traverse k l f s) (traverse k l f' s).
Proof.
  intros Hf. unfold traverse. closed. by apply closed_traverse_loop.
Qed.

Lemma closed_mm_traverse {S} l (f f' : S -> nat -> string * string -> M (S * bool)) s :
  (forall s i x, P _ (f s i x) (f' s i x)) -> P _ (mm_traverse l f s) (mm_traverse l f' s).
Proof.
  intros Hf. unfold mm_traverse. closed. by apply closed_traverse_loop.
Qed.

(** *** Calls *)

Section calls.
Context (call call' : Callee -> Context -> M CommandResult).
Hypothesis Hcall : forall c ctx, P _ (call c ctx) (call' c ctx).

Lemma closed_in_lib_of {A} r (m m' : M A) : P _ m m' -> P _ (in_lib_of r m) (in_lib_of r m').
Proof. unfold in_lib_of. closed. Qed.

Lemma closed_in_chain_of {A} r (m m' : M A) : P _ m m' -> P _ (in_chain_of r m) (in_chain_of r m').
Proof. unfold in_chain_of. closed. Qed.

Lemma closed_run_exec scope t ctx : P _ (run_exec call scope t ctx) (run_exec call' scope t ctx).
Proof.
  unfold run_exec, exec_block_target, exec_chain_target, exec_lib_target.
  closed; apply closed_in_lib_of; closed. apply closed_in_chain_of. closed.
Qed.

Lemma closed_run_invoke scope t b b' ctx :
  P _ b b' -> P _ (run_invoke call scope t b ctx) (run_invoke call' scope t b' ctx).
Proof.
  unfold run_invoke, invoke_block_target, invoke_chain_target, invoke_lib_target.
  closed; apply closed_in_lib_of; closed. apply closed_in_chain_of. closed.
Qed.

Lemma closed_map_step m m' x vars : P _ m m' -> P _ (map_step m x vars) (map_step m' x vars).
Proof. unfold map_step. closed. Qed.

Lemma closed_map_collection em m m' x coll :
  P _ m m' -> P _ (map_collection em m x coll) (map_collection em m' x coll).
Proof.
  intros Hm. unfold map_collection. destruct coll; closed;
    first [apply closed_traverse|apply closed_mm_traverse]; intros s i y;
    try destruct y; by apply closed_map_step.
Qed.

(** Two optional computations, related when both are there. *)
Definition opt_rel (o o' : option (M CommandResult)) : Prop :=
  match o, o' with
  | Some m, Some m' => P _ m m'
  | None, None => True
  | _, _ => False
  end.

Lemma closed_run_map_reduce em coll m m' b b' r r' :
  P _ m m' -> opt_rel b b' -> opt_rel r r' ->
  P _ (run_map_reduce em coll m b r) (run_map_reduce em coll m' b' r').
Proof.
  intros Hm Hb Hr. unfold run_map_reduce, map_reduce_impl.
  destruct b, b', r, r'; simpl in Hb, Hr; try done; closed; by apply closed_map_collection.
Qed.

(** *** Arguments, expressions and executors *)

Section exec.
Context `{F64Text} `{ArgParser} `{LeafLaws}.

Abbreviation arg_ok a := (forall ctx, P _ (eval_arg call a ctx) (eval_arg call' a ctx)).
Abbreviation expr_ok e := (forall ctx, P _ (exec_expr call e ctx) (exec_expr call' e ctx)).
Abbreviation cmd_ok x := (forall ctx, P _ (exec_cmd call x ctx) (exec_cmd call' x ctx)).

Lemma closed_entries {K} (f : K -> TypedValue -> M unit) l ctx :
  (forall k v, benign (f k v)) ->
  list_all _ (prod_all K (fun _ => unit) _ (fun a => arg_ok a)) l ->
  P _ (forM_ (fun '(k, a) => let* v := eval_arg call a ctx in f k v) l)
      (forM_ (fun '(k, a) => let* v := eval_arg call' a ctx in f k v) l).
Proof.
  intros Hf Hl. apply closed_forM_. induction Hl as [|x Hx l' _ IH]; constructor; [|done].
  destruct Hx as [k _ a Ha]. closed.
Qed.

Lemma closed_build_args l ctx :
  list_all _ (prod_all string (fun _ => unit) _ (fun a => arg_ok a)) l ->
  P _ (let* m := alloc KMap [] in
       forM_ (fun '(k, a) => let* v := eval_arg call a ctx in map_insert m k v ;; ret tt) l ;;
       ret m)
      (let* m := alloc KMap [] in
       forM_ (fun '(k, a) => let* v := eval_arg call' a ctx in map_insert m k v ;; ret tt) l ;;
       ret m).
Proof.
  intros Hl. closed. apply (closed_entries (fun k v => map_insert _ k v ;; ret tt)); [|done].
  benign.
Qed.

Lemma closed_one_of ic loose v cs ctx :
  list_all _ (fun a => arg_ok a) cs ->
  P _ (one_of_loop (fun a => eval_arg call a ctx) ic loose v cs)
      (one_of_loop (fun a => eval_arg call' a ctx) ic loose v cs).
Proof. intros Hl. induction Hl; simpl; closed. Qed.

Lemma closed_group policy mode args ctx :
  list_all _ (fun a => arg_ok a) args ->
  P _ (eval_group (fun a => eval_arg call a ctx) policy mode args)
      (eval_group (fun a => eval_arg call' a ctx) policy mode args).
Proof.
  intros Hl. assert (P _ (mapM (fun a => eval_arg call a ctx) args)
    (mapM (fun a => eval_arg call' a ctx) args)) as Hm
    by (apply closed_mapM; eapply list_all_impl; [|exact Hl]; closed).
  destruct mode; simpl; closed; exact Hm.
Qed.

Lemma closed_syntax :
  (forall a, arg_ok a) /\ (forall e, expr_ok e) /\ (forall x, cmd_ok x).
Proof.
  apply syntax_mutind; simpl; intros;
    repeat match goal with X : option_all _ _ ?o |- _ => destruct X end; closed.
  - apply closed_forM_. eapply list_all_impl; [|eassumption]. closed.
  - apply (closed_entries (fun k v => map_insert _ k v ;; ret tt)); [benign|done].
  - apply closed_wrap, closed_wrap. closed.
  - apply closed_chain_loop. eapply list_all_impl_type; [|eassumption].
    intros [[pre e] post] He. inversion_clear He as [x Hx y]. inversion_clear Hx. closed.
  - apply closed_first_ok_loop. eapply list_all_impl; [|eassumption]. closed.
  - by apply closed_run_exec.
  - by apply closed_run_invoke, closed_build_args.
  - by apply closed_run_invoke, closed_build_args.
  - apply closed_run_map_reduce; simpl; auto.
  - apply closed_run_map_reduce; simpl; auto.
  - apply closed_run_map_reduce; simpl; auto.
  - apply closed_run_map_reduce; simpl; auto.
  - by apply closed_one_of.
  - unfold conversion. closed.
  - unfold conversion. closed.
  - apply closed_mapM. eapply list_all_impl_type; [|eassumption].
    intros [mode a] Ha. inversion_clear Ha. by apply closed_group.
  - apply cl_benign, benign_leaf_command.
Qed.

Lemma closed_eval_arg a ctx : P _ (eval_arg call a ctx) (eval_arg call' a ctx).
Proof. apply closed_syntax. Qed.
Lemma closed_exec_expr e ctx : P _ (exec_expr call e ctx) (exec_expr call' e ctx).
Proof. apply closed_syntax. Qed.

(** *** Statements *)

Section statements.
Context (ctx : Context) {L : Set} (ex ex' : L -> M CommandResult).

Abbreviation lines_ok := (list_all L (fun l => P _ (ex l) (ex' l))).

Lemma closed_nested_lines lines r :
  lines_ok lines -> P _ (nested_lines ex lines r) (nested_lines ex' lines r).
Proof. intros Hl. revert r. induction Hl; intros r; simpl; closed. Qed.

Lemma closed_expression_chain allow msg es :
  P _ (expression_chain call ctx allow msg es) (expression_chain call' ctx allow msg es).
Proof.
  unfold expression_chain. apply closed_chain_loop.
  induction es as [|[[pre e] post] es IH]; constructor; auto using closed_exec_expr.
Qed.

Lemma closed_branches_loop msg els bs :
  option_all _ lines_ok els ->
  list_all _ (IfBranch_all L (fun l => P _ (ex l) (ex' l))) bs ->
  P _ (branches_loop call ctx ex msg els bs) (branches_loop call' ctx ex' msg els bs).
Proof.
  intros He Hb. induction Hb as [|b Hb bs _ IH]; simpl.
  - destruct He; closed. by apply closed_nested_lines.
  - destruct Hb as [cond lines Hl]. simpl.
    apply cl_bind; [apply closed_expression_chain|]. intros c. closed.
    by apply closed_nested_lines.
Qed.

Lemma closed_case s :
  CaseStatement_all L (fun l => P _ (ex l) (ex' l)) s ->
  P _ (execute_case_statement call ctx ex s) (execute_case_statement call' ctx ex' s).
Proof.
  intros [subject binding bs Hb els He].
  unfold execute_case_statement, execute_case_branches. simpl.
  destruct subject, binding; try (by apply closed_branches_loop).
  apply cl_bind; [apply closed_eval_arg|]. intros v. closed.
  apply closed_scoped; [|benign]. closed. by apply closed_branches_loop.
Qed.

Lemma closed_match_result_branch bs lines :
  lines_ok lines ->
  P _ (match_result_branch ctx ex bs lines) (match_result_branch ctx ex' bs lines).
Proof.
  intros Hl. unfold match_result_branch. closed.
  apply closed_scoped; [|benign]. closed. by apply closed_nested_lines.
Qed.

Lemma closed_match_result s :
  MatchResultStatement_all L (fun l => P _ (ex l) (ex' l)) s ->
  P _ (execute_match_result_statement call ctx ex s)
      (execute_match_result_statement call' ctx ex' s).
Proof.
  intros [cmd ok Hok err Herr ctl Hctl]. unfold execute_match_result_statement. simpl.
  apply cl_bind; [apply closed_exec_expr|]. intros r.
  destruct r; [destruct Hok as [b Hb|]|destruct Herr as [b Hb|]|destruct Hctl as [b Hb|]];
    closed; destruct Hb; by apply closed_match_result_branch.
Qed.

Lemma closed_for_step s fs k v :
  ForStatement_all L (fun l => P _ (ex l) (ex' l)) s ->
  P _ (for_step ctx ex s fs k v) (for_step ctx ex' s fs k v).
Proof.
  intros [kv vv it lines Hl]. unfold for_step, execute_for_iteration. simpl. closed.
  by apply closed_nested_lines.
Qed.

Lemma closed_for_traverse s it :
  ForStatement_all L (fun l => P _ (ex l) (ex' l)) s ->
  P _ (for_traverse ctx ex s it) (for_traverse ctx ex' s it).
Proof.
  intros Hs. unfold for_traverse. destruct it; closed;
    apply closed_traverse; intros fs i x; try destruct x; closed; by apply closed_for_step.
Qed.

Lemma closed_for s :
  ForStatement_all L (fun l => P _ (ex l) (ex' l)) s ->
  P _ (execute_for_statement call ctx ex s) (execute_for_statement call' ctx ex' s).
Proof.
  intros Hs. unfold execute_for_statement. closed.
  - apply closed_scoped; [|benign]. apply cl_bind; [apply closed_eval_arg|]. intros it.
    apply cl_bind; [by apply closed_for_traverse|]. closed.
Qed.

Lemma closed_statement s :
  StatementOf_all L (fun l => P _ (ex l) (ex' l)) s ->
  P _ (execute_statement call ctx ex s) (execute_statement call' ctx ex' s).
Proof.
  intros [es i Hi c Hc f Hf m Hm]. unfold execute_statement. simpl.
  destruct Hi as [i [bs Hb els He]|]; [by apply closed_branches_loop|].
  destruct Hc; [by apply closed_case|]. destruct Hf; [by apply closed_for|].
  destruct Hm; [by apply closed_match_result|]. apply closed_expression_chain.
Qed.

Lemma closed_statements_loop ss r :
  list_all _ (StatementOf_all L (fun l => P _ (ex l) (ex' l))) ss ->
  P _ (statements_loop call ctx ex ss r) (statements_loop call' ctx ex' ss r).
Proof.
  intros Hs. revert r. induction Hs; intros r; simpl; [closed|].
  apply cl_bind; [by apply closed_statement|]. closed.
Qed.
End statements.

Lemma closed_line ctx line : P _ (execute_line call ctx line) (execute_line call' ctx line).
Proof.
  induction line as [src ss IH] using Line_ind. simpl. by apply closed_statements_loop.
Qed.

(** *** Blocks, chains and libraries *)

(** The body of a block, without its guard. *)
Lemma closed_block_loop ctx lines r :
  P _ (block_loop call ctx lines r) (block_loop call' ctx lines r).
Proof.
  revert r. induction lines; intros r; simpl; [closed|].
  apply cl_bind; [by apply closed_wrap, closed_line|]. closed.
Qed.

Lemma closed_run_block b ctx : P _ (run_block call b ctx) (run_block call' b ctx).
Proof. unfold run_block. closed. apply closed_block_loop. Qed.

Lemma closed_blocks_loop bs ctx r : P _ (blocks_loop call bs ctx r) (blocks_loop call' bs ctx r).
Proof.
  revert r. induction bs; intros r; simpl; [closed|].
  apply cl_bind; [apply closed_run_block|]. closed.
Qed.

Lemma closed_execute_chain c ctx : P _ (execute_chain call c ctx) (execute_chain call' c ctx).
Proof. unfold execute_chain. closed. apply closed_blocks_loop. Qed.

Lemma closed_chains_loop cs ctx r : P _ (chains_loop call cs ctx r) (chains_loop call' cs ctx r).
Proof.
  revert r. induction cs; intros r; simpl; [closed|].
  apply cl_bind; [apply closed_execute_chain|]. closed.
Qed.

Lemma closed_callee c ctx : P _ (execute_callee call c ctx) (execute_callee call' c ctx).
Proof.
  destruct c; simpl.
  - unfold execute_block. closed. apply closed_run_block.
  - apply closed_execute_chain.
  - unfold execute_lib. closed. apply closed_chains_loop.
Qed.
End exec.
End calls.
End compat.
