(* ===== verification/Samples.v ===== *)
(** * Sample programs

    Concrete instances of the interfaces and small programs on which the
    theorems of the development are applied: the theorems on the parser here,
    the theorems on executions where they are stated. *)

From S2P Require Import Prelude Values Syntax State Collections Env VarPath Nom Parser ParserFacts BlockFacts ParserRound ParserEdges Chains Commands Effects Interp Compat.

Definition sample_f64 : F64Text := {| f64_display := fun _ => "0"; f64_parse := fun _ => None |}.

(** The parser of arguments of the block parser. *)
Definition sample_parser : ArgParser := @block_arg_parser sample_f64 nom_model nom_model_laws.

Definition sample_leaf : LeafCommands := {| leaf_exec := fun _ _ _ => ret success |}.

Lemma sample_leaf_laws : @LeafLaws sample_leaf.
Proof. split. intros. apply benign_ret. Qed.

(** One command on a line of its own. *)
Definition command_line (x : CommandExecutor) : Line :=
  mkLine "" [new_expressions [(None, ECommand "" [] (Some x), None)]].

Definition return_line (level : CommandControlLevel) (v : string) : Line :=
  command_line (XReturn level (Some (Literal v))).

(** A library with a chain that calls itself for ever and one that returns. *)
Definition loop_chain : ProcessChain :=
  mkProcessChain "loop" 0 [mkBlock "again" [command_line (XExec ScChain (Literal "loop"))]].

Definition ok_chain : ProcessChain :=
  mkProcessChain "ok" 1 [mkBlock "b" [return_line LvChain "done"]; mkBlock "unused" []].

Definition demo_lib : ProcessChainLib := lib_new ConstListLib "demo" 0 [ok_chain; loop_chain].

(** A context over [demo_lib] with its environments, and the state they are in. *)
Definition demo : Context * state :=
  match context_new [demo_lib] None default_policy empty_state with
  | (Done ctx, st) => (ctx, st)
  | (_, st) => (mkContext [] (mkEnvManager 0 0 0 0 default_policy), st)
  end.
Definition demo_ctx : Context := fst demo.
Definition demo_state : state := snd demo.

(** The same while the first block of [loop_chain] runs. *)
Definition demo_running : state :=
  set_stack [FBlock "again"; FChain loop_chain; FLib demo_lib] demo_state.

Lemma empty_state_wf : heap_wf empty_state.
Proof. intros E k l. destruct k; apply kind_wf_nil. Qed.

Lemma demo_state_step : Step empty_state demo_state.
Proof.
  assert (benign (context_new [demo_lib] None default_policy)) as Hb
    by (unfold context_new; benign).
  destruct (Hb empty_state) as [_ HS].
  unfold demo_state, demo. by destruct (context_new _ _ _ _) as [[] ?].
Qed.

Lemma demo_running_wf : heap_wf demo_running.
Proof.
  apply (heap_wf_ext demo_state); [intros E k l; by destruct k|].
  exact (step_wf _ _ demo_state_step empty_state_wf).
Qed.

Lemma demo_running_grounded : grounded demo_running.
Proof.
  apply (grounded_ext demo_state); [done..|]. apply (step_grounded _ _ demo_state_step).
  split; [by exists (fun _ => 0%nat)|done].
Qed.

(** * Programs for the block parser

    The theorems on the parser applied to concrete texts, read with the model
    of the parser combinators. *)

Definition parse_sample (text : string) : Outcome Block :=
  @parse_block nom_model sample_f64 "b" text.

Definition sample_text : string :=
  "if eq $REQ.host 'a.com' then" +:+ String char_lf
  ("  forward 'http://b' && accept;" +:+ String char_lf
  ("end" +:+ String char_lf "!match ${REQ.path} '/x' || reject;")).

(** [sample_text] is one [if] statement and one negated command. *)
Definition sample_block : Block :=
  match parse_sample sample_text with
  | Done b => b
  | _ => mkBlock "" []
  end.

(** A text that ends in the middle of a statement. *)
Lemma parse_block_total_witness :
  (exists b, parse_sample "if eq 1 1 then" = Done b) \/ (exists e, parse_sample "if eq 1 1 then" = Fail e).
Proof. exact (@parse_block_total sample_f64 nom_model nom_model_laws "b" "if eq 1 1 then"). Defined.

Lemma parse_block_wf_witness :
  parse_sample sample_text = Done sample_block /\ List.length (block_lines sample_block) = 2%nat
  /\ @wf_block sample_f64 sample_block = true.
Proof.
  assert (E : parse_sample sample_text = Done sample_block) by (vm_compute; reflexivity).
  split; [exact E|]. split; [vm_compute; reflexivity|].
  exact (@parse_block_wf sample_f64 nom_model nom_model_laws "b" sample_text sample_block E).
Defined.

(** [!match ${REQ.path} 'a b' || reject;set x 1;] *)
Definition printed_sample : list PlainStatement :=
  [ mkPlainStatement (mkPlainCommand true "match" [PVar "REQ.path"; PQuoted "a b"])
      [(false, mkPlainCommand false "reject" [])];
    mkPlainStatement (mkPlainCommand false "set" [PWord "x"; PWord "1"]) [] ].

Lemma parse_print_line_witness :
  print_line printed_sample = "!match ${REQ.path} 'a b' || reject;set x 1;"
  /\ @parse_line nom_model sample_f64 (print_line printed_sample)
     = Done (mkLine (print_line printed_sample) (List.map (@statement_tree sample_f64) printed_sample)).
Proof.
  split; [reflexivity|]. apply (@parse_print_line sample_f64 nom_model nom_model_laws). reflexivity.
Defined.

Lemma bare_command_refused_witness :
  @parse_line nom_model sample_f64 "reject" = Fail "Unexpected content after statements"
  /\ exists l, @parse_line nom_model sample_f64 "reject;" = Done l.
Proof.
  apply (@bare_command_refused sample_f64 nom_model nom_model_laws "reject"). reflexivity.
Defined.

(** ['v1.(beta)'] *)
Lemma quoted_text_interpolated_witness :
  @parse_arg nom_model sample_f64 "'v1.(beta)' x"
  = IOk " x" (append_parts [StringLiteral "'v1."; @unquoted_arg sample_f64 "beta"; StringLiteral "'"]).
Proof.
  apply (@quoted_text_interpolated sample_f64 nom_model nom_model_laws "v1" "b" "eta" " x");
    reflexivity.
Defined.
