(* ===== verification/InterpFacts.v ===== *)
(** * Correctness of execution

    The theorems on whole executions: they end, their result does not depend
    on the bound chosen for nested calls, and they leave the execution stack,
    the environments and the collections under traversal as they found them. *)

From S2P Require Import Prelude Values Syntax State Collections Env VarPath Chains Commands Effects Interp.
From S2P Require Import Compat Samples.

Section execution.
Context `{F64Text} `{ArgParser} `{LeafLaws}.

Lemma run_steps n c ctx : steps _ (run n c ctx) (run n c ctx).
Proof.
  revert c ctx. induction n as [|n IH]; intros c ctx; simpl; [by intros st|].
  apply (closed_callee steps); auto.
Qed.

Lemma run_fuel_le n m c ctx : (n <= m)%nat -> fuel_le _ (run n c ctx) (run m c ctx).
Proof.
  revert m c ctx. induction n as [|n IH]; intros m c ctx Hn; [by left|].
  destruct m as [|m]; [lia|]. simpl. apply (closed_callee fuel_le); [|apply _].
  intros. apply IH. lia.
Qed.

Lemma good_weaken d d' A (m m' : M A) : (d <= d')%nat -> good d A m m' -> good d' A m m'.
Proof. intros Hd Hm st Hg Hs. apply Hm; [done|lia]. Qed.

(** Every callee pushes a frame before it makes a nested call. *)
Lemma good_callee d call c ctx :
  (forall c ctx, good (S d) _ (call c ctx) (call c ctx)) ->
  good d _ (execute_callee call c ctx) (execute_callee call c ctx).
Proof.
  intros Hc. destruct c as [ch id|ch|l]; simpl.
  - unfold execute_block. destruct (get_block ch id); [|apply good_benign; benign].
    apply good_frame_S. apply cl_bind; [apply cl_benign; benign|]. intros ctx'.
    by apply (closed_block_loop (good (S d))).
  - unfold execute_chain. destruct (chain_blocks ch); [apply good_benign; benign|].
    apply good_frame_S. by apply (closed_blocks_loop (good (S d))).
  - apply good_frame_S. by apply (closed_chains_loop (good (S d))).
Qed.

Lemma run_good n c ctx : good (run_fuel - n) _ (run n c ctx) (run n c ctx).
Proof.
  revert c ctx. induction n as [|n IH]; intros c ctx.
  - intros st Hg Hd. unfold run_fuel in Hd. lia.
  - simpl run. apply good_callee. intros c' ctx'. eapply good_weaken; [|apply IH].
    unfold run_fuel. lia.
Qed.

(** C1: executions end.  If the variables of visitors are not registered in a
    cycle and the parents of environments are older than they are ([grounded]),
    and if the commands outside the model end and keep to the effects of
    [benign] ([LeafLaws]), then a block, chain or library that starts with a
    stack within its limit ends with a result, an error or a panic: fuel for
    one nested call more than the free stack entries is enough, whatever the
    calls are, a chain that calls itself for ever included.  The state it
    leaves behind with a result or an error is grounded again. *)
Theorem run_terminates n c ctx st :
  grounded st -> (depth st <= MAX_STACK_DEPTH)%nat -> (run_fuel <= n + depth st)%nat ->
  fst (run n c ctx st) <> OutOfFuel /\
  (completed (fst (run n c ctx st)) = true -> grounded (snd (run n c ctx st))).
Proof.
  intros Hg Hd Hn. destruct (run_good n c ctx st Hg) as [Hf Hs]; [lia|]. split; [done|].
  intros Hc. by apply Hs.
Qed.

(** The fuel does not change the result: any two amounts that are enough
    give the same outcome and the same state. *)
Theorem run_fuel_irrelevant n m c ctx st :
  grounded st -> (depth st <= MAX_STACK_DEPTH)%nat ->
  (run_fuel <= n + depth st)%nat -> (run_fuel <= m + depth st)%nat ->
  run n c ctx st = run m c ctx st.
Proof.
  intros Hg Hd Hn Hm.
  assert (forall k, (run_fuel <= k + depth st)%nat -> (k <= n + m)%nat ->
    run k c ctx st = run (n + m) c ctx st) as Hk.
  { intros k Hk Hl. destruct (run_fuel_le k (n + m) c ctx Hl st) as [Hf|]; [|done].
    by destruct (run_good k c ctx st Hg ltac:(lia)). }
  rewrite (Hk n), (Hk m) by lia. done.
Qed.

(** C2: an execution that returns a result or an error leaves the execution
    stack, the registered environments with their externals and the scopes of
    [map-reduce] as they were. *)
Theorem run_restores_stack_and_envs n c ctx st :
  completed (fst (run n c ctx st)) = true ->
  st_stack (snd (run n c ctx st)) = st_stack st /\
  (forall e env, st_envs st !! e = Some env -> st_envs (snd (run n c ctx st)) !! e = Some env) /\
  (forall x s, st_scopes st !! x = Some s -> st_scopes (snd (run n c ctx st)) !! x = Some s).
Proof.
  intros Hc. pose proof (run_steps n c ctx st Hc) as HS.
  repeat split; [apply (step_stack _ _ HS)|apply (step_envs _ _ HS)|apply (step_scopes _ _ HS)].
Qed.

(** C3: no execution changes a collection that is being traversed, and every
    traversal counter is back at its value. *)
Theorem run_respects_traversal n c ctx st E (k : kind E) l :
  completed (fst (run n c ctx st)) = true ->
  obj_trav (obj_at k l (snd (run n c ctx st))) = obj_trav (obj_at k l st) /\
  ((0 < obj_trav (obj_at k l st))%nat -> obj_at k l (snd (run n c ctx st)) = obj_at k l st).
Proof.
  intros Hc. pose proof (run_steps n c ctx st Hc) as HS.
  split; [apply (step_trav _ _ HS)|apply (step_data _ _ HS)].
Qed.

(** C4: an execution that returns a result or an error keeps every collection
    of the heap well formed: no key of a map and no value of a set occurs
    twice, and a multimap has neither a key twice nor a value twice under one. *)
Theorem run_keeps_collections_wf n c ctx st :
  heap_wf st -> completed (fst (run n c ctx st)) = true -> heap_wf (snd (run n c ctx st)).
Proof. intros Hw Hc. exact (step_wf _ _ (run_steps n c ctx st Hc) Hw). Qed.
End execution.

Lemma run_terminates_witness :
  fst (@run sample_f64 sample_parser sample_leaf run_fuel (CallChain loop_chain) demo_ctx demo_running)
  <> OutOfFuel.
Proof.
  apply (@run_terminates sample_f64 sample_parser sample_leaf sample_leaf_laws).
  - exact demo_running_grounded.
  - apply Nat.leb_le. reflexivity.
  - apply Nat.leb_le. reflexivity.
Defined.

Lemma run_fuel_irrelevant_witness :
  @run sample_f64 sample_parser sample_leaf 65 (CallChain loop_chain) demo_ctx demo_running
  = @run sample_f64 sample_parser sample_leaf 100 (CallChain loop_chain) demo_ctx demo_running.
Proof.
  apply (@run_fuel_irrelevant sample_f64 sample_parser sample_leaf sample_leaf_laws).
  - exact demo_running_grounded.
  - apply Nat.leb_le. reflexivity.
  - apply Nat.leb_le. reflexivity.
  - apply Nat.leb_le. reflexivity.
Defined.

Lemma run_restores_stack_and_envs_witness :
  let st' := snd (@run sample_f64 sample_parser sample_leaf run_fuel
    (CallChain ok_chain) demo_ctx demo_running) in
  st_stack st' = st_stack demo_running /\
  (forall e env, st_envs demo_running !! e = Some env -> st_envs st' !! e = Some env) /\
  (forall x s, st_scopes demo_running !! x = Some s -> st_scopes st' !! x = Some s).
Proof.
  apply (@run_restores_stack_and_envs sample_f64 sample_parser sample_leaf sample_leaf_laws
    run_fuel (CallChain ok_chain) demo_ctx demo_running).
  vm_compute. reflexivity.
Defined.

Lemma run_respects_traversal_witness :
  obj_trav (obj_at KMap 0 (snd (@run sample_f64 sample_parser sample_leaf run_fuel
    (CallChain ok_chain) demo_ctx demo_running))) = obj_trav (obj_at KMap 0 demo_running).
Proof.
  apply (@run_respects_traversal sample_f64 sample_parser sample_leaf sample_leaf_laws
    run_fuel (CallChain ok_chain) demo_ctx demo_running _ KMap 0%nat).
  vm_compute. reflexivity.
Defined.

Lemma run_keeps_collections_wf_witness :
  heap_wf (snd (@run sample_f64 sample_parser sample_leaf run_fuel
    (CallChain ok_chain) demo_ctx demo_running)).
Proof.
  apply (@run_keeps_collections_wf sample_f64 sample_parser sample_leaf sample_leaf_laws
    run_fuel (CallChain ok_chain) demo_ctx demo_running).
  - exact demo_running_wf.
  - vm_compute. reflexivity.
Defined.
