(* ===== verification/ControlFacts.v ===== *)
(** * Control flow

    How results and control actions travel: loops over lines, statements,
    blocks, chains and [first-ok] alternatives run their elements in order
    until one of them ends the loop; [exec], [invoke] and [goto] turn control
    actions of their target into results; chains and libraries never let a
    [break] out. *)

From S2P Require Import Prelude Values Syntax State Collections Env VarPath Chains Commands Effects Interp.
From S2P Require Import Compat Samples.

Lemma bind_Done {A B} (m : M A) (k : A -> M B) st b st' :
  bind m k st = (Done b, st') <-> exists a st1, m st = (Done a, st1) /\ k a st1 = (Done b, st').
Proof.
  unfold bind. destruct (m st) as [r st1]. split.
  - destruct r as [a| | |]; intros Hk; simplify_eq. by exists a, st1.
  - by intros (a & st2 & [= -> ->] & Hk).
Qed.

Lemma ret_Done {A} (a b : A) st st' : ret a st = (Done b, st') <-> a = b /\ st = st'.
Proof. unfold ret. naive_solver. Qed.

Lemma of_result_Done {A} (r : Result A) a st st' :
  of_result r st = (Done a, st') <-> r = Ok a /\ st = st'.
Proof. destruct r; simpl; unfold ret, fail; naive_solver. Qed.

(** Take apart a computation that returned a value. *)
Ltac done_inv H :=
  repeat match type of H with
  | bind _ _ _ = (Done _, _) => apply bind_Done in H as (? & ? & ? & H)
  | ret _ _ = (Done _, _) => apply ret_Done in H as [? ?]; simplify_eq
  | of_result _ _ = (Done _, _) => apply of_result_Done in H as [? ?]; simplify_eq
  | fail _ _ = (Done _, _) => discriminate H
  end.

Lemma last_cons_default {A} (a d : A) l : List.last (a :: l) d = List.last l a.
Proof.
  revert a d. induction l as [|b l IH]; intros a d; [done|].
  change (List.last (b :: l) d = List.last (b :: l) a). by rewrite !IH.
Qed.

(** ** Running elements until one ends the loop *)

Section until.
Context {A : Type} (stop : CommandResult -> bool) (f : A -> M CommandResult).

Fixpoint until (l : list A) (result : CommandResult) : M CommandResult :=
  match l with
  | [] => ret result
  | a :: l' => let* r := f a in if stop r then ret r else until l' r
  end.

(** The elements of a list, run one after the other. *)
Inductive Runs : list A -> state -> list CommandResult -> state -> Prop :=
| Runs_nil st : Runs [] st [] st
| Runs_cons a l st r st1 rs st2 :
    f a st = (Done r, st1) -> Runs l st1 rs st2 -> Runs (a :: l) st (r :: rs) st2.

(** A prefix [l1] of the list runs; no result but the last one stops the loop,
    and the last one does unless the whole list has run.  The result is the
    last one. *)
Definition runs_until (l : list A) (r0 : CommandResult) (st : state) (r : CommandResult)
    (st' : state) : Prop :=
  exists l1 l2 rs, l = l1 ++ l2 /\ Runs l1 st rs st' /\
    r = List.last rs r0 /\ Forall (fun x => stop x = false) (removelast rs) /\
    (if stop r then l1 <> [] else l2 = []).

Lemma until_runs l r0 st r st' :
  stop r0 = false -> until l r0 st = (Done r, st') <-> runs_until l r0 st r st'.
Proof.
  revert r0 st. induction l as [|a l IH]; intros r0 st H0; simpl.
  - rewrite ret_Done. split.
    + intros [<- <-]. exists [], [], []. rewrite H0. repeat split; constructor.
    + intros (l1 & l2 & rs & Hl & Hr & -> & _). destruct l1; [|done]. by inversion Hr.
  - rewrite bind_Done. split.
    + intros (r1 & st1 & Hf & Hk). destruct (stop r1) eqn:E.
      * apply ret_Done in Hk as [<- <-]. exists [a], l, [r1]. rewrite E. simpl.
        repeat split; try done; repeat econstructor; eauto.
      * apply IH in Hk as (l1 & l2 & rs & -> & Hr & Hl & Hs & Hst); [|done].
        exists (a :: l1), l2, (r1 :: rs). split; [done|]. split; [by econstructor|].
        split; [by rewrite last_cons_default|].
        split; [destruct rs; [constructor|by constructor]|]. by destruct (stop r).
    + intros (l1 & l2 & rs & Hl & Hr & Hlast & Hs & Hst).
      destruct Hr as [st|a' l1' st r1 st1 rs' st2 Hf Hr'].
      { simpl in Hlast. subst r. rewrite H0 in Hst. by subst. }
      simpl in Hl. injection Hl as <- ->. rewrite last_cons_default in Hlast.
      exists r1, st1. split; [done|]. destruct rs' as [|r2 rs'].
      * inversion Hr'; subst; simpl in *. destruct (stop r1); [done|]. by subst.
      * change (removelast (r1 :: r2 :: rs')) with (r1 :: removelast (r2 :: rs')) in Hs.
        apply Forall_cons in Hs as [Hs1 Hs]. rewrite Hs1. apply IH; [done|].
        exists l1', l2, (r2 :: rs'). split; [done|]. split; [done|]. split; [done|].
        split; [done|]. destruct (stop r); [|done]. by inversion Hr'.
Qed.
End until.

(** ** Lines, blocks, chains and libraries *)

Section sequences.
Context `{F64Text} `{ArgParser} `{LeafCommands} (call : Callee -> Context -> M CommandResult).

Lemma bind_ext {A B} (m : M A) (k k' : A -> M B) st :
  (forall a st1, k a st1 = k' a st1) -> bind m k st = bind m k' st.
Proof. intros Hk. unfold bind. destruct (m st) as [[] st1]; auto. Qed.

(** A block: its lines run in order until one ends in a control action. *)
Lemma block_loop_until ctx lines r st :
  block_loop call ctx lines r st
  = until is_control (fun l => wrap "Failed to execute line" (execute_line call ctx l)) lines r st.
Proof.
  revert r st. induction lines as [|l lines IH]; intros r st; [done|]. simpl.
  apply bind_ext. intros r1 st1. by destruct (is_control r1).
Qed.

(** A block runs its lines in order; a line that ends in a control action
    ends the block with that action, otherwise the block's result is the
    result of its last line (success for a block without lines). *)
Theorem block_runs_lines ctx lines st r st' :
  block_loop call ctx lines success st = (Done r, st') <->
  runs_until is_control (fun l => wrap "Failed to execute line" (execute_line call ctx l))
    lines success st r st'.
Proof. rewrite block_loop_until. by apply until_runs. Qed.

(** Every control action but a return or an error from a block. *)
Definition ends_chain (r : CommandResult) : bool :=
  match r with
  | RControl (CReturn LvBlock _) | RControl (CError LvBlock _) => false
  | RControl _ => true
  | _ => false
  end.

Definition is_break_result (r : CommandResult) : bool :=
  match r with RControl c => is_break c | _ => false end.

Lemma blocks_loop_until bs ctx r st :
  is_break_result r = false ->
  blocks_loop call bs ctx r st =
  match until ends_chain (fun b => run_block call b ctx) bs r st with
  | (Done (RControl (CBreak _)), st') =>
      (Fail "break action only valid in map-reduce loop", st')
  | o => o
  end.
Proof.
  revert r st. induction bs as [|b bs IH]; intros r st Hr; simpl.
  { by destruct r as [| |[]]. }
  unfold bind. destruct (run_block call b ctx st) as [[r1| | |] st1]; try done.
  destruct r1 as [| |[v|[] v|[] v|v]]; simpl; try done; by apply IH.
Qed.

(** A chain runs its blocks in order until one returns from the chain or
    the library, errs from one of them, or exits; its result is the result of
    the last block that ran.  A [break] that leaves a block is an error. *)
Theorem chain_runs_blocks bs ctx st r st' :
  blocks_loop call bs ctx success st = (Done r, st') <->
  is_break_result r = false /\
  runs_until ends_chain (fun b => run_block call b ctx) bs success st r st'.
Proof.
  rewrite blocks_loop_until by done. rewrite <- until_runs by done.
  destruct (until _ _ bs success st) as [[r1| | |] st1]; [|naive_solver..].
  destruct r1 as [| |[]]; naive_solver.
Qed.

Definition ends_lib_result (r : CommandResult) : bool :=
  match r with RControl c => ends_lib c | _ => false end.

(** A library runs its chains in priority order until one exits or returns
    or errs from the library; its result is the result of the last chain. *)
Theorem lib_runs_chains cs ctx st r st' :
  chains_loop call cs ctx success st = (Done r, st') <->
  runs_until ends_lib_result (fun c => execute_chain call c ctx) cs success st r st'.
Proof.
  rewrite <- until_runs by done. generalize success as r0. revert st.
  induction cs as [|c cs IH]; intros st r0; [done|]. simpl. rewrite !bind_Done.
  assert (forall r1 st1, (match r1 with
    | RControl ctl => if ends_lib ctl then ret r1 else chains_loop call cs ctx r1
    | _ => chains_loop call cs ctx r1 end) st1 = (Done r, st') <->
    (if ends_lib_result r1 then ret r1 else until ends_lib_result
      (fun c => execute_chain call c ctx) cs r1) st1 = (Done r, st')) as Hk.
  { intros r1 st1. destruct r1 as [| |ctl]; simpl; [apply IH..|]. destruct (ends_lib ctl); auto. }
  by setoid_rewrite Hk.
Qed.

Lemma with_frame_Done {A} f (m : M A) st a st' :
  with_frame f m st = (Done a, st') -> exists st1 st2, m st1 = (Done a, st2).
Proof.
  intros Hw. unfold with_frame in Hw. done_inv Hw.
  match goal with Hm : attempt m ?s = _ |- _ =>
    unfold attempt in Hm; exists s; destruct (m s) as [[] ?]; simplify_eq; by eexists end.
Qed.

Lemma execute_chain_no_break c ctx st r st' :
  execute_chain call c ctx st = (Done r, st') -> is_break_result r = false.
Proof.
  unfold execute_chain. destruct (chain_blocks c) as [|b bs]; intros Hc.
  { by done_inv Hc. }
  apply with_frame_Done in Hc as (st1 & st2 & Hb). rewrite blocks_loop_until in Hb by done.
  destruct (until _ _ _ _ _) as [[[| |[]]| | |] ?]; by simplify_eq.
Qed.

Lemma chains_loop_no_break cs ctx r0 st r st' :
  is_break_result r0 = false -> chains_loop call cs ctx r0 st = (Done r, st') ->
  is_break_result r = false.
Proof.
  revert r0 st. induction cs as [|c cs IH]; intros r0 st Hb Hc; simpl in Hc; done_inv Hc; [done|].
  match goal with He : execute_chain _ _ _ _ = _ |- _ => apply execute_chain_no_break in He as Hn end.
  match type of Hc with (match ?r1 with _ => _ end) _ = _ => destruct r1 as [| |ctl] end;
    [by eapply IH; [|exact Hc]..|].
  destruct (ends_lib ctl); [by done_inv Hc|by eapply IH; [|exact Hc]].
Qed.

(** Neither a chain nor a library ever ends in a [break]. *)
Theorem chain_and_lib_never_break ctx st r st' :
  (forall c, execute_chain call c ctx st = (Done r, st') -> is_break_result r = false) /\
  (forall l, execute_lib call l ctx st = (Done r, st') -> is_break_result r = false).
Proof.
  split; [intros c; apply execute_chain_no_break|].
  intros l Hl. apply with_frame_Done in Hl as (st1 & st2 & Hc).
  by eapply chains_loop_no_break; [|exact Hc].
Qed.

(** ** Calls *)

Lemma normalize_no_control r r' : normalize_exec_result r = Ok r' -> is_control r' = false.
Proof. destruct r as [| |[]]; simpl; intros; by simplify_eq. Qed.

(** Control actions never cross a call: what [exec] and [invoke] return is
    a success or an error, never a control action of the code they ran. *)
Theorem calls_contain_control scope target build_args ctx st r st' :
  (run_exec call scope target ctx st = (Done r, st') -> is_control r = false) /\
  (run_invoke call scope target build_args ctx st = (Done r, st') -> is_control r = false).
Proof.
  unfold run_exec, run_invoke. split; intros Hr; done_inv Hr; by eapply normalize_no_control.
Qed.

(** A [goto] that completes always leaves the code it stands in: its result
    is a return or an error from the level it names, with the value of its
    target. *)
Theorem goto_leaves scope target args ok_level err_level ctx st r st' :
  exec_cmd call (XGoto scope target args ok_level err_level) ctx st = (Done r, st') ->
  exists v, r = RControl (CReturn ok_level v) \/ r = RControl (CError err_level v).
Proof.
  intros Hr. simpl in Hr. done_inv Hr.
  match goal with Hg : goto_result _ _ ?x = Ok _ |- _ => destruct x; simpl in Hg; simplify_eq end;
    eauto.
Qed.

(** [invoke], and so [goto], panics on a block of another chain of the
    current library, which [exec] with the same target runs. *)
Theorem invoke_block_of_current_lib_panics ctx chain block args st l c d b :
  current_lib st = Some l -> current_chain st = Some c -> chain_id c <> chain ->
  find_chain (lib_chains l) chain = Some d -> get_block d block = Some b ->
  invoke_block_target call ctx (mkExecTarget None (Some chain) (Some block)) args st
    = (Panicked "Chain must not be in the same library if same_chain is false", st) /\
  exec_block_target call ctx (mkExecTarget None (Some chain) (Some block)) st
    = with_frame (FChain d) (let* ctx' := fork_chain ctx in call (CallBlock d block) ctx') st.
Proof.
  intros Hl Hc Hn Hd Hb.
  assert (search_block ctx None (Some chain) block st
    = (Done (Some (mkSearchResult (Some l) true (Some d) false)), st)) as Hs.
  { unfold search_block, bind, gets, lib_get_chain. rewrite Hl, Hc, Hd. simpl.
    destruct (String.eqb_spec (chain_id c) chain); [done|]. by rewrite Hb. }
  unfold invoke_block_target, exec_block_target. cbn [target_block target_lib target_chain unwrap].
  rewrite !bind_ret_l. by rewrite !(bind_run _ _ _ _ _ Hs).
Qed.

(** ** [first-ok] *)

Definition ends_first_ok (r : CommandResult) : bool := is_success r || is_control r.

(** [first-ok] runs its alternatives in order until one succeeds or ends
    in a control action, and returns that result; if all fail it returns the
    last error, and an empty error if there is no alternative. *)
Theorem first_ok_runs commands ctx st r st' :
  exec_cmd call (XFirstOk commands) ctx st = (Done r, st') <->
  runs_until ends_first_ok (fun e => exec_expr call e ctx) commands (RError (VString "")) st r st'.
Proof.
  rewrite <- until_runs by done. simpl.
  assert (forall o, first_ok_loop (fun e => exec_expr call e ctx) commands o st =
    until ends_first_ok (fun e => exec_expr call e ctx) commands
      (default (RError (VString "")) o) st) as Hk; [|by rewrite Hk].
  revert st. induction commands as [|e es IH]; intros st o; [done|]. simpl.
  apply bind_ext. intros r1 st1. unfold ends_first_ok at 1.
  destruct (is_success r1 || is_control r1); [done|]. apply IH.
Qed.
End sequences.

Lemma goto_leaves_witness :
  exists v,
    RControl (CReturn LvLib (VString "done")) = RControl (CReturn LvLib v) \/
    RControl (CReturn LvLib (VString "done")) = RControl (CError LvBlock v).
Proof.
  eapply (@goto_leaves sample_f64 sample_parser sample_leaf
    (@run sample_f64 sample_parser sample_leaf run_fuel)
    ScChain (Literal "ok") [] LvLib LvBlock demo_ctx demo_running).
  vm_compute. reflexivity.
Defined.

Lemma invoke_block_of_current_lib_panics_witness :
  invoke_block_target (@run sample_f64 sample_parser sample_leaf run_fuel) demo_ctx
    (mkExecTarget None (Some "ok") (Some "b")) 0 demo_running
  = (Panicked "Chain must not be in the same library if same_chain is false", demo_running).
Proof.
  apply (invoke_block_of_current_lib_panics (@run sample_f64 sample_parser sample_leaf run_fuel)
    demo_ctx "ok" "b" 0 demo_running demo_lib loop_chain ok_chain
    (mkBlock "b" [return_line LvChain "done"])).
  - reflexivity.
  - reflexivity.
  - intros E. discriminate E.
  - reflexivity.
  - reflexivity.
Defined.
