(* ===== verification/CollectionFacts.v ===== *)
(** * Correctness of the memory collections

    The operations of the map, set and multimap collections implement finite
    maps and sets ([gmap], [gset]): each returns what the abstract operation
    returns and leaves a collection whose abstraction is the abstract result,
    with the entries in insertion order and no key twice.  While a collection
    is traversed every operation that would change it is refused.  A map behind a
    visitor is read to the end of the chain of visitors whenever it has one. *)

From S2P Require Import Prelude Values Syntax State Collections Effects.

(** ** The map collection *)

Definition map_abs (l : loc) (st : state) : gmap string TypedValue :=
  im_abs (obj_data (obj_at KMap l st)).

(** No key twice, and nobody traverses the map. *)
Definition map_ready (l : loc) (st : state) : Prop :=
  obj_trav (obj_at KMap l st) = 0%nat /\ NoDup (im_keys (obj_data (obj_at KMap l st))).

(** The entry of [k] is not an indirection to a visitor. *)
Definition plain_at (l : loc) (k : string) (st : state) : Prop :=
  forall v, map_abs l st !! k <> Some (VVisitor v).

Lemma mutate_idle {E B} (k : kind E) l msg (f : list E -> Result B * list E) st b data :
  obj_trav (obj_at k l st) = 0%nat -> f (obj_data (obj_at k l st)) = (Ok b, data) ->
  mutate k l msg f st = (Done b, set_obj k l (mkObj data 0) st).
Proof. intros Ht Hf. unfold mutate. by rewrite Ht, Hf. Qed.

Lemma mutate_refused {E B} (k : kind E) l msg (f : list E -> Result B * list E) st :
  (0 < obj_trav (obj_at k l st))%nat -> mutate k l msg f st = (Fail msg, st).
Proof. intros Ht. unfold mutate. by rewrite (proj2 (Nat.ltb_lt _ _) Ht). Qed.

Lemma obj_at_set_obj_eq {E} (k : kind E) l o st : obj_at k l (set_obj k l o st) = o.
Proof. by rewrite obj_at_set_obj, decide_True. Qed.

Lemma map_insert_run (l : loc) (k : string) (v : TypedValue) (st : state) :
  map_ready l st -> plain_at l k st ->
  map_insert l k v st =
    (Done (map_abs l st !! k),
     set_obj KMap l (mkObj (im_insert k v (obj_data (obj_at KMap l st))) 0) st).
Proof.
  intros [Ht _] Hp. unfold map_insert, bind at 1, gets. simpl map_insert_fuel.
  unfold plain_at, map_abs in Hp. rewrite <- im_get_abs in Hp.
  unfold map_abs. rewrite <- im_get_abs. unfold bind.
  erewrite mutate_idle with (b := inr (im_get k (obj_data (obj_at KMap l st)))); [done|done|].
  destruct (im_get k (obj_data (obj_at KMap l st))) as [[]|]; try done. by destruct (Hp l0).
Qed.

Lemma map_get_run (l : loc) (k : string) (st : state) :
  plain_at l k st -> map_get l k st = (Done (map_abs l st !! k), st).
Proof.
  intros Hp. unfold map_get, bind at 1, gets. simpl map_get_fuel.
  unfold plain_at, map_abs in *. rewrite <- im_get_abs in *. unfold bind, read, gets.
  destruct (im_get k (obj_data (obj_at KMap l st))) as [[]|]; try done. by destruct (Hp l0).
Qed.

Lemma map_remove_run (l : loc) (k : string) (st : state) :
  map_ready l st ->
  map_remove l k st =
    (Done (map_abs l st !! k),
     set_obj KMap l (mkObj (im_remove k (obj_data (obj_at KMap l st))) 0) st).
Proof.
  intros [Ht _]. unfold map_remove, map_abs. rewrite <- im_get_abs. by erewrite mutate_idle.
Qed.

(** The keys of a map in the order in which it is traversed. *)
Definition map_order (l : loc) (st : state) : list string := im_keys (obj_data (obj_at KMap l st)).

Lemma is_remove_filter k keys : NoDup keys -> is_remove k keys = filter (fun x => x <> k) keys.
Proof.
  induction 1 as [|x keys Hx Hn IH]; [done|]. simpl. rewrite filter_cons.
  destruct (String.eqb_spec k x) as [->|Hk]; [|by rewrite decide_True, IH].
  rewrite decide_False by (intros Hd; by apply Hd). clear IH Hn.
  induction keys as [|y keys IH]; [done|]. rewrite not_elem_of_cons in Hx.
  destruct Hx as [Hxy Hx]. rewrite filter_cons_True by congruence. by rewrite <- IH.
Qed.

(** C35: the map collection implements a finite map with an order, the order
    of insertion.  On a map that nobody traverses, without a key twice
    ([map_ready]), and at a key whose entry is no visitor ([plain_at]):
    [insert] returns the previous value and binds the key, which keeps its
    place or goes to the end if it is new; [remove] returns and drops the
    binding, and the other keys keep their order; [insert_new] binds a free
    key at the end and does nothing to a bound one; [get] and [contains_key]
    look the key up and change nothing; the map is ready again after each. *)
Theorem map_refines_gmap (l : loc) (k : string) (v : TypedValue) (st : state) :
  map_ready l st -> plain_at l k st ->
  (exists st', map_insert l k v st = (Done (map_abs l st !! k), st') /\
     map_abs l st' = <[k := v]> (map_abs l st) /\ map_ready l st' /\
     map_order l st' = (if decide (k ∈ map_order l st) then map_order l st else map_order l st ++ [k])) /\
  (exists st', map_remove l k st = (Done (map_abs l st !! k), st') /\
     map_abs l st' = delete k (map_abs l st) /\ map_ready l st' /\
     map_order l st' = filter (fun x => x <> k) (map_order l st)) /\
  (exists st', map_insert_new l k v st = (Done (negb (is_some (map_abs l st !! k))), st') /\
     map_abs l st' = (if is_some (map_abs l st !! k) then map_abs l st else <[k := v]> (map_abs l st)) /\
     map_ready l st' /\
     map_order l st' = (if is_some (map_abs l st !! k) then map_order l st else map_order l st ++ [k])) /\
  map_get l k st = (Done (map_abs l st !! k), st) /\
  map_contains_key l k st = (Done (is_some (map_abs l st !! k)), st).
Proof.
  intros Hr Hp. destruct Hr as [Ht Hn] eqn:E. clear E. repeat split.
  - rewrite map_insert_run by done. eexists. split; [done|]. unfold map_abs, map_ready, map_order.
    rewrite !obj_at_set_obj_eq. simpl.
    auto using im_insert_abs, im_insert_NoDup, im_keys_insert.
  - rewrite map_remove_run by done. eexists. split; [done|]. unfold map_abs, map_ready, map_order.
    rewrite !obj_at_set_obj_eq, <- is_remove_filter by done. simpl.
    auto using im_remove_abs, im_remove_NoDup, im_keys_remove.
  - unfold map_abs. rewrite <- im_get_abs. unfold map_insert_new.
    destruct (im_get k (obj_data (obj_at KMap l st))) eqn:Eg; simpl.
    + erewrite mutate_idle; [|done|by rewrite Eg]. eexists. split; [done|].
      unfold map_ready, map_order. by rewrite !obj_at_set_obj_eq.
    + erewrite mutate_idle; [|done|by rewrite Eg]. eexists. split; [done|].
      unfold map_ready, map_order. rewrite !obj_at_set_obj_eq. simpl.
      split_and!; auto using im_insert_abs, im_insert_NoDup.
      rewrite im_keys_insert, decide_False; [done|by apply im_get_None].
  - by apply map_get_run.
  - unfold map_contains_key, read, gets, map_abs. by rewrite <- im_get_abs.
Qed.

Lemma map_refines_gmap_witness : exists st', map_remove 0 "a" (set_obj KMap 0 (mkObj [("a", VNull)] 0) empty_state) = (Done (Some VNull), st').
Proof.
  destruct (map_refines_gmap 0 "a" VNull (set_obj KMap 0 (mkObj [("a", VNull)] 0) empty_state))
    as (_ & (st' & Hs & _) & _).
  - split; [reflexivity|]. apply NoDup_singleton.
  - intros v. vm_compute. discriminate.
  - exists st'. exact Hs.
Defined.

(** ** Chains of visitors

    The fuel of [map_get] is enough for every chain that ends: if it runs out
    then every amount of fuel does, and the loop of the code does not end. *)

Section visitor_chains.
Context (st : state).

(** The visitor at a position, a map and a key, and the position it leads to. *)
Definition visitor_held (p : loc * string) : option loc :=
  match im_get p.2 (obj_data (obj_at KMap p.1 st)) with
  | Some (VVisitor v) => Some v
  | _ => None
  end.

Definition visitor_target (v : loc) (key : string) : option (loc * string) :=
  match vis_vars (visitor_at v st) !! key with
  | Some (key', _) => Some (vis_collection (visitor_at v st), key')
  | None => None
  end.

(** The chain from [p] has [n] links and goes on. *)
Fixpoint goes_on (n : nat) (p : loc * string) : bool :=
  match visitor_held p, n with
  | None, _ => false
  | Some _, O => true
  | Some v, S n' =>
      match visitor_target v p.2 with Some q => goes_on n' q | None => false end
  end.

Fixpoint links (n : nat) (p : loc * string) : list (loc * string) :=
  match visitor_held p, n with
  | Some v, S n' =>
      match visitor_target v p.2 with Some q => (v, p.2) :: links n' q | None => [] end
  | _, _ => []
  end.

Lemma map_get_fuel_plain n l key v : fst (map_get_fuel n l key st) <> Done (Some (VVisitor v)).
Proof.
  revert l key v. induction n as [|n IH]; intros l key v; cbn [map_get_fuel];
    unfold bind at 1, read, gets; (destruct (im_get key _) as [[]|]; try done).
  destruct n as [|n]; cbn [visitor_loop]; unfold visitor_get, gets, bind at 1 2;
    (destruct (vis_vars _ !! key) as [[key' ro]|]; [|done]);
    specialize (IH (vis_collection (visitor_at l0 st)) key');
    unfold bind; destruct (map_get_fuel _ _ key' st) as [[[[]|]| | |] st1]; try done;
    by edestruct IH.
Qed.

Lemma map_get_fuel_goes_on n l key :
  fst (map_get_fuel n l key st) = OutOfFuel <-> goes_on n (l, key) = true.
Proof.
  revert l key. induction n as [|n IH]; intros l key; cbn [map_get_fuel goes_on];
    unfold bind at 1, read, gets, visitor_held; simpl;
    (destruct (im_get key _) as [[]|]; try done).
  unfold visitor_target.
  destruct n as [|n]; cbn [visitor_loop]; unfold visitor_get, gets, bind at 1 2;
    (destruct (vis_vars _ !! key) as [[key' ro]|]; [|done]);
    rewrite <- IH; unfold bind;
    match goal with |- context [map_get_fuel ?n ?c key' st] =>
      pose proof (map_get_fuel_plain n c key') as Hp end;
    destruct (map_get_fuel _ _ key' st) as [[[[]|]| | |] st1]; try done;
    by edestruct Hp.
Qed.

Lemma goes_on_pred n p : goes_on (S n) p = true -> goes_on n p = true.
Proof.
  revert p. induction n as [|n IH]; intros p; simpl.
  - by destruct (visitor_held p).
  - destruct (visitor_held p) as [v|]; [|done]. destruct (visitor_target v p.2) as [q|]; [|done].
    apply IH.
Qed.

Lemma goes_on_le n m p : (n <= m)%nat -> goes_on m p = true -> goes_on n p = true.
Proof. induction 1; auto using goes_on_pred. Qed.

(** A link of the chain leads to where the rest of the chain starts. *)
Lemma links_goes_on n p v key q :
  (v, key) ∈ links n p -> visitor_target v key = Some q -> goes_on n p = true ->
  goes_on (S n) p = false -> exists m, (m < n)%nat /\ goes_on m q = true /\ goes_on (S m) q = false.
Proof.
  revert p. induction n as [|n IH]; intros p; simpl.
  { destruct (visitor_held p); by rewrite elem_of_nil. }
  destruct (visitor_held p) as [v'|]; [|done].
  destruct (visitor_target v' p.2) as [q'|] eqn:Hq'; [|done].
  rewrite elem_of_cons. intros [Hp|Hin] Hq Hon Hoff.
  - simplify_eq. exists n. split_and!; [lia|done|]. simpl. exact Hoff.
  - destruct (IH q' Hin Hq Hon Hoff) as (m & Hm & H1 & H2). exists m. split_and!; [lia|done..].
Qed.

Lemma links_NoDup n p : goes_on n p = true -> goes_on (S n) p = false -> NoDup (links n p).
Proof.
  revert p. induction n as [|n IH]; intros p; simpl; [destruct (visitor_held p); by constructor|].
  destruct (visitor_held p) as [v|]; [|done].
  destruct (visitor_target v p.2) as [q|] eqn:Hq; [|done].
  intros Hon Hoff. constructor; [|by apply IH]. intros Hin.
  destruct (links_goes_on n q v p.2 q Hin Hq Hon Hoff) as (m & Hm & Hm1 & Hm2).
  rewrite (goes_on_le (S m) n q) in Hm2; [done|lia|done].
Qed.

Lemma links_ids n p : links n p ⊆ visitor_ids st.
Proof.
  revert p. induction n as [|n IH]; intros p x; simpl; [destruct (visitor_held p); set_solver|].
  destruct (visitor_held p) as [v|]; [|set_solver]. unfold visitor_target.
  destruct (vis_vars (visitor_at v st) !! p.2) as [[key' ro]|] eqn:Hv; [|set_solver].
  rewrite elem_of_cons. intros [->|Hin]; [|by eapply IH]. unfold visitor_at in Hv.
  destruct (st_visitors st !! v) as [vis|] eqn:Ev; [|done]. by eapply elem_of_visitor_ids.
Qed.

Lemma links_length n p : goes_on n p = true -> length (links n p) = n.
Proof.
  revert p. induction n as [|n IH]; intros p; simpl; destruct (visitor_held p) as [v|]; try done.
  destruct (visitor_target v p.2); [|done]. simpl. intros H. by rewrite IH.
Qed.

Lemma goes_on_for_ever n p : goes_on (S (length (visitor_ids st))) p = true -> goes_on n p = true.
Proof.
  intros Hon. destruct (decide (n <= S (length (visitor_ids st)))%nat) as [Hle|Hgt];
    [by apply (goes_on_le _ _ _ Hle)|].
  assert (Hlt : (S (length (visitor_ids st)) <= n)%nat) by lia. clear Hgt.
  induction Hlt as [|m Hm IH]; [done|]. destruct (goes_on (S m) p) eqn:Hoff; [done|exfalso].
  pose proof (NoDup_submseteq _ _ (links_NoDup m p IH Hoff) (links_ids m p)) as Hs.
  apply submseteq_length in Hs. rewrite links_length in Hs by done. lia.
Qed.

Lemma map_get_out_of_fuel l key n :
  fst (map_get l key st) = OutOfFuel -> fst (map_get_fuel n l key st) = OutOfFuel.
Proof.
  unfold map_get, bind, gets. rewrite !map_get_fuel_goes_on. apply goes_on_for_ever.
Qed.
End visitor_chains.

(** ** The set collection *)

Definition set_abs (l : loc) (st : state) : gset string := list_to_set (obj_data (obj_at KSet l st)).

Definition set_ready (l : loc) (st : state) : Prop :=
  obj_trav (obj_at KSet l st) = 0%nat /\ NoDup (obj_data (obj_at KSet l st)).

(** The set collection implements a finite set: [insert] and [remove] tell
    whether they changed it, and no value ever occurs twice. *)
Theorem set_refines_gset (l : loc) (x : string) (st : state) :
  set_ready l st ->
  (exists st', set_insert l x st = (Done (bool_decide (x ∉ set_abs l st)), st') /\
     set_abs l st' = {[x]} ∪ set_abs l st /\ set_ready l st') /\
  (exists st', set_remove l x st = (Done (bool_decide (x ∈ set_abs l st)), st') /\
     set_abs l st' = set_abs l st ∖ {[x]} /\ set_ready l st') /\
  set_contains l x st = (Done (bool_decide (x ∈ set_abs l st)), st).
Proof.
  intros [Ht Hn]. unfold set_abs.
  assert (Hm : is_mem x (obj_data (obj_at KSet l st)) =
    bool_decide (x ∈ (list_to_set (obj_data (obj_at KSet l st)) : gset string))).
  { rewrite is_mem_decide. apply bool_decide_ext. by rewrite elem_of_list_to_set. }
  repeat split.
  - unfold set_insert.
    rewrite (mutate_idle KSet l _ _ st (fst (is_insert x (obj_data (obj_at KSet l st))))
      (snd (is_insert x (obj_data (obj_at KSet l st))))) by (done || by destruct (is_insert x _)).
    eexists. split; [f_equal; f_equal|].
    + unfold is_insert. rewrite Hm. repeat case_bool_decide; naive_solver.
    + unfold set_ready. rewrite obj_at_set_obj_eq. cbn [obj_data obj_trav].
      split; [|split; [done|by apply is_insert_NoDup]].
      apply set_eq. intros y. rewrite elem_of_list_to_set, is_insert_elem. set_solver.
  - unfold set_remove. erewrite mutate_idle; [|done|done].
    eexists. split; [by rewrite Hm|]. unfold set_ready. rewrite obj_at_set_obj_eq.
    cbn [obj_data obj_trav].
    split; [|split; [done|by apply is_remove_NoDup]].
    apply set_eq. intros y. rewrite elem_of_list_to_set, is_remove_elem by done. set_solver.
  - unfold set_contains, read, gets. by rewrite Hm.
Qed.

Lemma set_refines_gset_witness :
  set_contains 0 "a" (set_obj KSet 0 (mkObj ["a"] 0) empty_state)
    = (Done (bool_decide ("a" ∈ set_abs 0 (set_obj KSet 0 (mkObj ["a"] 0) empty_state))),
       set_obj KSet 0 (mkObj ["a"] 0) empty_state).
Proof.
  apply (set_refines_gset 0 "a" (set_obj KSet 0 (mkObj ["a"] 0) empty_state)).
  split; [reflexivity|]. apply NoDup_singleton.
Defined.

(** ** The multimap collection *)

(** No key twice, every key has at least one value, no value twice. *)
Definition mm_wf (d : list (string * list string)) : Prop :=
  NoDup (im_keys d) /\ forall k s, im_get k d = Some s -> NoDup s /\ s <> [].

Lemma mm_wf_insert k s d : mm_wf d -> NoDup s -> s <> [] -> mm_wf (im_insert k s d).
Proof.
  intros [Hk Hd] Hs Hn. split; [by apply im_insert_NoDup|].
  intros k' s'. rewrite im_get_insert. case_decide; [|apply Hd]. naive_solver.
Qed.

Lemma mm_wf_remove k d : mm_wf d -> mm_wf (im_remove k d).
Proof.
  intros [Hk Hd]. split; [by apply im_remove_NoDup|].
  intros k' s'. rewrite im_get_remove by done. case_decide; [done|apply Hd].
Qed.

Lemma mm_wf_put k s d : mm_wf d -> NoDup s -> mm_wf (mm_put k s d).
Proof. intros Hd Hs. destruct s; [by apply mm_wf_remove|by apply mm_wf_insert]. Qed.

Lemma mm_entry_put k k' s d :
  NoDup (im_keys d) -> mm_entry k' (mm_put k s d) = if decide (k = k') then s else mm_entry k' d.
Proof.
  intros Hd. unfold mm_entry, mm_put. destruct s.
  - rewrite im_get_remove by done. by case_decide.
  - rewrite im_get_insert. by case_decide.
Qed.

Lemma mm_entry_NoDup k d : mm_wf d -> NoDup (mm_entry k d).
Proof.
  intros [_ Hd]. unfold mm_entry. destruct (im_get k d) eqn:E; simpl; [by apply (Hd k)|constructor].
Qed.

Lemma is_insert_nonempty x s : snd (is_insert x s) <> [].
Proof.
  intros E. assert (x ∈ snd (is_insert x s)) as Hx by (apply is_insert_elem; by left).
  rewrite E in Hx. set_solver.
Qed.

Definition mm_ok (l : loc) (st : state) : Prop :=
  obj_trav (obj_at KMultiMap l st) = 0%nat /\ mm_wf (obj_data (obj_at KMultiMap l st)).

(** The values of a key. *)
Definition mm_values (l : loc) (k : string) (st : state) : list string :=
  mm_entry k (obj_data (obj_at KMultiMap l st)).

(** Inserting into and removing from a multimap keep it well-formed (no key
    twice, no value of a key twice, no key without values), change exactly the
    values of the key, and tell whether they changed anything. *)
Theorem multimap_insert_remove (l : loc) (k x : string) (st : state) :
  mm_ok l st ->
  (exists st', mm_insert l k x st = (Done (bool_decide (x ∉ mm_values l k st)), st') /\
     mm_ok l st' /\ (forall y, y ∈ mm_values l k st' <-> y = x \/ y ∈ mm_values l k st) /\
     (forall k', k' <> k -> mm_values l k' st' = mm_values l k' st)) /\
  (exists st', mm_remove l k x st = (Done (bool_decide (x ∈ mm_values l k st)), st') /\
     mm_ok l st' /\ (forall y, y ∈ mm_values l k st' <-> y <> x /\ y ∈ mm_values l k st) /\
     (forall k', k' <> k -> mm_values l k' st' = mm_values l k' st)).
Proof.
  intros [Ht Hw]. pose proof (mm_entry_NoDup k _ Hw) as He. unfold mm_values.
  set (d := obj_data (obj_at KMultiMap l st)) in *. split.
  - unfold mm_insert. rewrite (mutate_idle KMultiMap l _ _ st (fst (is_insert x (mm_entry k d)))
      (im_insert k (snd (is_insert x (mm_entry k d))) d))
      by (done || by fold d; destruct (is_insert x _)).
    eexists. split; [f_equal; f_equal|].
    { unfold is_insert. rewrite is_mem_decide. repeat case_bool_decide; naive_solver. }
    unfold mm_ok. rewrite obj_at_set_obj_eq. cbn [obj_data obj_trav].
    split; [split; [done|]|split].
    + apply mm_wf_insert; auto using is_insert_NoDup, is_insert_nonempty.
    + intros y. unfold mm_entry at 1. rewrite im_get_insert, decide_True by done.
      apply is_insert_elem.
    + intros k' Hk. unfold mm_entry. by rewrite im_get_insert, decide_False.
  - unfold mm_remove. destruct (im_get k d) as [s|] eqn:Hg.
    + rewrite (mutate_idle KMultiMap l _ _ st (is_mem x s) (mm_put k (is_remove x s) d))
        by (done || by fold d; rewrite Hg).
      assert (mm_entry k d = s) as Hs by (unfold mm_entry; by rewrite Hg). rewrite Hs in *.
      eexists. split; [by rewrite is_mem_decide|].
      unfold mm_ok. rewrite obj_at_set_obj_eq. cbn [obj_data obj_trav].
      split; [split; [done|]|split].
      * auto using mm_wf_put, is_remove_NoDup.
      * intros y. rewrite mm_entry_put, decide_True by (done || apply Hw).
        by apply is_remove_elem.
      * intros k' Hk. by rewrite mm_entry_put, decide_False by (done || apply Hw).
    + rewrite (mutate_idle KMultiMap l _ _ st false d) by (done || by fold d; rewrite Hg).
      assert (mm_entry k d = []) as Hs by (unfold mm_entry; by rewrite Hg).
      rewrite Hs. eexists. split; [done|].
      unfold mm_ok. rewrite obj_at_set_obj_eq. cbn [obj_data obj_trav].
      split; [done|]. rewrite Hs. split; [set_solver|done].
Qed.

Lemma multimap_insert_remove_witness :
  exists st', mm_remove 0 "k" "a" (set_obj KMultiMap 0 (mkObj [("k", ["a"])] 0) empty_state)
    = (Done (bool_decide ("a" ∈ mm_values 0 "k"
        (set_obj KMultiMap 0 (mkObj [("k", ["a"])] 0) empty_state))), st').
Proof.
  destruct (multimap_insert_remove 0 "k" "a"
    (set_obj KMultiMap 0 (mkObj [("k", ["a"])] 0) empty_state)) as (_ & st' & Hs & _).
  - split; [reflexivity|]. split; [apply NoDup_singleton|].
    intros k s. change (im_get k [("k", ["a"])] = Some s -> NoDup s /\ s <> []). simpl.
    destruct (String.eqb k "k"); intros E; simplify_eq. split; [apply NoDup_singleton|done].
  - exists st'. exact Hs.
Defined.

(** While a collection is traversed, every operation that would change it
    is refused with an error and changes nothing. *)
Theorem mutation_refused_during_traversal (l : loc) (st : state) :
  ((0 < obj_trav (obj_at KList l st))%nat -> forall v i,
     list_push l v st = (Fail "Cannot push value during traversal", st) /\
     list_insert l i v st = (Fail "Cannot insert during traversal", st) /\
     list_set l i v st = (Fail "Cannot set index during traversal", st) /\
     list_remove l i st = (Fail "Cannot remove index during traversal", st) /\
     list_pop l st = (Fail "Cannot pop value during traversal", st) /\
     list_clear l st = (Fail "Cannot clear list during traversal", st)) /\
  ((0 < obj_trav (obj_at KSet l st))%nat -> forall x,
     set_insert l x st = (Fail "Cannot insert key during traversal", st) /\
     set_remove l x st = (Fail "Cannot remove key during traversal", st)) /\
  ((0 < obj_trav (obj_at KMap l st))%nat -> forall k v,
     map_insert_new l k v st = (Fail "Cannot insert new key during traversal", st) /\
     map_insert l k v st = (Fail "Cannot insert key during traversal", st) /\
     map_remove l k st = (Fail "Cannot remove key during traversal", st)) /\
  ((0 < obj_trav (obj_at KMultiMap l st))%nat -> forall k x xs,
     mm_insert l k x st = (Fail "Cannot insert key during traversal", st) /\
     mm_insert_many l k xs st = (Fail "Cannot insert key during traversal", st) /\
     mm_remove l k x st = (Fail "Cannot remove key during traversal", st) /\
     mm_remove_many l k xs st = (Fail "Cannot remove key during traversal", st) /\
     mm_remove_all l k st = (Fail "Cannot remove all during traversal", st)).
Proof.
  repeat split; intros;
    unfold list_push, list_insert, list_set, list_remove, list_pop, list_clear, set_insert,
      set_remove, map_insert_new, map_insert, map_remove, mm_insert, mm_insert_many, mm_remove,
      mm_remove_many, mm_remove_all, map_insert_fuel, bind, gets;
    by rewrite mutate_refused.
Qed.
