(* ===== verification/EnvFacts.v ===== *)
(** * Correctness of the environment manager and of variable paths

    A variable that is set is read back, at the level it was set at and
    through the tracker of variable levels, and nothing else changes; the
    snapshots a loop takes of its variables restore their bindings and levels
    whatever the body did to them.  The text of a variable path parses back to
    its segments. *)

From S2P Require Import Prelude Values Syntax State Collections Env VarPath Chains Commands Effects Interp Compat Samples CollectionFacts.

(** The map of values behind a level of an environment manager. *)
Definition values_of (em : EnvManager) (level : EnvLevel) (st : state) : loc :=
  env_values (env_at (get_env em level) st).

(** A level whose values can be changed: no externals, and nobody traverses
    its map. *)
Definition level_ready (em : EnvManager) (level : EnvLevel) (st : state) : Prop :=
  env_external (env_at (get_env em level) st) = [] /\ map_ready (values_of em level st) st.

Definition level_values (em : EnvManager) (level : EnvLevel) (st : state)
  : gmap string TypedValue := map_abs (values_of em level st) st.

Definition tracked (em : EnvManager) (key : string) (st : state) : EnvLevel :=
  default EnvLevel_default (tracker_at (em_tracker em) st !! key).

Lemma root_of_simple key : is_simple_root_key key = true -> root_of key = key.
Proof. intros Hk. unfold root_of. by rewrite Hk. Qed.

(** ** Trackers *)

Lemma set_trackers_id st : set_trackers (st_trackers st) st = st.
Proof. by destruct st. Qed.

Lemma tracker_at_update em t m st :
  tracker_at (em_tracker em) (set_trackers (<[em_tracker em := t]> m) st) = t.
Proof. unfold tracker_at. simpl. by rewrite lookup_insert_eq. Qed.

(** After [track_level] the variable resolves to the level, and no other
    variable changed its own. *)
Lemma track_level_run em key level st :
  exists m, track_level em key level st = (Done tt, set_trackers m st) /\
    tracked em key (set_trackers m st) = level /\
    (forall key', key' <> key -> tracker_at (em_tracker em) (set_trackers m st) !! key' =
      tracker_at (em_tracker em) st !! key').
Proof.
  destruct (decide (tracked em key st = level)) as [He|Hn].
  - exists (st_trackers st). rewrite set_trackers_id. split; [|done].
    unfold track_level, should_change_var_level_for_root, var_level_entry_for_root, bind, gets, ret.
    unfold tracked in He. destruct (_ !! key); simpl in *;
      by rewrite bool_decide_eq_false_2 by congruence.
  - exists (<[em_tracker em := <[key := level]> (tracker_at (em_tracker em) st)]> (st_trackers st)).
    rewrite tracker_at_update. unfold tracked. rewrite tracker_at_update.
    split; [|split; [by rewrite lookup_insert_eq|intros; by rewrite lookup_insert_ne]].
    unfold track_level, should_change_var_level_for_root, var_level_entry_for_root, bind, gets, ret,
      change_var_level_for_root, update_tracker, modify. unfold tracked in Hn.
    destruct (_ !! key) eqn:E; simpl in *; rewrite bool_decide_eq_true_2 by congruence;
      rewrite ?E, decide_False by congruence; done.
Qed.

(** ** Set and get *)

Lemma env_set_run e key v st :
  env_external (env_at e st) = [] -> map_ready (env_values (env_at e st)) st ->
  plain_at (env_values (env_at e st)) key st ->
  env_set e key v st = map_insert (env_values (env_at e st)) key v st.
Proof. intros Hx _ _. unfold env_set, bind, gets, has_external. by rewrite Hx. Qed.

Lemma env_get_local e key st v :
  map_abs (env_values (env_at e st)) st !! key = Some v -> (forall x, v <> VVisitor x) ->
  env_get e key st = (Done (Some v), st).
Proof.
  intros Hv Hn. unfold env_get, bind at 1, gets.
  assert (plain_at (env_values (env_at e st)) key st) as Hp by (intros x; rewrite Hv; naive_solver).
  destruct (size (st_envs st)) as [|n]; simpl; unfold bind, gets;
    rewrite map_get_run by done; by rewrite Hv.
Qed.

(** What one update of the values of a level does to the rest of the state. *)
Lemma map_abs_set_obj l l' d st :
  map_abs l' (set_obj KMap l (mkObj d 0) st) = if decide (l = l') then im_abs d else map_abs l' st.
Proof. unfold map_abs. rewrite obj_at_set_obj. by case_decide. Qed.

(** The state after the values of a level got one more binding. *)
Definition put_value (em : EnvManager) (lv : EnvLevel) (key : string) (v : TypedValue) (st : state)
  : state :=
  set_obj KMap (values_of em lv st)
    (mkObj (im_insert key v (obj_data (obj_at KMap (values_of em lv st) st))) 0) st.

Lemma level_values_put em lv key v m st :
  level_values em lv (set_trackers m (put_value em lv key v st)) =
  <[key := v]> (level_values em lv st).
Proof.
  change (map_abs (values_of em lv st) (put_value em lv key v st) =
    <[key := v]> (level_values em lv st)).
  unfold put_value. rewrite map_abs_set_obj, decide_True by done. apply im_insert_abs.
Qed.

Lemma map_abs_put em lv key v m st l :
  l <> values_of em lv st ->
  map_abs l (set_trackers m (put_value em lv key v st)) = map_abs l st.
Proof.
  intros Hl. change (map_abs l (put_value em lv key v st) = map_abs l st).
  unfold put_value. by rewrite map_abs_set_obj, decide_False by done.
Qed.

(** [em_set] of a simple key, with the resulting state. *)
Lemma em_set_run em key v level st :
  let lv := default (tracked em key st) level in
  is_simple_root_key key = true -> level_ready em lv st -> plain_at (values_of em lv st) key st ->
  exists m, let st' := set_trackers m (put_value em lv key v st) in
    em_set em key v level st = (Done (level_values em lv st !! key), st') /\
    tracked em key st' = lv /\
    (forall key', key' <> key ->
      tracker_at (em_tracker em) st' !! key' = tracker_at (em_tracker em) st !! key').
Proof.
  intros lv Hk [Hx Hr] Hp. set (st1 := put_value em lv key v st).
  destruct (track_level_run em key lv st1) as (m & Ht & Htk & Hto). exists m.
  split; [|done]. unfold em_set, bind at 1. rewrite root_of_simple, Hk by done.
  assert (resolve_level em key level st = (Done lv, st)) as -> by (by destruct level).
  assert (env_set (get_env em lv) key v st = (Done (level_values em lv st !! key), st1)) as Hs
    by (rewrite env_set_run by done; by apply map_insert_run).
  unfold set_simple_root_at_level, bind. by rewrite Hs, Ht.
Qed.

(** A variable that is set is read back: [set] at a level, or at the level
    the variable is tracked at, returns the previous value of that level and
    stores the new one there; [get] without a level then yields it, since the
    tracker follows; no other variable of the level, no other map and the level
    of no other variable changes. *)
Theorem set_then_get em key v level st :
  let lv := default (tracked em key st) level in
  is_simple_root_key key = true -> level_ready em lv st ->
  plain_at (values_of em lv st) key st -> (forall x, v <> VVisitor x) ->
  exists st', em_set em key v level st = (Done (level_values em lv st !! key), st') /\
    em_get em key None st' = (Done (Some v), st') /\
    em_get em key (Some lv) st' = (Done (Some v), st') /\
    level_values em lv st' = <[key := v]> (level_values em lv st) /\
    (forall l, l <> values_of em lv st -> map_abs l st' = map_abs l st) /\
    (forall key', key' <> key -> tracked em key' st' = tracked em key' st).
Proof.
  intros lv Hk Hr Hp Hv. destruct (em_set_run em key v level st Hk Hr Hp) as (m & Hs & Hlv & Ht).
  fold lv in Hs, Hlv, Ht. set (st' := set_trackers m _) in *. exists st'.
  assert (level_values em lv st' = <[key := v]> (level_values em lv st)) as Hvals
    by apply level_values_put.
  assert (env_get (get_env em lv) key st' = (Done (Some v), st')) as Hg.
  { apply env_get_local; [|done]. change (level_values em lv st' !! key = Some v).
    by rewrite Hvals, lookup_insert_eq. }
  repeat split; [done| | |done| |].
  - unfold em_get, bind at 1. rewrite root_of_simple, Hk by done. simpl.
    unfold get_var_level_for_root, var_level_entry_for_root, bind, gets, ret.
    fold (tracked em key st'). by rewrite Hlv.
  - unfold em_get, bind. by rewrite root_of_simple, Hk by done.
  - intros l Hl. by apply map_abs_put.
  - intros key' Hn. unfold tracked. by rewrite Ht.
Qed.

Lemma set_then_get_witness :
  exists st', em_set (ctx_env demo_ctx) "x" (VString "1") (Some EvBlock) demo_state = (Done None, st') /\
    em_get (ctx_env demo_ctx) "x" None st' = (Done (Some (VString "1")), st').
Proof.
  destruct (set_then_get (ctx_env demo_ctx) "x" (VString "1") (Some EvBlock) demo_state)
    as (st' & Hs & Hg & _).
  - reflexivity.
  - split; [reflexivity|]. split; [reflexivity|]. vm_compute. constructor.
  - intros v. vm_compute. discriminate.
  - discriminate.
  - exists st'. split; [exact Hs|exact Hg].
Defined.

(** ** Loop variables *)

Lemma env_contains_run e key st :
  env_external (env_at e st) = [] ->
  env_contains e key st = (Done (is_some (map_abs (env_values (env_at e st)) st !! key)), st).
Proof.
  intros Hx. unfold env_contains, bind, gets, map_contains_key, read, has_external, ret, map_abs.
  rewrite Hx, <- im_get_abs. unfold gets. by destruct (im_get _ _).
Qed.

Lemma snapshot_run em name st :
  is_simple_root_key name = true -> level_ready em EvBlock st ->
  plain_at (values_of em EvBlock st) name st ->
  snapshot_block_var em name st =
    (Done (mkVarSnapshot name (level_values em EvBlock st !! name)
             (tracker_at (em_tracker em) st !! name)), st).
Proof.
  intros Hk [Hx Hr] Hp. unfold snapshot_block_var, bind.
  rewrite (env_contains_run _ _ _ Hx). fold (values_of em EvBlock st) (level_values em EvBlock st).
  unfold var_level_entry. rewrite root_of_simple by done.
  destruct (level_values em EvBlock st !! name) as [v|] eqn:E; simpl.
  - unfold em_get, bind. rewrite root_of_simple, Hk by done. simpl.
    rewrite (env_get_local _ _ _ v); [done|done|]. intros x ->. by destruct (Hp x).
  - done.
Qed.

Lemma env_remove_run e key st :
  env_external (env_at e st) = [] ->
  map_ready (env_values (env_at e st)) st ->
  exists r, env_remove e key st = (Done r, set_obj KMap (env_values (env_at e st))
    (mkObj (im_remove key (obj_data (obj_at KMap (env_values (env_at e st)) st))) 0) st).
Proof.
  intros Hx Hr. exists (map_abs (env_values (env_at e st)) st !! key). unfold env_remove, bind, gets, has_external.
  rewrite map_remove_run by done. rewrite Hx. by destruct (_ !! key).
Qed.

(** [restore_block_var] up to the last step, the entry of the tracker. *)
Lemma restore_value_run em name value st :
  is_simple_root_key name = true -> level_ready em EvBlock st ->
  plain_at (values_of em EvBlock st) name st ->
  exists st', match value with
    | Some v => em_set em name v (Some EvBlock) ;; ret tt
    | None => em_remove em name (Some EvBlock) ;; ret tt
    end st = (Done tt, st') /\
    env_at (em_block em) st' = env_at (em_block em) st /\
    level_values em EvBlock st' = partial_alter (fun _ => value) name (level_values em EvBlock st) /\
    (forall l, l <> values_of em EvBlock st -> map_abs l st' = map_abs l st) /\
    (forall key, key <> name ->
      tracker_at (em_tracker em) st' !! key = tracker_at (em_tracker em) st !! key).
Proof.
  intros Hk Hr Hp. destruct value as [v|].
  - destruct (em_set_run em name v (Some EvBlock) st Hk Hr Hp) as (m & Hs & _ & Ht).
    eexists. unfold bind at 1. rewrite Hs. split; [done|]. split; [done|].
    split; [apply level_values_put|]. split; [|done]. intros. by apply map_abs_put.
  - destruct Hr as [Hx Hr]. destruct (env_remove_run (em_block em) name st Hx Hr) as [r Hm].
    eexists. unfold em_remove, bind. rewrite Hk. simpl. rewrite Hm. split; [done|].
    split; [done|]. split; [|split; [|done]].
    + transitivity (map_abs (values_of em EvBlock st) (set_obj KMap (values_of em EvBlock st)
        (mkObj (im_remove name (obj_data (obj_at KMap (values_of em EvBlock st) st))) 0) st));
        [done|].
      rewrite map_abs_set_obj, decide_True by done. by apply im_remove_abs, Hr.
    + intros l Hl. by rewrite map_abs_set_obj, decide_False by done.
Qed.

(** The snapshot a loop takes of one of its variables, restored in any
    later state in which the block environment is the same, brings back the
    binding (or its absence) and the level the variable had when the loop
    began; the other variables keep what the body gave them. *)
Theorem loop_variable_restored em name st st1 :
  is_simple_root_key name = true ->
  level_ready em EvBlock st -> plain_at (values_of em EvBlock st) name st ->
  env_at (em_block em) st1 = env_at (em_block em) st ->
  level_ready em EvBlock st1 -> plain_at (values_of em EvBlock st1) name st1 ->
  exists s st2, snapshot_block_var em name st = (Done s, st) /\
    restore_block_var em s st1 = (Done tt, st2) /\
    level_values em EvBlock st2 =
      partial_alter (fun _ => level_values em EvBlock st !! name) name (level_values em EvBlock st1) /\
    tracker_at (em_tracker em) st2 =
      partial_alter (fun _ => tracker_at (em_tracker em) st !! name) name
        (tracker_at (em_tracker em) st1) /\
    (forall l, l <> values_of em EvBlock st -> map_abs l st2 = map_abs l st1).
Proof.
  intros Hk Hr Hp He Hr1 Hp1.
  destruct (restore_value_run em name (level_values em EvBlock st !! name) st1 Hk Hr1 Hp1)
    as (st' & Hrun & He' & Hv & Hm & Ht).
  eexists _, _. split; [by apply snapshot_run|].
  unfold restore_block_var, restore_var_level_entry, update_tracker, modify.
  simpl. rewrite (bind_run _ _ _ _ _ Hrun), root_of_simple by done. split; [reflexivity|].
  split; [|split].
  - rewrite <- Hv. unfold level_values, values_of. reflexivity.
  - rewrite tracker_at_update. apply map_eq. intros key.
    destruct (decide (name = key)) as [<-|Hn].
    + rewrite lookup_partial_alter_eq. destruct (tracker_at (em_tracker em) st !! name);
        by rewrite ?lookup_insert_eq, ?lookup_delete_eq.
    + rewrite lookup_partial_alter_ne, <- Ht by done. destruct (tracker_at (em_tracker em) st !! name);
        by rewrite ?lookup_insert_ne, ?lookup_delete_ne by done.
  - intros l Hl. unfold values_of in *. simpl in *. rewrite <- He in Hl. by rewrite <- Hm.
Qed.

Lemma loop_variable_restored_witness :
  exists s st2, snapshot_block_var (ctx_env demo_ctx) "x" demo_state = (Done s, demo_state) /\
    restore_block_var (ctx_env demo_ctx) s
      (snd (em_set (ctx_env demo_ctx) "x" VNull (Some EvBlock) demo_state)) = (Done tt, st2).
Proof.
  destruct (loop_variable_restored (ctx_env demo_ctx) "x" demo_state
    (snd (em_set (ctx_env demo_ctx) "x" VNull (Some EvBlock) demo_state)))
    as (s & st2 & Hs & Hr & _).
  - reflexivity.
  - split; [reflexivity|]. split; [reflexivity|]. vm_compute. constructor.
  - intros v. vm_compute. discriminate.
  - reflexivity.
  - split; [reflexivity|]. split; [reflexivity|]. vm_compute. apply NoDup_singleton.
  - intros v. vm_compute. discriminate.
  - exists s, st2. split; [exact Hs|exact Hr].
Defined.

(** * Correctness of variable paths

    The text of a path built from its segments ([normalize_segment_list])
    parses back to the segments ([parse_var]), when no segment has a bracket,
    blanks at its ends or parentheses around it; and a variable whose name has
    an escaped dot is stored under a name its own expression does not read. *)

(** A segment the parser leaves as it is. *)
Definition plain_segment (s : string) : bool :=
  negb (String.eqb s "") && string_forallb (fun a => negb (Ascii.eqb a char_lbracket)) s &&
  String.eqb (normalize_path_part s) s.

Lemma string_snoc_append c a s : string_snoc c a +:+ s = c +:+ String a s.
Proof. unfold string_snoc. induction c as [|b c IH]; [done|]. exact (f_equal (String b) IH). Qed.

(** The parser reads an escaped segment into [current]. *)
Lemma parse_var_segment s : forall rest fuel current parts,
  string_forallb (fun a => negb (Ascii.eqb a char_lbracket)) s = true ->
  (String.length (escape_path_segment s +:+ rest) < fuel)%nat ->
  exists fuel', (String.length rest < fuel')%nat /\
    parse_var_loop fuel (escape_path_segment s +:+ rest) current parts =
    parse_var_loop fuel' rest (current +:+ s) parts.
Proof.
  induction s as [|a s IH]; intros rest fuel current parts Hs Hf.
  { exists fuel. by rewrite append_nil_r. }
  simpl in Hs. apply andb_true_iff in Hs as [Ha Hs]. apply negb_true_iff in Ha.
  rewrite <- (string_snoc_append current a s).
  specialize (fun f => IH rest f (string_snoc current a) parts Hs).
  assert (forall e, parse_var_loop fuel (e +:+ rest) current parts =
      parse_var_loop (pred fuel) (escape_path_segment s +:+ rest) (string_snoc current a) parts ->
      (String.length (escape_path_segment s +:+ rest) < pred fuel)%nat ->
    exists fuel', (String.length rest < fuel')%nat /\
      parse_var_loop fuel (e +:+ rest) current parts =
      parse_var_loop fuel' rest (string_snoc current a +:+ s) parts) as Hstep.
  { intros e He Hl. rewrite He. by apply IH. }
  destruct fuel as [|fuel]; [lia|]. apply Hstep; simpl in *;
    destruct (Ascii.eqb_spec a char_backslash) as [->|Hb]; try (simpl in Hf; lia); try done;
    destruct (Ascii.eqb_spec a char_dot) as [->|Hd]; try (simpl in Hf; lia); try done.
  simpl. by rewrite (proj2 (Ascii.eqb_neq _ _) Hb), (proj2 (Ascii.eqb_neq _ _) Hd), Ha.
Qed.

Lemma parse_var_segments segs : forall fuel parts,
  segs <> [] -> Forall (fun s => plain_segment s = true) segs ->
  (String.length (normalize_segment_list segs) < fuel)%nat ->
  parse_var_loop fuel (normalize_segment_list segs) EmptyString parts = parts ++ segs.
Proof.
  induction segs as [|s segs IH]; intros fuel parts Hne Hs Hf; [done|].
  apply Forall_cons in Hs as [Hp Hs]. unfold plain_segment in Hp.
  apply andb_true_iff in Hp as [Hp Hn]. apply andb_true_iff in Hp as [Hem Hb].
  apply String.eqb_eq in Hn. unfold normalize_segment_list in *.
  destruct segs as [|s2 segs].
  - cbn [map String.concat] in *. rewrite <- (append_nil_r (escape_path_segment s)) in Hf |- *.
    destruct (parse_var_segment s "" fuel "" parts Hb Hf) as ([|f'] & Hl & ->); [simpl in Hl; lia|].
    destruct s as [|a s]; [done|].
    change (parts ++ [normalize_path_part (String a s)] = parts ++ [String a s]). by rewrite Hn.
  - set (rest := String.concat "." (map escape_path_segment (s2 :: segs))) in *.
    change (String.concat "." (map escape_path_segment (s :: s2 :: segs)))
      with (escape_path_segment s +:+ "." +:+ rest) in *.
    destruct (parse_var_segment s ("." +:+ rest) fuel "" parts Hb Hf) as ([|f'] & Hl & He);
      [lia|]. rewrite He. destruct s as [|a s]; [done|].
    change (parse_var_loop f' rest EmptyString (parts ++ [normalize_path_part (String a s)])
      = parts ++ String a s :: s2 :: segs). rewrite Hn.
    rewrite (IH f'); [by rewrite <- app_assoc|done|done|].
    rewrite append_length in Hl. simpl in Hl. lia.
Qed.

(** The text of a path parses back to its segments: escaping puts every
    dot and backslash of a segment out of the parser's reach. *)
Theorem path_text_round_trip (segs : list string) :
  segs <> [] -> Forall (fun s => plain_segment s = true) segs ->
  parse_var (normalize_segment_list segs) = segs.
Proof. intros Hne Hs. unfold parse_var. apply parse_var_segments; [done|done|lia]. Qed.

Lemma path_text_round_trip_witness :
  parse_var (normalize_segment_list ["a.b"; "c\d"; "e"]) = ["a.b"; "c\d"; "e"].
Proof.
  apply (path_text_round_trip ["a.b"; "c\d"; "e"]).
  - discriminate.
  - repeat constructor.
Defined.

(** A variable whose name has an escaped dot cannot be read back through
    an expression: the assignment stores it under the unescaped name, which
    the environment manager finds again from the escaped text, but the
    evaluation of [$a\.b] unescapes the segment first and hands [a.b] to the
    manager, which takes it for a path and finds nothing. *)
Theorem escaped_variable_not_read (s : string) :
  let em := ctx_env demo_ctx in
  let st := snd (em_set em "a\.b" (VString s) None demo_state) in
  em_get em "a\.b" None st = (Done (Some (VString s)), st) /\
  @evaluate_var sample_parser em "a\.b" st = (Done (VString ""), st).
Proof. split; vm_compute; reflexivity. Qed.
