(* ===== verification/ChainFacts.v ===== *)
(** * Correctness of libraries, managers and lookup

    Libraries keep their chains, and managers their libraries, in priority
    order with unique ids; lookup finds what they hold; and what the searches
    of a context return. *)

From S2P Require Import Prelude Values Syntax State Collections Env Linker Chains.

(** ** Libraries *)

Definition sorted_chains (cs : list ProcessChain) : Prop :=
  StronglySorted (key_le chain_priority) cs.

Definition lib_wf (l : ProcessChainLib) : Prop :=
  sorted_chains (lib_chains l) /\ NoDup (map chain_id (lib_chains l)).

Lemma existsb_id {A} (id : A -> string) x l :
  existsb (fun d => String.eqb (id d) x) l = bool_decide (x ∈ map id l).
Proof.
  apply eq_bool_prop_intro. rewrite bool_decide_spec, Is_true_true, existsb_exists, list_elem_of_fmap.
  split.
  - intros (d & Hd & Hx%String.eqb_eq). exists d. split; [done|]. by apply list_elem_of_In.
  - intros (d & -> & Hd). exists d. rewrite String.eqb_refl. split; [by apply list_elem_of_In|done].
Qed.

Section keyed.
Context {A : Type} (id : A -> string).
Implicit Types (l : list A) (x d : A).

Abbreviation find_id i l := (List.find (fun d => String.eqb (id d) i) l).

Lemma find_id_Some i l d :
  NoDup (map id l) -> find_id i l = Some d <-> d ∈ l /\ id d = i.
Proof.
  intros Hn. split.
  - intros [Hd Hi%String.eqb_eq]%find_some. split; [by apply list_elem_of_In|done].
  - intros [Hd <-]. induction l as [|y l IH]; [set_solver|]. simpl in *.
    apply NoDup_cons in Hn as [Hy Hn]. apply elem_of_cons in Hd as [->|Hd].
    + by rewrite String.eqb_refl.
    + destruct (String.eqb_spec (id y) (id d)) as [E|_]; [|by apply IH].
      destruct Hy. rewrite E. by apply list_elem_of_fmap_2.
Qed.

Lemma find_id_None i l : find_id i l = None <-> i ∉ map id l.
Proof.
  induction l as [|y l IH]; simpl; [set_solver|].
  destruct (String.eqb_spec (id y) i) as [->|Hn]; [set_solver|]. rewrite IH. set_solver.
Qed.

(** Adding an element with a new id to a list kept in priority order. *)
Lemma add_sorted (prio : A -> Z) l x :
  NoDup (map id l) -> id x ∉ map id l ->
  let l' := sort_by_key prio (l ++ [x]) in
  StronglySorted (key_le prio) l' /\ NoDup (map id l') /\
  (forall k, filter (fun y => prio y = k) l' = filter (fun y => prio y = k) (l ++ [x])) /\
  (forall i, find_id i l' = if String.eqb (id x) i then Some x else find_id i l).
Proof.
  intros Hn Hx l'. assert (Hp : l' ≡ₚ x :: l).
  { unfold l'. rewrite sort_by_key_Permutation. by rewrite Permutation_app_comm. }
  assert (Hn' : NoDup (map id l')) by (rewrite Hp; by constructor).
  repeat split; [apply sort_by_key_sorted|done|intros; apply sort_by_key_stable|].
  intros i. destruct (String.eqb_spec (id x) i) as [<-|Hi].
  - apply find_id_Some; [done|]. rewrite Hp. set_solver.
  - destruct (find_id i l) as [d|] eqn:E.
    + apply find_id_Some in E; [|done]. apply find_id_Some; [done|]. rewrite Hp. set_solver.
    + apply find_id_None in E. apply find_id_None. rewrite Hp. set_solver.
Qed.
End keyed.

(** Adding a chain to a library succeeds exactly when its id is new; the
    chains stay in priority order, chains of equal priority in the order they
    were added, and lookup finds the new chain and every old one. *)
Theorem add_chain_spec (l : ProcessChainLib) (c : ProcessChain) :
  lib_wf l ->
  match add_chain l c with
  | Err _ => exists d, find_chain (lib_chains l) (chain_id c) = Some d
  | Ok l' =>
      find_chain (lib_chains l) (chain_id c) = None /\ lib_wf l' /\
      (forall k, filter (fun y => chain_priority y = k) (lib_chains l')
               = filter (fun y => chain_priority y = k) (lib_chains l ++ [c])) /\
      (forall i, find_chain (lib_chains l') i
               = if String.eqb (chain_id c) i then Some c else find_chain (lib_chains l) i)
  end.
Proof.
  intros [Hs Hn]. unfold add_chain. rewrite existsb_id. case_bool_decide as Hc.
  - unfold find_chain. destruct (List.find _ _) eqn:E; [by eexists|].
    by destruct (proj1 (find_id_None chain_id _ _) E).
  - destruct (add_sorted chain_id chain_priority (lib_chains l) c Hn Hc) as (H1 & H2 & H3 & H4).
    split; [by apply (find_id_None chain_id)|]. by repeat split.
Qed.

Definition sample_chain (id : string) (priority : Z) : ProcessChain :=
  mkProcessChain id priority [].

Lemma add_chain_spec_witness :
  match add_chain (lib_new ListLib "lib" 0 [sample_chain "a" 1]) (sample_chain "b" 0) with
  | Ok l' => find_chain (lib_chains l') "a" = Some (sample_chain "a" 1)
  | Err _ => False
  end.
Proof.
  pose proof (add_chain_spec (lib_new ListLib "lib" 0 [sample_chain "a" 1]) (sample_chain "b" 0)) as Hs.
  destruct Hs as (_ & _ & _ & Hf).
  - split; repeat constructor. set_solver.
  - exact (Hf "a").
Defined.

(** ** Managers *)

Definition libs_wf (libs : list ProcessChainLib) : Prop :=
  StronglySorted (key_le lib_priority) libs /\ NoDup (map lib_id libs).

Lemma remove_lib_elem libs i l :
  NoDup (map lib_id libs) ->
  l ∈ snd (remove_lib libs i) <-> l ∈ libs /\ lib_id l <> i.
Proof.
  induction libs as [|x libs IH]; simpl; intros Hn; [set_solver|].
  apply NoDup_cons in Hn as [Hx Hn]. destruct (String.eqb_spec (lib_id x) i) as [<-|Hi]; simpl.
  - split; [|set_solver]. intros Hl. split; [set_solver|]. intros E. apply Hx. rewrite <- E.
    by apply list_elem_of_fmap_2.
  - destruct (remove_lib libs i) as [r rest]. simpl in *. rewrite !elem_of_cons, IH by done.
    set_solver.
Qed.

Lemma remove_lib_found libs i : fst (remove_lib libs i) = find_lib libs i.
Proof.
  induction libs as [|x libs IH]; [done|]. simpl. unfold find_lib in *. simpl.
  destruct (String.eqb (lib_id x) i); [done|]. destruct (remove_lib libs i). done.
Qed.

(** A manager keeps its libraries in priority order with unique ids;
    adding a library succeeds exactly when its id is new and makes it and no
    other library visible; removing one returns it and hides it alone. *)
Theorem add_remove_lib_spec (libs : list ProcessChainLib) (l : ProcessChainLib) :
  libs_wf libs ->
  match add_lib libs l with
  | Err _ => exists d, find_lib libs (lib_id l) = Some d
  | Ok libs' =>
      find_lib libs (lib_id l) = None /\ libs_wf libs' /\
      (forall i, find_lib libs' i = if String.eqb (lib_id l) i then Some l else find_lib libs i) /\
      fst (remove_lib libs' (lib_id l)) = Some l /\
      (forall d, d ∈ snd (remove_lib libs' (lib_id l)) <-> d ∈ libs)
  end.
Proof.
  intros [Hs Hn]. unfold add_lib. rewrite existsb_id. case_bool_decide as Hc.
  - unfold find_lib. destruct (List.find _ _) eqn:E; [by eexists|].
    by destruct (proj1 (find_id_None lib_id _ _) E).
  - destruct (add_sorted lib_id lib_priority libs l Hn Hc) as (H1 & H2 & H3 & H4).
    split; [by apply (find_id_None lib_id)|]. split; [done|]. split; [done|].
    rewrite remove_lib_found. unfold find_lib. rewrite H4, String.eqb_refl. split; [done|].
    intros d. rewrite remove_lib_elem by done. rewrite sort_by_key_Permutation, elem_of_app.
    rewrite list_elem_of_singleton. split; [naive_solver|]. intros Hd. split; [by left|].
    intros E. apply Hc. rewrite <- E. by apply list_elem_of_fmap_2.
Qed.

Definition sample_lib (k : LibKind) (id : string) (priority : Z) (cs : list ProcessChain)
  : ProcessChainLib := lib_new k id priority cs.

Lemma add_remove_lib_spec_witness :
  match add_lib [sample_lib ListLib "x" 1 []] (sample_lib ListLib "y" 0 []) with
  | Ok libs' => fst (remove_lib libs' "y") = Some (sample_lib ListLib "y" 0 [])
  | Err _ => False
  end.
Proof.
  pose proof (add_remove_lib_spec [sample_lib ListLib "x" 1 []] (sample_lib ListLib "y" 0 [])) as Hs.
  destruct Hs as (_ & _ & _ & Hr & _).
  - split; repeat constructor. set_solver.
  - exact Hr.
Defined.

(** ** Searches over all libraries *)

(** The library holds no chain [id] and says so without an error. *)
Definition lib_passes (id : string) (l : ProcessChainLib) : Prop :=
  lib_kind l = ListLib /\ find_chain (lib_chains l) id = None.

(** A search without a library id goes through the libraries in order: it
    finds the first one that holds the chain if no constant library before it
    lacks the chain, and fails at the first constant library that does. *)
Theorem search_libs_chain_spec (libs : list ProcessChainLib) (id : string) :
  match search_libs_chain libs id with
  | Ok (Some (l, c)) =>
      exists pre post, libs = pre ++ l :: post /\ Forall (lib_passes id) pre /\
        find_chain (lib_chains l) id = Some c
  | Ok None => Forall (lib_passes id) libs
  | Err _ =>
      exists pre l post, libs = pre ++ l :: post /\ Forall (lib_passes id) pre /\
        lib_kind l = ConstListLib /\ find_chain (lib_chains l) id = None
  end.
Proof.
  induction libs as [|l libs IH]; simpl; [constructor|].
  unfold lib_get_chain. destruct (find_chain (lib_chains l) id) as [c|] eqn:Ef.
  { by exists [], libs. }
  destruct (lib_kind l) eqn:Ek; simpl.
  - assert (lib_passes id l) by done.
    destruct (search_libs_chain libs id) as [[[l' c]|]|].
    + destruct IH as (pre & post & -> & Hp & Hf). exists (l :: pre), post. by repeat constructor.
    + by constructor.
    + destruct IH as (pre & l' & post & -> & Hp & Hf). exists (l :: pre), l', post.
      split; [done|]. split; [by constructor|done].
  - by exists [], l, libs.
Qed.

(** Every library of a linked manager is a constant one. *)
Lemma link_manager_const `{CommandParserFactory} p libs libs' :
  link_manager p libs = Ok libs' -> forall l, l ∈ libs' -> lib_kind l = ConstListLib.
Proof.
  intros Hm l Hl. apply mapR_Ok in Hm. apply list_elem_of_lookup in Hl as [i Hi].
  destruct (Forall2_lookup_r _ _ _ _ _ Hm Hi) as (l0 & _ & Hk).
  apply rbind_Ok in Hk as (cs & _ & [= <-]). done.
Qed.

(** In a linked program a chain that the current library does not hold is
    never found without a library id: the search fails instead of going on to
    the other libraries, whether they hold the chain or not. *)
Theorem linked_search_stays_local `{CommandParserFactory} p libs (ctx : Context)
    (l : ProcessChainLib) (id : string) (st : state) :
  link_manager p libs = Ok (ctx_libs ctx) -> l ∈ ctx_libs ctx ->
  current_lib st = Some l -> find_chain (lib_chains l) id = None ->
  (forall c, current_chain st = Some c -> chain_id c <> id) ->
  search_chain ctx None id st = (Fail "Process chain with id not found", st).
Proof.
  intros Hk Hin Hl Hf Hc. pose proof (link_manager_const p libs _ Hk l Hin) as Hkind.
  unfold search_chain, bind, gets, lib_get_chain. rewrite Hl. simpl lib_matches.
  rewrite Hf, Hkind. destruct (current_chain st) as [c|] eqn:E; [|done].
  destruct (String.eqb_spec (chain_id c) id) as [Hi|_]; [|done]. by destruct (Hc c).
Qed.

Definition no_parsers : CommandParserFactory := {| get_parser := fun _ => None |}.

Lemma linked_search_stays_local_witness :
  let cur := sample_lib ConstListLib "main" 0 [] in
  search_chain (mkContext [cur; sample_lib ConstListLib "other" 1 [sample_chain "helper" 0]]
      (mkEnvManager 0 0 0 0 default_policy))
    None "helper" (set_stack [FLib cur] empty_state)
  = (Fail "Process chain with id not found", set_stack [FLib cur] empty_state).
Proof.
  apply (@linked_search_stays_local no_parsers (mkParserContext ∅ ∅)
    [sample_lib ListLib "main" 0 []; sample_lib ListLib "other" 1 [sample_chain "helper" 0]])
    with (l := sample_lib ConstListLib "main" 0 []).
  - reflexivity.
  - left.
  - reflexivity.
  - reflexivity.
  - intros c Hc. discriminate Hc.
Defined.

(** a search without a library id for a chain that no library holds does
    not report a missing chain: it panics on the absent id. *)
Theorem search_missing_chain_panics (ctx : Context) (id : string) (st : state) :
  current_lib st = None -> Forall (lib_passes id) (ctx_libs ctx) ->
  search_chain ctx None id st = (Panicked "called Option::unwrap on a None value", st).
Proof.
  intros Hl Hp. unfold search_chain, bind, gets. rewrite Hl. simpl.
  assert (search_libs_chain (ctx_libs ctx) id = Ok None) as ->; [|done].
  induction Hp as [|l libs [Hk Hf] _ IH]; [done|]. simpl. unfold lib_get_chain.
  by rewrite Hf, Hk.
Qed.

Lemma search_missing_chain_panics_witness :
  search_chain (mkContext [sample_lib ListLib "x" 0 []] (mkEnvManager 0 0 0 0 default_policy))
    None "a" empty_state = (Panicked "called Option::unwrap on a None value", empty_state).
Proof.
  apply search_missing_chain_panics; [reflexivity|]. repeat constructor.
Defined.
