(* ===== verification/LinkFacts.v ===== *)
(** * Correctness of linking

    A linked program has an executor on every command that the linker reaches:
    the commands of statements, conditions and branches, and those of the
    substitutions that are arguments themselves.  Linking changes nothing but
    that, so chains, blocks and lines keep their ids and their order.  A
    substitution inside a list or map literal is out of its reach, and fails
    when it is evaluated. *)

From S2P Require Import Prelude Values Syntax State Collections Linker Env VarPath Chains Commands Effects.
From S2P Require Import Interp Compat Samples.

(** ** Linked programs *)

Definition linked_arg (linked : Expression -> bool) (a : CommandArg) : bool :=
  match a with CommandSubstitution e => linked e | _ => true end.

Fixpoint linked_expr (e : Expression) : bool :=
  match e with
  | ECommand _ args (Some _) => forallb (linked_arg linked_expr) args
  | ECommand _ _ None => false
  | EGroup es => forallb (fun '(_, e, _) => linked_expr e) es
  end.

Definition linked_exprs (es : ExpressionChain) : bool :=
  forallb (fun '(_, e, _) => linked_expr e) es.

Definition opt_all {A} (f : A -> bool) (o : option A) : bool :=
  match o with Some a => f a | None => true end.

Section statements.
Context {L : Type} (linked_line : L -> bool).

Definition linked_branch (b : IfBranch L) : bool :=
  linked_exprs (if_condition b) && forallb linked_line (if_lines b).

Definition linked_match_result (s : MatchResultStatement L) : bool :=
  linked_expr (mr_command s) &&
  opt_all (fun b => forallb linked_line (mr_lines b)) (ok_branch s) &&
  opt_all (fun b => forallb linked_line (mr_lines b)) (err_branch s) &&
  opt_all (fun b => forallb linked_line (mc_lines b)) (control_branch s).

(** The form of the statement that runs. *)
Definition linked_statement (s : StatementOf L) : bool :=
  match s with
  | mkStatement _ (Some i) _ _ _ =>
      forallb linked_branch (if_branches i) && opt_all (forallb linked_line) (if_else i)
  | mkStatement _ None (Some c) _ _ =>
      opt_all (linked_arg linked_expr) (case_subject c) &&
      forallb linked_branch (case_branches c) && opt_all (forallb linked_line) (case_else c)
  | mkStatement _ None None (Some f) _ =>
      linked_arg linked_expr (iterable f) && forallb linked_line (for_lines f)
  | mkStatement _ None None None (Some m) => linked_match_result m
  | mkStatement es None None None None => linked_exprs es
  end.
End statements.

Fixpoint linked_line (l : Line) : bool :=
  match l with mkLine _ statements => forallb (linked_statement linked_line) statements end.

Definition linked_block (b : Block) : bool := forallb linked_line (block_lines b).
Definition linked_chain (c : ProcessChain) : bool := forallb linked_block (chain_blocks c).

(** ** Linking links *)

Lemma mapR_forallb {A B} (f : A -> Result B) (P : B -> bool) l l' :
  mapR f l = Ok l' -> list_all A (fun a => forall b, f a = Ok b -> P b = true) l ->
  forallb P l' = true.
Proof.
  rewrite mapR_Ok. induction 1 as [|a b l l' Hab _ IH]; intros HP; [done|]. simpl.
  inversion_clear HP as [|? Ha ? Hl]. apply andb_true_iff. auto.
Qed.

Lemma list_all_of {A} (Q : A -> Prop) l : (forall a, Q a) -> list_all A Q l.
Proof. intros HQ. induction l; constructor; auto. Qed.

Lemma optR_all {A B} (f : A -> Result B) (P : B -> bool) o o' :
  optR f o = Ok o' -> (forall a b, o = Some a -> f a = Ok b -> P b = true) -> opt_all P o' = true.
Proof.
  destruct o as [a|]; simpl; [|by intros [= <-]]. rewrite rbind_Ok. intros (b & Hb & [= <-]) HP.
  by eapply HP.
Qed.

Section linking.
Context `{CommandParserFactory} (p : ParserContext).

Lemma link_arg_linked (link : Expression -> Result Expression) a a' :
  (forall e e', a = CommandSubstitution e -> link e = Ok e' -> linked_expr e' = true) ->
  link_arg link a = Ok a' -> linked_arg linked_expr a' = true.
Proof.
  intros Hl Ha. destruct a; simpl in Ha; try by injection Ha as <-.
  apply rbind_Ok in Ha as (e' & He & [= <-]). by eapply Hl.
Qed.

Lemma resolve_front name args name' front q :
  resolve_parser p name args = Ok (name', front, q) ->
  forallb (linked_arg linked_expr) front = true.
Proof.
  unfold resolve_parser. intros Hr. repeat case_match; simplify_eq; done.
Qed.

Definition expr_links (e : Expression) : Prop :=
  forall e', link_expression p e = Ok e' -> linked_expr e' = true.

Lemma link_expression_all :
  (forall a, match a with CommandSubstitution e => expr_links e | _ => True end) /\
  (forall e, expr_links e) /\ (forall x : CommandExecutor, True).
Proof.
  apply syntax_mutind; try done.
  - intros name args Hargs x _ e' He. simpl in He.
    apply rbind_Ok in He as ([[name' front] q] & Hr & He). apply rbind_Ok in He as (args' & Ha & He).
    destruct (q p (front ++ args')); [|done]. injection He as <-. simpl.
    rewrite forallb_app, (resolve_front _ _ _ _ _ Hr). simpl.
    eapply mapR_forallb; [exact Ha|]. eapply list_all_impl; [|exact Hargs]. intros arg Hl arg'.
    apply link_arg_linked. intros e e' ->. apply Hl.
  - intros es Hes e' He. simpl in He. apply rbind_Ok in He as (es' & He & [= <-]). simpl.
    eapply mapR_forallb; [exact He|]. eapply list_all_impl_type; [|exact Hes].
    intros [[o e] o'] Hl [[q e1] q'] Hq. inversion_clear Hl as [x Hx y]. inversion_clear Hx.
    apply rbind_Ok in Hq as (e2 & He2 & [= <- <- <-]). auto.
Qed.

Lemma link_expression_linked e e' : link_expression p e = Ok e' -> linked_expr e' = true.
Proof. apply link_expression_all. Qed.

Lemma link_expressions_linked es es' : link_expressions p es = Ok es' -> linked_exprs es' = true.
Proof.
  intros He. eapply mapR_forallb; [exact He|]. apply list_all_of.
  intros [[o e] o'] [[q e1] q'] Hq. apply rbind_Ok in Hq as (e2 & He2 & [= <- <- <-]).
  by eapply link_expression_linked.
Qed.

Lemma link_arg_ok a a' : link_arg (link_expression p) a = Ok a' -> linked_arg linked_expr a' = true.
Proof. apply link_arg_linked. intros. by eapply link_expression_linked. Qed.

Section lines.
Context {L : Set} (link : L -> Result L) (linked : L -> bool).
Abbreviation links := (fun l => forall l', link l = Ok l' -> linked l' = true).

Lemma link_lines_linked ls ls' :
  list_all L links ls -> mapR link ls = Ok ls' -> forallb linked ls' = true.
Proof. intros Hl Hm. by eapply mapR_forallb. Qed.

Lemma link_branches_linked bs bs' :
  list_all _ (IfBranch_all L links) bs -> mapR (link_branch p link) bs = Ok bs' ->
  forallb (linked_branch linked) bs' = true.
Proof.
  intros Hl Hm. eapply mapR_forallb; [exact Hm|]. eapply list_all_impl_type; [|exact Hl].
  intros b [c lines Hlines] b' Hb. unfold link_branch in Hb. simpl in Hb.
  apply rbind_Ok in Hb as (c' & Hc & Hb). apply rbind_Ok in Hb as (ls & Hls & [= <-]).
  apply andb_true_iff. split; [by eapply link_expressions_linked|by eapply link_lines_linked].
Qed.

Lemma link_else_linked o o' :
  option_all _ (list_all L links) o -> optR (mapR link) o = Ok o' ->
  opt_all (forallb linked) o' = true.
Proof.
  intros Ho Hm. eapply optR_all; [exact Hm|]. intros ls ls' -> Hls. inversion_clear Ho.
  by eapply link_lines_linked.
Qed.

Lemma link_match_result_linked s s' :
  MatchResultStatement_all L links s -> link_match_result_statement p link s = Ok s' ->
  linked_match_result linked s' = true.
Proof.
  intros [c ok Hok err Herr control Hcontrol] Hs. unfold link_match_result_statement in Hs.
  simpl in Hs. apply rbind_Ok in Hs as (c' & Hc & Hs). apply rbind_Ok in Hs as (ok' & Ho & Hs).
  apply rbind_Ok in Hs as (err' & He & Hs). apply rbind_Ok in Hs as (ct' & Ht & [= <-]).
  unfold linked_match_result. simpl. rewrite (link_expression_linked _ _ Hc). simpl.
  repeat (apply andb_true_iff; split).
  - eapply optR_all; [exact Ho|]. intros b b' -> Hb. inversion_clear Hok as [x Hx|].
    destruct Hx. apply rbind_Ok in Hb as (ls & Hls & [= <-]). by eapply link_lines_linked.
  - eapply optR_all; [exact He|]. intros b b' -> Hb. inversion_clear Herr as [x Hx|].
    destruct Hx. apply rbind_Ok in Hb as (ls & Hls & [= <-]). by eapply link_lines_linked.
  - eapply optR_all; [exact Ht|]. intros b b' -> Hb. inversion_clear Hcontrol as [x Hx|].
    destruct Hx. apply rbind_Ok in Hb as (ls & Hls & [= <-]). by eapply link_lines_linked.
Qed.

Lemma link_statement_linked s s' :
  StatementOf_all L links s -> link_statement p link s = Ok s' ->
  linked_statement linked s' = true.
Proof.
  intros [es i Hi c Hc f Hf m Hm] Hs; simpl in Hs. destruct Hi as [i Hi|].
  { apply rbind_Ok in Hs as (i' & Hl & [= <-]). destruct Hi as [bs Hbs el Hel].
    apply rbind_Ok in Hl as (bs' & Hb & Hl). apply rbind_Ok in Hl as (el' & He & [= <-]). simpl.
    by rewrite (link_branches_linked _ _ Hbs Hb), (link_else_linked _ _ Hel He). }
  destruct Hc as [c Hc|].
  { apply rbind_Ok in Hs as (c' & Hl & [= <-]). destruct Hc as [subject bv bs Hbs el Hel].
    apply rbind_Ok in Hl as (s' & Hs & Hl). apply rbind_Ok in Hl as (bs' & Hb & Hl).
    apply rbind_Ok in Hl as (el' & He & [= <-]). simpl.
    rewrite (link_branches_linked _ _ Hbs Hb), (link_else_linked _ _ Hel He), !andb_true_r.
    eapply optR_all; [exact Hs|]. intros a b _. apply link_arg_ok. }
  destruct Hf as [f Hf|].
  { apply rbind_Ok in Hs as (f' & Hl & [= <-]). destruct Hf as [kv vv it lines Hlines].
    apply rbind_Ok in Hl as (it' & Hi' & Hl). apply rbind_Ok in Hl as (ls & Hls & [= <-]). simpl.
    by rewrite (link_arg_ok _ _ Hi'), (link_lines_linked _ _ Hlines Hls). }
  destruct Hm as [m Hm|].
  - apply rbind_Ok in Hs as (m' & Hl & [= <-]). by eapply link_match_result_linked.
  - apply rbind_Ok in Hs as (es' & Hl & [= <-]). by eapply link_expressions_linked.
Qed.
End lines.

Lemma link_line_linked l l' : link_line p l = Ok l' -> linked_line l' = true.
Proof.
  revert l'. induction l as [src ss IH] using Line_ind. intros l' Hl. simpl in Hl.
  apply rbind_Ok in Hl as (ss' & Hs & [= <-]). simpl. eapply mapR_forallb; [exact Hs|].
  eapply list_all_impl_type; [|exact IH]. intros s Hst s'. by apply link_statement_linked.
Qed.

(** Linking a chain succeeds only with an executor on every command it
    reaches, and keeps the chain's id and priority, the ids of its blocks and
    the text of its lines. *)
Theorem link_chain_links c c' :
  link_chain p c = Ok c' ->
  linked_chain c' = true /\ chain_id c' = chain_id c /\ chain_priority c' = chain_priority c /\
  map (fun b => (block_id b, map (fun '(mkLine src _) => src) (block_lines b))) (chain_blocks c') =
  map (fun b => (block_id b, map (fun '(mkLine src _) => src) (block_lines b))) (chain_blocks c).
Proof.
  intros Hc. apply rbind_Ok in Hc as (bs & Hb & [= <-]). simpl.
  split; [|split; [done|split; [done|]]].
  - eapply mapR_forallb; [exact Hb|]. apply list_all_of. intros b b' Hl.
    apply rbind_Ok in Hl as (ls & Hls & [= <-]). eapply mapR_forallb; [exact Hls|].
    apply list_all_of. intros l l'. apply link_line_linked.
  - apply mapR_Ok in Hb. induction Hb as [|b b' bs0 bs' Hl _ IH]; [done|]. simpl. f_equal; [|done].
    apply rbind_Ok in Hl as (ls & Hls & [= <-]). simpl. f_equal.
    apply mapR_Ok in Hls. induction Hls as [|l l' ls0 ls' Hll _ IHl]; [done|]. simpl.
    f_equal; [|done]. destruct l. apply rbind_Ok in Hll as (ss & _ & [= <-]). done.
Qed.
End linking.

(** Parsers for [return] and [assign], enough for small programs. *)
Definition small_parsers : CommandParserFactory := {|
  get_parser := fun name =>
    if String.eqb name "return" then Some (fun _ args => Ok (XReturn LvChain (args !! 1%nat)))
    else if String.eqb name "assign" then
      Some (fun _ args => match args with
                          | [_; Literal key; v] => Ok (XAssign AsChain key (Some v))
                          | _ => Err "Invalid assign command"
                          end)
    else None
|}.

Definition unlinked_chain : ProcessChain :=
  mkProcessChain "c" 0 [mkBlock "b" [mkLine "return 1"
    [new_expressions [(None, ECommand "return" [Literal "return"; Literal "1"] None, None)]]]].

Lemma link_chain_links_witness :
  exists c', @link_chain small_parsers (mkParserContext ∅ ∅) unlinked_chain = Ok c' /\
    linked_chain c' = true.
Proof.
  eexists. split; [reflexivity|].
  apply (@link_chain_links small_parsers (mkParserContext ∅ ∅) unlinked_chain). reflexivity.
Defined.

(** A command substitution inside a list literal is not linked: linking a
    command succeeds and keeps its literals as they are, and the evaluation of
    a literal with an unlinked substitution fails. *)
Theorem literal_substitution_not_linked `{F64Text} `{ArgParser} `{LeafCommands}
    `{CommandParserFactory} p call name args e' items :
  link_expression p (ECommand name args None) = Ok e' -> ListLiteral items ∈ args ->
  (exists name' args' x, e' = ECommand name' args' (Some x) /\ ListLiteral items ∈ args') /\
  (forall n a rest ctx st, items = CommandSubstitution (ECommand n a None) :: rest ->
    exists st', eval_arg call (ListLiteral items) ctx st =
      (Fail "Failed to execute command expression | cause=Command not linked", st')).
Proof.
  intros Hl Hin. split.
  - simpl in Hl. apply rbind_Ok in Hl as ([[name' front] q] & Hr & Hl).
    apply rbind_Ok in Hl as (args' & Ha & Hl). destruct (q p (front ++ args')) as [x|]; [|done].
    injection Hl as <-. exists name', (front ++ args'), x. split; [done|]. apply elem_of_app. right.
    apply mapR_Ok in Ha. apply list_elem_of_lookup in Hin as [i Hi].
    destruct (Forall2_lookup_l _ _ _ _ _ Ha Hi) as (b & Hb & [= <-]).
    by eapply list_elem_of_lookup_2.
  - intros n a rest ctx st ->. eexists. reflexivity.
Qed.

Lemma literal_substitution_not_linked_witness :
  exists st', @eval_arg sample_f64 sample_parser sample_leaf (fun _ _ => ret success)
    (ListLiteral [CommandSubstitution (ECommand "return" [] None)]) demo_ctx demo_state =
    (Fail "Failed to execute command expression | cause=Command not linked", st').
Proof.
  edestruct (@literal_substitution_not_linked sample_f64 sample_parser sample_leaf small_parsers
    (mkParserContext ∅ ∅) (fun _ _ => ret success) "assign"
    [Literal "assign"; Literal "x"; ListLiteral [CommandSubstitution (ECommand "return" [] None)]])
    as [_ Hf].
  - reflexivity.
  - right. right. left.
  - apply (Hf "return" [] []). reflexivity.
Defined.
