(* ===== verification/CommandFacts.v ===== *)
(** * Correctness of the leaf commands

    Splitting and joining are inverse; the numeric comparisons are exact on the
    integers a binary64 number represents; and [map-remove] on a multimap
    ignores what its values evaluate to when there are several. *)

From S2P Require Import Prelude Values Syntax State Collections Linker Env Chains Commands.
From S2P Require Import Collections Effects Samples CollectionFacts.

(** ** Strings *)

Lemma strip_prefix_Some p s r : strip_prefix p s = Some r <-> s = p +:+ r.
Proof.
  revert s. induction p as [|a p IH]; intros s; simpl.
  - split; [by intros [= ->]|by intros ->].
  - destruct s as [|b s]; [by split|]. destruct (Ascii.eqb_spec a b) as [->|Hn].
    + rewrite IH. split; [by intros ->|by intros [= ->]].
    + split; [done|]. intros [= -> _]. done.
Qed.

Lemma find_str_Some d s pre rest : find_str d s = Some (pre, rest) -> s = pre +:+ d +:+ rest.
Proof.
  revert pre rest. induction s as [|a s IH]; intros pre rest; simpl.
  - destruct (strip_prefix d "") as [r|] eqn:E; [|done]. intros [= <- <-].
    by apply strip_prefix_Some in E.
  - destruct (strip_prefix d (String a s)) as [r|] eqn:E.
    + intros [= <- <-]. by apply strip_prefix_Some in E.
    + destruct (find_str d s) as [[p r]|]; [|done]. intros [= <- <-].
      exact (f_equal (String a) (IH _ _ eq_refl)).
Qed.

(** The part before the first occurrence has none. *)
Lemma find_str_first d s pre rest :
  find_str d s = Some (pre, rest) -> d <> "" -> find_str d pre = None.
Proof.
  intros Hf Hd. revert pre Hf. induction s as [|a s IH]; intros pre; simpl.
  - destruct d as [|b d]; [done|]. done.
  - destruct (strip_prefix d (String a s)) as [r|] eqn:E.
    { intros [= <- <-]. by destruct d. }
    destruct (find_str d s) as [[p r]|] eqn:Ef; [|done]. intros [= <- <-]. simpl.
    rewrite (IH p eq_refl). destruct (strip_prefix d (String a p)) as [q|] eqn:Eq; [|done].
    apply strip_prefix_Some in Eq. apply find_str_Some in Ef. exfalso.
    assert (strip_prefix d (String a s) = Some (q +:+ d +:+ r)) as Hs; [|congruence].
    apply strip_prefix_Some. rewrite <- append_assoc, <- Eq, Ef. done.
Qed.

Lemma append_length' a b : String.length (a +:+ b) = (String.length a + String.length b)%nat.
Proof. induction a as [|x a IH]; [done|]. exact (f_equal S IH). Qed.

Lemma concat_cons d p q l : String.concat d (p :: q :: l) = p +:+ d +:+ String.concat d (q :: l).
Proof. done. Qed.

Lemma split_fuel_nonempty fuel d s : split_fuel fuel d s <> [].
Proof. destruct fuel; simpl; [done|]. by destruct (find_str d s) as [[]|]. Qed.

Lemma split_fuel_spec fuel d s :
  d <> "" -> (String.length s <= fuel)%nat ->
  String.concat d (split_fuel fuel d s) = s /\
  Forall (fun p => find_str d p = None) (split_fuel fuel d s).
Proof.
  intros Hd. revert s. induction fuel as [|fuel IH]; intros s Hs.
  - destruct s; [|simpl in Hs; lia]. destruct d; [done|]. by repeat constructor.
  - simpl. destruct (find_str d s) as [[pre rest]|] eqn:E; [|by repeat constructor].
    pose proof (find_str_Some _ _ _ _ E) as He. pose proof (find_str_first _ _ _ _ E Hd) as Hp.
    assert (String.length rest <= fuel)%nat as Hl.
    { rewrite He, !append_length' in Hs. destruct d; [done|]. simpl in Hs. lia. }
    destruct (IH rest Hl) as [Hc Hf]. split; [|by constructor].
    pose proof (split_fuel_nonempty fuel d rest). destruct (split_fuel fuel d rest) as [|q l]; [done|].
    by rewrite concat_cons, Hc.
Qed.

(** [split] is inverse to joining with the delimiter, and none of its
    segments contains the delimiter. *)
Theorem split_join d s :
  d <> "" ->
  String.concat d (split_str d s) = s /\ Forall (fun p => find_str d p = None) (split_str d s).
Proof. intros Hd. by apply split_fuel_spec. Qed.

Lemma split_join_witness :
  split_str "::" "a::b::" = ["a"; "b"; ""] /\
  String.concat "::" (split_str "::" "a::b::") = "a::b::".
Proof.
  split; [reflexivity|]. destruct (split_join "::" "a::b::") as [H _]; [discriminate|exact H].
Defined.

(** ** Numbers *)

Lemma f64_of_pos_small n :
  0 < n < 2 ^ 53 ->
  exists k, 0 <= k <= 52 /\ 2 ^ k <= n < 2 ^ (k + 1) /\
    f64_of_pos n = (k + 1022) * 2 ^ 52 + n * 2 ^ (52 - k).
Proof.
  intros [Hn Hl]. exists (Z.log2 n). pose proof (Z.log2_spec n Hn) as Hs.
  pose proof (Z.log2_nonneg n). assert (Z.log2 n < 53) as H53 by (apply Z.log2_lt_pow2; lia).
  unfold f64_of_pos. rewrite (proj2 (Z.leb_le _ 52)) by lia.
  rewrite <- Z.add_1_r in Hs. repeat split; lia.
Qed.

(** The significand of a number with leading bit [k], scaled to 53 bits. *)
Lemma scaled_bounds k n :
  0 <= k <= 52 -> 2 ^ k <= n < 2 ^ (k + 1) -> 2 ^ 52 <= n * 2 ^ (52 - k) < 2 ^ 53.
Proof.
  intros Hk [Hl Hu]. assert (2 ^ 52 = 2 ^ k * 2 ^ (52 - k)) as E by (rewrite <- Z.pow_add_r by lia; f_equal; lia).
  assert (2 ^ 53 = 2 ^ (k + 1) * 2 ^ (52 - k)) as E' by (rewrite <- Z.pow_add_r by lia; f_equal; lia).
  assert (0 < 2 ^ (52 - k)) by (apply Z.pow_pos_nonneg; lia). rewrite E, E'. nia.
Qed.

Lemma f64_of_pos_bounds n : 0 < n < 2 ^ 53 -> 0 < f64_of_pos n < 2047 * 2 ^ 52.
Proof.
  intros Hn. destruct (f64_of_pos_small n Hn) as (k & Hk & Hb & ->).
  pose proof (scaled_bounds k n Hk Hb). change (2 ^ 53) with (2 * 2 ^ 52) in *. lia.
Qed.

Lemma f64_of_pos_lt n m : 0 < n -> n < m -> m < 2 ^ 53 -> f64_of_pos n < f64_of_pos m.
Proof.
  intros Hn Hnm Hm. destruct (f64_of_pos_small n) as (k & Hk & Hb & ->); [lia|].
  destruct (f64_of_pos_small m) as (k' & Hk' & Hb' & ->); [lia|].
  pose proof (scaled_bounds k n Hk Hb). pose proof (scaled_bounds k' m Hk' Hb').
  change (2 ^ 53) with (2 * 2 ^ 52) in *.
  destruct (Z.lt_trichotomy k k') as [Hlt|[<-|Hgt]].
  - nia.
  - assert (0 < 2 ^ (52 - k)) by (apply Z.pow_pos_nonneg; lia). nia.
  - assert (2 ^ (k' + 1) <= 2 ^ k) by (apply Z.pow_le_mono_r; lia). lia.
Qed.

(** The pattern of an integer: its sign, and the pattern of its magnitude. *)
Lemma f64_of_i64_key a :
  Z.abs a < 2 ^ 53 ->
  f64_key (f64_of_i64 a) = Z.sgn a * (if a =? 0 then 0 else f64_of_pos (Z.abs a)) /\
  f64_is_nan (f64_of_i64 a) = false.
Proof.
  intros Ha. unfold f64_of_i64, f64_key, f64_is_nan. change (2 ^ 63) with (2048 * 2 ^ 52).
  destruct (Z.eqb_spec a 0) as [->|Hz]; [done|].
  pose proof (f64_of_pos_bounds (Z.abs a) ltac:(lia)) as Hb. destruct (Z.ltb_spec 0 a).
  - rewrite Z.abs_eq, Z.sgn_pos in * by lia. split; [|apply Z.ltb_ge].
    + rewrite (proj2 (Z.ltb_lt _ _)) by lia. lia.
    + rewrite Z.mod_small by lia. lia.
  - rewrite Z.abs_neq, Z.sgn_neg in * by lia. split; [|apply Z.ltb_ge].
    + rewrite (proj2 (Z.ltb_ge _ _)) by lia. lia.
    + rewrite <- (Z.mul_1_l (2048 * 2 ^ 52)) at 1. rewrite Z.add_comm, Z_mod_plus_full.
      rewrite Z.mod_small by lia. lia.
Qed.

(** The order of the patterns is the order of the integers. *)
Lemma f64_key_lt a b :
  Z.abs a < 2 ^ 53 -> Z.abs b < 2 ^ 53 -> a < b -> f64_key (f64_of_i64 a) < f64_key (f64_of_i64 b).
Proof.
  intros Ha Hb Hab. rewrite (proj1 (f64_of_i64_key a Ha)), (proj1 (f64_of_i64_key b Hb)).
  assert (forall n, n <> 0 -> Z.abs n < 2 ^ 53 -> 0 < f64_of_pos (Z.abs n)) as Hp
    by (intros n Hn Hl; apply f64_of_pos_bounds; lia).
  destruct (Z.eqb_spec a 0) as [->|Ha0], (Z.eqb_spec b 0) as [->|Hb0]; try lia.
  - pose proof (Hp b Hb0 Hb). rewrite (Z.sgn_pos b) by lia. lia.
  - pose proof (Hp a Ha0 Ha). rewrite (Z.sgn_neg a) by lia. lia.
  - pose proof (Hp a Ha0 Ha). pose proof (Hp b Hb0 Hb). destruct (Z.lt_ge_cases 0 a).
    + rewrite !Z.sgn_pos, !Z.abs_eq by lia. pose proof (f64_of_pos_lt a b). lia.
    + rewrite (Z.sgn_neg a) by lia. destruct (Z.lt_ge_cases 0 b); [rewrite Z.sgn_pos; lia|].
      rewrite Z.sgn_neg, !Z.abs_neq by lia. pose proof (f64_of_pos_lt (- b) (- a)). lia.
Qed.

Lemma f64_key_compare a b :
  Z.abs a < 2 ^ 53 -> Z.abs b < 2 ^ 53 ->
  (f64_key (f64_of_i64 a) ?= f64_key (f64_of_i64 b)) = (a ?= b).
Proof.
  intros Ha Hb. destruct (Z.compare_spec a b) as [->|Hlt|Hgt].
  - apply Z.compare_refl.
  - by apply Z.compare_lt_iff, f64_key_lt.
  - by apply Z.compare_gt_iff, f64_key_lt.
Qed.

(** The numeric comparison commands are exact on integers below 2^53 in
    magnitude: they decide the order of the integers, and loose equality is
    equality.  Beyond it they are not: 2^53 and 2^53 + 1 are loosely equal. *)
Theorem integer_comparison_exact `{F64Text} a b loose :
  Z.abs a < 2 ^ 53 -> Z.abs b < 2 ^ 53 ->
  number_compare CmpGt loose (VNumber (NInt a)) (VNumber (NInt b)) = (b <? a) /\
  number_compare CmpGe loose (VNumber (NInt a)) (VNumber (NInt b)) = (b <=? a) /\
  number_compare CmpLt loose (VNumber (NInt a)) (VNumber (NInt b)) = (a <? b) /\
  number_compare CmpLe loose (VNumber (NInt a)) (VNumber (NInt b)) = (a <=? b) /\
  compare_values false true (VNumber (NInt a)) (VNumber (NInt b)) = (a =? b) /\
  compare_values false true (VNumber (NInt (2 ^ 53))) (VNumber (NInt (2 ^ 53 + 1))) = true.
Proof.
  intros Ha Hb. unfold number_compare, compare_values, compare_loose, compare_op, f64_compare. simpl.
  unfold f64_compare.
  rewrite (proj2 (f64_of_i64_key a Ha)), (proj2 (f64_of_i64_key b Hb)). simpl.
  unfold Z.ltb, Z.leb. rewrite !f64_key_compare by done. rewrite !Z.eqb_compare.
  rewrite ?f64_key_compare by done. repeat split.
Qed.

Lemma integer_comparison_exact_witness :
  @number_compare sample_f64 CmpLt false (VNumber (NInt (-3))) (VNumber (NInt 5)) = true.
Proof.
  destruct (@integer_comparison_exact sample_f64 (-3) 5 false) as (_ & _ & H & _).
  - reflexivity.
  - reflexivity.
  - exact H.
Defined.

(** ** Collections *)

Lemma remove_many_absent raw s r :
  (forall x, x ∈ raw -> x ∉ s) ->
  fold_left (fun '(s, removed) v =>
    if is_mem v s then (is_remove v s, snd (is_insert v removed)) else (s, removed)) raw (s, r) = (s, r).
Proof.
  induction raw as [|x raw IH]; intros Hr; [done|]. simpl. destruct (is_mem x s) eqn:E.
  - apply is_mem_spec in E. by destruct (Hr x); [left|].
  - apply IH. intros y Hy. apply Hr. by right.
Qed.

Lemma join_set_values_run l st :
  exists st', join_set_values l st = (Done (String.concat " " (obj_data (obj_at KSet l st))), st') /\
    forall l', obj_at KMultiMap l' st' = obj_at KMultiMap l' st.
Proof.
  assert (read KSet l (String.concat " ") (enter_traverse KSet l st) =
    (Done (String.concat " " (obj_data (obj_at KSet l st))), enter_traverse KSet l st)) as Hr.
  { unfold read, gets. do 3 f_equal. unfold enter_traverse. by rewrite obj_at_set_obj_eq. }
  exists (leave_traverse KSet l (enter_traverse KSet l st)). split; [|done].
  unfold join_set_values, with_traverse, bind, modify, attempt. by rewrite Hr.
Qed.

(** [map-remove] with two or more values on a multimap does not depend on
    what the values evaluate to: it removes the texts of the arguments.  If
    none of the texts is a value of the key it reports success and removes
    nothing, even if the evaluated values are there. *)
Theorem map_remove_ignores_values em l key values raw x s st :
  (2 <= length values)%nat ->
  (forall values', (2 <= length values')%nat ->
    map_remove_command em (VMultiMap l) key values raw st =
    map_remove_command em (VMultiMap l) key values' raw st) /\
  (obj_trav (obj_at KMultiMap l st) = 0%nat ->
   im_get key (obj_data (obj_at KMultiMap l st)) = Some (x :: s) ->
   (forall y, y ∈ raw -> y ∉ x :: s) ->
   exists st',
     map_remove_command em (VMultiMap l) key values raw st = (Done (RSuccess (VString "")), st') /\
     im_get key (obj_data (obj_at KMultiMap l st')) = Some (x :: s)).
Proof.
  intros Hl. destruct values as [|v1 [|v2 vs]]; [simpl in Hl; lia..|]. split.
  - intros [|w1 [|w2 ws]] Hl'; [simpl in Hl'; lia..|]. done.
  - intros Ht Hg Hr.
    set (st1 := set_obj KMultiMap l
      (mkObj (mm_put key (x :: s) (obj_data (obj_at KMultiMap l st))) 0) st).
    set (set := fresh_in (heap KSet st1)). set (st2 := set_obj KSet set (mkObj [] 0) st1).
    assert (mm_remove_many l key raw st = (Done (Some set), st2)) as Hm.
    { unfold mm_remove_many, bind, mutate.
      by rewrite Ht, Hg, (remove_many_absent raw (x :: s) [] Hr). }
    destruct (join_set_values_run set st2) as (st3 & Hj & Hsame).
    unfold st2 in Hj at 2. rewrite obj_at_set_obj_eq in Hj. exists st3. split.
    + unfold map_remove_command, with_collection. cbv zeta iota beta. cbn [is_any_map].
      rewrite (bind_run _ _ st (Some (VString "")) st3); [done|].
      rewrite (bind_run _ _ _ _ _ Hm). by rewrite (bind_run _ _ _ _ _ Hj).
    + rewrite Hsame. change (obj_at KMultiMap l st2) with (obj_at KMultiMap l st1). unfold st1.
      rewrite obj_at_set_obj_eq. cbn [obj_data mm_put]. by rewrite im_get_insert, decide_True.
Qed.

Lemma map_remove_ignores_values_witness :
  exists st', map_remove_command (ctx_env demo_ctx) (VMultiMap 0) "k" ["x"; "y"] ["a"; "b"]
      (set_obj KMultiMap 0 (mkObj [("k", ["x"; "y"])] 0) empty_state) =
      (Done (RSuccess (VString "")), st') /\
    im_get "k" (obj_data (obj_at KMultiMap 0 st')) = Some ["x"; "y"].
Proof.
  apply (map_remove_ignores_values (ctx_env demo_ctx) 0 "k" ["x"; "y"] ["a"; "b"] "x" ["y"]
    (set_obj KMultiMap 0 (mkObj [("k", ["x"; "y"])] 0) empty_state)).
  - apply le_n.
  - reflexivity.
  - reflexivity.
  - intros y Hy Hx. rewrite !elem_of_cons in Hy. rewrite !elem_of_cons in Hx. set_solver.
Defined.
