(* ===== verification/BnsModel.v ===== *)
(** * BNS: data and validation

    The records of the name service ([bns-client/src/model.rs]) with their
    validation, the canonical forms of names and document types, and the errors
    of the registry ([bns-client/src/error.rs]).  Hashing and JSON come from
    crates: they are the operations of the class [BnsLibs]. *)

From S2P Require Import Prelude.

(** ** Errors *)

(** [BnsRegistryError].  The errors of the database, JSON, I/O and EVM crates
    carry values of those crates, which are left out. *)
Inductive BnsRegistryError : Type :=
| InvalidName (name reason : string)
| InvalidDocType (doc_type reason : string)
| InvalidAddress (address reason : string)
| InvalidLimit (limit max : Z)
| InvalidHash (value reason : string)
| InvalidPrincipal (value reason : string)
| InvalidKid (kid reason : string)
| NameAlreadyExists (name : string)
| NameNotFound (name : string)
| DocumentNotFound (name doc_type : string)
| DocumentInconsistent (name doc_type reason : string)
| StaleNameSeq (name : string) (expected actual : Z)
| StaleParentNameSeq (name : string) (expected actual : Z)
| StaleDocumentVersion (name doc_type : string) (expected actual : Z)
| NotEffectiveOwner (name : string)
| ControllerScopeDenied (name doc_type operation : string)
| StandardTransferDisabled (name : string)
| OwnerGraphCycle
| NoConcreteSigner
| OwnerGraphTooDeep (max_depth : Z)
| InlineDocumentTooLarge (len max : Z)
| InvalidMutation (msg : string)
| InvalidConfig (msg : string)
| UnsupportedOperation (msg : string)
| IntegerOutOfRange (field : string) (value : Z)
| DbLockPoisoned
| SqliteError
| JsonError
| IoError
| EvmError.

(** [BnsRegistryResult], with a value for a recursion that does not end. *)
Inductive BnsResult (A : Type) : Type :=
| BOk (a : A)
| BErr (e : BnsRegistryError)
| BDiverges.
Arguments BOk {A} a.
Arguments BErr {A} e.
Arguments BDiverges {A}.

Definition bresult_bind {A B} (m : BnsResult A) (k : A -> BnsResult B) : BnsResult B :=
  match m with
  | BOk a => k a
  | BErr e => BErr e
  | BDiverges => BDiverges
  end.

Declare Scope bns_scope.
Delimit Scope bns_scope with bns.
Open Scope bns_scope.

Notation "m1 ;? m2" := (bresult_bind m1 (fun _ => m2))
  (at level 100, m2 at level 200, right associativity) : bns_scope.

(** Return an error unless the check fails. *)
Definition reject_if (b : bool) (e : BnsRegistryError) : BnsResult unit :=
  if b then BErr e else BOk tt.

(** A loop of checks. *)
Fixpoint check_all {A} (f : A -> BnsResult unit) (l : list A) : BnsResult unit :=
  match l with
  | [] => BOk tt
  | a :: l' => f a ;? check_all f l'
  end.

(** ** Constants *)

Definition DID_BNS_PREFIX : string := "did:bns:".
Definition STORAGE_TYPE_INLINE : string := "inline".
Definition ZERO_HASH : string :=
  "0x0000000000000000000000000000000000000000000000000000000000000000".
Definition MAX_BNS_NAME_LEN : nat := 253.
Definition MAX_BNS_LABEL_LEN : nat := 126.
Definition MAX_INLINE_DOCUMENT : nat := 4096.
Definition MAX_OWNER_REF_DEPTH : nat := 8.
Definition MAX_BNS_NAMES_PAGE_SIZE : nat := 1000.

Definition KEY_PURPOSE_AUTHENTICATION : Z := Z.shiftl 1 0.
Definition KEY_PURPOSE_RECOVERY : Z := Z.shiftl 1 1.
Definition KEY_PURPOSE_SIGN_DOCUMENT : Z := Z.shiftl 1 2.

Definition PERMISSION_PUBLISH_DOCUMENT : Z := Z.shiftl 1 0.
Definition PERMISSION_REVOKE_DOCUMENT : Z := Z.shiftl 1 1.
Definition PERMISSION_SET_PAYMENT : Z := Z.shiftl 1 2.
Definition PERMISSION_SET_ALIAS : Z := Z.shiftl 1 3.
Definition PERMISSION_SET_NAMESPACE : Z := Z.shiftl 1 4.

(** ** Enumerations *)

Inductive NameStatus : Type := NsAvailable | NsActive | NsExpired | NsReleased | NsTombstoned.
Inductive DocumentStatus : Type :=
  DsMissing | DsActive | DsRevoked | DsExpired | DsMigrated | DsTombstoned.
Inductive AliasKind : Type := AkNone | AkAlias | AkMigratedTo | AkCanonical.
Inductive ReleaseMode : Type := ReleaseAfterGrace | TombstoneForever.
Inductive PrincipalKind : Type := PkUnset | PkChainAccount | PkBnsName.
Inductive OwnerSource : Type :=
  OsNone | OsAssetOwnerFallback | OsExplicitSemanticOwner | OsParentInherited.
Inductive AuthorityRole : Type := ArNone | ArOwner | ArController.
Inductive AuthorityKeyStatus : Type := KsMissing | KsActive | KsRevoked | KsExpired.

#[export] Instance NameStatus_eq_dec : EqDecision NameStatus.
Proof. solve_decision. Defined.
#[export] Instance DocumentStatus_eq_dec : EqDecision DocumentStatus.
Proof. solve_decision. Defined.
#[export] Instance AliasKind_eq_dec : EqDecision AliasKind.
Proof. solve_decision. Defined.
#[export] Instance PrincipalKind_eq_dec : EqDecision PrincipalKind.
Proof. solve_decision. Defined.
#[export] Instance OwnerSource_eq_dec : EqDecision OwnerSource.
Proof. solve_decision. Defined.
#[export] Instance AuthorityRole_eq_dec : EqDecision AuthorityRole.
Proof. solve_decision. Defined.
#[export] Instance AuthorityKeyStatus_eq_dec : EqDecision AuthorityKeyStatus.
Proof. solve_decision. Defined.

(** [NameStatus::as_str] of [string_enum!]. *)
Definition name_status_str (s : NameStatus) : string :=
  match s with
  | NsAvailable => "available"
  | NsActive => "active"
  | NsExpired => "expired"
  | NsReleased => "released"
  | NsTombstoned => "tombstoned"
  end.

(** ** Names and texts *)

(** One label of a name. *)
Definition check_label (name label : string) : BnsResult unit :=
  reject_if (is_empty label) (InvalidName name "empty label") ;?
  reject_if (MAX_BNS_LABEL_LEN <? String.length label)%nat
    (InvalidName name "label must be at most 126 bytes") ;?
  reject_if (starts_with "-" label || ends_with "-" label)
    (InvalidName name "label must not start or end with '-'") ;?
  reject_if
    (negb (string_forallb (fun b => is_ascii_lower b || is_ascii_digit b || Ascii.eqb b "-") label))
    (InvalidName name "only lower-case ASCII letters, digits, '-' and '.' are supported").

Definition canonical_bns_name (name : string) : BnsResult string :=
  reject_if (is_empty name) (InvalidName name "name is empty") ;?
  reject_if (negb (String.eqb (trim name) name))
    (InvalidName name "name must not contain leading or trailing whitespace") ;?
  reject_if (starts_with DID_BNS_PREFIX name)
    (InvalidName name "contract names must not include did:bns: prefix") ;?
  reject_if (MAX_BNS_NAME_LEN <? String.length name)%nat
    (InvalidName name "name must be at most 253 bytes") ;?
  check_all (check_label name) (split_on char_dot name) ;?
  BOk name.

Definition canonical_doc_type (doc_type : string) : BnsResult string :=
  reject_if (is_empty doc_type) (InvalidDocType doc_type "doc_type is empty") ;?
  reject_if (32 <? String.length doc_type)%nat
    (InvalidDocType doc_type "doc_type must be at most 32 bytes") ;?
  reject_if
    (negb (string_forallb
       (fun b => is_ascii_lower b || is_ascii_digit b || Ascii.eqb b "-" || Ascii.eqb b "_")
       doc_type))
    (InvalidDocType doc_type "only lower-case ASCII letters, digits, '-' and '_' are supported") ;?
  BOk doc_type.

Definition name_from_did_bns (did : string) : BnsResult string :=
  match strip_prefix DID_BNS_PREFIX did with
  | Some name => canonical_bns_name name
  | None => BErr (InvalidName did "DID must start with did:bns:")
  end.

Definition did_bns_from_name (name : string) : BnsResult string :=
  bresult_bind (canonical_bns_name name) (fun name => BOk (DID_BNS_PREFIX +:+ name)).

Definition validate_did (did : string) : BnsResult unit :=
  if starts_with DID_BNS_PREFIX did then name_from_did_bns did ;? BOk tt
  else if starts_with "did:" did && (4 <? String.length did)%nat then BOk tt
  else BErr (InvalidName did "invalid DID").

Definition validate_hash (value : string) : BnsResult unit :=
  let hex := default value (strip_prefix "0x" value) in
  reject_if (negb (String.length hex =? 64)%nat)
    (InvalidHash value "bytes32 hash must contain 64 hex chars") ;?
  reject_if (negb (string_forallb is_ascii_hexdigit hex))
    (InvalidHash value "bytes32 hash must be hex encoded").

Definition validate_kid (kid : string) : BnsResult unit :=
  reject_if (is_empty kid) (InvalidKid kid "kid must not be empty") ;?
  validate_hash kid.

Definition normalize_hash_or_zero (value : string) : string :=
  if is_empty value then ZERO_HASH else value.

Definition parent_name (name : string) : option string := option_map snd (split_once "." name).

Definition is_top_level_name (name : string) : bool := negb (string_contains char_dot name).

Definition ensure_registerable_depth (name : string) : BnsResult unit :=
  reject_if (2 <? length (split_on char_dot name))%nat
    (InvalidName name "registry only supports first-level and second-level exact names").

(** ** Principals and authority *)

Record Principal : Type := mkPrincipal { pr_kind : PrincipalKind; pr_value : string }.

#[export] Instance Principal_eq_dec : EqDecision Principal.
Proof. solve_decision. Defined.

Definition unset_principal : Principal := mkPrincipal PkUnset "".
Definition chain_account (value : string) : Principal := mkPrincipal PkChainAccount value.

Definition bns_name (value : string) : BnsResult Principal :=
  bresult_bind (canonical_bns_name value) (fun name => BOk (mkPrincipal PkBnsName name)).

Definition is_unset (p : Principal) : bool := bool_decide (pr_kind p = PkUnset).

Definition validate_principal (p : Principal) : BnsResult unit :=
  match pr_kind p with
  | PkUnset =>
      reject_if (negb (is_empty (pr_value p)))
        (InvalidPrincipal (pr_value p) "unset principal must have empty value")
  | PkChainAccount =>
      reject_if (is_empty (pr_value p))
        (InvalidPrincipal (pr_value p) "chain account principal must not be empty")
  | PkBnsName => canonical_bns_name (pr_value p) ;? BOk tt
  end.

Definition validate_semantic_owner (owner : Principal) : BnsResult unit :=
  match pr_kind owner with
  | PkUnset | PkBnsName => validate_principal owner
  | PkChainAccount =>
      BErr (InvalidPrincipal (pr_value owner) "semantic owner only supports unset or BnsName")
  end.

Record CallAuthority : Type := mkCallAuthority {
  ca_role : AuthorityRole;
  ca_actor : Principal;
  ca_kid : string
}.

Definition public_authority : CallAuthority := mkCallAuthority ArNone unset_principal "".
Definition owner_authority (actor : Principal) (kid : string) : CallAuthority :=
  mkCallAuthority ArOwner actor kid.
Definition controller_authority (actor : Principal) (kid : string) : CallAuthority :=
  mkCallAuthority ArController actor kid.

Record MutationGuard : Type := mkMutationGuard {
  expected_name_seq : Z;
  expected_parent_name_seq : Z
}.

Record AuthorityKey : Type := mkAuthorityKey {
  ak_kid : string;
  ak_verification_method : string;
  ak_key_data : string;
  ak_purposes : Z;
  ak_valid_from : Z;
  ak_valid_until : Z;
  ak_status : AuthorityKeyStatus;
  ak_metadata_hash : string
}.

Definition set_key_status (st : AuthorityKeyStatus) (k : AuthorityKey) : AuthorityKey :=
  mkAuthorityKey (ak_kid k) (ak_verification_method k) (ak_key_data k) (ak_purposes k)
    (ak_valid_from k) (ak_valid_until k) st (ak_metadata_hash k).

Definition validate_key (k : AuthorityKey) : BnsResult unit :=
  validate_kid (ak_kid k) ;?
  reject_if (is_empty (ak_verification_method k))
    (InvalidKid (ak_kid k) "verification method must not be empty") ;?
  validate_hash (ak_metadata_hash k).

(** The interval in which a key or a rule holds. *)
Definition valid_at (valid_from valid_until now : Z) : bool :=
  (valid_from <=? now) && ((valid_until =? 0) || (now <? valid_until)).

Definition is_active_for (k : AuthorityKey) (purpose now : Z) : bool :=
  bool_decide (ak_status k = KsActive) && negb (Z.land (ak_purposes k) purpose =? 0)
  && valid_at (ak_valid_from k) (ak_valid_until k) now.

Record AuthorityKeyUpdate : Type := mkAuthorityKeyUpdate {
  aku_key : AuthorityKey;
  aku_active : bool
}.

Record AuthoritySetState : Type := mkAuthoritySetState {
  as_name : string;
  as_seq : Z;
  as_root : string;
  as_active_key_count : Z
}.

Definition empty_authority_set (name : string) : AuthoritySetState :=
  mkAuthoritySetState name 0 ZERO_HASH 0.

(** ** Names *)

Record NameState : Type := mkNameState {
  ns_name : string;
  ns_asset_owner : string;
  ns_semantic_owner : Principal;
  ns_effective_owner : Principal;
  ns_owner_source : OwnerSource;
  ns_standard_transfer_enabled : bool;
  ns_status : NameStatus;
  ns_registered_at : Z;
  ns_expire_at : Z;
  ns_grace_until : Z;
  ns_updated_at : Z;
  ns_name_seq : Z;
  ns_owner_document_version : Z;
  ns_min_document_iat : Z;
  ns_owner_policy_seq : Z;
  ns_lineage_epoch : Z;
  ns_renewable : bool;
  ns_transferable : bool;
  ns_allow_delegated_subnames : bool;
  ns_namespace_policy_hash : string;
  ns_payment_policy_hash : string;
  ns_alias_state_hash : string
}.

(** Assignments to the fields of a [NameState]. *)
Definition set_ownership (eff : Principal) (src : OwnerSource) (std : bool) (s : NameState) :=
  let '(mkNameState n ao so _ _ _ st r e g u q d i o l re tr al np pp ah) := s in
  mkNameState n ao so eff src std st r e g u q d i o l re tr al np pp ah.
Definition set_ns_status (v : NameStatus) (s : NameState) :=
  let '(mkNameState n ao so eo os sd _ r e g u q d i o l re tr al np pp ah) := s in
  mkNameState n ao so eo os sd v r e g u q d i o l re tr al np pp ah.
Definition set_std_transfer (v : bool) (s : NameState) :=
  let '(mkNameState n ao so eo os _ st r e g u q d i o l re tr al np pp ah) := s in
  mkNameState n ao so eo os v st r e g u q d i o l re tr al np pp ah.
Definition set_asset_owner (v : string) (s : NameState) :=
  let '(mkNameState n _ so eo os sd st r e g u q d i o l re tr al np pp ah) := s in
  mkNameState n v so eo os sd st r e g u q d i o l re tr al np pp ah.
Definition set_semantic_owner (v : Principal) (s : NameState) :=
  let '(mkNameState n ao _ eo os sd st r e g u q d i o l re tr al np pp ah) := s in
  mkNameState n ao v eo os sd st r e g u q d i o l re tr al np pp ah.
Definition set_expiry (expire grace : Z) (s : NameState) :=
  let '(mkNameState n ao so eo os sd st r _ _ u q d i o l re tr al np pp ah) := s in
  mkNameState n ao so eo os sd st r expire grace u q d i o l re tr al np pp ah.
Definition set_updated_at (v : Z) (s : NameState) :=
  let '(mkNameState n ao so eo os sd st r e g _ q d i o l re tr al np pp ah) := s in
  mkNameState n ao so eo os sd st r e g v q d i o l re tr al np pp ah.
Definition set_name_seq (v : Z) (s : NameState) :=
  let '(mkNameState n ao so eo os sd st r e g u _ d i o l re tr al np pp ah) := s in
  mkNameState n ao so eo os sd st r e g u v d i o l re tr al np pp ah.
Definition set_owner_document_version (v : Z) (s : NameState) :=
  let '(mkNameState n ao so eo os sd st r e g u q _ i o l re tr al np pp ah) := s in
  mkNameState n ao so eo os sd st r e g u q v i o l re tr al np pp ah.
Definition set_iat_floor (iat policy_seq : Z) (s : NameState) :=
  let '(mkNameState n ao so eo os sd st r e g u q d _ _ l re tr al np pp ah) := s in
  mkNameState n ao so eo os sd st r e g u q d iat policy_seq l re tr al np pp ah.
Definition set_namespace (allow : bool) (hash : string) (s : NameState) :=
  let '(mkNameState n ao so eo os sd st r e g u q d i o l re tr _ _ pp ah) := s in
  mkNameState n ao so eo os sd st r e g u q d i o l re tr allow hash pp ah.
Definition set_payment_hash (v : string) (s : NameState) :=
  let '(mkNameState n ao so eo os sd st r e g u q d i o l re tr al np _ ah) := s in
  mkNameState n ao so eo os sd st r e g u q d i o l re tr al np v ah.
Definition set_alias_hash (v : string) (s : NameState) :=
  let '(mkNameState n ao so eo os sd st r e g u q d i o l re tr al np pp _) := s in
  mkNameState n ao so eo os sd st r e g u q d i o l re tr al np pp v.

(** [state.name_seq += 1; state.updated_at = now]. *)
Definition bump (now : Z) (s : NameState) : NameState :=
  set_updated_at now (set_name_seq (u64_add (ns_name_seq s) 1) s).

Definition effective_status_at (s : NameState) (now : Z) : NameStatus :=
  if bool_decide (ns_status s = NsActive) && negb (ns_expire_at s =? 0)
     && (ns_expire_at s <=? now)
  then NsExpired
  else ns_status s.

Definition materialize_status_at (s : NameState) (now : Z) : NameState :=
  let s := set_ns_status (effective_status_at s now) s in
  if bool_decide (ns_status s = NsActive) then s else set_std_transfer false s.

Definition validate_name_state (s : NameState) : BnsResult unit :=
  canonical_bns_name (ns_name s) ;?
  reject_if (is_empty (ns_asset_owner s)) (InvalidMutation "asset owner must not be empty") ;?
  validate_semantic_owner (ns_semantic_owner s) ;?
  validate_principal (ns_effective_owner s) ;?
  validate_hash (ns_namespace_policy_hash s) ;?
  validate_hash (ns_payment_policy_hash s) ;?
  validate_hash (ns_alias_state_hash s).

Record RegisterOptions : Type := mkRegisterOptions {
  ro_duration : Z;
  ro_grace_period : Z;
  ro_renewable : bool;
  ro_transferable : bool;
  ro_initial_semantic_owner : Principal;
  ro_allow_delegated_subnames : bool;
  ro_initial_payment_target : string;
  ro_initial_payment_policy_hash : string;
  ro_initial_namespace_policy_hash : string
}.

(** [RegisterOptions::default]. *)
Definition default_options : RegisterOptions :=
  mkRegisterOptions (365 * 24 * 60 * 60) (30 * 24 * 60 * 60) true true unset_principal false ""
    ZERO_HASH ZERO_HASH.

Definition validate_options (o : RegisterOptions) : BnsResult unit :=
  reject_if (ro_duration o =? 0)
    (InvalidMutation "registration duration must be greater than zero") ;?
  validate_semantic_owner (ro_initial_semantic_owner o) ;?
  validate_hash (ro_initial_payment_policy_hash o) ;?
  validate_hash (ro_initial_namespace_policy_hash o).

(** ** Controllers *)

Record ControllerRule : Type := mkControllerRule {
  cr_controller : Principal;
  cr_doc_type : string;
  cr_permissions : Z;
  cr_namespace_scope_hash : string;
  cr_valid_from : Z;
  cr_valid_until : Z;
  cr_constraint_hash : string
}.

Definition validate_rule (r : ControllerRule) : BnsResult unit :=
  validate_principal (cr_controller r) ;?
  reject_if (is_unset (cr_controller r))
    (InvalidPrincipal "" "controller rule cannot use unset principal") ;?
  (if is_empty (cr_doc_type r) then BOk tt else canonical_doc_type (cr_doc_type r) ;? BOk tt) ;?
  validate_hash (cr_namespace_scope_hash r) ;?
  validate_hash (cr_constraint_hash r).

Definition permits (r : ControllerRule) (actor : Principal) (doc_type : string)
    (permission now : Z) : bool :=
  bool_decide (cr_controller r = actor)
  && (is_empty (cr_doc_type r) || String.eqb (cr_doc_type r) doc_type)
  && negb (Z.land (cr_permissions r) permission =? 0)
  && valid_at (cr_valid_from r) (cr_valid_until r) now.

Definition controller_rule (controller : Principal) (doc_type : string) (permissions : Z)
  : ControllerRule :=
  mkControllerRule controller doc_type permissions ZERO_HASH 0 0 ZERO_HASH.

(** ** Documents *)

Record DocumentRef : Type := mkDocumentRef {
  dr_storage_type : string;
  dr_uri : string;
  dr_inline_document : string;
  dr_content_hash : string;
  dr_schema : string;
  dr_codec : string;
  dr_extra_hash : string
}.

Definition document_ref_new (storage_type uri content_hash : string) : DocumentRef :=
  mkDocumentRef storage_type uri "" (normalize_hash_or_zero content_hash) ZERO_HASH ZERO_HASH
    ZERO_HASH.

Record DocumentState : Type := mkDocumentState {
  ds_name : string;
  ds_doc_type : string;
  ds_version : Z;
  ds_previous_version : Z;
  ds_status : DocumentStatus;
  ds_document : DocumentRef;
  ds_controller : Principal;
  ds_beneficiary : Principal;
  ds_payment_target : string;
  ds_valid_from : Z;
  ds_expire_at : Z;
  ds_revoked_at : Z;
  ds_controller_policy_hash : string;
  ds_payment_policy_hash : string;
  ds_split_policy_hash : string;
  ds_price_policy_hash : string;
  ds_rights_policy_hash : string;
  ds_document_state_hash : string
}.

Definition set_state_hash (v : string) (d : DocumentState) : DocumentState :=
  let '(mkDocumentState n t ve pv st dc co be pt vf ex ra ch ph sh rh gh _) := d in
  mkDocumentState n t ve pv st dc co be pt vf ex ra ch ph sh rh gh v.

(** The payment fields that [set_payment_target] assigns. *)
Definition set_payment (target : string) (beneficiary : Principal) (payment split price rights : string)
    (d : DocumentState) : DocumentState :=
  let '(mkDocumentState n t ve pv st dc co _ _ vf ex ra ch _ _ _ _ h) := d in
  mkDocumentState n t ve pv st dc co beneficiary target vf ex ra ch payment split price rights h.

Definition document_effective_status_at (d : DocumentState) (name_status : NameStatus) (now : Z)
  : DocumentStatus :=
  if bool_decide (name_status = NsTombstoned) then DsTombstoned
  else if negb (bool_decide (ds_status d = DsActive)) then ds_status d
  else if bool_decide (name_status = NsExpired) || bool_decide (name_status = NsReleased)
          || negb (ds_expire_at d =? 0) && (ds_expire_at d <=? now)
  then DsExpired
  else DsActive.

Record DocumentUpdate : Type := mkDocumentUpdate {
  du_doc_type : string;
  du_expected_version : Z;
  du_document : DocumentRef;
  du_controller : Principal;
  du_beneficiary : Principal;
  du_payment_target : string;
  du_expire_at : Z;
  du_controller_policy_hash : string;
  du_payment_policy_hash : string;
  du_split_policy_hash : string;
  du_price_policy_hash : string;
  du_rights_policy_hash : string
}.

Definition default_document_update (doc_type : string) (expected_version : Z)
    (document : DocumentRef) : BnsResult DocumentUpdate :=
  bresult_bind (canonical_doc_type doc_type) (fun doc_type =>
  BOk (mkDocumentUpdate doc_type expected_version document unset_principal unset_principal "" 0
         ZERO_HASH ZERO_HASH ZERO_HASH ZERO_HASH ZERO_HASH)).

Record OwnerPolicyUpdate : Type := mkOwnerPolicyUpdate {
  op_update_min_document_iat : bool;
  op_min_document_iat : Z;
  op_reason_hash : string
}.

(** [OwnerPolicyUpdate::none]. *)
Definition no_policy_update : OwnerPolicyUpdate := mkOwnerPolicyUpdate false 0 ZERO_HASH.

Definition validate_policy_update (o : OwnerPolicyUpdate) : BnsResult unit :=
  if op_update_min_document_iat o || negb (is_empty (op_reason_hash o))
  then validate_hash (op_reason_hash o)
  else BOk tt.

(** ** Results of queries and mutations *)

Record OwnerResolution : Type := mkOwnerResolution {
  or_effective_owner : Principal;
  or_source : OwnerSource;
  or_authority_root : string;
  or_authority_seq : Z
}.

Record ResolveResult : Type := mkResolveResult {
  rr_name_state : NameState;
  rr_document_state : DocumentState;
  rr_owner : OwnerResolution;
  rr_effective_controller : Principal;
  rr_status : DocumentStatus;
  rr_alias_kind : AliasKind;
  rr_alias_target_did : string;
  rr_proof_root : string
}.

Definition resolve_effective_status_at (r : ResolveResult) (now : Z) : DocumentStatus :=
  let name_status := effective_status_at (rr_name_state r) now in
  if negb (bool_decide (rr_status r = DsActive)) then rr_status r
  else document_effective_status_at (rr_document_state r) name_status now.

(** [ResolveResult::materialize_status_at]. *)
Definition materialize_resolve_at (r : ResolveResult) (now : Z) : ResolveResult :=
  mkResolveResult (materialize_status_at (rr_name_state r) now) (rr_document_state r) (rr_owner r)
    (rr_effective_controller r) (resolve_effective_status_at r now) (rr_alias_kind r)
    (rr_alias_target_did r) (rr_proof_root r).

Record BootstrapDocumentVersion : Type := mkBootstrapDocumentVersion {
  bd_doc_type : string;
  bd_version : Z;
  bd_content_hash : string;
  bd_document_state_hash : string
}.

Record BootstrapNameResult : Type := mkBootstrapNameResult {
  br_name_seq : Z;
  br_initial_documents : list BootstrapDocumentVersion;
  br_authority_set : AuthoritySetState;
  br_controller_policy_hash : string
}.

Record ApplyMutationsResult : Type := mkApplyMutationsResult {
  am_name_seq : Z;
  am_documents : list BootstrapDocumentVersion;
  am_authority_set : AuthoritySetState;
  am_owner_policy_seq : Z
}.

Record DocumentKey : Type := mkDocumentKey { dk_name : string; dk_doc_type : string; dk_version : Z }.

(** [DocumentState::key]. *)
Definition document_key (d : DocumentState) : DocumentKey :=
  mkDocumentKey (ds_name d) (ds_doc_type d) (ds_version d).

Record AliasState : Type := mkAliasState {
  al_name : string;
  al_kind : AliasKind;
  al_target_did : string;
  al_proof_hash : string;
  al_set_at : Z;
  al_name_seq : Z
}.

Definition validate_alias (a : AliasState) : BnsResult unit :=
  canonical_bns_name (al_name a) ;?
  (if bool_decide (al_kind a = AkNone) then BOk tt else validate_did (al_target_did a)) ;?
  validate_hash (al_proof_hash a).

Record PurchaseContext : Type := mkPurchaseContext {
  pc_ctx_name : string;
  pc_ctx_doc_type : string;
  pc_ctx_document_version : Z;
  pc_ctx_beneficiary : Principal;
  pc_ctx_payment_target : string;
  pc_ctx_payment_policy_hash : string;
  pc_ctx_split_policy_hash : string;
  pc_ctx_price_policy_hash : string;
  pc_ctx_rights_policy_hash : string;
  pc_ctx_status : DocumentStatus;
  pc_ctx_proof_root : string
}.

Record PaymentTargetResolution : Type := mkPaymentTargetResolution {
  pt_beneficiary : Principal;
  pt_payment_target : string;
  pt_payment_policy_hash : string;
  pt_split_policy_hash : string;
  pt_price_policy_hash : string;
  pt_rights_policy_hash : string;
  pt_proof_root : string
}.

Record BnsNamePage : Type := mkBnsNamePage { np_names : list string; np_next_cursor : option string }.

Record LogCheckpoint : Type := mkLogCheckpoint {
  lc_log_root : string;
  lc_last_seq : Z;
  lc_issued_at : Z;
  lc_issuer : Principal;
  lc_external_anchor : string
}.

Definition validate_checkpoint (c : LogCheckpoint) : BnsResult unit :=
  validate_hash (lc_log_root c) ;?
  validate_principal (lc_issuer c) ;?
  validate_hash (lc_external_anchor c).

(** ** Events *)

Inductive RegistryEvent : Type :=
| NameRegistered (name asset_owner : string) (expire_at lineage_epoch name_seq : Z)
| NameRenewed (name : string) (expire_at name_seq : Z)
| NameAssetTransferred (name old_asset_owner new_asset_owner : string) (standard_transfer : bool)
    (name_seq : Z)
| NameOwnerUpdated (name : string) (owner : Principal) (owner_source : OwnerSource)
    (standard_transfer_enabled : bool) (name_seq : Z)
| AuthorityKeysUpdated (name : string) (authority_seq : Z) (authority_root : string)
| NameReleased (name : string) (mode : ReleaseMode) (reason_hash : string) (name_seq : Z)
| DocumentPublished (name doc_type : string) (version : Z) (content_hash state_hash : string)
| DocumentRevoked (name doc_type : string) (previous_version new_version : Z) (reason_hash : string)
| OwnerDocumentIatFloorUpdated (name : string) (previous_iat new_iat owner_policy_seq name_seq : Z)
    (reason_hash : string)
| ControllerPolicyUpdated (name policy_hash : string) (name_seq : Z)
| NamespacePolicyUpdated (name : string) (allow_delegated_subnames : bool)
    (namespace_policy_hash : string) (name_seq : Z)
| DidAliasSet (name target_did : string) (kind : AliasKind) (proof_hash : string) (name_seq : Z)
| PaymentTargetUpdated (name doc_type payment_target payment_policy_hash : string) (version : Z)
| LogCheckpointPublished (log_root : string) (last_seq issued_at : Z) (external_anchor : string).

Definition event_type (e : RegistryEvent) : string :=
  match e with
  | NameRegistered _ _ _ _ _ => "name_registered"
  | NameRenewed _ _ _ => "name_renewed"
  | NameAssetTransferred _ _ _ _ _ => "name_asset_transferred"
  | NameOwnerUpdated _ _ _ _ _ => "name_owner_updated"
  | AuthorityKeysUpdated _ _ _ => "authority_keys_updated"
  | NameReleased _ _ _ _ => "name_released"
  | DocumentPublished _ _ _ _ _ => "document_published"
  | DocumentRevoked _ _ _ _ _ => "document_revoked"
  | OwnerDocumentIatFloorUpdated _ _ _ _ _ _ => "owner_iat_floor_updated"
  | ControllerPolicyUpdated _ _ _ => "controller_policy_updated"
  | NamespacePolicyUpdated _ _ _ _ => "namespace_policy_updated"
  | DidAliasSet _ _ _ _ _ => "did_alias_set"
  | PaymentTargetUpdated _ _ _ _ _ => "payment_target_updated"
  | LogCheckpointPublished _ _ _ _ => "log_checkpoint_published"
  end.

Record EventLogRecord : Type := mkEventLogRecord {
  ev_seq : Z;
  ev_event_type : string;
  ev_observed_at : Z;
  ev_event_hash : string;
  ev_previous_log_root : string;
  ev_log_root : string;
  ev_event : RegistryEvent
}.

Record IndexerCursor : Type := mkIndexerCursor {
  ic_source : string;
  ic_block_number : Z;
  ic_block_hash : option string;
  ic_log_index : Z;
  ic_updated_at : Z
}.

(** ** Hashing and JSON *)

(** [serde_json::Value]; numbers are only told from the other kinds. *)
Inductive JsonValue : Type :=
| JNull
| JBool (b : bool)
| JNumber
| JString (s : string)
| JArray (items : list JsonValue)
| JObject (fields : list (string * JsonValue)).

(** What the crates sha2, hex, serde_json and alloy compute: a digest, its
    text, the JSON of the values that are hashed, the JSON value of a document,
    a principal in JSON, and an address in its canonical text. *)
Class BnsLibs : Type := {
  sha256_digest : string -> string;
  hex_encode : string -> string;
  json_of_document : DocumentState -> string;
  json_of_keys : gmap string AuthorityKey -> string;
  json_of_rules : list ControllerRule -> string;
  json_of_event : RegistryEvent -> string;
  json_of_event_entry : Z * string * string -> string;
  json_of_log_entry : string * string -> string;
  json_from_slice : string -> option JsonValue;
  principal_from_value : JsonValue -> option Principal;
  address_from_str : string -> option string
}.

(** SHA-256 gives 32 bytes, of which [hex] makes two digits each. *)
Class BnsLibsLaws `{BnsLibs} : Prop := {
  sha256_digest_length s : String.length (sha256_digest s) = 32%nat;
  hex_encode_length s : String.length (hex_encode s) = (2 * String.length s)%nat;
  hex_encode_digits s : string_forallb is_ascii_hexdigit (hex_encode s) = true
}.

Section hashes.
Context `{BnsLibs}.

Definition sha256_hex (bytes : string) : string := "0x" +:+ hex_encode (sha256_digest bytes).

Definition matches_sha256_content_hash (d : DocumentRef) : bool :=
  String.eqb (sha256_hex (dr_inline_document d)) (dr_content_hash d).

(** [DocumentRef::inline]. *)
Definition inline_document_ref (content : string) : DocumentRef :=
  mkDocumentRef STORAGE_TYPE_INLINE "" content (sha256_hex content) ZERO_HASH ZERO_HASH ZERO_HASH.

Definition validate_shape (d : DocumentRef) : BnsResult unit :=
  reject_if (is_empty (dr_storage_type d))
    (InvalidMutation "document storage_type must not be empty") ;?
  validate_hash (dr_content_hash d) ;?
  validate_hash (dr_schema d) ;?
  validate_hash (dr_codec d) ;?
  validate_hash (dr_extra_hash d) ;?
  if String.eqb (dr_storage_type d) STORAGE_TYPE_INLINE then
    reject_if (negb (is_empty (dr_uri d))) (InvalidMutation "inline document uri must be empty") ;?
    reject_if (is_empty (dr_inline_document d))
      (InvalidMutation "inline document must not be empty") ;?
    reject_if (MAX_INLINE_DOCUMENT <? String.length (dr_inline_document d))%nat
      (InlineDocumentTooLarge (Z.of_nat (String.length (dr_inline_document d)))
         (Z.of_nat MAX_INLINE_DOCUMENT)) ;?
    reject_if (negb (matches_sha256_content_hash d))
      (InvalidHash (dr_content_hash d)
         "inline document content_hash must be sha256(inline_document)")
  else
    reject_if (negb (is_empty (dr_inline_document d)))
      (InvalidMutation "inline_document must be empty for non-inline storage").

Definition validate_document (d : DocumentState) : BnsResult unit :=
  canonical_bns_name (ds_name d) ;?
  canonical_doc_type (ds_doc_type d) ;?
  validate_shape (ds_document d) ;?
  validate_principal (ds_controller d) ;?
  validate_principal (ds_beneficiary d) ;?
  validate_hash (ds_controller_policy_hash d) ;?
  validate_hash (ds_payment_policy_hash d) ;?
  validate_hash (ds_split_policy_hash d) ;?
  validate_hash (ds_price_policy_hash d) ;?
  validate_hash (ds_rights_policy_hash d) ;?
  validate_hash (ds_document_state_hash d).

Definition validate_update (u : DocumentUpdate) : BnsResult unit :=
  canonical_doc_type (du_doc_type u) ;?
  validate_shape (du_document u) ;?
  validate_principal (du_controller u) ;?
  validate_principal (du_beneficiary u) ;?
  validate_hash (du_controller_policy_hash u) ;?
  validate_hash (du_payment_policy_hash u) ;?
  validate_hash (du_split_policy_hash u) ;?
  validate_hash (du_price_policy_hash u) ;?
  validate_hash (du_rights_policy_hash u).

Definition document_state_hash (d : DocumentState) : string :=
  sha256_hex (json_of_document (set_state_hash ZERO_HASH d)).

Definition policy_hash_from_rules (rules : list ControllerRule) : string :=
  sha256_hex (json_of_rules rules).

(** The root over the keys that can authenticate, and their number. *)
Definition authority_root (keys : list AuthorityKey) (now : Z) : string * Z :=
  let active :=
    stable_sort (fun l r => String.leb (ak_kid l) (ak_kid r))
      (List.filter (fun k => is_active_for k KEY_PURPOSE_AUTHENTICATION now) keys) in
  match active with
  | [] => (ZERO_HASH, 0)
  | _ =>
      let canonical := fold_left (fun m k => <[ak_kid k := k]> m) active ∅ in
      (sha256_hex (json_of_keys canonical), Z.of_nat (size canonical))
  end.
End hashes.
