(* ===== verification/BnsStore.v ===== *)
(** * BNS: the store

    The tables of [bns-indexer/src/sqlite.rs] as finite maps and the operations
    of [BnsRegistryStoreTx] on them, each table keyed the way its primary key
    is.  The registry runs in a state monad over the tables and the number of
    clock readings made so far: every [now_timestamp()] is a reading of its own.
    Failures of the database itself are not modelled. *)

From S2P Require Import Prelude BnsModel.

(** ** Tables *)

(** A row of [bns_documents] without the columns that repeat its payload. *)
Record DocRow : Type := mkDocRow { dw_current : bool; dw_state : DocumentState }.

Record Db : Type := mkDb {
  db_names : gmap string NameState;
  db_documents : gmap (string * string) (list DocRow);
  db_keys : gmap string (gmap string AuthorityKey);
  db_sets : gmap string AuthoritySetState;
  db_policies : gmap string (list ControllerRule * string);
  db_aliases : gmap string AliasState;
  db_events : list EventLogRecord;
  db_checkpoints : list LogCheckpoint;
  db_cursors : gmap string IndexerCursor
}.

Definition empty_db : Db := mkDb ∅ ∅ ∅ ∅ ∅ ∅ [] [] ∅.

Definition with_names (f : gmap string NameState -> gmap string NameState) (d : Db) : Db :=
  mkDb (f (db_names d)) (db_documents d) (db_keys d) (db_sets d) (db_policies d) (db_aliases d)
    (db_events d) (db_checkpoints d) (db_cursors d).
Definition with_documents
    (f : gmap (string * string) (list DocRow) -> gmap (string * string) (list DocRow)) (d : Db) : Db :=
  mkDb (db_names d) (f (db_documents d)) (db_keys d) (db_sets d) (db_policies d) (db_aliases d)
    (db_events d) (db_checkpoints d) (db_cursors d).
Definition with_keys
    (f : gmap string (gmap string AuthorityKey) -> gmap string (gmap string AuthorityKey)) (d : Db) : Db :=
  mkDb (db_names d) (db_documents d) (f (db_keys d)) (db_sets d) (db_policies d) (db_aliases d)
    (db_events d) (db_checkpoints d) (db_cursors d).
Definition with_sets (f : gmap string AuthoritySetState -> gmap string AuthoritySetState) (d : Db) : Db :=
  mkDb (db_names d) (db_documents d) (db_keys d) (f (db_sets d)) (db_policies d) (db_aliases d)
    (db_events d) (db_checkpoints d) (db_cursors d).
Definition with_policies
    (f : gmap string (list ControllerRule * string) -> gmap string (list ControllerRule * string))
    (d : Db) : Db :=
  mkDb (db_names d) (db_documents d) (db_keys d) (db_sets d) (f (db_policies d)) (db_aliases d)
    (db_events d) (db_checkpoints d) (db_cursors d).
Definition with_aliases (f : gmap string AliasState -> gmap string AliasState) (d : Db) : Db :=
  mkDb (db_names d) (db_documents d) (db_keys d) (db_sets d) (db_policies d) (f (db_aliases d))
    (db_events d) (db_checkpoints d) (db_cursors d).
Definition with_events (f : list EventLogRecord -> list EventLogRecord) (d : Db) : Db :=
  mkDb (db_names d) (db_documents d) (db_keys d) (db_sets d) (db_policies d) (db_aliases d)
    (f (db_events d)) (db_checkpoints d) (db_cursors d).
Definition with_checkpoints (f : list LogCheckpoint -> list LogCheckpoint) (d : Db) : Db :=
  mkDb (db_names d) (db_documents d) (db_keys d) (db_sets d) (db_policies d) (db_aliases d)
    (db_events d) (f (db_checkpoints d)) (db_cursors d).
Definition with_cursors (f : gmap string IndexerCursor -> gmap string IndexerCursor) (d : Db) : Db :=
  mkDb (db_names d) (db_documents d) (db_keys d) (db_sets d) (db_policies d) (db_aliases d)
    (db_events d) (db_checkpoints d) (f (db_cursors d)).

(** A table in the order of its integer key: insert, or replace the row of the
    same key. *)
Section ordered.
Context {R : Type} (key : R -> Z).

Fixpoint upsert (r : R) (l : list R) : list R :=
  match l with
  | [] => [r]
  | x :: l' =>
      if key r <? key x then r :: l
      else if key r =? key x then r :: l'
      else x :: upsert r l'
  end.

Definition row_at (k : Z) (l : list R) : option R := List.find (fun r => key r =? k) l.
End ordered.

(** ** The monad *)

Record Store : Type := mkStore { st_db : Db; st_ticks : nat }.

Definition M (A : Type) : Type := Store -> BnsResult A * Store.

Definition ret {A} (a : A) : M A := fun s => (BOk a, s).

Definition bind {A B} (m : M A) (k : A -> M B) : M B := fun s =>
  match m s with
  | (BOk a, s') => k a s'
  | (BErr e, s') => (BErr e, s')
  | (BDiverges, s') => (BDiverges, s')
  end.

Notation "'let*' x ':=' m 'in' k" := (bind m (fun x => k))
  (at level 10, x pattern, m at level 100, k at level 200) : bns_scope.
Notation "m1 ;; m2" := (bind m1 (fun _ => m2))
  (at level 100, m2 at level 200, right associativity) : bns_scope.

Definition fail {A} (e : BnsRegistryError) : M A := fun s => (BErr e, s).

(** A computation that does not touch the store. *)
Definition lift {A} (r : BnsResult A) : M A := fun s => (r, s).

Definition check (b : bool) (e : BnsRegistryError) : M unit := lift (reject_if b e).

(** [Option::ok_or]. *)
Definition ok_or {A} (o : option A) (e : BnsRegistryError) : M A :=
  match o with Some a => ret a | None => fail e end.

Definition query {A} (f : Db -> A) : M A := fun s => (BOk (f (st_db s)), s).

Definition update (f : Db -> Db) : M unit := fun s =>
  (BOk tt, mkStore (f (st_db s)) (st_ticks s)).

(** A fallible loop over a vector. *)
Fixpoint mapM {A B} (f : A -> M B) (l : list A) : M (list B) :=
  match l with
  | [] => ret []
  | a :: l' =>
      let* b := f a in
      let* bs := mapM f l' in
      ret (b :: bs)
  end.

(** The same for its effects. *)
Fixpoint forM {A} (f : A -> M unit) (l : list A) : M unit :=
  match l with
  | [] => ret tt
  | a :: l' => f a ;; forM f l'
  end.

(** [BnsRegistryStore::transact]: the changes of a failed operation are dropped. *)
Definition transact {A} (op : M A) : M A := fun s =>
  match op s with
  | (BOk a, s') => (BOk a, s')
  | (r, s') => (r, mkStore (st_db s) (st_ticks s'))
  end.

Definition now_timestamp `{Clock} : M Z := fun s =>
  (BOk (clock_at (st_ticks s)), mkStore (st_db s) (S (st_ticks s))).

(** ** Operations on the tables *)

Definition to_i64 (value : Z) (field : string) : BnsResult Z :=
  if 2 ^ 63 - 1 <? value then BErr (IntegerOutOfRange field value) else BOk value.

Definition get_name (name : string) : M (option NameState) :=
  let* name := lift (canonical_bns_name name) in
  query (fun d => db_names d !! name).

Definition put_name (s : NameState) : M unit :=
  lift (validate_name_state s) ;;
  lift (to_i64 (ns_name_seq s) "name_seq") ;;
  lift (to_i64 (ns_updated_at s) "updated_at") ;;
  update (with_names <[ns_name s := s]>).

Definition by_name (a b : NameState) : bool := String.leb (ns_name a) (ns_name b).

(** [ORDER BY name]. *)
Definition list_names : M (list NameState) :=
  query (fun d => stable_sort by_name (snd <$> map_to_list (db_names d))).

Definition list_names_by_asset_owner (asset_owner : string) (after_name : option string)
    (limit : nat) : M (list string) :=
  lift (to_i64 (Z.of_nat limit) "limit") ;;
  let* after :=
    match after_name with
    | None => ret None
    | Some a => let* a := lift (canonical_bns_name a) in ret (Some a)
    end in
  query (fun d =>
    take limit
      (List.filter
         (fun n => match after with Some a => String.ltb a n | None => true end)
         (ns_name <$>
           (List.filter (fun s => String.eqb (ns_asset_owner s) asset_owner)
              (stable_sort by_name (snd <$> map_to_list (db_names d))))))).

Definition doc_rows (name doc_type : string) (d : Db) : list DocRow :=
  default [] (db_documents d !! (name, doc_type)).

Definition row_version (r : DocRow) : Z := ds_version (dw_state r).

(** The row of the highest version, as [ORDER BY version DESC LIMIT 1] picks it. *)
Definition latest_row (l : list DocRow) : option DocRow := last l.

Definition get_document (name doc_type : string) (version : Z) : M (option DocumentState) :=
  let* name := lift (canonical_bns_name name) in
  let* doc_type := lift (canonical_doc_type doc_type) in
  let* version := lift (to_i64 version "version") in
  query (fun d => dw_state <$> row_at row_version version (doc_rows name doc_type d)).

Definition get_current_document (name doc_type : string) : M (option DocumentState) :=
  let* name := lift (canonical_bns_name name) in
  let* doc_type := lift (canonical_doc_type doc_type) in
  query (fun d => dw_state <$> latest_row (List.filter dw_current (doc_rows name doc_type d))).

Definition get_latest_document (name doc_type : string) : M (option DocumentState) :=
  let* name := lift (canonical_bns_name name) in
  let* doc_type := lift (canonical_doc_type doc_type) in
  query (fun d => dw_state <$> latest_row (doc_rows name doc_type d)).

Definition clear_current (r : DocRow) : DocRow := mkDocRow false (dw_state r).

(** The rows of a document after [put_document]: the row that is written is the
    current one when no version is above it. *)
Definition put_row (s : DocumentState) (rows : list DocRow) : list DocRow :=
  let max_version := match latest_row rows with Some r => row_version r | None => -1 end in
  let is_current := max_version <=? ds_version s in
  let rows := if is_current then List.map clear_current rows else rows in
  upsert row_version (mkDocRow is_current s) rows.

Section store.
Context `{BnsLibs}.

Definition put_document (s : DocumentState) : M unit :=
  lift (validate_document s) ;;
  lift (to_i64 (ds_version s) "version") ;;
  update (fun d =>
    with_documents <[(ds_name s, ds_doc_type s) := put_row s (doc_rows (ds_name s) (ds_doc_type s) d)]> d).

Definition get_authority_key (name kid : string) : M (option AuthorityKey) :=
  let* name := lift (canonical_bns_name name) in
  query (fun d => default ∅ (db_keys d !! name) !! kid).

Definition put_authority_key (name : string) (key : AuthorityKey) : M unit :=
  let* name := lift (canonical_bns_name name) in
  lift (validate_key key) ;;
  update (fun d => with_keys <[name := <[ak_kid key := key]> (default ∅ (db_keys d !! name))]> d).

Definition by_kid (a b : AuthorityKey) : bool := String.leb (ak_kid a) (ak_kid b).

(** [ORDER BY kid]. *)
Definition list_authority_keys (name : string) : M (list AuthorityKey) :=
  let* name := lift (canonical_bns_name name) in
  query (fun d => stable_sort by_kid (snd <$> map_to_list (default ∅ (db_keys d !! name)))).

Definition get_authority_set (name : string) : M (option AuthoritySetState) :=
  let* name := lift (canonical_bns_name name) in
  query (fun d => db_sets d !! name).

Definition put_authority_set (s : AuthoritySetState) : M unit :=
  lift (canonical_bns_name (as_name s)) ;;
  lift (validate_hash (as_root s)) ;;
  lift (to_i64 (as_seq s) "authority_seq") ;;
  lift (to_i64 (as_active_key_count s) "active_key_count") ;;
  update (with_sets <[as_name s := s]>).

Definition get_controller_policy (name : string) : M (list ControllerRule) :=
  let* name := lift (canonical_bns_name name) in
  query (fun d => match db_policies d !! name with Some (rules, _) => rules | None => [] end).

Definition put_controller_policy (name : string) (rules : list ControllerRule) (policy_hash : string)
  : M unit :=
  let* name := lift (canonical_bns_name name) in
  lift (validate_hash policy_hash) ;;
  lift (check_all validate_rule rules) ;;
  update (with_policies <[name := (rules, policy_hash)]>).

Definition get_alias (name : string) : M (option AliasState) :=
  let* name := lift (canonical_bns_name name) in
  query (fun d => db_aliases d !! name).

Definition put_alias (s : AliasState) : M unit :=
  lift (validate_alias s) ;;
  lift (to_i64 (al_name_seq s) "name_seq") ;;
  update (with_aliases <[al_name s := s]>).

(** The documents of a name, none of them current any more. *)
Definition clear_documents (name : string) (m : gmap (string * string) (list DocRow))
  : gmap (string * string) (list DocRow) :=
  map_imap (fun k rows => Some (if String.eqb (fst k) name then List.map clear_current rows else rows)) m.

Definition reset_name_lineage (name : string) : M unit :=
  let* name := lift (canonical_bns_name name) in
  update (with_documents (clear_documents name)) ;;
  update (with_keys (delete name)) ;;
  update (with_sets (delete name)) ;;
  update (with_policies (delete name)) ;;
  update (with_aliases (delete name)).

Definition latest_event : M (option EventLogRecord) := query (fun d => last (db_events d)).

(** The record that [append_event] makes of an event after [latest]. *)
Definition next_record (latest : option EventLogRecord) (event : RegistryEvent) (observed_at : Z)
  : EventLogRecord :=
  let seq := match latest with Some r => u64_add (ev_seq r) 1 | None => 1 end in
  let previous_log_root := match latest with Some r => ev_log_root r | None => ZERO_HASH end in
  let event_hash := sha256_hex (json_of_event_entry (seq, previous_log_root, json_of_event event)) in
  let log_root := sha256_hex (json_of_log_entry (previous_log_root, event_hash)) in
  mkEventLogRecord seq (event_type event) observed_at event_hash previous_log_root log_root event.

Definition append_event (event : RegistryEvent) (observed_at : Z) : M EventLogRecord :=
  let* latest := latest_event in
  let record := next_record latest event observed_at in
  lift (to_i64 (ev_seq record) "seq") ;;
  lift (to_i64 (ev_observed_at record) "observed_at") ;;
  let* taken := query (fun d => row_at ev_seq (ev_seq record) (db_events d)) in
  check (is_some taken) SqliteError ;;
  update (with_events (upsert ev_seq record)) ;;
  ret record.

Definition put_event_record (record : EventLogRecord) : M unit :=
  lift (to_i64 (ev_seq record) "seq") ;;
  lift (to_i64 (ev_observed_at record) "observed_at") ;;
  update (with_events (upsert ev_seq record)).

Definition get_event (seq : Z) : M (option EventLogRecord) :=
  let* seq := lift (to_i64 seq "seq") in
  query (fun d => row_at ev_seq seq (db_events d)).

Definition list_events_tx (from_seq : Z) (limit : nat) : M (list EventLogRecord) :=
  lift (to_i64 from_seq "from_seq") ;;
  lift (to_i64 (Z.of_nat limit) "limit") ;;
  query (fun d => take limit (List.filter (fun r => from_seq <=? ev_seq r) (db_events d))).

Definition put_checkpoint (c : LogCheckpoint) : M unit :=
  lift (validate_checkpoint c) ;;
  lift (to_i64 (lc_last_seq c) "last_seq") ;;
  lift (to_i64 (lc_issued_at c) "issued_at") ;;
  update (with_checkpoints (upsert lc_last_seq c)).

Definition latest_checkpoint_tx : M (option LogCheckpoint) := query (fun d => last (db_checkpoints d)).

Definition get_indexer_cursor (source : string) : M (option IndexerCursor) :=
  query (fun d => db_cursors d !! source).

Definition put_indexer_cursor (c : IndexerCursor) : M unit :=
  lift (to_i64 (ic_block_number c) "block_number") ;;
  lift (to_i64 (ic_log_index c) "log_index") ;;
  lift (to_i64 (ic_updated_at c) "updated_at") ;;
  update (with_cursors <[ic_source c := c]>).

Definition reset_indexer_projection (source : string) : M unit :=
  update (fun d => mkDb ∅ ∅ ∅ ∅ ∅ ∅ [] [] (delete source (db_cursors d))).

(** [recompute_authority_set]. *)
Definition recompute_authority_set (name : string) (current : option AuthoritySetState)
    (keys : list AuthorityKey) (now : Z) : BnsResult AuthoritySetState :=
  let '(root, count) := authority_root keys now in
  bresult_bind (canonical_bns_name name) (fun name =>
  BOk (mkAuthoritySetState name
         (match current with Some s => u64_add (as_seq s) 1 | None => 1 end) root count)).
End store.
