(* ===== verification/BnsRegistry.v ===== *)
(** * BNS: the registry

    [CentralizedBnsRegistry] of [bns-indexer/src/registry.rs]: the resolution of
    owners, the checks of authority and of the owner graph, the mutations of
    names, documents, keys, policies, aliases and payment targets, and the
    queries. *)

From S2P Require Import Prelude BnsModel BnsStore.

Definition missing_document_state (name doc_type : string) : DocumentState :=
  mkDocumentState name doc_type 0 0 DsMissing (document_ref_new ZERO_HASH "" ZERO_HASH)
    unset_principal unset_principal "" 0 0 0 ZERO_HASH ZERO_HASH ZERO_HASH ZERO_HASH ZERO_HASH
    ZERO_HASH.

Section registry.
Context `{BnsLibs} `{Clock}.

(** ** Authority sets *)

Definition authority_set (name : string) : M AuthoritySetState :=
  let* set := get_authority_set name in
  ret (default (empty_authority_set name) set).

Definition require_active_authority_set_at (name : string) (now : Z) : M AuthoritySetState :=
  let* state := get_name name in
  let* state := ok_or state (NameNotFound name) in
  check (negb (bool_decide (effective_status_at state now = NsActive))) NoConcreteSigner ;;
  let* set := authority_set name in
  check (as_active_key_count set =? 0) NoConcreteSigner ;;
  ret set.

Definition require_active_authority_set (name : string) : M AuthoritySetState :=
  let* now := now_timestamp in
  require_active_authority_set_at name now.

(** ** Owners *)

(** [materialize_name_state_at] over the resolution it calls. *)
Definition materialize_with (resolve : NameState -> Z -> M OwnerResolution) (state : NameState)
    (now : Z) : M NameState :=
  let state := materialize_status_at state now in
  let* owner := resolve state now in
  ret (set_ownership (or_effective_owner owner) (or_source owner)
         (ns_transferable state && bool_decide (ns_status state = NsActive)
          && bool_decide (or_source owner = OsAssetOwnerFallback)) state).

(** A name without an owner of its own has the owner of its parent, whose name
    is shorter: the length of the name is fuel enough. *)
Fixpoint resolve_owner_fuel (fuel : nat) (state : NameState) (now : Z) : M OwnerResolution :=
  match fuel with
  | O => lift BDiverges
  | S fuel' =>
      if bool_decide (pr_kind (ns_semantic_owner state) = PkBnsName) then
        let* authority :=
          if bool_decide (ns_status state = NsActive)
          then require_active_authority_set_at (pr_value (ns_semantic_owner state)) now
          else authority_set (pr_value (ns_semantic_owner state)) in
        ret (mkOwnerResolution (ns_semantic_owner state) OsExplicitSemanticOwner
               (as_root authority) (as_seq authority))
      else if is_top_level_name (ns_name state) then
        let* authority := authority_set (ns_name state) in
        ret (mkOwnerResolution (chain_account (ns_asset_owner state)) OsAssetOwnerFallback
               (as_root authority) (as_seq authority))
      else
        let* parent :=
          ok_or (parent_name (ns_name state)) (InvalidMutation "second-level name has no parent") in
        let* parent_state := get_name parent in
        let* parent_state := ok_or parent_state (NameNotFound parent) in
        let* owner :=
          if bool_decide (ns_status state = NsActive) then
            let* parent_state := materialize_with (resolve_owner_fuel fuel') parent_state now in
            check (negb (bool_decide (ns_status parent_state = NsActive))) NoConcreteSigner ;;
            resolve_owner_fuel fuel' parent_state now
          else resolve_owner_fuel fuel' (materialize_status_at parent_state now) now in
        ret (mkOwnerResolution (or_effective_owner owner) OsParentInherited
               (or_authority_root owner) (or_authority_seq owner))
  end.

Definition resolve_owner_from_state_at (state : NameState) (now : Z) : M OwnerResolution :=
  resolve_owner_fuel (S (String.length (ns_name state))) state now.

Definition materialize_name_state_at (state : NameState) (now : Z) : M NameState :=
  materialize_with resolve_owner_from_state_at state now.

Definition materialize_name_state (state : NameState) : M NameState :=
  let* now := now_timestamp in
  materialize_name_state_at state now.

Definition resolve_owner_for_name (name : string) : M OwnerResolution :=
  let* state := get_name name in
  let* state := ok_or state (NameNotFound name) in
  let* now := now_timestamp in
  resolve_owner_from_state_at (materialize_status_at state now) now.

Definition required_raw_name (name : string) : M NameState :=
  let* state := get_name name in
  ok_or state (NameNotFound name).

Definition ensure_active_name (state : NameState) : M unit :=
  let* now := now_timestamp in
  let status := effective_status_at state now in
  check (negb (bool_decide (status = NsActive)))
    (InvalidMutation ("name `" +:+ ns_name state +:+ "` is not active: " +:+ name_status_str status)).

Definition required_active_name (name : string) : M NameState :=
  let* state := required_raw_name name in
  ensure_active_name state ;;
  materialize_name_state state.

Definition validate_semantic_owner_target (owner : Principal) : M unit :=
  lift (validate_semantic_owner owner) ;;
  if bool_decide (pr_kind owner = PkBnsName)
  then require_active_authority_set (pr_value owner) ;; ret tt
  else ret tt.

Definition name_is_authority_owner (authority_name : string) : M bool :=
  let* now := now_timestamp in
  let* states := list_names in
  ret (existsb (fun state =>
         bool_decide (effective_status_at state now = NsActive)
         && bool_decide (pr_kind (ns_semantic_owner state) = PkBnsName)
         && String.eqb (pr_value (ns_semantic_owner state)) authority_name) states).

(** ** The owner graph *)

(** The loop of [validate_owner_path] from [depth] on. *)
Fixpoint owner_path_loop (names : gmap string NameState) (now : Z) (rounds : nat) (depth : nat)
    (current : string) (visited : gset string) (concrete : bool) : M unit :=
  match rounds with
  | O => check (negb concrete) NoConcreteSigner
  | S rounds' =>
      check (bool_decide (current ∈ visited)) OwnerGraphCycle ;;
      let visited := {[current]} ∪ visited in
      let* state := ok_or (names !! current) (NameNotFound current) in
      check (negb (bool_decide (effective_status_at state now = NsActive))) NoConcreteSigner ;;
      if bool_decide (pr_kind (ns_semantic_owner state) = PkBnsName) then
        let owner_name := pr_value (ns_semantic_owner state) in
        let* owner_state := ok_or (names !! owner_name) NoConcreteSigner in
        check (negb (bool_decide (effective_status_at owner_state now = NsActive))) NoConcreteSigner ;;
        let* authority := authority_set owner_name in
        if String.eqb owner_name current then
          check (negb (0 <? as_active_key_count authority)) NoConcreteSigner
        else
          let concrete := (0 <? as_active_key_count authority) || concrete in
          check (depth =? MAX_OWNER_REF_DEPTH)%nat (OwnerGraphTooDeep (Z.of_nat MAX_OWNER_REF_DEPTH)) ;;
          owner_path_loop names now rounds' (S depth) owner_name visited concrete
      else if is_top_level_name (ns_name state) then
        check (is_empty (ns_asset_owner state)) NoConcreteSigner
      else
        let* parent := ok_or (parent_name (ns_name state)) NoConcreteSigner in
        check (depth =? MAX_OWNER_REF_DEPTH)%nat (OwnerGraphTooDeep (Z.of_nat MAX_OWNER_REF_DEPTH)) ;;
        owner_path_loop names now rounds' (S depth) parent visited concrete
  end.

Definition validate_owner_path (names : gmap string NameState) (start : string) (now : Z) : M unit :=
  owner_path_loop names now (S MAX_OWNER_REF_DEPTH) 0 start ∅ false.

(** The names with [changed] in place of its old state. *)
Definition names_with (states : list NameState) (changed : option NameState) : gmap string NameState :=
  let names := fold_left (fun m s => <[ns_name s := s]> m) states ∅ in
  match changed with
  | Some s => <[ns_name s := s]> names
  | None => names
  end.

(** The order of a [HashMap] is not specified; the one of [map_to_list] decides
    which of several errors is reported. *)
Definition validate_owner_graph_with (changed : option NameState) : M unit :=
  let* states := list_names in
  let names := names_with states changed in
  let* now := now_timestamp in
  forM (fun state =>
    if bool_decide (effective_status_at state now = NsActive)
    then validate_owner_path names (ns_name state) now
    else ret tt) (snd <$> map_to_list names).

(** ** Authority *)

Definition check_guard (state : NameState) (guard : MutationGuard) : M unit :=
  check (negb (expected_name_seq guard =? ns_name_seq state))
    (StaleNameSeq (ns_name state) (expected_name_seq guard) (ns_name_seq state)).

Definition validate_actor_key (actor : Principal) (kid : string) (now : Z) : M unit :=
  match pr_kind actor with
  | PkUnset => fail (InvalidPrincipal "" "unset actor cannot authorize calls")
  | PkChainAccount => ret tt
  | PkBnsName =>
      let* key := get_authority_key (pr_value actor) kid in
      let* key := ok_or key (InvalidKid kid "authority key not found") in
      check (negb (is_active_for key KEY_PURPOSE_AUTHENTICATION now))
        (InvalidKid kid "authority key is not active for authentication")
  end.

Definition authorize_owner_for_loaded (state : NameState) (authority : CallAuthority) : M unit :=
  check (negb (bool_decide (ca_role authority = ArOwner))) (NotEffectiveOwner (ns_name state)) ;;
  lift (validate_principal (ca_actor authority)) ;;
  let* owner := resolve_owner_for_name (ns_name state) in
  check (negb (bool_decide (ca_actor authority = or_effective_owner owner)))
    (NotEffectiveOwner (ns_name state)) ;;
  let* now := now_timestamp in
  validate_actor_key (ca_actor authority) (ca_kid authority) now.

Definition authorize_update_no_guard (state : NameState) (doc_type : string) (permission : Z)
    (operation : string) (authority : CallAuthority) : M unit :=
  match ca_role authority with
  | ArOwner => authorize_owner_for_loaded state authority
  | ArController =>
      let* now := now_timestamp in
      lift (validate_principal (ca_actor authority)) ;;
      (if bool_decide (pr_kind (ca_actor authority) = PkBnsName)
       then validate_actor_key (ca_actor authority) (ca_kid authority) now
       else ret tt) ;;
      let* rules := get_controller_policy (ns_name state) in
      check (negb (existsb (fun rule => permits rule (ca_actor authority) doc_type permission now) rules))
        (ControllerScopeDenied (ns_name state) doc_type operation)
  | ArNone => fail (NotEffectiveOwner (ns_name state))
  end.

Definition authorize_update (state : NameState) (doc_type : string) (permission : Z)
    (operation : string) (authority : CallAuthority) (guard : MutationGuard) : M unit :=
  check_guard state guard ;;
  authorize_update_no_guard state doc_type permission operation authority.

(** ** Internal mutations *)

(** One update of a key set in [apply_authority_updates]. *)
Definition apply_key_update (keys : gmap string AuthorityKey) (u : AuthorityKeyUpdate)
  : gmap string AuthorityKey :=
  let key := aku_key u in
  if aku_active u then
    let key := if bool_decide (ak_status key = KsMissing) then set_key_status KsActive key else key in
    <[ak_kid key := key]> keys
  else
    let revoked := set_key_status KsRevoked (default key (keys !! ak_kid key)) in
    <[ak_kid revoked := revoked]> (delete (ak_kid key) keys).

Definition apply_authority_updates (name : string) (updates : list AuthorityKeyUpdate) (now : Z)
  : M AuthoritySetState :=
  let* listed := list_authority_keys name in
  let by_kid_map := fold_left (fun m k => <[ak_kid k := k]> m) listed ∅ in
  let by_kid_map := fold_left apply_key_update updates by_kid_map in
  let keys := stable_sort by_kid (snd <$> map_to_list by_kid_map) in
  let* current := get_authority_set name in
  let* set := lift (recompute_authority_set name current keys now) in
  (if as_active_key_count set =? 0 then
     let* owns := name_is_authority_owner name in
     check owns NoConcreteSigner
   else ret tt) ;;
  forM (put_authority_key name) keys ;;
  put_authority_set set ;;
  append_event (AuthorityKeysUpdated name (as_seq set) (as_root set)) now ;;
  ret set.

Definition hashed (d : DocumentState) : DocumentState := set_state_hash (document_state_hash d) d.

(** The version that records an update. *)
Definition published_document (name : string) (u : DocumentUpdate) (version previous now : Z)
  : DocumentState :=
  hashed (mkDocumentState name (du_doc_type u) version previous DsActive (du_document u)
    (du_controller u) (du_beneficiary u) (du_payment_target u) now (du_expire_at u) 0
    (du_controller_policy_hash u) (du_payment_policy_hash u) (du_split_policy_hash u)
    (du_price_policy_hash u) (du_rights_policy_hash u) ZERO_HASH).

(** The name once [document] is published. *)
Definition with_published (document : DocumentState) (bump_name_seq : bool) (now : Z)
    (state : NameState) : NameState :=
  let state :=
    if String.eqb (ds_doc_type document) "owner"
    then set_owner_document_version (ds_version document) state else state in
  let state :=
    if bump_name_seq then set_name_seq (u64_add (ns_name_seq state) 1) state else state in
  set_updated_at now state.

Definition publish_document_internal (name : string) (u : DocumentUpdate) (bump_name_seq : bool)
    (now : Z) : M Z :=
  let* current := get_current_document name (du_doc_type u) in
  let actual_version := match current with Some d => ds_version d | None => 0 end in
  check (negb (actual_version =? du_expected_version u))
    (StaleDocumentVersion name (du_doc_type u) (du_expected_version u) actual_version) ;;
  let* latest := get_latest_document name (du_doc_type u) in
  let latest_version := match latest with Some d => ds_version d | None => 0 end in
  let version := u64_add latest_version 1 in
  let document := published_document name u version actual_version now in
  put_document document ;;
  let* state := required_active_name name in
  let* state := materialize_name_state (with_published document bump_name_seq now state) in
  put_name state ;;
  append_event (DocumentPublished name (ds_doc_type document) (ds_version document)
    (dr_content_hash (ds_document document)) (ds_document_state_hash document)) now ;;
  ret version.

(** The name once its floor for document times is set. *)
Definition with_iat_floor (min_document_iat : Z) (bump_name_seq : bool) (now : Z) (state : NameState)
  : NameState :=
  let state :=
    if bump_name_seq then set_name_seq (u64_add (ns_name_seq state) 1) state else state in
  set_updated_at now (set_iat_floor min_document_iat (u64_add (ns_owner_policy_seq state) 1) state).

Definition set_min_document_iat_internal (name : string) (min_document_iat : Z) (reason_hash : string)
    (bump_name_seq : bool) (now : Z) : M (Z * Z) :=
  let* state := required_active_name name in
  check (min_document_iat <? ns_min_document_iat state)
    (InvalidMutation "min_document_iat cannot decrease") ;;
  let previous := ns_min_document_iat state in
  let* state :=
    materialize_name_state (with_iat_floor min_document_iat bump_name_seq now state) in
  put_name state ;;
  append_event (OwnerDocumentIatFloorUpdated name previous min_document_iat
    (ns_owner_policy_seq state) (ns_name_seq state) reason_hash) now ;;
  ret (ns_name_seq state, ns_owner_policy_seq state).

(** A document as [bootstrap_name] and [apply_mutations] report it. *)
Definition publish_reported (name : string) (now : Z) (u : DocumentUpdate)
  : M BootstrapDocumentVersion :=
  let* version := publish_document_internal name u false now in
  let* document := get_document name (du_doc_type u) version in
  let* document := ok_or document (DocumentNotFound name (du_doc_type u)) in
  ret (mkBootstrapDocumentVersion (du_doc_type u) version
         (dr_content_hash (ds_document document)) (ds_document_state_hash document)).

(** ** Mutations *)

(** The registry accepts writes only when it was made as the legacy state machine. *)
Context (writes_enabled : bool).

Definition ensure_write_path (operation : string) : M unit :=
  check (negb writes_enabled)
    (UnsupportedOperation ("CentralizedBnsRegistry no longer accepts `" +:+ operation +:+
       "` writes; submit a signed EVM raw TX and let bns-indexer rebuild the read projection from contract events")).

(** A document update that comes with a registration. *)
Definition check_initial_document (name : string) (u : DocumentUpdate) : BnsResult unit :=
  validate_update u ;?
  reject_if (negb (du_expected_version u =? 0))
    (StaleDocumentVersion name (du_doc_type u) (du_expected_version u) 0).

(** The checks before the transaction of a registration. *)
Definition check_registration (name asset_owner : string) (options : RegisterOptions)
    (initial_documents : list DocumentUpdate) : BnsResult unit :=
  ensure_registerable_depth name ;?
  reject_if (is_empty asset_owner) (InvalidMutation "asset owner must not be empty") ;?
  validate_options options ;?
  check_all (check_initial_document name) initial_documents.

Definition taken (existing : option NameState) : bool :=
  match existing with
  | Some s =>
      match ns_status s with
      | NsActive | NsExpired | NsTombstoned => true
      | NsAvailable | NsReleased => false
      end
  | None => false
  end.

(** The state of a name at its registration. *)
Definition registered_state (name asset_owner : string) (options : RegisterOptions)
    (existing : option NameState) (now : Z) : NameState :=
  mkNameState name asset_owner (ro_initial_semantic_owner options) unset_principal OsNone false
    NsActive now (u64_add now (ro_duration options))
    (u64_add (u64_add now (ro_duration options)) (ro_grace_period options)) now
    (match existing with Some s => u64_add (ns_name_seq s) 1 | None => 1 end)
    0 0 0
    (match existing with Some s => u64_add (ns_lineage_epoch s) 1 | None => 0 end)
    (ro_renewable options) (ro_transferable options) (ro_allow_delegated_subnames options)
    (ro_initial_namespace_policy_hash options) (ro_initial_payment_policy_hash options) ZERO_HASH.

(** The registration itself, up to the documents that come with it. *)
Definition register_internal (name asset_owner : string) (options : RegisterOptions)
    (authority : CallAuthority) (guard : MutationGuard) (now : Z) : M NameState :=
  let* existing := get_name name in
  check (taken existing) (NameAlreadyExists name) ;;
  (match parent_name name with
   | Some parent =>
       let* parent_state := required_active_name parent in
       check (negb (expected_parent_name_seq guard =? ns_name_seq parent_state))
         (StaleParentNameSeq parent (expected_parent_name_seq guard) (ns_name_seq parent_state)) ;;
       authorize_owner_for_loaded parent_state authority
   | None =>
       check (negb (bool_decide (ca_role authority = ArNone)))
         (InvalidMutation "root registration does not use registry owner/controller authority")
   end) ;;
  (if is_some existing then reset_name_lineage name else ret tt) ;;
  validate_semantic_owner_target (ro_initial_semantic_owner options) ;;
  let state := registered_state name asset_owner options existing now in
  validate_owner_graph_with (Some state) ;;
  let* state := materialize_name_state state in
  put_name state ;;
  append_event (NameRegistered name asset_owner (ns_expire_at state) (ns_lineage_epoch state)
    (ns_name_seq state)) now ;;
  ret state.

Definition register_name (name asset_owner : string) (options : RegisterOptions)
    (initial_documents : list DocumentUpdate) (authority : CallAuthority) (guard : MutationGuard)
  : M Z :=
  ensure_write_path "register_name" ;;
  let* name := lift (canonical_bns_name name) in
  lift (check_registration name asset_owner options initial_documents) ;;
  transact (
    let* now := now_timestamp in
    let* state := register_internal name asset_owner options authority guard now in
    forM (fun u => publish_document_internal name u false now ;; ret tt) initial_documents ;;
    ret (ns_name_seq state)).

(** The controllers of a policy that are names have to be able to sign. *)
Definition check_rule_controllers (rules : list ControllerRule) : M unit :=
  forM (fun rule =>
    if bool_decide (pr_kind (cr_controller rule) = PkBnsName)
    then require_active_authority_set (pr_value (cr_controller rule)) ;; ret tt
    else ret tt) rules.

(** Change a field of a name and store it. *)
Definition store_change (now : Z) (f : NameState -> NameState) (state : NameState) : M NameState :=
  let* state := materialize_name_state (bump now (f state)) in
  put_name state ;;
  ret state.

(** The owner of a name once the graph admits it. *)
Definition store_owner_change (state : NameState) : M NameState :=
  validate_owner_graph_with (Some state) ;;
  let* state := materialize_name_state state in
  put_name state ;;
  ret state.

Definition owner_updated (name : string) (state : NameState) : RegistryEvent :=
  NameOwnerUpdated name (ns_semantic_owner state) (ns_owner_source state)
    (ns_standard_transfer_enabled state) (ns_name_seq state).

Definition bootstrap_name (name asset_owner : string) (options : RegisterOptions)
    (initial_documents : list DocumentUpdate) (authority_key_updates : list AuthorityKeyUpdate)
    (semantic_owner_after_authority : option Principal) (controller_policy : list ControllerRule)
    (controller_policy_hash : string) (authority : CallAuthority) (guard : MutationGuard)
  : M BootstrapNameResult :=
  ensure_write_path "bootstrap_name" ;;
  let* name := lift (canonical_bns_name name) in
  lift (check_registration name asset_owner options initial_documents) ;;
  lift (check_all (fun u => validate_key (aku_key u)) authority_key_updates) ;;
  lift (match semantic_owner_after_authority with
        | Some owner => validate_semantic_owner owner
        | None => BOk tt
        end) ;;
  lift (validate_hash controller_policy_hash) ;;
  lift (check_all validate_rule controller_policy) ;;
  transact (
    let* now := now_timestamp in
    register_internal name asset_owner options authority guard now ;;
    let* documents := mapM (publish_reported name now) initial_documents in
    (match authority_key_updates with
     | [] => ret tt
     | _ => apply_authority_updates name authority_key_updates now ;; ret tt
     end) ;;
    (match semantic_owner_after_authority with
     | None => ret tt
     | Some semantic_owner =>
         let* state := required_active_name name in
         validate_semantic_owner_target semantic_owner ;;
         let* state := store_owner_change (bump now (set_semantic_owner semantic_owner state)) in
         append_event (owner_updated name state) now ;;
         ret tt
     end) ;;
    check_rule_controllers controller_policy ;;
    put_controller_policy name controller_policy controller_policy_hash ;;
    let* state := required_active_name name in
    let* state := store_change now (fun s => s) state in
    append_event (ControllerPolicyUpdated name controller_policy_hash (ns_name_seq state)) now ;;
    let* set := authority_set name in
    ret (mkBootstrapNameResult (ns_name_seq state) documents set controller_policy_hash)).

(** The state of a name after its renewal at [now]. *)
Definition renewed_state (state : NameState) (duration now : Z) : NameState :=
  let grace_delta := u64_saturating_sub (ns_grace_until state) (ns_expire_at state) in
  let state :=
    if bool_decide (ns_status state = NsExpired) then set_ns_status NsActive state else state in
  let expire_at := u64_add (Z.max (ns_expire_at state) now) duration in
  bump now (set_expiry expire_at (u64_add expire_at grace_delta) state).

Definition renew_name (name : string) (duration : Z) : M Z :=
  ensure_write_path "renew_name" ;;
  let* name := lift (canonical_bns_name name) in
  check (duration =? 0) (InvalidMutation "renew duration must be greater than zero") ;;
  transact (
    let* now := now_timestamp in
    let* state := required_raw_name name in
    check (negb (ns_renewable state) || bool_decide (ns_status state = NsReleased)
           || bool_decide (ns_status state = NsTombstoned))
      (InvalidMutation ("name `" +:+ name +:+ "` is not renewable")) ;;
    let* state := materialize_name_state (renewed_state state duration now) in
    put_name state ;;
    append_event (NameRenewed name (ns_expire_at state) (ns_name_seq state)) now ;;
    ret (ns_expire_at state)).

Definition transfer_name (name new_asset_owner : string) (new_semantic_owner : Principal)
    (atomic_document_updates : list DocumentUpdate) (authority : CallAuthority)
    (guard : MutationGuard) : M Z :=
  ensure_write_path "transfer_name" ;;
  let* name := lift (canonical_bns_name name) in
  check (is_empty new_asset_owner) (InvalidMutation "new asset owner must not be empty") ;;
  lift (validate_semantic_owner new_semantic_owner) ;;
  lift (check_all validate_update atomic_document_updates) ;;
  transact (
    let* now := now_timestamp in
    let* state := required_active_name name in
    check_guard state guard ;;
    authorize_owner_for_loaded state authority ;;
    validate_semantic_owner_target new_semantic_owner ;;
    let old_asset_owner := ns_asset_owner state in
    let* state :=
      store_owner_change
        (bump now (set_semantic_owner new_semantic_owner (set_asset_owner new_asset_owner state))) in
    append_event (NameAssetTransferred name old_asset_owner new_asset_owner false
      (ns_name_seq state)) now ;;
    append_event (owner_updated name state) now ;;
    forM (fun u => publish_document_internal name u false now ;; ret tt) atomic_document_updates ;;
    ret (ns_name_seq state)).

Definition standard_transfer_name (name new_asset_owner : string) : M Z :=
  ensure_write_path "standard_transfer_name" ;;
  let* name := lift (canonical_bns_name name) in
  check (is_empty new_asset_owner) (InvalidMutation "new asset owner must not be empty") ;;
  transact (
    let* now := now_timestamp in
    let* state := required_active_name name in
    let* state := materialize_name_state state in
    check (negb (ns_standard_transfer_enabled state)) (StandardTransferDisabled name) ;;
    let old_asset_owner := ns_asset_owner state in
    let* state := store_change now (set_asset_owner new_asset_owner) state in
    append_event (NameAssetTransferred name old_asset_owner new_asset_owner true
      (ns_name_seq state)) now ;;
    ret (ns_name_seq state)).

Definition set_name_owner (name : string) (semantic_owner : Principal) (authority : CallAuthority)
    (guard : MutationGuard) : M Z :=
  ensure_write_path "set_name_owner" ;;
  let* name := lift (canonical_bns_name name) in
  lift (validate_semantic_owner semantic_owner) ;;
  transact (
    let* now := now_timestamp in
    let* state := required_active_name name in
    check_guard state guard ;;
    authorize_owner_for_loaded state authority ;;
    validate_semantic_owner_target semantic_owner ;;
    let* state := store_owner_change (bump now (set_semantic_owner semantic_owner state)) in
    append_event (owner_updated name state) now ;;
    ret (ns_name_seq state)).

Definition released_status (mode : ReleaseMode) : NameStatus :=
  match mode with ReleaseAfterGrace => NsReleased | TombstoneForever => NsTombstoned end.

Definition release_name (name : string) (mode : ReleaseMode) (reason_hash : string)
    (authority : CallAuthority) (guard : MutationGuard) : M Z :=
  ensure_write_path "release_name" ;;
  let* name := lift (canonical_bns_name name) in
  lift (validate_hash reason_hash) ;;
  transact (
    let* now := now_timestamp in
    let* state := required_active_name name in
    check_guard state guard ;;
    authorize_owner_for_loaded state authority ;;
    let* state := store_owner_change (bump now (set_ns_status (released_status mode) state)) in
    append_event (NameReleased name mode reason_hash (ns_name_seq state)) now ;;
    ret (ns_name_seq state)).

Definition set_namespace_policy (name : string) (allow_delegated_subnames : bool)
    (namespace_policy_hash : string) (authority : CallAuthority) (guard : MutationGuard) : M Z :=
  ensure_write_path "set_namespace_policy" ;;
  let* name := lift (canonical_bns_name name) in
  lift (validate_hash namespace_policy_hash) ;;
  transact (
    let* now := now_timestamp in
    let* state := required_active_name name in
    authorize_update state "" PERMISSION_SET_NAMESPACE "set_namespace" authority guard ;;
    let* state :=
      store_change now (set_namespace allow_delegated_subnames namespace_policy_hash) state in
    append_event (NamespacePolicyUpdated name allow_delegated_subnames namespace_policy_hash
      (ns_name_seq state)) now ;;
    ret (ns_name_seq state)).

Definition update_authority_keys (name : string) (updates : list AuthorityKeyUpdate)
    (authority : CallAuthority) (guard : MutationGuard) : M AuthoritySetState :=
  ensure_write_path "update_authority_keys" ;;
  let* name := lift (canonical_bns_name name) in
  lift (check_all (fun u => validate_key (aku_key u)) updates) ;;
  transact (
    let* now := now_timestamp in
    let* state := required_active_name name in
    check_guard state guard ;;
    authorize_owner_for_loaded state authority ;;
    apply_authority_updates name updates now).

(** The documents of a batch: each valid, no type twice. *)
Fixpoint check_batch (doc_types : gset string) (documents : list DocumentUpdate) : BnsResult unit :=
  match documents with
  | [] => BOk tt
  | u :: documents' =>
      validate_update u ;?
      bresult_bind (canonical_doc_type (du_doc_type u)) (fun doc_type =>
      reject_if (bool_decide (doc_type ∈ doc_types))
        (InvalidMutation "mutation batch contains duplicate document type") ;?
      check_batch ({[doc_type]} ∪ doc_types) documents')
  end.

Definition is_owner_document (u : DocumentUpdate) : bool := String.eqb (du_doc_type u) "owner".

Definition apply_mutations (name : string) (authority_updates : list AuthorityKeyUpdate)
    (documents : list DocumentUpdate) (owner_policy : OwnerPolicyUpdate) (authority : CallAuthority)
    (guard : MutationGuard) : M ApplyMutationsResult :=
  let no_keys := match authority_updates with [] => true | _ => false end in
  let no_documents := match documents with [] => true | _ => false end in
  let floor := op_update_min_document_iat owner_policy in
  ensure_write_path "apply_mutations" ;;
  check (no_keys && no_documents && negb floor)
    (InvalidMutation "mutation batch must not be empty") ;;
  let* name := lift (canonical_bns_name name) in
  lift (validate_policy_update owner_policy) ;;
  lift (check_all (fun u => validate_key (aku_key u)) authority_updates) ;;
  lift (check_batch ∅ documents) ;;
  transact (
    let* now := now_timestamp in
    let* state := required_active_name name in
    check_guard state guard ;;
    (if negb no_keys || floor || existsb is_owner_document documents
     then authorize_owner_for_loaded state authority
     else forM (fun u => authorize_update_no_guard state (du_doc_type u) PERMISSION_PUBLISH_DOCUMENT
                           "publish_document" authority) documents) ;;
    (if no_keys then ret tt
     else apply_authority_updates name authority_updates now ;; ret tt) ;;
    (if negb no_documents || floor then
       let* state := required_active_name name in
       store_change now (fun s => s) state ;; ret tt
     else ret tt) ;;
    let* versions := mapM (publish_reported name now) documents in
    (if floor then
       set_min_document_iat_internal name (op_min_document_iat owner_policy)
         (op_reason_hash owner_policy) false now ;; ret tt
     else ret tt) ;;
    let* state := required_active_name name in
    let* set := authority_set name in
    ret (mkApplyMutationsResult (ns_name_seq state) versions set (ns_owner_policy_seq state))).

Definition rotate_authority_and_owner_document (name : string) (updates : list AuthorityKeyUpdate)
    (owner_document_update : DocumentUpdate) (authority : CallAuthority) (guard : MutationGuard)
  : M (AuthoritySetState * Z) :=
  ensure_write_path "rotate_authority_and_owner_document" ;;
  let* name := lift (canonical_bns_name name) in
  check (negb (is_owner_document owner_document_update))
    (InvalidMutation "rotateAuthorityAndOwnerDocument requires doc_type=owner") ;;
  lift (check_all (fun u => validate_key (aku_key u)) updates) ;;
  lift (validate_update owner_document_update) ;;
  transact (
    let* now := now_timestamp in
    let* state := required_active_name name in
    check_guard state guard ;;
    authorize_owner_for_loaded state authority ;;
    let* set := apply_authority_updates name updates now in
    let* version := publish_document_internal name owner_document_update true now in
    ret (set, version)).

Definition publish_document (name : string) (u : DocumentUpdate) (authority : CallAuthority)
    (guard : MutationGuard) : M Z :=
  ensure_write_path "publish_document" ;;
  let* name := lift (canonical_bns_name name) in
  lift (validate_update u) ;;
  transact (
    let* now := now_timestamp in
    let* state := required_active_name name in
    authorize_update state (du_doc_type u) PERMISSION_PUBLISH_DOCUMENT "publish_document" authority
      guard ;;
    publish_document_internal name u true now).

(** The version that records a revocation. *)
Definition revoked_document (name doc_type : string) (version previous now : Z) : DocumentState :=
  hashed (mkDocumentState name doc_type version previous DsRevoked
    (document_ref_new ZERO_HASH "" ZERO_HASH) unset_principal unset_principal "" now 0 now
    ZERO_HASH ZERO_HASH ZERO_HASH ZERO_HASH ZERO_HASH ZERO_HASH).

Definition revoke_document (name doc_type : string) (expected_version : Z) (reason_hash : string)
    (authority : CallAuthority) (guard : MutationGuard) : M (Z * Z) :=
  ensure_write_path "revoke_document" ;;
  let* name := lift (canonical_bns_name name) in
  let* doc_type := lift (canonical_doc_type doc_type) in
  lift (validate_hash reason_hash) ;;
  transact (
    let* now := now_timestamp in
    let* state := required_active_name name in
    authorize_update state doc_type PERMISSION_REVOKE_DOCUMENT "revoke_document" authority guard ;;
    let* current := get_current_document name doc_type in
    let actual_version := match current with Some d => ds_version d | None => 0 end in
    check (negb (actual_version =? expected_version))
      (StaleDocumentVersion name doc_type expected_version actual_version) ;;
    let* latest := get_latest_document name doc_type in
    let latest_version := match latest with Some d => ds_version d | None => 0 end in
    let new_version := u64_add latest_version 1 in
    put_document (revoked_document name doc_type new_version actual_version now) ;;
    let* state :=
      store_change now
        (fun s => if String.eqb doc_type "owner" then set_owner_document_version new_version s else s)
        state in
    append_event (DocumentRevoked name doc_type actual_version new_version reason_hash) now ;;
    ret (new_version, ns_name_seq state)).

Definition set_min_document_iat (name : string) (min_document_iat : Z) (reason_hash : string)
    (authority : CallAuthority) (guard : MutationGuard) : M (Z * Z) :=
  ensure_write_path "set_min_document_iat" ;;
  let* name := lift (canonical_bns_name name) in
  lift (validate_hash reason_hash) ;;
  transact (
    let* now := now_timestamp in
    let* state := required_active_name name in
    check_guard state guard ;;
    authorize_owner_for_loaded state authority ;;
    set_min_document_iat_internal name min_document_iat reason_hash true now).

Definition set_controller_policy (name : string) (rules : list ControllerRule) (policy_hash : string)
    (authority : CallAuthority) (guard : MutationGuard) : M Z :=
  ensure_write_path "set_controller_policy" ;;
  let* name := lift (canonical_bns_name name) in
  lift (validate_hash policy_hash) ;;
  lift (check_all validate_rule rules) ;;
  transact (
    let* now := now_timestamp in
    let* state := required_active_name name in
    check_guard state guard ;;
    authorize_owner_for_loaded state authority ;;
    check_rule_controllers rules ;;
    put_controller_policy name rules policy_hash ;;
    let* state := store_change now (fun s => s) state in
    append_event (ControllerPolicyUpdated name policy_hash (ns_name_seq state)) now ;;
    ret (ns_name_seq state)).

Definition set_did_alias (name target_did : string) (kind : AliasKind) (proof_hash : string)
    (authority : CallAuthority) (guard : MutationGuard) : M Z :=
  ensure_write_path "set_did_alias" ;;
  let* name := lift (canonical_bns_name name) in
  (if bool_decide (kind = AkNone) then ret tt else lift (validate_did target_did)) ;;
  lift (validate_hash proof_hash) ;;
  transact (
    let* now := now_timestamp in
    let* state := required_active_name name in
    authorize_update state "" PERMISSION_SET_ALIAS "set_alias" authority guard ;;
    let* state := store_change now (set_alias_hash proof_hash) state in
    put_alias (mkAliasState name kind target_did proof_hash now (ns_name_seq state)) ;;
    append_event (DidAliasSet name target_did kind proof_hash (ns_name_seq state)) now ;;
    ret (ns_name_seq state)).

Definition set_payment_target (name doc_type : string) (expected_version : Z)
    (payment_target : string) (beneficiary : Principal)
    (payment_policy_hash split_policy_hash price_policy_hash rights_policy_hash : string)
    (authority : CallAuthority) (guard : MutationGuard) : M Z :=
  ensure_write_path "set_payment_target" ;;
  let* name := lift (canonical_bns_name name) in
  let* doc_type := lift (canonical_doc_type doc_type) in
  lift (validate_principal beneficiary) ;;
  lift (validate_hash payment_policy_hash) ;;
  lift (validate_hash split_policy_hash) ;;
  lift (validate_hash price_policy_hash) ;;
  lift (validate_hash rights_policy_hash) ;;
  transact (
    let* now := now_timestamp in
    let* state := required_active_name name in
    authorize_update state doc_type PERMISSION_SET_PAYMENT "set_payment" authority guard ;;
    let* document := get_current_document name doc_type in
    let* document := ok_or document (DocumentNotFound name doc_type) in
    check (negb (ds_version document =? expected_version))
      (StaleDocumentVersion name doc_type expected_version (ds_version document)) ;;
    let document :=
      hashed (set_payment payment_target beneficiary payment_policy_hash split_policy_hash
                price_policy_hash rights_policy_hash document) in
    put_document document ;;
    store_change now (set_payment_hash payment_policy_hash) state ;;
    append_event (PaymentTargetUpdated name doc_type payment_target payment_policy_hash
      (ds_version document)) now ;;
    ret (ds_version document)).

Definition publish_log_checkpoint (issuer : Principal) (external_anchor : string) : M LogCheckpoint :=
  ensure_write_path "publish_log_checkpoint" ;;
  lift (validate_principal issuer) ;;
  lift (validate_hash external_anchor) ;;
  transact (
    let* latest := latest_event in
    let '(last_seq, log_root) :=
      match latest with Some r => (ev_seq r, ev_log_root r) | None => (0, ZERO_HASH) end in
    let* now := now_timestamp in
    let checkpoint := mkLogCheckpoint log_root last_seq now issuer external_anchor in
    put_checkpoint checkpoint ;;
    append_event (LogCheckpointPublished log_root last_seq now external_anchor) now ;;
    ret checkpoint).
End registry.
