(* ===== verification/BnsQueries.v ===== *)
(** * BNS: queries of the registry

    The read operations of [CentralizedBnsRegistry], with the check that what
    an inline document says of its owner and controllers agrees with the owner
    the registry resolves. *)

From S2P Require Import Prelude BnsModel BnsStore BnsRegistry.

(** ** What documents say of their owner *)

Definition json_get (field : string) (v : JsonValue) : option JsonValue :=
  match v with
  | JObject fields =>
      option_map snd (List.find (fun kv => String.eqb (fst kv) field) fields)
  | _ => None
  end.

Definition json_type_name (v : JsonValue) : string :=
  match v with
  | JNull => "null"
  | JBool _ => "bool"
  | JNumber => "number"
  | JString _ => "string"
  | JArray _ => "array"
  | JObject _ => "object"
  end.

Definition normalize_prefixed_evm_address (value : string) : option string :=
  match (match strip_prefix "0x" value with Some h => Some h | None => strip_prefix "0X" value end) with
  | Some hex =>
      if (String.length hex =? 40)%nat && string_forallb is_ascii_hexdigit hex
      then Some ("0x" +:+ to_ascii_lowercase hex)
      else None
  | None => None
  end.

Definition principals_match (left right : Principal) : bool :=
  bool_decide (pr_kind left = pr_kind right)
  && match pr_kind left with
     | PkUnset | PkBnsName => String.eqb (pr_value left) (pr_value right)
     | PkChainAccount =>
         let l := default (pr_value left) (normalize_prefixed_evm_address (pr_value left)) in
         let r := default (pr_value right) (normalize_prefixed_evm_address (pr_value right)) in
         String.eqb (to_ascii_lowercase l) (to_ascii_lowercase r)
     end.

Definition principal_display (p : Principal) : string :=
  match pr_kind p with
  | PkUnset => "unset"
  | PkChainAccount => pr_value p
  | PkBnsName => "did:bns:" +:+ pr_value p
  end.

(** The text of an error is of no consequence here; its kind is kept. *)
Definition described {A} (r : BnsResult A) (msg : string) : Result A :=
  match r with BOk a => Ok a | _ => Err msg end.

Definition principal_from_document_string (raw : string) : Result Principal :=
  let value := trim raw in
  if is_empty value then Err "principal is empty"
  else
    match strip_prefix "did:bns:" value with
    | Some name => described (bns_name name) "invalid BNS name"
    | None =>
        match normalize_prefixed_evm_address value with
        | Some account => Ok (chain_account account)
        | None =>
            described (bns_name value)
              "expected did:bns:<name>, a BNS name, a 0x-prefixed EVM address, or a Principal object"
        end
    end.

Definition canonicalize_document_principal (p : Principal) : Result Principal :=
  match pr_kind p with
  | PkUnset => let? _ := described (validate_principal p) "invalid principal" in Ok unset_principal
  | PkChainAccount =>
      let? _ := described (validate_principal p) "invalid principal" in
      Ok (chain_account (default (pr_value p) (normalize_prefixed_evm_address (pr_value p))))
  | PkBnsName => described (bns_name (pr_value p)) "invalid principal"
  end.

Record DocumentOwnerAssertion : Type := mkAssertion {
  da_document_label : string;
  da_field : string;
  da_principal : Principal
}.

Inductive DocumentAssertionSchema : Type := SchemaOwner | SchemaDid.

Definition document_assertion_schema (doc_type : string) : option DocumentAssertionSchema :=
  if String.eqb doc_type "owner" then Some SchemaOwner
  else if String.eqb doc_type "did" || String.eqb doc_type "doc" then Some SchemaDid
  else None.

Section queries.
Context `{BnsLibs} `{Clock}.

Definition principal_from_document_object (v : JsonValue) : Result Principal :=
  match principal_from_value v with
  | Some p => canonicalize_document_principal p
  | None => Err "it is not a Principal object"
  end.

Section assertions.
Context (label field : string).

Fixpoint collect_principal_assertion_value (v : JsonValue) : Result (list DocumentOwnerAssertion) :=
  match v with
  | JNull => Ok []
  | JArray items =>
      (fix go (items : list JsonValue) :=
         match items with
         | [] => Ok []
         | item :: items' =>
             let? a := collect_principal_assertion_value item in
             let? b := go items' in
             Ok (a ++ b)
         end) items
  | JString raw =>
      let? p := principal_from_document_string raw in
      Ok [mkAssertion label field p]
  | JObject _ =>
      let? p := principal_from_document_object v in
      Ok [mkAssertion label field p]
  | other => Err (label +:+ " declares " +:+ field +:+ " with unsupported JSON " +:+ json_type_name other)
  end.

Definition collect_principal_assertions (v : option JsonValue) : Result (list DocumentOwnerAssertion) :=
  match v with
  | None => Ok []
  | Some v => collect_principal_assertion_value v
  end.
End assertions.

Definition collect_did_verification_method_controllers (value : JsonValue)
  : Result (list DocumentOwnerAssertion) :=
  let controllers item :=
    collect_principal_assertions "DID document" "verificationMethod.controller"
      (json_get "controller" item) in
  match json_get "verificationMethod" value with
  | Some (JArray items) => let? parts := mapR controllers items in Ok (concat parts)
  | Some (JObject fields) => controllers (JObject fields)
  | _ => Ok []
  end.

Definition document_owner_assertions (doc_type : string) (d : DocumentState)
  : Result (list DocumentOwnerAssertion) :=
  match document_assertion_schema doc_type with
  | None => Ok []
  | Some schema =>
      if negb (String.eqb (dr_storage_type (ds_document d)) STORAGE_TYPE_INLINE)
         || is_empty (dr_inline_document (ds_document d))
      then Ok []
      else
        match json_from_slice (dr_inline_document (ds_document d)) with
        | Some (JObject fields) =>
            let value := JObject fields in
            match schema with
            | SchemaOwner =>
                let? a := collect_principal_assertions "owner document" "owner" (json_get "owner" value) in
                let? b :=
                  collect_principal_assertions "owner document" "controller" (json_get "controller" value) in
                Ok (a ++ b)
            | SchemaDid =>
                let? a :=
                  collect_principal_assertions "DID document" "controller" (json_get "controller" value) in
                let? b := collect_did_verification_method_controllers value in
                Ok (a ++ b)
            end
        | _ => Ok []
        end
  end.

Definition ensure_document_consistent (name doc_type : string) (d : DocumentState)
    (effective_owner : Principal) : BnsResult unit :=
  match document_owner_assertions doc_type d with
  | Err reason => BErr (DocumentInconsistent name doc_type reason)
  | Ok assertions =>
      check_all (fun a =>
        reject_if (negb (principals_match (da_principal a) effective_owner))
          (DocumentInconsistent name doc_type
             (da_document_label a +:+ " declares " +:+ da_field a +:+ " `"
              +:+ principal_display (da_principal a) +:+ "` but on-chain effective owner is `"
              +:+ principal_display effective_owner +:+ "`"))) assertions
  end.

(** ** Queries *)

Definition current_proof_root : M string :=
  let* latest := latest_event in
  ret (match latest with Some r => ev_log_root r | None => ZERO_HASH end).

Definition query_name_state (name : string) : M (option NameState) :=
  let* name := lift (canonical_bns_name name) in
  let* now := now_timestamp in
  transact (
    let* state := get_name name in
    match state with
    | None => ret None
    | Some s => let* s := materialize_name_state_at s now in ret (Some s)
    end).

Definition query_names_by_address (address : string) (cursor : option string) (limit : nat)
  : M BnsNamePage :=
  check ((limit =? 0)%nat || (MAX_BNS_NAMES_PAGE_SIZE <? limit)%nat)
    (InvalidLimit (Z.of_nat limit) (Z.of_nat MAX_BNS_NAMES_PAGE_SIZE)) ;;
  let* address :=
    ok_or (address_from_str (trim address)) (InvalidAddress address "not an address") in
  transact (
    let* names := list_names_by_asset_owner address cursor (S limit) in
    let has_more := (limit <? length names)%nat in
    let names := if has_more then take limit names else names in
    ret (mkBnsNamePage names (if has_more then last names else None))).

Definition resolve_owner (name : string) : M OwnerResolution :=
  let* name := lift (canonical_bns_name name) in
  let* now := now_timestamp in
  transact (
    let* state := get_name name in
    let* state := ok_or state (NameNotFound name) in
    let state := materialize_status_at state now in
    check (negb (bool_decide (ns_status state = NsActive))) (NameNotFound name) ;;
    resolve_owner_from_state_at state now).

Definition is_standard_transfer_enabled (name : string) : M bool :=
  let* state := query_name_state name in
  let* state := ok_or state (NameNotFound name) in
  ret (ns_standard_transfer_enabled state).

Definition query_authority_set (name : string) : M AuthoritySetState :=
  let* name := lift (canonical_bns_name name) in
  transact (authority_set name).

Definition query_authority_key (name kid : string) : M (option AuthorityKey) :=
  let* name := lift (canonical_bns_name name) in
  transact (get_authority_key name kid).

Definition resolve_document (name doc_type : string) : M ResolveResult :=
  let* name := lift (canonical_bns_name name) in
  let* doc_type := lift (canonical_doc_type doc_type) in
  let* now := now_timestamp in
  transact (
    let* raw := get_name name in
    let* raw := ok_or raw (NameNotFound name) in
    let* name_state := materialize_name_state_at raw now in
    let* owner := resolve_owner_from_state_at name_state now in
    let* alias := get_alias name in
    let* proof_root := current_proof_root in
    let* document := get_current_document name doc_type in
    let document_state := default (missing_document_state name doc_type) document in
    let effective_controller :=
      if bool_decide (ds_status document_state = DsMissing) || is_unset (ds_controller document_state)
      then or_effective_owner owner else ds_controller document_state in
    (if bool_decide (ds_status document_state = DsMissing) then ret tt
     else lift (ensure_document_consistent name doc_type document_state (or_effective_owner owner))) ;;
    ret (materialize_resolve_at
           (mkResolveResult name_state document_state owner effective_controller
              (ds_status document_state)
              (match alias with Some a => al_kind a | None => AkNone end)
              (match alias with Some a => al_target_did a | None => "" end) proof_root) now)).

Definition resolve_did (did doc_type : string) : M ResolveResult :=
  let* name := lift (name_from_did_bns did) in
  resolve_document name doc_type.

Definition get_document_version (name doc_type : string) (version : Z) : M (option DocumentState) :=
  let* name := lift (canonical_bns_name name) in
  let* doc_type := lift (canonical_doc_type doc_type) in
  transact (
    let* document := get_document name doc_type version in
    (match document with
     | None => ret tt
     | Some d =>
         let* owner := resolve_owner_for_name name in
         lift (ensure_document_consistent name doc_type d (or_effective_owner owner))
     end) ;;
    ret document).

Definition query_alias (name : string) : M (option AliasState) :=
  let* name := lift (canonical_bns_name name) in
  transact (get_alias name).

Definition get_purchase_context (name doc_type : string) : M PurchaseContext :=
  let* name := lift (canonical_bns_name name) in
  let* doc_type := lift (canonical_doc_type doc_type) in
  let* now := now_timestamp in
  transact (
    let* document := get_current_document name doc_type in
    let* d := ok_or document (DocumentNotFound name doc_type) in
    let* owner := resolve_owner_for_name name in
    lift (ensure_document_consistent name doc_type d (or_effective_owner owner)) ;;
    let* state := get_name name in
    let* state := ok_or state (NameNotFound name) in
    let name_status := effective_status_at state now in
    let status := document_effective_status_at d name_status now in
    let* proof_root := current_proof_root in
    ret (mkPurchaseContext name doc_type (ds_version d) (ds_beneficiary d) (ds_payment_target d)
           (ds_payment_policy_hash d) (ds_split_policy_hash d) (ds_price_policy_hash d)
           (ds_rights_policy_hash d) status proof_root)).

Definition resolve_payment_target (name doc_type : string) (version : Z) : M PaymentTargetResolution :=
  let* name := lift (canonical_bns_name name) in
  let* doc_type := lift (canonical_doc_type doc_type) in
  transact (
    let* document := get_document name doc_type version in
    let* d := ok_or document (DocumentNotFound name doc_type) in
    let* proof_root := current_proof_root in
    ret (mkPaymentTargetResolution (ds_beneficiary d) (ds_payment_target d)
           (ds_payment_policy_hash d) (ds_split_policy_hash d) (ds_price_policy_hash d)
           (ds_rights_policy_hash d) proof_root)).

Definition latest_checkpoint : M (option LogCheckpoint) := transact latest_checkpoint_tx.

Definition list_events (from_seq : Z) (limit : nat) : M (list EventLogRecord) :=
  transact (list_events_tx from_seq limit).
End queries.
