(* ===== verification/BnsRun.v ===== *)
(** * BNS: runs of the registry

    What a successful run of a computation of the registry consists of, and the
    computations that leave the tables as they are. *)

From S2P Require Import Prelude BnsModel BnsStore BnsRegistry BnsQueries.

(** ** Successful runs *)

Lemma bind_ok {A B} (m : M A) (k : A -> M B) s b s'' :
  bind m k s = (BOk b, s'') <-> exists a s', m s = (BOk a, s') /\ k a s' = (BOk b, s'').
Proof.
  unfold bind. destruct (m s) as [[a| |] s'].
  - split; [intros; by exists a, s'|]. by intros (a' & s1 & [= <- <-] & Hk).
  - split; [done|by intros (a' & s1 & ? & _)].
  - split; [done|by intros (a' & s1 & ? & _)].
Qed.

Lemma ret_ok {A} (a b : A) s s' : ret a s = (BOk b, s') <-> b = a /\ s' = s.
Proof. unfold ret. naive_solver. Qed.

Lemma lift_ok {A} (r : BnsResult A) a s s' : lift r s = (BOk a, s') <-> r = BOk a /\ s' = s.
Proof. unfold lift. naive_solver. Qed.

Lemma reject_if_ok b e u : reject_if b e = BOk u <-> b = false.
Proof. unfold reject_if. destruct b; [done|]. by destruct u. Qed.

Lemma check_ok b e s u s' : check b e s = (BOk u, s') <-> b = false /\ s' = s.
Proof. unfold check. by rewrite lift_ok, reject_if_ok. Qed.

Lemma ok_or_ok {A} (o : option A) e a s s' : ok_or o e s = (BOk a, s') <-> o = Some a /\ s' = s.
Proof. unfold ok_or, ret, fail. destruct o; naive_solver. Qed.

Lemma query_ok {A} (f : Db -> A) a s s' : query f s = (BOk a, s') <-> a = f (st_db s) /\ s' = s.
Proof. unfold query. naive_solver. Qed.

Lemma update_ok f u s s' :
  update f s = (BOk u, s') <-> s' = mkStore (f (st_db s)) (st_ticks s).
Proof. unfold update. destruct u. naive_solver. Qed.

Lemma fail_ok {A} e (a : A) s s' : fail e s = (BOk a, s') <-> False.
Proof. unfold fail. naive_solver. Qed.

Lemma transact_ok {A} (op : M A) a s s' : transact op s = (BOk a, s') <-> op s = (BOk a, s').
Proof. unfold transact. destruct (op s) as [[] ?]; naive_solver. Qed.

Lemma now_ok `{Clock} t s s' :
  now_timestamp s = (BOk t, s') <-> t = clock_at (st_ticks s) /\ s' = mkStore (st_db s) (S (st_ticks s)).
Proof. unfold now_timestamp. naive_solver. Qed.

Lemma seq_ok {A} (r1 : BnsResult A) {B} (r2 : BnsResult B) b :
  (r1 ;? r2)%bns = BOk b <-> (exists a, r1 = BOk a) /\ r2 = BOk b.
Proof. destruct r1; simpl; naive_solver. Qed.

Lemma bresult_bind_ok {A B} (m : BnsResult A) (k : A -> BnsResult B) b :
  bresult_bind m k = BOk b <-> exists a, m = BOk a /\ k a = BOk b.
Proof. destruct m; simpl; naive_solver. Qed.

Lemma canonical_bns_name_ok n n' : canonical_bns_name n = BOk n' -> n' = n.
Proof. unfold canonical_bns_name. rewrite !seq_ok. naive_solver. Qed.

Lemma canonical_doc_type_ok t t' : canonical_doc_type t = BOk t' -> t' = t.
Proof. unfold canonical_doc_type. rewrite !seq_ok. naive_solver. Qed.

Lemma to_i64_ok v f v' : to_i64 v f = BOk v' <-> v' = v /\ v < 2 ^ 63.
Proof. unfold to_i64. case_match; zbool; naive_solver lia. Qed.

(** Use the equation for the value of a step. *)
Ltac value_inv H :=
  match type of H with
  | ?b = _ => first [is_var b; subst b | injection H as H; subst | clear H]
  end.

(** Take a successful run apart, step by step. *)
Ltac run_inv :=
  repeat match goal with
  | H : bind _ _ _ = (BOk _, _) |- _ => apply bind_ok in H as (? & ? & ? & H)
  | H : ret _ _ = (BOk _, _) |- _ => apply ret_ok in H as [H ->]; value_inv H
  | H : lift _ _ = (BOk _, _) |- _ => apply lift_ok in H as [H ->]
  | H : check _ _ _ = (BOk _, _) |- _ => apply check_ok in H as [H ->]
  | H : ok_or _ _ _ = (BOk _, _) |- _ => apply ok_or_ok in H as [H ->]
  | H : query _ _ = (BOk _, _) |- _ => apply query_ok in H as [H ->]; value_inv H
  | H : update _ _ = (BOk _, _) |- _ => apply update_ok in H as ->
  | H : transact _ _ = (BOk _, _) |- _ => apply (proj1 (transact_ok _ _ _ _)) in H
  | H : now_timestamp _ = (BOk _, _) |- _ => apply now_ok in H as [H ->]; value_inv H
  | H : ensure_write_path _ _ _ = (BOk _, _) |- _ => unfold ensure_write_path in H
  | H : fail _ _ = (BOk _, _) |- _ => by apply fail_ok in H
  | H : canonical_bns_name ?n = BOk ?x |- _ =>
      tryif constr_eq n x then fail
      else let E := fresh in pose proof (canonical_bns_name_ok _ _ H) as E; subst x
  | H : canonical_doc_type ?n = BOk ?x |- _ =>
      tryif constr_eq n x then fail
      else let E := fresh in pose proof (canonical_doc_type_ok _ _ H) as E; subst x
  | x : unit |- _ => destruct x
  | H : to_i64 _ _ = BOk _ |- _ => apply to_i64_ok in H as [-> H]
  end; cbn [st_db] in *.

(** ** Computations that only read *)

Definition reads {A} (m : M A) : Prop := forall s, st_db (snd (m s)) = st_db s.

Lemma reads_run {A} (m : M A) s r s' : reads m -> m s = (r, s') -> st_db s' = st_db s.
Proof. intros Hm E. specialize (Hm s). by rewrite E in Hm. Qed.

Lemma reads_ret {A} (a : A) : reads (ret a).
Proof. done. Qed.
Lemma reads_fail {A} e : reads (@fail A e).
Proof. done. Qed.
Lemma reads_lift {A} (r : BnsResult A) : reads (lift r).
Proof. done. Qed.
Lemma reads_check b e : reads (check b e).
Proof. done. Qed.
Lemma reads_query {A} (f : Db -> A) : reads (query f).
Proof. done. Qed.
Lemma reads_ok_or {A} (o : option A) e : reads (ok_or o e).
Proof. by destruct o. Qed.
Lemma reads_now `{Clock} : reads now_timestamp.
Proof. done. Qed.
Lemma reads_bind {A B} (m : M A) (k : A -> M B) : reads m -> (forall a, reads (k a)) -> reads (bind m k).
Proof.
  intros Hm Hk s. specialize (Hm s). unfold bind. destruct (m s) as [[a| |] s']; simpl in *; [|done|done].
  by rewrite Hk.
Qed.
Lemma reads_transact {A} (m : M A) : reads m -> reads (transact m).
Proof. intros Hm s. specialize (Hm s). unfold transact. by destruct (m s) as [[] ?]. Qed.
Lemma reads_forM {A} (f : A -> M unit) l : (forall a, reads (f a)) -> reads (forM f l).
Proof. intros Hf. induction l; [done|]. by apply reads_bind. Qed.

Create HintDb reads.
#[export] Hint Resolve reads_ret reads_fail reads_lift reads_check reads_query reads_ok_or reads_now
  reads_bind reads_transact reads_forM : reads.
#[export] Hint Extern 2 (reads (if ?b then _ else _)) => destruct b : reads.
#[export] Hint Extern 2 (reads (match ?b with _ => _ end)) => destruct b : reads.
#[export] Hint Extern 1 (forall _, reads _) => intros ? : reads.

Section reads.
Context `{BnsLibs} `{Clock}.

Lemma reads_get_name n : reads (get_name n).
Proof. unfold get_name. auto with reads. Qed.
Lemma reads_list_names : reads list_names.
Proof. done. Qed.
Lemma reads_get_document n t v : reads (get_document n t v).
Proof. unfold get_document. auto 10 with reads. Qed.
Lemma reads_get_current_document n t : reads (get_current_document n t).
Proof. unfold get_current_document. auto 10 with reads. Qed.
Lemma reads_get_latest_document n t : reads (get_latest_document n t).
Proof. unfold get_latest_document. auto 10 with reads. Qed.
Lemma reads_get_authority_key n k : reads (get_authority_key n k).
Proof. unfold get_authority_key. auto 10 with reads. Qed.
Lemma reads_list_authority_keys n : reads (list_authority_keys n).
Proof. unfold list_authority_keys. auto 10 with reads. Qed.
Lemma reads_get_authority_set n : reads (get_authority_set n).
Proof. unfold get_authority_set. auto 10 with reads. Qed.
Lemma reads_get_controller_policy n : reads (get_controller_policy n).
Proof. unfold get_controller_policy. auto 10 with reads. Qed.
#[local] Hint Resolve reads_get_name reads_list_names reads_get_document reads_get_current_document
  reads_get_latest_document reads_get_authority_key reads_list_authority_keys reads_get_authority_set
  reads_get_controller_policy : reads.

Lemma reads_authority_set n : reads (authority_set n).
Proof. unfold authority_set. auto 10 with reads. Qed.
#[local] Hint Resolve reads_authority_set : reads.
Lemma reads_require_at n t : reads (require_active_authority_set_at n t).
Proof. unfold require_active_authority_set_at. auto 20 with reads. Qed.
#[local] Hint Resolve reads_require_at : reads.
Lemma reads_require n : reads (require_active_authority_set n).
Proof. unfold require_active_authority_set. auto 20 with reads. Qed.
#[local] Hint Resolve reads_require : reads.

Lemma reads_materialize_with r s t : (forall s' t', reads (r s' t')) -> reads (materialize_with r s t).
Proof. intros Hr. unfold materialize_with. auto 10 with reads. Qed.
#[local] Hint Resolve reads_materialize_with : reads.

Lemma reads_resolve_owner_fuel fuel s t : reads (resolve_owner_fuel fuel s t).
Proof.
  revert s t. induction fuel as [|fuel IH]; intros s t; [done|]. cbn [resolve_owner_fuel].
  destruct (bool_decide _); [auto 20 with reads|]. destruct (is_top_level_name _); [auto 20 with reads|].
  apply reads_bind; [auto with reads|intros p]. apply reads_bind; [auto with reads|intros o].
  apply reads_bind; [auto with reads|intros ps]. apply reads_bind; [|auto with reads].
  destruct (bool_decide _); [|apply IH].
  apply reads_bind; [by apply reads_materialize_with|intros q].
  apply reads_bind; [auto with reads|intros _; apply IH].
Qed.
Lemma reads_resolve_owner s t : reads (resolve_owner_from_state_at s t).
Proof. apply reads_resolve_owner_fuel. Qed.
#[local] Hint Resolve reads_resolve_owner : reads.
Lemma reads_materialize_at s t : reads (materialize_name_state_at s t).
Proof. unfold materialize_name_state_at. auto with reads. Qed.
#[local] Hint Resolve reads_materialize_at : reads.
Lemma reads_materialize s : reads (materialize_name_state s).
Proof. unfold materialize_name_state. auto with reads. Qed.
#[local] Hint Resolve reads_materialize : reads.
Lemma reads_resolve_owner_for_name n : reads (resolve_owner_for_name n).
Proof. unfold resolve_owner_for_name. auto 10 with reads. Qed.
#[local] Hint Resolve reads_resolve_owner_for_name : reads.
Lemma reads_required_raw_name n : reads (required_raw_name n).
Proof. unfold required_raw_name. auto 10 with reads. Qed.
#[local] Hint Resolve reads_required_raw_name : reads.
Lemma reads_ensure_active_name s : reads (ensure_active_name s).
Proof. unfold ensure_active_name. auto 10 with reads. Qed.
#[local] Hint Resolve reads_ensure_active_name : reads.
Lemma reads_required_active_name n : reads (required_active_name n).
Proof. unfold required_active_name. auto 10 with reads. Qed.
Lemma reads_validate_semantic_owner_target p : reads (validate_semantic_owner_target p).
Proof. unfold validate_semantic_owner_target. auto 10 with reads. Qed.
Lemma reads_name_is_authority_owner n : reads (name_is_authority_owner n).
Proof. unfold name_is_authority_owner. auto 10 with reads. Qed.

Lemma reads_owner_path_loop ns t rounds depth cur vis con :
  reads (owner_path_loop ns t rounds depth cur vis con).
Proof.
  revert depth cur vis con. induction rounds as [|rounds IH]; intros depth cur vis con; [done|].
  cbn [owner_path_loop]. auto 20 with reads.
Qed.
#[local] Hint Resolve reads_owner_path_loop : reads.
Lemma reads_validate_owner_graph_with c : reads (validate_owner_graph_with c).
Proof. unfold validate_owner_graph_with, validate_owner_path. auto 20 with reads. Qed.
Lemma reads_validate_actor_key p k t : reads (validate_actor_key p k t).
Proof. unfold validate_actor_key. auto 20 with reads. Qed.
#[local] Hint Resolve reads_validate_actor_key : reads.
Lemma reads_authorize_owner s a : reads (authorize_owner_for_loaded s a).
Proof. unfold authorize_owner_for_loaded. auto 20 with reads. Qed.
#[local] Hint Resolve reads_authorize_owner : reads.
Lemma reads_authorize_update_no_guard s t p o a : reads (authorize_update_no_guard s t p o a).
Proof. unfold authorize_update_no_guard. auto 20 with reads. Qed.
#[local] Hint Resolve reads_authorize_update_no_guard : reads.
Lemma reads_check_guard s g : reads (check_guard s g).
Proof. done. Qed.
#[local] Hint Resolve reads_check_guard : reads.
Lemma reads_authorize_update s t p o a g : reads (authorize_update s t p o a g).
Proof. unfold authorize_update. auto 20 with reads. Qed.
Lemma reads_check_rule_controllers rules : reads (check_rule_controllers rules).
Proof. unfold check_rule_controllers. auto 20 with reads. Qed.
End reads.

#[export] Hint Resolve reads_get_name reads_list_names reads_get_document reads_get_current_document
  reads_get_latest_document reads_get_authority_key reads_list_authority_keys reads_get_authority_set
  reads_get_controller_policy reads_authority_set reads_require_at reads_require reads_resolve_owner
  reads_materialize_at reads_materialize reads_resolve_owner_for_name reads_required_raw_name
  reads_ensure_active_name reads_required_active_name reads_validate_semantic_owner_target
  reads_name_is_authority_owner reads_validate_owner_graph_with reads_validate_actor_key
  reads_authorize_owner reads_authorize_update_no_guard reads_check_guard reads_authorize_update
  reads_check_rule_controllers : reads.

(** The tables after a step that only reads are those before it. *)
Ltac reads_inv :=
  repeat match goal with
  | H : ?m ?s = (BOk _, ?s') |- _ =>
      lazymatch goal with
      | _ : st_db s' = _ |- _ => fail
      | _ => assert (st_db s' = st_db s) by (eapply reads_run; [|exact H]; auto with reads)
      end
  end;
  cbn [st_db] in *;
  repeat match goal with
  | E1 : st_db ?x = _, E2 : context [st_db ?x] |- _ => rewrite E1 in E2
  | E1 : st_db ?x = _ |- context [st_db ?x] => rewrite E1
  end.

(** ** Parents *)

Lemma split_dot_spec n :
  match split_once "." n with
  | Some (l, p) => string_contains char_dot n = true /\ (String.length p < String.length n)%nat
  | None => string_contains char_dot n = false
  end.
Proof.
  induction n as [|a n IH]; [done|]. cbn [split_once string_contains String.length].
  destruct (Ascii.eqb a char_dot) eqn:Ea.
  - apply Ascii.eqb_eq in Ea as ->. change (strip_prefix "." (String char_dot n)) with (Some n).
    split; [done|lia].
  - assert (E : strip_prefix "." (String a n) = None).
    { change (strip_prefix "." (String a n)) with (if Ascii.eqb char_dot a then Some n else None).
      by rewrite Ascii.eqb_sym, Ea. }
    rewrite E. cbn [orb]. destruct (split_once "." n) as [[l p]|]; cbn [option_map]; [|done]. split; [tauto|lia].
Qed.

(** A name has a parent exactly if it is not a first-level name, and a parent is shorter. *)
Lemma parent_name_spec n :
  match parent_name n with
  | Some p => is_top_level_name n = false /\ (String.length p < String.length n)%nat
  | None => is_top_level_name n = true
  end.
Proof.
  unfold parent_name, is_top_level_name. pose proof (split_dot_spec n) as Hs.
  destruct (split_once "." n) as [[l p]|]; cbn [option_map snd]; [|by rewrite Hs].
  destruct Hs as [-> ?]. done.
Qed.
