(* ===== verification/BnsSteps.v ===== *)
(** * BNS: the steps of the registry

    Every mutation of the registry is a sequence of steps on the tables of one
    name.  The steps say what may happen to a name, its documents, its keys and
    the event log; the invariants of the registry are proved step by step. *)

From S2P Require Import Prelude BnsModel BnsStore BnsRegistry BnsQueries BnsRun.

(** ** Steps *)

Definition i64_bound : Z := 2 ^ 63.

(** What no mutation of a registered name changes. *)
Definition name_meta (s : NameState) : string * Z * Z * bool * bool :=
  (ns_name s, ns_registered_at s, ns_lineage_epoch s, ns_renewable s, ns_transferable s).

(** A name that can still change without a new registration. *)
Definition open_name (s : NameState) : Prop :=
  ns_status s <> NsReleased /\ ns_status s <> NsTombstoned.

Definition valid_row (s : NameState) : Prop :=
  validate_name_state s = BOk tt /\ ns_name_seq s < i64_bound.

Record name_step (old new : NameState) : Prop := {
  nst_meta : name_meta new = name_meta old;
  nst_open : open_name old;
  nst_seq : ns_name_seq new = ns_name_seq old \/ ns_name_seq new = u64_add (ns_name_seq old) 1;
  nst_iat : ns_min_document_iat old <= ns_min_document_iat new
}.

(** A registration, the first one of the name or one after its release. *)
Record register_step (names : gmap string NameState) (n : string) (new : NameState) : Prop := {
  rst_name : ns_name new = n;
  rst_free : taken (names !! n) = false;
  rst_seq : ns_name_seq new = match names !! n with Some s => u64_add (ns_name_seq s) 1 | None => 1 end;
  rst_lineage :
    ns_lineage_epoch new = match names !! n with Some s => u64_add (ns_lineage_epoch s) 1 | None => 0 end;
  rst_depth : (length (split_on char_dot n) <= 2)%nat;
  rst_parent : forall p, parent_name n = Some p -> is_Some (names !! p)
}.

(** A document up to the fields of its payment. *)
Definition without_payment (d : DocumentState) : DocumentState :=
  set_state_hash "" (set_payment "" unset_principal "" "" "" "" d).

Definition latest_version (rows : list DocRow) : Z :=
  match latest_row rows with Some r => row_version r | None => 0 end.

Definition current_document (d : Db) (n t : string) : option DocumentState :=
  dw_state <$> latest_row (List.filter dw_current (doc_rows n t d)).

Definition keys_of (d : Db) (n : string) : gmap string AuthorityKey := default ∅ (db_keys d !! n).

Definition sorted_keys (ks : gmap string AuthorityKey) : list AuthorityKey :=
  stable_sort by_kid (snd <$> map_to_list ks).

Section steps.
Context `{BnsLibs}.

Definition store_document (s : DocumentState) (d : Db) : Db :=
  with_documents <[(ds_name s, ds_doc_type s) := put_row s (doc_rows (ds_name s) (ds_doc_type s) d)]> d.

Definition valid_document (s : DocumentState) : Prop :=
  validate_document s = BOk tt /\ ds_version s < i64_bound
  /\ ds_document_state_hash s = document_state_hash s.

Inductive bns_step (n : string) (d : Db) : Db -> Prop :=
| step_update old new :
    db_names d !! n = Some old -> name_step old new -> valid_row new ->
    bns_step n d (with_names <[n := new]> d)
| step_register new :
    register_step (db_names d) n new -> valid_row new ->
    bns_step n d (with_names <[n := new]> d)
| step_reset old :
    db_names d !! n = Some old -> taken (Some old) = false ->
    bns_step n d
      (with_aliases (delete n) (with_policies (delete n) (with_sets (delete n)
         (with_keys (delete n) (with_documents (clear_documents n) d)))))
| step_publish s :
    ds_name s = n -> valid_document s ->
    ds_version s = u64_add (latest_version (doc_rows n (ds_doc_type s) d)) 1 ->
    bns_step n d (store_document s d)
| step_payment s old :
    ds_name s = n -> valid_document s ->
    current_document d n (ds_doc_type s) = Some old -> without_payment s = without_payment old ->
    bns_step n d (store_document s d)
| step_authority ks set t :
    as_name set = n ->
    (forall m, m <> n -> ks !! m = db_keys d !! m) ->
    (forall k v, default ∅ (ks !! n) !! k = Some v -> ak_kid v = k) ->
    (as_root set, as_active_key_count set) = authority_root (sorted_keys (default ∅ (ks !! n))) t ->
    as_seq set = match db_sets d !! n with Some s => u64_add (as_seq s) 1 | None => 1 end ->
    bns_step n d (with_sets <[n := set]> (with_keys (fun _ => ks) d))
| step_policy rules h :
    check_all validate_rule rules = BOk tt ->
    bns_step n d (with_policies <[n := (rules, h)]> d)
| step_alias a :
    al_name a = n -> bns_step n d (with_aliases <[n := a]> d)
| step_event e t :
    ev_seq (next_record (last (db_events d)) e t) < i64_bound ->
    bns_step n d (with_events (upsert ev_seq (next_record (last (db_events d)) e t)) d)
| step_checkpoint c :
    (lc_last_seq c, lc_log_root c)
      = match last (db_events d) with Some r => (ev_seq r, ev_log_root r) | None => (0, ZERO_HASH) end ->
    bns_step n d (with_checkpoints (upsert lc_last_seq c) d).
End steps.

(** ** Materialized states *)

(** A state without the fields that are recomputed when it is read. *)
Definition core (s : NameState) : NameState :=
  set_ownership unset_principal OsNone false (set_ns_status NsActive s).

Lemma core_set_ownership e src b s : core (set_ownership e src b s) = core s.
Proof. by destruct s. Qed.
Lemma core_set_ns_status v s : core (set_ns_status v s) = core s.
Proof. by destruct s. Qed.
Lemma core_set_std_transfer v s : core (set_std_transfer v s) = core s.
Proof. by destruct s. Qed.
Lemma core_materialize_status s t : core (materialize_status_at s t) = core s.
Proof.
  unfold materialize_status_at. case_match; by rewrite ?core_set_std_transfer, core_set_ns_status.
Qed.
Lemma core_eq s s' : core s = core s' ->
  name_meta s = name_meta s' /\ ns_name_seq s = ns_name_seq s'
  /\ ns_min_document_iat s = ns_min_document_iat s' /\ ns_semantic_owner s = ns_semantic_owner s'
  /\ ns_asset_owner s = ns_asset_owner s' /\ ns_expire_at s = ns_expire_at s'
  /\ ns_grace_until s = ns_grace_until s'.
Proof. destruct s, s'. unfold core, name_meta. simpl. by intros [= -> -> -> -> -> -> -> -> -> -> -> -> -> -> -> -> ->]. Qed.

Lemma ns_status_materialize s t : ns_status (materialize_status_at s t) = effective_status_at s t.
Proof. unfold materialize_status_at. destruct s. simpl. by case_match. Qed.

Lemma effective_active s t : effective_status_at s t = NsActive -> ns_status s = NsActive.
Proof. unfold effective_status_at. by case_match. Qed.

(** The status of a state that was materialized at [t], at [t] again. *)
Lemma effective_again s s' t :
  core s' = core s -> ns_status s' = effective_status_at s t ->
  effective_status_at s' t = effective_status_at s t.
Proof.
  intros (_ & _ & _ & _ & _ & He & _)%core_eq Hst. unfold effective_status_at at 1. rewrite Hst, He.
  unfold effective_status_at. destruct (ns_status s) eqn:Es; simpl; try done.
  destruct (negb (ns_expire_at s =? 0) && (ns_expire_at s <=? t)) eqn:Ex; simpl; [done|]. by rewrite Ex.
Qed.

Section materialize.
Context `{BnsLibs} `{Clock}.

Lemma materialize_at_ok s t st st' s' :
  materialize_name_state_at s t st = (BOk s', st') ->
  st_db st' = st_db st /\ core s' = core s /\ ns_status s' = effective_status_at s t.
Proof.
  intros Hm. assert (E : st_db st' = st_db st) by (eapply reads_run; [|done]; auto with reads).
  split; [done|]. unfold materialize_name_state_at, materialize_with in Hm. run_inv.
  rewrite core_set_ownership, core_materialize_status. split; [done|].
  transitivity (ns_status (materialize_status_at s t)); [by destruct (materialize_status_at s t)|].
  apply ns_status_materialize.
Qed.

Lemma materialize_ok s st st' s' :
  materialize_name_state s st = (BOk s', st') ->
  st_db st' = st_db st /\ core s' = core s /\ exists t, ns_status s' = effective_status_at s t.
Proof. unfold materialize_name_state. intros Hm. run_inv. apply materialize_at_ok in Hm. naive_solver. Qed.

(** A name row holds the name it is stored under. *)
Definition rows_keyed (d : Db) : Prop := forall k s, db_names d !! k = Some s -> ns_name s = k.

Lemma required_active_ok n s st st' :
  required_active_name n st = (BOk s, st') ->
  st_db st' = st_db st /\ exists raw,
    db_names (st_db st) !! n = Some raw
    /\ effective_status_at raw (clock_at (st_ticks st)) = NsActive /\ core s = core raw
    /\ (ns_status s = NsActive \/ ns_status s = NsExpired).
Proof.
  intros Hm. assert (E : st_db st' = st_db st) by (eapply reads_run; [|done]; auto with reads).
  split; [done|]. unfold required_active_name, required_raw_name, get_name, ensure_active_name in Hm. run_inv.
  apply materialize_ok in Hm as (_ & Hcore & t & Hst).
  match goal with Hs : negb _ = false |- _ =>
    apply negb_false_iff in Hs; apply bool_decide_eq_true in Hs; rename Hs into Hact end.
  exists x. split_and!; try done.
  rewrite Hst. unfold effective_status_at. rewrite (effective_active _ _ Hact).
  case_match; [by right|by left].
Qed.
End materialize.

(** ** Runs of the operations on the tables *)

(** A table of keys is indexed by their ids. *)
Definition kids_match (ks : gmap string AuthorityKey) : Prop :=
  forall k v, ks !! k = Some v -> ak_kid v = k.

Definition keys_keyed (d : Db) : Prop := forall n, kids_match (keys_of d n).

(** Documents are stored under their names and types. *)
Definition docs_keyed (d : Db) : Prop := forall k rows r,
  db_documents d !! k = Some rows -> r ∈ rows ->
  (ds_name (dw_state r), ds_doc_type (dw_state r)) = k.

Definition keyed (d : Db) : Prop := rows_keyed d /\ keys_keyed d /\ docs_keyed d.

Lemma upsert_elem {R} (key : R -> Z) r l x : x ∈ upsert key r l -> x = r \/ x ∈ l.
Proof.
  induction l as [|y l IH]; simpl; [set_solver|]. repeat case_match; set_solver.
Qed.

Lemma put_row_elem s rows r :
  r ∈ put_row s rows -> dw_state r = s \/ exists r0, r0 ∈ rows /\ dw_state r = dw_state r0.
Proof.
  unfold put_row. set (cur := _ <=? _). intros [-> | Hr]%upsert_elem; [by left|right].
  destruct cur; [|by exists r]. apply list_elem_of_In, in_map_iff in Hr as (r0 & <- & Hr0%list_elem_of_In).
  by exists r0.
Qed.

(** Rebuilding a table from the list of its rows, in the order of any sort. *)
Section rebuild.
Context {A : Type} (key : A -> string) (le : A -> A -> bool).

Lemma fold_insert_rows l (m : gmap string A) :
  fold_left (fun m x => <[key x := x]> m) l m = list_to_map (reverse ((fun x => (key x, x)) <$> l)) ∪ m.
Proof.
  revert m. induction l as [|k l IH]; intros m; [symmetry; apply (left_id_L ∅ (∪))|].
  cbn [fold_left]. rewrite IH. rewrite fmap_cons, reverse_cons, list_to_map_app, <- (assoc_L (∪)).
  f_equal. by rewrite insert_union_singleton_l.
Qed.

Lemma sorted_rows_pairs (m : gmap string A) :
  (forall k x, m !! k = Some x -> key x = k) ->
  ((fun x => (key x, x)) <$> stable_sort le (snd <$> map_to_list m)) ≡ₚ map_to_list m.
Proof.
  intros Hk. rewrite stable_sort_Permutation.
  assert (E : (fun x => (key x, x)) <$> (snd <$> map_to_list m) = map_to_list m); [|by rewrite E].
  rewrite <- list_fmap_compose. rewrite <- (list_fmap_id (map_to_list m)) at 2.
  apply list_fmap_ext. intros i [k v] Hi. apply list_elem_of_lookup_2, elem_of_map_to_list in Hi. simpl.
  by rewrite (Hk k v Hi).
Qed.

Lemma fold_sorted_rows m (m' : gmap string A) :
  (forall k x, m !! k = Some x -> key x = k) ->
  fold_left (fun m x => <[key x := x]> m) (stable_sort le (snd <$> map_to_list m)) m' = m ∪ m'.
Proof.
  intros Hk. rewrite fold_insert_rows. f_equal. rewrite <- (list_to_map_to_list m) at 2.
  apply list_to_map_proper.
  - rewrite reverse_Permutation, (sorted_rows_pairs _ Hk). apply NoDup_fst_map_to_list.
  - by rewrite reverse_Permutation, (sorted_rows_pairs _ Hk).
Qed.
End rebuild.

Lemma fold_sorted_keys ks (m : gmap string AuthorityKey) :
  kids_match ks -> fold_left (fun m k => <[ak_kid k := k]> m) (sorted_keys ks) m = ks ∪ m.
Proof. apply fold_sorted_rows. Qed.

Lemma apply_key_update_keyed ks u :
  kids_match ks -> kids_match (apply_key_update ks u) /\ dom ks ⊆ dom (apply_key_update ks u).
Proof.
  intros Hk. unfold apply_key_update. destruct (aku_active u).
  - set (key := if bool_decide _ then _ else _). split.
    + intros k v [[<- <-]|[? ?]]%lookup_insert_Some; [done|by apply Hk].
    + rewrite dom_insert_L. set_solver.
  - set (key := default (aku_key u) (ks !! ak_kid (aku_key u))).
    assert (E : ak_kid (set_key_status KsRevoked key) = ak_kid (aku_key u)).
    { cbn [set_key_status ak_kid]. subst key. destruct (ks !! _) eqn:E; simpl; [by apply Hk in E|done]. }
    rewrite E, insert_delete_eq. split.
    + intros k v [[<- <-]|[? ?]]%lookup_insert_Some; [done|by apply Hk].
    + rewrite dom_insert_L. set_solver.
Qed.

Lemma apply_key_updates_keyed us ks :
  kids_match ks ->
  kids_match (fold_left apply_key_update us ks) /\ dom ks ⊆ dom (fold_left apply_key_update us ks).
Proof.
  revert ks. induction us as [|u us IH]; intros ks Hk; [done|]. cbn [fold_left].
  destruct (apply_key_update_keyed ks u Hk) as [Hk' Hd]. destruct (IH _ Hk') as [? ?].
  split; [done|]. set_solver.
Qed.

Lemma put_keys_ok `{BnsLibs} n keys s s' :
  forM (put_authority_key n) keys s = (BOk tt, s') ->
  exists ks, st_db s' = with_keys (fun _ => ks) (st_db s)
    /\ (forall m, m <> n -> ks !! m = db_keys (st_db s) !! m)
    /\ default ∅ (ks !! n) = fold_left (fun m k => <[ak_kid k := k]> m) keys (keys_of (st_db s) n).
Proof.
  revert s. induction keys as [|k keys IH]; intros s Hr; cbn [forM] in Hr.
  - run_inv. exists (db_keys (st_db s)). split_and!; [by destruct (st_db s)|done|done].
  - unfold put_authority_key in Hr. run_inv.
    destruct (IH _ Hr) as (ks & E & Hm & Hn). cbn [st_db] in *. exists ks.
    split; [by rewrite E|]. split.
    + intros m Hne. rewrite (Hm m Hne). simpl. by rewrite lookup_insert_ne.
    + rewrite Hn. cbn [fold_left]. f_equal. unfold keys_of. simpl. by rewrite lookup_insert_eq.
Qed.

Lemma put_name_ok new s u s' :
  put_name new s = (BOk u, s') ->
  valid_row new /\ st_db s' = with_names <[ns_name new := new]> (st_db s).
Proof. unfold put_name. intros Hp. by run_inv. Qed.

Section runs.
Context `{BnsLibs} `{Clock}.

Lemma put_document_ok d s u s' :
  put_document d s = (BOk u, s') ->
  validate_document d = BOk tt /\ ds_version d < i64_bound /\ st_db s' = store_document d (st_db s).
Proof. unfold put_document. intros Hp. by run_inv. Qed.

Lemma append_event_ok n e t s r s' :
  append_event e t s = (BOk r, s') ->
  bns_step n (st_db s) (st_db s') /\ db_names (st_db s') = db_names (st_db s).
Proof.
  unfold append_event, latest_event. intros Hp. run_inv. split; [|done]. by apply step_event.
Qed.

Lemma step_of_update n old new s u s' :
  db_names (st_db s) !! n = Some old -> ns_name old = n -> name_step old new ->
  put_name new s = (BOk u, s') ->
  bns_step n (st_db s) (st_db s') /\ db_names (st_db s') !! n = Some new.
Proof.
  intros Ho Hn Hs [Hv E]%put_name_ok. assert (E' : ns_name new = n).
  { pose proof (nst_meta _ _ Hs) as Hm. injection Hm as Hm _ _ _ _. congruence. }
  rewrite E, E'. split; [by eapply step_update|]. simpl. by rewrite lookup_insert_eq.
Qed.
End runs.

(** ** The steps of the internal mutations *)

Section internal.
Context `{BnsLibs} `{Clock}.

Definition bns_steps (n : string) : Db -> Db -> Prop := rtc (bns_step n).

Lemma name_step_keyed n d old new :
  rows_keyed d -> db_names d !! n = Some old -> name_step old new -> ns_name new = n.
Proof.
  intros Hd Ho Hs. pose proof (nst_meta _ _ Hs) as Hm. injection Hm as Hm _ _ _ _.
  by rewrite Hm, (Hd _ _ Ho).
Qed.

Lemma store_document_keyed s d : docs_keyed d -> docs_keyed (store_document s d).
Proof.
  intros Hd k rows r. unfold store_document. simpl. intros [[<- <-]|[_ Hl]]%lookup_insert_Some Hr.
  - apply put_row_elem in Hr as [-> | (r0 & Hr0 & ->)]; [done|]. unfold doc_rows in Hr0.
    destruct (db_documents d !! _) eqn:E; [|set_solver]. by eapply Hd.
  - by eapply Hd.
Qed.

Lemma clear_documents_keyed n d : docs_keyed d -> docs_keyed (with_documents (clear_documents n) d).
Proof.
  intros Hd k rows r. simpl. unfold clear_documents. rewrite map_lookup_imap.
  destruct (db_documents d !! k) as [rows0|] eqn:E; simpl; [|done]. intros [= <-].
  destruct (String.eqb _ _); [|by eapply Hd].
  intros (r0 & <- & Hr0%list_elem_of_In)%list_elem_of_In%in_map_iff. by eapply (Hd _ _ r0).
Qed.

Lemma step_keyed n d d' : bns_step n d d' -> keyed d -> keyed d'.
Proof.
  intros Hs (Hr & Hk & Hdoc).
  assert (Hput : forall new, ns_name new = n -> rows_keyed (with_names <[n := new]> d)).
  { intros new Hn k s. simpl. intros [[<- <-]|[_ Hl]]%lookup_insert_Some; [done|by apply Hr in Hl]. }
  destruct Hs as [old new Ho Hst _|new Hst _|old _ _|s _ _ _|s old _ _ _ _|ks set t _ Hm Hkk _ _
                 |rules h _|a _|e t _|c _]; split_and!; try exact Hr; try exact Hk; try exact Hdoc.
  - apply Hput. by eapply name_step_keyed.
  - apply Hput, (rst_name _ _ _ Hst).
  - intros m k v. unfold keys_of. simpl. destruct (decide (m = n)) as [->|Hne].
    + by rewrite lookup_delete_eq.
    + rewrite lookup_delete_ne by done. apply Hk.
  - by apply clear_documents_keyed.
  - by apply store_document_keyed.
  - by apply store_document_keyed.
  - intros m k v. unfold keys_of. simpl. destruct (decide (m = n)) as [->|Hne]; [by apply Hkk|].
    rewrite Hm by done. apply Hk.
Qed.

Lemma steps_keyed n d d' : bns_steps n d d' -> keyed d -> keyed d'.
Proof. induction 1 as [|? ? ? Hs _ IH]; [done|]. intros Hk. by apply IH, (step_keyed _ _ _ Hs). Qed.

(** A change that keeps what a [name_step] is about. *)
Definition keeps (f : NameState -> NameState) : Prop := forall s,
  name_meta (f s) = name_meta s /\ ns_name_seq (f s) = ns_name_seq s
  /\ ns_min_document_iat (f s) = ns_min_document_iat s.

Lemma bump_fields t s :
  name_meta (bump t s) = name_meta s /\ ns_name_seq (bump t s) = u64_add (ns_name_seq s) 1
  /\ ns_min_document_iat (bump t s) = ns_min_document_iat s.
Proof. by destruct s. Qed.

(** The raw row [raw] read as [state], changed by [f], bumped and materialized. *)
Lemma bumped_step raw state f t new :
  core state = core raw -> open_name raw -> keeps f -> core new = core (bump t (f state)) ->
  name_step raw new /\ ns_name_seq new = u64_add (ns_name_seq raw) 1.
Proof.
  intros Hc Ho Hf Hn. apply core_eq in Hc as (Hm & Hq & Hi & _). apply core_eq in Hn as (Hm' & Hq' & Hi' & _).
  destruct (Hf state) as (Fm & Fq & Fi). destruct (bump_fields t (f state)) as (Bm & Bq & Bi).
  assert (E : ns_name_seq new = u64_add (ns_name_seq raw) 1) by (rewrite Hq', Bq, Fq, Hq; done).
  split; [|done]. split; [congruence|done|by right|]. rewrite Hi', Bi, Fi, Hi. lia.
Qed.

Lemma active_open raw t : effective_status_at raw t = NsActive -> open_name raw.
Proof. intros E%effective_active. split; by rewrite E. Qed.

Lemma store_change_step n t f state raw s s' new :
  keyed (st_db s) -> db_names (st_db s) !! n = Some raw -> core state = core raw -> open_name raw ->
  keeps f -> store_change t f state s = (BOk new, s') ->
  bns_step n (st_db s) (st_db s') /\ db_names (st_db s') !! n = Some new
  /\ ns_name_seq new = u64_add (ns_name_seq raw) 1.
Proof.
  intros (Hk & _) Hraw Hc Ho Hf Hr. unfold store_change in Hr. run_inv.
  match goal with Hm : materialize_name_state _ _ = _ |- _ => apply materialize_ok in Hm as (E & Hcn & _) end.
  destruct (bumped_step raw state f t _ Hc Ho Hf Hcn) as [Hst Hq].
  rewrite <- E in Hraw. rewrite <- E.
  edestruct step_of_update as [? ?]; [exact Hraw|by apply Hk; rewrite E in Hraw|exact Hst|eassumption|done].
Qed.

Lemma store_owner_change_step n t f state raw s s' new :
  keyed (st_db s) -> db_names (st_db s) !! n = Some raw -> core state = core raw -> open_name raw ->
  keeps f -> store_owner_change (bump t (f state)) s = (BOk new, s') ->
  bns_step n (st_db s) (st_db s') /\ db_names (st_db s') !! n = Some new
  /\ ns_name_seq new = u64_add (ns_name_seq raw) 1.
Proof.
  intros Hk Hraw Hc Ho Hf Hr. unfold store_owner_change in Hr. apply bind_ok in Hr as (u & s1 & Hg & Hr).
  assert (E : st_db s1 = st_db s) by (eapply reads_run; [|exact Hg]; auto with reads).
  rewrite <- E in Hk, Hraw |- *. eapply store_change_step; [done..|]. exact Hr.
Qed.

Lemma get_latest_ok n t s o s' :
  get_latest_document n t s = (BOk o, s') ->
  s' = s /\ match o with Some d => ds_version d | None => 0 end = latest_version (doc_rows n t (st_db s)).
Proof.
  unfold get_latest_document. intros Hr. run_inv. split; [done|]. unfold latest_version.
  by destruct (latest_row _).
Qed.

Lemma hashed_hash d : ds_document_state_hash (hashed d) = document_state_hash (hashed d).
Proof. unfold hashed, document_state_hash. by destruct d. Qed.

Lemma hashed_fields d :
  ds_name (hashed d) = ds_name d /\ ds_doc_type (hashed d) = ds_doc_type d
  /\ ds_version (hashed d) = ds_version d.
Proof. unfold hashed. by destruct d. Qed.

(** A version above the latest one is a step. *)
Lemma publish_step n d s u s' :
  ds_name d = n -> ds_version d = u64_add (latest_version (doc_rows n (ds_doc_type d) (st_db s))) 1 ->
  put_document (hashed d) s = (BOk u, s') ->
  bns_step n (st_db s) (st_db s') /\ db_names (st_db s') = db_names (st_db s).
Proof.
  intros Hn Hv (Hd & Hb & E)%put_document_ok. destruct (hashed_fields d) as (E1 & E2 & E3).
  rewrite E. split; [|done]. apply step_publish; [congruence| |by rewrite E2, E3].
  split_and!; [done|done|apply hashed_hash].
Qed.

Lemma with_published_step raw state d b t new :
  core state = core raw -> open_name raw -> core new = core (with_published d b t state) ->
  name_step raw new.
Proof.
  intros Hc Ho Hn. apply core_eq in Hc as (Hm & Hq & Hi & _). apply core_eq in Hn as (Hm' & Hq' & Hi' & _).
  assert (F : name_meta (with_published d b t state) = name_meta state
    /\ (ns_name_seq (with_published d b t state) = ns_name_seq state
        \/ ns_name_seq (with_published d b t state) = u64_add (ns_name_seq state) 1)
    /\ ns_min_document_iat (with_published d b t state) = ns_min_document_iat state).
  { unfold with_published. destruct state, b, (String.eqb _ _); simpl; auto. }
  destruct F as (Fm & Fq & Fi). split; [congruence|done|rewrite Hq', <- Hq; exact Fq|].
  rewrite Hi', Fi, Hi. lia.
Qed.

Lemma with_iat_floor_step raw state iat b t new :
  core state = core raw -> open_name raw -> ns_min_document_iat state <= iat ->
  core new = core (with_iat_floor iat b t state) -> name_step raw new.
Proof.
  intros Hc Ho Hiat Hn. apply core_eq in Hc as (Hm & Hq & Hi & _). apply core_eq in Hn as (Hm' & Hq' & Hi' & _).
  assert (F : name_meta (with_iat_floor iat b t state) = name_meta state
    /\ (ns_name_seq (with_iat_floor iat b t state) = ns_name_seq state
        \/ ns_name_seq (with_iat_floor iat b t state) = u64_add (ns_name_seq state) 1)
    /\ ns_min_document_iat (with_iat_floor iat b t state) = iat).
  { unfold with_iat_floor. destruct state, b; simpl; auto. }
  destruct F as (Fm & Fq & Fi). split; [congruence|done|rewrite Hq', <- Hq; exact Fq|].
  rewrite Hi', Fi, <- Hi. lia.
Qed.

(** Read an active name, change it by [f], materialize, store and log it. *)
Lemma read_change_log n f e t s1 state s2 new s3 s4 r s5 u :
  keyed (st_db s1) -> required_active_name n s1 = (BOk state, s2) ->
  materialize_name_state (f state) s2 = (BOk new, s3) -> put_name new s3 = (BOk u, s4) ->
  append_event e t s4 = (BOk r, s5) ->
  (forall raw, core state = core raw -> open_name raw -> core new = core (f state) -> name_step raw new) ->
  bns_steps n (st_db s1) (st_db s5).
Proof.
  intros (Hk & _) (E2 & raw & Hraw & Hact & Hcore & _)%required_active_ok (E3 & Hcn & _)%materialize_ok Hput
    [Hev _]%(append_event_ok n) Hst.
  apply active_open in Hact. rewrite <- E2, <- E3 in Hraw |- *.
  edestruct step_of_update as [Hs _];
    [exact Hraw|apply Hk; by rewrite <- E2, <- E3|by apply Hst|exact Hput|].
  eapply rtc_l; [exact Hs|by apply rtc_once].
Qed.

Lemma publish_internal_steps n u b t s v s' :
  keyed (st_db s) -> publish_document_internal n u b t s = (BOk v, s') ->
  bns_steps n (st_db s) (st_db s').
Proof.
  intros Hk Hr. unfold publish_document_internal in Hr.
  apply bind_ok in Hr as (cur & s1 & Hcur & Hr). apply reads_run in Hcur; [|auto with reads].
  rewrite <- Hcur in Hk |- *. clear Hcur. run_inv.
  match goal with Hl : get_latest_document _ _ _ = _ |- _ => apply get_latest_ok in Hl as [-> Hv] end.
  match goal with Hp : put_document _ _ = _ |- _ =>
    unfold published_document in Hp at 1; apply (publish_step n) in Hp as [Hp _]; [|done|by simpl; rewrite Hv] end.
  eapply rtc_l; [eassumption|].
  eapply (read_change_log n (with_published _ b t)); [by eapply step_keyed|eassumption..|].
  intros. by eapply with_published_step.
Qed.

Lemma set_iat_steps n iat h b t s v s' :
  keyed (st_db s) -> set_min_document_iat_internal n iat h b t s = (BOk v, s') ->
  bns_steps n (st_db s) (st_db s').
Proof.
  intros Hk Hr. unfold set_min_document_iat_internal in Hr. run_inv. zbool.
  eapply (read_change_log n (with_iat_floor iat b t)); [done|eassumption..|].
  intros. by eapply with_iat_floor_step.
Qed.

Lemma recompute_ok n cur keys t set :
  recompute_authority_set n cur keys t = BOk set ->
  as_name set = n /\ (as_root set, as_active_key_count set) = authority_root keys t
  /\ as_seq set = match cur with Some s => u64_add (as_seq s) 1 | None => 1 end.
Proof.
  unfold recompute_authority_set. destruct (authority_root keys t) as [root count].
  intros (n' & Hn & [= <-])%bresult_bind_ok. by apply canonical_bns_name_ok in Hn as ->.
Qed.

Lemma authority_steps n us t s set s' :
  keyed (st_db s) -> apply_authority_updates n us t s = (BOk set, s') ->
  bns_steps n (st_db s) (st_db s').
Proof.
  intros (_ & Hk & _) Hr. unfold apply_authority_updates, list_authority_keys, get_authority_set in Hr.
  apply bind_ok in Hr as (listed & s1 & Hl & Hr). run_inv.
  match goal with Hi : (if _ then _ else _) _ = (BOk tt, ?s2) |- _ =>
    assert (E : st_db s2 = st_db s) by (eapply reads_run; [|exact Hi]; auto with reads) end.
  specialize (Hk n). unfold keys_of in Hk. set (ks0 := default ∅ _) in *. fold (sorted_keys ks0) in *.
  rewrite fold_sorted_keys, (right_id_L ∅ (∪)) in * by done. set (ks1 := fold_left _ us ks0) in *.
  destruct (apply_key_updates_keyed us ks0 Hk) as [Hk1 Hdom]. fold ks1 in Hk1, Hdom.
  fold (sorted_keys ks1) in *.
  match goal with Hp : recompute_authority_set _ _ _ _ = _ |- _ => apply recompute_ok in Hp as (Hsn & Hroot & Hseq) end.
  match goal with Hp : forM _ _ _ = _ |- _ => apply put_keys_ok in Hp as (ks & Eks & Hm & Hn) end.
  rewrite fold_sorted_keys in Hn by done. rewrite E in *. unfold keys_of in Hn. fold ks0 in Hn.
  assert (Hks : default ∅ (ks !! n) = ks1).
  { rewrite Hn. apply map_eq. intros k. rewrite lookup_union. destruct (ks1 !! k) eqn:E1; [by destruct (ks0 !! k)|].
    apply not_elem_of_dom in E1. assert (k ∉ dom ks0) by set_solver. by rewrite not_elem_of_dom_1. }
  match goal with Hp : put_authority_set _ _ = _ |- _ => unfold put_authority_set in Hp end. run_inv.
  match goal with He : append_event _ _ _ = _ |- _ => apply (append_event_ok n) in He as [He _] end.
  eapply rtc_l; [|apply rtc_once; eassumption]. cbn [st_db]. rewrite Eks, Hsn.
  eapply step_authority; [done|done| |rewrite Hks; exact Hroot|done].
  rewrite Hks. exact Hk1.
Qed.

Lemma forM_steps {A} n (f : A -> M unit) l s s' :
  (forall a s1 u s2, keyed (st_db s1) -> f a s1 = (BOk u, s2) -> bns_steps n (st_db s1) (st_db s2)) ->
  keyed (st_db s) -> forM f l s = (BOk tt, s') -> bns_steps n (st_db s) (st_db s').
Proof.
  intros Hf. revert s. induction l as [|a l IH]; intros s Hk Hr; cbn [forM] in Hr; run_inv; [done|].
  match goal with Ha : f a s = _ |- _ => apply Hf in Ha; [|done] end.
  etrans; [eassumption|]. apply IH; [by eapply steps_keyed|done].
Qed.

Lemma mapM_steps {A B} n (f : A -> M B) l s bs s' :
  (forall a s1 u s2, keyed (st_db s1) -> f a s1 = (BOk u, s2) -> bns_steps n (st_db s1) (st_db s2)) ->
  keyed (st_db s) -> mapM f l s = (BOk bs, s') -> bns_steps n (st_db s) (st_db s').
Proof.
  intros Hf. revert s bs. induction l as [|a l IH]; intros s bs Hk Hr; cbn [mapM] in Hr; run_inv; [done|].
  match goal with Ha : f a s = _ |- _ => apply Hf in Ha; [|done] end.
  etrans; [eassumption|]. eapply IH; [by eapply steps_keyed|done].
Qed.

Lemma publish_all_steps n t us s s' :
  keyed (st_db s) ->
  forM (fun u => publish_document_internal n u false t ;; ret tt) us s = (BOk tt, s') ->
  bns_steps n (st_db s) (st_db s').
Proof. apply forM_steps. intros u s1 [] s2 Hk Hr. run_inv. by eapply publish_internal_steps. Qed.

Lemma publish_reported_steps n t us s bs s' :
  keyed (st_db s) -> mapM (publish_reported n t) us s = (BOk bs, s') ->
  bns_steps n (st_db s) (st_db s').
Proof.
  apply mapM_steps. intros u s1 b s2 Hk Hr. unfold publish_reported, get_document in Hr. run_inv.
  by eapply publish_internal_steps.
Qed.

Lemma reset_step n old s u s' :
  db_names (st_db s) !! n = Some old -> taken (Some old) = false ->
  reset_name_lineage n s = (BOk u, s') ->
  bns_step n (st_db s) (st_db s') /\ db_names (st_db s') = db_names (st_db s).
Proof. intros Ho Ht Hr. unfold reset_name_lineage in Hr. run_inv. split; [by eapply step_reset|done]. Qed.

Lemma registered_step n owner opts ex t names new :
  names !! n = ex -> taken ex = false -> (length (split_on char_dot n) <= 2)%nat ->
  (forall p, parent_name n = Some p -> is_Some (names !! p)) ->
  core new = core (registered_state n owner opts ex t) -> register_step names n new.
Proof.
  intros Hex Ht Hd Hp (Hm & Hq & _)%core_eq. injection Hm as Hn _ Hl _ _. subst ex. by split.
Qed.

Lemma register_internal_steps n owner opts auth g t s new s' :
  (length (split_on char_dot n) <= 2)%nat -> keyed (st_db s) ->
  register_internal n owner opts auth g t s = (BOk new, s') -> bns_steps n (st_db s) (st_db s').
Proof.
  intros Hd Hk Hr. unfold register_internal, get_name in Hr.
  apply bind_ok in Hr as (ex & s1 & Hex & Hr). run_inv.
  set (ex := db_names (st_db s) !! n) in *.
  match goal with Hp : (match parent_name n with Some _ => _ | None => _ end) s = (BOk tt, ?s2) |- _ =>
    assert (E2 : st_db s2 = st_db s /\ forall p, parent_name n = Some p -> is_Some (db_names (st_db s) !! p));
    [clear -H Hp|clear Hp] end.
  { destruct (parent_name n) as [p|] eqn:Ep; run_inv; [|done].
    match goal with Ha : required_active_name _ _ = _ |- _ => apply required_active_ok in Ha as (E & raw & Hraw & _) end.
    reads_inv. split; [done|]. intros p' [= <-]. eauto. }
  destruct E2 as [E2 Hpar].
  match goal with Hp : (if is_some ex then _ else _) ?s2 = (BOk tt, ?s3) |- _ =>
    assert (Hres : bns_steps n (st_db s) (st_db s3) /\ db_names (st_db s3) = db_names (st_db s));
    [rewrite <- E2|clear Hp] end.
  { destruct ex as [old|] eqn:Eold; simpl in *; [|by run_inv].
    eapply reset_step in H3 as [? ?]; [split; [by apply rtc_once|done]|by rewrite E2|done]. }
  destruct Hres as [Hres En].
  match goal with Hm : materialize_name_state _ _ = _ |- _ => apply materialize_ok in Hm as (Em & Hcore & _) end.
  reads_inv. etrans; [exact Hres|].
  match goal with He : append_event _ _ _ = _ |- _ => apply (append_event_ok n) in He as [He _] end.
  eapply rtc_l; [|by apply rtc_once].
  match goal with Hp : put_name _ _ = _ |- _ => apply put_name_ok in Hp as [Hv Ep] end.
  assert (Hst : register_step (db_names (st_db s)) n x9) by by eapply registered_step.
  rewrite Ep, Em, (rst_name _ _ _ Hst). apply step_register; [by rewrite En|done].
Qed.
End internal.
