(* ===== verification/BnsCalls.v ===== *)
(** * BNS: calls

    The writing operations of the registry as data, their runs, and the steps
    they consist of; and the readings of the clock a call takes. *)

From S2P Require Import Prelude BnsModel BnsStore BnsRegistry BnsQueries BnsRun BnsSteps.

Inductive Call : Type :=
| CallRegister (name asset_owner : string) (options : RegisterOptions)
    (documents : list DocumentUpdate) (authority : CallAuthority) (guard : MutationGuard)
| CallBootstrap (name asset_owner : string) (options : RegisterOptions)
    (documents : list DocumentUpdate) (keys : list AuthorityKeyUpdate) (owner : option Principal)
    (policy : list ControllerRule) (policy_hash : string) (authority : CallAuthority)
    (guard : MutationGuard)
| CallRenew (name : string) (duration : Z)
| CallTransfer (name new_asset_owner : string) (owner : Principal) (documents : list DocumentUpdate)
    (authority : CallAuthority) (guard : MutationGuard)
| CallStandardTransfer (name new_asset_owner : string)
| CallSetOwner (name : string) (owner : Principal) (authority : CallAuthority) (guard : MutationGuard)
| CallRelease (name : string) (mode : ReleaseMode) (reason : string) (authority : CallAuthority)
    (guard : MutationGuard)
| CallSetNamespace (name : string) (allow : bool) (hash : string) (authority : CallAuthority)
    (guard : MutationGuard)
| CallUpdateKeys (name : string) (keys : list AuthorityKeyUpdate) (authority : CallAuthority)
    (guard : MutationGuard)
| CallApply (name : string) (keys : list AuthorityKeyUpdate) (documents : list DocumentUpdate)
    (policy : OwnerPolicyUpdate) (authority : CallAuthority) (guard : MutationGuard)
| CallRotate (name : string) (keys : list AuthorityKeyUpdate) (document : DocumentUpdate)
    (authority : CallAuthority) (guard : MutationGuard)
| CallPublish (name : string) (document : DocumentUpdate) (authority : CallAuthority)
    (guard : MutationGuard)
| CallRevoke (name doc_type : string) (version : Z) (reason : string) (authority : CallAuthority)
    (guard : MutationGuard)
| CallSetIat (name : string) (iat : Z) (reason : string) (authority : CallAuthority)
    (guard : MutationGuard)
| CallSetPolicy (name : string) (rules : list ControllerRule) (hash : string)
    (authority : CallAuthority) (guard : MutationGuard)
| CallSetAlias (name did : string) (kind : AliasKind) (proof : string) (authority : CallAuthority)
    (guard : MutationGuard)
| CallSetPayment (name doc_type : string) (version : Z) (target : string) (beneficiary : Principal)
    (payment split price rights : string) (authority : CallAuthority) (guard : MutationGuard)
| CallCheckpoint (issuer : Principal) (anchor : string).

(** The name that a call is about. *)
Definition target (c : Call) : string :=
  match c with
  | CallRegister n _ _ _ _ _ | CallBootstrap n _ _ _ _ _ _ _ _ _ | CallRenew n _
  | CallTransfer n _ _ _ _ _ | CallStandardTransfer n _ | CallSetOwner n _ _ _ | CallRelease n _ _ _ _
  | CallSetNamespace n _ _ _ _ | CallUpdateKeys n _ _ _ | CallApply n _ _ _ _ _ | CallRotate n _ _ _ _
  | CallPublish n _ _ _ | CallRevoke n _ _ _ _ _ | CallSetIat n _ _ _ _ | CallSetPolicy n _ _ _ _
  | CallSetAlias n _ _ _ _ _ | CallSetPayment n _ _ _ _ _ _ _ _ _ _ => n
  | CallCheckpoint _ _ => ""
  end.

(** An active name that was read, and is still there. *)
Lemma active_row `{BnsLibs} `{Clock} n s st s' :
  required_active_name n s = (BOk st, s') -> st_db s' = st_db s /\
  exists raw, db_names (st_db s) !! n = Some raw /\ core st = core raw /\ open_name raw.
Proof.
  intros (E & raw & Hraw & Hact & Hcore & _)%required_active_ok. split; [done|].
  exists raw. split_and!; [done|done|by eapply active_open].
Qed.

(** Find the row that was read, and the tables that did not change. *)
Ltac active_inv raw :=
  match goal with
  | Ha : required_active_name _ _ = _ |- _ =>
      apply active_row in Ha as (? & raw & Hraw & Hcore & Hopen)
  end; reads_inv.

Ltac keeps_tac := let s := fresh in intros s; by destruct s.

Section calls.
Context `{BnsLibs} `{Clock}.

(** A call on the registry that accepts writes, without its result. *)
Definition run_call (c : Call) : M unit :=
  match c with
  | CallRegister n o opts ds a g => register_name true n o opts ds a g ;; ret tt
  | CallBootstrap n o opts ds ks ow ps h a g =>
      bootstrap_name true n o opts ds ks ow ps h a g ;; ret tt
  | CallRenew n d => renew_name true n d ;; ret tt
  | CallTransfer n o ow ds a g => transfer_name true n o ow ds a g ;; ret tt
  | CallStandardTransfer n o => standard_transfer_name true n o ;; ret tt
  | CallSetOwner n ow a g => set_name_owner true n ow a g ;; ret tt
  | CallRelease n m r a g => release_name true n m r a g ;; ret tt
  | CallSetNamespace n al h a g => set_namespace_policy true n al h a g ;; ret tt
  | CallUpdateKeys n ks a g => update_authority_keys true n ks a g ;; ret tt
  | CallApply n ks ds p a g => apply_mutations true n ks ds p a g ;; ret tt
  | CallRotate n ks d a g => rotate_authority_and_owner_document true n ks d a g ;; ret tt
  | CallPublish n d a g => publish_document true n d a g ;; ret tt
  | CallRevoke n t v r a g => revoke_document true n t v r a g ;; ret tt
  | CallSetIat n i r a g => set_min_document_iat true n i r a g ;; ret tt
  | CallSetPolicy n rs h a g => set_controller_policy true n rs h a g ;; ret tt
  | CallSetAlias n d k p a g => set_did_alias true n d k p a g ;; ret tt
  | CallSetPayment n t v tg b h1 h2 h3 h4 a g =>
      set_payment_target true n t v tg b h1 h2 h3 h4 a g ;; ret tt
  | CallCheckpoint i an => publish_log_checkpoint true i an ;; ret tt
  end.

(** ** Every call is a sequence of steps of its name *)

(** Log one event as the last step. *)
Lemma log_last n e t d s1 r s2 :
  bns_steps n d (st_db s1) -> append_event e t s1 = (BOk r, s2) -> bns_steps n d (st_db s2).
Proof. intros Hs [He _]%(append_event_ok n). by eapply rtc_r. Qed.

Lemma change_step n d t f state s1 new s2 raw :
  st_db s1 = d -> keyed d -> db_names d !! n = Some raw -> core state = core raw -> open_name raw ->
  keeps f -> store_change t f state s1 = (BOk new, s2) -> bns_step n d (st_db s2) /\ keyed (st_db s2).
Proof.
  intros <- Hk Hraw Hc Ho Hf Hs. eapply store_change_step in Hs as (Hs & _); [|done..].
  split; [done|by eapply step_keyed].
Qed.

Lemma simple_call_steps n d t f e1 t1 state s1 new s2 r s3 raw :
  st_db s1 = d -> keyed d -> db_names d !! n = Some raw -> core state = core raw -> open_name raw ->
  keeps f -> store_change t f state s1 = (BOk new, s2) -> append_event e1 t1 s2 = (BOk r, s3) ->
  bns_steps n d (st_db s3).
Proof.
  intros Hd Hk Hraw Hc Ho Hf Hs He. eapply log_last; [|exact He].
  eapply change_step in Hs as [Hs _]; [by apply rtc_once|done..].
Qed.

Lemma standard_transfer_steps n o s s' :
  keyed (st_db s) -> run_call (CallStandardTransfer n o) s = (BOk tt, s') ->
  bns_steps n (st_db s) (st_db s').
Proof.
  intros Hk Hr. cbn [run_call] in Hr. unfold standard_transfer_name in Hr. run_inv.
  active_inv raw.
  match goal with Hm : materialize_name_state _ _ = _ |- _ => apply materialize_ok in Hm as (_ & Hc' & _) end.
  eapply simple_call_steps; [eassumption|done|done|by rewrite Hc', Hcore|done| |eassumption|eassumption].
  keeps_tac.
Qed.

Lemma renewed_step raw d t new :
  open_name raw -> core new = core (renewed_state raw d t) -> name_step raw new.
Proof.
  intros Ho Hn. set (f := fun s => set_expiry (u64_add (Z.max (ns_expire_at s) t) d)
    (u64_add (u64_add (Z.max (ns_expire_at s) t) d)
       (u64_saturating_sub (ns_grace_until s) (ns_expire_at s))) s).
  apply (bumped_step raw raw f t); [done|done|by intros []|]. rewrite Hn.
  unfold renewed_state. destruct raw; simpl. by case_match.
Qed.

Lemma renew_steps n d s s' :
  keyed (st_db s) -> run_call (CallRenew n d) s = (BOk tt, s') -> bns_steps n (st_db s) (st_db s').
Proof.
  intros Hk Hr. cbn [run_call] in Hr. unfold renew_name, required_raw_name, get_name in Hr. run_inv.
  match goal with Hraw : db_names (st_db s) !! n = Some ?raw, Hc : _ || _ = false |- _ =>
    rename raw into old; apply orb_false_iff in Hc as [[_ Hc1]%orb_false_iff Hc2] end.
  apply bool_decide_eq_false in Hc1, Hc2.
  match goal with Hm : materialize_name_state _ _ = _ |- _ => apply materialize_ok in Hm as (E & Hc & _) end.
  eapply log_last; [|eassumption]. apply rtc_once. cbn [st_db] in E. rewrite <- E.
  eapply step_of_update; [rewrite E; eassumption|by eapply (proj1 Hk)|by eapply renewed_step|eassumption].
Qed.

Lemma owner_change_steps n d t f state s1 new s2 raw :
  st_db s1 = d -> keyed d -> db_names d !! n = Some raw -> core state = core raw -> open_name raw ->
  keeps f -> store_owner_change (bump t (f state)) s1 = (BOk new, s2) ->
  bns_steps n d (st_db s2) /\ keyed (st_db s2).
Proof.
  intros <- Hk Hraw Hc Ho Hf Hs.
  eapply store_owner_change_step in Hs as (Hs & _); [|done..].
  split; [by apply rtc_once|by eapply step_keyed].
Qed.

Lemma transfer_steps n o ow ds a g s s' :
  keyed (st_db s) -> run_call (CallTransfer n o ow ds a g) s = (BOk tt, s') ->
  bns_steps n (st_db s) (st_db s').
Proof.
  intros Hk Hr. cbn [run_call] in Hr. unfold transfer_name in Hr. run_inv. active_inv raw.
  match goal with Hs : store_owner_change _ _ = _ |- _ =>
    eapply (owner_change_steps n (st_db s) _ (fun x => set_semantic_owner ow (set_asset_owner o x)))
      in Hs as [Hs Hk']; [|done..|keeps_tac] end.
  match goal with H1 : append_event _ _ _ = (_, ?s1), H2 : append_event _ _ ?s1 = (_, ?s2) |- _ =>
    assert (Hl : bns_steps n (st_db s) (st_db s2))
      by (eapply log_last; [eapply log_last; [|exact H1]; eassumption|exact H2]) end.
  etrans; [exact Hl|]. eapply publish_all_steps; [by eapply steps_keyed|eassumption].
Qed.

Lemma set_owner_steps n ow a g s s' :
  keyed (st_db s) -> run_call (CallSetOwner n ow a g) s = (BOk tt, s') ->
  bns_steps n (st_db s) (st_db s').
Proof.
  intros Hk Hr. cbn [run_call] in Hr. unfold set_name_owner in Hr. run_inv. active_inv raw.
  eapply log_last; [|eassumption].
  eapply (owner_change_steps n _ _ (set_semantic_owner ow)); [..|eassumption]; [done..|keeps_tac].
Qed.

Lemma release_steps n m r a g s s' :
  keyed (st_db s) -> run_call (CallRelease n m r a g) s = (BOk tt, s') ->
  bns_steps n (st_db s) (st_db s').
Proof.
  intros Hk Hr. cbn [run_call] in Hr. unfold release_name in Hr. run_inv. active_inv raw.
  eapply log_last; [|eassumption].
  eapply (owner_change_steps n _ _ (set_ns_status (released_status m))); [..|eassumption]; [done..|keeps_tac].
Qed.

Lemma namespace_steps n al h a g s s' :
  keyed (st_db s) -> run_call (CallSetNamespace n al h a g) s = (BOk tt, s') ->
  bns_steps n (st_db s) (st_db s').
Proof.
  intros Hk Hr. cbn [run_call] in Hr. unfold set_namespace_policy in Hr. run_inv. active_inv raw.
  eapply simple_call_steps; [| | | | | |eassumption|eassumption]; [done..|keeps_tac].
Qed.

Lemma update_keys_steps n ks a g s s' :
  keyed (st_db s) -> run_call (CallUpdateKeys n ks a g) s = (BOk tt, s') ->
  bns_steps n (st_db s) (st_db s').
Proof.
  intros Hk Hr. cbn [run_call] in Hr. unfold update_authority_keys in Hr. run_inv. active_inv raw.
  match goal with Hu : apply_authority_updates _ _ _ ?s1 = _ |- _ =>
    assert (E : st_db s1 = st_db s) by done; eapply authority_steps in Hu; [by rewrite E in Hu|by rewrite E] end.
Qed.
Lemma publish_steps n u a g s s' :
  keyed (st_db s) -> run_call (CallPublish n u a g) s = (BOk tt, s') ->
  bns_steps n (st_db s) (st_db s').
Proof.
  intros Hk Hr. cbn [run_call] in Hr. unfold publish_document in Hr. run_inv. active_inv raw.
  match goal with Hp : publish_document_internal _ _ _ _ ?s1 = _, E : st_db ?s1 = st_db s |- _ =>
    rewrite <- E in Hk |- *; by eapply publish_internal_steps end.
Qed.

Lemma rotate_steps n ks u a g s s' :
  keyed (st_db s) -> run_call (CallRotate n ks u a g) s = (BOk tt, s') ->
  bns_steps n (st_db s) (st_db s').
Proof.
  intros Hk Hr. cbn [run_call] in Hr. unfold rotate_authority_and_owner_document in Hr. run_inv. active_inv raw.
  match goal with Hu : apply_authority_updates _ _ _ ?s1 = _, E : st_db ?s1 = st_db s |- _ =>
    rewrite <- E in Hk |- *; apply authority_steps in Hu; [|done] end.
  etrans; [eassumption|]. eapply publish_internal_steps; [|eassumption]. by eapply steps_keyed.
Qed.

Lemma set_iat_call_steps n i r a g s s' :
  keyed (st_db s) -> run_call (CallSetIat n i r a g) s = (BOk tt, s') ->
  bns_steps n (st_db s) (st_db s').
Proof.
  intros Hk Hr. cbn [run_call] in Hr. unfold set_min_document_iat in Hr. run_inv. active_inv raw.
  match goal with Hu : set_min_document_iat_internal _ _ _ _ _ ?s1 = _, E : st_db ?s1 = st_db s |- _ =>
    rewrite <- E in Hk |- *; by eapply set_iat_steps end.
Qed.

Lemma put_policy_step n rules h s u s' :
  put_controller_policy n rules h s = (BOk u, s') ->
  bns_step n (st_db s) (st_db s') /\ db_names (st_db s') = db_names (st_db s).
Proof. unfold put_controller_policy. intros Hr. run_inv. split; [by apply step_policy|done]. Qed.

Lemma set_policy_steps n rs h a g s s' :
  keyed (st_db s) -> run_call (CallSetPolicy n rs h a g) s = (BOk tt, s') ->
  bns_steps n (st_db s) (st_db s').
Proof.
  intros Hk Hr. cbn [run_call] in Hr. unfold set_controller_policy in Hr. run_inv. active_inv raw.
  match goal with Hp : put_controller_policy _ _ _ ?s1 = _, E : st_db ?s1 = st_db s |- _ =>
    rewrite <- E in Hk, Hraw |- *; apply put_policy_step in Hp as [Hp En] end.
  eapply rtc_l; [eassumption|].
  eapply simple_call_steps; [done|by eapply step_keyed|by rewrite En|done|done| |eassumption|eassumption].
  by intros [].
Qed.

Lemma set_alias_steps n d k p a g s s' :
  keyed (st_db s) -> run_call (CallSetAlias n d k p a g) s = (BOk tt, s') ->
  bns_steps n (st_db s) (st_db s').
Proof.
  intros Hk Hr. cbn [run_call] in Hr. unfold set_did_alias in Hr. run_inv. active_inv raw.
  match goal with Hs : store_change _ _ _ _ = _, Ha : put_alias _ _ = _ |- _ =>
    eapply (change_step n) in Hs as [Hs _]; [|done..|keeps_tac]; unfold put_alias in Ha end. run_inv.
  eapply log_last; [|eassumption]. eapply rtc_r; [by apply rtc_once|]. by apply step_alias.
Qed.

Lemma revoke_steps n t v r a g s s' :
  keyed (st_db s) -> run_call (CallRevoke n t v r a g) s = (BOk tt, s') ->
  bns_steps n (st_db s) (st_db s').
Proof.
  intros Hk Hr. cbn [run_call] in Hr. unfold revoke_document in Hr. run_inv.
  match goal with Hl : get_latest_document _ _ _ = _ |- _ => apply get_latest_ok in Hl as [-> Hv] end.
  active_inv raw.
  match goal with Hp : put_document _ ?s1 = _, E : st_db ?s1 = st_db s |- _ =>
    unfold revoked_document in Hp; apply (publish_step n) in Hp as [Hp En]; [|done|by simpl; rewrite Hv, E];
    rewrite E in Hp, En end.
  eapply rtc_l; [eassumption|].
  eapply simple_call_steps; [done|by eapply step_keyed|by rewrite En|done|done| |eassumption|eassumption].
  intros []. by destruct (String.eqb _ _).
Qed.

Lemma current_document_ok n t s o s' :
  get_current_document n t s = (BOk o, s') -> s' = s /\ o = current_document (st_db s) n t.
Proof. unfold get_current_document. intros Hr. by run_inv. Qed.

Lemma current_document_keyed d n t c :
  keyed d -> current_document d n t = Some c -> ds_name c = n /\ ds_doc_type c = t.
Proof.
  intros (_ & _ & Hd) Hc. unfold current_document, latest_row, doc_rows in Hc.
  destruct (last _) as [r|] eqn:El; simplify_eq/=. apply last_Some_elem_of in El.
  apply list_elem_of_In, filter_In in El as [Hr%list_elem_of_In _].
  destruct (db_documents d !! (n, t)) as [rows|] eqn:E; simpl in Hr; [|set_solver].
  pose proof (Hd _ _ _ E Hr) as Hk. by simplify_eq.
Qed.

(** A current document with new payment fields is a step. *)
Lemma payment_step n t tg b h1 h2 h3 h4 c s u s1 d :
  keyed d -> st_db s = d -> current_document d n t = Some c ->
  put_document (hashed (set_payment tg b h1 h2 h3 h4 c)) s = (BOk u, s1) ->
  bns_step n d (st_db s1) /\ db_names (st_db s1) = db_names d.
Proof.
  intros Hk <- Hcur (Hv & Hb & Ep)%put_document_ok. destruct (current_document_keyed _ _ _ _ Hk Hcur) as [Hn Ht].
  set (c' := hashed _) in *.
  assert (Hc' : ds_name c' = n /\ ds_doc_type c' = t /\ without_payment c' = without_payment c).
  { subst c'. unfold hashed. destruct c. simpl in *. by subst. }
  destruct Hc' as (Hn' & Ht' & Hw). rewrite Ep. split; [|done].
  eapply step_payment; [done| |by rewrite Ht'|done]. split_and!; [done|done|apply hashed_hash].
Qed.

Lemma set_payment_steps n t v tg b h1 h2 h3 h4 a g s s' :
  keyed (st_db s) -> run_call (CallSetPayment n t v tg b h1 h2 h3 h4 a g) s = (BOk tt, s') ->
  bns_steps n (st_db s) (st_db s').
Proof.
  intros Hk Hr. cbn [run_call] in Hr. unfold set_payment_target in Hr. run_inv.
  match goal with Hl : get_current_document _ _ _ = _ |- _ => apply current_document_ok in Hl as [-> Hcur] end.
  active_inv raw.
  match goal with Hs : ?o = Some ?doc, Hc : ?o = current_document _ _ _ |- _ =>
    rename doc into c; rewrite Hs in Hc end.
  match goal with Hp : put_document _ ?s1 = _, E : st_db ?s1 = st_db s |- _ =>
    apply (payment_step n _ _ _ _ _ _ _ _ _ _ _ _ Hk E (eq_sym Hcur)) in Hp as [Hp En] end.
  eapply rtc_l; [eassumption|].
  eapply simple_call_steps; [done|by eapply step_keyed|by rewrite En|done|done| |eassumption|eassumption].
  keeps_tac.
Qed.

Lemma checkpoint_steps n i an s s' :
  keyed (st_db s) -> run_call (CallCheckpoint i an) s = (BOk tt, s') -> bns_steps n (st_db s) (st_db s').
Proof.
  intros Hk Hr. cbn [run_call] in Hr. unfold publish_log_checkpoint, latest_event in Hr. run_inv.
  destruct (last (db_events (st_db s))) as [r|] eqn:El; run_inv;
    match goal with Hp : put_checkpoint _ _ = _ |- _ => unfold put_checkpoint in Hp end; run_inv;
    (eapply log_last; [|eassumption]); apply rtc_once, step_checkpoint; by rewrite El.
Qed.

Lemma check_registration_depth n o opts ds :
  check_registration n o opts ds = BOk tt -> (length (split_on char_dot n) <= 2)%nat.
Proof.
  unfold check_registration, ensure_registerable_depth. rewrite !seq_ok.
  intros ((u & Hd%reject_if_ok) & _). apply Nat.ltb_ge in Hd. lia.
Qed.

Lemma register_steps n o opts ds a g s s' :
  keyed (st_db s) -> run_call (CallRegister n o opts ds a g) s = (BOk tt, s') ->
  bns_steps n (st_db s) (st_db s').
Proof.
  intros Hk Hr. cbn [run_call] in Hr. unfold register_name in Hr. run_inv.
  match goal with Hd : check_registration _ _ _ _ = _, Hi : register_internal _ _ _ _ _ _ _ = _ |- _ =>
    eapply register_internal_steps in Hi; [|by eapply check_registration_depth|done] end.
  etrans; [eassumption|]. eapply publish_all_steps; [by eapply steps_keyed|eassumption].
Qed.

(** The parts of [bootstrap_name] and [apply_mutations] that may be left out. *)
Lemma steps_then n d d1 d2 :
  keyed d -> bns_steps n d d1 -> (keyed d1 -> bns_steps n d1 d2) -> bns_steps n d d2.
Proof. intros Hk Hs Hn. etrans; [exact Hs|]. by apply Hn, (steps_keyed _ _ _ Hs). Qed.

Lemma optional_keys_steps n ks t s s' :
  keyed (st_db s) ->
  (match ks with [] => ret tt | _ => apply_authority_updates n ks t ;; ret tt end) s = (BOk tt, s') ->
  bns_steps n (st_db s) (st_db s').
Proof. intros Hk Hr. destruct ks; run_inv; [done|by eapply authority_steps]. Qed.

Lemma bootstrap_owner_steps n ow t s s' :
  keyed (st_db s) ->
  (let* state := required_active_name n in
   validate_semantic_owner_target ow ;;
   let* state := store_owner_change (bump t (set_semantic_owner ow state)) in
   append_event (owner_updated n state) t ;;
   ret tt) s = (BOk tt, s') ->
  bns_steps n (st_db s) (st_db s').
Proof.
  intros Hk Hr. run_inv. active_inv raw. eapply log_last; [|eassumption].
  eapply (owner_change_steps n _ _ (set_semantic_owner ow)); [..|eassumption]; [done..|keeps_tac].
Qed.

Lemma restamp_steps n t s st s1 new s2 :
  keyed (st_db s) -> required_active_name n s = (BOk st, s1) ->
  store_change t (fun x => x) st s1 = (BOk new, s2) -> bns_steps n (st_db s) (st_db s2).
Proof.
  intros Hk (E & raw & Hraw & Hcore & Hopen)%active_row Hs.
  eapply (change_step n) in Hs as [Hs _]; [by apply rtc_once|done..|by intros []].
Qed.

Lemma bootstrap_steps n o opts ds ks ow ps h a g s s' :
  keyed (st_db s) -> run_call (CallBootstrap n o opts ds ks ow ps h a g) s = (BOk tt, s') ->
  bns_steps n (st_db s) (st_db s').
Proof.
  intros Hk Hr. cbn [run_call] in Hr. unfold bootstrap_name in Hr. run_inv.
  match goal with Hd : check_registration _ _ _ _ = _, Hi : register_internal _ _ _ _ _ _ _ = _ |- _ =>
    eapply register_internal_steps in Hi; [|by eapply check_registration_depth|done] end.
  eapply steps_then; [done|eassumption|intros Hk1].
  match goal with Hm : mapM _ _ _ = _ |- _ => apply publish_reported_steps in Hm; [|done] end.
  eapply steps_then; [done|eassumption|intros Hk2].
  match goal with Hm : (match ks with [] => _ | _ => _ end) _ = _ |- _ =>
    apply optional_keys_steps in Hm; [|done] end.
  eapply steps_then; [done|eassumption|intros Hk3].
  match goal with Hm : (match ow with Some _ => _ | None => _ end) ?s1 = (BOk tt, ?s2) |- _ =>
    assert (Hs : bns_steps n (st_db s1) (st_db s2))
      by (destruct ow; [by eapply bootstrap_owner_steps|by run_inv]) end.
  eapply steps_then; [done|exact Hs|intros Hk4].
  match goal with Hc : check_rule_controllers _ ?s1 = (_, ?s2), Hp : put_controller_policy _ _ _ ?s2 = _,
    Ha : authority_set _ ?s3 = (_, ?s4) |- _ =>
    assert (Ec : st_db s2 = st_db s1) by (eapply reads_run; [|exact Hc]; auto with reads);
    assert (Ea : st_db s4 = st_db s3) by (eapply reads_run; [|exact Ha]; auto with reads);
    apply put_policy_step in Hp as [Hp _] end.
  rewrite Ea. rewrite <- Ec in Hk4 |- *.
  eapply steps_then; [done|by apply rtc_once|intros Hk5]. eapply log_last; [|eassumption].
  by eapply restamp_steps.
Qed.

Lemma apply_steps n ks ds p a g s s' :
  keyed (st_db s) -> run_call (CallApply n ks ds p a g) s = (BOk tt, s') ->
  bns_steps n (st_db s) (st_db s').
Proof.
  intros Hk Hr. cbn [run_call] in Hr. unfold apply_mutations in Hr. run_inv.
  match goal with Hx : required_active_name _ _ = (_, ?s1), Hy : check_guard _ _ ?s1 = (_, ?s2),
    Hz : (if _ then authorize_owner_for_loaded _ _ else _) ?s2 = (_, ?s3),
    Ha : required_active_name _ ?s4 = (_, ?s5), Hb : authority_set _ ?s5 = (_, ?s6) |- _ =>
    assert (E1 : st_db s3 = st_db s) by (clear -H Hx Hy Hz; reads_inv; done);
    assert (E2 : st_db s6 = st_db s4) by (clear -H Ha Hb; reads_inv; done);
    clear Hx Hy Hz Ha Hb end.
  rewrite E2. rewrite <- E1 in Hk |- *.
  match goal with Hm : (if match ks with [] => _ | _ => _ end then _ else _) ?s1 = (_, ?s2) |- _ =>
    assert (Hs : bns_steps n (st_db s1) (st_db s2))
      by (destruct ks; run_inv; [done|by eapply authority_steps]) end.
  eapply steps_then; [done|exact Hs|intros Hk1]. clear Hs.
  match goal with Hm : (if _ then _ else ret tt) ?s1 = (BOk tt, ?s2), Hd : mapM _ _ ?s2 = _ |- _ =>
    assert (Hs : bns_steps n (st_db s1) (st_db s2))
      by (clear Hd; destruct (negb _ || _) in Hm; run_inv; [by eapply restamp_steps|done]) end.
  eapply steps_then; [done|exact Hs|intros Hk2]. clear Hs.
  match goal with Hm : mapM _ _ _ = _ |- _ => apply publish_reported_steps in Hm; [|done] end.
  eapply steps_then; [done|eassumption|intros Hk3].
  destruct (op_update_min_document_iat p); run_inv; [by eapply set_iat_steps|done].
Qed.

(** A successful call is a sequence of steps of its name. *)
Lemma call_steps c s s' :
  keyed (st_db s) -> run_call c s = (BOk tt, s') -> bns_steps (target c) (st_db s) (st_db s').
Proof.
  destruct c; simpl target;
    eauto using register_steps, bootstrap_steps, renew_steps, transfer_steps, standard_transfer_steps,
      set_owner_steps, release_steps, namespace_steps, update_keys_steps, apply_steps, rotate_steps,
      publish_steps, revoke_steps, set_iat_call_steps, set_policy_steps, set_alias_steps,
      set_payment_steps, checkpoint_steps.
Qed.

(** ** Failed calls *)

(** A computation that leaves the tables alone when it fails. *)
Definition rolls_back {A} (m : M A) : Prop := forall s,
  match fst (m s) with BOk _ => True | _ => st_db (snd (m s)) = st_db s end.

Lemma rolls_back_transact {A} (m : M A) : rolls_back (transact m).
Proof. intros s. unfold transact. by destruct (m s) as [[] ?]. Qed.

Lemma rolls_back_reads {A B} (m : M A) (k : A -> M B) :
  reads m -> (forall a, rolls_back (k a)) -> rolls_back (bind m k).
Proof.
  intros Hm Hk s. specialize (Hm s). unfold bind. destruct (m s) as [[a| |] s1]; simpl in *; [|done|done].
  specialize (Hk a s1). destruct (k a s1) as [[] s2]; simpl in *; congruence.
Qed.

Lemma rolls_back_result {A} (m : M A) : rolls_back m -> rolls_back (m ;; ret tt).
Proof. intros Hm s. specialize (Hm s). unfold bind. by destruct (m s) as [[] ?]. Qed.

#[local] Hint Resolve rolls_back_transact rolls_back_reads : reads.
#[local] Hint Extern 1 (forall _, rolls_back _) => intros ? : reads.

(** A call that fails changes nothing. *)
Lemma call_failed c s r s' : run_call c s = (r, s') -> r <> BOk tt -> st_db s' = st_db s.
Proof.
  intros E Hr. assert (Hc : rolls_back (run_call c)).
  { destruct c; apply rolls_back_result;
      unfold register_name, bootstrap_name, renew_name, transfer_name, standard_transfer_name,
        set_name_owner, release_name, set_namespace_policy, update_authority_keys, apply_mutations,
        rotate_authority_and_owner_document, publish_document, revoke_document, set_min_document_iat,
        set_controller_policy, set_did_alias, set_payment_target, publish_log_checkpoint, ensure_write_path;
      auto 30 with reads. }
  specialize (Hc s). rewrite E in Hc. by destruct r as [[]| |].
Qed.

(** ** Reachable stores *)

(** The stores that calls make of an empty one; failed calls count as well. *)
Inductive reachable : Store -> Prop :=
| reach_empty ticks : reachable (mkStore empty_db ticks)
| reach_call c s r s' : reachable s -> run_call c s = (r, s') -> reachable s'.

(** What the steps keep, the calls keep. *)
Lemma call_invariant (P : Db -> Prop) c s r s' :
  (forall n d d', bns_step n d d' -> keyed d -> P d -> P d') ->
  run_call c s = (r, s') -> keyed (st_db s) -> P (st_db s) -> keyed (st_db s') /\ P (st_db s').
Proof.
  intros HP E Hk Hp. destruct r as [[]|e|]; [|by rewrite (call_failed _ _ _ _ E)..].
  apply call_steps in E; [|done].
  assert (Hgo : forall d d', bns_steps (target c) d d' -> keyed d -> P d -> keyed d' /\ P d').
  { clear -HP. induction 1 as [|d d1 d2 Hs _ IH]; [done|]. intros Hk Hp.
    apply IH; [by eapply step_keyed|by eapply HP]. }
  by eapply Hgo.
Qed.

Lemma reachable_invariant (P : Db -> Prop) s :
  (forall n d d', bns_step n d d' -> keyed d -> P d -> P d') -> P empty_db ->
  reachable s -> keyed (st_db s) /\ P (st_db s).
Proof.
  intros HP H0' Hs. induction Hs as [ticks|c s r s' _ [Hk Hp] E].
  - split; [|done]. split_and!.
    + by intros k s ?.
    + by intros n k v.
    + by intros k rows r ?.
  - by eapply call_invariant.
Qed.
End calls.

(** * The readings of the clock

    A computation of the registry only takes further readings of the clock, so
    the readings of a call lie between its start and its end. *)

Definition ticking {A} (m : M A) : Prop := forall s, (st_ticks s <= st_ticks (snd (m s)))%nat.

Lemma ticking_run {A} (m : M A) s r s' : ticking m -> m s = (r, s') -> (st_ticks s <= st_ticks s')%nat.
Proof. intros Hm E. specialize (Hm s). by rewrite E in Hm. Qed.

Lemma ticking_ret {A} (a : A) : ticking (ret a).
Proof. by intros s. Qed.
Lemma ticking_fail {A} e : ticking (@fail A e).
Proof. by intros s. Qed.
Lemma ticking_lift {A} (r : BnsResult A) : ticking (lift r).
Proof. by intros s. Qed.
Lemma ticking_check b e : ticking (check b e).
Proof. by intros s. Qed.
Lemma ticking_query {A} (f : Db -> A) : ticking (query f).
Proof. by intros s. Qed.
Lemma ticking_update f : ticking (update f).
Proof. by intros s. Qed.
Lemma ticking_ok_or {A} (o : option A) e : ticking (ok_or o e).
Proof. by destruct o; intros s. Qed.
Lemma ticking_now `{Clock} : ticking now_timestamp.
Proof. intros s. simpl. lia. Qed.
Lemma ticking_bind {A B} (m : M A) (k : A -> M B) :
  ticking m -> (forall a, ticking (k a)) -> ticking (bind m k).
Proof.
  intros Hm Hk s. specialize (Hm s). unfold bind. destruct (m s) as [[a| |] s']; simpl in *; [|done|done].
  specialize (Hk a s'). lia.
Qed.
Lemma ticking_transact {A} (m : M A) : ticking m -> ticking (transact m).
Proof. intros Hm s. specialize (Hm s). unfold transact. by destruct (m s) as [[] ?]. Qed.
Lemma ticking_forM {A} (f : A -> M unit) l : (forall a, ticking (f a)) -> ticking (forM f l).
Proof. intros Hf. induction l; [by intros s|]. by apply ticking_bind. Qed.
Lemma ticking_mapM {A B} (f : A -> M B) l : (forall a, ticking (f a)) -> ticking (mapM f l).
Proof.
  intros Hf. induction l; [by intros s|]. apply ticking_bind; [done|intros b].
  apply ticking_bind; [done|]. by intros bs s.
Qed.

Create HintDb ticks.
#[export] Hint Resolve ticking_ret ticking_fail ticking_lift ticking_check ticking_query ticking_update
  ticking_ok_or ticking_now ticking_bind ticking_transact ticking_forM ticking_mapM : ticks.
#[export] Hint Extern 2 (ticking (if ?b then _ else _)) => destruct b : ticks.
#[export] Hint Extern 2 (ticking (match ?b with _ => _ end)) => destruct b : ticks.
#[export] Hint Extern 1 (forall _, ticking _) => intros ? : ticks.
#[export] Hint Unfold get_name list_names get_document get_current_document get_latest_document
  get_authority_key list_authority_keys get_authority_set get_controller_policy authority_set
  require_active_authority_set_at require_active_authority_set materialize_name_state_at
  materialize_name_state resolve_owner_from_state_at resolve_owner_for_name required_raw_name
  ensure_active_name required_active_name validate_semantic_owner_target name_is_authority_owner
  validate_owner_path validate_owner_graph_with check_guard validate_actor_key
  authorize_owner_for_loaded authorize_update_no_guard authorize_update check_rule_controllers
  put_name put_document put_authority_key put_authority_set put_controller_policy put_alias
  put_event_record put_checkpoint reset_name_lineage latest_event append_event : ticks.
#[export] Hint Extern 3 (ticking _) => progress autounfold with ticks : ticks.

Section ticks.
Context `{BnsLibs} `{Clock}.

Lemma ticking_materialize_with r s t :
  (forall s' t', ticking (r s' t')) -> ticking (materialize_with r s t).
Proof. intros Hr. unfold materialize_with. auto with ticks. Qed.

Lemma ticking_resolve_owner_fuel fuel s t : ticking (resolve_owner_fuel fuel s t).
Proof.
  revert s t. induction fuel as [|fuel IH]; intros s t; [by intros x|]. cbn [resolve_owner_fuel].
  destruct (bool_decide _); [auto 20 with ticks|]. destruct (is_top_level_name _); [auto 20 with ticks|].
  apply ticking_bind; [auto with ticks|intros p]. apply ticking_bind; [auto with ticks|intros o].
  apply ticking_bind; [auto with ticks|intros ps]. apply ticking_bind; [|auto with ticks].
  destruct (bool_decide _); [|apply IH].
  apply ticking_bind; [by apply ticking_materialize_with|intros q].
  apply ticking_bind; [auto with ticks|intros _; apply IH].
Qed.

Lemma ticking_owner_path_loop ns t rounds depth cur vis con :
  ticking (owner_path_loop ns t rounds depth cur vis con).
Proof.
  revert depth cur vis con. induction rounds as [|rounds IH]; intros depth cur vis con; [by intros s|].
  cbn [owner_path_loop]. auto 20 with ticks.
Qed.
#[local] Hint Resolve ticking_materialize_with ticking_resolve_owner_fuel ticking_owner_path_loop : ticks.

Lemma ticking_materialize s : ticking (materialize_name_state s).
Proof. auto 20 with ticks. Qed.
Lemma ticking_required_active n : ticking (required_active_name n).
Proof. auto 20 with ticks. Qed.
Lemma ticking_authorize_owner st a : ticking (authorize_owner_for_loaded st a).
Proof. auto 20 with ticks. Qed.
Lemma ticking_authorize_update_no_guard st t p o a : ticking (authorize_update_no_guard st t p o a).
Proof. auto 20 with ticks. Qed.
Lemma ticking_authorize_update st t p o a g : ticking (authorize_update st t p o a g).
Proof. auto 20 with ticks. Qed.
Lemma ticking_resolve_owner_for_name n : ticking (resolve_owner_for_name n).
Proof. auto 20 with ticks. Qed.
Lemma ticking_validate_actor_key p k t : ticking (validate_actor_key p k t).
Proof. auto 20 with ticks. Qed.
Lemma ticking_append_event e t : ticking (append_event e t).
Proof. auto 20 with ticks. Qed.
Lemma ticking_semantic_target p : ticking (validate_semantic_owner_target p).
Proof. auto 20 with ticks. Qed.
Lemma ticking_graph c : ticking (validate_owner_graph_with c).
Proof. auto 20 with ticks. Qed.
#[local] Hint Resolve ticking_materialize ticking_required_active ticking_authorize_owner
  ticking_authorize_update_no_guard ticking_authorize_update ticking_resolve_owner_for_name
  ticking_validate_actor_key ticking_append_event ticking_semantic_target ticking_graph : ticks.

Lemma ticking_store_change t f s : ticking (store_change t f s).
Proof. unfold store_change. auto 20 with ticks. Qed.
Lemma ticking_store_owner_change s : ticking (store_owner_change s).
Proof. unfold store_owner_change. auto 20 with ticks. Qed.
Lemma ticking_authority n us t : ticking (apply_authority_updates n us t).
Proof. unfold apply_authority_updates. auto 30 with ticks. Qed.
Lemma ticking_publish n u b t : ticking (publish_document_internal n u b t).
Proof. unfold publish_document_internal. auto 30 with ticks. Qed.
Lemma ticking_set_iat n i h b t : ticking (set_min_document_iat_internal n i h b t).
Proof. unfold set_min_document_iat_internal. auto 30 with ticks. Qed.
Lemma ticking_register n o opts a g t : ticking (register_internal n o opts a g t).
Proof. unfold register_internal. auto 30 with ticks. Qed.
#[local] Hint Resolve ticking_store_change ticking_store_owner_change ticking_authority ticking_publish
  ticking_set_iat ticking_register : ticks.
Lemma ticking_reported n t u : ticking (publish_reported n t u).
Proof. unfold publish_reported. auto 30 with ticks. Qed.
#[local] Hint Resolve ticking_reported : ticks.

Lemma ticking_call c : ticking (run_call c).
Proof.
  destruct c; apply ticking_bind; [|auto with ticks..];
    unfold register_name, bootstrap_name, renew_name, transfer_name, standard_transfer_name,
      set_name_owner, release_name, set_namespace_policy, update_authority_keys, apply_mutations,
      rotate_authority_and_owner_document, publish_document, revoke_document, set_min_document_iat,
      set_controller_policy, set_did_alias, set_payment_target, publish_log_checkpoint, ensure_write_path;
    auto 30 with ticks.
Qed.
End ticks.

#[export] Hint Resolve ticking_materialize_with ticking_resolve_owner_fuel ticking_owner_path_loop
  ticking_materialize ticking_required_active ticking_authorize_owner
  ticking_authorize_update_no_guard ticking_authorize_update ticking_resolve_owner_for_name
  ticking_validate_actor_key ticking_append_event ticking_semantic_target ticking_graph
  ticking_store_change ticking_store_owner_change ticking_authority ticking_publish ticking_set_iat
  ticking_register ticking_reported ticking_call : ticks.

(** The readings of the steps of a run follow each other. *)
Ltac ticks_inv :=
  repeat match goal with
  | H : ?m ?s = (BOk _, ?s') |- _ =>
      lazymatch goal with
      | _ : (st_ticks s <= st_ticks s')%nat |- _ => fail
      | _ => assert (st_ticks s <= st_ticks s')%nat by (eapply ticking_run; [|exact H]; auto 30 with ticks)
      end
  end; cbn [st_ticks] in *.
