(* ===== verification/BnsFacts.v ===== *)
(** * BNS: what the registry guarantees *)

From S2P Require Import Prelude BnsModel BnsStore BnsRegistry BnsQueries BnsRun BnsSteps BnsCalls.

(** ** Tables in the order of their keys *)

Lemma upsert_append {R} (key : R -> Z) r l :
  (forall x, x ∈ l -> key x < key r) -> upsert key r l = l ++ [r].
Proof.
  intros Hl. induction l as [|x l IH]; [done|]. simpl.
  assert (key x < key r) by (apply Hl; set_solver).
  rewrite (proj2 (Z.ltb_ge _ _)), (proj2 (Z.eqb_neq _ _)) by lia. f_equal. apply IH. set_solver.
Qed.

Lemma upsert_replace_last {R} (key : R -> Z) r y l :
  (forall x, x ∈ l -> key x < key r) -> key y = key r -> upsert key r (l ++ [y]) = l ++ [r].
Proof.
  intros Hl Hy. induction l as [|x l IH]; simpl.
  - by rewrite Hy, Z.ltb_irrefl, Z.eqb_refl.
  - assert (key x < key r) by (apply Hl; set_solver).
    rewrite (proj2 (Z.ltb_ge _ _)), (proj2 (Z.eqb_neq _ _)) by lia. f_equal. apply IH. set_solver.
Qed.

Lemma u64_add_1 a : 0 <= a < i64_bound -> u64_add a 1 = a + 1.
Proof. unfold u64_add, u64_modulus, i64_bound. intros. rewrite Z.mod_small; lia. Qed.

(** The rows of a table are numbered from 1. *)
Definition numbered {R} (key : R -> Z) (l : list R) : Prop :=
  forall i r, l !! i = Some r -> key r = Z.of_nat i + 1.

Lemma numbered_below {R} (key : R -> Z) l v :
  numbered key l -> Z.of_nat (length l) < v -> forall x, x ∈ l -> key x < v.
Proof.
  intros Hl Hv x (i & Hi)%list_elem_of_lookup_1. rewrite (Hl _ _ Hi).
  apply lookup_lt_Some in Hi. lia.
Qed.

Lemma numbered_snoc {R} (key : R -> Z) l r :
  numbered key l -> key r = Z.of_nat (length l) + 1 -> numbered key (l ++ [r]).
Proof.
  intros Hl Hr i x. intros [Hi|[Hi Hx]]%lookup_app_Some; [by apply Hl|].
  apply list_lookup_singleton_Some in Hx as [Hi0 <-]. rewrite Hr. lia.
Qed.

Lemma numbered_last {R} (key : R -> Z) l r :
  numbered key l -> last l = Some r -> key r = Z.of_nat (length l).
Proof.
  intros Hl Hr. rewrite last_lookup in Hr. rewrite (Hl _ _ Hr).
  apply lookup_lt_Some in Hr. lia.
Qed.

(** ** Document histories *)

Section histories.
Context `{BnsLibs}.

Definition row_ok (n t : string) (r : DocRow) : Prop :=
  ds_name (dw_state r) = n /\ ds_doc_type (dw_state r) = t /\ valid_document (dw_state r).

(** The versions of a document are 1, 2, ... in order, and only the last one can
    be the current one. *)
Record history (n t : string) (rows : list DocRow) : Prop := {
  hist_versions : numbered row_version rows;
  hist_rows : forall r, r ∈ rows -> row_ok n t r;
  hist_current : forall i r, rows !! i = Some r -> dw_current r = true -> S i = length rows
}.

Lemma map_clear_lookup rows i r :
  List.map clear_current rows !! i = Some r -> exists r0, rows !! i = Some r0 /\ r = clear_current r0.
Proof. change (List.map clear_current rows) with (clear_current <$> rows). rewrite list_lookup_fmap_Some. naive_solver. Qed.

Lemma history_clear n t rows : history n t rows -> history n t (List.map clear_current rows).
Proof.
  intros [Hv Hr Hc]. split.
  - intros i r (r0 & Hi & ->)%map_clear_lookup. by apply Hv in Hi.
  - intros r (i & (r0 & Hi & ->)%map_clear_lookup)%list_elem_of_lookup_1.
    apply list_elem_of_lookup_2, Hr in Hi. done.
  - by intros i r (r0 & Hi & ->)%map_clear_lookup.
Qed.

Lemma latest_version_length n t rows :
  history n t rows -> latest_version rows = Z.of_nat (length rows) /\ Z.of_nat (length rows) < i64_bound.
Proof.
  intros [Hv Hr _]. unfold latest_version, latest_row. destruct (last rows) as [r|] eqn:E.
  - pose proof (numbered_last _ _ _ Hv E) as El. split; [done|]. rewrite <- El.
    by apply last_Some_elem_of, Hr in E as (_ & _ & _ & ? & _).
  - apply last_None in E as ->. done.
Qed.

Lemma max_version_le n t rows v :
  history n t rows -> Z.of_nat (length rows) <= v ->
  (match latest_row rows with Some r => row_version r | None => -1 end <=? v) = true.
Proof.
  intros Hh Hv. apply Z.leb_le. unfold latest_row. destruct (last rows) as [r|] eqn:E; [|lia].
  rewrite (numbered_last _ _ _ (hist_versions _ _ _ Hh) E). lia.
Qed.

(** What publishing does to the rows. *)
Lemma put_row_publish n t s rows :
  history n t rows -> ds_version s = Z.of_nat (length rows) + 1 ->
  put_row s rows = List.map clear_current rows ++ [mkDocRow true s].
Proof.
  intros Hh Hv. unfold put_row. rewrite (max_version_le n t) by (done || lia). apply upsert_append.
  eapply numbered_below; [apply (hist_versions n t), history_clear, Hh|].
  rewrite length_map. unfold row_version. simpl. lia.
Qed.

Lemma history_publish n t s rows :
  history n t rows -> row_ok n t (mkDocRow true s) -> ds_version s = Z.of_nat (length rows) + 1 ->
  history n t (put_row s rows).
Proof.
  intros Hh Hs Hv. rewrite (put_row_publish n t) by done. apply history_clear in Hh as [Hn Hr Hc]. split.
  - apply numbered_snoc; [done|]. by rewrite length_map.
  - set_solver.
  - intros i r. rewrite length_app. intros [Hi|[Hi Hx]]%lookup_app_Some Hcur.
    + by apply map_clear_lookup in Hi as (? & _ & ->).
    + apply list_lookup_singleton_Some in Hx as [Hi0 _]. rewrite length_map in *. simpl. lia.
Qed.

(** The current version is the last row. *)
Lemma current_is_last n t rows r :
  history n t rows -> last (List.filter dw_current rows) = Some r ->
  exists init, rows = init ++ [r] /\ dw_current r = true.
Proof.
  intros [_ _ Hc] Hl. apply last_Some_elem_of, list_elem_of_In, filter_In in Hl as [Hin%list_elem_of_In Hcur].
  apply list_elem_of_lookup_1 in Hin as [i Hi]. pose proof (Hc _ _ Hi Hcur) as Hlen.
  exists (take i rows). split; [|done].
  rewrite <- (take_drop i rows) at 1. f_equal.
  rewrite (drop_S _ _ _ Hi), drop_ge by lia. done.
Qed.

Lemma put_row_payment n t s init r :
  history n t (init ++ [r]) -> ds_version s = row_version r ->
  put_row s (init ++ [r]) = List.map clear_current init ++ [mkDocRow true s].
Proof.
  intros Hh Hv. pose proof (hist_versions _ _ _ Hh) as Hn.
  assert (Hr : row_version r = Z.of_nat (length init) + 1).
  { apply (Hn (length init)). by rewrite lookup_app_r, Nat.sub_diag by lia. }
  unfold put_row. rewrite (max_version_le n t); [|done|rewrite length_app; simpl; lia].
  rewrite List.map_app. apply upsert_replace_last; [|by symmetry].
  intros x (i & Hi)%list_elem_of_lookup_1. apply map_clear_lookup in Hi as (r0 & Hi & ->).
  unfold row_version at 2. simpl. rewrite Hv, Hr. apply lookup_lt_Some in Hi as Hlt.
  change (row_version r0 < Z.of_nat (length init) + 1). rewrite (Hn i); [lia|]. by rewrite lookup_app_l.
Qed.

Lemma history_payment n t s rows r :
  history n t rows -> last (List.filter dw_current rows) = Some r ->
  row_ok n t (mkDocRow true s) -> ds_version s = row_version r -> history n t (put_row s rows).
Proof.
  intros Hh Hl Hs Hv. destruct (current_is_last _ _ _ _ Hh Hl) as (init & -> & _).
  rewrite (put_row_payment n t) by done. destruct Hh as [Hn Hr Hc].
  assert (Hi : history n t init).
  { split.
    - intros i x Hi. apply Hn. rewrite lookup_app_l; [done|by eapply lookup_lt_Some].
    - set_solver.
    - intros i x Hi Hx. apply lookup_lt_Some in Hi as Hlt. exfalso.
      assert (S i = length (init ++ [r])) by (apply (Hc i x); [by rewrite lookup_app_l|done]).
      rewrite length_app in *. simpl in *. lia. }
  rewrite <- (put_row_publish n t); [|done|].
  - apply history_publish; [done|done|]. rewrite Hv. apply (Hn (length init)).
    by rewrite lookup_app_r, Nat.sub_diag by lia.
  - rewrite Hv. apply (Hn (length init)). by rewrite lookup_app_r, Nat.sub_diag by lia.
Qed.
End histories.

(** ** Invariants of the tables *)

Section invariants.
Context `{BnsLibs}.

Definition name_ok (names : gmap string NameState) (n : string) (s : NameState) : Prop :=
  ns_name s = n /\ valid_row s /\ 0 <= ns_lineage_epoch s < ns_name_seq s
  /\ (length (split_on char_dot n) <= 2)%nat
  /\ forall p, parent_name n = Some p -> is_Some (names !! p).

Definition names_wf (d : Db) : Prop := forall n s, db_names d !! n = Some s -> name_ok (db_names d) n s.

Definition documents_wf (d : Db) : Prop := forall n t, history n t (doc_rows n t d).

(** Every record follows from its event and the record before it. *)
Definition log_wf (d : Db) : Prop := forall i r, db_events d !! i = Some r ->
  ev_seq r = Z.of_nat i + 1
  /\ r = next_record (match i with O => None | S j => db_events d !! j end) (ev_event r) (ev_observed_at r)
  /\ ev_seq r < i64_bound.

(** An authority set states the root and the number of the keys of its name as
    they were able to sign at some time. *)
Definition authority_wf (d : Db) : Prop := forall n set, db_sets d !! n = Some set ->
  as_name set = n /\ exists t, (as_root set, as_active_key_count set) = authority_root (sorted_keys (keys_of d n)) t.

Definition policies_wf (d : Db) : Prop := forall n rules h, db_policies d !! n = Some (rules, h) ->
  check_all validate_rule rules = BOk tt.

Definition registry_wf (d : Db) : Prop :=
  names_wf d /\ documents_wf d /\ log_wf d /\ authority_wf d /\ policies_wf d.

Lemma names_wf_put n d new :
  names_wf d -> name_ok (db_names d) n new -> names_wf (with_names <[n := new]> d).
Proof.
  intros Hw Hn m s. simpl. intros Hm.
  assert (Hok : name_ok (db_names d) m s).
  { apply lookup_insert_Some in Hm as [[<- <-]|[_ Hm]]; [done|by apply Hw]. }
  destruct Hok as (? & ? & ? & ? & Hp). do 4 (split; [done|]). intros p [s' Hs']%Hp.
  destruct (decide (n = p)) as [->|Hne]; [rewrite lookup_insert_eq; eauto|].
  rewrite lookup_insert_ne by done. eauto.
Qed.

Lemma step_names_wf n d d' : bns_step n d d' -> names_wf d -> names_wf d'.
Proof.
  intros [old new Ho [Hm Hop Hq _] Hv|new [Hn _ Hq Hl Hd Hp] Hv|old _ _|s _ _ _|s old _ _ _ _
         |ks set t _ _ _ _ _|rules h _|a _|e t _|c _] Hw; try exact Hw; apply names_wf_put; try done.
  - destruct (Hw _ _ Ho) as (Hno & [_ Hb] & Hs & Hd & Hp). injection Hm as Hm _ Hl _ _.
    assert (0 <= ns_lineage_epoch new < ns_name_seq new); [|split_and!; (congruence || done || lia)].
    rewrite Hl. destruct Hq as [-> | ->]; [done|]. rewrite u64_add_1 by lia. lia.
  - assert (0 <= ns_lineage_epoch new < ns_name_seq new); [|split_and!; (done || lia)]. rewrite Hq, Hl.
    destruct (db_names d !! n) as [s|] eqn:E; [|lia]. destruct (Hw _ _ E) as (_ & [_ Hb] & Hs & _).
    rewrite !u64_add_1 by lia. lia.
Qed.

Lemma doc_rows_store s d n t :
  doc_rows n t (store_document s d)
  = if decide ((ds_name s, ds_doc_type s) = (n, t)) then put_row s (doc_rows n t d) else doc_rows n t d.
Proof.
  unfold store_document, doc_rows at 1. simpl. case_decide as E.
  - rewrite E, lookup_insert_eq. by injection E as <- <-.
  - by rewrite lookup_insert_ne.
Qed.

Lemma doc_rows_clear n m t d :
  doc_rows m t (with_documents (clear_documents n) d)
  = if String.eqb m n then List.map clear_current (doc_rows m t d) else doc_rows m t d.
Proof.
  unfold doc_rows, clear_documents. simpl. rewrite map_lookup_imap.
  destruct (db_documents d !! (m, t)); simpl; by destruct (String.eqb m n).
Qed.

Lemma same_version s old : without_payment s = without_payment old -> ds_version s = ds_version old.
Proof. intros E. apply (f_equal ds_version) in E. by destruct s, old. Qed.

Lemma step_documents_wf n d d' : bns_step n d d' -> documents_wf d -> documents_wf d'.
Proof.
  intros [old new _ _ _|new _ _|old _ _|s Hn Hv Hver|s old Hn Hv Hcur Hsame
         |ks set t _ _ _ _ _|rules h _|a _|e t _|c _] Hw; try exact Hw; intros m t'.
  - change (history m t' (doc_rows m t' (with_documents (clear_documents n) d))).
    rewrite doc_rows_clear. destruct (String.eqb m n); [by apply history_clear|done].
  - rewrite doc_rows_store. case_decide as E; [|done]. injection E as <- <-. rewrite <- Hn in Hver.
    destruct (latest_version_length _ _ _ (Hw (ds_name s) (ds_doc_type s))) as [El Hb].
    apply history_publish; [done|done|]. rewrite Hver, El. apply u64_add_1. lia.
  - rewrite doc_rows_store. case_decide as E; [|done]. injection E as <- <-. rewrite <- Hn in Hcur.
    unfold current_document, latest_row in Hcur. destruct (last _) as [r|] eqn:El; simplify_eq/=.
    eapply history_payment; [done|exact El|done|]. by apply same_version.
Qed.

Lemma log_wf_numbered d : log_wf d -> numbered ev_seq (db_events d).
Proof. intros Hw i r Hi. by apply Hw in Hi as [? _]. Qed.

Lemma log_wf_append d e t :
  log_wf d -> ev_seq (next_record (last (db_events d)) e t) < i64_bound ->
  upsert ev_seq (next_record (last (db_events d)) e t) (db_events d)
  = db_events d ++ [next_record (last (db_events d)) e t]
  /\ ev_seq (next_record (last (db_events d)) e t) = Z.of_nat (length (db_events d)) + 1.
Proof.
  intros Hw Hb. set (r := next_record _ _ _) in *.
  assert (E : ev_seq r = Z.of_nat (length (db_events d)) + 1).
  { unfold r, next_record. simpl. destruct (last (db_events d)) as [l|] eqn:El.
    - rewrite (numbered_last _ _ _ (log_wf_numbered _ Hw) El). apply u64_add_1.
      rewrite <- (numbered_last _ _ _ (log_wf_numbered _ Hw) El). rewrite last_lookup in El.
      destruct (Hw _ _ El) as (? & _ & ?). lia.
    - by apply last_None in El as ->. }
  split; [|done]. apply upsert_append, numbered_below; [by apply log_wf_numbered|lia].
Qed.

Lemma step_log_wf n d d' : bns_step n d d' -> log_wf d -> log_wf d'.
Proof.
  intros [old new _ _ _|new _ _|old _ _|s _ _ _|s old _ _ _ _
         |ks set t _ _ _ _ _|rules h _|a _|e t Hb|c _] Hw; try exact Hw.
  destruct (log_wf_append d e t Hw Hb) as [El Es]. intros i r. simpl. rewrite El.
  intros [Hi|[Hge Hi]]%lookup_app_Some.
  - destruct (Hw _ _ Hi) as (? & Hr & ?). split_and!; [done| |done]. rewrite Hr at 1. f_equal.
    destruct i as [|j]; [done|]. apply lookup_lt_Some in Hi. by rewrite lookup_app_l by lia.
  - apply list_lookup_singleton_Some in Hi as [Hi0 <-]. assert (i = length (db_events d)) as -> by lia.
    split_and!; [done| |done]. f_equal. rewrite last_lookup. destruct (length (db_events d)) as [|j] eqn:Ej.
    + apply nil_length_inv in Ej as ->. done.
    + simpl. rewrite lookup_app_l by lia. done.
Qed.

Lemma step_authority_wf n d d' : bns_step n d d' -> authority_wf d -> authority_wf d'.
Proof.
  intros [old new _ _ _|new _ _|old _ _|s _ _ _|s old _ _ _ _
         |ks set t Hn Hm _ Hroot _|rules h _|a _|e t Hb|c _] Hw; try exact Hw; intros m set'; simpl.
  - rewrite lookup_delete_Some. intros [Hne Hs]. destruct (Hw _ _ Hs) as [? Ht]. split; [done|].
    unfold keys_of. simpl. by rewrite lookup_delete_ne.
  - intros [[<- <-]|[Hne Hs]]%lookup_insert_Some; [split; [done|by exists t]|].
    destruct (Hw _ _ Hs) as [? Ht]. split; [done|]. unfold keys_of. simpl. by rewrite Hm.
Qed.

Lemma step_policies_wf n d d' : bns_step n d d' -> policies_wf d -> policies_wf d'.
Proof.
  intros [old new _ _ _|new _ _|old _ _|s _ _ _|s old _ _ _ _
         |ks set t Hn Hm _ Hroot _|rules h Hr|a _|e t Hb|c _] Hw; try exact Hw; intros m rules' h'; simpl.
  - intros [_ Hs]%lookup_delete_Some. by eapply Hw.
  - intros [[<- [= <- <-]]|[_ Hs]]%lookup_insert_Some; [done|by eapply Hw].
Qed.

Lemma step_registry_wf n d d' : bns_step n d d' -> keyed d -> registry_wf d -> registry_wf d'.
Proof.
  intros Hs _ (H1 & H2 & H3 & H4 & H5). split_and!.
  - by eapply step_names_wf.
  - by eapply step_documents_wf.
  - by eapply step_log_wf.
  - by eapply step_authority_wf.
  - by eapply step_policies_wf.
Qed.

Lemma empty_registry_wf : registry_wf empty_db.
Proof. split_and!; [by intros n s|..| by intros n rules h]; try by intros i r. intros n t. split; [by intros i r|set_solver|by intros i r]. Qed.
End invariants.

(** ** The registry in every reachable store *)

Section registry.
Context `{BnsLibs} `{Clock}.

(** C8: in every store that calls can make, names are canonical, valid and
    stored under themselves, with their parents present and at most two labels;
    the versions of each document are 1, 2, ... without a gap, each with the hash
    of its content, and only the last can be current; the event log is a hash
    chain numbered from 1; authority sets state the root of the keys of their
    name. *)
Theorem registry_invariant s : reachable s -> registry_wf (st_db s).
Proof.
  intros Hs. by eapply (reachable_invariant registry_wf) in Hs as [_ ?];
    [|apply step_registry_wf|apply empty_registry_wf].
Qed.

Lemma reachable_wf s : reachable s -> keyed (st_db s) /\ registry_wf (st_db s).
Proof. apply reachable_invariant; [apply step_registry_wf|apply empty_registry_wf]. Qed.

(** *** Calls and names *)

(** Everything the tables hold of the name [m]. *)
Definition record_of (d : Db) (m : string) :=
  (db_names d !! m, keys_of d m, db_sets d !! m, db_policies d !! m, db_aliases d !! m).

Definition same_record (m : string) (d d' : Db) : Prop :=
  record_of d' m = record_of d m /\ (forall t, doc_rows m t d' = doc_rows m t d)
  /\ db_cursors d' = db_cursors d.

Lemma step_same_record n m d d' : bns_step n d d' -> m <> n -> same_record m d d'.
Proof.
  intros Hs Hne. unfold same_record, record_of, keys_of.
  destruct Hs as [old new _ _ _|new _ _|old _ _|s Hn _ _|s old Hn _ _ _|ks set t _ Hm _ _ _
                 |rules h _|a _|e t _|c _]; simpl; rewrite ?lookup_insert_ne, ?lookup_delete_ne by done;
    split_and!; try done.
  - intros t. change (doc_rows m t (with_documents (clear_documents n) d) = doc_rows m t d).
    rewrite doc_rows_clear. by destruct (String.eqb_spec m n).
  - intros t. rewrite doc_rows_store. case_decide as E; [|done]. by injection E as ? _; congruence.
  - intros t. rewrite doc_rows_store. case_decide as E; [|done]. by injection E as ? _; congruence.
  - by rewrite Hm.
Qed.

Lemma steps_same_record n m d d' : bns_steps n d d' -> m <> n -> same_record m d d'.
Proof.
  induction 1 as [|d d1 d2 Hs _ IH]; intros Hne; [done|].
  destruct (step_same_record _ _ _ _ Hs Hne) as (E1 & E2 & E3). destruct (IH Hne) as (F1 & F2 & F3).
  split_and!; [congruence|intros t; by rewrite F2, E2|congruence].
Qed.

(** C11: a call changes nothing but the records of its own name, the event log and
    the checkpoints; a call that fails changes nothing at all. *)
Theorem call_touches_its_name c s r s' m :
  reachable s -> run_call c s = (r, s') ->
  (m <> target c -> same_record m (st_db s) (st_db s')) /\ (r <> BOk tt -> st_db s' = st_db s).
Proof.
  intros [Hk _]%reachable_wf E. split; [|by eapply call_failed]. intros Hne.
  destruct r as [[]|e|]; [|by rewrite (call_failed _ _ _ _ E)..].
  eapply steps_same_record; [by eapply call_steps|done].
Qed.

(** *** Relations between the tables before and after a call *)

Lemma call_relation (R : Db -> Db -> Prop) `{!PreOrder R} c s r s' :
  (forall n d d', bns_step n d d' -> keyed d -> registry_wf d -> R d d') ->
  reachable s -> run_call c s = (r, s') -> R (st_db s) (st_db s').
Proof.
  intros HR [Hk Hw]%reachable_wf E. destruct r as [[]|e|]; [|by rewrite (call_failed _ _ _ _ E)..].
  apply call_steps in E; [|done]. revert Hk Hw.
  induction E as [|d d1 d2 Hs _ IH]; intros Hk Hw; [done|].
  transitivity d1; [by eapply HR|]. apply IH; [by eapply step_keyed|by eapply step_registry_wf].
Qed.

(** The versions of a document stay, up to their payment fields. *)
Definition rows_extend (rows rows' : list DocRow) : Prop := forall i r, rows !! i = Some r ->
  exists r', rows' !! i = Some r' /\ without_payment (dw_state r') = without_payment (dw_state r).

Definition grows (d d' : Db) : Prop :=
  (forall n t, rows_extend (doc_rows n t d) (doc_rows n t d')) /\ db_events d `prefix_of` db_events d'.

#[local] Instance grows_preorder : PreOrder grows.
Proof.
  split.
  - intros d. split; [|done]. intros n t i r Hi. eauto.
  - intros d1 d2 d3 [H1 P1] [H2 P2]. split; [|by etrans]. intros n t i r Hi.
    destruct (H1 _ _ _ _ Hi) as (r1 & Hi1 & E1). destruct (H2 _ _ _ _ Hi1) as (r2 & Hi2 & E2).
    exists r2. split; [done|congruence].
Qed.

Lemma rows_extend_clear rows : rows_extend rows (List.map clear_current rows).
Proof.
  intros i r Hi. exists (clear_current r). split; [|done].
  change (List.map clear_current rows) with (clear_current <$> rows). by rewrite list_lookup_fmap, Hi.
Qed.

Lemma rows_extend_app rows rows' l : rows_extend rows rows' -> rows_extend rows (rows' ++ l).
Proof.
  intros He i r Hi. destruct (He i r Hi) as (r' & Hi' & E). exists r'. split; [|done].
  rewrite lookup_app_l; [done|by eapply lookup_lt_Some].
Qed.

Lemma rows_extend_payment init r s :
  without_payment s = without_payment (dw_state r) ->
  rows_extend (init ++ [r]) (List.map clear_current init ++ [mkDocRow true s]).
Proof.
  intros Hs i x [Hi|[Hge Hi]]%lookup_app_Some.
  - destruct (rows_extend_app _ _ [mkDocRow true s] (rows_extend_clear init) i x Hi) as (r' & ? & ?). eauto.
  - apply list_lookup_singleton_Some in Hi as [Hi0 <-]. exists (mkDocRow true s). split; [|done].
    rewrite lookup_app_r; rewrite length_map; [|done]. by rewrite Hi0.
Qed.

Lemma step_grows n d d' : bns_step n d d' -> keyed d -> registry_wf d -> grows d d'.
Proof.
  intros Hs _ (_ & Hd & Hl & _). assert (Hsame : forall rows, rows_extend rows rows) by (intros rows i r ?; eauto).
  destruct Hs as [old new _ _ _|new _ _|old _ _|s Hn _ Hver|s old Hn _ Hcur Hsm|ks set t _ _ _ _ _
                 |rules h _|a _|e t Hb|c _]; split; try (intros; apply Hsame); try done.
  - intros m t. change (rows_extend (doc_rows m t d) (doc_rows m t (with_documents (clear_documents n) d))).
    rewrite doc_rows_clear. destruct (String.eqb m n); [apply rows_extend_clear|apply Hsame].
  - intros m t. rewrite doc_rows_store. case_decide as E; [|apply Hsame]. injection E as <- <-.
    destruct (latest_version_length _ _ _ (Hd (ds_name s) (ds_doc_type s))) as [El Hb].
    rewrite (put_row_publish (ds_name s) (ds_doc_type s)); [|done|].
    + apply rows_extend_app, rows_extend_clear.
    + rewrite Hver, <- Hn, El. apply u64_add_1. lia.
  - intros m t. rewrite doc_rows_store. case_decide as E; [|apply Hsame]. injection E as <- <-.
    unfold current_document, latest_row in Hcur. rewrite <- Hn in Hcur.
    destruct (last _) as [r|] eqn:El; simplify_eq/=.
    pose proof (Hd (ds_name s) (ds_doc_type s)) as Hh.
    destruct (current_is_last _ _ _ _ Hh El) as (init & Ei & _). rewrite Ei in Hh |- *.
    rewrite (put_row_payment _ _ _ _ _ Hh) by by apply same_version. by apply rows_extend_payment.
  - simpl. rewrite (proj1 (log_wf_append d e t Hl Hb)). by eexists.
Qed.

(** No call takes back what was published: every version of every document
    keeps everything but its payment fields, and the event log only grows at its
    end. *)
Theorem history_append_only c s r s' :
  reachable s -> run_call c s = (r, s') -> grows (st_db s) (st_db s').
Proof. apply call_relation; [apply _|apply step_grows]. Qed.

(** What happens to a name over time: it never goes away, its sequence number and
    its lineage never go back, within a lineage the floor for document times never
    falls, and a tombstone is final. *)
Definition name_ages (old new : NameState) : Prop :=
  ns_name_seq old <= ns_name_seq new /\ ns_lineage_epoch old <= ns_lineage_epoch new
  /\ (ns_lineage_epoch new = ns_lineage_epoch old -> ns_min_document_iat old <= ns_min_document_iat new)
  /\ (ns_status old = NsReleased -> new = old \/ ns_lineage_epoch old < ns_lineage_epoch new)
  /\ (ns_status old = NsTombstoned -> new = old).

Definition names_age (d d' : Db) : Prop := forall n old, db_names d !! n = Some old ->
  exists new, db_names d' !! n = Some new /\ name_ages old new.

#[local] Instance name_ages_preorder : PreOrder name_ages.
Proof.
  split; [intros s; unfold name_ages; split_and!; (lia || tauto)|].
  intros s1 s2 s3 (A1 & A2 & A3 & A4 & A5) (B1 & B2 & B3 & B4 & B5). unfold name_ages. split_and!; [lia|lia|..].
  - intros E. assert (ns_lineage_epoch s2 = ns_lineage_epoch s1) by lia. etrans; [by apply A3|apply B3; lia].
  - intros E. destruct (A4 E) as [-> | Hlt]; [by apply B4|right; lia].
  - intros E. rewrite (A5 E) in *. by apply B5.
Qed.

#[local] Instance names_age_preorder : PreOrder names_age.
Proof.
  split; [intros d n old Hn; by exists old|]. intros d1 d2 d3 H1 H2 n old Hn.
  destruct (H1 _ _ Hn) as (s2 & Hs2 & A). destruct (H2 _ _ Hs2) as (s3 & Hs3 & B).
  exists s3. split; [done|by etrans].
Qed.

Lemma names_age_put n d new :
  (forall old, db_names d !! n = Some old -> name_ages old new) -> names_age d (with_names <[n := new]> d).
Proof.
  intros Hn m old Hm. simpl. destruct (decide (n = m)) as [->|Hne].
  - exists new. rewrite lookup_insert_eq. split; [done|by apply Hn].
  - exists old. by rewrite lookup_insert_ne.
Qed.

Lemma step_names_age n d d' : bns_step n d d' -> keyed d -> registry_wf d -> names_age d d'.
Proof.
  intros Hs _ (Hn & _). destruct Hs as [old new Ho Hst _|new Hst _|old _ _|s _ _ _|s old _ _ _ _|ks set t _ _ _ _ _
                 |rules h _|a _|e t Hb|c _]; try (intros m o Hm; by exists o); apply names_age_put.
  - intros o Ho'. rewrite Ho in Ho'. injection Ho' as <-. destruct Hst as [Hm [Hrel Htomb] Hq Hi].
    injection Hm as _ _ Hl _ _. destruct (Hn _ _ Ho) as (_ & [_ Hb] & Hr & _).
    unfold name_ages. split_and!; [|lia|done|tauto|tauto]. destruct Hq as [-> | ->]; [lia|]. rewrite u64_add_1 by lia. lia.
  - intros o Ho. destruct Hst as [_ Hfree Hq Hl _ _]. rewrite Ho in Hfree, Hq, Hl. simpl in Hfree.
    destruct (Hn _ _ Ho) as (_ & [_ Hb] & Hr & _). rewrite u64_add_1 in Hq, Hl by lia.
    unfold name_ages. split_and!; [lia|lia|lia|right; lia|]. by intros E; rewrite E in Hfree.
Qed.

(** Over any call a name keeps its record or ages: sequence numbers and
    lineages never go back, the floor for document times never falls within a
    lineage, a released name changes only by a new registration, and a tombstoned
    name never changes again. *)
Theorem names_only_age c s r s' :
  reachable s -> run_call c s = (r, s') -> names_age (st_db s) (st_db s').
Proof. apply call_relation; [apply _|apply step_names_age]. Qed.
End registry.
