(* ===== verification/BnsAuth.v ===== *)
(** * BNS: owners and authority

    Who owns a name, what a call must show to change it, and what its guard
    protects. *)

From S2P Require Import Prelude BnsModel BnsStore BnsRegistry BnsQueries BnsRun BnsSteps BnsCalls BnsFacts.

(** ** Owners *)

(** The effective owner of a name: the name it was given to, or else the account
    that holds a first-level name, or else the owner of its parent. *)
Inductive owner_of (names : gmap string NameState) : string -> Principal -> Prop :=
| owner_explicit n s :
    names !! n = Some s -> pr_kind (ns_semantic_owner s) = PkBnsName ->
    owner_of names n (ns_semantic_owner s)
| owner_asset n s :
    names !! n = Some s -> pr_kind (ns_semantic_owner s) <> PkBnsName -> is_top_level_name n = true ->
    owner_of names n (chain_account (ns_asset_owner s))
| owner_inherited n s p q :
    names !! n = Some s -> pr_kind (ns_semantic_owner s) <> PkBnsName -> is_top_level_name n = false ->
    parent_name n = Some p -> owner_of names p q -> owner_of names n q.

Lemma owner_of_functional names n p q : owner_of names n p -> owner_of names n q -> p = q.
Proof.
  intros Hp. revert q. induction Hp as [n s Hs Hk|n s Hs Hk Ht|n s p q Hs Hk Ht Hpar _ IH];
    intros q' Hq; inversion Hq; simplify_eq; try congruence. by apply IH.
Qed.

Section owners.
Context `{BnsLibs} `{Clock}.

Lemma resolve_owner_sound fuel st t s o s' n raw :
  rows_keyed (st_db s) -> db_names (st_db s) !! n = Some raw -> core st = core raw ->
  resolve_owner_fuel fuel st t s = (BOk o, s') -> owner_of (db_names (st_db s)) n (or_effective_owner o).
Proof.
  intros Hk. revert st s o s' n raw Hk. induction fuel as [|fuel IH]; intros st s o s' n raw Hk Hraw Hc Hr; [done|].
  apply core_eq in Hc as (Hm & _ & _ & Hsem & Has & _). injection Hm as Hn _ _ _ _.
  rewrite (Hk _ _ Hraw) in Hn. cbn [resolve_owner_fuel] in Hr. rewrite Hsem, Has, Hn in Hr.
  case_bool_decide as Hkind; [run_inv; simpl; by eapply owner_explicit|].
  destruct (is_top_level_name n) eqn:Ht; [run_inv; simpl; by eapply owner_asset|].
  unfold get_name in Hr. run_inv. simpl. eapply owner_inherited; [done..|].
  case_bool_decide; run_inv.
  - match goal with Hm : materialize_with _ _ _ _ = (_, ?s2) |- _ =>
      assert (E : st_db s2 = st_db s)
        by (eapply reads_run; [|exact Hm]; apply reads_materialize_with; intros; apply reads_resolve_owner_fuel);
      unfold materialize_with in Hm end.
    run_inv. rewrite <- E. eapply IH; [by rewrite E|rewrite E; eassumption| |eassumption].
    by rewrite core_set_ownership, core_materialize_status.
  - eapply IH; [done|eassumption| |eassumption]. by rewrite core_materialize_status.
Qed.

Lemma resolve_for_name_sound n s o s' :
  rows_keyed (st_db s) -> resolve_owner_for_name n s = (BOk o, s') ->
  owner_of (db_names (st_db s)) n (or_effective_owner o).
Proof.
  intros Hk Hr. unfold resolve_owner_for_name, get_name in Hr. run_inv.
  eapply (resolve_owner_sound _ _ _ (mkStore (st_db s) (S (st_ticks s)))); [done|eassumption| |exact Hr].
  by rewrite core_materialize_status.
Qed.

(** ** Authority *)

(** The readings of the clock that a call took. *)
Definition during (lo hi i : nat) : Prop := (lo <= i < hi)%nat.

Context (lo hi : nat).

(** The actor of a call can sign for itself with the key it names. *)
Definition key_signs (d : Db) (a : CallAuthority) : Prop :=
  match pr_kind (ca_actor a) with
  | PkUnset => False
  | PkChainAccount => True
  | PkBnsName => exists k i, during lo hi i
      /\ keys_of d (pr_value (ca_actor a)) !! ca_kid a = Some k
      /\ is_active_for k KEY_PURPOSE_AUTHENTICATION (clock_at i) = true
  end.

Definition owner_authorizes (d : Db) (n : string) (a : CallAuthority) : Prop :=
  ca_role a = ArOwner /\ owner_of (db_names d) n (ca_actor a) /\ key_signs d a.

Definition controller_authorizes (d : Db) (n doc_type : string) (permission : Z) (a : CallAuthority)
  : Prop :=
  ca_role a = ArController
  /\ (pr_kind (ca_actor a) = PkBnsName -> key_signs d a)
  /\ exists rules h rule i, during lo hi i /\ db_policies d !! n = Some (rules, h) /\ rule ∈ rules
     /\ permits rule (ca_actor a) doc_type permission (clock_at i) = true.

Lemma validate_actor_key_ok a i s u s' :
  during lo hi i ->
  validate_actor_key (ca_actor a) (ca_kid a) (clock_at i) s = (BOk u, s') -> key_signs (st_db s) a.
Proof.
  unfold validate_actor_key, key_signs, get_authority_key. intros Hi Hr. destruct (pr_kind (ca_actor a)); [done|done|].
  run_inv. eexists _, i. split; [done|]. split; [eassumption|by apply negb_false_iff].
Qed.

Lemma authorize_owner_ok st a s u s' :
  (lo <= st_ticks s)%nat -> (st_ticks s' <= hi)%nat ->
  rows_keyed (st_db s) -> authorize_owner_for_loaded st a s = (BOk u, s') ->
  owner_authorizes (st_db s) (ns_name st) a.
Proof.
  intros Hlo Hhi Hk Hr. unfold authorize_owner_for_loaded in Hr. run_inv. ticks_inv.
  match goal with Ho : resolve_owner_for_name _ _ = (_, ?s1) |- _ =>
    assert (E : st_db s1 = st_db s) by (eapply reads_run; [|exact Ho]; auto with reads);
    apply resolve_for_name_sound in Ho; [|done] end.
  repeat match goal with Hb : negb (bool_decide _) = false |- _ => apply negb_false_iff, bool_decide_eq_true in Hb end.
  apply validate_actor_key_ok in Hr; [|unfold during; lia]. cbn [st_db] in Hr. rewrite E in Hr.
  split_and!; [done|congruence|done].
Qed.

Lemma authorize_update_ok st t perm op a s u s' :
  (lo <= st_ticks s)%nat -> (st_ticks s' <= hi)%nat ->
  rows_keyed (st_db s) -> authorize_update_no_guard st t perm op a s = (BOk u, s') ->
  owner_authorizes (st_db s) (ns_name st) a \/ controller_authorizes (st_db s) (ns_name st) t perm a.
Proof.
  intros Hlo Hhi Hk Hr. unfold authorize_update_no_guard in Hr.
  destruct (ca_role a) eqn:Ea; [run_inv|left; by eapply authorize_owner_ok|right].
  unfold get_controller_policy in Hr. run_inv. ticks_inv.
  assert (Hi : during lo hi (st_ticks s)) by (unfold during; lia).
  match goal with Hp : (if bool_decide _ then _ else _) _ = (_, ?s1) |- _ =>
    assert (E : st_db s1 = st_db s) by (eapply (reads_run _ (mkStore (st_db s) (S (st_ticks s)))); [|exact Hp]; auto with reads);
    assert (Hsig : pr_kind (ca_actor a) = PkBnsName -> key_signs (st_db s) a);
    [intros Hkind; rewrite bool_decide_eq_true_2 in Hp by done; by apply validate_actor_key_ok in Hp|clear Hp] end.
  match goal with Hx : negb (existsb _ _) = false |- _ =>
    apply negb_false_iff, existsb_exists in Hx as (rule & Hin%list_elem_of_In & Hperm) end.
  rewrite E in Hin. destruct (db_policies (st_db s) !! ns_name st) as [[rules h]|] eqn:Epol; [|set_solver].
  do 2 (split; [done|]). exists rules, h, rule, (st_ticks s). do 3 (split; [done|]). done.
Qed.

(** ** What a call must show *)

(** The name is active, and at the sequence number the caller expects. *)
Definition name_at (d : Db) (n : string) (seq : Z) : Prop := exists raw i,
  during lo hi i /\ db_names d !! n = Some raw
  /\ effective_status_at raw (clock_at i) = NsActive /\ ns_name_seq raw = seq.

Definition owner_call (d : Db) (n : string) (a : CallAuthority) (g : MutationGuard) : Prop :=
  name_at d n (expected_name_seq g) /\ owner_authorizes d n a.

Definition update_call (d : Db) (n t : string) (perm : Z) (a : CallAuthority) (g : MutationGuard) : Prop :=
  name_at d n (expected_name_seq g) /\ (owner_authorizes d n a \/ controller_authorizes d n t perm a).

Definition register_call (d : Db) (n : string) (a : CallAuthority) (g : MutationGuard) : Prop :=
  match parent_name n with
  | Some p => name_at d p (expected_parent_name_seq g) /\ owner_authorizes d p a
  | None => ca_role a = ArNone
  end.

(** What the tables before a call must say for the call to succeed. *)
Definition call_authorized (d : Db) (c : Call) : Prop :=
  match c with
  | CallRegister n _ _ _ a g | CallBootstrap n _ _ _ _ _ _ _ a g => register_call d n a g
  | CallTransfer n _ _ _ a g | CallSetOwner n _ a g | CallRelease n _ _ a g | CallUpdateKeys n _ a g
  | CallRotate n _ _ a g | CallSetIat n _ _ a g | CallSetPolicy n _ _ a g => owner_call d n a g
  | CallPublish n u a g => update_call d n (du_doc_type u) PERMISSION_PUBLISH_DOCUMENT a g
  | CallRevoke n t _ _ a g => update_call d n t PERMISSION_REVOKE_DOCUMENT a g
  | CallSetPayment n t _ _ _ _ _ _ _ a g => update_call d n t PERMISSION_SET_PAYMENT a g
  | CallSetAlias n _ _ _ a g => update_call d n "" PERMISSION_SET_ALIAS a g
  | CallSetNamespace n _ _ a g => update_call d n "" PERMISSION_SET_NAMESPACE a g
  | CallApply n ks us p a g =>
      owner_call d n a g
      \/ ks = [] /\ op_update_min_document_iat p = false /\ us <> []
         /\ forall u, u ∈ us -> du_doc_type u <> "owner"
            /\ update_call d n (du_doc_type u) PERMISSION_PUBLISH_DOCUMENT a g
  | CallRenew n _ => exists raw, db_names d !! n = Some raw /\ ns_renewable raw = true /\ open_name raw
  | CallStandardTransfer n _ => exists raw, db_names d !! n = Some raw
      /\ name_at d n (ns_name_seq raw) /\ ns_transferable raw = true
      /\ owner_of (db_names d) n (chain_account (ns_asset_owner raw))
  | CallCheckpoint _ _ => True
  end.

(** The state that a call works on is the row of its name. *)
Lemma loaded n st s s' :
  (lo <= st_ticks s)%nat -> (st_ticks s' <= hi)%nat ->
  rows_keyed (st_db s) -> required_active_name n s = (BOk st, s') ->
  st_db s' = st_db s /\ ns_name st = n /\ name_at (st_db s) n (ns_name_seq st).
Proof.
  intros Hlo Hhi Hk Hr. assert (Ht : (st_ticks s < st_ticks s')%nat).
  { unfold required_active_name, required_raw_name, ensure_active_name, get_name in Hr. run_inv. ticks_inv. lia. }
  apply required_active_ok in Hr as (E & raw & Hraw & Hact & Hcore & _). split; [done|].
  apply core_eq in Hcore as (Hm & Hq & _). injection Hm as Hn _ _ _ _.
  split; [by rewrite Hn, (Hk _ _ Hraw)|]. exists raw, (st_ticks s). split; [unfold during; lia|]. done.
Qed.

Lemma guard_ok st g s u s' : check_guard st g s = (BOk u, s') -> s' = s /\ expected_name_seq g = ns_name_seq st.
Proof. unfold check_guard. intros Hg. run_inv. by apply negb_false_iff, Z.eqb_eq in Hg. Qed.

Lemma owner_call_ok n st a g s s1 u1 s2 u2 s3 :
  (lo <= st_ticks s)%nat -> (st_ticks s3 <= hi)%nat ->
  rows_keyed (st_db s) -> required_active_name n s = (BOk st, s1) ->
  check_guard st g s1 = (BOk u1, s2) -> authorize_owner_for_loaded st a s2 = (BOk u2, s3) ->
  owner_call (st_db s) n a g.
Proof.
  intros Hlo Hhi Hk Hl [-> Hg]%guard_ok Ha. ticks_inv.
  apply loaded in Hl as (E & Hn & Hat); [|lia|lia|done]. split; [by rewrite Hg|]. rewrite <- E, <- Hn.
  eapply authorize_owner_ok; [..|exact Ha]; [lia|lia|by rewrite E].
Qed.

Lemma update_call_ok n st t perm op a g s s1 u s2 :
  (lo <= st_ticks s)%nat -> (st_ticks s2 <= hi)%nat ->
  rows_keyed (st_db s) -> required_active_name n s = (BOk st, s1) ->
  authorize_update st t perm op a g s1 = (BOk u, s2) -> update_call (st_db s) n t perm a g.
Proof.
  intros Hlo Hhi Hk Hl Hr. unfold authorize_update in Hr. run_inv.
  match goal with Hg : check_guard _ _ _ = _ |- _ => apply guard_ok in Hg as [-> Hseq] end. ticks_inv.
  apply loaded in Hl as (E & Hn & Hat); [|lia|lia|done].
  split; [by rewrite Hseq|]. rewrite <- E, <- Hn. eapply authorize_update_ok; [..|exact Hr]; [lia|lia|by rewrite E].
Qed.

Lemma register_call_ok n o opts a g t s new s' :
  (lo <= st_ticks s)%nat -> (st_ticks s' <= hi)%nat ->
  rows_keyed (st_db s) -> register_internal n o opts a g t s = (BOk new, s') ->
  register_call (st_db s) n a g.
Proof.
  intros Hlo Hhi Hk Hr. unfold register_internal, get_name in Hr. apply bind_ok in Hr as (ex & s1 & Hex & Hr).
  run_inv. ticks_inv. unfold register_call.
  match goal with Hp : (match parent_name n with Some _ => _ | None => _ end) s = _ |- _ =>
    destruct (parent_name n) as [p|]; run_inv; ticks_inv; rename Hp into Hlast end.
  - match goal with Ha : required_active_name _ _ = _ |- _ => apply loaded in Ha as (E & Hn & Hat); [|lia|lia|done] end.
    match goal with Hg : negb (_ =? _) = false |- _ => apply negb_false_iff, Z.eqb_eq in Hg; rename Hg into Hseq end.
    split; [by rewrite Hseq|]. rewrite <- E, <- Hn. eapply authorize_owner_ok; [..|exact Hlast]; [lia|lia|by rewrite E].
  - by apply negb_false_iff, bool_decide_eq_true in Hlast.
Qed.
End owners.

Section authorized.
Context `{BnsLibs} `{Clock}.

Lemma asset_owner_source fuel st t s o s' :
  resolve_owner_fuel fuel st t s = (BOk o, s') -> or_source o = OsAssetOwnerFallback ->
  pr_kind (ns_semantic_owner st) <> PkBnsName /\ is_top_level_name (ns_name st) = true.
Proof.
  destruct fuel as [|fuel]; [done|]. cbn [resolve_owner_fuel]. intros Hr Ho.
  case_bool_decide; [run_inv; done|]. destruct (is_top_level_name _); [done|]. by run_inv.
Qed.

Lemma std_set_ownership e src b st : ns_standard_transfer_enabled (set_ownership e src b st) = b.
Proof. by destruct st. Qed.

(** A name that may be transferred by its asset owner is held by that account. *)
Lemma standard_transfer_owner n raw st st' s s' :
  rows_keyed (st_db s) -> db_names (st_db s) !! n = Some raw -> core st = core raw ->
  materialize_name_state st s = (BOk st', s') -> ns_standard_transfer_enabled st' = true ->
  ns_transferable raw = true /\ owner_of (db_names (st_db s)) n (chain_account (ns_asset_owner raw)).
Proof.
  intros Hk Hraw Hc Hm Hstd. apply core_eq in Hc as (Hmeta & _ & _ & Hsem & _).
  injection Hmeta as Hn _ _ _ Htr. unfold materialize_name_state, materialize_name_state_at, materialize_with in Hm.
  run_inv. rewrite std_set_ownership in Hstd.
  apply andb_true_iff in Hstd as [[Ht _]%andb_true_iff Hsrc%bool_decide_eq_true].
  match goal with Hr : resolve_owner_from_state_at _ _ _ = _ |- _ =>
    apply asset_owner_source in Hr as [Hkind Htop]; [|done] end.
  set (m := materialize_status_at st _) in *.
  assert (Em : core m = core st) by apply core_materialize_status.
  apply core_eq in Em as (Em & _ & _ & Es & _). injection Em as En _ _ _ Et.
  rewrite Es, Hsem in Hkind. rewrite En, Hn, (Hk _ _ Hraw) in Htop. split; [congruence|].
  by apply owner_asset.
Qed.

Lemma forM_all {A} (f : A -> M unit) l s u s' :
  (forall a, reads (f a)) -> (forall a, ticking (f a)) -> forM f l s = (BOk u, s') -> forall a, a ∈ l ->
  exists s1 s2, f a s1 = (BOk tt, s2) /\ st_db s1 = st_db s
    /\ (st_ticks s <= st_ticks s1)%nat /\ (st_ticks s2 <= st_ticks s')%nat.
Proof.
  intros Hf Ht. revert s. induction l as [|b l IH]; intros s Hr a; [set_solver|]. cbn [forM] in Hr. run_inv.
  match goal with Hb : f b s = (_, ?s1) |- _ =>
    pose proof (reads_run _ _ _ _ (Hf b) Hb) as Eb; pose proof (ticking_run _ _ _ _ (Ht b) Hb) as Tb end.
  assert (Tr : (st_ticks x0 <= st_ticks s')%nat) by (eapply ticking_run; [|exact Hr]; auto with ticks).
  intros [->|Hin]%elem_of_cons; [by exists s, x0|].
  destruct (IH _ Hr a Hin) as (s1 & s2 & ? & ? & ? & ?). exists s1, s2. split_and!; [done|congruence|lia|lia].
Qed.

(** The documents of a batch are authorised one by one, against one state of the name. *)
Lemma batch_update_call lo hi n st perm op a g us s s1 s2 v s3 u :
  (lo <= st_ticks s)%nat -> (st_ticks s3 <= hi)%nat -> rows_keyed (st_db s) ->
  required_active_name n s = (BOk st, s1) -> check_guard st g s1 = (BOk tt, s2) ->
  forM (fun u => authorize_update_no_guard st (du_doc_type u) perm op a) us s2 = (BOk v, s3) -> u ∈ us ->
  update_call lo hi (st_db s) n (du_doc_type u) perm a g.
Proof.
  intros Hlo Hhi Hk Hl [-> Hg]%guard_ok Hf Hu.
  eapply forM_all in Hf as (s4 & s5 & Hr & E4 & T4 & T5); [..|exact Hu]; [|auto with reads|auto with ticks].
  ticks_inv. eapply (loaded lo hi) in Hl as (E & Hn & Hat); [|lia|lia|done].
  split; [by rewrite Hg|]. rewrite <- E, <- E4, <- Hn.
  eapply authorize_update_ok; [..|exact Hr]; [lia|lia|by rewrite E4, E].
Qed.

Lemma apply_authorized n ks us p a g s s' :
  rows_keyed (st_db s) -> run_call (CallApply n ks us p a g) s = (BOk tt, s') ->
  call_authorized (st_ticks s) (st_ticks s') (st_db s) (CallApply n ks us p a g).
Proof.
  intros Hk Hr. assert (Hlast : (st_ticks s <= st_ticks s')%nat) by (eapply ticking_run; [|exact Hr]; auto with ticks).
  cbn [run_call] in Hr. unfold apply_mutations in Hr. run_inv.
  match goal with Hz : (if negb _ || _ || _ then _ else _) _ = _ |- _ => rename Hz into Hauth end.
  match goal with Hz : check_guard _ _ _ = _ |- _ => rename Hz into Hg end.
  match goal with Hz : required_active_name _ (mkStore _ _) = _ |- _ => rename Hz into Hl end.
  match goal with Hz : _ && _ && _ = false |- _ => rename Hz into Hne end.
  match type of Hauth with _ = (_, ?s3) =>
    match goal with |- call_authorized _ (st_ticks ?sf) _ _ =>
      assert (Hend : (st_ticks s3 <= st_ticks sf)%nat) by (ticks_inv; lia) end end.
  cbn [call_authorized]. change (st_db s) with (st_db (mkStore (st_db s) (S (st_ticks s)))).
  destruct (negb _ || _ || _) eqn:Eb in Hauth.
  - left.
    eapply owner_call_ok; [..|exact Hl|exact Hg|exact Hauth]; simpl; [lia|lia|done].
  - right. apply orb_false_iff in Eb as [[Ek Hf]%orb_false_iff Ho]. destruct ks; [|done].
    split_and!; [done|done|by intros ->; rewrite Hf in Hne|].
    intros u Hu. split.
    { intros E. apply not_true_iff_false in Ho. apply Ho, existsb_exists. exists u.
      split; [by apply list_elem_of_In|]. unfold is_owner_document. by rewrite E. }
    eapply batch_update_call; [..|exact Hl|exact Hg|exact Hauth|exact Hu]; simpl; [lia|lia|done].
Qed.

(** Solve the authority of a call from the checks of its run. *)
Ltac authorized_tac Hk :=
  match goal with
  | Hl : required_active_name ?n ?s1 = _, Hg : check_guard _ _ _ = _, Ha : authorize_owner_for_loaded _ _ _ = _
      |- owner_call _ _ ?d ?n _ _ =>
      change d with (st_db s1); eapply owner_call_ok; [..|exact Hl|exact Hg|exact Ha]; ticks_inv; [lia|lia|exact Hk]
  | Hl : required_active_name ?n ?s1 = _, Ha : authorize_update _ _ _ _ _ _ _ = _
      |- update_call _ _ ?d ?n _ _ _ _ =>
      change d with (st_db s1); eapply update_call_ok; [..|exact Hl|exact Ha]; ticks_inv; [lia|lia|exact Hk]
  | Hl : register_internal ?n _ _ _ _ _ ?s1 = _ |- register_call _ _ ?d ?n _ _ =>
      change d with (st_db s1); eapply register_call_ok; [..|exact Hl]; ticks_inv; [lia|lia|exact Hk]
  end.

Lemma standard_transfer_authorized n o s s' :
  rows_keyed (st_db s) -> run_call (CallStandardTransfer n o) s = (BOk tt, s') ->
  call_authorized (st_ticks s) (st_ticks s') (st_db s) (CallStandardTransfer n o).
Proof.
  intros Hk Hr. cbn [run_call] in Hr. unfold standard_transfer_name in Hr. run_inv. ticks_inv.
  match goal with Hl : required_active_name _ _ = _ |- _ => pose proof Hl as Hl'; apply required_active_ok in Hl as (E & raw & Hraw & Hact & Hcore & _) end.
  match goal with |- call_authorized ?lo ?hi _ _ => apply (loaded lo hi) in Hl' as (_ & Hn & Hat); [|simpl; lia|lia|done] end.
  match goal with Hs : negb _ = false |- _ => apply negb_false_iff in Hs; rename Hs into Hstd end.
  cbn [st_db] in *. exists raw. split; [done|]. apply core_eq in Hcore as Hq. destruct Hq as (_ & Hq & _).
  split; [by rewrite <- Hq|].
  match goal with Hm : materialize_name_state _ _ = _ |- _ =>
    eapply standard_transfer_owner in Hm; [by rewrite E in Hm|by rewrite E|by rewrite E|done|done] end.
Qed.

Lemma call_authority c s s' :
  rows_keyed (st_db s) -> run_call c s = (BOk tt, s') ->
  call_authorized (st_ticks s) (st_ticks s') (st_db s) c.
Proof.
  intros Hk Hr. destruct c; cbn [call_authorized];
    try (by eapply apply_authorized); try (by eapply standard_transfer_authorized); cbn [run_call] in Hr;
    unfold register_name, bootstrap_name, renew_name, transfer_name, set_name_owner, release_name,
      set_namespace_policy, update_authority_keys, rotate_authority_and_owner_document, publish_document,
      revoke_document, set_min_document_iat, set_controller_policy, set_did_alias, set_payment_target,
      required_raw_name, get_name in Hr;
    run_inv; try done; try authorized_tac Hk; [|case_bool_decide; run_inv; authorized_tac Hk].
  match goal with Hraw : db_names (st_db s) !! _ = Some ?raw, Hc : _ || _ = false |- _ =>
    exists raw; apply orb_false_iff in Hc as [[Hren Hc1]%orb_false_iff Hc2] end.
  apply negb_false_iff in Hren. apply bool_decide_eq_false in Hc1, Hc2. by split_and!.
Qed.

(** C9: What a call that succeeded has shown, against the tables as they were
    before it, by the kind of the call.  A transfer, a change of owner, a release,
    an update or rotation of keys, and a change of the minimal issue time or of
    the controller policy name the effective owner of the name as their actor; the
    publication or revocation of a document and a change of a payment target, an
    alias or the namespace name the owner or a controller whose rule permits it
    for the type of document; a batch of updates the owner, or, if it only
    publishes documents of other types than [owner], such a controller for each.  There the name
    is active and at the sequence number of the guard, and an actor that is a name
    has an active authentication key under the given id; an actor that is an
    account shows no key.  The registration of a name below another needs the same
    of the owner of the parent, at the expected sequence number of the parent; a
    first-level name is registered without authority.  A renewal needs a renewable
    name that was not given up, a standard transfer a transferable active name
    whose asset account is its effective owner, and a checkpoint nothing. *)
Theorem calls_authorized c s s' :
  reachable s -> run_call c s = (BOk tt, s') ->
  call_authorized (st_ticks s) (st_ticks s') (st_db s) c.
Proof. intros [[Hk _] _]%reachable_wf. by apply call_authority. Qed.
End authorized.
