(* ===== verification/BnsGuards.v ===== *)
(** * BNS: guards

    A guard names the sequence number that its caller saw.  The calls that
    advance the number use their guard up; the updates of authority keys do not. *)

From S2P Require Import Prelude BnsModel BnsStore BnsRegistry BnsQueries BnsRun BnsSteps BnsCalls BnsFacts BnsAuth.

(** The sequence number that a call expects of its name. *)
Definition expected_seq (c : Call) : option Z :=
  match c with
  | CallTransfer _ _ _ _ _ g | CallSetOwner _ _ _ g | CallRelease _ _ _ _ g | CallSetNamespace _ _ _ _ g
  | CallUpdateKeys _ _ _ g | CallApply _ _ _ _ _ g | CallRotate _ _ _ _ g | CallPublish _ _ _ g
  | CallRevoke _ _ _ _ _ g | CallSetIat _ _ _ _ g | CallSetPolicy _ _ _ _ g | CallSetAlias _ _ _ _ _ g
  | CallSetPayment _ _ _ _ _ _ _ _ _ _ g => Some (expected_name_seq g)
  | CallRegister _ _ _ _ _ _ | CallBootstrap _ _ _ _ _ _ _ _ _ _ | CallRenew _ _
  | CallStandardTransfer _ _ | CallCheckpoint _ _ => None
  end.

(** The guarded calls that change nothing but keys. *)
Definition keys_only (c : Call) : bool :=
  match c with
  | CallUpdateKeys _ _ _ _ => true
  | CallApply _ _ [] p _ _ => negb (op_update_min_document_iat p)
  | _ => false
  end.

(** The name is past the sequence number [v]. *)
Definition past (n : string) (v : Z) (d : Db) : Prop :=
  exists s, db_names d !! n = Some s /\ v < ns_name_seq s.

(** The number of the guard is the one of the state that was read. *)
Ltac guard_inv :=
  match goal with Hg : check_guard _ _ _ = _ |- _ => apply guard_ok in Hg as [-> Hseq] end.

Section guards.
Context `{BnsLibs} `{Clock}.

Definition good (d : Db) : Prop := keyed d /\ registry_wf d.

Lemma steps_good n d d' : bns_steps n d d' -> good d -> good d'.
Proof.
  induction 1 as [|d d1 d2 Hs _ IH]; [done|]. intros [Hk Hw].
  apply IH. split; [by eapply step_keyed|by eapply step_registry_wf].
Qed.

Lemma steps_past n d d' m v : bns_steps n d d' -> good d -> past m v d -> past m v d'.
Proof.
  induction 1 as [|d d1 d2 Hs _ IH]; [done|]. intros [Hk Hw] (s & Hm & Hv).
  apply IH; [split; [by eapply step_keyed|by eapply step_registry_wf]|].
  destruct (step_names_age _ _ _ Hs Hk Hw _ _ Hm) as (s' & Hs' & Hq & _). exists s'. split; [done|lia].
Qed.

Lemma call_past c s r s' m v :
  reachable s -> run_call c s = (r, s') -> past m v (st_db s) -> past m v (st_db s').
Proof.
  intros Hg%reachable_wf E Hp. destruct r as [[]|e|]; [|by rewrite (call_failed _ _ _ _ E)..].
  eapply steps_past; [eapply call_steps; [apply Hg|exact E]|done|done].
Qed.

(** The next sequence number is past the old one. *)
Lemma next_seq_past n raw new d :
  good d -> db_names d !! n = Some raw -> ns_name_seq new = u64_add (ns_name_seq raw) 1 ->
  ns_name_seq raw < ns_name_seq new.
Proof.
  intros [_ (Hn & _)] Hraw Hq. destruct (Hn _ _ Hraw) as (_ & [_ Hb] & Hr & _).
  rewrite u64_add_1 in Hq by lia. lia.
Qed.

Lemma change_past n t f state d s1 new s2 raw v :
  st_db s1 = d -> good d -> db_names d !! n = Some raw -> core state = core raw -> open_name raw ->
  keeps f -> store_change t f state s1 = (BOk new, s2) -> v = ns_name_seq state -> past n v (st_db s2).
Proof.
  intros <- Hg Hraw Hc Ho Hf Hs ->. eapply store_change_step in Hs as (_ & Hnew & Hq); [|apply Hg|done..].
  apply core_eq in Hc as (_ & -> & _). exists new. split; [done|]. by eapply next_seq_past.
Qed.

Lemma owner_change_past n t f state d s1 new s2 raw v :
  st_db s1 = d -> good d -> db_names d !! n = Some raw -> core state = core raw -> open_name raw ->
  keeps f -> store_owner_change (bump t (f state)) s1 = (BOk new, s2) -> v = ns_name_seq state ->
  past n v (st_db s2).
Proof.
  intros <- Hg Hraw Hc Ho Hf Hs ->. eapply store_owner_change_step in Hs as (_ & Hnew & Hq); [|apply Hg|done..].
  apply core_eq in Hc as (_ & -> & _). exists new. split; [done|]. by eapply next_seq_past.
Qed.

Lemma append_past n v e t s r s' :
  append_event e t s = (BOk r, s') -> past n v (st_db s) -> past n v (st_db s').
Proof. intros [_ E]%(append_event_ok n). unfold past. by rewrite E. Qed.

(** The name that an internal mutation reads, changes by [f] and stores. *)
Lemma read_change_past n f s1 state s2 new s3 s4 u raw :
  good (st_db s1) -> required_active_name n s1 = (BOk state, s2) ->
  materialize_name_state (f state) s2 = (BOk new, s3) -> put_name new s3 = (BOk u, s4) ->
  (forall s, ns_name (f s) = ns_name s /\ ns_name_seq (f s) = u64_add (ns_name_seq s) 1) ->
  db_names (st_db s1) !! n = Some raw -> past n (ns_name_seq raw) (st_db s4).
Proof.
  intros Hg (E2 & raw' & Hraw & _ & Hcore & _)%required_active_ok (E3 & Hcn & _)%materialize_ok
    [_ Ep]%put_name_ok Hf Hr. rewrite Hraw in Hr. injection Hr as ->.
  apply core_eq in Hcore as (Hm & Hq & _). injection Hm as Hn _ _ _ _.
  apply core_eq in Hcn as (Hm' & Hq' & _). injection Hm' as Hn' _ _ _ _.
  destruct (Hf state) as [Fn Fq]. pose proof (proj1 (proj1 Hg) _ _ Hraw) as Hk.
  exists new. rewrite Ep. simpl. split.
  - rewrite Hn', Fn, Hn, Hk. by rewrite lookup_insert_eq.
  - eapply next_seq_past; [exact Hg|done|]. by rewrite Hq', Fq, Hq.
Qed.

Lemma publish_past n u t s v s' raw :
  good (st_db s) -> db_names (st_db s) !! n = Some raw ->
  publish_document_internal n u true t s = (BOk v, s') -> past n (ns_name_seq raw) (st_db s').
Proof.
  intros Hg Hraw Hr. unfold publish_document_internal in Hr.
  apply bind_ok in Hr as (cur & s1 & Hcur & Hr). apply reads_run in Hcur; [|auto with reads].
  rewrite <- Hcur in Hg, Hraw. clear Hcur. run_inv.
  match goal with Hl : get_latest_document _ _ _ = _ |- _ => apply get_latest_ok in Hl as [-> Hv] end.
  match goal with Hp : put_document _ _ = _ |- _ =>
    unfold published_document in Hp at 1; apply (publish_step n) in Hp as [Hp En]; [|done|by simpl; rewrite Hv] end.
  eapply append_past; [eassumption|].
  eapply (read_change_past n (with_published _ true t)); [|eassumption..| |by rewrite En].
  - eapply steps_good; [by apply rtc_once|done].
  - intros st. unfold with_published. destruct st, (String.eqb _ _); by simpl.
Qed.

Lemma set_iat_past n i h t s v s' raw :
  good (st_db s) -> db_names (st_db s) !! n = Some raw ->
  set_min_document_iat_internal n i h true t s = (BOk v, s') -> past n (ns_name_seq raw) (st_db s').
Proof.
  intros Hg Hraw Hr. unfold set_min_document_iat_internal in Hr. run_inv.
  eapply append_past; [eassumption|].
  eapply (read_change_past n (with_iat_floor i true t)); [done|eassumption..| |done].
  by intros [].
Qed.

Lemma authority_names n us t s set s' :
  apply_authority_updates n us t s = (BOk set, s') -> db_names (st_db s') = db_names (st_db s).
Proof.
  intros Hr. unfold apply_authority_updates in Hr. run_inv.
  match goal with Hp : forM _ _ _ = _ |- _ => apply put_keys_ok in Hp as (ks & Eks & _) end.
  match goal with Hp : put_authority_set _ _ = _ |- _ => unfold put_authority_set in Hp end. run_inv.
  match goal with He : append_event _ _ _ = _ |- _ => apply (append_event_ok n) in He as [_ Hev] end.
  cbn [st_db] in *. rewrite Hev. cbn [db_names with_sets]. rewrite Eks. cbn [db_names with_keys]. by reads_inv.
Qed.

(** *** The calls that advance *)

Lemma namespace_past n al h a g s s' :
  good (st_db s) -> run_call (CallSetNamespace n al h a g) s = (BOk tt, s') ->
  past n (expected_name_seq g) (st_db s').
Proof.
  intros Hg Hr. cbn [run_call] in Hr. unfold set_namespace_policy, authorize_update in Hr. run_inv.
  guard_inv. active_inv raw.
  eapply append_past; [eassumption|]. eapply change_past; [..|eassumption|done]; [eassumption|done..|keeps_tac].
Qed.

Lemma set_policy_past n rs h a g s s' :
  good (st_db s) -> run_call (CallSetPolicy n rs h a g) s = (BOk tt, s') ->
  past n (expected_name_seq g) (st_db s').
Proof.
  intros Hg Hr. cbn [run_call] in Hr. unfold set_controller_policy in Hr. run_inv. guard_inv. active_inv raw.
  match goal with Hp : put_controller_policy _ _ _ ?s1 = _, E : st_db ?s1 = st_db s |- _ =>
    apply put_policy_step in Hp as [Hp En]; rewrite E in Hp, En end.
  eapply append_past; [eassumption|].
  eapply change_past; [..|eassumption|done]; [done| |by rewrite En|done|done|keeps_tac].
  eapply steps_good; [by apply rtc_once|done].
Qed.

Lemma set_alias_past n d k p a g s s' :
  good (st_db s) -> run_call (CallSetAlias n d k p a g) s = (BOk tt, s') ->
  past n (expected_name_seq g) (st_db s').
Proof.
  intros Hg Hr. cbn [run_call] in Hr. unfold set_did_alias, authorize_update in Hr. run_inv. guard_inv. active_inv raw.
  match goal with Ha : put_alias _ _ = _ |- _ => unfold put_alias in Ha end. run_inv.
  eapply append_past; [eassumption|]. unfold past. cbn [st_db db_names with_aliases].
  eapply (change_past n); [..|eassumption|done]; [eassumption|done..|keeps_tac].
Qed.

Lemma revoke_past n t v r a g s s' :
  good (st_db s) -> run_call (CallRevoke n t v r a g) s = (BOk tt, s') ->
  past n (expected_name_seq g) (st_db s').
Proof.
  intros Hg Hr. cbn [run_call] in Hr. unfold revoke_document, authorize_update in Hr. run_inv. guard_inv.
  match goal with Hl : get_latest_document _ _ _ = _ |- _ => apply get_latest_ok in Hl as [-> Hv] end.
  active_inv raw.
  match goal with Hp : put_document _ ?s1 = _, E : st_db ?s1 = st_db s |- _ =>
    unfold revoked_document in Hp; apply (publish_step n) in Hp as [Hp En]; [|done|by simpl; rewrite Hv, E];
    rewrite E in Hp, En end.
  eapply append_past; [eassumption|].
  eapply change_past; [..|eassumption|done]; [done| |by rewrite En|done|done|].
  - eapply steps_good; [by apply rtc_once|done].
  - intros []. by destruct (String.eqb _ _).
Qed.

Lemma set_payment_past n t v tg b h1 h2 h3 h4 a g s s' :
  good (st_db s) -> run_call (CallSetPayment n t v tg b h1 h2 h3 h4 a g) s = (BOk tt, s') ->
  past n (expected_name_seq g) (st_db s').
Proof.
  intros Hg Hr. cbn [run_call] in Hr. unfold set_payment_target, authorize_update in Hr. run_inv. guard_inv.
  match goal with Hl : get_current_document _ _ _ = _ |- _ => apply current_document_ok in Hl as [-> Hcur] end.
  active_inv raw.
  match goal with Hs : ?o = Some ?doc, Hc : ?o = current_document _ _ _ |- _ => rename doc into c; rewrite Hs in Hc end.
  match goal with Hp : put_document _ ?s1 = _, E : st_db ?s1 = st_db s |- _ =>
    apply (payment_step n _ _ _ _ _ _ _ _ _ _ _ _ (proj1 Hg) E (eq_sym Hcur)) in Hp as [Hp En] end.
  eapply append_past; [eassumption|].
  eapply change_past; [..|eassumption|done]; [done| |by rewrite En|done|done|keeps_tac].
  eapply steps_good; [by apply rtc_once|done].
Qed.

Lemma transfer_past n o ow ds a g s s' :
  good (st_db s) -> run_call (CallTransfer n o ow ds a g) s = (BOk tt, s') ->
  past n (expected_name_seq g) (st_db s').
Proof.
  intros Hg Hr. cbn [run_call] in Hr. unfold transfer_name in Hr. run_inv. guard_inv. active_inv raw.
  match goal with Hs : store_owner_change (bump ?t _) ?s1 = _ |- _ =>
    pose proof Hs as Hs'; eapply (owner_change_past n t (fun x => set_semantic_owner ow (set_asset_owner o x))) in Hs';
    [|done..|keeps_tac|exact Hseq];
    eapply (owner_change_steps n (st_db s) _ (fun x => set_semantic_owner ow (set_asset_owner o x)))
      in Hs as [Hs _]; [|done|apply Hg|done..|keeps_tac] end.
  match goal with H1 : append_event _ _ _ = (_, ?s1), H2 : append_event _ _ ?s1 = (_, ?s2) |- _ =>
    assert (Hp : past n (expected_name_seq g) (st_db s2))
      by (eapply append_past; [exact H2|]; eapply append_past; [exact H1|done]);
    assert (Hl : good (st_db s2))
      by (eapply steps_good; [eapply log_last; [eapply log_last; [|exact H1]; eassumption|exact H2]|done]) end.
  eapply steps_past; [|exact Hl|exact Hp]. eapply publish_all_steps; [apply Hl|eassumption].
Qed.

Lemma set_owner_past n ow a g s s' :
  good (st_db s) -> run_call (CallSetOwner n ow a g) s = (BOk tt, s') ->
  past n (expected_name_seq g) (st_db s').
Proof.
  intros Hg Hr. cbn [run_call] in Hr. unfold set_name_owner in Hr. run_inv. guard_inv. active_inv raw.
  eapply append_past; [eassumption|].
  eapply (owner_change_past n _ (set_semantic_owner ow)); [..|eassumption|done]; [eassumption|done..|keeps_tac].
Qed.

Lemma release_past n m r a g s s' :
  good (st_db s) -> run_call (CallRelease n m r a g) s = (BOk tt, s') ->
  past n (expected_name_seq g) (st_db s').
Proof.
  intros Hg Hr. cbn [run_call] in Hr. unfold release_name in Hr. run_inv. guard_inv. active_inv raw.
  eapply append_past; [eassumption|].
  eapply (owner_change_past n _ (set_ns_status (released_status m))); [..|eassumption|done];
    [eassumption|done..|keeps_tac].
Qed.

Lemma publish_call_past n u a g s s' :
  good (st_db s) -> run_call (CallPublish n u a g) s = (BOk tt, s') ->
  past n (expected_name_seq g) (st_db s').
Proof.
  intros Hg Hr. cbn [run_call] in Hr. unfold publish_document, authorize_update in Hr. run_inv. guard_inv.
  active_inv raw. apply core_eq in Hcore as (_ & Hq & _). rewrite Hseq, Hq.
  match goal with Hp : publish_document_internal _ _ _ _ ?s1 = _, E : st_db ?s1 = st_db s |- _ =>
    rewrite <- E in Hg, Hraw; by eapply publish_past end.
Qed.

Lemma set_iat_call_past n i r a g s s' :
  good (st_db s) -> run_call (CallSetIat n i r a g) s = (BOk tt, s') ->
  past n (expected_name_seq g) (st_db s').
Proof.
  intros Hg Hr. cbn [run_call] in Hr. unfold set_min_document_iat in Hr. run_inv. guard_inv.
  active_inv raw. apply core_eq in Hcore as (_ & Hq & _). rewrite Hseq, Hq.
  match goal with Hp : set_min_document_iat_internal _ _ _ _ _ ?s1 = _, E : st_db ?s1 = st_db s |- _ =>
    rewrite <- E in Hg, Hraw; by eapply set_iat_past end.
Qed.

Lemma rotate_past n ks u a g s s' :
  good (st_db s) -> run_call (CallRotate n ks u a g) s = (BOk tt, s') ->
  past n (expected_name_seq g) (st_db s').
Proof.
  intros Hg Hr. cbn [run_call] in Hr. unfold rotate_authority_and_owner_document in Hr. run_inv. guard_inv.
  active_inv raw. apply core_eq in Hcore as (_ & Hq & _). rewrite Hseq, Hq.
  match goal with Hu : apply_authority_updates _ _ _ ?s1 = _, E : st_db ?s1 = st_db s |- _ =>
    rewrite <- E in Hg, Hraw; pose proof (authority_names _ _ _ _ _ _ Hu) as En;
    apply authority_steps in Hu; [|apply Hg] end.
  eapply publish_past; [by eapply steps_good|by rewrite En|eassumption].
Qed.

Lemma restamp_past n t s st s1 new s2 raw :
  good (st_db s) -> db_names (st_db s) !! n = Some raw -> required_active_name n s = (BOk st, s1) ->
  store_change t (fun x => x) st s1 = (BOk new, s2) -> past n (ns_name_seq raw) (st_db s2).
Proof.
  intros Hg Hraw (E & raw' & Hraw' & Hcore & Hopen)%active_row Hs.
  rewrite Hraw in Hraw'. injection Hraw' as <-.
  eapply change_past; [..|exact Hs|by apply core_eq in Hcore as (_ & -> & _)]; [done..|keeps_tac].
Qed.

Lemma apply_past n ks ds p a g s s' :
  good (st_db s) -> keys_only (CallApply n ks ds p a g) = false ->
  run_call (CallApply n ks ds p a g) s = (BOk tt, s') -> past n (expected_name_seq g) (st_db s').
Proof.
  intros Hg Hko Hr. cbn [run_call] in Hr. unfold apply_mutations in Hr. run_inv. guard_inv.
  match goal with Hx : required_active_name _ (mkStore (st_db s) _) = (_, ?s1),
    Hz : (if _ then authorize_owner_for_loaded _ _ else _) ?s1 = (_, ?s3),
    Ha : required_active_name _ ?s4 = (_, ?s5), Hb : authority_set _ ?s5 = (_, ?s6) |- _ =>
    apply active_row in Hx as (Ex & raw & Hraw & Hcore & _); cbn [st_db] in Ex, Hraw;
    assert (E1 : st_db s3 = st_db s) by (rewrite <- Ex; clear -H Hz; reads_inv; done);
    assert (E2 : st_db s6 = st_db s4) by (clear -H Ha Hb; reads_inv; done);
    clear Hz Ha Hb end.
  apply core_eq in Hcore as (_ & Hq & _). rewrite E2, Hseq, Hq. rewrite <- E1 in Hg, Hraw.
  match goal with Hm : (if match ks with [] => _ | _ => _ end then _ else _) ?s1 = (_, ?s2) |- _ =>
    assert (Hs : good (st_db s2) /\ db_names (st_db s2) !! n = Some raw) end.
  { destruct ks; run_inv; [done|]. match goal with Hu : apply_authority_updates _ _ _ _ = _ |- _ =>
      split; [eapply steps_good; [eapply authority_steps; [apply Hg|exact Hu]|done]|];
      apply authority_names in Hu; by rewrite Hu end. }
  destruct Hs as [Hg1 Hraw1].
  match goal with Hm : (if ?b then _ else ret tt) ?s1 = (BOk tt, ?s2), Hd : mapM _ _ ?s2 = _ |- _ =>
    assert (Hb : b = true) by (destruct ds; [simpl in Hko |- *; by destruct (op_update_min_document_iat p)|done]);
    assert (Hs : past n (ns_name_seq raw) (st_db s2) /\ good (st_db s2)); [rewrite Hb in Hm; clear Hd; run_inv|] end.
  { split; [by eapply restamp_past|]. eapply steps_good; [|exact Hg1]. eapply restamp_steps; [apply Hg1|done..]. }
  destruct Hs as [Hp Hg2].
  match goal with Hm : mapM _ _ _ = _ |- _ => apply publish_reported_steps in Hm; [|apply Hg2]; rename Hm into Hpub end.
  pose proof (steps_past _ _ _ _ _ Hpub Hg2 Hp) as Hp3. pose proof (steps_good _ _ _ Hpub Hg2) as Hg3.
  destruct (op_update_min_document_iat p); run_inv; [|done].
  eapply steps_past; [eapply set_iat_steps; [apply Hg3|eassumption]|done|done].
Qed.

Lemma call_advances c v s s' :
  good (st_db s) -> run_call c s = (BOk tt, s') -> expected_seq c = Some v -> keys_only c = false ->
  past (target c) v (st_db s').
Proof.
  intros Hg Hr Hv Hk. destruct c; simpl in Hv, Hk |- *; try done; injection Hv as <-;
    eauto using namespace_past, set_policy_past, set_alias_past, revoke_past, set_payment_past,
      transfer_past, set_owner_past, release_past, publish_call_past, set_iat_call_past, rotate_past.
  by eapply apply_past.
Qed.

(** A guarded call succeeds only at the sequence number that it expects. *)
Lemma call_at_seq c v s s' :
  rows_keyed (st_db s) -> run_call c s = (BOk tt, s') -> expected_seq c = Some v ->
  exists raw, db_names (st_db s) !! target c = Some raw /\ ns_name_seq raw = v.
Proof.
  intros Hk Hr Hv. apply call_authority in Hr; [|done]. unfold call_authorized in Hr.
  assert (Hat : name_at (st_ticks s) (st_ticks s') (st_db s) (target c) v).
  { destruct c; simpl in Hv |- *; try done; injection Hv as <-; try apply Hr.
    destruct Hr as [[? _]|(_ & _ & Hne & Hu)]; [done|]. destruct documents as [|u us]; [done|]. by apply (Hu u); left. }
  destruct Hat as (raw & i & _ & Hraw & _ & Hq). by exists raw.
Qed.

(** The stores that calls can make of a store. *)
Definition later : Store -> Store -> Prop := rtc (fun s s' => exists c r, run_call c s = (r, s')).

Lemma later_past s s' n v :
  reachable s -> later s s' -> past n v (st_db s) -> past n v (st_db s') /\ reachable s'.
Proof.
  intros Hs Hl. induction Hl as [|s s1 s2 (c & r & E) _ IH]; [done|]. intros Hp.
  apply IH; [by eapply reach_call|by eapply call_past].
Qed.

(** C10: a guard is used up by the call that it guards, unless the call only changes
    authority keys: once any other guarded call has succeeded, no guarded call on
    that name succeeds under the same sequence number again, whatever calls happen
    in between.  (An update of keys leaves the number, see
    [key_updates_keep_guard].) *)
Theorem guard_used_once c c' v s s1 s2 r s3 :
  reachable s -> run_call c s = (BOk tt, s1) -> expected_seq c = Some v -> keys_only c = false ->
  later s1 s2 -> target c' = target c -> expected_seq c' = Some v -> run_call c' s2 = (r, s3) ->
  r <> BOk tt.
Proof.
  intros Hs Hr Hv Hk Hl Ht Hv' Hr' ->. assert (Hp : past (target c) v (st_db s1)).
  { eapply call_advances; [by apply reachable_wf|done..]. }
  apply (later_past _ _ _ _ (reach_call _ _ _ _ Hs Hr) Hl) in Hp as [(x & Hx & Hlt) [[Hrk _] _]%reachable_wf].
  destruct (call_at_seq _ _ _ _ Hrk Hr' Hv') as (raw & Hraw & <-). rewrite Ht, Hx in Hraw. simplify_eq. lia.
Qed.

(** An update of authority keys checks its guard but leaves the sequence
    number of the name as it is: the tables of names do not change. *)
Theorem key_updates_keep_guard n ks a g s s' :
  run_call (CallUpdateKeys n ks a g) s = (BOk tt, s') -> db_names (st_db s') = db_names (st_db s).
Proof.
  intros Hr. cbn [run_call] in Hr. unfold update_authority_keys in Hr. run_inv. guard_inv. active_inv raw.
  match goal with Hu : apply_authority_updates _ _ _ ?s1 = _, E : st_db ?s1 = st_db s |- _ =>
    apply authority_names in Hu; by rewrite Hu, E end.
Qed.
End guards.
