(* ===== verification/BnsOwners.v ===== *)
(** * BNS: the owner graph

    What [validate_owner_path] accepts, and what the calls that change owners
    keep of it. *)

From S2P Require Import Prelude BnsModel BnsStore BnsRegistry BnsQueries BnsRun BnsSteps BnsCalls BnsFacts BnsAuth.

(** ** Paths to a signer *)

Definition key_count (d : Db) (n : string) : Z :=
  match db_sets d !! n with Some set => as_active_key_count set | None => 0 end.

(** From [n] the owners lead in [k] steps of active names to a name that owns
    itself with an active key, or to a first-level name that an account holds. *)
Inductive signer_path (d : Db) (names : gmap string NameState) (t : Z) : nat -> string -> Prop :=
| path_self n s :
    names !! n = Some s -> effective_status_at s t = NsActive ->
    pr_kind (ns_semantic_owner s) = PkBnsName -> pr_value (ns_semantic_owner s) = n ->
    0 < key_count d n -> signer_path d names t 0 n
| path_asset n s :
    names !! n = Some s -> effective_status_at s t = NsActive ->
    pr_kind (ns_semantic_owner s) <> PkBnsName -> is_top_level_name (ns_name s) = true ->
    is_empty (ns_asset_owner s) = false -> signer_path d names t 0 n
| path_owner k n s :
    names !! n = Some s -> effective_status_at s t = NsActive ->
    pr_kind (ns_semantic_owner s) = PkBnsName -> pr_value (ns_semantic_owner s) <> n ->
    signer_path d names t k (pr_value (ns_semantic_owner s)) -> signer_path d names t (S k) n
| path_parent k n s p :
    names !! n = Some s -> effective_status_at s t = NsActive ->
    pr_kind (ns_semantic_owner s) <> PkBnsName -> is_top_level_name (ns_name s) = false ->
    parent_name (ns_name s) = Some p -> signer_path d names t k p -> signer_path d names t (S k) n.

Definition has_signer (d : Db) (names : gmap string NameState) (t : Z) (n : string) : Prop :=
  exists k, (k <= MAX_OWNER_REF_DEPTH)%nat /\ signer_path d names t k n.

Lemma path_active d names t k n :
  signer_path d names t k n -> exists s, names !! n = Some s /\ effective_status_at s t = NsActive.
Proof. intros []; eauto. Qed.

(** A name has one distance to its signer. *)
Lemma path_functional d names t j k n :
  signer_path d names t j n -> signer_path d names t k n -> j = k.
Proof.
  intros Hj. revert k. induction Hj as [n s Hs Ha Hk Hv Hc|n s Hs Ha Hk Ht He|j n s Hs Ha Hk Hv _ IH|j n s p Hs Ha Hk Ht Hp _ IH];
    intros k Hk'; inversion Hk'; simplify_eq; try congruence; f_equal; by apply IH.
Qed.

Section owners.
Context `{BnsLibs} `{Clock}.

Lemma key_count_ok n s set s' :
  authority_set n s = (BOk set, s') -> as_active_key_count set = key_count (st_db s) n /\ s' = s.
Proof.
  unfold authority_set, get_authority_set, key_count. intros Hr. run_inv. by destruct (db_sets (st_db s) !! n).
Qed.

Lemma owner_path_sound names t rounds depth cur vis con s u s' :
  (rounds + depth = S MAX_OWNER_REF_DEPTH)%nat -> (depth <= MAX_OWNER_REF_DEPTH)%nat ->
  owner_path_loop names t rounds depth cur vis con s = (BOk u, s') ->
  exists k, (k + depth <= MAX_OWNER_REF_DEPTH)%nat /\ signer_path (st_db s) names t k cur.
Proof.
  revert depth cur vis con s. induction rounds as [|rounds IH]; intros depth cur vis con s Hrd Hd Hr; [lia|].
  cbn [owner_path_loop] in Hr. run_inv.
  match goal with Hs : names !! cur = Some ?x |- _ => rename x into st; rename Hs into Hst end.
  match goal with Ha : negb (bool_decide _) = false |- _ =>
    apply negb_false_iff, bool_decide_eq_true in Ha; rename Ha into Hact end.
  case_bool_decide as Hk; run_inv.
  - match goal with Ha : authority_set _ _ = _ |- _ => apply key_count_ok in Ha as [Hc ->] end.
    destruct (String.eqb _ cur) eqn:Ev; run_inv.
    + apply String.eqb_eq in Ev. match goal with Hn : negb (0 <? _) = false |- _ => apply negb_false_iff, Z.ltb_lt in Hn end.
      exists 0%nat. split; [lia|]. eapply path_self; [done..|]. rewrite <- Ev. lia.
    + apply String.eqb_neq in Ev. match goal with Hn : (_ =? _)%nat = false |- _ => apply Nat.eqb_neq in Hn end.
      apply IH in Hr as (k & Hk' & Hp); [|lia|lia]. exists (S k). split; [lia|]. by eapply path_owner.
  - destruct (is_top_level_name _) eqn:Et; run_inv.
    + exists 0%nat. split; [lia|]. by eapply path_asset.
    + match goal with Hn : (_ =? _)%nat = false |- _ => apply Nat.eqb_neq in Hn end.
      apply IH in Hr as (k & Hk' & Hp); [|lia|lia]. exists (S k). split; [lia|]. by eapply path_parent.
Qed.

(** The names that own others are canonical. *)
Definition owners_valid (names : gmap string NameState) : Prop := forall n s,
  names !! n = Some s -> validate_semantic_owner (ns_semantic_owner s) = BOk tt.

Lemma owners_valid_wf d : registry_wf d -> owners_valid (db_names d).
Proof.
  intros (Hn & _) n s Hs. destruct (Hn _ _ Hs) as (_ & [Hv _] & _). unfold validate_name_state in Hv.
  rewrite !seq_ok in Hv. by destruct Hv as (_ & _ & [[] ?] & _).
Qed.

Lemma owner_name_canonical names n s :
  owners_valid names -> names !! n = Some s -> pr_kind (ns_semantic_owner s) = PkBnsName ->
  canonical_bns_name (pr_value (ns_semantic_owner s)) = BOk (pr_value (ns_semantic_owner s)).
Proof.
  intros Hv Hs Hk. specialize (Hv _ _ Hs). unfold validate_semantic_owner, validate_principal in Hv.
  rewrite Hk in Hv. apply seq_ok in Hv as [(n' & Hn) _]. by rewrite Hn, (canonical_bns_name_ok _ _ Hn) at 1.
Qed.

Lemma authority_set_run n s :
  canonical_bns_name n = BOk n ->
  exists set, authority_set n s = (BOk set, s) /\ as_active_key_count set = key_count (st_db s) n.
Proof.
  intros Hn. unfold authority_set, get_authority_set, bind, lift. rewrite Hn. eexists. split; [reflexivity|].
  unfold key_count. by destruct (db_sets (st_db s) !! n).
Qed.

Lemma owner_path_complete names t rounds depth cur vis con s k :
  owners_valid names -> (rounds + depth = S MAX_OWNER_REF_DEPTH)%nat ->
  signer_path (st_db s) names t k cur -> (k + depth <= MAX_OWNER_REF_DEPTH)%nat ->
  (forall v, v ∈ vis -> exists j, (k < j)%nat /\ signer_path (st_db s) names t j v) ->
  owner_path_loop names t rounds depth cur vis con s = (BOk tt, s).
Proof.
  intros Hv. revert depth cur vis con k. induction rounds as [|rounds IH]; intros depth cur vis con k Hrd Hp Hkd Hvis; [lia|].
  assert (Hcur : cur ∉ vis) by (intros (j & Hj & Hpj)%Hvis; rewrite (path_functional _ _ _ _ _ _ Hpj Hp) in Hj; lia).
  assert (Hvis' : forall k' v, S k' = k -> v ∈ {[cur]} ∪ vis ->
    exists j, (k' < j)%nat /\ signer_path (st_db s) names t j v).
  { intros k' v <- [->%elem_of_singleton|(j & Hj & ?)%Hvis]%elem_of_union; [exists (S k')|exists j]; by (split; [lia|]). }
  cbn [owner_path_loop]. unfold bind at 1, check, lift. rewrite bool_decide_eq_false_2 by done. cbn [reject_if].
  inversion Hp as [n st Hs Ha Hk Hval Hc|n st Hs Ha Hk Ht He|k' n st Hs Ha Hk Hval Hrest|k' n st p Hs Ha Hk Ht Hpar Hrest]; subst;
    unfold bind at 1; rewrite Hs; cbn [ok_or ret]; unfold bind at 1; rewrite bool_decide_eq_true_2 by done;
    cbn [negb reject_if].
  - rewrite bool_decide_eq_true_2 by done. unfold bind. rewrite Hs. cbn [ok_or ret]. rewrite bool_decide_eq_true_2 by done.
    cbn [negb reject_if]. destruct (authority_set_run _ s (owner_name_canonical _ _ _ Hv Hs Hk)) as (set & -> & Hcount).
    rewrite String.eqb_refl, Hcount, (proj2 (Z.ltb_lt _ _) Hc). done.
  - rewrite bool_decide_eq_false_2, Ht, He by done. done.
  - rewrite bool_decide_eq_true_2 by done. destruct (path_active _ _ _ _ _ Hrest) as (so & Hso & Hao).
    unfold bind. rewrite Hso. cbn [ok_or ret]. rewrite bool_decide_eq_true_2 by done. cbn [negb reject_if].
    destruct (authority_set_run _ s (owner_name_canonical _ _ _ Hv Hs Hk)) as (set & -> & Hcount).
    rewrite (proj2 (String.eqb_neq _ _)), (proj2 (Nat.eqb_neq _ _)) by (done || lia). cbn [reject_if].
    eapply IH; [lia|done|lia|]. intros v. by apply Hvis'.
  - rewrite bool_decide_eq_false_2, Ht, Hpar by done. unfold bind. cbn [ok_or ret].
    rewrite (proj2 (Nat.eqb_neq _ _)) by lia. cbn [reject_if].
    eapply IH; [lia|done|lia|]. intros v. by apply Hvis'.
Qed.


(** ** The graph of all names *)

Lemma names_with_ok d st :
  rows_keyed d ->
  names_with (stable_sort by_name (snd <$> map_to_list (db_names d))) (Some st) = <[ns_name st := st]> (db_names d).
Proof.
  intros Hk. unfold names_with. by rewrite (fold_sorted_rows ns_name by_name), (right_id_L ∅ (∪)).
Qed.

Lemma owner_graph_sound st s u s' :
  rows_keyed (st_db s) -> validate_owner_graph_with (Some st) s = (BOk u, s') ->
  let names := <[ns_name st := st]> (db_names (st_db s)) in
  let t := clock_at (st_ticks s) in
  forall m x, names !! m = Some x -> effective_status_at x t = NsActive -> has_signer (st_db s) names t m.
Proof.
  intros Hk Hr names t m x Hm Hx. unfold validate_owner_graph_with, list_names in Hr. run_inv.
  rewrite names_with_ok in Hr by done. fold names t in Hr.
  assert (Hn : ns_name x = m).
  { apply lookup_insert_Some in Hm as [[<- <-]|[_ Hm]]; [done|by eapply Hk]. }
  eapply (forM_all _ _ (mkStore (st_db s) (S (st_ticks s)))) in Hr as (s1 & s2 & Hr & E & _); [| |..].
  - rewrite bool_decide_eq_true_2 in Hr by done. unfold validate_owner_path in Hr.
    apply owner_path_sound in Hr as (k & Hk' & Hp); [|lia|lia]. rewrite E, Hn in Hp. exists k. split; [lia|done].
  - intros y. case_bool_decide; [|auto with reads]. apply reads_owner_path_loop.
  - intros y. case_bool_decide; [|auto with ticks]. apply ticking_owner_path_loop.
  - apply list_elem_of_fmap. exists (m, x). split; [done|by apply elem_of_map_to_list].
Qed.

(** ** What a path depends on *)

Definition owner_view (t : Z) (s : NameState) : string * Principal * string * NameStatus :=
  (ns_name s, ns_semantic_owner s, ns_asset_owner s, effective_status_at s t).

Lemma view_lookup t (m m' : gmap string NameState) n s :
  owner_view t <$> m = owner_view t <$> m' -> m !! n = Some s ->
  exists s', m' !! n = Some s' /\ owner_view t s = owner_view t s'.
Proof.
  intros E Hs. apply (f_equal (lookup n)) in E. rewrite !lookup_fmap, Hs in E. symmetry in E.
  apply fmap_Some in E as (s' & ? & ?). by exists s'.
Qed.

Lemma path_view d d' m m' t k n :
  owner_view t <$> m = owner_view t <$> m' -> db_sets d = db_sets d' ->
  signer_path d m t k n -> signer_path d' m' t k n.
Proof.
  intros E Es Hp. assert (Ec : key_count d' = key_count d) by (unfold key_count; by rewrite Es).
  induction Hp as [n s Hs Ha Hk Hv Hc|n s Hs Ha Hk Ht He|j n s Hs Ha Hk Hv _ IH|j n s p Hs Ha Hk Ht Hp _ IH];
    destruct (view_lookup _ _ _ _ _ E Hs) as (s' & Hs' & Hview); unfold owner_view in Hview;
    injection Hview as Hn Ho Hass Hst.
  - eapply path_self; [done|congruence|congruence|congruence|by rewrite Ec].
  - eapply path_asset; [done|congruence|congruence|by rewrite <- Hn|by rewrite <- Hass].
  - rewrite Ho in *. eapply path_owner; [done|congruence|done|done|done].
  - eapply path_parent; [done|congruence|congruence|by rewrite <- Hn|by rewrite <- Hn|done].
Qed.

(** Every name that is active at [t] has a signer. *)
Definition all_signed (t : Z) (d : Db) : Prop := forall n s,
  db_names d !! n = Some s -> effective_status_at s t = NsActive -> has_signer d (db_names d) t n.

Lemma all_signed_view t d d' :
  owner_view t <$> db_names d = owner_view t <$> db_names d' -> db_sets d = db_sets d' ->
  all_signed t d -> all_signed t d'.
Proof.
  intros E Es Hall n s' Hs' Ha. destruct (view_lookup _ _ _ _ _ (eq_sym E) Hs') as (s & Hs & Hview).
  unfold owner_view in Hview. injection Hview as _ _ _ Hst.
  destruct (Hall _ _ Hs) as (k & Hk & Hp); [congruence|]. exists k. split; [done|by eapply path_view].
Qed.

(** *** Calls within one second *)

Definition within (t : Z) (s s' : Store) : Prop := forall i, during (st_ticks s) (st_ticks s') i -> clock_at i = t.

Lemma within_sub t s s' s1 s1' :
  within t s s' -> (st_ticks s <= st_ticks s1)%nat -> (st_ticks s1' <= st_ticks s')%nat -> within t s1 s1'.
Proof. intros Hw Hl Hh i [? ?]. apply Hw. split; lia. Qed.

Lemma materialize_view t st s st' s' :
  within t s s' -> materialize_name_state st s = (BOk st', s') ->
  st_db s' = st_db s /\ core st' = core st /\ owner_view t st' = owner_view t st.
Proof.
  intros Hw Hm. unfold materialize_name_state in Hm. run_inv. pose proof Hm as Hm'.
  apply materialize_at_ok in Hm as (E & Hc & Hst). do 2 (split; [done|]).
  assert (Ht : clock_at (st_ticks s) = t) by (apply Hw; ticks_inv; unfold during; lia).
  rewrite Ht in Hst. pose proof (effective_again _ _ _ Hc Hst) as He.
  apply core_eq in Hc as (Hmeta & _ & _ & Ho & Ha & _). injection Hmeta as Hn _ _ _ _.
  unfold owner_view. by rewrite Hn, Ho, Ha, He.
Qed.

Lemma required_active_view t n s st s' :
  within t s s' -> required_active_name n s = (BOk st, s') ->
  st_db s' = st_db s /\
  exists raw, db_names (st_db s) !! n = Some raw /\ core st = core raw /\ owner_view t st = owner_view t raw.
Proof.
  intros Hw Hr. unfold required_active_name, required_raw_name, get_name, ensure_active_name in Hr. run_inv.
  match goal with Hraw : db_names (st_db s) !! n = Some ?raw |- _ =>
    eapply materialize_view in Hr as (E & Hc & Hv); [split; [done|]; by exists raw|] end.
  eapply within_sub; [exact Hw|simpl; lia|done].
Qed.

Lemma view_put t n d raw new :
  db_names d !! n = Some raw -> owner_view t new = owner_view t raw ->
  owner_view t <$> db_names d = owner_view t <$> db_names (with_names <[n := new]> d).
Proof. intros Hraw Hv. simpl. rewrite fmap_insert, Hv. symmetry. apply insert_id. by rewrite lookup_fmap, Hraw. Qed.

(** The graph is checked with the state that is then stored. *)
Lemma graph_put_signed t st s u s1 new s2 v s3 :
  rows_keyed (st_db s) -> within t s s3 -> validate_owner_graph_with (Some st) s = (BOk u, s1) ->
  materialize_name_state st s1 = (BOk new, s2) -> put_name new s2 = (BOk v, s3) -> all_signed t (st_db s3).
Proof.
  intros Hk Hw Hg Hm Hput.
  assert (E1 : st_db s1 = st_db s) by (eapply reads_run; [|exact Hg]; auto with reads).
  assert (Htick : (st_ticks s < st_ticks s1)%nat).
  { unfold validate_owner_graph_with, list_names in Hg. run_inv. eapply ticking_run in Hg; [simpl in Hg; lia|].
    auto 20 with ticks. }
  ticks_inv. apply put_name_ok in Hput as [_ Ep]. assert (Ht : clock_at (st_ticks s) = t) by (apply Hw; unfold during; lia).
  pose proof (owner_graph_sound _ _ _ _ Hk Hg) as Hall. cbv zeta in Hall. rewrite Ht in Hall.
  eapply (materialize_view t) in Hm as (E2 & Hc & Hv); [|eapply within_sub; [exact Hw|lia|lia]].
  apply core_eq in Hc as (Hmeta & _). injection Hmeta as Hn _ _ _ _.
  assert (Hall' : all_signed t (with_names <[ns_name st := st]> (st_db s))).
  { intros m x Hm Hx. destruct (Hall _ _ Hm Hx) as (k & Hk' & Hp). exists k. split; [done|].
    by eapply path_view; [| |exact Hp]. }
  eapply all_signed_view; [..|exact Hall']; rewrite Ep, E2, E1, Hn; [|done].
  simpl. by rewrite !fmap_insert, Hv.
Qed.

Lemma owner_change_signed t st s new s' :
  rows_keyed (st_db s) -> within t s s' -> store_owner_change st s = (BOk new, s') -> all_signed t (st_db s').
Proof. intros Hk Hw Hr. unfold store_owner_change in Hr. run_inv. by eapply graph_put_signed. Qed.

Lemma append_same_owners t e t' s r s' :
  append_event e t' s = (BOk r, s') -> all_signed t (st_db s) -> all_signed t (st_db s').
Proof. unfold append_event, latest_event. intros Hr. run_inv. by apply all_signed_view. Qed.

Lemma publish_signed t n u b t' s v s' :
  rows_keyed (st_db s) -> within t s s' -> publish_document_internal n u b t' s = (BOk v, s') ->
  all_signed t (st_db s) -> all_signed t (st_db s').
Proof.
  intros Hk Hw Hr Hall. unfold publish_document_internal, get_current_document, get_latest_document in Hr.
  apply bind_ok in Hr as (cur & s1 & Hcur & Hr). run_inv. ticks_inv.
  eapply append_same_owners; [eassumption|].
  match goal with Hp : put_document _ _ = _ |- _ => apply put_document_ok in Hp as (_ & _ & Ed) end.
  match goal with Ha : required_active_name _ _ = _ |- _ =>
    eapply (required_active_view t) in Ha as (Ea & raw & Hraw & Hc & Hv); [|eapply within_sub; [exact Hw|lia|lia]] end.
  match goal with Hm : materialize_name_state (with_published ?d b t' ?st) _ = _ |- _ =>
    eapply (materialize_view t) in Hm as (Em & Hcm & Hvm); [|eapply within_sub; [exact Hw|lia|lia]];
    assert (Hw' : ns_name (with_published d b t' st) = ns_name st
      /\ owner_view t (with_published d b t' st) = owner_view t st)
      by (unfold with_published; destruct st, b, (String.eqb _ _); done) end.
  destruct Hw' as [Hn' Hv']. apply core_eq in Hc as (Hmeta & _). injection Hmeta as Hn _ _ _ _.
  apply core_eq in Hcm as (Hmeta & _). injection Hmeta as Hnm _ _ _ _.
  match goal with Hp : put_name _ _ = _ |- _ => apply put_name_ok in Hp as [_ Ep] end.
  rewrite Ed in Hraw. rewrite Ep, Em, Ea, Ed, Hnm, Hn', Hn, (Hk _ _ Hraw).
  eapply all_signed_view; [| |exact Hall]; [|done].
  etrans; [|apply (view_put t n (store_document _ (st_db s)) raw); [exact Hraw|congruence]]. done.
Qed.

Lemma publish_all_signed t n t' us s s' :
  keyed (st_db s) -> within t s s' ->
  forM (fun u => publish_document_internal n u false t' ;; ret tt) us s = (BOk tt, s') ->
  all_signed t (st_db s) -> all_signed t (st_db s').
Proof.
  revert s. induction us as [|u us IH]; intros s Hk Hw Hr Hall; cbn [forM] in Hr; run_inv; [done|]. ticks_inv.
  eapply IH; [| |exact Hr|]; [|eapply within_sub; [exact Hw|lia|lia]|].
  - eapply steps_keyed; [by eapply publish_internal_steps|done].
  - eapply publish_signed; [apply Hk| |eassumption|done]. eapply within_sub; [exact Hw|lia|lia].
Qed.

(** The calls that check the owner graph, but for the ones that change keys as well. *)
Definition changes_owners (c : Call) : bool :=
  match c with
  | CallRegister _ _ _ _ _ _ | CallTransfer _ _ _ _ _ _ | CallSetOwner _ _ _ _ | CallRelease _ _ _ _ _ => true
  | _ => false
  end.

Lemma register_signed t n o opts a g t' s new s' :
  (length (split_on char_dot n) <= 2)%nat -> keyed (st_db s) -> within t s s' ->
  register_internal n o opts a g t' s = (BOk new, s') -> all_signed t (st_db s').
Proof.
  intros Hd (Hk & _) Hw Hr. unfold register_internal, get_name in Hr.
  apply bind_ok in Hr as (ex & s1 & Hex & Hr). run_inv. ticks_inv.
  eapply append_same_owners; [eassumption|].
  eapply graph_put_signed; [| |eassumption..]; [|eapply within_sub; [exact Hw|lia|lia]].
  match goal with Ht : validate_semantic_owner_target _ ?s2 = (_, ?s3) |- rows_keyed (st_db ?s3) =>
    assert (E : st_db s3 = st_db s2) by (eapply reads_run; [|exact Ht]; auto with reads); rewrite E end.
  match goal with Hp : (match parent_name n with Some _ => _ | None => _ end) s = (_, ?s2) |- _ =>
    assert (E2 : st_db s2 = st_db s) by (eapply reads_run; [|exact Hp]; auto 20 with reads) end.
  destruct (is_some _); [unfold reset_name_lineage in *|]; run_inv; by rewrite E2.
Qed.

Lemma register_call_signed t n o opts ds a g s s' :
  keyed (st_db s) -> within t s s' -> run_call (CallRegister n o opts ds a g) s = (BOk tt, s') ->
  all_signed t (st_db s').
Proof.
  intros Hk Hw Hr. cbn [run_call] in Hr. unfold register_name in Hr. run_inv. ticks_inv.
  match goal with Hd : check_registration _ _ _ _ = _, Hi : register_internal _ _ _ _ _ _ _ = _ |- _ =>
    apply check_registration_depth in Hd; pose proof Hi as Hst; apply register_internal_steps in Hst; [|done|done] end.
  eapply publish_all_signed; [by eapply steps_keyed| |eassumption|]; [eapply within_sub; [exact Hw|lia|lia]|].
  eapply register_signed; [done| | |eassumption]; [done|eapply within_sub; [exact Hw|simpl; lia|lia]].
Qed.

Lemma transfer_signed t n o ow ds a g s s' :
  keyed (st_db s) -> within t s s' -> run_call (CallTransfer n o ow ds a g) s = (BOk tt, s') ->
  all_signed t (st_db s').
Proof.
  intros Hk Hw Hr. cbn [run_call] in Hr. unfold transfer_name in Hr. run_inv. ticks_inv. active_inv raw.
  match goal with Hs : store_owner_change _ _ = (_, ?s2) |- _ =>
    pose proof Hs as Hs'; eapply (owner_change_steps n (st_db s) _
      (fun x => set_semantic_owner ow (set_asset_owner o x))) in Hs' as [_ Hk2]; [|done..|keeps_tac];
    eapply (owner_change_signed t) in Hs;
    [|by reads_inv; apply Hk|eapply within_sub; [exact Hw|lia|lia]] end.
  match goal with H1 : append_event _ _ _ = (_, ?s1), H2 : append_event _ _ ?s1 = (_, ?s2) |- _ =>
    assert (Hk3 : keyed (st_db s2)) by (eapply steps_keyed; [eapply log_last; [eapply (log_last n); [done|exact H1]|exact H2]|done]);
    assert (Hall : all_signed t (st_db s2))
      by (eapply append_same_owners; [exact H2|]; by eapply append_same_owners; [exact H1|]) end.
  eapply publish_all_signed; [exact Hk3| |eassumption|done]. eapply within_sub; [exact Hw|lia|lia].
Qed.

Lemma call_signed t c s s' :
  keyed (st_db s) -> changes_owners c = true -> within t s s' -> run_call c s = (BOk tt, s') ->
  all_signed t (st_db s').
Proof.
  intros Hk Hc Hw Hr. destruct c; try done.
  - by eapply register_call_signed.
  - by eapply transfer_signed.
  - cbn [run_call] in Hr. unfold set_name_owner in Hr. run_inv. ticks_inv. active_inv raw.
    eapply append_same_owners; [eassumption|].
    eapply owner_change_signed; [| |eassumption]; [reads_inv; apply Hk|eapply within_sub; [exact Hw|lia|lia]].
  - cbn [run_call] in Hr. unfold release_name in Hr. run_inv. ticks_inv. active_inv raw.
    eapply append_same_owners; [eassumption|].
    eapply owner_change_signed; [| |eassumption]; [reads_inv; apply Hk|eapply within_sub; [exact Hw|lia|lia]].
Qed.


(** C40: one active name whose semantic owner is not a BNS name, itself included, and
    whose parent is not active any more, blocks the registry: no name but those two can be
    registered, transferred, released or given another owner by a call within one
    second of the clock, since each of these calls checks the owners of every
    active name. *)
Theorem orphan_blocks_registry t c s r s' m p sm sp :
  reachable s -> changes_owners c = true -> within t s s' -> run_call c s = (r, s') ->
  db_names (st_db s) !! m = Some sm -> effective_status_at sm t = NsActive ->
  pr_kind (ns_semantic_owner sm) <> PkBnsName -> parent_name m = Some p ->
  db_names (st_db s) !! p = Some sp -> effective_status_at sp t <> NsActive ->
  m <> target c -> p <> target c -> r <> BOk tt.
Proof.
  intros [Hk Hwf]%reachable_wf Hc Hw Hr Hm Ha Hkind Hp Hsp Hna Hne1 Hne2 ->.
  assert (Hsame : forall k, k <> target c -> db_names (st_db s') !! k = db_names (st_db s) !! k).
  { intros k Hne. assert (Hs : same_record k (st_db s) (st_db s'))
      by (eapply steps_same_record; [by eapply call_steps|done]). by destruct Hs as [[= -> _ _ _ _] _]. }
  destruct (call_signed _ _ _ _ Hk Hc Hw Hr m sm) as (k & _ & Hpath); [by rewrite Hsame|done|].
  inversion Hpath as [n x Hx _ Hb _ _|n x Hx _ _ Ht _|k' n x Hx _ Hb _ _|k' n x p' Hx _ _ _ Hp' Hrest]; subst;
    rewrite Hsame, Hm in Hx by done; simplify_eq.
  - rewrite (proj1 Hk _ _ Hm) in Ht. pose proof (parent_name_spec m) as Hpar. rewrite Hp in Hpar.
    destruct Hpar as [Hpar _]. congruence.
  - rewrite (proj1 Hk _ _ Hm), Hp in Hp'. injection Hp' as <-.
    destruct (path_active _ _ _ _ _ Hrest) as (y & Hy & Hay). rewrite Hsame, Hsp in Hy by done. by simplify_eq.
Qed.
End owners.
