(* ===== verification/BnsTotal.v ===== *)
(** * BNS: every call returns

    The owner of a name is found by a recursion over its parents, which are
    shorter; no call and no query of the registry runs out of the fuel that the
    length of the name gives. *)

From S2P Require Import Prelude BnsModel BnsStore BnsRegistry BnsQueries BnsRun BnsSteps BnsCalls BnsFacts.

(** ** Checks that return *)

Definition returns {A} (r : BnsResult A) : Prop := r <> BDiverges.

Lemma returns_ok {A} (a : A) : returns (BOk a).
Proof. done. Qed.
Lemma returns_err {A} e : returns (@BErr A e).
Proof. done. Qed.
Lemma returns_bind {A B} (r : BnsResult A) (k : A -> BnsResult B) :
  returns r -> (forall a, returns (k a)) -> returns (bresult_bind r k).
Proof. intros Hr Hk. by destruct r; simpl. Qed.
Lemma returns_reject b e : returns (reject_if b e).
Proof. by destruct b. Qed.
Lemma returns_check_all {A} (f : A -> BnsResult unit) l : (forall a, returns (f a)) -> returns (check_all f l).
Proof. intros Hf. induction l; [done|]. by apply returns_bind. Qed.
Lemma returns_to_i64 v f : returns (to_i64 v f).
Proof. unfold to_i64. by case_match. Qed.

Create HintDb total.
#[export] Hint Resolve returns_ok returns_err returns_bind returns_reject returns_check_all returns_to_i64 : total.
#[export] Hint Extern 2 (returns (if ?b then _ else _)) => destruct b : total.
#[export] Hint Extern 2 (returns (match ?b with _ => _ end)) => destruct b : total.
#[export] Hint Extern 1 (forall _, returns _) => intros ? : total.
#[export] Hint Unfold check_label canonical_bns_name canonical_doc_type name_from_did_bns validate_did validate_hash
  validate_kid validate_principal validate_semantic_owner validate_key validate_name_state
  validate_options validate_rule validate_policy_update validate_alias validate_checkpoint
  validate_shape validate_document validate_update ensure_registerable_depth check_initial_document
  check_registration recompute_authority_set : total.
#[export] Hint Extern 3 (returns _) => progress autounfold with total : total.

Lemma returns_canonical_name n : returns (canonical_bns_name n).
Proof. auto 60 with total. Qed.
Lemma returns_canonical_doc_type t : returns (canonical_doc_type t).
Proof. auto 60 with total. Qed.
Lemma returns_hash h : returns (validate_hash h).
Proof. auto 60 with total. Qed.
Lemma returns_principal p : returns (validate_principal p).
Proof. auto 60 with total. Qed.
#[export] Hint Resolve returns_canonical_name returns_canonical_doc_type returns_hash returns_principal : total.

(** ** Computations that return *)

(** A computation on tables whose rows are stored under their names returns, and
    leaves such tables. *)
Definition total {A} (m : M A) : Prop := forall s, rows_keyed (st_db s) ->
  fst (m s) <> BDiverges /\ rows_keyed (st_db (snd (m s))).

Lemma total_ret {A} (a : A) : total (ret a).
Proof. by intros s. Qed.
Lemma total_fail {A} e : total (@fail A e).
Proof. by intros s. Qed.
Lemma total_lift {A} (r : BnsResult A) : returns r -> total (lift r).
Proof. by intros Hr s. Qed.
Lemma total_check b e : total (check b e).
Proof. apply total_lift, returns_reject. Qed.
Lemma total_query {A} (f : Db -> A) : total (query f).
Proof. by intros s. Qed.
Lemma total_ok_or {A} (o : option A) e : total (ok_or o e).
Proof. by destruct o; intros s. Qed.
Lemma total_now `{Clock} : total now_timestamp.
Proof. by intros s. Qed.
Lemma total_update f : (forall d, rows_keyed d -> rows_keyed (f d)) -> total (update f).
Proof. intros Hf s Hs. split; [done|]. by apply Hf. Qed.
Lemma total_bind {A B} (m : M A) (k : A -> M B) : total m -> (forall a, total (k a)) -> total (bind m k).
Proof.
  intros Hm Hk s Hs. destruct (Hm s Hs) as [H1 H2]. unfold bind. destruct (m s) as [[a| |] s']; simpl in *; [|done|done].
  by apply Hk.
Qed.
Lemma total_transact {A} (m : M A) : total m -> total (transact m).
Proof. intros Hm s Hs. destruct (Hm s Hs) as [H1 H2]. unfold transact. by destruct (m s) as [[] ?]. Qed.
Lemma total_forM {A} (f : A -> M unit) l : (forall a, total (f a)) -> total (forM f l).
Proof. intros Hf. induction l; [by intros s|]. by apply total_bind. Qed.
Lemma total_mapM {A B} (f : A -> M B) l : (forall a, total (f a)) -> total (mapM f l).
Proof.
  intros Hf. induction l; [by intros s|]. apply total_bind; [done|intros b].
  apply total_bind; [done|]. by intros bs s.
Qed.

#[export] Hint Resolve total_ret total_fail total_lift total_check total_query total_ok_or total_now
  total_bind total_transact total_forM total_mapM : total.
#[export] Hint Extern 2 (total (update _)) => apply total_update; intros ? Hd; exact Hd : total.
#[export] Hint Extern 2 (total (if ?b then _ else _)) => destruct b : total.
#[export] Hint Extern 2 (total (match ?b with _ => _ end)) => destruct b : total.
#[export] Hint Extern 1 (forall _, total _) => intros ? : total.
#[export] Hint Unfold get_name list_names get_document get_current_document get_latest_document
  get_authority_key list_authority_keys get_authority_set get_controller_policy authority_set
  require_active_authority_set_at require_active_authority_set required_raw_name ensure_active_name
  validate_semantic_owner_target name_is_authority_owner validate_owner_path validate_owner_graph_with
  check_guard validate_actor_key check_rule_controllers put_document put_authority_key
  put_authority_set put_controller_policy put_alias put_checkpoint reset_name_lineage latest_event
  append_event : total.
#[export] Hint Extern 3 (total _) => progress autounfold with total : total.

Section total.
Context `{BnsLibs} `{Clock}.

Lemma returns_batch ts us : returns (check_batch ts us).
Proof. revert ts. induction us; intros ts; [done|]. cbn [check_batch]. auto 60 with total. Qed.
#[local] Hint Resolve returns_batch : total.

Lemma total_put_name st : total (put_name st).
Proof.
  unfold put_name. apply total_bind; [auto 60 with total|intros _].
  do 2 (apply total_bind; [auto 60 with total|intros _]). apply total_update.
  intros d Hd k x. simpl. intros [[<- <-]|[_ Hx]]%lookup_insert_Some; [done|by apply Hd].
Qed.

(** A run that returns, for one store. *)
Lemma run_bind {A B} (m : M A) (k : A -> M B) s :
  fst (m s) <> BDiverges -> (forall a s', m s = (BOk a, s') -> fst (k a s') <> BDiverges) ->
  fst (bind m k s) <> BDiverges.
Proof. unfold bind. destruct (m s) as [[a| |] s'] eqn:E; simpl; [|done|done]. intros _ Hk. by apply Hk. Qed.

Lemma total_run {A} (m : M A) s : total m -> rows_keyed (st_db s) -> fst (m s) <> BDiverges.
Proof. intros Hm Hs. by apply Hm. Qed.

Lemma resolve_owner_returns fuel st t s :
  (String.length (ns_name st) < fuel)%nat -> rows_keyed (st_db s) ->
  fst (resolve_owner_fuel fuel st t s) <> BDiverges.
Proof.
  revert st s. induction fuel as [|fuel IH]; intros st s Hl Hs; [lia|]. cbn [resolve_owner_fuel].
  destruct (bool_decide _); [apply total_run; [auto 60 with total|done]|].
  destruct (is_top_level_name _); [apply total_run; [auto 60 with total|done]|].
  apply run_bind; [apply total_run; auto 60 with total|]. intros p s1 [Hp ->]%ok_or_ok.
  pose proof (parent_name_spec (ns_name st)) as Hspec. rewrite Hp in Hspec. destruct Hspec as [_ Hlen].
  apply run_bind; [apply total_run; auto 60 with total|]. intros o s1 Ho. unfold get_name in Ho. run_inv.
  apply run_bind; [apply total_run; auto 60 with total|]. intros ps s1 [Hps ->]%ok_or_ok.
  apply Hs in Hps as Hn. apply run_bind; [|by intros].
  assert (Hname : ns_name (materialize_status_at ps t) = p)
    by (pose proof (core_materialize_status ps t) as Ec; apply core_eq in Ec as (Em & _); injection Em as -> _ _ _ _; done).
  destruct (bool_decide _); [|apply IH; [rewrite Hname; lia|done]].
  assert (Hm : fst (materialize_with (resolve_owner_fuel fuel) ps t s) <> BDiverges).
  { unfold materialize_with. apply run_bind; [apply IH; [rewrite Hname; lia|done]|by intros]. }
  apply run_bind; [done|]. intros q s1 Hq.
  assert (E : st_db s1 = st_db s)
    by (eapply reads_run; [|exact Hq]; apply reads_materialize_with; intros; apply reads_resolve_owner_fuel).
  unfold materialize_with in Hq. run_inv.
  apply run_bind; [apply total_run; [auto 60 with total|by rewrite E]|]. intros u s2 Hc. run_inv.
  apply IH; [|by rewrite E]. set (m := materialize_status_at ps t) in *.
  replace (ns_name (set_ownership _ _ _ m)) with (ns_name m) by (by destruct m). rewrite Hname. lia.
Qed.

Lemma total_reads {A} (m : M A) :
  reads m -> (forall s, rows_keyed (st_db s) -> fst (m s) <> BDiverges) -> total m.
Proof. intros Hr Hm s Hs. split; [by apply Hm|]. by rewrite Hr. Qed.

Lemma total_resolve_owner st t : total (resolve_owner_from_state_at st t).
Proof.
  apply total_reads; [apply reads_resolve_owner|]. intros s Hs. apply resolve_owner_returns; [lia|done].
Qed.
#[local] Hint Resolve total_put_name total_resolve_owner : total.

Lemma total_materialize st : total (materialize_name_state st).
Proof. unfold materialize_name_state, materialize_name_state_at, materialize_with. auto 60 with total. Qed.
#[local] Hint Resolve total_materialize : total.
Lemma total_required_active n : total (required_active_name n).
Proof. unfold required_active_name. auto 60 with total. Qed.
Lemma total_resolve_for_name n : total (resolve_owner_for_name n).
Proof. unfold resolve_owner_for_name. auto 60 with total. Qed.
#[local] Hint Resolve total_required_active total_resolve_for_name : total.

Lemma total_authority_set n : total (authority_set n).
Proof. auto 60 with total. Qed.
#[local] Hint Resolve total_authority_set : total.

Lemma total_owner_path_loop ns t rounds depth cur vis con :
  total (owner_path_loop ns t rounds depth cur vis con).
Proof.
  revert depth cur vis con. induction rounds as [|rounds IH]; intros depth cur vis con; [apply total_check|].
  cbn [owner_path_loop]. auto 60 with total.
Qed.
#[local] Hint Resolve total_owner_path_loop : total.

Lemma total_graph c : total (validate_owner_graph_with c).
Proof. auto 60 with total. Qed.
Lemma total_authorize_owner st a : total (authorize_owner_for_loaded st a).
Proof. unfold authorize_owner_for_loaded. auto 60 with total. Qed.
#[local] Hint Resolve total_graph total_authorize_owner : total.
Lemma total_authorize_no_guard st t p o a : total (authorize_update_no_guard st t p o a).
Proof. unfold authorize_update_no_guard. auto 60 with total. Qed.
#[local] Hint Resolve total_authorize_no_guard : total.
Lemma total_authorize_update st t p o a g : total (authorize_update st t p o a g).
Proof. unfold authorize_update. auto 60 with total. Qed.
Lemma total_append_event e t : total (append_event e t).
Proof. auto 60 with total. Qed.
Lemma total_store_change t f st : total (store_change t f st).
Proof. unfold store_change. auto 60 with total. Qed.
Lemma total_store_owner_change st : total (store_owner_change st).
Proof. unfold store_owner_change. auto 60 with total. Qed.
#[local] Hint Resolve total_authorize_update total_append_event total_store_change total_store_owner_change : total.
Lemma total_authority n us t : total (apply_authority_updates n us t).
Proof. unfold apply_authority_updates. auto 60 with total. Qed.
Lemma total_publish n u b t : total (publish_document_internal n u b t).
Proof. unfold publish_document_internal. auto 60 with total. Qed.
Lemma total_set_iat n i h b t : total (set_min_document_iat_internal n i h b t).
Proof. unfold set_min_document_iat_internal. auto 60 with total. Qed.
Lemma total_register n o opts a g t : total (register_internal n o opts a g t).
Proof. unfold register_internal. auto 60 with total. Qed.
#[local] Hint Resolve total_authority total_publish total_set_iat total_register : total.
Lemma total_reported n t u : total (publish_reported n t u).
Proof. unfold publish_reported. auto 60 with total. Qed.
#[local] Hint Resolve total_reported : total.

Lemma total_call c : total (run_call c).
Proof.
  destruct c; apply total_bind; [|auto 60 with total..];
    unfold register_name, bootstrap_name, renew_name, transfer_name, standard_transfer_name,
      set_name_owner, release_name, set_namespace_policy, update_authority_keys, apply_mutations,
      rotate_authority_and_owner_document, publish_document, revoke_document, set_min_document_iat,
      set_controller_policy, set_did_alias, set_payment_target, publish_log_checkpoint, ensure_write_path;
    auto 60 with total.
Qed.

(** C13: every call on a reachable registry returns, with success or with an error:
    the length of a name is fuel enough to find its owner. *)
Theorem calls_return c s r s' : reachable s -> run_call c s = (r, s') -> r <> BDiverges.
Proof.
  intros [[Hk _] _]%reachable_wf E. destruct (total_call c s Hk) as [Hr _]. by rewrite E in Hr.
Qed.
End total.
