(* ===== verification/BnsLive.v ===== *)
(** * BNS: what an owner can do

    The checks of the registry do not lock an owner out: the account that holds an
    active first-level name can publish a document. *)

From S2P Require Import Prelude BnsModel BnsStore BnsRegistry BnsQueries BnsRun BnsSteps BnsCalls BnsFacts BnsAuth.

Lemma bns_bind_run {A B} (m : M A) (k : A -> M B) s a s1 : m s = (BOk a, s1) -> bind m k s = k a s1.
Proof. intros E. unfold bind. by rewrite E. Qed.

Lemma check_run b e s : b = false -> check b e s = (BOk tt, s).
Proof. by intros ->. Qed.

Lemma lift_run {A} (r : BnsResult A) a s : r = BOk a -> lift r s = (BOk a, s).
Proof. by intros ->. Qed.

Lemma to_i64_run v f : v < i64_bound -> to_i64 v f = BOk v.
Proof. intros Hv. by apply to_i64_ok. Qed.

Section live.
Context `{BnsLibsLaws} `{Clock}.

Lemma sha256_hex_valid b : validate_hash (sha256_hex b) = BOk tt.
Proof.
  unfold validate_hash, sha256_hex. set (h := hex_encode (sha256_digest b)).
  replace (default ("0x" +:+ h) (strip_prefix "0x" ("0x" +:+ h))) with h by reflexivity.
  unfold h. by rewrite hex_encode_length, sha256_digest_length, hex_encode_digits.
Qed.

(** The published version of a valid update is valid. *)
Lemma published_valid n u v p t :
  canonical_bns_name n = BOk n -> validate_update u = BOk tt ->
  validate_document (published_document n u v p t) = BOk tt.
Proof.
  intros Hn Hu. unfold validate_update in Hu. rewrite !seq_ok in Hu.
  destruct Hu as ([a1 E1] & [[] E2] & [[] E3] & [[] E4] & [[] E5] & [[] E6] & [[] E7] & [[] E8] & E9).
  unfold published_document, hashed, validate_document. cbn [set_state_hash ds_name ds_doc_type ds_document
    ds_controller ds_beneficiary ds_controller_policy_hash ds_payment_policy_hash ds_split_policy_hash
    ds_price_policy_hash ds_rights_policy_hash ds_document_state_hash].
  rewrite Hn, E1, E2, E3, E4, E5, E6, E7, E8, E9. apply sha256_hex_valid.
Qed.

(** A first-level name that was not given to another name. *)
Definition plain_name (s : NameState) : Prop :=
  is_top_level_name (ns_name s) = true /\ pr_kind (ns_semantic_owner s) <> PkBnsName
  /\ canonical_bns_name (ns_name s) = BOk (ns_name s).

Lemma plain_core s s' : core s = core s' -> plain_name s' -> plain_name s.
Proof.
  intros (Hm & _ & _ & Ho & _)%core_eq (H1' & H2' & H3'). injection Hm as Hn _ _ _ _.
  unfold plain_name. by rewrite Hn, Ho.
Qed.

Lemma resolve_plain fuel st t s :
  plain_name st -> exists o, resolve_owner_fuel (S fuel) st t s = (BOk o, s)
    /\ or_effective_owner o = chain_account (ns_asset_owner st).
Proof.
  intros (Ht & Hk & Hn). cbn [resolve_owner_fuel]. rewrite bool_decide_eq_false_2, Ht by done.
  unfold authority_set, get_authority_set, bind, lift. rewrite Hn. cbn. eexists. split; [reflexivity|done].
Qed.

Lemma set_ownership_fields e src b st :
  ns_effective_owner (set_ownership e src b st) = e /\ ns_status (set_ownership e src b st) = ns_status st.
Proof. by destruct st. Qed.

Lemma materialize_plain st s :
  plain_name st -> exists st', materialize_name_state st s = (BOk st', mkStore (st_db s) (S (st_ticks s)))
    /\ core st' = core st /\ ns_status st' = effective_status_at st (clock_at (st_ticks s))
    /\ ns_effective_owner st' = chain_account (ns_asset_owner st).
Proof.
  intros Hp. unfold materialize_name_state, materialize_name_state_at, materialize_with.
  rewrite (bns_bind_run _ _ _ (clock_at (st_ticks s)) (mkStore (st_db s) (S (st_ticks s)))) by done.
  set (t := clock_at (st_ticks s)). set (m := materialize_status_at st t).
  assert (Hc : core m = core st) by apply core_materialize_status.
  destruct (resolve_plain (String.length (ns_name m)) m t (mkStore (st_db s) (S (st_ticks s)))) as (o & Ho & Ee);
    [by eapply plain_core|].
  rewrite (bns_bind_run _ _ _ _ _ Ho). eexists. split; [reflexivity|]. rewrite core_set_ownership. split; [done|].
  apply core_eq in Hc as (_ & _ & _ & _ & Ha & _). rewrite <- Ha, <- Ee, <- (ns_status_materialize st t).
  split; apply set_ownership_fields.
Qed.

(** A plain name that stays active while [k] readings are taken. *)
Definition stays_active (st : NameState) (ticks k : nat) : Prop :=
  ns_status st = NsActive /\
  forall i, (ticks <= i < ticks + k)%nat -> ns_expire_at st = 0 \/ clock_at i < ns_expire_at st.

Lemma active_reading st ticks k i :
  stays_active st ticks k -> (ticks <= i < ticks + k)%nat -> effective_status_at st (clock_at i) = NsActive.
Proof.
  intros [Hs Hc] Hi. unfold effective_status_at. rewrite Hs. cbn. destruct (Hc i Hi) as [-> | Hlt]; [done|].
  rewrite (proj2 (Z.leb_gt _ _)) by lia. by destruct (negb _).
Qed.

Lemma required_active_plain n raw s k :
  db_names (st_db s) !! n = Some raw -> ns_name raw = n -> plain_name raw ->
  stays_active raw (st_ticks s) (S (S k)) ->
  exists st, required_active_name n s = (BOk st, mkStore (st_db s) (S (S (st_ticks s))))
    /\ core st = core raw /\ ns_status st = NsActive
    /\ ns_effective_owner st = chain_account (ns_asset_owner raw).
Proof.
  intros Hraw Hn Hp Ha. pose proof Hp as (_ & _ & Hcan). rewrite Hn in Hcan.
  destruct (materialize_plain raw (mkStore (st_db s) (S (st_ticks s))) Hp) as (st & Hm & Hc & Hs & He).
  exists st. rewrite (active_reading _ _ _ _ Ha) in Hs by (simpl; lia). split_and!; [|done|done|done].
  unfold required_active_name, required_raw_name, get_name, ensure_active_name.
  unfold bind at 1 2 3, lift. rewrite Hcan. cbn [query]. rewrite Hraw. cbn [ok_or ret].
  unfold bind at 1 2, now_timestamp, check, lift. rewrite (active_reading _ _ _ _ Ha) by lia. exact Hm.
Qed.

(** What [validate_name_state] looks at, but for the effective owner. *)
Definition validated (s : NameState) :=
  (ns_name s, ns_asset_owner s, ns_semantic_owner s, ns_namespace_policy_hash s, ns_payment_policy_hash s,
   ns_alias_state_hash s).

Lemma validated_core s s' : core s = core s' -> validated s = validated s'.
Proof.
  intros E. pose proof (f_equal validated E) as Ev. by destruct s, s'.
Qed.

Lemma validate_plain raw st :
  validate_name_state raw = BOk tt -> validated st = validated raw ->
  ns_effective_owner st = chain_account (ns_asset_owner raw) -> validate_name_state st = BOk tt.
Proof.
  unfold validate_name_state, validated. intros Hv [= -> -> -> -> -> ->] ->. revert Hv. rewrite !seq_ok.
  intros (E1 & [u E2] & E3 & _ & E5 & E6 & E7). assert (Hne := E2). apply reject_if_ok in Hne.
  split_and!; try done; [by exists u|]. exists tt. unfold validate_principal, chain_account. simpl. by rewrite Hne.
Qed.

Lemma append_event_runs e t s :
  log_wf (st_db s) -> Z.of_nat (length (db_events (st_db s))) + 1 < i64_bound -> t < i64_bound ->
  exists r, append_event e t s
    = (BOk r, mkStore (with_events (upsert ev_seq (next_record (last (db_events (st_db s))) e t)) (st_db s)) (st_ticks s)).
Proof.
  intros Hw Hb Ht. set (r := next_record (last (db_events (st_db s))) e t).
  assert (Hseq : ev_seq r = Z.of_nat (length (db_events (st_db s))) + 1).
  { unfold r, next_record. cbn [ev_seq]. destruct (last (db_events (st_db s))) as [l|] eqn:El.
    - rewrite (numbered_last _ _ _ (log_wf_numbered _ Hw) El). apply u64_add_1. lia.
    - by apply last_None in El as ->. }
  exists r. unfold append_event, latest_event. unfold bind at 1, query at 1. fold r.
  unfold bind at 1, lift at 1. rewrite to_i64_run by lia. unfold bind at 1, lift at 1. rewrite to_i64_run by done.
  unfold bind at 1, query at 1. rewrite (bns_bind_run _ _ s tt s); [done|]. apply check_run.
  unfold row_at. destruct (List.find _ _) as [x|] eqn:Ef; [|done].
  apply find_some in Ef as [Hin%list_elem_of_In Hx%Z.eqb_eq].
  assert (ev_seq x < ev_seq r); [|lia]. eapply numbered_below; [by apply log_wf_numbered|lia|done].
Qed.

Lemma owner_authorizes_plain n raw a s st :
  db_names (st_db s) !! n = Some raw -> ns_name raw = n -> plain_name raw -> ns_name st = n ->
  ca_role a = ArOwner -> ca_actor a = chain_account (ns_asset_owner raw) ->
  is_empty (ns_asset_owner raw) = false ->
  authorize_owner_for_loaded st a s = (BOk tt, mkStore (st_db s) (S (S (st_ticks s)))).
Proof.
  intros Hraw Hn Hp Hst Hrole Hact Hne. pose proof Hp as (_ & _ & Hcan). rewrite Hn in Hcan.
  unfold authorize_owner_for_loaded. rewrite (bns_bind_run _ _ s tt s) by (apply check_run; by rewrite Hrole).
  rewrite (bns_bind_run _ _ s tt s)
    by (apply lift_run; rewrite Hact; unfold validate_principal, chain_account; simpl; by rewrite Hne).
  set (s1 := mkStore (st_db s) (S (st_ticks s))). set (m := materialize_status_at raw (clock_at (st_ticks s))).
  destruct (resolve_plain (String.length (ns_name m)) m (clock_at (st_ticks s)) s1) as (o & Ho & Eo);
    [eapply plain_core; [apply core_materialize_status|done]|].
  rewrite (bns_bind_run _ _ s o s1).
  2:{ unfold resolve_owner_for_name, get_name, bind, lift. rewrite Hst, Hcan. cbn [query]. rewrite Hraw. exact Ho. }
  assert (Ea : ns_asset_owner m = ns_asset_owner raw)
    by (pose proof (core_materialize_status raw (clock_at (st_ticks s))) as Ec; by apply core_eq in Ec as (_ & _ & _ & _ & ? & _)).
  rewrite (bns_bind_run _ _ s1 tt s1)
    by (apply check_run; rewrite Eo, Ea, Hact; by rewrite bool_decide_eq_true_2).
  unfold bind, now_timestamp, validate_actor_key. rewrite Hact. done.
Qed.

Definition version_of (o : option DocumentState) : Z :=
  match o with Some d => ds_version d | None => 0 end.

(** The rows of a document once its next version is stored. *)
Lemma stored_current n t doc d :
  history n t (doc_rows n t d) -> ds_name doc = n -> ds_doc_type doc = t ->
  ds_version doc = Z.of_nat (length (doc_rows n t d)) + 1 ->
  current_document (store_document doc d) n t = Some doc.
Proof.
  intros Hh Hn Ht Hv. unfold current_document. rewrite doc_rows_store, decide_True by (by rewrite Hn, Ht).
  rewrite (put_row_publish n t) by done. rewrite List.filter_app. cbn. unfold latest_row. by rewrite last_snoc.
Qed.

Lemma with_published_fields doc t st :
  validated (with_published doc true t st) = validated st
  /\ ns_name_seq (with_published doc true t st) = u64_add (ns_name_seq st) 1
  /\ ns_updated_at (with_published doc true t st) = t.
Proof. unfold with_published. destruct st, (String.eqb _ _); done. Qed.

Lemma plain_validated s s' : validated s = validated s' -> plain_name s' -> plain_name s.
Proof. unfold validated, plain_name. by intros [= -> _ -> _ _ _]. Qed.

Lemma put_name_runs st s :
  validate_name_state st = BOk tt -> ns_name_seq st < i64_bound -> ns_updated_at st < i64_bound ->
  put_name st s = (BOk tt, mkStore (with_names <[ns_name st := st]> (st_db s)) (st_ticks s)).
Proof. intros Hv Hq Ht. unfold put_name, bind, lift. by rewrite Hv, !to_i64_run. Qed.

Lemma put_document_runs doc s :
  validate_document doc = BOk tt -> ds_version doc < i64_bound ->
  put_document doc s = (BOk tt, mkStore (store_document doc (st_db s)) (st_ticks s)).
Proof. intros Hv Hb. unfold put_document, bind, lift. by rewrite Hv, to_i64_run. Qed.

Lemma core_updated s s' : core s = core s' -> ns_updated_at s = ns_updated_at s'.
Proof. intros E. pose proof (f_equal ns_updated_at E). by destruct s, s'. Qed.

Lemma get_current_runs n t s :
  canonical_bns_name n = BOk n -> canonical_doc_type t = BOk t ->
  get_current_document n t s = (BOk (current_document (st_db s) n t), s).
Proof. intros Hn Ht. unfold get_current_document, bind, lift. by rewrite Hn, Ht. Qed.

Lemma get_latest_runs n t s :
  canonical_bns_name n = BOk n -> canonical_doc_type t = BOk t ->
  exists o, get_latest_document n t s = (BOk o, s) /\ version_of o = latest_version (doc_rows n t (st_db s)).
Proof.
  intros Hn Ht. unfold get_latest_document, bind, lift. rewrite Hn, Ht. eexists. split; [reflexivity|].
  unfold latest_version. by destruct (latest_row _).
Qed.

Lemma publish_runs n raw u t s :
  registry_wf (st_db s) -> db_names (st_db s) !! n = Some raw -> plain_name raw ->
  stays_active raw (st_ticks s) 2 -> validate_update u = BOk tt ->
  du_expected_version u = version_of (current_document (st_db s) n (du_doc_type u)) ->
  Z.of_nat (length (doc_rows n (du_doc_type u) (st_db s))) + 1 < i64_bound ->
  Z.of_nat (length (db_events (st_db s))) + 1 < i64_bound ->
  ns_name_seq raw + 1 < i64_bound -> t < i64_bound ->
  exists v s', publish_document_internal n u true t s = (BOk v, s')
    /\ v = Z.of_nat (length (doc_rows n (du_doc_type u) (st_db s))) + 1
    /\ current_document (st_db s') n (du_doc_type u)
       = Some (published_document n u v (du_expected_version u) t)
    /\ exists new, db_names (st_db s') !! n = Some new /\ ns_name_seq new = ns_name_seq raw + 1.
Proof.
  intros (Hwn & Hwd & Hwl & _) Hraw Hp Ha Hu Hver Hb1 Hb2 Hb3 Ht.
  destruct (Hwn _ _ Hraw) as (Hn & [Hval Hseqb] & Hlin & _). pose proof Hp as (_ & _ & Hcan). rewrite Hn in Hcan.
  assert (Hty : canonical_doc_type (du_doc_type u) = BOk (du_doc_type u)).
  { unfold validate_update in Hu. rewrite seq_ok in Hu. destruct Hu as [[ty E] _].
    by rewrite E, (canonical_doc_type_ok _ _ E) at 1. }
  set (rows := doc_rows n (du_doc_type u) (st_db s)) in *.
  destruct (latest_version_length _ _ _ (Hwd n (du_doc_type u))) as [Hlat _]. fold rows in Hlat.
  set (v := Z.of_nat (length rows) + 1). set (doc := published_document n u v (du_expected_version u) t).
  set (s1 := mkStore (store_document doc (st_db s)) (st_ticks s)).
  destruct (required_active_plain n raw s1 0) as (st & Hst & Hcst & _ & Hest); [done..|].
  destruct (with_published_fields doc t st) as (Fv & Fq & Ft). pose proof (validated_core _ _ Hcst) as Vst.
  destruct (materialize_plain (with_published doc true t st) (mkStore (st_db s1) (S (S (st_ticks s1)))))
    as (new & Hnew & Hcn & _ & He); [apply (plain_validated _ raw); [congruence|done]|].
  pose proof (validated_core _ _ Hcn) as Vn.
  set (s2 := mkStore (with_names <[n := new]> (st_db s1)) (S (S (S (st_ticks s1))))).
  assert (Hput : put_name new (mkStore (st_db s1) (S (S (S (st_ticks s1))))) = (BOk tt, s2)).
  { apply core_eq in Hcst as (_ & Hqst & _). apply core_updated in Hcn as Hup.
    apply core_eq in Hcn as (_ & Hqn & _). rewrite Fq, Hqst, u64_add_1 in Hqn by lia.
    unfold validated in Fv, Vst, Vn. rewrite put_name_runs; [|..|lia|by rewrite Hup, Ft].
    - unfold s2. repeat f_equal. congruence.
    - apply (validate_plain raw); [done|unfold validated; congruence|]. rewrite He. congruence. }
  destruct (append_event_runs (DocumentPublished n (ds_doc_type doc) (ds_version doc)
    (dr_content_hash (ds_document doc)) (ds_document_state_hash doc)) t s2) as (r & Hev); [done..|].
  exists v. eexists. split.
  { unfold publish_document_internal. rewrite (bns_bind_run _ _ _ _ _ (get_current_runs _ _ s Hcan Hty)).
    fold (version_of (current_document (st_db s) n (du_doc_type u))).
    rewrite (bns_bind_run _ _ s tt s) by (apply check_run; rewrite Hver; by rewrite Z.eqb_refl).
    destruct (get_latest_runs _ _ s Hcan Hty) as (latest & Hl & El). rewrite (bns_bind_run _ _ _ _ _ Hl).
    fold (version_of latest). rewrite El. fold rows. rewrite Hlat, u64_add_1 by lia. fold v.
    rewrite <- Hver. fold doc.
    rewrite (bns_bind_run _ _ s tt s1) by (apply put_document_runs; [by apply published_valid|exact Hb1]).
    rewrite (bns_bind_run _ _ _ _ _ Hst), (bns_bind_run _ _ _ _ _ Hnew), (bns_bind_run _ _ _ _ _ Hput), (bns_bind_run _ _ _ _ _ Hev).
    reflexivity. }
  split; [done|]. split.
  - transitivity (current_document (store_document doc (st_db s)) n (du_doc_type u)); [done|].
    by apply stored_current.
  - exists new. simpl. rewrite lookup_insert_eq. split; [done|].
    apply core_eq in Hcst as (_ & Hqst & _). apply core_eq in Hcn as (_ & Hqn & _).
    by rewrite Hqn, Fq, Hqst, u64_add_1 by lia.
Qed.

(** C14: the account that holds an active first-level name can publish: a call that
    names the account as the owner, with the sequence number of the name and the
    version of the current document, succeeds whenever the update is valid and
    the counters have room, and the update is then the current document. *)
Theorem owner_can_publish n raw u kid parent_seq s :
  reachable s -> db_names (st_db s) !! n = Some raw -> is_top_level_name n = true ->
  pr_kind (ns_semantic_owner raw) <> PkBnsName -> stays_active raw (st_ticks s) 8 ->
  validate_update u = BOk tt ->
  du_expected_version u = version_of (current_document (st_db s) n (du_doc_type u)) ->
  Z.of_nat (length (doc_rows n (du_doc_type u) (st_db s))) + 1 < i64_bound ->
  Z.of_nat (length (db_events (st_db s))) + 1 < i64_bound ->
  ns_name_seq raw + 1 < i64_bound -> clock_at (st_ticks s) < i64_bound ->
  exists v s',
    publish_document true n u (owner_authority (chain_account (ns_asset_owner raw)) kid)
      (mkMutationGuard (ns_name_seq raw) parent_seq) s = (BOk v, s')
    /\ current_document (st_db s') n (du_doc_type u)
       = Some (published_document n u v (du_expected_version u) (clock_at (st_ticks s)))
    /\ exists new, db_names (st_db s') !! n = Some new /\ ns_name_seq new = ns_name_seq raw + 1.
Proof.
  intros [(Hk & _) Hwf]%reachable_wf Hraw Htop Hkind Ha Hu Hver Hb1 Hb2 Hb3 Ht.
  assert (Hn : ns_name raw = n) by by apply Hk.
  destruct (proj1 Hwf _ _ Hraw) as (_ & [Hval _] & _).
  unfold validate_name_state in Hval. rewrite !seq_ok in Hval. destruct Hval as ([n' Hcan] & [x Hne%reject_if_ok] & _).
  assert (Hp : plain_name raw).
  { unfold plain_name. rewrite Hn in *. split_and!; [done|done|]. by rewrite Hcan, (canonical_bns_name_ok _ _ Hcan) at 1. }
  set (s1 := mkStore (st_db s) (S (st_ticks s))).
  assert (Hsub : forall i k, (i + k <= 8)%nat -> stays_active raw (st_ticks s + i) k)
    by (intros i k Hik; destruct Ha as [? Ha]; split; [done|]; intros j Hj; apply Ha; lia).
  destruct (required_active_plain n raw s1 0) as (st & Hst & Hc & _ & _);
    [done..|replace (st_ticks s1) with (st_ticks s + 1)%nat by (simpl; lia); apply Hsub; lia|].
  apply core_eq in Hc as (Hmeta & Hq & _). injection Hmeta as Hns _ _ _ _.
  set (auth := owner_authority _ _). set (g := mkMutationGuard _ _). set (s2 := mkStore (st_db s1) (S (S (st_ticks s1)))) in *.
  set (s3 := mkStore (st_db s2) (S (S (st_ticks s2)))).
  destruct (publish_runs n raw u (clock_at (st_ticks s)) s3) as (v & s' & Hrun & Hv & Hcur & Hnew); try done.
  { replace (st_ticks s3) with (st_ticks s + 5)%nat by (simpl; lia). apply Hsub. lia. }
  exists v, s'. split; [|done]. unfold publish_document, ensure_write_path.
  rewrite (bns_bind_run _ _ s tt s) by done.
  rewrite (bns_bind_run _ _ s n s) by (apply lift_run; destruct Hp as (_ & _ & Hcn); by rewrite Hn in Hcn).
  rewrite (bns_bind_run _ _ s tt s) by by apply lift_run.
  unfold transact. rewrite (bns_bind_run _ _ s (clock_at (st_ticks s)) s1) by done.
  rewrite (bns_bind_run _ _ _ _ _ Hst). rewrite (bns_bind_run _ _ s2 tt s3); [by rewrite Hrun|].
  unfold authorize_update. rewrite (bns_bind_run _ _ s2 tt s2).
  2:{ unfold check_guard. apply check_run. simpl. by rewrite Hq, Z.eqb_refl. }
  apply (owner_authorizes_plain n raw); [done..| |done|done|done]. congruence.
Qed.
End live.
