(* ===== verification/BnsQueryFacts.v ===== *)
(** * BNS: what the queries answer *)

From S2P Require Import Prelude BnsModel BnsStore BnsRegistry BnsQueries BnsRun BnsSteps BnsCalls BnsFacts BnsAuth BnsLive.

(** ** Names in order *)

Definition name_lt (a b : NameState) : Prop := text_lt (ns_name a) (ns_name b).

Lemma insert_by_name x l :
  StronglySorted name_lt l -> (forall y, y ∈ l -> ns_name y <> ns_name x) ->
  StronglySorted name_lt (insert_sorted by_name x l).
Proof.
  induction 1 as [|y l Hs IH Hall]; intros Hne; simpl; [repeat constructor|].
  destruct (by_name x y) eqn:E.
  - assert (Hlt : name_lt x y) by (apply text_leb_lt; [done|]; intros Eq; apply (Hne y); [left|done]).
    constructor; [by constructor|]. constructor; [done|].
    eapply Forall_impl; [exact Hall|]. intros z. by apply text_lt_trans.
  - constructor; [apply IH; set_solver|]. rewrite insert_sorted_Permutation. constructor; [|done].
    by apply text_leb_gt.
Qed.

Lemma sort_by_name_sorted l :
  NoDup (ns_name <$> l) -> StronglySorted name_lt (stable_sort by_name l).
Proof.
  induction l as [|x l IH]; [constructor|]. rewrite fmap_cons, NoDup_cons. intros [Hx Hl]. simpl.
  apply insert_by_name; [by apply IH|]. intros y Hy E. rewrite stable_sort_Permutation in Hy.
  apply Hx. rewrite <- E. by apply list_elem_of_fmap_2.
Qed.

Lemma sorted_filter {A} (R : A -> A -> Prop) f l : StronglySorted R l -> StronglySorted R (List.filter f l).
Proof.
  induction 1 as [|x l _ IH Hall]; simpl; [constructor|]. destruct (f x); [|done].
  constructor; [done|]. rewrite Forall_forall in Hall |- *. intros y Hy%list_elem_of_In.
  apply filter_In in Hy as [Hy%list_elem_of_In _]. by apply Hall.
Qed.

Lemma sorted_names l : StronglySorted name_lt l -> StronglySorted text_lt (ns_name <$> l).
Proof.
  induction 1 as [|x l _ IH Hall]; [constructor|]. rewrite fmap_cons. constructor; [done|].
  rewrite Forall_forall in Hall. apply Forall_forall. intros n (y & -> & Hy)%list_elem_of_fmap. by apply Hall.
Qed.

Lemma filter_none {A} (f : A -> bool) l : (forall x, x ∈ l -> f x = false) -> List.filter f l = [].
Proof. induction l as [|x l IH]; simpl; intros Hf; [done|]. rewrite Hf by left. apply IH. set_solver. Qed.

Lemma filter_every {A} (f : A -> bool) l : (forall x, x ∈ l -> f x = true) -> List.filter f l = l.
Proof. induction l as [|x l IH]; simpl; intros Hf; [done|]. rewrite Hf by left. f_equal. apply IH. set_solver. Qed.

(** What comes after an element of a sorted list. *)
Lemma filter_after pre a rest :
  StronglySorted text_lt ((pre ++ [a]) ++ rest) ->
  List.filter (fun n => String.ltb a n) ((pre ++ [a]) ++ rest) = rest.
Proof.
  intros Hs. rewrite List.filter_app, filter_none, filter_every; [done|..].
  - intros x Hx. apply text_ltb_lt. eapply StronglySorted_app_1_elem_of; [exact Hs|set_solver|done].
  - intros x [Hx| ->%list_elem_of_singleton]%elem_of_app; apply not_true_iff_false; intros Hlt%text_ltb_lt;
      [|by apply text_lt_irrefl in Hlt].
    apply (text_lt_irrefl a), (text_lt_trans a x a); [done|].
    eapply StronglySorted_app_1_elem_of; [by eapply StronglySorted_app_1_l|done|set_solver].
Qed.

(** ** Names by address *)

(** The names that an account holds, in order. *)
Definition owned (address : string) (d : Db) : list string :=
  ns_name <$> List.filter (fun s => String.eqb (ns_asset_owner s) address)
                (stable_sort by_name (snd <$> map_to_list (db_names d))).

Lemma owned_elem a d n :
  rows_keyed d -> n ∈ owned a d <-> exists s, db_names d !! n = Some s /\ ns_asset_owner s = a.
Proof.
  intros Hk. unfold owned. rewrite list_elem_of_fmap. split.
  - intros (s & -> & Hs%list_elem_of_In). apply filter_In in Hs as [Hs%list_elem_of_In Ha%String.eqb_eq].
    rewrite stable_sort_Permutation in Hs. apply list_elem_of_fmap in Hs as ([k s'] & -> & Hks%elem_of_map_to_list).
    exists s'. simpl. by rewrite (Hk _ _ Hks).
  - intros (s & Hs & Ha). exists s. split; [by rewrite (Hk _ _ Hs)|]. apply list_elem_of_In, filter_In.
    split; [|by apply String.eqb_eq]. apply list_elem_of_In. rewrite stable_sort_Permutation.
    apply list_elem_of_fmap. exists (n, s). split; [done|by apply elem_of_map_to_list].
Qed.

Lemma owned_sorted a d : rows_keyed d -> StronglySorted text_lt (owned a d).
Proof.
  intros Hk. apply sorted_names, sorted_filter, sort_by_name_sorted.
  rewrite <- list_fmap_compose. assert (E : ns_name ∘ snd <$> map_to_list (db_names d) = fst <$> map_to_list (db_names d)).
  { apply list_fmap_ext. intros i [k v] Hi. apply list_elem_of_lookup_2, elem_of_map_to_list in Hi. simpl. by apply Hk. }
  rewrite E. apply NoDup_fst_map_to_list.
Qed.

Section queries.
Context `{BnsLibs} `{Clock}.

(** One page after another, each from the cursor of the one before it. *)
Fixpoint all_pages (fuel : nat) (address : string) (cursor : option string) (limit : nat) : M (list string) :=
  match fuel with
  | O => lift BDiverges
  | S fuel' =>
      let* page := query_names_by_address address cursor limit in
      match np_next_cursor page with
      | None => ret (np_names page)
      | Some c =>
          let* rest := all_pages fuel' address (Some c) limit in
          ret (np_names page ++ rest)
      end
  end.

(** The names that come after a cursor. *)
Definition after_cursor (cursor : option string) (l : list string) : list string :=
  List.filter (fun n => match cursor with Some a => String.ltb a n | None => true end) l.

Lemma page_runs address a cursor limit s :
  (1 <= limit <= MAX_BNS_NAMES_PAGE_SIZE)%nat -> address_from_str (trim address) = Some a ->
  (forall c, cursor = Some c -> canonical_bns_name c = BOk c) ->
  let rest := after_cursor cursor (owned a (st_db s)) in
  query_names_by_address address cursor limit s
  = (BOk (mkBnsNamePage (take limit rest) (if (limit <? length rest)%nat then last (take limit rest) else None)), s).
Proof.
  intros Hlim Ha Hc rest. unfold query_names_by_address.
  rewrite (bns_bind_run _ _ s tt s).
  2:{ apply check_run. apply orb_false_iff. split; [apply Nat.eqb_neq; lia|apply Nat.ltb_ge; lia]. }
  rewrite (bns_bind_run _ _ s a s) by (by rewrite Ha). unfold transact.
  rewrite (bns_bind_run _ _ s (take (S limit) rest) s).
  2:{ unfold list_names_by_asset_owner. rewrite (bns_bind_run _ _ s (Z.of_nat (S limit)) s).
      2:{ apply lift_run, to_i64_run. unfold MAX_BNS_NAMES_PAGE_SIZE, i64_bound in *. lia. }
      destruct cursor as [c|]; [|done]. unfold bind at 1 2, lift. by rewrite Hc. }
  set (more := (limit <? length rest)%nat).
  assert (Em : (limit <? length (take (S limit) rest))%nat = more).
  { subst more. rewrite length_take. destruct (Nat.ltb_spec limit (length rest)) as [Hl|Hl];
      [apply Nat.ltb_lt|apply Nat.ltb_ge]; lia. }
  rewrite Em. unfold more. destruct (Nat.ltb_spec limit (length rest)) as [Hl|Hl].
  - by rewrite take_take, Nat.min_l by lia.
  - by rewrite !take_ge by lia.
Qed.

Lemma pages_from address a limit s fuel pre rest cursor :
  (1 <= limit <= MAX_BNS_NAMES_PAGE_SIZE)%nat -> address_from_str (trim address) = Some a ->
  rows_keyed (st_db s) -> (forall n, n ∈ owned a (st_db s) -> canonical_bns_name n = BOk n) ->
  owned a (st_db s) = pre ++ rest -> cursor = last pre -> (length rest < fuel)%nat ->
  all_pages fuel address cursor limit s = (BOk rest, s).
Proof.
  intros Hlim Ha Hk Hcan. revert pre rest cursor. induction fuel as [|fuel IH]; intros pre rest cursor Hown Hcur Hf; [lia|].
  cbn [all_pages]. pose proof (owned_sorted a _ Hk) as Hs.
  assert (Hafter : after_cursor cursor (owned a (st_db s)) = rest).
  { subst cursor. unfold after_cursor. destruct (last pre) as [c|] eqn:El.
    - apply last_Some in El as (pre' & ->). rewrite Hown in Hs |- *. by apply filter_after.
    - apply last_None in El as ->. rewrite Hown. by apply filter_every. }
  rewrite (bns_bind_run _ _ _ _ _ (page_runs address a cursor limit s Hlim Ha
    ltac:(intros c ->; apply Hcan; rewrite Hown; symmetry in Hcur; apply last_Some_elem_of in Hcur; set_solver))).
  rewrite Hafter. cbn [np_next_cursor np_names]. destruct (Nat.ltb_spec limit (length rest)) as [Hl|Hl].
  - destruct (last (take limit rest)) as [c|] eqn:El.
    + rewrite (bns_bind_run _ _ s (drop limit rest) s); [by rewrite take_drop|].
      apply (IH (pre ++ take limit rest)).
      * by rewrite <- app_assoc, take_drop.
      * by rewrite last_app, El.
      * rewrite length_drop. lia.
    + apply last_None, (f_equal length) in El. rewrite length_take in El. simpl in El. lia.
  - by rewrite take_ge by lia.
Qed.

(** A client that asks for the names of an address page by page, each page from
    the cursor of the one before it, gets exactly the names that the address
    holds, each once and in order, whatever the size of the pages. *)
Theorem pages_list_owned_names address a limit fuel s :
  reachable s -> (1 <= limit <= MAX_BNS_NAMES_PAGE_SIZE)%nat -> address_from_str (trim address) = Some a ->
  (size (db_names (st_db s)) < fuel)%nat ->
  exists names, all_pages fuel address None limit s = (BOk names, s)
    /\ StronglySorted text_lt names
    /\ forall n, n ∈ names <-> exists x, db_names (st_db s) !! n = Some x /\ ns_asset_owner x = a.
Proof.
  intros [[Hk _] [Hw _]]%reachable_wf Hlim Ha Hf. exists (owned a (st_db s)). split_and!.
  - eapply (pages_from address a limit s fuel []); try done.
    + intros n (x & Hx & _)%owned_elem; [|done]. destruct (Hw _ _ Hx) as (Hn & [Hv _] & _).
      unfold validate_name_state in Hv. rewrite seq_ok in Hv. destruct Hv as [[n' Hc] _]. rewrite Hn in Hc.
      by rewrite Hc, (canonical_bns_name_ok _ _ Hc) at 1.
    + unfold owned. rewrite length_fmap.
      assert (Hle : forall l, (length (List.filter (fun x => String.eqb (ns_asset_owner x) a) l) <= length l)%nat)
        by (intros l; apply List.filter_length_le).
      eapply Nat.le_lt_trans; [apply Hle|]. by rewrite stable_sort_Permutation, length_fmap, length_map_to_list.
  - by apply owned_sorted.
  - intros n. by apply owned_elem.
Qed.

(** ** Documents *)

(** A version of a document that counts at [now], under a name of this status. *)
Definition document_counts (doc : DocumentState) (name_status : NameStatus) (now : Z) : Prop :=
  ds_status doc = DsActive /\ (ds_expire_at doc = 0 \/ now < ds_expire_at doc)
  /\ name_status <> NsTombstoned /\ name_status <> NsExpired /\ name_status <> NsReleased.

Lemma effective_active_iff doc st now :
  document_effective_status_at doc st now = DsActive <-> document_counts doc st now.
Proof.
  unfold document_effective_status_at, document_counts. repeat case_bool_decide; simpl; try naive_solver.
  destruct (ds_expire_at doc =? 0) eqn:E0, (ds_expire_at doc <=? now) eqn:E1; simpl; zbool; naive_solver lia.
Qed.

(** What a document says of its owner agrees with the owner of its name. *)
Definition agrees_with_owner (t : string) (doc : DocumentState) (owner : Principal) : Prop :=
  exists assertions, document_owner_assertions t doc = Ok assertions
    /\ forall a, a ∈ assertions -> principals_match (da_principal a) owner = true.

Lemma check_all_ok {A} (f : A -> BnsResult unit) l u : check_all f l = BOk u -> forall a, a ∈ l -> f a = BOk tt.
Proof.
  induction l as [|x l IH]; intros Hc a; [set_solver|]. cbn [check_all] in Hc. rewrite seq_ok in Hc.
  destruct Hc as [[[] Hx] Hl]. intros [->|Ha]%elem_of_cons; [done|by apply IH].
Qed.

Lemma consistent_ok n t doc owner u :
  ensure_document_consistent n t doc owner = BOk u -> agrees_with_owner t doc owner.
Proof.
  unfold ensure_document_consistent, agrees_with_owner. destruct (document_owner_assertions t doc) as [l|]; [|done].
  intros Hc. exists l. split; [done|]. intros a Ha. apply (check_all_ok _ _ _ Hc) in Ha.
  apply reject_if_ok in Ha. by apply negb_false_iff.
Qed.

(** C15: the answer to a query for a document is the current version of the
    document, or a missing one; with the effective owner of the name, with whom
    a document that is there agrees on its owner and controllers; and it is active
    exactly if that version has the status active and has not expired, and its
    name is neither tombstoned nor expired nor released.  Nothing is written. *)
Theorem resolve_document_sound n t s r s' :
  reachable s -> resolve_document n t s = (BOk r, s') ->
  st_db s' = st_db s /\
  exists raw, db_names (st_db s) !! n = Some raw
    /\ rr_document_state r = default (missing_document_state n t) (current_document (st_db s) n t)
    /\ owner_of (db_names (st_db s)) n (or_effective_owner (rr_owner r))
    /\ (rr_status r = DsActive <->
        document_counts (rr_document_state r) (effective_status_at raw (clock_at (st_ticks s))) (clock_at (st_ticks s)))
    /\ (ds_status (rr_document_state r) <> DsMissing ->
        agrees_with_owner t (rr_document_state r) (or_effective_owner (rr_owner r))).
Proof.
  intros [[Hk _] _]%reachable_wf Hr. unfold resolve_document, get_name, get_alias, current_proof_root, latest_event in Hr.
  run_inv. set (now := clock_at (st_ticks s)) in *.
  match goal with Hm : materialize_name_state_at _ _ _ = _ |- _ => apply materialize_at_ok in Hm as (E1 & Hc & Hst) end.
  match goal with Ho : resolve_owner_from_state_at _ _ _ = (_, ?s1) |- _ =>
    assert (E2 : st_db s1 = st_db s) by (cbn [st_db] in E1; rewrite <- E1; eapply reads_run; [|exact Ho]; auto with reads);
    eapply (resolve_owner_sound _ _ _ _ _ _ n) in Ho; [|by rewrite E1|rewrite E1; eassumption|done]; rewrite E1 in Ho end.
  match goal with Hd : get_current_document _ _ _ = _ |- _ => apply current_document_ok in Hd as [-> Hcur] end.
  match goal with Hcheck : (if bool_decide _ then _ else _) _ = (_, ?sf) |- _ =>
    assert (E3 : st_db sf = st_db s)
      by (rewrite <- E2; eapply reads_run; [|exact Hcheck]; auto with reads); rename Hcheck into Hcons end.
  rewrite E2 in Hcur. subst. set (doc := default _ (current_document (st_db s) n t)) in *.
  split; [done|]. eexists. split; [eassumption|]. do 2 (split; [done|]). split.
  - cbn [materialize_resolve_at rr_status rr_document_state]. unfold resolve_effective_status_at.
    cbn [rr_status rr_name_state rr_document_state]. rewrite (effective_again _ _ _ Hc Hst).
    clear Hcons. rewrite <- effective_active_iff. case_bool_decide as Hd; cbn [negb]; [reflexivity|].
    rewrite effective_active_iff. unfold document_counts. naive_solver.
  - cbn [materialize_resolve_at rr_document_state rr_owner]. intros Hne. rewrite bool_decide_eq_false_2 in Hcons by done.
    run_inv. by eapply consistent_ok.
Qed.
End queries.
