(* ===== verification/BnsSamples.v ===== *)
(** * BNS: a sample registry

    The theorems on the registry applied to a concrete one: a clock, functions in
    place of the crates, and the calls of a few accounts. *)

From S2P Require Import Prelude BnsModel BnsStore BnsRegistry BnsQueries BnsRun BnsSteps BnsCalls BnsFacts BnsAuth BnsGuards BnsOwners BnsTotal BnsLive BnsQueryFacts.

Definition hex_digit (n : nat) : Ascii.ascii :=
  if (n <? 10)%nat then Ascii.ascii_of_nat (48 + n) else Ascii.ascii_of_nat (87 + n).

Fixpoint hex_text (s : string) : string :=
  match s with
  | EmptyString => EmptyString
  | String a s' =>
      String (hex_digit (Ascii.nat_of_ascii a / 16)) (String (hex_digit (Ascii.nat_of_ascii a mod 16)) (hex_text s'))
  end.

(** The first [n] bytes of a text, filled up where it is shorter. *)
Fixpoint pad (n : nat) (s : string) : string :=
  match n with
  | O => EmptyString
  | S n' =>
      match s with
      | EmptyString => String "-" (pad n' EmptyString)
      | String a s' => String a (pad n' s')
      end
  end.

Definition sample_libs : BnsLibs := {|
  sha256_digest := pad 32;
  hex_encode := hex_text;
  json_of_document := ds_doc_type;
  json_of_keys := fun _ => "keys";
  json_of_rules := fun _ => "rules";
  json_of_event := event_type;
  json_of_event_entry := fun '(_, r, e) => r +:+ e;
  json_of_log_entry := fun '(r, e) => r +:+ e;
  json_from_slice := fun s => Some (JString s);
  principal_from_value := fun _ => None;
  address_from_str := fun s => Some s
|}.

Lemma pad_length n s : String.length (pad n s) = n.
Proof. revert s. induction n as [|n IH]; intros [|a s]; simpl; by rewrite ?IH. Qed.

Lemma hex_text_length s : String.length (hex_text s) = (2 * String.length s)%nat.
Proof. induction s as [|a s IH]; cbn [hex_text String.length]; lia. Qed.

Lemma hex_text_digits s : string_forallb is_ascii_hexdigit (hex_text s) = true.
Proof.
  induction s as [|a s IH]; [done|]. cbn [hex_text string_forallb]. rewrite IH, andb_true_r.
  destruct a as [[] [] [] [] [] [] [] []]; reflexivity.
Qed.

Lemma sample_libs_laws : @BnsLibsLaws sample_libs.
Proof. split; [apply pad_length|apply hex_text_length|apply hex_text_digits]. Qed.

(** Five minutes pass after the first readings. *)
Definition sample_clock : Clock := fun i => if (i <? 14)%nat then 1000 else 1300.

#[local] Existing Instances sample_libs sample_clock.

Definition run_calls (cs : list Call) (s : Store) : Store := fold_left (fun s c => snd (run_call c s)) cs s.

Lemma run_calls_reachable cs s : reachable s -> reachable (run_calls cs s).
Proof.
  revert s. induction cs as [|c cs IH]; intros s Hs; [exact Hs|]. apply IH.
  exact (reach_call c s _ _ Hs (surjective_pairing _)).
Qed.

Definition sample_update (doc_type : string) (version : Z) : DocumentUpdate :=
  mkDocumentUpdate doc_type version (document_ref_new "ipfs" "ipfs://x" ZERO_HASH) unset_principal
    unset_principal "" 0 ZERO_HASH ZERO_HASH ZERO_HASH ZERO_HASH ZERO_HASH.

Definition options_for (duration : Z) : RegisterOptions :=
  mkRegisterOptions duration 60 true true unset_principal false "" ZERO_HASH ZERO_HASH.

Definition at_seq (n : Z) : MutationGuard := mkMutationGuard n n.
Definition as_account (a : string) : CallAuthority := owner_authority (chain_account a) "".

Definition register_alice : Call :=
  CallRegister "alice" "0xa" (options_for 100) [sample_update "did" 0] public_authority (at_seq 0).
Definition publish_alice : Call := CallPublish "alice" (sample_update "did" 1) (as_account "0xa") (at_seq 1).
Definition register_home : Call :=
  CallRegister "home.alice" "0xa" (options_for 1000) [] (as_account "0xa") (at_seq 1).
Definition register_bob : Call := CallRegister "bob" "0xb" (options_for 1000) [] public_authority (at_seq 0).

Definition store0 : Store := mkStore empty_db 0.
Definition store_alice : Store := run_calls [register_alice] store0.
Definition store_home : Store := run_calls [register_home; register_home; register_home] store_alice.

Lemma store_alice_reachable : reachable store_alice.
Proof. apply run_calls_reachable, reach_empty. Qed.

Lemma store_home_reachable : reachable store_home.
Proof. apply run_calls_reachable, store_alice_reachable. Qed.

Lemma run_ok c s : fst (run_call c s) = BOk tt -> run_call c s = (BOk tt, snd (run_call c s)).
Proof. intros <-. apply surjective_pairing. Qed.

Lemma publish_alice_run : run_call publish_alice store_alice = (BOk tt, snd (run_call publish_alice store_alice)).
Proof. apply run_ok. vm_compute. reflexivity. Qed.

Lemma register_home_run : run_call register_home store_alice = (BOk tt, snd (run_call register_home store_alice)).
Proof. apply run_ok. vm_compute. reflexivity. Qed.

Lemma registry_invariant_witness :
  is_Some (db_names (st_db store_alice) !! "alice") /\ registry_wf (st_db store_alice).
Proof.
  split; [vm_compute; eexists; reflexivity|]. exact (registry_invariant store_alice store_alice_reachable).
Defined.

Lemma call_touches_its_name_witness :
  let s' := snd (run_call publish_alice store_alice) in
  same_record "bob" (st_db store_alice) (st_db s').
Proof.
  refine (proj1 (call_touches_its_name publish_alice store_alice (BOk tt) _ "bob" store_alice_reachable publish_alice_run) _).
  discriminate.
Defined.

Lemma history_append_only_witness :
  grows (st_db store_alice) (st_db (snd (run_call publish_alice store_alice))).
Proof. exact (history_append_only publish_alice store_alice _ _ store_alice_reachable publish_alice_run). Defined.

Lemma names_only_age_witness :
  names_age (st_db store_alice) (st_db (snd (run_call publish_alice store_alice))).
Proof. exact (names_only_age publish_alice store_alice _ _ store_alice_reachable publish_alice_run). Defined.

Lemma calls_authorized_witness :
  let s' := snd (run_call publish_alice store_alice) in
  call_authorized (st_ticks store_alice) (st_ticks s') (st_db store_alice) publish_alice.
Proof. exact (calls_authorized publish_alice store_alice _ store_alice_reachable publish_alice_run). Defined.

(** The second publication under the same guard is refused. *)
Lemma guard_used_once_witness :
  let s1 := snd (run_call publish_alice store_alice) in
  fst (run_call publish_alice s1) <> BOk tt.
Proof.
  intros s1.
  exact (guard_used_once publish_alice publish_alice 1 store_alice s1 s1 _ _ store_alice_reachable publish_alice_run
           eq_refl eq_refl (rtc_refl _ _) eq_refl eq_refl (surjective_pairing _)).
Defined.

Definition sample_key : AuthorityKey :=
  mkAuthorityKey ZERO_HASH "ed25519" "key" 7 0 0 KsActive ZERO_HASH.
Definition keys_alice : Call :=
  CallUpdateKeys "alice" [mkAuthorityKeyUpdate sample_key true] (as_account "0xa") (at_seq 1).

Lemma keys_alice_run : run_call keys_alice store_alice = (BOk tt, snd (run_call keys_alice store_alice)).
Proof. apply run_ok. vm_compute. reflexivity. Qed.

(** The same update is accepted twice under one guard. *)
Lemma key_updates_keep_guard_witness :
  let s1 := snd (run_call keys_alice store_alice) in
  fst (run_call keys_alice s1) = BOk tt /\ db_names (st_db s1) = db_names (st_db store_alice).
Proof.
  split; [vm_compute; reflexivity|].
  exact (key_updates_keep_guard "alice" [mkAuthorityKeyUpdate sample_key true] (as_account "0xa") (at_seq 1)
           store_alice _ keys_alice_run).
Defined.

Lemma alice_owners_valid : owners_valid (db_names (st_db store_alice)).
Proof. apply owners_valid_wf, (reachable_wf store_alice store_alice_reachable). Qed.


Lemma register_home_within : within 1000 store_alice (snd (run_call register_home store_alice)).
Proof.
  intros i [Hlo Hhi]. assert (E : (st_ticks (snd (run_call register_home store_alice)) <= 14)%nat) by (vm_compute; lia).
  unfold clock_at, sample_clock. by rewrite (proj2 (Nat.ltb_lt _ _)) by lia.
Qed.

Definition home_state : NameState :=
  default (registered_state "" "" default_options None 0)
    (db_names (st_db (snd (run_call register_home store_alice))) !! "home.alice").


Lemma register_bob_within : within 1300 store_home (snd (run_call register_bob store_home)).
Proof.
  intros i [Hlo Hhi]. assert (E : (14 <= st_ticks store_home)%nat) by (vm_compute; lia).
  unfold clock_at, sample_clock. by rewrite (proj2 (Nat.ltb_ge _ _)) by lia.
Qed.

Definition state_of (n : string) (s : Store) : NameState :=
  default (registered_state "" "" default_options None 0) (db_names (st_db s) !! n).

(** [alice] has expired and [home.alice] has not: [bob] cannot be registered. *)
Lemma orphan_blocks_registry_witness : fst (run_call register_bob store_home) <> BOk tt.
Proof.
  refine (orphan_blocks_registry 1300 register_bob store_home _ _ "home.alice" "alice"
           (state_of "home.alice" store_home) (state_of "alice" store_home) store_home_reachable eq_refl
           register_bob_within (surjective_pairing _) _ _ _ _ _ _ _ _);
    vm_compute; (reflexivity || discriminate).
Defined.

Lemma calls_return_witness : fst (run_call register_home store_alice) <> BDiverges.
Proof. exact (calls_return register_home store_alice _ _ store_alice_reachable (surjective_pairing _)). Defined.

Lemma alice_stays_active : stays_active (state_of "alice" store_alice) (st_ticks store_alice) 8.
Proof.
  split; [vm_compute; reflexivity|]. intros i Hi. assert (E : st_ticks store_alice = 6%nat) by (vm_compute; reflexivity).
  right. unfold clock_at, sample_clock. rewrite (proj2 (Nat.ltb_lt _ _)) by lia. vm_compute. reflexivity.
Qed.

Lemma owner_can_publish_witness :
  let raw := state_of "alice" store_alice in
  exists v s',
    publish_document true "alice" (sample_update "did" 1)
      (owner_authority (chain_account (ns_asset_owner raw)) "") (mkMutationGuard (ns_name_seq raw) 0) store_alice
      = (BOk v, s')
    /\ current_document (st_db s') "alice" "did"
       = Some (published_document "alice" (sample_update "did" 1) v 1 (clock_at (st_ticks store_alice)))
    /\ exists new, db_names (st_db s') !! "alice" = Some new /\ ns_name_seq new = ns_name_seq raw + 1.
Proof.
  refine (@owner_can_publish sample_libs sample_libs_laws sample_clock "alice" (state_of "alice" store_alice)
    (sample_update "did" 1) "" 0 store_alice store_alice_reachable _ _ _ alice_stays_active _ _ _ _ _ _);
    vm_compute; (reflexivity || discriminate).
Defined.

(** [0xa] holds two names; pages of one name list both. *)
Lemma pages_list_owned_names_witness :
  fst (all_pages 5 "0xa" None 1 store_home) = BOk ["alice"; "home.alice"]
  /\ exists names, all_pages 5 "0xa" None 1 store_home = (BOk names, store_home)
     /\ StronglySorted text_lt names
     /\ forall n, n ∈ names <-> exists x, db_names (st_db store_home) !! n = Some x /\ ns_asset_owner x = "0xa".
Proof.
  split; [vm_compute; reflexivity|].
  refine (pages_list_owned_names "0xa" "0xa" 1 5 store_home store_home_reachable _ _ _).
  - split; vm_compute; lia.
  - reflexivity.
  - vm_compute. lia.
Defined.

Definition resolved : BnsResult ResolveResult := fst (resolve_document "alice" "did" store_alice).

Lemma resolve_document_sound_witness :
  exists r, resolved = BOk r /\ rr_status r = DsActive
    /\ owner_of (db_names (st_db store_alice)) "alice" (or_effective_owner (rr_owner r)).
Proof.
  assert (E : exists r, resolved = BOk r /\ rr_status r = DsActive) by (vm_compute; eexists; split; reflexivity).
  destruct E as (r & E & Hr). exists r. split; [exact E|]. split; [exact Hr|].
  assert (Hrun : resolve_document "alice" "did" store_alice = (BOk r, snd (resolve_document "alice" "did" store_alice)))
    by (rewrite <- E; apply surjective_pairing).
  destruct (resolve_document_sound "alice" "did" store_alice r _ store_alice_reachable Hrun) as (_ & raw & _ & _ & Ho & _).
  exact Ho.
Defined.
