(* ===== verification/IpAddr.v ===== *)
(** * Internet addresses and their texts

    [std::net::IpAddr] as the gateway uses it: the two families, their printed
    form ([Display]) and the parser behind [str::parse].  Several components
    store addresses as texts and read them back; [ip_round_trip] is what they
    rely on. *)

From S2P Require Import Prelude.

(** ** Addresses *)

(** [Ipv4Addr] as its four octets, [Ipv6Addr] as its eight segments. *)
Inductive IpAddr : Type :=
| V4 (octets : list Z)
| V6 (segments : list Z).

#[export] Instance IpAddr_eq_dec : EqDecision IpAddr.
Proof. solve_decision. Defined.

Definition ip_wf (ip : IpAddr) : Prop :=
  match ip with
  | V4 os => length os = 4%nat /\ Forall (fun o => 0 <= o < 256) os
  | V6 ss => length ss = 8%nat /\ Forall (fun s => 0 <= s < 65536) ss
  end.

(** [Ipv4Addr::UNSPECIFIED]. *)
Definition v4_unspecified : IpAddr := V4 [0; 0; 0; 0].

(** The two octets of a segment. *)
Definition octets_of (s : Z) : list Z := [s / 256; s mod 256].
Definition segment_of (a b : Z) : Z := a * 256 + b.

(** [Ipv6Addr::to_ipv4_mapped] and [Ipv6Addr::to_ipv4]. *)
Definition low_octets (ss : list Z) : list Z :=
  match drop 6 ss with
  | [ab; cd] => octets_of ab ++ octets_of cd
  | _ => []
  end.

Definition to_ipv4_mapped (ss : list Z) : option (list Z) :=
  if bool_decide (take 6 ss = [0; 0; 0; 0; 0; 65535]) then Some (low_octets ss) else None.

Definition to_ipv4 (ss : list Z) : option (list Z) :=
  if bool_decide (take 5 ss = [0; 0; 0; 0; 0]) &&
     (bool_decide (ss !! 5%nat = Some 0) || bool_decide (ss !! 5%nat = Some 65535))
  then Some (low_octets ss) else None.

(** ** Printing *)

Definition digit_char (d : Z) : Ascii.ascii :=
  Ascii.ascii_of_N (Z.to_N (if d <? 10 then 48 + d else 87 + d)).

(** A number below [radix ^ fuel], without leading zeros. *)
Fixpoint fmt_radix (fuel : nat) (radix n : Z) (acc : string) : string :=
  match fuel with
  | O => acc
  | S fuel' =>
      let acc := String (digit_char (n mod radix)) acc in
      if n <? radix then acc else fmt_radix fuel' radix (n / radix) acc
  end.

Definition fmt_u8 (n : Z) : string := fmt_radix 3 10 n "".
Definition fmt_hex (n : Z) : string := fmt_radix 4 16 n "".

Definition fmt_ipv4 (os : list Z) : string := String.concat "." (fmt_u8 <$> os).

Definition fmt_subslice (ss : list Z) : string := String.concat ":" (fmt_hex <$> ss).

(** The longest run of zeros, the first of them: where it starts and how many
    segments it has. *)
Fixpoint zeroes_loop (i : nat) (current longest : nat * nat) (ss : list Z) : nat * nat :=
  match ss with
  | [] => longest
  | s :: ss' =>
      if s =? 0 then
        let current := (if (current.2 =? 0)%nat then i else current.1, S current.2) in
        zeroes_loop (S i) current
          (if (longest.2 <? current.2)%nat then current else longest) ss'
      else zeroes_loop (S i) (0, 0)%nat longest ss'
  end.

Definition zeroes (ss : list Z) : nat * nat := zeroes_loop 0 (0, 0)%nat (0, 0)%nat ss.

Definition fmt_ipv6 (ss : list Z) : string :=
  match to_ipv4_mapped ss with
  | Some os => "::ffff:" +:+ fmt_ipv4 os
  | None =>
      let '(start, len) := zeroes ss in
      if (1 <? len)%nat then
        fmt_subslice (take start ss) +:+ "::" +:+ fmt_subslice (drop (start + len) ss)
      else fmt_subslice ss
  end.

(** [IpAddr::to_string]. *)
Definition ip_to_string (ip : IpAddr) : string :=
  match ip with V4 os => fmt_ipv4 os | V6 ss => fmt_ipv6 ss end.

(** ** Parsing

    The parser of [core::net::parser]: each reader takes the text that is left
    and returns what it read and the rest, or nothing with the text untouched. *)

Definition to_digit (radix : Z) (a : Ascii.ascii) : option Z :=
  let n := Z.of_N (char_code a) in
  let d := if is_ascii_digit a then n - 48
           else if is_ascii_lower a then n - 87
           else if is_ascii_upper a then n - 55 else radix in
  if d <? radix then Some d else None.

Fixpoint read_digits (radix : Z) (s : string) : list Z * string :=
  match s with
  | EmptyString => ([], s)
  | String a s' =>
      match to_digit radix a with
      | None => ([], s)
      | Some d => let '(ds, r) := read_digits radix s' in (d :: ds, r)
      end
  end.

Definition digits_value (radix : Z) (ds : list Z) : Z :=
  fold_left (fun v d => v * radix + d) ds 0.

(** [read_number]: at most [max_digits] digits, a value of at most [limit]. *)
Definition read_number (radix : Z) (max_digits : nat) (allow_zero_prefix : bool) (limit : Z)
    (s : string) : option (Z * string) :=
  let '(ds, r) := read_digits radix s in
  if (max_digits <? length ds)%nat then None
  else match ds with
       | [] => None
       | d :: _ =>
           if negb allow_zero_prefix && (d =? 0) && (1 <? length ds)%nat then None
           else if limit <? digits_value radix ds then None
           else Some (digits_value radix ds, r)
       end.

Definition read_given_char (c : Ascii.ascii) (s : string) : option string :=
  match s with
  | String a s' => if Ascii.eqb a c then Some s' else None
  | EmptyString => None
  end.

(** [read_separator]: the separator comes before every item but the first. *)
Definition read_separator {A} (sep : Ascii.ascii) (index : nat)
    (inner : string -> option (A * string)) (s : string) : option (A * string) :=
  match index with
  | O => inner s
  | S _ => match read_given_char sep s with Some s' => inner s' | None => None end
  end.

Definition read_octet : string -> option (Z * string) := read_number 10 3 false 255.
Definition read_group : string -> option (Z * string) := read_number 16 4 true 65535.

Fixpoint read_octets (n index : nat) (s : string) : option (list Z * string) :=
  match n with
  | O => Some ([], s)
  | S n' =>
      match read_separator char_dot index read_octet s with
      | None => None
      | Some (o, s') =>
          match read_octets n' (S index) s' with
          | None => None
          | Some (os, r) => Some (o :: os, r)
          end
      end
  end.

Definition read_ipv4_addr : string -> option (list Z * string) := read_octets 4 0.

(** [read_groups]: up to [n] groups, the last two possibly as an IPv4 address,
    which the flag tells. *)
Fixpoint read_groups (n index : nat) (s : string) : list Z * bool * string :=
  match n with
  | O => ([], false, s)
  | S n' =>
      match (if (1 <=? n')%nat then read_separator char_colon index read_ipv4_addr s else None) with
      | Some (os, r) =>
          match os with
          | [a; b; c; d] => ([segment_of a b; segment_of c d], true, r)
          | _ => ([], true, r)
          end
      | None =>
          match read_separator char_colon index read_group s with
          | Some (g, s') =>
              let '(gs, b, r) := read_groups n' (S index) s' in (g :: gs, b, r)
          | None => ([], false, s)
          end
      end
  end.

Definition read_ipv6_addr (s : string) : option (list Z * string) :=
  let '(head, head_ipv4, r) := read_groups 8 0 s in
  if (length head =? 8)%nat then Some (head, r)
  else if head_ipv4 then None
  else match read_given_char char_colon r with
       | None => None
       | Some r1 =>
           match read_given_char char_colon r1 with
           | None => None
           | Some r2 =>
               let '(tail, _, r3) := read_groups (8 - (length head + 1)) 0 r2 in
               Some (head ++ replicate (8 - length head - length tail) 0 ++ tail, r3)
           end
       end.

(** [str::parse::<IpAddr>]: IPv4 first, and the whole text. *)
Definition parse_ip (s : string) : option IpAddr :=
  match read_ipv4_addr s with
  | Some (os, EmptyString) => Some (V4 os)
  | Some _ => None
  | None =>
      match read_ipv6_addr s with
      | Some (ss, EmptyString) => Some (V6 ss)
      | _ => None
      end
  end.

(** ** Numbers *)

(** The next character is not a digit. *)
Definition stops (radix : Z) (r : string) : Prop :=
  match r with EmptyString => True | String a _ => to_digit radix a = None end.

Definition base_ok (radix : Z) : Prop := radix = 10 \/ radix = 16.

Fixpoint digit_chars (ds : list Z) : string :=
  match ds with [] => EmptyString | d :: ds' => String (digit_char d) (digit_chars ds') end.

Lemma digit_chars_app ds ds' : digit_chars (ds ++ ds') = digit_chars ds +:+ digit_chars ds'.
Proof. induction ds as [|d ds IH]; simpl; [done|]. by rewrite IH. Qed.

Lemma digits_value_snoc radix ds d :
  digits_value radix (ds ++ [d]) = digits_value radix ds * radix + d.
Proof. unfold digits_value. by rewrite fold_left_app. Qed.

Definition digits_of (radix : Z) (width : nat) (n : Z) (ds : list Z) : Prop :=
  Forall (fun d => 0 <= d < radix) ds /\ (1 <= length ds <= width)%nat /\
  digits_value radix ds = n /\ (head ds = Some 0 -> length ds = 1%nat).

Lemma fmt_radix_digits fuel radix n acc :
  2 <= radix -> 0 <= n < radix ^ Z.of_nat fuel -> (0 < fuel)%nat ->
  exists ds, digits_of radix fuel n ds /\ fmt_radix fuel radix n acc = digit_chars ds +:+ acc.
Proof.
  intros Hr. revert n acc. induction fuel as [|fuel IH]; intros n acc Hn Hf; [lia|].
  simpl fmt_radix. destruct (n <? radix) eqn:E; zbool.
  - exists [n]. rewrite Z.mod_small by lia. split; [|done].
    repeat split; simpl; auto with lia.
  - assert (Hq : 1 <= n / radix) by (apply Z.div_le_lower_bound; lia).
    rewrite Nat2Z.inj_succ, Z.pow_succ_r in Hn by lia.
    destruct fuel as [|fuel]; [simpl in Hn; lia|].
    destruct (IH (n / radix) (String (digit_char (n mod radix)) acc)) as (ds & (Hd & Hl & Hv & Hz) & ->).
    { split; [lia|]. apply Z.div_lt_upper_bound; lia. }
    { lia. }
    exists (ds ++ [n mod radix]). split.
    + repeat split.
      * apply Forall_app. split; [done|]. constructor; [|done]. apply Z.mod_pos_bound. lia.
      * rewrite length_app. simpl. lia.
      * rewrite length_app. simpl. lia.
      * rewrite digits_value_snoc, Hv. pose proof (Z.div_mod n radix). lia.
      * destruct ds as [|d ds]; [simpl in Hl; lia|]. simpl. intros [= ->].
        specialize (Hz eq_refl). destruct ds; [|done]. unfold digits_value in Hv. simpl in Hv. lia.
    + by rewrite digit_chars_app, append_assoc.
Qed.

Lemma to_digit_char radix d : base_ok radix -> 0 <= d < radix -> to_digit radix (digit_char d) = Some d.
Proof.
  intros Hb Hd. assert (Hc : d ∈ [0; 1; 2; 3; 4; 5; 6; 7; 8; 9; 10; 11; 12; 13; 14; 15]).
  { destruct Hb; subst; repeat (rewrite elem_of_cons); lia. }
  repeat (apply elem_of_cons in Hc as [->|Hc]); destruct Hb as [->| ->]; try done; try lia.
  all: by apply elem_of_nil in Hc.
Qed.

Lemma read_digit_chars radix ds r :
  base_ok radix -> Forall (fun d => 0 <= d < radix) ds -> stops radix r ->
  read_digits radix (digit_chars ds +:+ r) = (ds, r).
Proof.
  intros Hb Hds Hr. induction Hds as [|d ds Hd Hds IH]; simpl.
  - destruct r as [|a r]; simpl in *; [done|]. by rewrite Hr.
  - rewrite to_digit_char by done. by rewrite IH.
Qed.

(** A printed number is read back, whatever follows it. *)
Lemma read_digits_of radix width z limit n ds r :
  base_ok radix -> digits_of radix width n ds -> n <= limit -> stops radix r ->
  read_number radix width z limit (digit_chars ds +:+ r) = Some (n, r).
Proof.
  intros Hb (Hds & Hl & Hv & Hz) Hn Hr. unfold read_number. rewrite read_digit_chars by done.
  destruct (Nat.ltb_spec width (length ds)); [lia|].
  destruct ds as [|d ds]; [simpl in *; lia|]. rewrite Hv.
  destruct (negb z && (d =? 0) && (1 <? length (d :: ds))%nat) eqn:E.
  - apply andb_true_iff in E as [[_ E1]%andb_true_iff E2%Nat.ltb_lt]. zbool. subst d.
    specialize (Hz eq_refl). lia.
  - destruct (Z.ltb_spec limit n); [lia|done].
Qed.

Lemma fmt_u8_digits n : 0 <= n < 256 -> exists ds, digits_of 10 3 n ds /\ fmt_u8 n = digit_chars ds.
Proof.
  intros Hn. destruct (fmt_radix_digits 3 10 n "") as (ds & Hd & He); [lia|simpl; lia|lia|].
  exists ds. split; [done|]. unfold fmt_u8. rewrite He. apply append_nil_r.
Qed.

Lemma fmt_hex_digits n : 0 <= n < 65536 -> exists ds, digits_of 16 4 n ds /\ fmt_hex n = digit_chars ds.
Proof.
  intros Hn. destruct (fmt_radix_digits 4 16 n "") as (ds & Hd & He); [lia|simpl; lia|lia|].
  exists ds. split; [done|]. unfold fmt_hex. rewrite He. apply append_nil_r.
Qed.

Lemma read_octet_fmt n r : 0 <= n < 256 -> stops 10 r -> read_octet (fmt_u8 n +:+ r) = Some (n, r).
Proof.
  intros Hn Hr. destruct (fmt_u8_digits n Hn) as (ds & Hd & ->).
  eapply read_digits_of; [by left|done|lia|done].
Qed.

Lemma read_group_fmt n r : 0 <= n < 65536 -> stops 16 r -> read_group (fmt_hex n +:+ r) = Some (n, r).
Proof.
  intros Hn Hr. destruct (fmt_hex_digits n Hn) as (ds & Hd & ->).
  eapply read_digits_of; [by right|done|lia|done].
Qed.

(** ** IPv4 *)

Lemma concat_cons_cons sep s l :
  String.concat sep (s :: l) = s +:+ match l with [] => "" | _ => sep +:+ String.concat sep l end.
Proof. destruct l; simpl; [|done]. by rewrite append_nil_r. Qed.

Lemma read_dot s : read_given_char char_dot ("." +:+ s) = Some s.
Proof. done. Qed.

Lemma read_colon s : read_given_char char_colon (":" +:+ s) = Some s.
Proof. done. Qed.

Lemma read_ipv4_fmt os r :
  length os = 4%nat -> Forall (fun o => 0 <= o < 256) os -> stops 10 r ->
  read_ipv4_addr (fmt_ipv4 os +:+ r) = Some (os, r).
Proof.
  intros Hl Hos Hr. destruct os as [|a [|b [|c [|d [|]]]]]; try done.
  rewrite !Forall_cons in Hos. destruct Hos as (? & ? & ? & ? & _).
  unfold fmt_ipv4. rewrite !fmap_cons, fmap_nil, !concat_cons_cons, !append_assoc.
  unfold read_ipv4_addr. cbn [read_octets read_separator].
  do 3 rewrite read_octet_fmt, read_dot by done.
  by rewrite read_octet_fmt.
Qed.

(** ** IPv6 *)

Definition no_dot (r : string) : Prop := match r with String a _ => a <> char_dot | _ => True end.


Lemma not_dot_digit d : 0 <= d < 16 -> digit_char d <> char_dot.
Proof. intros Hd E. pose proof (to_digit_char 16 d (or_intror eq_refl) Hd) as H. by rewrite E in H. Qed.

Lemma read_digits_no_dot ds r :
  Forall (fun d => 0 <= d < 16) ds -> stops 10 r -> no_dot r ->
  no_dot (read_digits 10 (digit_chars ds +:+ r)).2.
Proof.
  intros Hds Hs Hr. induction Hds as [|d ds Hd Hds IH]; simpl.
  - destruct r as [|a r]; simpl in *; [done|]. by rewrite Hs.
  - destruct (to_digit 10 (digit_char d)); [|by apply not_dot_digit].
    change (digit_chars ds +:+ r) with (digit_chars ds +:+ r).
    by destruct (read_digits 10 (digit_chars ds +:+ r)).
Qed.

(** A hexadecimal group that no dot follows does not start an IPv4 address. *)
Lemma read_ipv4_not_group n r :
  0 <= n < 65536 -> stops 10 r -> no_dot r -> read_ipv4_addr (fmt_hex n +:+ r) = None.
Proof.
  intros Hn Hs Hr. destruct (fmt_hex_digits n Hn) as (ds & (Hd & _) & ->).
  pose proof (read_digits_no_dot ds r Hd Hs Hr) as Hnd.
  unfold read_ipv4_addr. cbn [read_octets read_separator].
  destruct (read_octet _) as [[o s']|] eqn:E; [|done].
  assert (no_dot s').
  { unfold read_octet, read_number in E. destruct (read_digits 10 _) as [ds' r'].
    repeat case_match; simplify_eq; done. }
  destruct s' as [|a s']; simpl in *; [done|].
  destruct (Ascii.eqb_spec a char_dot); [done|done].
Qed.

(** Where a list of groups ends: at the end, or before a second colon. *)
Definition group_end (r : string) : Prop := r = "" \/ exists r', r = "::" +:+ r'.

Lemma group_end_stops r : group_end r -> stops 10 r /\ stops 16 r /\ no_dot r.
Proof. intros [->|(r' & ->)]; simpl; auto. Qed.

(** Groups printed after the first: each with its colon. *)
Definition more_groups (ss : list Z) : string :=
  match ss with [] => "" | _ => ":" +:+ fmt_subslice ss end.

Lemma fmt_subslice_cons s ss : fmt_subslice (s :: ss) = fmt_hex s +:+ more_groups ss.
Proof. unfold fmt_subslice, more_groups. rewrite fmap_cons, concat_cons_cons. by destruct ss. Qed.

Lemma more_groups_stops ss r : group_end r ->
  stops 10 (more_groups ss +:+ r) /\ stops 16 (more_groups ss +:+ r) /\ no_dot (more_groups ss +:+ r).
Proof. intros Hr. destruct ss; [by apply group_end_stops|]. simpl. auto. Qed.

Lemma read_groups_end n i r : group_end r -> read_groups n i r = ([], false, r).
Proof.
  intros Hr. destruct n as [|n]; [done|]. cbn [read_groups].
  destruct (1 <=? n)%nat, Hr as [->|(r' & ->)], i; reflexivity.
Qed.

Lemma read_groups_more ss n i r :
  (length ss <= n)%nat -> Forall (fun s => 0 <= s < 65536) ss -> group_end r ->
  read_groups n (S i) (more_groups ss +:+ r) = (ss, false, r).
Proof.
  intros Hl Hss Hr. revert n i Hl. induction Hss as [|s ss Hs Hss IH]; intros n i Hl.
  { by apply read_groups_end. }
  destruct n as [|n]; [simpl in Hl; lia|].
  unfold more_groups at 1. rewrite append_assoc. cbn [read_groups read_separator].
  rewrite read_colon, fmt_subslice_cons, append_assoc.
  destruct (more_groups_stops ss r Hr) as (H10 & H16 & Hd).
  rewrite read_ipv4_not_group, read_group_fmt, IH by (simpl in Hl; auto with lia).
  by destruct (1 <=? n)%nat.
Qed.

Lemma read_groups_fmt ss n r :
  (length ss <= n)%nat -> Forall (fun s => 0 <= s < 65536) ss -> group_end r ->
  read_groups n 0 (fmt_subslice ss +:+ r) = (ss, false, r).
Proof.
  intros Hl Hss Hr. destruct Hss as [|s ss Hs Hss].
  { by apply read_groups_end. }
  destruct n as [|n]; [simpl in Hl; lia|].
  rewrite fmt_subslice_cons, append_assoc. cbn [read_groups read_separator].
  destruct (more_groups_stops ss r Hr) as (H10 & H16 & Hd).
  rewrite read_ipv4_not_group, read_group_fmt, read_groups_more by (simpl in Hl; auto with lia).
  by destruct (1 <=? n)%nat.
Qed.

(** The run of zeros the printer leaves out is one. *)
Definition zero_run (ss : list Z) (p : nat * nat) : Prop :=
  forall j, (p.1 <= j < p.1 + p.2)%nat -> ss !! j = Some 0.

Lemma zeroes_loop_spec ss pre current longest :
  current.2 = 0%nat \/ (current.1 + current.2 = length pre)%nat ->
  zero_run (pre ++ ss) current -> zero_run (pre ++ ss) longest ->
  zero_run (pre ++ ss) (zeroes_loop (length pre) current longest ss).
Proof.
  revert pre current longest. induction ss as [|s ss IH]; intros pre current longest Hc Hrc Hrl; [done|].
  simpl. replace (S (length pre)) with (length (pre ++ [s])) by (rewrite length_app; simpl; lia).
  assert (Happ : pre ++ s :: ss = (pre ++ [s]) ++ ss) by (by rewrite <- app_assoc).
  destruct (Z.eqb_spec s 0) as [->|Hs].
  - assert (Hrun : zero_run (pre ++ 0 :: ss)
        (if (current.2 =? 0)%nat then length pre else current.1, S current.2)).
    { intros j Hj. simpl in Hj. destruct (Nat.eq_dec j (length pre)) as [->|].
      - by rewrite list_lookup_middle.
      - apply Hrc. destruct (Nat.eqb_spec current.2 0); lia. }
    rewrite Happ in *. apply IH; [|done|by destruct (_ <? _)%nat].
    right. simpl. rewrite length_app. simpl. destruct (Nat.eqb_spec current.2 0); lia.
  - rewrite Happ in *. apply IH; [by left| |done]. intros j. simpl. lia.
Qed.

Lemma zeroes_spec ss : zero_run ss (zeroes ss).
Proof.
  apply (zeroes_loop_spec ss [] (0, 0)%nat (0, 0)%nat); [by left| |]; intros j; simpl; lia.
Qed.

Lemma zeroes_split ss start len :
  zeroes ss = (start, len) -> (1 < len)%nat ->
  ss = take start ss ++ replicate len 0 ++ drop (start + len) ss /\ (start + len <= length ss)%nat.
Proof.
  intros Hz Hlen. pose proof (zeroes_spec ss) as H. rewrite Hz in H. unfold zero_run in H. simpl in H.
  assert (Hl : (start + len <= length ss)%nat).
  { assert (Hs : ss !! (start + len - 1)%nat = Some 0) by (apply H; lia).
    apply lookup_lt_Some in Hs. lia. }
  split; [|done].
  rewrite <- (take_drop start ss) at 1. f_equal.
  rewrite <- (take_drop len (drop start ss)) at 1. rewrite drop_drop. f_equal.
  apply list_eq. intros j. destruct (decide (j < len)%nat) as [Hj|Hj].
  - rewrite lookup_take_lt, lookup_drop, H by lia.
    symmetry. by apply lookup_replicate_2.
  - rewrite !lookup_ge_None_2; [done|rewrite length_replicate; lia|rewrite length_take; lia].
Qed.

Lemma low_octets_wf ss : ip_wf (V6 ss) -> ip_wf (V4 (low_octets ss)).
Proof.
  intros [Hl Hf]. destruct ss as [|? [|? [|? [|? [|? [|? [|ab [|cd [|]]]]]]]]]; try done.
  rewrite !Forall_cons in Hf. destruct Hf as (_ & _ & _ & _ & _ & _ & Hab & Hcd & _).
  split; [done|]. unfold low_octets, octets_of. simpl.
  repeat constructor; try (by apply Z.mod_pos_bound);
    solve [apply Z.div_pos; lia | apply Z.div_lt_upper_bound; lia].
Qed.

Lemma segment_octets s : segment_of (s / 256) (s mod 256) = s.
Proof. unfold segment_of. pose proof (Z.div_mod s 256). lia. Qed.

Lemma read_mapped ss :
  ip_wf (V6 ss) -> take 6 ss = [0; 0; 0; 0; 0; 65535] ->
  read_ipv6_addr ("::ffff:" +:+ fmt_ipv4 (low_octets ss)) = Some (ss, "").
Proof.
  intros Hwf Ht. pose proof (low_octets_wf ss Hwf) as [Hl Hf]. destruct Hwf as [Hl' Hf'].
  destruct ss as [|? [|? [|? [|? [|? [|? [|ab [|cd [|]]]]]]]]]; try done. simplify_eq/=.
  change ("::ffff:" +:+ ?x) with ("::" +:+ (fmt_hex 65535 +:+ (":" +:+ x))).
  unfold read_ipv6_addr. rewrite read_groups_end by (right; eauto). simpl length. cbv iota beta.
  change (if (0 =? 8)%nat then ?a else ?b) with b. cbv iota.
  change ("::" +:+ ?x) with (":" +:+ (":" +:+ x)). rewrite !read_colon.
  cbn [Nat.sub Nat.add]. cbn [read_groups read_separator].
  rewrite read_ipv4_not_group, read_group_fmt by done. cbn [Nat.leb].
  rewrite read_colon. rewrite <- (append_nil_r (fmt_ipv4 _)), read_ipv4_fmt by done.
  unfold low_octets, octets_of. simpl. by rewrite !segment_octets.
Qed.

Lemma read_ipv6_fmt ss : ip_wf (V6 ss) -> read_ipv6_addr (fmt_ipv6 ss) = Some (ss, "").
Proof.
  intros Hwf. unfold fmt_ipv6, to_ipv4_mapped. case_bool_decide as Hm; [by apply read_mapped|].
  destruct Hwf as [Hl Hf]. destruct (zeroes ss) as [start len] eqn:Hz.
  destruct (Nat.ltb_spec 1 len) as [Hlen|Hlen].
  - destruct (zeroes_split ss start len Hz Hlen) as [Hs Hle].
    unfold read_ipv6_addr.
    rewrite read_groups_fmt;
      [|rewrite length_take; lia|by apply Forall_take|right; eauto].
    rewrite length_take, Nat.min_l by lia.
    destruct (Nat.eqb_spec start 8); [lia|]. cbv iota beta.
    change ("::" +:+ ?x) with (":" +:+ (":" +:+ x)). rewrite !read_colon.
    rewrite <- (append_nil_r (fmt_subslice (drop _ _))).
    rewrite read_groups_fmt; [|rewrite length_drop; lia|by apply Forall_drop|by left].
    rewrite length_drop, Hl. replace (8 - start - (8 - (start + len)))%nat with len by lia.
    by rewrite <- Hs.
  - unfold read_ipv6_addr. rewrite <- (append_nil_r (fmt_subslice ss)).
    rewrite read_groups_fmt; [by rewrite Hl|lia|done|by left].
Qed.

Lemma read_ipv4_not_groups ss r :
  Forall (fun s => 0 <= s < 65536) ss -> group_end r -> read_ipv4_addr (fmt_subslice ss +:+ r) = None.
Proof.
  intros Hss Hr. destruct Hss as [|s ss Hs Hss].
  - destruct Hr as [->|(r' & ->)]; reflexivity.
  - rewrite fmt_subslice_cons, append_assoc.
    destruct (more_groups_stops ss r Hr) as (H10 & _ & Hd). by apply read_ipv4_not_group.
Qed.

Lemma read_ipv4_not_ipv6 ss : ip_wf (V6 ss) -> read_ipv4_addr (fmt_ipv6 ss) = None.
Proof.
  intros [Hl Hf]. unfold fmt_ipv6. destruct (to_ipv4_mapped ss); [reflexivity|].
  destruct (zeroes ss) as [start len]. destruct (1 <? len)%nat.
  - apply read_ipv4_not_groups; [by apply Forall_take|right; eauto].
  - rewrite <- (append_nil_r (fmt_subslice ss)). apply read_ipv4_not_groups; [done|by left].
Qed.

(** An address printed and parsed is the address. *)
Lemma ip_round_trip ip : ip_wf ip -> parse_ip (ip_to_string ip) = Some ip.
Proof.
  unfold parse_ip. destruct ip as [os|ss]; simpl; intros Hwf.
  - destruct Hwf as [Hl Hf]. rewrite <- (append_nil_r (fmt_ipv4 os)), read_ipv4_fmt by done. done.
  - by rewrite read_ipv4_not_ipv6, read_ipv6_fmt.
Qed.
