(* ===== verification/Tasks.v ===== *)
(** * Asynchronous tasks

    The service node runs every request as a task of its own.  A task is a
    sequence of atomic actions on a shared world (a statement or a transaction
    of the database, a reading of the clock, a lock); between two of them other
    tasks may act.  [Task] is the type of such programs, [run] executes one with
    no other task around, and [sys_step] interleaves any number of them.

    [Safe] is the proof rule for invariants under every interleaving: each
    action of a task keeps the invariant and respects the guarantee, given the
    facts the task has collected so far, which must be stable under what the
    other tasks may do.  [Keeps] is the rule for one task in an environment
    that changes another part of the world.

    The named locks come from a crate: class [NamedLocker] is what its
    documentation promises. *)

From S2P Require Import Prelude.

Section tasks.
Context {W : Type}.

(** ** Programs *)

Inductive Task (A : Type) : Type :=
| Ret (a : A)
| Act {X : Type} (act : W -> option (X * W)) (k : X -> Task A).
Arguments Ret {A} a.
Arguments Act {A X} act k.

Fixpoint tbind {A B} (t : Task A) (f : A -> Task B) : Task B :=
  match t with
  | Ret a => f a
  | Act act k => Act act (fun x => tbind (k x) f)
  end.

(** An action that always succeeds. *)
Definition atomic {A} (f : W -> A * W) : Task A := Act (fun w => Some (f w)) Ret.

(** ** One task on its own *)

(** [None]: the task waits for a lock nobody will release. *)
Fixpoint run {A} (t : Task A) (w : W) : option (A * W) :=
  match t with
  | Ret a => Some (a, w)
  | Act act k =>
      match act w with
      | Some (x, w') => run (k x) w'
      | None => None
      end
  end.

Lemma run_tbind {A B} (t : Task A) (f : A -> Task B) w :
  run (tbind t f) w = match run t w with Some (a, w') => run (f a) w' | None => None end.
Proof.
  revert w. induction t as [a|X act k IH]; intros w; simpl; [done|].
  destruct (act w) as [[x w']|]; [apply IH|done].
Qed.

Lemma run_atomic {A} (f : W -> A * W) w : run (atomic f) w = Some (f w).
Proof. unfold atomic. simpl. by destruct (f w). Qed.

(** ** Many tasks *)

Section system.
Context {Call Reply : Type} (task_of : Call -> Task Reply) (Allowed : Call -> Prop).

Record Sys : Type := mkSys {
  sys_world : W;
  sys_tasks : list (Call * Task Reply);
  sys_replies : list (Call * Reply)
}.

(** An allowed request arrives; a task performs its next action; a task ends. *)
Inductive sys_step : Sys -> Sys -> Prop :=
| step_start w ts rs c :
    Allowed c ->
    sys_step (mkSys w ts rs) (mkSys w (ts ++ [(c, task_of c)]) rs)
| step_act w ts1 ts2 rs c X (act : W -> option (X * W)) k x w' :
    act w = Some (x, w') ->
    sys_step (mkSys w (ts1 ++ (c, Act act k) :: ts2) rs)
             (mkSys w' (ts1 ++ (c, k x) :: ts2) rs)
| step_reply w ts1 ts2 rs c r :
    sys_step (mkSys w (ts1 ++ (c, Ret r) :: ts2) rs)
             (mkSys w (ts1 ++ ts2) (rs ++ [(c, r)])).

Definition started (w : W) : Sys := mkSys w [] [].
End system.

(** ** Invariants under interleaving *)

Section safety.
Context (I : W -> Prop) (G : relation W).

Definition stable (K : W -> Prop) : Prop := forall w w', I w -> I w' -> G w w' -> K w -> K w'.

(** [Safe t K Q]: from a world with the invariant in which [K] holds, every
    action of [t] keeps the invariant and does what [G] allows, however the
    other tasks act in between, and its result satisfies [Q]. *)
Fixpoint Safe {A} (t : Task A) (K : W -> Prop) (Q : A -> W -> Prop) : Prop :=
  match t with
  | Ret a => forall w, I w -> K w -> Q a w
  | Act act k =>
      forall w x w', I w -> K w -> act w = Some (x, w') ->
      I w' /\ G w w' /\ exists K', stable K' /\ K' w' /\ Safe (k x) K' Q
  end.

Lemma Safe_weaken {A} (t : Task A) (K K' : W -> Prop) (Q Q' : A -> W -> Prop) :
  Safe t K Q -> (forall w, I w -> K' w -> K w) -> (forall a w, I w -> Q a w -> Q' a w) -> Safe t K' Q'.
Proof.
  revert K K'. induction t as [a|X act k IH]; intros K K' Ht HK HQ; simpl in *; [eauto|].
  intros w x w' HI HK' Hact. destruct (Ht w x w' HI (HK _ HI HK') Hact) as (HI' & HG & K2 & Hst & HK2 & Hk).
  split_and!; [done|done|]. exists K2. split_and!; [done|done|]. eapply IH; eauto.
Qed.

Lemma Safe_tbind {A B} (t : Task A) (f : A -> Task B) K (P : A -> W -> Prop) Q :
  Safe t K P -> (forall a, Safe (f a) (P a) Q) -> Safe (tbind t f) K Q.
Proof.
  revert K. induction t as [a|X act k IH]; intros K Ht Hf; simpl in *.
  - eapply Safe_weaken; [apply Hf|exact Ht|done].
  - intros w x w' HI HK Hact. destruct (Ht w x w' HI HK Hact) as (HI' & HG & K2 & Hst & HK2 & Hk).
    split_and!; [done|done|]. exists K2. split_and!; [done|done|]. by apply IH.
Qed.

(** A fact that does not mention the world can be assumed. *)
Lemma Safe_pure {A} (t : Task A) (P : Prop) (K : W -> Prop) Q :
  (P -> Safe t K Q) -> Safe t (fun w => K w /\ P) Q.
Proof.
  intros Ht. destruct t as [a|X act k].
  - intros w HI [HK HP]. by apply (Ht HP).
  - intros w x w' HI [HK HP] Hact. by apply (Ht HP w x w').
Qed.

Lemma Safe_pure_l {A} (t : Task A) (P : Prop) (K : W -> Prop) Q :
  (P -> Safe t K Q) -> Safe t (fun w => P /\ K w) Q.
Proof.
  intros Ht. eapply Safe_weaken; [by apply Safe_pure, Ht| |auto]. by intros w _ [??].
Qed.

(** Facts from before the task that stay true can be kept. *)
Lemma Safe_frame {A} (t : Task A) K Q (F : W -> Prop) :
  stable F -> Safe t K Q -> Safe t (fun w => K w /\ F w) (fun a w => Q a w /\ F w).
Proof.
  intros HF. revert K. induction t as [a|X act k IH]; intros K Ht; simpl in *; [naive_solver|].
  intros w x w' HI [HK HFw] Hact. destruct (Ht w x w' HI HK Hact) as (HI' & HG & K2 & Hst & HK2 & Hk).
  split_and!; [done|done|]. exists (fun w => K2 w /\ F w). split_and!.
  - intros w1 w2 H1 H2 H12 [HKa HFa]. split; [by apply (Hst w1 w2)|by apply (HF w1 w2)].
  - done.
  - by apply (HF w w').
  - by apply IH.
Qed.

Context {Call Reply : Type} (task_of : Call -> Task Reply) (Allowed : Call -> Prop).
Context (Post : Call -> Reply -> Prop).

Definition task_ok (w : W) (ct : Call * Task Reply) : Prop :=
  exists K, stable K /\ K w /\ Safe ct.2 K (fun r _ => Post ct.1 r).

Definition sys_ok (s : Sys (Call:=Call) (Reply:=Reply)) : Prop :=
  I (sys_world s) /\ Forall (task_ok (sys_world s)) (sys_tasks s) /\
  Forall (fun cr => Post cr.1 cr.2) (sys_replies s).

Lemma tasks_ok_step w w' ts : I w -> I w' -> G w w' -> Forall (task_ok w) ts -> Forall (task_ok w') ts.
Proof.
  intros HI HI' HG Hts. eapply Forall_impl; [exact Hts|]. intros [c t] (K & Hst & HK & Hs). exists K. split_and!; try done.
  by apply (Hst w w').
Qed.

Lemma sys_ok_step s s' :
  (forall c, Allowed c -> Safe (task_of c) (fun _ => True) (fun r _ => Post c r)) ->
  sys_ok s -> sys_step task_of Allowed s s' -> sys_ok s'.
Proof.
  intros Hcalls (HI & Hts & Hrs) Hstep. destruct Hstep as [w ts rs c Hc|w ts1 ts2 rs c X act k x w' Hact|w ts1 ts2 rs c r];
    unfold sys_ok in *; simpl in *.
  - split_and!; [done| |done]. apply Forall_app. split; [done|]. constructor; [|done].
    exists (fun _ => True). split_and!; [done|done|by apply Hcalls].
  - rewrite Forall_app, Forall_cons in Hts. destruct Hts as (H1 & (K & Hst & HK & Hs) & H2).
    destruct (Hs w x w' HI HK Hact) as (HI' & HG & K2 & Hst2 & HK2 & Hk).
    split_and!; [done| |done]. rewrite Forall_app, Forall_cons. split_and!.
    + by apply (tasks_ok_step w w').
    + by exists K2.
    + by apply (tasks_ok_step w w').
  - rewrite Forall_app, Forall_cons in Hts. destruct Hts as (H1 & (K & Hst & HK & Hs) & H2).
    split_and!; [done|by apply Forall_app|]. apply Forall_app. split; [done|]. constructor; [|done].
    simpl in *. by apply (Hs w).
Qed.

(** Every reachable world satisfies the invariant and every reply its
    postcondition, whatever the interleaving. *)
Lemma sys_safe w s :
  (forall c, Allowed c -> Safe (task_of c) (fun _ => True) (fun r _ => Post c r)) ->
  I w -> rtc (sys_step task_of Allowed) (started w) s -> sys_ok s.
Proof.
  intros Hcalls HI Hrtc. assert (H0 : sys_ok (started w)) by (split_and!; [done|constructor|constructor]).
  clear HI. induction Hrtc as [|s s' s'' Hst Hrtc IH]; [done|]. apply IH. by eapply sys_ok_step.
Qed.

Lemma sys_ok_guarantee s s' :
  sys_ok s -> sys_step task_of Allowed s s' -> sys_world s = sys_world s' \/ G (sys_world s) (sys_world s').
Proof.
  intros (HI & Hts & _) Hstep. destruct Hstep as [w ts rs c Hc|w ts1 ts2 rs c X act k x w' Hact|w ts1 ts2 rs c r];
    simpl in *; [by left| |by left]. right.
  rewrite Forall_app, Forall_cons in Hts. destruct Hts as (_ & (K & Hst & HK & Hs) & _).
  by apply (Hs w x w' HI HK Hact).
Qed.

(** From a reachable state on, the world only changes as the guarantee allows. *)
Lemma sys_guarantee s s' :
  (forall c, Allowed c -> Safe (task_of c) (fun _ => True) (fun r _ => Post c r)) ->
  sys_ok s -> rtc (sys_step task_of Allowed) s s' -> rtc G (sys_world s) (sys_world s').
Proof.
  intros Hcalls Hok Hrtc. induction Hrtc as [|s1 s2 s3 Hst _ IH]; [apply rtc_refl|].
  pose proof (sys_ok_step s1 s2 Hcalls Hok Hst) as Hok2.
  destruct (sys_ok_guarantee s1 s2 Hok Hst) as [->|HG]; [by apply IH|]. eapply rtc_l; [exact HG|by apply IH].
Qed.

(** A task that runs alone is one of the interleavings. *)
Lemma Safe_run {A} (t : Task A) K Q w a w' :
  Safe t K Q -> I w -> K w -> run t w = Some (a, w') -> I w' /\ rtc G w w' /\ Q a w'.
Proof.
  revert K w. induction t as [b|X act k IH]; intros K w Hs HI HK Hr; simpl in *.
  - simplify_eq. split_and!; [done|apply rtc_refl|by apply Hs].
  - destruct (act w) as [[x w1]|] eqn:Hact; [|done].
    destruct (Hs w x w1 HI HK Hact) as (HI' & HG & K2 & Hst & HK2 & Hk).
    destruct (IH x K2 w1 Hk HI' HK2 Hr) as (? & ? & ?). split_and!; [done| |done].
    by eapply rtc_l.
Qed.
End safety.
End tasks.

Arguments Safe : simpl never.
Arguments Task W A : clear implicits.
Arguments Ret {W A} a.
Arguments Act {W A X} act k.

Declare Scope task_scope.
Delimit Scope task_scope with task.
Open Scope task_scope.

Notation "'let+' x ':=' m 'in' k" := (tbind m (fun x => k))
  (at level 10, x pattern, m at level 100, k at level 200) : task_scope.

(** ** Schedules

    A schedule says which request arrives or which task acts next.  Running one
    is executable, and what it reaches is reachable. *)

Section schedules.
Context {W Call Reply : Type} (task_of : Call -> Task W Reply) (Allowed : Call -> Prop).
Implicit Types s : Sys (W:=W) (Call:=Call) (Reply:=Reply).

Inductive Move : Type :=
| Arrive (c : Call)
| Proceed (i : nat).

Definition move (m : Move) s : option Sys :=
  match m with
  | Arrive c => Some (mkSys (sys_world s) (sys_tasks s ++ [(c, task_of c)]) (sys_replies s))
  | Proceed i =>
      match sys_tasks s !! i with
      | None => None
      | Some (c, Ret r) => Some (mkSys (sys_world s) (delete i (sys_tasks s)) (sys_replies s ++ [(c, r)]))
      | Some (c, Act act k) =>
          match act (sys_world s) with
          | Some (x, w') => Some (mkSys w' (<[i := (c, k x)]> (sys_tasks s)) (sys_replies s))
          | None => None
          end
      end
  end.

Fixpoint schedule (ms : list Move) s : option Sys :=
  match ms with
  | [] => Some s
  | m :: ms' => match move m s with Some s' => schedule ms' s' | None => None end
  end.

Definition move_allowed (m : Move) : Prop := match m with Arrive c => Allowed c | Proceed _ => True end.

Lemma move_sound m s s' : move_allowed m -> move m s = Some s' -> sys_step task_of Allowed s s'.
Proof.
  destruct s as [w ts rs]. destruct m as [c|i]; simpl; [intros Hc [= <-]; by constructor|]. intros _.
  destruct (ts !! i) as [[c t]|] eqn:E; [|done]. pose proof (lookup_lt_Some _ _ _ E) as Hlt.
  pose proof (take_drop_middle ts i (c, t) E) as Hts. destruct t as [r|X act k].
  - intros [= <-]. rewrite delete_take_drop, <- Hts at 1. constructor.
  - destruct (act w) as [[x w']|] eqn:Ea; [|done]. intros [= <-]. rewrite insert_take_drop, <- Hts at 1 by done.
    by constructor.
Qed.

Lemma schedule_sound ms s s' :
  Forall move_allowed ms -> schedule ms s = Some s' -> rtc (sys_step task_of Allowed) s s'.
Proof.
  intros Hall. revert s. induction Hall as [|m ms Hm _ IH]; intros s; simpl; [intros [= <-]; apply rtc_refl|].
  destruct (move m s) as [s1|] eqn:E; [|done]. intros Hs. eapply rtc_l; [by eapply move_sound|by apply IH].
Qed.
End schedules.

Arguments Arrive {Call} c.
Arguments Proceed {Call} i.

(** ** Named locks

    [async_named_locker::Locker::get_locker]: at most one holder per name, and
    names do not interfere. *)

Class NamedLocker : Type := {
  LockState : Type;
  no_locks : LockState;
  lock_held : string -> LockState -> bool;
  lock_name : string -> LockState -> LockState;
  unlock_name : string -> LockState -> LockState
}.

Class NamedLockerLaws `{NamedLocker} : Prop := {
  no_locks_held n : lock_held n no_locks = false;
  lock_name_held n m s : lock_held n (lock_name m s) = (String.eqb n m || lock_held n s);
  unlock_name_held n m s :
    lock_held n (unlock_name m s) = (negb (String.eqb n m) && lock_held n s)
}.

(** ** Rules for single actions *)

Section rules.
Context {W : Type} (I : W -> Prop) (G : relation W).

Lemma Safe_atomic {A} (f : W -> A * W) K (Q : A -> W -> Prop) :
  (forall w, I w -> K w -> I (f w).2 /\ G w (f w).2 /\
     exists K', stable I G K' /\ K' (f w).2 /\ forall w2, I w2 -> K' w2 -> Q (f w).1 w2) ->
  Safe I G (atomic f) K Q.
Proof. intros Hf. intros w x w' HI HK [= Heq]. specialize (Hf w HI HK). by rewrite Heq in Hf. Qed.

(** A reading action: what it saw must not depend on the moment. *)
Lemma Safe_read {A} (f : W -> A) K (Q : A -> W -> Prop) :
  (forall w, I w -> G w w) ->
  (forall w, I w -> K w -> exists K', stable I G K' /\ K' w /\ forall w2, I w2 -> K' w2 -> Q (f w) w2) ->
  Safe I G (atomic (fun w => (f w, w))) K Q.
Proof. intros HG Hf. apply Safe_atomic. intros w HI HK. simpl. split_and!; [done|by apply HG|by apply Hf]. Qed.
End rules.

(** * Tasks with an environment

    One task at a time on a part of the world, while others change the rest of
    it: [among R t w a w'] runs [t] to its end with steps of [R] between its
    actions.  [Keeps] is the proof rule: every action keeps the invariant, given
    facts that are stable under the steps of the environment. *)

Section rely.
Context {W : Type} (I : W -> Prop) (R : relation W).

Inductive among {A : Type} : Task W A -> W -> A -> W -> Prop :=
| among_ret a w : among (Ret a) w a w
| among_act X (act : W -> option (X * W)) k w x w1 a w' :
    act w = Some (x, w1) -> among (k x) w1 a w' -> among (Act act k) w a w'
| among_env t w w1 a w' : R w w1 -> among t w1 a w' -> among t w a w'.

Definition stable_under (K : W -> Prop) : Prop := forall w w', I w -> R w w' -> K w -> K w'.

Fixpoint Keeps {A} (t : Task W A) (K : W -> Prop) (Q : A -> W -> Prop) : Prop :=
  match t with
  | Ret a => forall w, I w -> K w -> Q a w
  | Act act k =>
      forall w x w', I w -> K w -> act w = Some (x, w') ->
      I w' /\ exists K', stable_under K' /\ K' w' /\ Keeps (k x) K' Q
  end.

Lemma Keeps_weaken {A} (t : Task W A) (K K' : W -> Prop) (Q Q' : A -> W -> Prop) :
  Keeps t K Q -> (forall w, I w -> K' w -> K w) -> (forall a w, I w -> Q a w -> Q' a w) -> Keeps t K' Q'.
Proof.
  revert K K'. induction t as [a|X act k IH]; intros K K' Ht HK HQ; simpl in *; [eauto|].
  intros w x w' HI HK' Hact. destruct (Ht w x w' HI (HK _ HI HK') Hact) as (HI' & K2 & Hst & HK2 & Hk).
  split; [done|]. exists K2. split_and!; [done|done|]. eapply IH; eauto.
Qed.

Lemma Keeps_pre {A} (t : Task W A) (K K' : W -> Prop) Q :
  Keeps t K Q -> (forall w, I w -> K' w -> K w) -> Keeps t K' Q.
Proof. intros Ht HK. by eapply Keeps_weaken. Qed.

Lemma Keeps_tbind {A B} (t : Task W A) (f : A -> Task W B) K (P : A -> W -> Prop) Q :
  Keeps t K P -> (forall a, Keeps (f a) (P a) Q) -> Keeps (tbind t f) K Q.
Proof.
  revert K. induction t as [a|X act k IH]; intros K Ht Hf; simpl in *.
  - eapply Keeps_weaken; [apply Hf|exact Ht|done].
  - intros w x w' HI HK Hact. destruct (Ht w x w' HI HK Hact) as (HI' & K2 & Hst & HK2 & Hk).
    split; [done|]. exists K2. split_and!; [done|done|]. by apply IH.
Qed.

Lemma Keeps_pure {A} (t : Task W A) (P : Prop) (K : W -> Prop) Q :
  (P -> Keeps t K Q) -> Keeps t (fun w => P /\ K w) Q.
Proof.
  intros Ht. destruct t as [a|X act k].
  - intros w HI [HP HK]. by apply (Ht HP).
  - intros w x w' HI [HP HK] Hact. by apply (Ht HP w x w').
Qed.

(** What the invariant and the assumptions imply can be assumed as well. *)
Lemma Keeps_assume {A} (t : Task W A) (P : Prop) (K : W -> Prop) Q :
  (forall w, I w -> K w -> P) -> (P -> Keeps t K Q) -> Keeps t K Q.
Proof.
  intros HP Ht. eapply Keeps_weaken; [by apply Keeps_pure, Ht| |done]. intros w HI HK. split; [by apply (HP w)|done].
Qed.

Lemma Keeps_atomic {A} (f : W -> A * W) K (Q : A -> W -> Prop) :
  (forall w, I w -> K w -> I (f w).2 /\ Q (f w).1 (f w).2) ->
  (forall a, stable_under (Q a)) -> Keeps (atomic f) K Q.
Proof.
  intros Hf Hst w x w' HI HK [= Hact]. destruct (Hf w HI HK) as [HI' HQ]. rewrite Hact in HI', HQ. simpl in *.
  split; [done|]. exists (Q x). split_and!; [apply Hst|done|by intros].
Qed.

Context (HRI : forall w w', I w -> R w w' -> I w').

Lemma Keeps_among {A} (t : Task W A) K Q w a w' :
  Keeps t K Q -> stable_under K -> I w -> K w -> among t w a w' -> I w' /\ exists w1, rtc R w1 w' /\ I w1 /\ Q a w1.
Proof.
  intros Ht Hst HI HK Hrun. revert K Ht Hst HI HK.
  induction Hrun as [a w|X act k w x w1 a w' Hact Hrun IH|t w w1 a w' HR Hrun IH]; intros K Ht Hst HI HK.
  - split; [done|]. exists w. split_and!; [done|done|]. by apply Ht.
  - destruct (Ht w x w1 HI HK Hact) as (HI1 & K' & Hst' & HK' & Hk). by apply (IH K').
  - apply (IH K); [done|done|by apply (HRI w)|by apply (Hst w)].
Qed.

(** A task without an environment is one with an idle environment. *)
Lemma among_run {A} (t : Task W A) w a w' : run t w = Some (a, w') -> among t w a w'.
Proof.
  revert w. induction t as [b|X act k IH]; intros w Hr; simpl in Hr; [by simplify_eq; constructor|].
  destruct (act w) as [[x w1]|] eqn:E; [|done]. by econstructor; [|apply IH].
Qed.

Lemma Keeps_run {A} (t : Task W A) K Q w a w' :
  Keeps t K Q -> I w -> K w -> run t w = Some (a, w') -> I w' /\ Q a w'.
Proof.
  revert K w. induction t as [b|X act k IH]; intros K w Ht HI HK Hr; simpl in *.
  - simplify_eq. auto.
  - destruct (act w) as [[x w1]|] eqn:E; [|done]. destruct (Ht w x w1 HI HK E) as (HI1 & K' & _ & HK' & Hk).
    by apply (IH x K' w1).
Qed.
End rely.

Arguments among {W} R {A}.

(** ** Tasks that only observe

    Every action of the task goes through and leaves the world as it was, up to
    [S]. *)
Section observe.
Context {W : Type} (S : relation W).

Fixpoint Observes {A} (t : Task W A) : Prop :=
  match t with
  | Ret _ => True
  | Act act k => (forall w, exists x w', act w = Some (x, w') /\ S w w') /\ forall x, Observes (k x)
  end.

Lemma observes_tbind {A B} (t : Task W A) (f : A -> Task W B) :
  Observes t -> (forall a, Observes (f a)) -> Observes (tbind t f).
Proof. induction t as [a|X act k IH]; simpl; [auto|]. intros [Ha Hk] Hf. split; [done|]. intros x. by apply IH. Qed.

Lemma observes_atomic {A} (f : W -> A * W) : (forall w, S w (f w).2) -> Observes (atomic f).
Proof. intros Hf. split; [|done]. intros w. exists (f w).1, (f w).2. specialize (Hf w). by destruct (f w). Qed.

Lemma observes_run `{!PreOrder S} {A} (t : Task W A) w : Observes t -> exists a w', run t w = Some (a, w') /\ S w w'.
Proof.
  revert w. induction t as [a|X act k IH]; intros w Ht; simpl; [by exists a, w|].
  destruct Ht as [Ha Hk]. destruct (Ha w) as (x & w1 & -> & H1). destruct (IH x w1 (Hk x)) as (a & w' & Hr & Hw').
  exists a, w'. split; [done|by etrans].
Qed.

Lemma observes_run_same `{!PreOrder S} {A} (t : Task W A) w a w' :
  Observes t -> run t w = Some (a, w') -> S w w'.
Proof. intros Ht Hr. destruct (observes_run t w Ht) as (a' & w1 & Hr' & HS). by simplify_eq. Qed.

Lemma Keeps_observes (I : W -> Prop) (R : relation W) {A} (t : Task W A) (K : W -> Prop) :
  Observes t -> (forall w w', I w -> S w w' -> I w') -> (forall w w', I w -> S w w' -> K w -> K w') ->
  stable_under I R K -> Keeps I R t K (fun _ => K).
Proof.
  intros Ht HI HK Hst. induction t as [a|X act k IH]; [by intros w|].
  intros w x w' Hw HKw Hact. destruct Ht as [Ha Hk]. destruct (Ha w) as (x' & w1 & Hact' & HS). simplify_eq.
  split; [by apply (HI w)|]. exists K. split_and!; [done|by apply (HK w)|by apply IH].
Qed.

(** Every action that goes through leaves the world as it was, up to [S]. *)
Fixpoint Within {A} (t : Task W A) : Prop :=
  match t with
  | Ret _ => True
  | Act act k => (forall w x w', act w = Some (x, w') -> S w w') /\ forall x, Within (k x)
  end.

Lemma within_tbind {A B} (t : Task W A) (f : A -> Task W B) :
  Within t -> (forall a, Within (f a)) -> Within (tbind t f).
Proof. induction t as [a|X act k IH]; simpl; [auto|]. intros [Ha Hk] Hf. split; [done|]. intros x. by apply IH. Qed.

Lemma within_atomic {A} (f : W -> A * W) : (forall w, S w (f w).2) -> Within (atomic f).
Proof. intros Hf. split; [|done]. intros w x w' [= Hfw]. specialize (Hf w). by rewrite Hfw in Hf. Qed.
End observe.

Lemma observes_mono {W A} (S S' : relation W) (t : Task W A) :
  (forall w w', S w w' -> S' w w') -> Observes S t -> Observes S' t.
Proof.
  intros HS. induction t as [a|X act k IH]; simpl; [done|]. intros [Ha Hk]. split; [|intros x; by apply IH].
  intros w. destruct (Ha w) as (x & w' & E & Hw). exists x, w'. split; [done|by apply HS].
Qed.

Lemma observes_within {W A} (S S' : relation W) (t : Task W A) :
  (forall w w', S w w' -> S' w w') -> Observes S t -> Within S' t.
Proof.
  intros HS. induction t as [a|X act k IH]; simpl; [done|]. intros [Ha Hk]. split; [|intros x; by apply IH].
  intros w x w' Hact. destruct (Ha w) as (x' & w1 & E & Hw). simplify_eq. by apply HS.
Qed.

(** ** Results

    Every result of the task satisfies [P], whatever its actions return. *)
Section returns.
Context {W : Type}.

Fixpoint Returns {A} (t : Task W A) (P : A -> Prop) : Prop :=
  match t with
  | Ret a => P a
  | Act act k => forall x, Returns (k x) P
  end.

Lemma returns_tbind {A B} (t : Task W A) (f : A -> Task W B) (P : A -> Prop) Q :
  Returns t P -> (forall a, P a -> Returns (f a) Q) -> Returns (tbind t f) Q.
Proof. induction t as [a|X act k IH]; simpl; [auto|]. intros Ht Hf x. by apply IH. Qed.

Lemma returns_mono {A} (t : Task W A) (P Q : A -> Prop) : Returns t P -> (forall a, P a -> Q a) -> Returns t Q.
Proof. induction t as [a|X act k IH]; simpl; [auto|]. intros Ht HPQ x. by apply IH. Qed.

Lemma returns_true {A} (t : Task W A) : Returns t (fun _ => True).
Proof. by induction t as [a|X act k IH]. Qed.

Lemma returns_run {A} (t : Task W A) P w a w' : Returns t P -> run t w = Some (a, w') -> P a.
Proof.
  revert w. induction t as [b|X act k IH]; simpl; intros w Ht Hr; [by simplify_eq|].
  destruct (act w) as [[x w1]|]; [|done]. by apply (IH x w1).
Qed.

Lemma Keeps_returns (I : W -> Prop) (R : relation W) {A} (t : Task W A) K Q (P : A -> Prop) :
  Keeps I R t K Q -> Returns t P -> Keeps I R t K (fun a w => Q a w /\ P a).
Proof.
  revert K. induction t as [a|X act k IH]; intros K Ht HP; simpl in *; [auto|].
  intros w x w' HI HK Hact. destruct (Ht w x w' HI HK Hact) as (HI' & K' & Hst & HK' & Hk).
  split; [done|]. exists K'. split_and!; [done|done|]. by apply IH.
Qed.
End returns.
