(* ===== verification/Locks.v ===== *)
(** * Locks and liveness

    Tasks that take named locks in the order of a level and give them back in
    the reverse order never block each other for good: while a request is
    unanswered, some task can act.  Tasks are finite, so without new requests
    every run ends, and it ends with every request answered. *)

From S2P Require Import Prelude Tasks.

(** ** Steps of the tasks that are there *)

Section runs.
Context {W Call Reply : Type} (task_of : Call -> Task W Reply).
Implicit Types s : Sys (W:=W) (Call:=Call) (Reply:=Reply).

(** A task acts or ends; no request arrives. *)
Definition proceeds s s' : Prop := exists i, move task_of (Proceed i) s = Some s'.

(** ** Every run ends *)

(** What is left of a task after an action. *)
Definition continues (t' t : Task W Reply) : Prop :=
  match t with Ret _ => False | Act act k => exists x, t' = k x end.

Lemma continues_wf : well_founded continues.
Proof. intros t. induction t as [a|X act k IH]; constructor; [done|]. intros t' (x & ->). apply IH. Qed.

(** One task of a list continues. *)
Definition one_continues (ts' ts : list (Call * Task W Reply)) : Prop :=
  exists i c t t', ts !! i = Some (c, t) /\ continues t' t /\ ts' = <[i := (c, t')]> ts.

Lemma one_continues_acc ts : Acc one_continues ts.
Proof.
  induction ts as [|[c t] ts IH].
  { constructor. intros ts' (i & c & t & t' & Hi & _). done. }
  revert ts IH. induction t as [t IHt] using (well_founded_induction continues_wf). intros ts Hts.
  induction Hts as [ts Hacc IHts]. constructor.
  intros ts' (i & c' & t1 & t2 & Hi & Hc & ->). destruct i as [|i]; simpl in *.
  - simplify_eq. apply IHt; [done|]. by constructor.
  - apply IHts. by exists i, c', t1, t2.
Qed.

Lemma proceeds_cases s s' :
  proceeds s s' ->
  (length (sys_tasks s') < length (sys_tasks s))%nat \/
  (length (sys_tasks s') = length (sys_tasks s) /\ one_continues (sys_tasks s') (sys_tasks s)).
Proof.
  intros [i Hi]. unfold move in Hi. destruct (sys_tasks s !! i) as [[c t]|] eqn:E; [|done].
  destruct t as [r|X act k].
  - simplify_eq/=. left. rewrite length_delete by eauto. apply lookup_lt_Some in E. lia.
  - destruct (act (sys_world s)) as [[x w']|]; simplify_eq/=. right. rewrite length_insert. split; [done|].
    exists i, c, (Act act k), (k x). split_and!; [done|by exists x|done].
Qed.

(** Without new requests there is no infinite run. *)
Lemma runs_end s : Acc (flip proceeds) s.
Proof.
  remember (length (sys_tasks s)) as n eqn:Hn. revert s Hn.
  induction n as [n IH] using (well_founded_induction lt_wf). intros s Hn.
  remember (sys_tasks s) as ts eqn:Hts. revert s Hn Hts.
  induction (one_continues_acc ts) as [ts _ IHts]. intros s Hn ->. constructor. intros s' Hs'.
  destruct (proceeds_cases s s' Hs') as [Hlt|[Heq Hone]]; [by eapply IH; [|done]; lia|].
  apply (IHts (sys_tasks s')); [done|congruence|done].
Qed.
End runs.

(** ** The discipline *)

Section discipline.
Context `{NamedLocker, !NamedLockerLaws}.
Context {W : Type} (locks : W -> LockState) (level : string -> nat).

(** An action that takes a lock, one that gives it back, and any other. *)
Definition acquires {X} (n : string) (act : W -> option (X * W)) : Prop :=
  forall w, match act w with
            | Some (_, w') => lock_held n (locks w) = false /\ locks w' = lock_name n (locks w)
            | None => lock_held n (locks w) = true
            end.
Definition releases {X} (n : string) (act : W -> option (X * W)) : Prop :=
  forall w, match act w with Some (_, w') => locks w' = unlock_name n (locks w) | None => False end.
Definition elsewhere {X} (act : W -> option (X * W)) : Prop :=
  forall w, match act w with Some (_, w') => locks w' = locks w | None => False end.

(** [Disc t L L' Q]: [t] holds the locks [L], takes each lock above all it holds,
    gives the last one back first, and ends with [L'] and a result in [Q]. *)
Fixpoint Disc {A} (t : Task W A) (L L' : list string) (Q : A -> Prop) : Prop :=
  match t with
  | Ret a => L = L' /\ Q a
  | Act act k =>
      (exists n, acquires n act /\ Forall (fun m => level m < level n)%nat L /\
         forall w x w', act w = Some (x, w') -> Disc (k x) (n :: L) L' Q) \/
      (exists n L1, L = n :: L1 /\ releases n act /\ forall w x w', act w = Some (x, w') -> Disc (k x) L1 L' Q) \/
      (elsewhere act /\ forall w x w', act w = Some (x, w') -> Disc (k x) L L' Q)
  end.

Lemma disc_tbind {A B} (t : Task W A) (f : A -> Task W B) L L1 L2 P Q :
  Disc t L L1 P -> (forall a, P a -> Disc (f a) L1 L2 Q) -> Disc (tbind t f) L L2 Q.
Proof.
  intros Ht Hf. revert L Ht. induction t as [a|X act k IH]; intros L Ht; simpl in *.
  { destruct Ht as [-> HP]. by apply Hf. }
  destruct Ht as [(n & Ha & HL & Hk)|[(n & L0 & -> & Hr & Hk)|[He Hk]]].
  - left. exists n. split_and!; [done|done|]. intros w x w' Hact. eapply IH, Hk, Hact.
  - right; left. exists n, L0. split_and!; [done|done|]. intros w x w' Hact. eapply IH, Hk, Hact.
  - right; right. split; [done|]. intros w x w' Hact. eapply IH, Hk, Hact.
Qed.

Lemma disc_atomic {A} (f : W -> A * W) L (Q : A -> Prop) :
  (forall w, locks (f w).2 = locks w /\ Q (f w).1) -> Disc (atomic f) L L Q.
Proof.
  intros Hf. right; right. split.
  - intros w. destruct (f w) as [a w'] eqn:E. specialize (Hf w). rewrite E in Hf. apply Hf.
  - intros w x w' [= Hact]. specialize (Hf w). rewrite Hact in Hf. by destruct Hf.
Qed.

(** ** No deadlock *)

Section system.
Context {Call Reply : Type} (task_of : Call -> Task W Reply) (Allowed : Call -> Prop).
Hypothesis Hdisc : forall c, Allowed c -> Disc (task_of c) [] [] (fun _ => True).
Implicit Types s : Sys (W:=W) (Call:=Call) (Reply:=Reply).

(** Each task holds its own locks, and no other lock is held. *)
Definition locks_ok s : Prop :=
  exists Ls, Forall2 (fun (ct : Call * Task W Reply) L => Disc ct.2 L [] (fun _ => True)) (sys_tasks s) Ls /\
    NoDup (concat Ls) /\ forall n, lock_held n (locks (sys_world s)) = true <-> n ∈ concat Ls.

Lemma locks_ok_started w : (forall n, lock_held n (locks w) = false) -> locks_ok (started w).
Proof.
  intros Hno. exists []. split_and!; [constructor|constructor|]. intros n. simpl. rewrite Hno. split; [done|].
  by intros Hn%elem_of_nil.
Qed.

Lemma concat_middle (L1 L2 : list (list string)) L : concat (L1 ++ L :: L2) ≡ₚ L ++ concat (L1 ++ L2).
Proof. rewrite !concat_app. simpl. apply Permutation_app_swap_app. Qed.

Lemma locks_ok_act w w' ts1 ts2 rs c X (act : W -> option (X * W)) k x :
  locks_ok (mkSys w (ts1 ++ (c, Act act k) :: ts2) rs) -> act w = Some (x, w') ->
  locks_ok (mkSys w' (ts1 ++ (c, k x) :: ts2) rs).
Proof.
  intros (Ls & Hts & Hnd & Hheld) Hact. simpl in *.
  apply Forall2_app_inv_l in Hts as (L1 & L2' & H1 & H2 & ->). apply Forall2_cons_inv_l in H2 as (L & L2 & Ht & H2 & ->).
  rewrite concat_middle in Hnd. setoid_rewrite concat_middle in Hheld.
  assert (Hnew : forall L', Disc (k x) L' [] (fun _ => True) -> NoDup (L' ++ concat (L1 ++ L2)) ->
    (forall n, lock_held n (locks w') = true <-> n ∈ L' ++ concat (L1 ++ L2)) ->
    locks_ok (mkSys w' (ts1 ++ (c, k x) :: ts2) rs)).
  { intros L' Hk Hnd' Hheld'. exists (L1 ++ L' :: L2). split_and!.
    - apply Forall2_app; [done|by constructor].
    - by rewrite concat_middle.
    - intros n. simpl. by rewrite concat_middle. }
  destruct Ht as [(n & Ha & HL & Hk)|[(n & L0 & -> & Hr & Hk)|[He Hk]]].
  - specialize (Ha w). rewrite Hact in Ha. destruct Ha as [Hfree Hl]. apply (Hnew (n :: L)); [by eapply Hk| |].
    + apply NoDup_cons. split; [|done]. intros Hin%Hheld. congruence.
    + intros m. rewrite Hl, lock_name_held, orb_true_iff, String.eqb_eq, Hheld. simpl. by rewrite elem_of_cons.
  - specialize (Hr w). rewrite Hact in Hr. simpl in Hnd. apply NoDup_cons in Hnd as [Hn Hnd].
    apply (Hnew L0); [by eapply Hk|done|].
    intros m. rewrite Hr, unlock_name_held, andb_true_iff, negb_true_iff, String.eqb_neq, Hheld. simpl.
    rewrite elem_of_cons. naive_solver.
  - specialize (He w). rewrite Hact in He. apply (Hnew L); [by eapply Hk|done|]. intros m. by rewrite He, Hheld.
Qed.

Lemma locks_ok_step s s' : sys_step task_of Allowed s s' -> locks_ok s -> locks_ok s'.
Proof.
  intros Hstep Hok. destruct Hstep as [w ts rs c Hc|w ts1 ts2 rs c X act k x w' Hact|w ts1 ts2 rs c r].
  - destruct Hok as (Ls & Hts & Hnd & Hheld). simpl in *. exists (Ls ++ [[]]).
    rewrite concat_app. simpl. rewrite app_nil_r. split_and!; [|done|done].
    apply Forall2_app; [done|]. constructor; [by apply Hdisc|constructor].
  - by eapply locks_ok_act.
  - destruct Hok as (Ls & Hts & Hnd & Hheld). simpl in *.
    apply Forall2_app_inv_l in Hts as (L1 & L2' & H1 & H2 & ->). apply Forall2_cons_inv_l in H2 as (L & L2 & [-> _] & H2 & ->).
    exists (L1 ++ L2). rewrite concat_middle in Hnd. setoid_rewrite concat_middle in Hheld.
    split_and!; [by apply Forall2_app|done|done].
Qed.

(** ** Progress *)

(** A task that waits for a lock. *)
Definition waits (w : W) (t : Task W Reply) : Prop :=
  match t with Ret _ => False | Act act k => act w = None end.

#[local] Instance waits_dec w t : Decision (waits w t).
Proof. destruct t as [r|X act k]; simpl; [right; tauto|]. destruct (act w); [by right|by left]. Qed.

Lemma waits_for w t L :
  Disc t L [] (fun _ => True) -> waits w t ->
  exists n, lock_held n (locks w) = true /\ Forall (fun m => level m < level n)%nat L.
Proof.
  destruct t as [r|X act k]; simpl; [done|]. intros [(n & Ha & HL & _)|[(n & L1 & _ & Hr & _)|[He _]]] Hw.
  - exists n. specialize (Ha w). by rewrite Hw in Ha.
  - specialize (Hr w). by rewrite Hw in Hr.
  - specialize (He w). by rewrite Hw in He.
Qed.

Lemma no_deadlock s : locks_ok s -> sys_tasks s <> [] -> exists s', proceeds task_of s s'.
Proof.
  intros (Ls & Hts & _ & Hheld) Hne.
  destruct (decide (Exists (fun ct => ~ waits (sys_world s) ct.2) (sys_tasks s))) as [Hex|Hno].
  - apply Exists_exists in Hex as ([c t] & Hin & Hw). apply list_elem_of_lookup in Hin as [i Hi].
    destruct t as [r|X act k].
    + exists (mkSys (sys_world s) (delete i (sys_tasks s)) (sys_replies s ++ [(c, r)])), i. simpl. by rewrite Hi.
    + simpl in Hw. destruct (act (sys_world s)) as [[x w']|] eqn:E; [|done].
      exists (mkSys w' (<[i := (c, k x)]> (sys_tasks s)) (sys_replies s)), i. simpl. by rewrite Hi, E.
  - exfalso. apply not_Exists_Forall in Hno; [|intros ct; apply _].
    assert (Hwait : forall L, L ∈ Ls -> exists n, n ∈ concat Ls /\ Forall (fun m => level m < level n)%nat L).
    { intros L [i Hi]%list_elem_of_lookup. destruct (Forall2_lookup_r _ _ _ _ _ Hts Hi) as ([c t] & Ht & Hd).
      apply (Forall_lookup_1 _ _ _ _ Hno) in Ht. destruct (decide (waits (sys_world s) t)) as [Hw|Hw]; [|done].
      destruct (waits_for _ _ _ Hd Hw) as (n & Hn & HL). exists n. by rewrite <- Hheld. }
    assert (Hmax : forall n, n ∈ concat Ls -> (level n <= list_max (level <$> concat Ls))%nat).
    { intros n Hn. pose proof (proj1 (list_max_le (level <$> concat Ls) _) (le_n _)) as Hall.
      rewrite Forall_forall in Hall. apply Hall, list_elem_of_fmap. eauto. }
    assert (Hclimb : forall k n, n ∈ concat Ls -> (list_max (level <$> concat Ls) <= k + level n)%nat -> False).
    { induction k as [|k IH]; intros n Hn Hk;
        (apply list_elem_of_In, in_concat in Hn as (L & HL%list_elem_of_In & HnL%list_elem_of_In);
         destruct (Hwait L HL) as (n' & Hn' & Hlt); rewrite Forall_forall in Hlt; specialize (Hlt n HnL);
         specialize (Hmax n' Hn')); [lia|apply (IH n'); [done|lia]]. }
    destruct (sys_tasks s) as [|ct ts]; [done|]. apply Forall2_cons_inv_l in Hts as (L & Ls' & _ & _ & ->).
    destruct (Hwait L) as (n & Hn & _); [by left|]. apply (Hclimb (list_max (level <$> concat (L :: Ls'))) n Hn). lia.
Qed.

(** From a world without locks: every run without new requests ends, and where
    it ends every request is answered. *)
Lemma all_answered w s :
  (forall n, lock_held n (locks w) = false) -> rtc (sys_step task_of Allowed) (started w) s ->
  Acc (flip (proceeds task_of)) s /\ ((forall s', ~ proceeds task_of s s') -> sys_tasks s = []).
Proof.
  intros Hno Hs. split; [apply runs_end|]. intros Hstuck.
  assert (Hok : locks_ok s).
  { pose proof (locks_ok_started w Hno) as Hinit. clear Hstuck Hno. induction Hs as [|s1 s2 s3 Hst _ IH]; [done|].
    apply IH. by eapply locks_ok_step. }
  destruct (sys_tasks s) as [|ct ts] eqn:E; [done|]. destruct (no_deadlock s Hok) as [s' Hs']; [by rewrite E|].
  by destruct (Hstuck s').
Qed.
End system.
End discipline.
