(* ===== verification/RelayModel.v ===== *)
(** * Service node: errors and the data of the relay manager

    The errors of the service node ([cyfs-sn/src/lib.rs]) and the data of its
    relay manager ([cyfs-sn/src/relay_mgr.rs]): relay nodes, zone assignments,
    requests and admission decisions, with the pure functions on them
    (validation, normalisation of labels, matching rules, the order of load).
    JSON texts and the Unicode tables are classes; a [String] is its UTF-8
    bytes. *)

From S2P Require Import Prelude IpAddr.

(** ** Errors *)

Inductive SnErrorCode : Type :=
| EcFailed | EcInvalidInput | EcNotFound | EcUserNotFound | EcConflict
| EcEmailAlreadyBound | EcStaleReport | EcBlocked | EcDBError | EcRemoteError.

#[export] Instance SnErrorCode_eq_dec : EqDecision SnErrorCode.
Proof. solve_decision. Defined.

(** [SnError] without its source and trace. *)
Record SnError : Type := sn_err { se_code : SnErrorCode; se_msg : string }.

Inductive SnResult (A : Type) : Type :=
| SOk (a : A)
| SErr (e : SnError).
Arguments SOk {A} a.
Arguments SErr {A} e.

Definition sbind {A B} (m : SnResult A) (k : A -> SnResult B) : SnResult B :=
  match m with SOk a => k a | SErr e => SErr e end.

Declare Scope sn_scope.
Delimit Scope sn_scope with sn.
Open Scope sn_scope.

Notation "'let?' x ':=' m 'in' k" := (sbind m (fun x => k))
  (at level 10, x pattern, m at level 100, k at level 200) : sn_scope.

Definition refuse_if (b : bool) (e : SnError) : SnResult unit := if b then SErr e else SOk tt.

(** [Option::ok_or]. *)
Definition some_or {A} (o : option A) (e : SnError) : SnResult A :=
  match o with Some a => SOk a | None => SErr e end.

(** [transpose] of a mapped option, and a fallible [collect]. *)
Definition opt_mapS {A B} (f : A -> SnResult B) (o : option A) : SnResult (option B) :=
  match o with None => SOk None | Some a => let? b := f a in SOk (Some b) end.

Fixpoint mapS {A B} (f : A -> SnResult B) (l : list A) : SnResult (list B) :=
  match l with
  | [] => SOk []
  | a :: l' => let? b := f a in let? bs := mapS f l' in SOk (b :: bs)
  end.

(** The [Debug] form of an error code. *)
Definition code_debug (c : SnErrorCode) : string :=
  match c with
  | EcFailed => "Failed" | EcInvalidInput => "InvalidInput" | EcNotFound => "NotFound"
  | EcUserNotFound => "UserNotFound" | EcConflict => "Conflict"
  | EcEmailAlreadyBound => "EmailAlreadyBound" | EcStaleReport => "StaleReport"
  | EcBlocked => "Blocked" | EcDBError => "DBError" | EcRemoteError => "RemoteError"
  end.

(** ** Enumerations stored as texts *)

(** What [relay_string_enum!] generates. *)
Class StringEnum (A : Type) : Type := {
  variants : list A;
  as_str : A -> string
}.

Class StringEnumLaws (A : Type) `{StringEnum A} : Prop := {
  variants_all (a : A) : a ∈ variants;
  as_str_inj (a b : A) : as_str a = as_str b -> a = b
}.

Definition from_str {A} `{StringEnum A} (value : string) : option A :=
  List.find (fun a => String.eqb (as_str a) value) variants.

Lemma from_as_str {A} `{StringEnumLaws A} (a : A) : from_str (as_str a) = Some a.
Proof.
  unfold from_str. destruct (List.find _ _) as [b|] eqn:E.
  - apply List.find_some in E as [_ E%String.eqb_eq]. f_equal. by apply as_str_inj.
  - pose proof (List.find_none _ _ E a (proj1 (list_elem_of_In _ _) (variants_all a))) as Hn.
    simpl in Hn. by rewrite String.eqb_refl in Hn.
Qed.

Inductive RelayNodeStatus : Type := RnActive | RnDraining | RnDisabled | RnUnhealthy | RnDeleted.
Inductive RelayAssignmentState : Type := RaActive | RaMigrating | RaDraining | RaSuspended.
Inductive RelayAssignmentSource : Type := SrcAuto | SrcAdmin | SrcRecovery | SrcMigration.
Inductive RelayAdmissionDecisionKind : Type := AdAllow | AdReject | AdRedirect.
Inductive RelayAdmissionReason : Type :=
| RrOk | RrWrongRelay | RrDeviceNotFound | RrZoneSuspended | RrTokenInvalid
| RrAssignmentMissing | RrAssignmentMigrating | RrRelayDraining | RrRelayUnavailable
| RrStaleGeneration.

#[export] Instance RelayNodeStatus_eq_dec : EqDecision RelayNodeStatus.
Proof. solve_decision. Defined.
#[export] Instance RelayAssignmentState_eq_dec : EqDecision RelayAssignmentState.
Proof. solve_decision. Defined.
#[export] Instance RelayAssignmentSource_eq_dec : EqDecision RelayAssignmentSource.
Proof. solve_decision. Defined.
#[export] Instance RelayAdmissionDecisionKind_eq_dec : EqDecision RelayAdmissionDecisionKind.
Proof. solve_decision. Defined.
#[export] Instance RelayAdmissionReason_eq_dec : EqDecision RelayAdmissionReason.
Proof. solve_decision. Defined.

#[export] Instance RelayNodeStatus_enum : StringEnum RelayNodeStatus := {|
  variants := [RnActive; RnDraining; RnDisabled; RnUnhealthy; RnDeleted];
  as_str s := match s with
              | RnActive => "active" | RnDraining => "draining" | RnDisabled => "disabled"
              | RnUnhealthy => "unhealthy" | RnDeleted => "deleted" end |}.

#[export] Instance RelayAssignmentState_enum : StringEnum RelayAssignmentState := {|
  variants := [RaActive; RaMigrating; RaDraining; RaSuspended];
  as_str s := match s with
              | RaActive => "active" | RaMigrating => "migrating" | RaDraining => "draining"
              | RaSuspended => "suspended" end |}.

#[export] Instance RelayAssignmentSource_enum : StringEnum RelayAssignmentSource := {|
  variants := [SrcAuto; SrcAdmin; SrcRecovery; SrcMigration];
  as_str s := match s with
              | SrcAuto => "auto" | SrcAdmin => "admin" | SrcRecovery => "recovery"
              | SrcMigration => "migration" end |}.

#[export] Instance RelayAdmissionDecisionKind_enum : StringEnum RelayAdmissionDecisionKind := {|
  variants := [AdAllow; AdReject; AdRedirect];
  as_str s := match s with AdAllow => "allow" | AdReject => "reject" | AdRedirect => "redirect" end |}.

#[export] Instance RelayAdmissionReason_enum : StringEnum RelayAdmissionReason := {|
  variants := [RrOk; RrWrongRelay; RrDeviceNotFound; RrZoneSuspended; RrTokenInvalid;
               RrAssignmentMissing; RrAssignmentMigrating; RrRelayDraining; RrRelayUnavailable;
               RrStaleGeneration];
  as_str s := match s with
              | RrOk => "ok" | RrWrongRelay => "wrong_relay"
              | RrDeviceNotFound => "device_not_found" | RrZoneSuspended => "zone_suspended"
              | RrTokenInvalid => "token_invalid" | RrAssignmentMissing => "assignment_missing"
              | RrAssignmentMigrating => "assignment_migrating"
              | RrRelayDraining => "relay_draining" | RrRelayUnavailable => "relay_unavailable"
              | RrStaleGeneration => "stale_generation" end |}.

Ltac enum_laws :=
  split; [intros []; simpl; rewrite ?elem_of_cons; auto 20
         |intros [] []; simpl; congruence].

#[export] Instance RelayNodeStatus_laws : StringEnumLaws RelayNodeStatus.
Proof. enum_laws. Qed.
#[export] Instance RelayAssignmentState_laws : StringEnumLaws RelayAssignmentState.
Proof. enum_laws. Qed.
#[export] Instance RelayAssignmentSource_laws : StringEnumLaws RelayAssignmentSource.
Proof. enum_laws. Qed.
#[export] Instance RelayAdmissionDecisionKind_laws : StringEnumLaws RelayAdmissionDecisionKind.
Proof. enum_laws. Qed.
#[export] Instance RelayAdmissionReason_laws : StringEnumLaws RelayAdmissionReason.
Proof. enum_laws. Qed.

(** ** Records *)

Record RelayNode : Type := mkRelayNode {
  rn_relay_id : string;
  rn_relay_sn : string;
  rn_ips : IpAddr * IpAddr;
  rn_public_host : string;
  rn_http_endpoint : option string;
  rn_rtcp_endpoint : option string;
  rn_region : option string;
  rn_isp : option string;
  rn_tags : list string;
  rn_capabilities : list string;
  rn_status : RelayNodeStatus;
  rn_capacity_score : Z;
  rn_current_load : Z;
  rn_last_heartbeat_at : option Z;
  rn_drain_until : option Z;
  rn_created_at : Z;
  rn_updated_at : Z
}.

Record RelayNodeRegistration : Type := mkRegistration {
  rg_relay_id : string;
  rg_relay_sn : string;
  rg_ips : IpAddr * IpAddr;
  rg_public_host : string;
  rg_http_endpoint : option string;
  rg_rtcp_endpoint : option string;
  rg_region : option string;
  rg_isp : option string;
  rg_tags : list string;
  rg_capabilities : list string;
  rg_status : option RelayNodeStatus;
  rg_capacity_score : option Z
}.

Record RelayHeartbeat : Type := mkHeartbeat {
  hb_relay_id : string;
  hb_status : option RelayNodeStatus;
  hb_current_load : option Z;
  hb_capacity_score : option Z;
  hb_drain_until : option Z;
  hb_http_endpoint : option string;
  hb_rtcp_endpoint : option string
}.

Record RelayNodeHealth : Type := mkHealth {
  rh_relay_id : string;
  rh_status : RelayNodeStatus;
  rh_capacity_score : Z;
  rh_current_load : Z;
  rh_last_heartbeat_at : Z;
  rh_drain_until : option Z;
  rh_updated_at : Z
}.

Record RelayNodeAddressUpdate : Type := mkAddressUpdate {
  au_relay_id : string;
  au_ips : IpAddr * IpAddr
}.

Record RelayNodeIpEntry : Type := mkIpEntry {
  ie_relay_id : string;
  ie_relay_sn : string;
  ie_ips : IpAddr * IpAddr;
  ie_status : RelayNodeStatus;
  ie_updated_at : Z
}.

Record RelayNodeIpMapSnapshot : Type := mkSnapshot {
  sn_revision : Z;
  sn_generated_at : Z;
  sn_nodes : list RelayNodeIpEntry
}.

Record RelayAssignment : Type := mkAssignment {
  as_zone : string;
  as_relay_id : string;
  as_relay_sn : string;
  as_state : RelayAssignmentState;
  as_source : RelayAssignmentSource;
  as_reason : option string;
  as_generation : Z;
  as_backup_relay_id : option string;
  as_sticky_until : option Z;
  as_lease_expires_at : option Z;
  as_migrated_from : option string;
  as_migration_deadline : option Z;
  as_source_version : option string;
  as_created_at : Z;
  as_updated_at : Z
}.

Record AssignZoneRelayReq : Type := mkAssignReq {
  ar_zone : string;
  ar_relay_id : option string;
  ar_relay_sn : option string;
  ar_from_ip : option string;
  ar_region : option string;
  ar_source : RelayAssignmentSource;
  ar_reason : option string;
  ar_sticky_until : option Z;
  ar_lease_expires_at : option Z;
  ar_backup_relay_id : option string;
  ar_source_version : option string
}.

Record AllocateZoneRelayReq : Type := mkAllocateReq {
  al_zone : string;
  al_preferred_region : option string;
  al_source_ip : option IpAddr;
  al_reason : string;
  al_source_version : option string
}.

Record GeoIpInfo : Type := mkGeo {
  geo_country_code : option string;
  geo_country : option string;
  geo_province : option string;
  geo_city : option string;
  geo_isp : option string
}.

Inductive RelayMatchRule : Type := PreferredRegion | GeoCountryCode | GeoProvince | GeoCity | GeoIsp.

Definition match_rule_str (r : RelayMatchRule) : string :=
  match r with
  | PreferredRegion => "preferred_region"
  | GeoCountryCode => "geo_country_code"
  | GeoProvince => "geo_province"
  | GeoCity => "geo_city"
  | GeoIsp => "geo_isp"
  end.

Definition default_match_rules : list RelayMatchRule :=
  [PreferredRegion; GeoCountryCode; GeoProvince; GeoCity; GeoIsp].

Definition default_fallback_relays : list string := ["*"].

(** [RelayAllocationConfig] without the files of the resolver. *)
Record RelayAllocationConfig : Type := mkAllocationConfig {
  match_rules : list RelayMatchRule;
  fallback_relays : list string
}.

Definition default_allocation_config : RelayAllocationConfig :=
  mkAllocationConfig default_match_rules default_fallback_relays.

Record RelayAllocationPending : Type := mkPending {
  pe_zone : string;
  pe_preferred_region : option string;
  pe_reason : string;
  pe_source_version : option string;
  pe_attempts : Z;
  pe_last_error : string;
  pe_created_at : Z;
  pe_updated_at : Z
}.

Record RelaySelection : Type := mkSelection {
  sel_node : RelayNode;
  sel_rule : string;
  sel_fallback : bool
}.

Record RelayMigrationReq : Type := mkMigrationReq {
  mg_zone : string;
  mg_target_relay_id : option string;
  mg_target_relay_sn : option string;
  mg_operator : option string;
  mg_reason : option string;
  mg_migration_deadline : option Z;
  mg_source_version : option string
}.

Record RelayAdmissionReq : Type := mkAdmissionReq {
  aq_request_id : option string;
  aq_relay_id : string;
  aq_zone : string;
  aq_device_name : option string;
  aq_did : option string;
  aq_auth_context : option string;
  aq_assignment_generation : option Z;
  aq_observed_ip : option string
}.

Record RelayAdmissionDecision : Type := mkDecision {
  dc_request_id : option string;
  dc_relay_id : string;
  dc_zone : string;
  dc_device_name : option string;
  dc_did : option string;
  dc_auth_context : option string;
  dc_decision : RelayAdmissionDecisionKind;
  dc_reason : RelayAdmissionReason;
  dc_expected_relay_sn : option string;
  dc_assignment_generation : option Z;
  dc_admission_expires_at : option Z;
  dc_observed_ip : option string;
  dc_created_at : Z
}.

Definition DEFAULT_CAPACITY_SCORE : Z := 100.
Definition DEFAULT_ADMISSION_TTL_SECS : Z := 60.
Definition DEFAULT_MIGRATION_WINDOW_SECS : Z := 300.

(** ** Validation *)

Definition check_non_empty (value field : string) : SnResult unit :=
  refuse_if (is_empty (trim value)) (sn_err EcInvalidInput (field +:+ " is empty")).

Definition check_non_empty_opt (value : option string) (field : string) : SnResult unit :=
  match value with Some v => check_non_empty v field | None => SOk tt end.

Definition is_assignable_node (node : RelayNode) : bool := bool_decide (rn_status node = RnActive).

Definition check_assignable_node (node : RelayNode) : SnResult unit :=
  refuse_if (negb (is_assignable_node node))
    (sn_err EcConflict ("relay node " +:+ rn_relay_id node +:+ " is not assignable: " +:+
                        as_str (rn_status node))).

Definition validate_registration (node : RelayNodeRegistration) : SnResult unit :=
  let? _ := check_non_empty (rg_relay_id node) "relay_id" in
  let? _ := check_non_empty (rg_relay_sn node) "relay_sn" in
  let? _ := check_non_empty (rg_public_host node) "public_host" in
  let? _ := refuse_if (bool_decide (rg_status node = Some RnDeleted))
              (sn_err EcInvalidInput "deleted relay node cannot be registered") in
  match rg_capacity_score node with
  | Some capacity_score =>
      refuse_if (capacity_score <=? 0) (sn_err EcInvalidInput "capacity_score must be positive")
  | None => SOk tt
  end.

Definition validate_assignment_req (req : AssignZoneRelayReq) : SnResult unit :=
  let? _ := check_non_empty (ar_zone req) "zone" in
  let? _ := check_non_empty_opt (ar_relay_id req) "relay_id" in
  check_non_empty_opt (ar_relay_sn req) "relay_sn".

Definition validate_admission_req (req : RelayAdmissionReq) : SnResult unit :=
  let? _ := check_non_empty (aq_relay_id req) "relay_id" in
  let? _ := check_non_empty (aq_zone req) "zone" in
  let? _ := check_non_empty_opt (aq_device_name req) "device_name" in
  check_non_empty_opt (aq_did req) "did".

(** ** Texts *)

Definition normalize_optional_text (value : option string) : option string :=
  match option_map trim value with
  | Some v => if is_empty v then None else Some v
  | None => None
  end.

Fixpoint normalize_labels (seen : list string) (values : list string) : list string :=
  match values with
  | [] => []
  | v :: vs =>
      let v := trim v in
      if is_empty v || bool_decide (v ∈ seen) then normalize_labels seen vs
      else v :: normalize_labels (v :: seen) vs
  end.

Definition normalize_label_vec (values : list string) : list string := normalize_labels [] values.

Definition normalize_capability_vec (values : list string) : list string :=
  normalize_label_vec (to_ascii_lowercase <$> values).

(** The characters of a UTF-8 text, and the bytes of a character. *)
Definition byte_at (a : Ascii.ascii) : Z := Z.of_N (char_code a).

Fixpoint utf8_chars (s : string) : list Z :=
  match s with
  | EmptyString => []
  | String a s1 =>
      if byte_at a <? 192 then byte_at a :: utf8_chars s1
      else match s1 with
      | EmptyString => [byte_at a]
      | String b s2 =>
          if byte_at a <? 224 then
            Z.land (byte_at a) 31 * 64 + Z.land (byte_at b) 63 :: utf8_chars s2
          else match s2 with
          | EmptyString => [byte_at a]
          | String c s3 =>
              let abc := (Z.land (byte_at b) 63 * 64 + Z.land (byte_at c) 63) in
              if byte_at a <? 240 then Z.land (byte_at a) 15 * 4096 + abc :: utf8_chars s3
              else match s3 with
              | EmptyString => [byte_at a]
              | String d s4 =>
                  Z.land (byte_at a) 7 * 262144 + abc * 64 + Z.land (byte_at d) 63 :: utf8_chars s4
              end
          end
      end
  end.

Definition byte_of (n : Z) : Ascii.ascii := Ascii.ascii_of_N (Z.to_N n).

Definition utf8_encode (c : Z) : string :=
  if c <? 128 then String (byte_of c) ""
  else if c <? 2048 then String (byte_of (192 + c / 64)) (String (byte_of (128 + c mod 64)) "")
  else if c <? 65536 then
    String (byte_of (224 + c / 4096))
      (String (byte_of (128 + c / 64 mod 64)) (String (byte_of (128 + c mod 64)) ""))
  else String (byte_of (240 + c / 262144))
      (String (byte_of (128 + c / 4096 mod 64))
        (String (byte_of (128 + c / 64 mod 64)) (String (byte_of (128 + c mod 64)) ""))).

(** [char::is_alphanumeric], [char::to_lowercase] and [char::is_whitespace]: the
    tables of the Unicode standard, which agree with ASCII on ASCII. *)
Class CharTables : Type := {
  char_alphanumeric : Z -> bool;
  char_lowercase : Z -> list Z;
  char_whitespace : Z -> bool
}.

Definition is_label_separator (c : Z) : bool :=
  (c =? 45) || (c =? 95) || (c =? 47) || (c =? 46).

Section texts.
Context `{CharTables}.

(** The loop of [normalize_match_label]. *)
Fixpoint match_label_loop (cs : list Z) (normalized : string) (separator_pending : bool) : option string :=
  match cs with
  | [] => if is_empty normalized then None else Some normalized
  | c :: cs' =>
      if char_alphanumeric c then
        let normalized :=
          if separator_pending && negb (is_empty normalized) then normalized +:+ "-" else normalized in
        match_label_loop cs' (normalized +:+ String.concat "" (utf8_encode <$> char_lowercase c)) false
      else if is_label_separator c || char_whitespace c then
        match_label_loop cs' normalized (negb (is_empty normalized))
      else None
  end.

Definition normalize_match_label (value : string) : option string :=
  let value := trim value in
  if is_empty value || (128 <? String.length value)%nat then None
  else match_label_loop (utf8_chars value) "" false.
End texts.

(** [u8::is_ascii_whitespace]. *)
Definition is_ascii_whitespace (a : Ascii.ascii) : bool :=
  match char_code a with 32 | 9 | 10 | 12 | 13 => true | _ => false end%N.

(** The loop of [normalize_sn_region_id_hint]. *)
Fixpoint region_hint_loop (s : string) (normalized : string) (separator_pending : bool) : option string :=
  match s with
  | EmptyString => if is_empty normalized then None else Some normalized
  | String a s' =>
      if is_ascii_alphanumeric a then
        let normalized :=
          if separator_pending && negb (is_empty normalized) then normalized +:+ "-" else normalized in
        region_hint_loop s' (string_snoc normalized (char_to_lower a)) false
      else if is_label_separator (byte_at a) || is_ascii_whitespace a then
        region_hint_loop s' normalized (negb (is_empty normalized))
      else None
  end.

Definition normalize_sn_region_id_hint (value : string) : option string :=
  let value := trim value in
  if is_empty value || (128 <? String.length value)%nat then None
  else region_hint_loop value "" false.

(** ** Source addresses *)

Definition is_public_ipv4 (octets : list Z) : bool :=
  match octets with
  | [a; b; c; _] =>
      negb ((a =? 0) || (a =? 10) || (a =? 127)
            || ((a =? 100) && (64 <=? b) && (b <=? 127))
            || ((a =? 169) && (b =? 254))
            || ((a =? 172) && (16 <=? b) && (b <=? 31))
            || ((a =? 192) && (b =? 0) && (c =? 0))
            || ((a =? 192) && (b =? 0) && (c =? 2))
            || ((a =? 192) && (b =? 88) && (c =? 99))
            || ((a =? 192) && (b =? 168))
            || ((a =? 198) && ((b =? 18) || (b =? 19)))
            || ((a =? 198) && (b =? 51) && (c =? 100))
            || ((a =? 203) && (b =? 0) && (c =? 113))
            || (224 <=? a))
  | _ => false
  end.

(** Unspecified, loopback and multicast are [std] predicates. *)
Definition is_public_ipv6 (segments : list Z) : bool :=
  let s0 := default 0 (segments !! 0%nat) in
  let s1 := default 0 (segments !! 1%nat) in
  negb (bool_decide (segments = [0; 0; 0; 0; 0; 0; 0; 0])
        || bool_decide (segments = [0; 0; 0; 0; 0; 0; 0; 1])
        || (Z.land s0 0xff00 =? 0xff00)
        || (Z.land s0 0xfe00 =? 0xfc00)
        || (Z.land s0 0xffc0 =? 0xfe80)
        || ((s0 =? 0x2001) && (s1 =? 0x0db8))).

Definition is_public_source_ip (ip : IpAddr) : bool :=
  match ip with
  | V4 octets => is_public_ipv4 octets
  | V6 segments =>
      match to_ipv4 segments with
      | Some octets => is_public_ipv4 octets
      | None => is_public_ipv6 segments
      end
  end.

(** ** Matching rules *)

Section rules.
Context `{CharTables}.

Definition label_is (label : string) (value : string) : bool :=
  bool_decide (normalize_match_label label = Some value).

Definition normalized_tag_matches (node : RelayNode) (namespace value : string) : bool :=
  existsb (fun tag =>
    match split_once ":" tag with
    | Some (tag_namespace, tag_value) => label_is tag_namespace namespace && label_is tag_value value
    | None => label_is tag value
    end) (rn_tags node).

Definition region_contains_label (region value : string) : bool :=
  String.eqb region value
  || starts_with (value +:+ "-") region
  || ends_with ("-" +:+ value) region
  || is_some (split_once ("-" +:+ value +:+ "-") region).

Definition node_matches_rule (node : RelayNode) (rule : RelayMatchRule) (value : string) : bool :=
  let region := rn_region node ≫= normalize_match_label in
  let region_is (f : string -> bool) := match region with Some r => f r | None => false end in
  match rule with
  | PreferredRegion =>
      bool_decide (region = Some value) || normalized_tag_matches node "region" value
  | GeoCountryCode =>
      region_is (fun r => String.eqb r value || starts_with (value +:+ "-") r)
      || normalized_tag_matches node "country" value
  | GeoProvince =>
      region_is (fun r => region_contains_label r value)
      || normalized_tag_matches node "province" value
  | GeoCity =>
      region_is (fun r => region_contains_label r value)
      || normalized_tag_matches node "city" value
  | GeoIsp =>
      bool_decide (rn_isp node ≫= normalize_match_label = Some value)
      || normalized_tag_matches node "isp" value
  end.

Definition rule_value (rule : RelayMatchRule) (preferred_region : option string)
    (geo : option GeoIpInfo) : option string :=
  match rule with
  | PreferredRegion => preferred_region
  | GeoCountryCode => geo ≫= geo_country_code
  | GeoProvince => geo ≫= geo_province
  | GeoCity => geo ≫= geo_city
  | GeoIsp => geo ≫= geo_isp
  end ≫= normalize_match_label.
End rules.

(** [compare_relay_load] in the width of its operands: the products of two
    [i64] fit in [i128]. *)
Definition compare_relay_load (left right : RelayNode) : comparison :=
  let left_ratio := rn_current_load left * Z.max (rn_capacity_score right) 1 in
  let right_ratio := rn_current_load right * Z.max (rn_capacity_score left) 1 in
  match left_ratio ?= right_ratio with
  | Eq =>
      match rn_capacity_score right ?= rn_capacity_score left with
      | Eq => String.compare (rn_relay_id left) (rn_relay_id right)
      | c => c
      end
  | c => c
  end.

Definition load_leb (left right : RelayNode) : bool :=
  match compare_relay_load left right with Gt => false | _ => true end.

(** ** GeoIP records *)

Definition clean_part (value : option string) : option string :=
  match option_map trim value with
  | Some v => if is_empty v || String.eqb v "0" then None else Some v
  | None => None
  end.

Definition parse_record (record : string) : option GeoIpInfo :=
  if is_empty (trim record) then None
  else
    let parts := split_on "|" record in
    Some {| geo_country := clean_part (parts !! 0%nat);
            geo_province := clean_part (parts !! 1%nat);
            geo_city := clean_part (parts !! 2%nat);
            geo_isp := clean_part (parts !! 3%nat);
            geo_country_code := clean_part (parts !! 4%nat) |}.
