(* ===== verification/RelayStore.v ===== *)
(** * Service node: the tables and the world of the relay manager

    The tables [initialize_database] of [cyfs-sn/src/relay_mgr.rs] creates, as
    finite maps keyed by their primary keys, with the SQL statements of the
    manager as functions on them, and the world the manager's tasks share: the
    tables, the allocation counters, the clock, the locks and the device
    database.  A statement is one atomic action; so is a transaction, which
    SQLite serialises.  Failures of the database itself are not modelled, the
    violation of a constraint is. *)

From S2P Require Import Prelude IpAddr Tasks RelayModel.

(** ** Interfaces *)

(** [serde_json] on vectors of strings: printing and parsing are inverse, and a
    JSON text is never blank. *)
Class JsonStrings : Type := {
  json_of_strings : list string -> string;
  json_to_strings : string -> option (list string)
}.

Class JsonStringsLaws `{JsonStrings} : Prop := {
  json_round_trip l : json_to_strings (json_of_strings l) = Some l;
  json_not_blank l : is_empty (trim (json_of_strings l)) = false
}.

(** What is read of a device ([SnDeviceStateView]) and the two
    queries of [SnDeviceInfoDB] that are made; they may change that database. *)
Inductive SnDeviceState : Type := DevOnline | DevOffline | DevStale | DevBlocked.

#[export] Instance SnDeviceState_eq_dec : EqDecision SnDeviceState.
Proof. solve_decision. Defined.

Record SnDeviceStateView : Type := mkDeviceView {
  dv_did : string;
  dv_zone : string;
  dv_device_name : string;
  dv_state : SnDeviceState;
  dv_public_ips : list string;
  dv_private_ips : list string;
  dv_endpoint_hosts : list string
}.

Class DeviceInfoDB : Type := {
  DeviceDb : Type;
  get_device_state : string -> DeviceDb -> SnResult (option SnDeviceStateView) * DeviceDb;
  get_device_state_by_name :
    string -> string -> DeviceDb -> SnResult (option SnDeviceStateView) * DeviceDb
}.

(** The numbers of SQLite: an integer product that leaves the 64-bit range is
    computed as a real, and integers compare as integers. *)
Class SqlNumbers : Type := {
  sql_real : Type;
  real_ratio : Z -> Z -> sql_real;
  sql_leb : Z + sql_real -> Z + sql_real -> bool
}.

(** ** Rows *)

(** A row of [relay_nodes]; the key is its [relay_id]. *)
Record NodeRow : Type := mkNodeRow {
  nr_relay_sn : string;
  nr_public_host : string;
  nr_http_endpoint : option string;
  nr_rtcp_endpoint : option string;
  nr_region : option string;
  nr_isp : option string;
  nr_tags : option string;
  nr_capabilities : option string;
  nr_status : string;
  nr_capacity_score : Z;
  nr_current_load : Z;
  nr_last_heartbeat_at : option Z;
  nr_drain_until : option Z;
  nr_created_at : Z;
  nr_updated_at : Z
}.

(** A row of [relay_node_addresses]; the key is the node and the slot. *)
Record AddressRow : Type := mkAddressRow {
  ad_ip : string;
  ad_created_at : Z;
  ad_updated_at : Z
}.

(** A row of [relay_assignments]; the key is the zone. *)
Record AssignmentRow : Type := mkAssignmentRow {
  aw_relay_id : string;
  aw_state : string;
  aw_source : string;
  aw_reason : option string;
  aw_generation : Z;
  aw_backup_relay_id : option string;
  aw_sticky_until : option Z;
  aw_lease_expires_at : option Z;
  aw_migrated_from : option string;
  aw_migration_deadline : option Z;
  aw_source_version : option string;
  aw_created_at : Z;
  aw_updated_at : Z
}.

(** A row of [relay_allocation_pending]; the key is the zone. *)
Record PendingRow : Type := mkPendingRow {
  pw_preferred_region : option string;
  pw_reason : string;
  pw_source_version : option string;
  pw_attempts : Z;
  pw_last_error : string;
  pw_created_at : Z;
  pw_updated_at : Z
}.

(** A row of [relay_admission_events]. *)
Record EventRow : Type := mkEventRow {
  ev_request_id : option string;
  ev_relay_id : string;
  ev_zone : string;
  ev_device_name : option string;
  ev_did : option string;
  ev_decision : string;
  ev_reason : string;
  ev_expected_relay_sn : option string;
  ev_assignment_generation : option Z;
  ev_observed_ip : option string;
  ev_created_at : Z
}.

Record Tables : Type := mkTables {
  t_nodes : gmap string NodeRow;
  t_addresses : gmap (string * nat) AddressRow;
  t_node_map_revision : Z;
  t_assignments : gmap string AssignmentRow;
  t_pending : gmap string PendingRow;
  t_events : list EventRow
}.

(** What [initialize_database] leaves in a fresh file. *)
Definition initialize_database : Tables := mkTables ∅ ∅ 0 ∅ ∅ [].

Definition on_nodes (f : gmap string NodeRow -> gmap string NodeRow) (t : Tables) : Tables :=
  mkTables (f (t_nodes t)) (t_addresses t) (t_node_map_revision t) (t_assignments t) (t_pending t)
    (t_events t).
Definition on_addresses
    (f : gmap (string * nat) AddressRow -> gmap (string * nat) AddressRow) (t : Tables) : Tables :=
  mkTables (t_nodes t) (f (t_addresses t)) (t_node_map_revision t) (t_assignments t) (t_pending t)
    (t_events t).
Definition on_assignments (f : gmap string AssignmentRow -> gmap string AssignmentRow)
    (t : Tables) : Tables :=
  mkTables (t_nodes t) (t_addresses t) (t_node_map_revision t) (f (t_assignments t)) (t_pending t)
    (t_events t).
Definition on_pending (f : gmap string PendingRow -> gmap string PendingRow) (t : Tables) : Tables :=
  mkTables (t_nodes t) (t_addresses t) (t_node_map_revision t) (t_assignments t) (f (t_pending t))
    (t_events t).
Definition on_events (f : list EventRow -> list EventRow) (t : Tables) : Tables :=
  mkTables (t_nodes t) (t_addresses t) (t_node_map_revision t) (t_assignments t) (t_pending t)
    (f (t_events t)).

(** [UPDATE relay_metadata SET value = value + 1]. *)
Definition bump_node_map_revision (t : Tables) : Tables :=
  mkTables (t_nodes t) (t_addresses t) (t_node_map_revision t + 1) (t_assignments t) (t_pending t)
    (t_events t).

(** ** Reading rows *)

Definition i64_to_u64 (value : Z) : Z := if value <? 0 then 0 else value.
Definition opt_to_u64 (value : option Z) : option Z :=
  value ≫= fun v => if v <? 0 then None else Some v.

Definition to_db_time (value : Z) (field : string) : SnResult Z :=
  if 2 ^ 63 - 1 <? value
  then SErr (sn_err EcInvalidInput (field +:+ " is too large for sqlite integer"))
  else SOk value.

Definition to_db_time_opt (value : option Z) (field : string) : SnResult (option Z) :=
  opt_mapS (fun v => to_db_time v field) value.

Definition parse_db_enum {A} `{StringEnum A} (value field : string) : SnResult A :=
  some_or (from_str value) (sn_err EcDBError ("invalid " +:+ field +:+ " in db")).

Definition parse_json_string_vec `{JsonStrings} (value : option string) (field : string) :
    SnResult (list string) :=
  match value with
  | Some v =>
      if is_empty (trim v) then SOk []
      else some_or (json_to_strings v) (sn_err EcDBError ("invalid " +:+ field +:+ " json"))
  | None => SOk []
  end.

Definition slot_text (slot : nat) : string := if (slot =? 0)%nat then "0" else "1".

Definition parse_stored_ip (value : option string) (slot : nat) : SnResult IpAddr :=
  let where_ := "relay node address slot " +:+ slot_text slot in
  let? value := some_or value (sn_err EcDBError (where_ +:+ " is missing")) in
  let? ip := some_or (parse_ip value) (sn_err EcDBError (where_ +:+ " is corrupt")) in
  let? _ := refuse_if (negb (String.eqb (ip_to_string ip) value))
              (sn_err EcDBError (where_ +:+ " is not canonical: " +:+ value)) in
  SOk ip.

Arguments parse_stored_ip : simpl never.
Arguments parse_db_enum : simpl never.

Section rows.
Context `{JsonStrings}.

Definition relay_node_from_row (relay_id : string) (row : NodeRow) (ip0 ip1 : option string) :
    SnResult RelayNode :=
  let? ip0 := parse_stored_ip ip0 0 in
  let? ip1 := parse_stored_ip ip1 1 in
  let? tags := parse_json_string_vec (nr_tags row) "relay tags" in
  let? capabilities := parse_json_string_vec (nr_capabilities row) "relay capabilities" in
  let? status := parse_db_enum (nr_status row) "relay status" in
  SOk {| rn_relay_id := relay_id;
         rn_relay_sn := nr_relay_sn row;
         rn_ips := (ip0, ip1);
         rn_public_host := nr_public_host row;
         rn_http_endpoint := nr_http_endpoint row;
         rn_rtcp_endpoint := nr_rtcp_endpoint row;
         rn_region := nr_region row;
         rn_isp := nr_isp row;
         rn_tags := tags;
         rn_capabilities := capabilities;
         rn_status := status;
         rn_capacity_score := nr_capacity_score row;
         rn_current_load := nr_current_load row;
         rn_last_heartbeat_at := opt_to_u64 (nr_last_heartbeat_at row);
         rn_drain_until := opt_to_u64 (nr_drain_until row);
         rn_created_at := i64_to_u64 (nr_created_at row);
         rn_updated_at := i64_to_u64 (nr_updated_at row) |}.

Definition relay_assignment_from_row (zone : string) (row : AssignmentRow) (relay_sn : string) :
    SnResult RelayAssignment :=
  let? state := parse_db_enum (aw_state row) "relay assignment state" in
  let? source := parse_db_enum (aw_source row) "relay assignment source" in
  SOk {| as_zone := zone;
         as_relay_id := aw_relay_id row;
         as_relay_sn := relay_sn;
         as_state := state;
         as_source := source;
         as_reason := aw_reason row;
         as_generation := i64_to_u64 (aw_generation row);
         as_backup_relay_id := aw_backup_relay_id row;
         as_sticky_until := opt_to_u64 (aw_sticky_until row);
         as_lease_expires_at := opt_to_u64 (aw_lease_expires_at row);
         as_migrated_from := aw_migrated_from row;
         as_migration_deadline := opt_to_u64 (aw_migration_deadline row);
         as_source_version := aw_source_version row;
         as_created_at := i64_to_u64 (aw_created_at row);
         as_updated_at := i64_to_u64 (aw_updated_at row) |}.

(** [relay_node_select_sql]: a node with its two addresses. *)
Definition stored_ip (t : Tables) (relay_id : string) (slot : nat) : option string :=
  ad_ip <$> t_addresses t !! (relay_id, slot).

Definition read_node (t : Tables) (relay_id : string) (row : NodeRow) : SnResult RelayNode :=
  relay_node_from_row relay_id row (stored_ip t relay_id 0) (stored_ip t relay_id 1).

Definition select_node (relay_id : string) (t : Tables) : SnResult (option RelayNode) :=
  opt_mapS (read_node t relay_id) (t_nodes t !! relay_id).

(** The rows of [relay_nodes] in the order of [relay_id]. *)
Definition by_key {A} (a b : string * A) : bool := String.leb a.1 b.1.

Definition node_rows (t : Tables) : list (string * NodeRow) :=
  stable_sort by_key (map_to_list (t_nodes t)).

Definition select_node_by_sn (relay_sn : string) (t : Tables) : SnResult (option RelayNode) :=
  opt_mapS (fun '(id, row) => read_node t id row)
    (List.find (fun '(_, row) => String.eqb (nr_relay_sn row) relay_sn) (node_rows t)).

Definition select_all_nodes (t : Tables) : SnResult (list RelayNode) :=
  mapS (fun '(id, row) => read_node t id row) (node_rows t).

(** [relay_assignment_select_sql]: the join drops an assignment whose node is
    missing. *)
Definition select_assignment (zone : string) (t : Tables) : SnResult (option RelayAssignment) :=
  match t_assignments t !! zone with
  | None => SOk None
  | Some row =>
      match t_nodes t !! aw_relay_id row with
      | None => SOk None
      | Some node =>
          let? a := relay_assignment_from_row zone row (nr_relay_sn node) in SOk (Some a)
      end
  end.
End rows.

(** ** The order of [choose_relay_node] *)

Section choice.
Context `{SqlNumbers}.

(** [n.current_load * 1000 / CASE WHEN n.capacity_score > 0 ...]; integer
    division truncates. *)
Definition sql_load (row : NodeRow) : Z + sql_real :=
  let product := nr_current_load row * 1000 in
  let capacity := if 0 <? nr_capacity_score row then nr_capacity_score row else 1 in
  if (- 2 ^ 63 <=? product) && (product <? 2 ^ 63) then inl (Z.quot product capacity)
  else inr (real_ratio product capacity).

Definition region_rank (region : option string) (row : NodeRow) : Z :=
  match region with
  | Some r => if bool_decide (nr_region row = Some r) then 0 else 1
  | None => 1
  end.

Definition choice_leb (region : option string) (a b : string * NodeRow) : bool :=
  let ra := region_rank region a.2 in
  let rb := region_rank region b.2 in
  if negb (ra =? rb) then ra <? rb
  else if negb (sql_leb (sql_load b.2) (sql_load a.2)) then true
  else if negb (sql_leb (sql_load a.2) (sql_load b.2)) then false
  else if negb (nr_capacity_score a.2 =? nr_capacity_score b.2)
  then nr_capacity_score b.2 <? nr_capacity_score a.2
  else String.leb a.1 b.1.

Definition least_loaded_row (region : option string) (t : Tables) : option (string * NodeRow) :=
  head (stable_sort (choice_leb region)
    (List.filter (fun '(_, row) => String.eqb (nr_status row) (as_str RnActive)) (node_rows t))).

Definition select_least_loaded `{JsonStrings} (region : option string) (t : Tables) :
    SnResult (option RelayNode) :=
  opt_mapS (fun '(id, row) => read_node t id row) (least_loaded_row region t).
End choice.

(** ** Writing rows *)

(** [INSERT INTO relay_nodes ... ON CONFLICT(relay_id) DO UPDATE]: a new row has
    no load and no heartbeat, an old one keeps them and its creation time. *)
Definition upsert_node_row (relay_id : string) (new : NodeRow) (t : Tables) : Tables :=
  let row :=
    match t_nodes t !! relay_id with
    | None => new
    | Some old =>
        {| nr_relay_sn := nr_relay_sn new;
           nr_public_host := nr_public_host new;
           nr_http_endpoint := nr_http_endpoint new;
           nr_rtcp_endpoint := nr_rtcp_endpoint new;
           nr_region := nr_region new;
           nr_isp := nr_isp new;
           nr_tags := nr_tags new;
           nr_capabilities := nr_capabilities new;
           nr_status := nr_status new;
           nr_capacity_score := nr_capacity_score new;
           nr_current_load := nr_current_load old;
           nr_last_heartbeat_at := nr_last_heartbeat_at old;
           nr_drain_until := nr_drain_until old;
           nr_created_at := nr_created_at old;
           nr_updated_at := nr_updated_at new |}
    end in
  on_nodes <[relay_id := row]> t.

(** Another node has the [relay_sn]: the [UNIQUE] column refuses the row. *)
Definition relay_sn_taken (relay_id relay_sn : string) (t : Tables) : bool :=
  existsb (fun '(id, row) => negb (String.eqb id relay_id) && String.eqb (nr_relay_sn row) relay_sn)
    (node_rows t).

Definition upsert_address_row (relay_id : string) (slot : nat) (ip : IpAddr) (now : Z)
    (t : Tables) : Tables :=
  let created :=
    match t_addresses t !! (relay_id, slot) with Some old => ad_created_at old | None => now end in
  on_addresses <[(relay_id, slot) := mkAddressRow (ip_to_string ip) created now]> t.

(** [UPDATE relay_node_addresses SET ip = ?1, updated_at = ?2]. *)
Definition update_address_row (relay_id : string) (slot : nat) (ip : IpAddr) (now : Z)
    (t : Tables) : Tables :=
  on_addresses
    (alter (fun old => mkAddressRow (ip_to_string ip) (ad_created_at old) now) (relay_id, slot)) t.

Definition touch_node_row (relay_id : string) (now : Z) (t : Tables) : Tables :=
  on_nodes (alter (fun r =>
    {| nr_relay_sn := nr_relay_sn r; nr_public_host := nr_public_host r;
       nr_http_endpoint := nr_http_endpoint r; nr_rtcp_endpoint := nr_rtcp_endpoint r;
       nr_region := nr_region r; nr_isp := nr_isp r; nr_tags := nr_tags r;
       nr_capabilities := nr_capabilities r; nr_status := nr_status r;
       nr_capacity_score := nr_capacity_score r; nr_current_load := nr_current_load r;
       nr_last_heartbeat_at := nr_last_heartbeat_at r; nr_drain_until := nr_drain_until r;
       nr_created_at := nr_created_at r; nr_updated_at := now |}) relay_id) t.

(** [COALESCE]. *)
Definition coalesce {A} (a b : option A) : option A := match a with Some _ => a | None => b end.

Definition beat_row (status : RelayNodeStatus) (load capacity : Z) (http rtcp : option string)
    (now : Z) (drain : option Z) (r : NodeRow) : NodeRow :=
  {| nr_relay_sn := nr_relay_sn r; nr_public_host := nr_public_host r;
     nr_http_endpoint := coalesce http (nr_http_endpoint r);
     nr_rtcp_endpoint := coalesce rtcp (nr_rtcp_endpoint r);
     nr_region := nr_region r; nr_isp := nr_isp r; nr_tags := nr_tags r;
     nr_capabilities := nr_capabilities r; nr_status := as_str status;
     nr_capacity_score := capacity; nr_current_load := load;
     nr_last_heartbeat_at := Some now; nr_drain_until := drain;
     nr_created_at := nr_created_at r; nr_updated_at := now |}.

(** [UPDATE relay_nodes SET status = ?1, ... WHERE relay_id = ?9]. *)
Definition heartbeat_row (relay_id : string) (status : RelayNodeStatus) (load capacity : Z)
    (http rtcp : option string) (now : Z) (drain : option Z) (t : Tables) : Tables :=
  on_nodes (alter (beat_row status load capacity http rtcp now drain) relay_id) t.

(** The row of an assignment, with its numbers checked for SQLite. *)
Definition assignment_to_row (a : RelayAssignment) : SnResult AssignmentRow :=
  let? generation := to_db_time (as_generation a) "generation" in
  let? sticky := to_db_time_opt (as_sticky_until a) "sticky_until" in
  let? lease := to_db_time_opt (as_lease_expires_at a) "lease_expires_at" in
  let? deadline := to_db_time_opt (as_migration_deadline a) "migration_deadline" in
  let? created := to_db_time (as_created_at a) "created_at" in
  let? updated := to_db_time (as_updated_at a) "updated_at" in
  SOk {| aw_relay_id := as_relay_id a; aw_state := as_str (as_state a);
         aw_source := as_str (as_source a); aw_reason := as_reason a;
         aw_generation := generation; aw_backup_relay_id := as_backup_relay_id a;
         aw_sticky_until := sticky; aw_lease_expires_at := lease;
         aw_migrated_from := as_migrated_from a; aw_migration_deadline := deadline;
         aw_source_version := as_source_version a;
         aw_created_at := created; aw_updated_at := updated |}.

(** An upsert keeps the creation time of the row. *)
Definition upsert_assignment_row (zone : string) (new : AssignmentRow) (t : Tables) : Tables :=
  let row :=
    match t_assignments t !! zone with
    | None => new
    | Some old =>
        {| aw_relay_id := aw_relay_id new; aw_state := aw_state new; aw_source := aw_source new;
           aw_reason := aw_reason new; aw_generation := aw_generation new;
           aw_backup_relay_id := aw_backup_relay_id new; aw_sticky_until := aw_sticky_until new;
           aw_lease_expires_at := aw_lease_expires_at new;
           aw_migrated_from := aw_migrated_from new;
           aw_migration_deadline := aw_migration_deadline new;
           aw_source_version := aw_source_version new;
           aw_created_at := aw_created_at old; aw_updated_at := aw_updated_at new |}
    end in
  on_assignments <[zone := row]> t.

(** [UPDATE relay_assignments SET state = 'active', ... WHERE zone = ?2 AND
    generation = ?3 AND state = 'migrating']: the tables and whether a row was
    affected. *)
Definition complete_migration_row (zone : string) (generation now : Z) (t : Tables) : bool * Tables :=
  match t_assignments t !! zone with
  | Some r =>
      if (aw_generation r =? generation) && String.eqb (aw_state r) (as_str RaMigrating) then
        (true, on_assignments <[zone :=
          {| aw_relay_id := aw_relay_id r; aw_state := as_str RaActive; aw_source := aw_source r;
             aw_reason := aw_reason r; aw_generation := aw_generation r;
             aw_backup_relay_id := aw_backup_relay_id r; aw_sticky_until := aw_sticky_until r;
             aw_lease_expires_at := aw_lease_expires_at r;
             aw_migrated_from := None; aw_migration_deadline := None;
             aw_source_version := aw_source_version r;
             aw_created_at := aw_created_at r; aw_updated_at := now |}]> t)
      else (false, t)
  | None => (false, t)
  end.

Definition upsert_pending_row (zone : string) (region : option string) (reason : string)
    (version : option string) (error : string) (now : Z) (t : Tables) : Tables :=
  let row :=
    match t_pending t !! zone with
    | None => mkPendingRow region reason version 1 error now now
    | Some old => mkPendingRow region reason version (pw_attempts old + 1) error (pw_created_at old) now
    end in
  on_pending <[zone := row]> t.

(** [ORDER BY created_at ASC, zone ASC]. *)
Definition pending_leb (a b : string * PendingRow) : bool :=
  if negb (pw_created_at a.2 =? pw_created_at b.2) then pw_created_at a.2 <? pw_created_at b.2
  else String.leb a.1 b.1.

Definition pending_rows (t : Tables) : list (string * PendingRow) :=
  stable_sort pending_leb (map_to_list (t_pending t)).

(** ** The world *)

Record Metrics : Type := mkMetrics {
  mt_attempts : Z; mt_successes : Z; mt_fallbacks : Z; mt_failures : Z; mt_geoip_failures : Z
}.

Section world.
Context `{NamedLocker, DeviceInfoDB}.

Record World : Type := mkWorld {
  w_db : Tables;
  w_metrics : Metrics;
  w_ticks : nat;
  w_locks : LockState;
  w_devices : DeviceDb
}.

Definition set_db (f : Tables -> Tables) (w : World) : World :=
  mkWorld (f (w_db w)) (w_metrics w) (w_ticks w) (w_locks w) (w_devices w).
Definition set_metrics (f : Metrics -> Metrics) (w : World) : World :=
  mkWorld (w_db w) (f (w_metrics w)) (w_ticks w) (w_locks w) (w_devices w).

Definition T (A : Type) : Type := Task World (SnResult A).

Definition ret {A} (a : A) : T A := Ret (SOk a).
Definition throw {A} (e : SnError) : T A := Ret (SErr e).

(** The [?] operator. *)
Definition bind {A B} (m : T A) (k : A -> T B) : T B :=
  tbind m (fun r => match r with SOk a => k a | SErr e => throw e end).

Definition lift {A} (r : SnResult A) : T A := Ret r.

(** A [SELECT]. *)
Definition query {A} (f : Tables -> A) : T A := atomic (fun w => (SOk (f (w_db w)), w)).

(** A [SELECT] whose rows are then read. *)
Definition query_rows {A} (f : Tables -> SnResult A) : T A := atomic (fun w => (f (w_db w), w)).

(** A writing statement or a transaction of them. *)
Definition execute (f : Tables -> Tables) : T unit := atomic (fun w => (SOk tt, set_db f w)).

(** A writing statement that may violate a constraint. *)
Definition execute_checked {A} (f : Tables -> SnResult (A * Tables)) : T A := atomic (fun w =>
  match f (w_db w) with
  | SOk (a, t) => (SOk a, set_db (fun _ => t) w)
  | SErr e => (SErr e, w)
  end).

(** A transaction: its statements run with no other task in between, and an
    error undoes what they did to the tables. *)
Definition transaction {A} (t : T A) : T A := Act (fun w =>
  match run t w with
  | Some (SOk a, w') => Some (SOk a, w')
  | Some (SErr e, w') => Some (SErr e, set_db (fun _ => w_db w) w')
  | None => None
  end) Ret.

Definition count (f : Metrics -> Metrics) : T unit := atomic (fun w => (SOk tt, set_metrics f w)).

Definition now_secs `{Clock} : T Z := atomic (fun w =>
  (SOk (clock_at (w_ticks w)),
   mkWorld (w_db w) (w_metrics w) (S (w_ticks w)) (w_locks w) (w_devices w))).

Definition get_locker (name : string) : T unit := Act (fun w =>
  if lock_held name (w_locks w) then None
  else Some (tt, mkWorld (w_db w) (w_metrics w) (w_ticks w) (lock_name name (w_locks w)) (w_devices w)))
  (fun _ => ret tt).

Definition drop_locker (name : string) : T unit := atomic (fun w =>
  (SOk tt, mkWorld (w_db w) (w_metrics w) (w_ticks w) (unlock_name name (w_locks w)) (w_devices w))).

Definition on_devices {A} (f : DeviceDb -> SnResult A * DeviceDb) : T A := atomic (fun w =>
  let '(r, d) := f (w_devices w) in
  (r, mkWorld (w_db w) (w_metrics w) (w_ticks w) (w_locks w) d)).
End world.

Arguments bind : simpl never.
Arguments execute_checked : simpl never.
Arguments transaction : simpl never.

Notation "'let*' x ':=' m 'in' k" := (bind m (fun x => k))
  (at level 10, x pattern, m at level 100, k at level 200) : sn_scope.
Notation "m1 ;; m2" := (bind m1 (fun _ => m2))
  (at level 100, m2 at level 200, right associativity) : sn_scope.
