(* ===== verification/Relay.v ===== *)
(** * Service node: the relay manager

    [SqliteSnRelayManager] of [cyfs-sn/src/relay_mgr.rs]: every operation of the
    trait [SnRelayManager] and the helpers behind them, as tasks over the world
    of [RelayStore].  The resolver of source addresses is the trait
    [GeoIpResolver]: a function whose answer may change with time. *)

From S2P Require Import Prelude IpAddr Tasks RelayModel RelayStore.

(** The fields of the manager that are fixed when it is built. *)
Record RelayManager : Type := mkManager {
  rm_has_device_info_db : bool;
  rm_admission_ttl_secs : Z;
  rm_allocation_config : RelayAllocationConfig;
  rm_geo_ip_resolver : option (nat -> IpAddr -> SnResult (option GeoIpInfo))
}.

(** [from_pool]. *)
Definition from_pool : RelayManager :=
  mkManager false DEFAULT_ADMISSION_TTL_SECS default_allocation_config None.

Definition count_attempt (m : Metrics) : Metrics :=
  mkMetrics (u64_add (mt_attempts m) 1) (mt_successes m) (mt_fallbacks m) (mt_failures m)
    (mt_geoip_failures m).
Definition count_success (m : Metrics) : Metrics :=
  mkMetrics (mt_attempts m) (u64_add (mt_successes m) 1) (mt_fallbacks m) (mt_failures m)
    (mt_geoip_failures m).
Definition count_fallback (m : Metrics) : Metrics :=
  mkMetrics (mt_attempts m) (mt_successes m) (u64_add (mt_fallbacks m) 1) (mt_failures m)
    (mt_geoip_failures m).
Definition count_failure (m : Metrics) : Metrics :=
  mkMetrics (mt_attempts m) (mt_successes m) (mt_fallbacks m) (u64_add (mt_failures m) 1)
    (mt_geoip_failures m).
Definition count_geoip_failure (m : Metrics) : Metrics :=
  mkMetrics (mt_attempts m) (mt_successes m) (mt_fallbacks m) (mt_failures m)
    (u64_add (mt_geoip_failures m) 1).

(** [u64::saturating_add]. *)
Definition u64_saturating_add (a b : Z) : Z := Z.min (a + b) (2 ^ 64 - 1).

Section relay.
Context `{NamedLocker, DeviceInfoDB, Clock, JsonStrings, SqlNumbers, CharTables}.
Context (self : RelayManager).

(** ** Reading *)

Definition get_relay_node (relay_id : string) : T (option RelayNode) :=
  lift (check_non_empty relay_id "relay_id") ;;
  query_rows (select_node relay_id).

Definition get_relay_node_by_sn (relay_sn : string) : T (option RelayNode) :=
  lift (check_non_empty relay_sn "relay_sn") ;;
  query_rows (select_node_by_sn relay_sn).

Definition list_relay_nodes : T (list RelayNode) := query_rows select_all_nodes.

Definition get_zone_relay (zone : string) : T (option RelayAssignment) :=
  lift (check_non_empty zone "zone") ;;
  query_rows (select_assignment zone).

Definition fetch_assignment_for_update (zone : string) : T (option RelayAssignment) :=
  query_rows (select_assignment zone).

Definition zone_belongs_to_relay (zone relay_id : string) : T bool :=
  let* assignment := get_zone_relay zone in
  match assignment with
  | None => ret false
  | Some a =>
      ret (String.eqb (as_relay_id a) relay_id
           && (bool_decide (as_state a = RaActive) || bool_decide (as_state a = RaMigrating)))
  end.

(** The rows of a node that are not suspended, in the order of their zones. *)
Definition list_zone_relays_by_node (relay_id : string) : T (list RelayAssignment) :=
  lift (check_non_empty relay_id "relay_id") ;;
  query_rows (fun t =>
    let rows := List.filter (fun '(_, row) =>
        String.eqb (aw_relay_id row) relay_id
        && bool_decide (aw_state row ∈ [as_str RaActive; as_str RaMigrating; as_str RaDraining]))
      (stable_sort by_key (map_to_list (t_assignments t))) in
    match t_nodes t !! relay_id with
    | None => SOk []
    | Some node => mapS (fun '(zone, row) => relay_assignment_from_row zone row (nr_relay_sn node)) rows
    end).

Definition get_pending_allocation (zone : string) : T (option RelayAllocationPending) :=
  lift (check_non_empty zone "zone") ;;
  query (fun t => option_map (fun row =>
    {| pe_zone := zone; pe_preferred_region := pw_preferred_region row; pe_reason := pw_reason row;
       pe_source_version := pw_source_version row; pe_attempts := i64_to_u64 (pw_attempts row);
       pe_last_error := pw_last_error row; pe_created_at := i64_to_u64 (pw_created_at row);
       pe_updated_at := i64_to_u64 (pw_updated_at row) |}) (t_pending t !! zone)).

(** The entry of a node in the map, with the checks of its address rows. *)
Definition ip_entry (t : Tables) (relay_id : string) (row : NodeRow) : SnResult RelayNodeIpEntry :=
  match t_addresses t !! (relay_id, 0%nat), t_addresses t !! (relay_id, 1%nat) with
  | Some a0, Some a1 =>
      let? ip0 := parse_stored_ip (Some (ad_ip a0)) 0 in
      let? ip1 := parse_stored_ip (Some (ad_ip a1)) 1 in
      let? status := parse_db_enum (nr_status row) "relay status" in
      SOk (mkIpEntry relay_id (nr_relay_sn row) (ip0, ip1) status (i64_to_u64 (nr_updated_at row)))
  | a0, a1 =>
      let found := if is_some a0 || is_some a1 then "1" else "0" in
      SErr (sn_err EcDBError
        ("relay node " +:+ relay_id +:+ " has " +:+ found +:+ " addresses; expected exactly 2"))
  end.

Definition get_relay_nodes_ip_map_snapshot (if_revision : option Z) : T (option RelayNodeIpMapSnapshot) :=
  let* snapshot := query_rows (fun t =>
    let revision := i64_to_u64 (t_node_map_revision t) in
    if bool_decide (if_revision = Some revision) then SOk None
    else
      let? nodes := mapS (fun '(id, row) => ip_entry t id row)
        (List.filter (fun '(_, row) => negb (String.eqb (nr_status row) (as_str RnDeleted)))
           (node_rows t)) in
      SOk (Some (revision, nodes))) in
  match snapshot with
  | None => ret None
  | Some (revision, nodes) =>
      let* now := now_secs in
      ret (Some (mkSnapshot revision now nodes))
  end.

(** ** Choosing a relay *)

(** The node of the zone's assignment while it sticks to it. *)
Definition sticky_node (req : AssignZoneRelayReq) : T (option RelayNode) :=
  let* existing := get_zone_relay (ar_zone req) in
  match existing with
  | None => ret None
  | Some existing =>
      if bool_decide (ar_source req = SrcAuto) && bool_decide (as_state existing = RaActive) then
        match as_sticky_until existing with
        | None => ret None
        | Some sticky_until =>
            let* now := now_secs in
            if now <? sticky_until then
              let* node := get_relay_node (as_relay_id existing) in
              match node with
              | Some node => ret (if is_assignable_node node then Some node else None)
              | None => ret None
              end
            else ret None
        end
      else ret None
  end.

Definition choose_relay_node (req : AssignZoneRelayReq) : T RelayNode :=
  match ar_relay_id req with
  | Some relay_id =>
      let* node := get_relay_node relay_id in
      let* node := lift (some_or node (sn_err EcNotFound "relay node not found")) in
      lift (check_assignable_node node) ;;
      lift (refuse_if
        (match ar_relay_sn req with Some sn => negb (String.eqb (rn_relay_sn node) sn) | None => false end)
        (sn_err EcConflict ("relay_id " +:+ relay_id +:+ " does not match relay_sn " +:+
                            default "" (ar_relay_sn req)))) ;;
      ret node
  | None =>
      match ar_relay_sn req with
      | Some relay_sn =>
          let* node := get_relay_node_by_sn relay_sn in
          let* node := lift (some_or node (sn_err EcNotFound "relay node not found")) in
          lift (check_assignable_node node) ;;
          ret node
      | None =>
          let* sticky := sticky_node req in
          match sticky with
          | Some node => ret node
          | None =>
              let* node := query_rows (select_least_loaded (ar_region req)) in
              lift (some_or node (sn_err EcNotFound "no active relay node is available"))
          end
      end
  end.

Definition lookup_geo_for_allocation (source_ip : option IpAddr) : T (option GeoIpInfo) :=
  match source_ip with
  | None => ret None
  | Some ip =>
      if negb (is_public_source_ip ip) then ret None
      else match rm_geo_ip_resolver self with
           | None => ret None
           | Some lookup =>
               let* r := (atomic (fun w => (SOk (lookup (w_ticks w) ip),
                 mkWorld (w_db w) (w_metrics w) (S (w_ticks w)) (w_locks w) (w_devices w)))
                 : T (SnResult (option GeoIpInfo))) in
               match r with
               | SOk info => ret info
               | SErr _ => count count_geoip_failure ;; ret None
               end
           end
  end.

(** The first rule that some active node satisfies, with the first such node. *)
Fixpoint first_match (rules : list RelayMatchRule) (preferred_region : option string)
    (geo : option GeoIpInfo) (nodes : list RelayNode) : option RelaySelection :=
  match rules with
  | [] => None
  | rule :: rules' =>
      match rule_value rule preferred_region geo with
      | None => first_match rules' preferred_region geo nodes
      | Some value =>
          match List.find (fun node => node_matches_rule node rule value) nodes with
          | Some node => Some (mkSelection node (match_rule_str rule) false)
          | None => first_match rules' preferred_region geo nodes
          end
      end
  end.

Definition fallback_allows (config : RelayAllocationConfig) (node : RelayNode) : bool :=
  existsb (fun relay => String.eqb (trim relay) "*") (fallback_relays config)
  || existsb (fun relay => String.eqb (trim relay) (rn_relay_id node)
                           || String.eqb (trim relay) (rn_relay_sn node)) (fallback_relays config).

(** The selection among the nodes of the table. *)
Definition select_relay (preferred_region : option string) (geo : option GeoIpInfo)
    (nodes : list RelayNode) : SnResult RelaySelection :=
  let active_nodes := stable_sort load_leb (List.filter is_assignable_node nodes) in
  match first_match (match_rules (rm_allocation_config self)) preferred_region geo active_nodes with
  | Some selection => SOk selection
  | None =>
      match List.find (fallback_allows (rm_allocation_config self)) active_nodes with
      | Some node => SOk (mkSelection node "fallback" true)
      | None => SErr (sn_err EcNotFound "no_relay_available: no matching or fallback relay is healthy")
      end
  end.

Definition choose_automatic_relay (preferred_region : option string) (geo : option GeoIpInfo) :
    T RelaySelection :=
  let* nodes := list_relay_nodes in
  lift (select_relay preferred_region geo nodes).

(** ** Assignments *)

Definition upsert_assignment (a : RelayAssignment) : T unit :=
  let* row := lift (assignment_to_row a) in
  execute (upsert_assignment_row (as_zone a) row).

(** [Option::or]. *)
Definition opt_or {A} (a b : option A) : option A := match a with Some _ => a | None => b end.

(** The assignment that replaces [existing], or the first one of the zone. *)
Definition next_assignment (req : AssignZoneRelayReq) (target : RelayNode) (now : Z)
    (existing : option RelayAssignment) : RelayAssignment :=
  match existing with
  | Some existing =>
      let relay_changed :=
        negb (String.eqb (as_relay_id existing) (rn_relay_id target))
        || negb (String.eqb (as_relay_sn existing) (rn_relay_sn target))
        || negb (bool_decide (as_state existing = RaActive)) in
      {| as_zone := as_zone existing;
         as_relay_id := rn_relay_id target;
         as_relay_sn := rn_relay_sn target;
         as_state := RaActive;
         as_source := ar_source req;
         as_reason := opt_or (ar_reason req) (Some "assign_zone_relay");
         as_generation := if relay_changed then u64_saturating_add (as_generation existing) 1
                          else as_generation existing;
         as_backup_relay_id := opt_or (ar_backup_relay_id req) (as_backup_relay_id existing);
         as_sticky_until := opt_or (ar_sticky_until req) (as_sticky_until existing);
         as_lease_expires_at := opt_or (ar_lease_expires_at req) (as_lease_expires_at existing);
         as_migrated_from := if relay_changed then Some (as_relay_id existing)
                             else as_migrated_from existing;
         as_migration_deadline := None;
         as_source_version := opt_or (ar_source_version req) (as_source_version existing);
         as_created_at := as_created_at existing;
         as_updated_at := now |}
  | None =>
      {| as_zone := ar_zone req;
         as_relay_id := rn_relay_id target;
         as_relay_sn := rn_relay_sn target;
         as_state := RaActive;
         as_source := ar_source req;
         as_reason := opt_or (ar_reason req) (Some "first_assignment");
         as_generation := 1;
         as_backup_relay_id := ar_backup_relay_id req;
         as_sticky_until := ar_sticky_until req;
         as_lease_expires_at := ar_lease_expires_at req;
         as_migrated_from := None;
         as_migration_deadline := None;
         as_source_version := ar_source_version req;
         as_created_at := now;
         as_updated_at := now |}
  end.

Definition assign_zone_relay (req : AssignZoneRelayReq) : T RelayAssignment :=
  lift (validate_assignment_req req) ;;
  let* target := choose_relay_node req in
  let* now := now_secs in
  let* existing := fetch_assignment_for_update (ar_zone req) in
  let assignment := next_assignment req target now existing in
  upsert_assignment assignment ;;
  ret assignment.

(** ** Allocation *)

(** The assignment of the zone while its node can serve. *)
Definition reusable_assignment (zone : string) : T (option RelayAssignment) :=
  let* existing := get_zone_relay zone in
  match existing with
  | None => ret None
  | Some existing =>
      if bool_decide (as_state existing = RaActive) then
        let* node := get_relay_node (as_relay_id existing) in
        match node with
        | Some node => ret (if is_assignable_node node then Some existing else None)
        | None => ret None
        end
      else ret None
  end.

Definition selection_reason (req : AllocateZoneRelayReq) (selection : RelaySelection) : string :=
  trim (al_reason req) +:+ ";rule=" +:+ sel_rule selection.

Definition allocate_zone_relay_inner (req : AllocateZoneRelayReq) : T (RelayAssignment * bool) :=
  lift (check_non_empty (al_zone req) "zone") ;;
  lift (check_non_empty (al_reason req) "reason") ;;
  let* reusable := reusable_assignment (al_zone req) in
  match reusable with
  | Some existing => ret (existing, false)
  | None =>
      let preferred_region := al_preferred_region req ≫= normalize_sn_region_id_hint in
      let* geo := lookup_geo_for_allocation (al_source_ip req) in
      let* selection := choose_automatic_relay preferred_region geo in
      let* assignment := assign_zone_relay
        {| ar_zone := trim (al_zone req);
           ar_relay_id := Some (rn_relay_id (sel_node selection));
           ar_relay_sn := None;
           ar_from_ip := None;
           ar_region := None;
           ar_source := SrcAuto;
           ar_reason := Some (selection_reason req selection);
           ar_sticky_until := None;
           ar_lease_expires_at := None;
           ar_backup_relay_id := None;
           ar_source_version := al_source_version req |} in
      ret (assignment, sel_fallback selection)
  end.

Definition pending_error (e : SnError) : string := code_debug (se_code e) +:+ ": " +:+ se_msg e.

Definition record_pending_allocation (req : AllocateZoneRelayReq) (error : SnError) : T unit :=
  let* now := now_secs in
  let preferred_region := al_preferred_region req ≫= normalize_sn_region_id_hint in
  let* now := lift (to_db_time now "created_at") in
  execute (upsert_pending_row (trim (al_zone req)) preferred_region (trim (al_reason req))
    (al_source_version req) (pending_error error) now).

Definition clear_pending_allocation (zone : string) : T unit := execute (on_pending (delete zone)).

(** Run a task and ignore its error. *)
Definition ignoring {A} (t : T A) : T unit := tbind t (fun _ => ret tt).

Definition zone_lock (zone : string) : string := "sn_relay_allocate_zone_" +:+ trim zone.

(** The body of [allocate_zone_relay] while it holds the lock of the zone. *)
Definition allocate_locked (req : AllocateZoneRelayReq) : T RelayAssignment :=
  tbind (allocate_zone_relay_inner req) (fun r =>
    match r with
    | SOk (assignment, fallback) =>
        count count_success ;;
        (if fallback : bool then count count_fallback else ret tt) ;;
        ignoring (clear_pending_allocation (as_zone assignment)) ;;
        ret assignment
    | SErr error =>
        count count_failure ;;
        ignoring (record_pending_allocation req error) ;;
        throw error
    end).

Definition allocate_zone_relay (req : AllocateZoneRelayReq) : T RelayAssignment :=
  lift (check_non_empty (al_zone req) "zone") ;;
  lift (check_non_empty (al_reason req) "reason") ;;
  count count_attempt ;;
  get_locker (zone_lock (al_zone req)) ;;
  tbind (allocate_locked req) (fun r =>
    drop_locker (zone_lock (al_zone req)) ;;
    lift r).

Fixpoint retry_loop (rows : list (string * PendingRow)) : T unit :=
  match rows with
  | [] => ret tt
  | (zone, row) :: rows' =>
      ignoring (allocate_zone_relay
        {| al_zone := zone; al_preferred_region := pw_preferred_region row; al_source_ip := None;
           al_reason := pw_reason row; al_source_version := pw_source_version row |}) ;;
      retry_loop rows'
  end.

Definition retry_pending_allocations : T unit :=
  let* rows := query pending_rows in
  retry_loop rows.

(** ** Allocation on registration *)

Definition plan_registration_allocation (req : AllocateZoneRelayReq) : T RelaySelection :=
  lift (check_non_empty (al_zone req) "zone") ;;
  lift (check_non_empty (al_reason req) "reason") ;;
  count count_attempt ;;
  let preferred_region := al_preferred_region req ≫= normalize_sn_region_id_hint in
  let* geo := lookup_geo_for_allocation (al_source_ip req) in
  choose_automatic_relay preferred_region geo.

(** A plain [INSERT]: the primary key refuses a zone that has a row. *)
Definition insert_registration_assignment_tx (a : RelayAssignment) : T unit :=
  let* generation := lift (to_db_time (as_generation a) "generation") in
  let* created := lift (to_db_time (as_created_at a) "created_at") in
  let* updated := lift (to_db_time (as_updated_at a) "updated_at") in
  execute_checked (fun t =>
    match t_assignments t !! as_zone a with
    | Some _ => SErr (sn_err EcDBError "insert registration relay assignment failed")
    | None =>
        SOk (tt, on_assignments <[as_zone a :=
          {| aw_relay_id := as_relay_id a; aw_state := as_str (as_state a);
             aw_source := as_str (as_source a); aw_reason := as_reason a;
             aw_generation := generation; aw_backup_relay_id := None; aw_sticky_until := None;
             aw_lease_expires_at := None; aw_migrated_from := None;
             aw_migration_deadline := None; aw_source_version := as_source_version a;
             aw_created_at := created; aw_updated_at := updated |}]> t)
    end).

Definition record_registration_pending_tx (req : AllocateZoneRelayReq) (error : SnError) : T unit :=
  record_pending_allocation req error.

(** The allocation itself: an error of the database ends the transaction, an
    error of the allocation leaves a pending row. *)
Definition registration_assignment (req : AllocateZoneRelayReq) (plan : SnResult RelaySelection) :
    T (SnResult RelayAssignment) :=
  match plan with
  | SErr e => ret (SErr e)
  | SOk plan =>
      let id := rn_relay_id (sel_node plan) in
      let* node := query_rows (select_node id) in
      match node with
      | None => ret (SErr (sn_err EcNotFound ("planned relay node " +:+ id +:+ " no longer exists")))
      | Some node =>
          if is_assignable_node node then
            let* now := now_secs in
            let assignment :=
              {| as_zone := trim (al_zone req); as_relay_id := rn_relay_id node;
                 as_relay_sn := rn_relay_sn node; as_state := RaActive; as_source := SrcAuto;
                 as_reason := Some (selection_reason req plan);
                 as_generation := 1; as_backup_relay_id := None; as_sticky_until := None;
                 as_lease_expires_at := None; as_migrated_from := None;
                 as_migration_deadline := None; as_source_version := al_source_version req;
                 as_created_at := now; as_updated_at := now |} in
            insert_registration_assignment_tx assignment ;;
            clear_pending_allocation (as_zone assignment) ;;
            count count_success ;;
            (if sel_fallback plan then count count_fallback else ret tt) ;;
            ret (SOk assignment)
          else
            ret (SErr (sn_err EcConflict ("planned relay node " +:+ rn_relay_id node +:+
                   " became unavailable: " +:+ as_str (rn_status node))))
      end
  end.

Definition commit_registration_allocation (req : AllocateZoneRelayReq) (plan : SnResult RelaySelection) :
    T (SnResult RelayAssignment) :=
  let* allocation := registration_assignment req plan in
  match allocation with
  | SOk assignment => ret (SOk assignment)
  | SErr error =>
      record_registration_pending_tx req error ;;
      count count_failure ;;
      ret (SErr error)
  end.

(** ** Nodes *)

Definition ensure_relay_sn_unique (relay_id relay_sn : string) : T unit :=
  let* row := query (fun t =>
    List.find (fun '(_, row) => String.eqb (nr_relay_sn row) relay_sn) (node_rows t)) in
  lift (match row with
        | Some (existing_relay_id, _) =>
            refuse_if (negb (String.eqb existing_relay_id relay_id))
              (sn_err EcConflict ("relay_sn " +:+ relay_sn +:+ " already belongs to " +:+ existing_relay_id))
        | None => SOk tt
        end).

(** The row a registration writes. *)
Definition registration_row (node : RelayNodeRegistration) (status : RelayNodeStatus) (now : Z) : NodeRow :=
  {| nr_relay_sn := rg_relay_sn node;
     nr_public_host := rg_public_host node;
     nr_http_endpoint := normalize_optional_text (rg_http_endpoint node);
     nr_rtcp_endpoint := normalize_optional_text (rg_rtcp_endpoint node);
     nr_region := normalize_optional_text (rg_region node);
     nr_isp := normalize_optional_text (rg_isp node);
     nr_tags := Some (json_of_strings (normalize_label_vec (rg_tags node)));
     nr_capabilities := Some (json_of_strings (normalize_capability_vec (rg_capabilities node)));
     nr_status := as_str status;
     nr_capacity_score := default DEFAULT_CAPACITY_SCORE (rg_capacity_score node);
     nr_current_load := 0;
     nr_last_heartbeat_at := None;
     nr_drain_until := None;
     nr_created_at := now;
     nr_updated_at := now |}.

Definition registration_tx (node : RelayNodeRegistration) (status : RelayNodeStatus) (now : Z) : T unit :=
  let* now := lift (to_db_time now "created_at") in
  execute_checked (fun t =>
    if relay_sn_taken (rg_relay_id node) (rg_relay_sn node) t
    then SErr (sn_err EcDBError "upsert relay node failed")
    else SOk (tt, upsert_node_row (rg_relay_id node) (registration_row node status now) t)) ;;
  execute (upsert_address_row (rg_relay_id node) 0 (rg_ips node).1 now) ;;
  execute (upsert_address_row (rg_relay_id node) 1 (rg_ips node).2 now) ;;
  execute bump_node_map_revision.

(** The status a registration gives the node. *)
Definition registration_status (node : RelayNodeRegistration) (existing : option RelayNodeStatus) :
    RelayNodeStatus :=
  match rg_status node with
  | Some status => status
  | None =>
      match existing with
      | Some RnDraining => RnDraining
      | Some RnDisabled => RnDisabled
      | _ => RnActive
      end
  end.

Definition register_relay_node (node : RelayNodeRegistration) : T RelayNode :=
  lift (validate_registration node) ;;
  ensure_relay_sn_unique (rg_relay_id node) (rg_relay_sn node) ;;
  let* now := now_secs in
  let* existing_status := query_rows (fun t =>
    opt_mapS (fun row => parse_db_enum (nr_status row) "relay status") (t_nodes t !! rg_relay_id node)) in
  lift (refuse_if (bool_decide (existing_status = Some RnDeleted))
    (sn_err EcConflict "deleted relay node cannot be registered")) ;;
  let status := registration_status node existing_status in
  transaction (registration_tx node status now) ;;
  let* stored := get_relay_node (rg_relay_id node) in
  let* stored := lift (some_or stored (sn_err EcNotFound "relay node not found after upsert")) in
  (if bool_decide (status = RnActive) then retry_pending_allocations else ret tt) ;;
  ret stored.

Definition heartbeat_status (heartbeat : RelayHeartbeat) (existing : RelayNodeStatus) : RelayNodeStatus :=
  match hb_status heartbeat with
  | Some status => status
  | None => match existing with RnUnhealthy => RnActive | status => status end
  end.

Definition heartbeat_tx (heartbeat : RelayHeartbeat) (status : RelayNodeStatus) (load capacity : Z)
    (now : Z) (drain_until : option Z) (status_changed : bool) : T unit :=
  let* now := lift (to_db_time now "last_heartbeat_at") in
  let* drain_until := lift (to_db_time_opt drain_until "drain_until") in
  execute (heartbeat_row (hb_relay_id heartbeat) status load capacity
    (normalize_optional_text (hb_http_endpoint heartbeat))
    (normalize_optional_text (hb_rtcp_endpoint heartbeat)) now drain_until) ;;
  if status_changed then execute bump_node_map_revision else ret tt.

Definition heartbeat_relay_node (heartbeat : RelayHeartbeat) : T RelayNodeHealth :=
  lift (check_non_empty (hb_relay_id heartbeat) "relay_id") ;;
  let* existing := get_relay_node (hb_relay_id heartbeat) in
  let* existing := lift (some_or existing (sn_err EcNotFound "relay node not found")) in
  lift (refuse_if (bool_decide (rn_status existing = RnDeleted))
    (sn_err EcConflict "deleted relay node cannot heartbeat")) ;;
  let* now := now_secs in
  let status := heartbeat_status heartbeat (rn_status existing) in
  let current_load := default (rn_current_load existing) (hb_current_load heartbeat) in
  let capacity_score := default (rn_capacity_score existing) (hb_capacity_score heartbeat) in
  lift (refuse_if ((capacity_score <=? 0) || (current_load <? 0))
    (sn_err EcInvalidInput "capacity_score must be positive and current_load must be non-negative")) ;;
  let drain_until :=
    if bool_decide (status = RnDraining)
    then opt_or (hb_drain_until heartbeat) (rn_drain_until existing)
    else hb_drain_until heartbeat in
  transaction (heartbeat_tx heartbeat status current_load capacity_score now drain_until
    (negb (bool_decide (status = rn_status existing)))) ;;
  (if bool_decide (status = RnActive) && negb (bool_decide (rn_status existing = RnActive))
   then retry_pending_allocations else ret tt) ;;
  ret {| rh_relay_id := hb_relay_id heartbeat; rh_status := status;
         rh_capacity_score := capacity_score; rh_current_load := current_load;
         rh_last_heartbeat_at := now; rh_drain_until := drain_until; rh_updated_at := now |}.

Definition address_tx (update : RelayNodeAddressUpdate) (now : Z) : T unit :=
  let* now := lift (to_db_time now "updated_at") in
  execute (update_address_row (au_relay_id update) 0 (au_ips update).1 now) ;;
  execute (update_address_row (au_relay_id update) 1 (au_ips update).2 now) ;;
  execute (touch_node_row (au_relay_id update) now) ;;
  execute bump_node_map_revision.

Definition update_relay_node_addresses (update : RelayNodeAddressUpdate) : T RelayNode :=
  lift (check_non_empty (au_relay_id update) "relay_id") ;;
  let* existing := get_relay_node (au_relay_id update) in
  let* existing := lift (some_or existing (sn_err EcNotFound "relay node not found")) in
  lift (refuse_if (bool_decide (rn_status existing = RnDeleted))
    (sn_err EcConflict "deleted relay node addresses cannot be updated")) ;;
  if bool_decide (rn_ips existing = au_ips update) then ret existing
  else
    let* now := now_secs in
    transaction (address_tx update now) ;;
    let* stored := get_relay_node (au_relay_id update) in
    lift (some_or stored (sn_err EcNotFound "relay node not found after update")).

(** ** Admission *)

Definition not_blocked (device : SnDeviceStateView) : bool :=
  negb (bool_decide (dv_state device = DevBlocked)).

Definition verify_device_binding (req : RelayAdmissionReq) : T bool :=
  if negb (rm_has_device_info_db self) then ret true
  else match aq_did req, aq_device_name req with
  | Some did, Some device_name =>
      let* device := on_devices (get_device_state did) in
      ret (match device with
           | None => false
           | Some d => String.eqb (dv_zone d) (aq_zone req)
                       && String.eqb (dv_device_name d) device_name && not_blocked d
           end)
  | Some did, None =>
      let* device := on_devices (get_device_state did) in
      ret (match device with
           | None => false
           | Some d => String.eqb (dv_zone d) (aq_zone req) && not_blocked d
           end)
  | None, Some device_name =>
      let* device := on_devices (get_device_state_by_name (aq_zone req) device_name) in
      ret (match device with None => false | Some d => not_blocked d end)
  | None, None => ret true
  end.

Definition resolve_assignment_for_admission (req : RelayAdmissionReq) : T (option RelayAssignment) :=
  let* existing := get_zone_relay (aq_zone req) in
  match existing with
  | Some assignment => ret (Some assignment)
  | None =>
      tbind (allocate_zone_relay
        {| al_zone := aq_zone req; al_preferred_region := None;
           al_source_ip := aq_observed_ip req ≫= parse_ip;
           al_reason := "first_keep_tunnel"; al_source_version := None |}) (fun r =>
        match r with
        | SOk assignment => ret (Some assignment)
        | SErr e => if bool_decide (se_code e = EcNotFound) then ret None else throw e
        end)
  end.

Definition record_admission_event (event : RelayAdmissionDecision) : T unit :=
  let* generation := lift (to_db_time_opt (dc_assignment_generation event) "assignment_generation") in
  let* created := lift (to_db_time (dc_created_at event) "created_at") in
  execute (on_events (fun l => l ++ [
    {| ev_request_id := dc_request_id event; ev_relay_id := dc_relay_id event;
       ev_zone := dc_zone event; ev_device_name := dc_device_name event; ev_did := dc_did event;
       ev_decision := as_str (dc_decision event); ev_reason := as_str (dc_reason event);
       ev_expected_relay_sn := dc_expected_relay_sn event;
       ev_assignment_generation := generation;
       ev_observed_ip := dc_observed_ip event; ev_created_at := created |}])).

Definition build_admission_decision (req : RelayAdmissionReq) (decision : RelayAdmissionDecisionKind)
    (reason : RelayAdmissionReason) (expected_relay_sn : option string) (generation : option Z) :
    T RelayAdmissionDecision :=
  let* now := now_secs in
  let result :=
    {| dc_request_id := aq_request_id req; dc_relay_id := aq_relay_id req; dc_zone := aq_zone req;
       dc_device_name := aq_device_name req; dc_did := aq_did req;
       dc_auth_context := aq_auth_context req; dc_decision := decision; dc_reason := reason;
       dc_expected_relay_sn := expected_relay_sn; dc_assignment_generation := generation;
       dc_admission_expires_at :=
         if bool_decide (decision = AdAllow)
         then Some (u64_saturating_add now (rm_admission_ttl_secs self)) else None;
       dc_observed_ip := aq_observed_ip req; dc_created_at := now |} in
  record_admission_event result ;;
  ret result.

Definition check_relay_admission (req : RelayAdmissionReq) : T RelayAdmissionDecision :=
  lift (validate_admission_req req) ;;
  let* assignment := resolve_assignment_for_admission req in
  match assignment with
  | None => build_admission_decision req AdReject RrAssignmentMissing None None
  | Some a =>
      let decide_with decision reason :=
        build_admission_decision req decision reason (Some (as_relay_sn a)) (Some (as_generation a)) in
      if bool_decide (as_state a = RaSuspended) then decide_with AdReject RrZoneSuspended
      else if bool_decide (as_state a = RaDraining) then decide_with AdReject RrRelayDraining
      else if match aq_assignment_generation req with
              | Some generation => negb (generation =? as_generation a)
              | None => false
              end then decide_with AdRedirect RrStaleGeneration
      else
        let* bound := verify_device_binding req in
        if negb bound then decide_with AdReject RrDeviceNotFound
        else if negb (String.eqb (aq_relay_id req) (as_relay_id a)) then
          decide_with AdRedirect
            (if bool_decide (as_state a = RaMigrating) then RrAssignmentMigrating else RrWrongRelay)
        else
          let* node := get_relay_node (aq_relay_id req) in
          match node with
          | None => decide_with AdReject RrRelayUnavailable
          | Some node =>
              match rn_status node with
              | RnActive => build_admission_decision req AdAllow RrOk None (Some (as_generation a))
              | RnDraining => decide_with AdReject RrRelayDraining
              | RnDisabled | RnUnhealthy | RnDeleted => decide_with AdReject RrRelayUnavailable
              end
          end
  end.

(** ** Migration *)

Definition migration_target_req (req : RelayMigrationReq) : AssignZoneRelayReq :=
  {| ar_zone := mg_zone req; ar_relay_id := mg_target_relay_id req;
     ar_relay_sn := mg_target_relay_sn req; ar_from_ip := None; ar_region := None;
     ar_source := SrcMigration; ar_reason := opt_or (mg_reason req) (Some "migration");
     ar_sticky_until := None; ar_lease_expires_at := None; ar_backup_relay_id := None;
     ar_source_version := mg_source_version req |}.

Definition migration_assignment (req : RelayMigrationReq) (target : RelayNode) (now : Z)
    (existing : RelayAssignment) : RelayAssignment :=
  {| as_zone := as_zone existing; as_relay_id := rn_relay_id target;
     as_relay_sn := rn_relay_sn target; as_state := RaMigrating; as_source := SrcMigration;
     as_reason := opt_or (mg_reason req) (Some "migration");
     as_generation := u64_saturating_add (as_generation existing) 1;
     as_backup_relay_id := Some (as_relay_id existing);
     as_sticky_until := as_sticky_until existing;
     as_lease_expires_at := as_lease_expires_at existing;
     as_migrated_from := Some (as_relay_id existing);
     as_migration_deadline :=
       Some (default (u64_saturating_add now DEFAULT_MIGRATION_WINDOW_SECS) (mg_migration_deadline req));
     as_source_version := opt_or (mg_source_version req) (as_source_version existing);
     as_created_at := as_created_at existing;
     as_updated_at := now |}.

Definition start_relay_migration (req : RelayMigrationReq) : T RelayAssignment :=
  lift (check_non_empty (mg_zone req) "zone") ;;
  let* target := choose_relay_node (migration_target_req req) in
  let* existing := get_zone_relay (mg_zone req) in
  let* existing := lift (some_or existing (sn_err EcNotFound "relay assignment not found")) in
  lift (refuse_if (String.eqb (as_relay_id existing) (rn_relay_id target))
    (sn_err EcConflict "target relay is already assigned")) ;;
  let* now := now_secs in
  let assignment := migration_assignment req target now existing in
  upsert_assignment assignment ;;
  ret assignment.

Definition complete_assignment_migration (zone : string) (generation : Z) : T unit :=
  let* now := now_secs in
  let* now := lift (to_db_time now "updated_at") in
  let* generation := lift (to_db_time generation "generation") in
  let* affected := execute_checked (fun t => SOk (complete_migration_row zone generation now t)) in
  lift (refuse_if (negb affected)
    (sn_err EcConflict "relay assignment migration generation does not match")).

Definition complete_relay_migration (zone : string) (generation : Z) : T unit :=
  lift (check_non_empty zone "zone") ;;
  complete_assignment_migration zone generation.

(** ** Requests *)

Inductive RelayCall : Type :=
| CallRegisterNode (node : RelayNodeRegistration)
| CallHeartbeat (heartbeat : RelayHeartbeat)
| CallUpdateAddresses (update : RelayNodeAddressUpdate)
| CallGetNode (relay_id : string)
| CallListNodes
| CallIpMap (if_revision : option Z)
| CallAssign (req : AssignZoneRelayReq)
| CallAllocate (req : AllocateZoneRelayReq)
| CallGetZone (zone : string)
| CallAdmission (req : RelayAdmissionReq)
| CallStartMigration (req : RelayMigrationReq)
| CallCompleteMigration (zone : string) (generation : Z).

Inductive RelayReply : Type :=
| ReplyNode (r : SnResult RelayNode)
| ReplyHealth (r : SnResult RelayNodeHealth)
| ReplyOptNode (r : SnResult (option RelayNode))
| ReplyNodes (r : SnResult (list RelayNode))
| ReplyIpMap (r : SnResult (option RelayNodeIpMapSnapshot))
| ReplyAssignment (r : SnResult RelayAssignment)
| ReplyOptAssignment (r : SnResult (option RelayAssignment))
| ReplyDecision (r : SnResult RelayAdmissionDecision)
| ReplyUnit (r : SnResult unit).

Definition relay_task (c : RelayCall) : Task World RelayReply :=
  let reply {A} (f : SnResult A -> RelayReply) (t : T A) := tbind t (fun r => Ret (f r)) in
  match c with
  | CallRegisterNode node => reply ReplyNode (register_relay_node node)
  | CallHeartbeat hb => reply ReplyHealth (heartbeat_relay_node hb)
  | CallUpdateAddresses u => reply ReplyNode (update_relay_node_addresses u)
  | CallGetNode id => reply ReplyOptNode (get_relay_node id)
  | CallListNodes => reply ReplyNodes list_relay_nodes
  | CallIpMap r => reply ReplyIpMap (get_relay_nodes_ip_map_snapshot r)
  | CallAssign req => reply ReplyAssignment (assign_zone_relay req)
  | CallAllocate req => reply ReplyAssignment (allocate_zone_relay req)
  | CallGetZone zone => reply ReplyOptAssignment (get_zone_relay zone)
  | CallAdmission req => reply ReplyDecision (check_relay_admission req)
  | CallStartMigration req => reply ReplyAssignment (start_relay_migration req)
  | CallCompleteMigration zone g => reply ReplyUnit (complete_relay_migration zone g)
  end.
End relay.
