(* ===== verification/RelaySafe.v ===== *)
(** * Relay manager: what holds under every interleaving

    The invariant of the relay tables, that every action of every request keeps
    it whatever the other requests do in between, and that no request meets a
    row it cannot read. *)

From S2P Require Import Prelude IpAddr Tasks RelayModel RelayStore Relay.

Section rows.
Context `{JsonStrings, !JsonStringsLaws}.

(** ** The invariant *)

Definition node_row_ok (row : NodeRow) : Prop :=
  (exists s : RelayNodeStatus, nr_status row = as_str s) /\
  (exists l, nr_tags row = Some (json_of_strings l)) /\
  (exists l, nr_capabilities row = Some (json_of_strings l)) /\
  0 < nr_capacity_score row /\ 0 <= nr_current_load row.

Definition assignment_row_ok (row : AssignmentRow) : Prop :=
  exists (st : RelayAssignmentState) (src : RelayAssignmentSource),
    aw_state row = as_str st /\ aw_source row = as_str src /\
    1 <= aw_generation row /\
    (st = RaMigrating -> is_Some (aw_migration_deadline row) /\ is_Some (aw_migrated_from row)).

Record tables_wf (t : Tables) : Prop := mkTablesWf {
  tw_nodes id row : t_nodes t !! id = Some row -> node_row_ok row /\ is_empty (trim id) = false;
  tw_addresses k a : t_addresses t !! k = Some a ->
    exists ip, ip_wf ip /\ ad_ip a = ip_to_string ip;
  tw_both id slot : is_Some (t_nodes t !! id) -> (slot < 2)%nat -> is_Some (t_addresses t !! (id, slot));
  tw_unique id1 id2 r1 r2 : t_nodes t !! id1 = Some r1 -> t_nodes t !! id2 = Some r2 ->
    nr_relay_sn r1 = nr_relay_sn r2 -> id1 = id2;
  tw_assignments zone row : t_assignments t !! zone = Some row ->
    assignment_row_ok row /\ is_Some (t_nodes t !! aw_relay_id row)
}.

(** ** Rows are readable *)

Lemma parse_enum_ok {A} `{StringEnumLaws A} (a : A) v field :
  v = as_str a -> parse_db_enum v field = SOk a.
Proof. intros ->. unfold parse_db_enum. by rewrite from_as_str. Qed.

Lemma parse_json_ok l field : parse_json_string_vec (Some (json_of_strings l)) field = SOk l.
Proof. unfold parse_json_string_vec. by rewrite json_not_blank, json_round_trip. Qed.

Lemma parse_stored_ip_ok ip slot : ip_wf ip -> parse_stored_ip (Some (ip_to_string ip)) slot = SOk ip.
Proof. intros Hip. unfold parse_stored_ip. simpl. rewrite ip_round_trip by done. simpl.
  by rewrite String.eqb_refl.
Qed.

Lemma stored_ip_ok t id slot :
  tables_wf t -> is_Some (t_nodes t !! id) -> (slot < 2)%nat ->
  exists ip, ip_wf ip /\ stored_ip t id slot = Some (ip_to_string ip) /\
    parse_stored_ip (stored_ip t id slot) slot = SOk ip.
Proof.
  intros Hwf Hid Hs. destruct (tw_both t Hwf id slot Hid Hs) as [a Ha].
  destruct (tw_addresses t Hwf _ a Ha) as (ip & Hip & He). exists ip. unfold stored_ip. rewrite Ha. simpl.
  rewrite He. split_and!; [done|done|by apply parse_stored_ip_ok].
Qed.

(** What a node read from the tables has in common with its row. *)
Definition reads_as (t : Tables) (id : string) (row : NodeRow) (node : RelayNode) : Prop :=
  rn_relay_id node = id /\ rn_relay_sn node = nr_relay_sn row /\ as_str (rn_status node) = nr_status row /\
  rn_capacity_score node = nr_capacity_score row /\ rn_current_load node = nr_current_load row /\
  ip_wf (rn_ips node).1 /\ ip_wf (rn_ips node).2 /\
  stored_ip t id 0 = Some (ip_to_string (rn_ips node).1) /\
  stored_ip t id 1 = Some (ip_to_string (rn_ips node).2).

Lemma read_node_ok t id row :
  tables_wf t -> t_nodes t !! id = Some row -> exists node, read_node t id row = SOk node /\ reads_as t id row node.
Proof.
  intros Hwf Hrow. destruct (tw_nodes t Hwf id row Hrow) as [((s & Hs) & (tg & Ht) & (cp & Hc) & _) _].
  assert (Hid : is_Some (t_nodes t !! id)) by eauto.
  destruct (stored_ip_ok t id 0 Hwf Hid) as (ip0 & Hw0 & He0 & Hp0); [lia|].
  destruct (stored_ip_ok t id 1 Hwf Hid) as (ip1 & Hw1 & He1 & Hp1); [lia|].
  unfold read_node, relay_node_from_row. rewrite Hp0, Hp1. simpl. rewrite Ht, Hc, !parse_json_ok. simpl.
  rewrite (parse_enum_ok s) by done. simpl. eexists. split; [done|].
  repeat split; simpl; auto.
Qed.

Lemma select_node_ok t id :
  tables_wf t ->
  match t_nodes t !! id with
  | None => select_node id t = SOk None
  | Some row => exists node, select_node id t = SOk (Some node) /\ reads_as t id row node
  end.
Proof.
  intros Hwf. unfold select_node. destruct (t_nodes t !! id) as [row|] eqn:E; simpl; [|done].
  destruct (read_node_ok t id row Hwf E) as (node & -> & Hr). by exists node.
Qed.

Lemma mapS_ok {A B} (f : A -> SnResult B) (R : A -> B -> Prop) l :
  (forall a, a ∈ l -> exists b, f a = SOk b /\ R a b) -> exists bs, mapS f l = SOk bs /\ Forall2 R l bs.
Proof.
  induction l as [|a l IH]; intros Hf; simpl.
  - exists []. split; [done|constructor].
  - destruct (Hf a) as (b & Hb & HR); [by left|].
    destruct IH as (bs & Hbs & HF); [intros x Hx; apply Hf; by right|].
    exists (b :: bs). rewrite Hb. simpl. rewrite Hbs. split; [done|by constructor].
Qed.

Lemma node_rows_elem t id row : (id, row) ∈ node_rows t <-> t_nodes t !! id = Some row.
Proof. unfold node_rows. rewrite stable_sort_Permutation. apply elem_of_map_to_list. Qed.

Lemma find_Some {A} (P : A -> bool) l a : List.find P l = Some a -> a ∈ l /\ P a = true.
Proof. intros Hf%List.find_some. by rewrite list_elem_of_In. Qed.

Lemma select_all_nodes_ok t :
  tables_wf t -> exists nodes, select_all_nodes t = SOk nodes /\
    Forall2 (fun p node => t_nodes t !! p.1 = Some p.2 /\ reads_as t p.1 p.2 node) (node_rows t) nodes.
Proof.
  intros Hwf. apply mapS_ok. intros [id row] Hin%node_rows_elem.
  destruct (read_node_ok t id row Hwf Hin) as (node & Hn & Hr). exists node. auto.
Qed.

Lemma select_node_by_sn_ok t sn :
  tables_wf t ->
  select_node_by_sn sn t = SOk None \/
  exists id row node, t_nodes t !! id = Some row /\ nr_relay_sn row = sn /\
    select_node_by_sn sn t = SOk (Some node) /\ reads_as t id row node.
Proof.
  intros Hwf. unfold select_node_by_sn.
  destruct (List.find _ _) as [[id row]|] eqn:E; simpl; [right|by left].
  apply find_Some in E as [Hin%node_rows_elem He%String.eqb_eq].
  destruct (read_node_ok t id row Hwf Hin) as (node & Hn & Hr). exists id, row, node. by rewrite Hn.
Qed.

Lemma least_loaded_row_elem `{SqlNumbers} region t id row :
  least_loaded_row region t = Some (id, row) -> t_nodes t !! id = Some row /\ nr_status row = as_str RnActive.
Proof.
  unfold least_loaded_row. intros Hh. destruct (stable_sort _ _) as [|x l] eqn:E; [done|]. simplify_eq/=.
  assert (Hin : (id, row) ∈ (id, row) :: l) by left. rewrite <- E, stable_sort_Permutation in Hin.
  apply list_elem_of_In, filter_In in Hin as [Hin He]. apply list_elem_of_In, node_rows_elem in Hin.
  split; [done|]. by apply String.eqb_eq in He.
Qed.

Lemma select_least_loaded_ok `{SqlNumbers} region t :
  tables_wf t ->
  select_least_loaded region t = SOk None \/
  exists id row node, t_nodes t !! id = Some row /\ nr_status row = as_str RnActive /\
    select_least_loaded region t = SOk (Some node) /\ reads_as t id row node.
Proof.
  intros Hwf. unfold select_least_loaded.
  destruct (least_loaded_row region t) as [[id row]|] eqn:E; simpl; [right|by left].
  apply least_loaded_row_elem in E as [Hin He].
  destruct (read_node_ok t id row Hwf Hin) as (node & Hn & Hr). exists id, row, node. by rewrite Hn.
Qed.

(** What an assignment read from the tables has in common with its row. *)
Definition reads_as_assignment (t : Tables) (zone : string) (row : AssignmentRow) (a : RelayAssignment) : Prop :=
  as_zone a = zone /\ as_relay_id a = aw_relay_id row /\
  nr_relay_sn <$> t_nodes t !! aw_relay_id row = Some (as_relay_sn a) /\
  as_str (as_state a) = aw_state row /\ as_str (as_source a) = aw_source row /\
  as_generation a = aw_generation row /\ 1 <= as_generation a /\
  as_created_at a = i64_to_u64 (aw_created_at row) /\
  as_sticky_until a = opt_to_u64 (aw_sticky_until row) /\
  as_lease_expires_at a = opt_to_u64 (aw_lease_expires_at row).

Lemma select_assignment_ok t zone :
  tables_wf t ->
  match t_assignments t !! zone with
  | None => select_assignment zone t = SOk None
  | Some row => exists a, select_assignment zone t = SOk (Some a) /\ reads_as_assignment t zone row a
  end.
Proof.
  intros Hwf. unfold select_assignment. destruct (t_assignments t !! zone) as [row|] eqn:E; [|done].
  destruct (tw_assignments t Hwf zone row E) as [(st & src & Hst & Hsrc & Hg & _) [node Hn]].
  rewrite Hn. unfold relay_assignment_from_row.
  rewrite (parse_enum_ok st), (parse_enum_ok src) by done. simpl.
  eexists. split; [done|]. unfold reads_as_assignment. rewrite Hn. simpl.
  unfold i64_to_u64. destruct (Z.ltb_spec (aw_generation row) 0); [lia|]. repeat split; auto.
Qed.

Lemma ip_entry_ok t id row :
  tables_wf t -> t_nodes t !! id = Some row ->
  exists e, ip_entry t id row = SOk e /\ ie_relay_id e = id /\ ie_relay_sn e = nr_relay_sn row /\
    as_str (ie_status e) = nr_status row /\
    stored_ip t id 0 = Some (ip_to_string (ie_ips e).1) /\
    stored_ip t id 1 = Some (ip_to_string (ie_ips e).2).
Proof.
  intros Hwf Hrow. destruct (tw_nodes t Hwf id row Hrow) as [((s & Hs) & _) _].
  assert (Hid : is_Some (t_nodes t !! id)) by eauto.
  destruct (tw_both t Hwf id 0 Hid) as [a0 Ha0]; [lia|]. destruct (tw_both t Hwf id 1 Hid) as [a1 Ha1]; [lia|].
  destruct (tw_addresses t Hwf _ a0 Ha0) as (ip0 & Hi0 & He0).
  destruct (tw_addresses t Hwf _ a1 Ha1) as (ip1 & Hi1 & He1).
  unfold ip_entry, stored_ip. rewrite Ha0, Ha1, He0, He1. rewrite !parse_stored_ip_ok by done. simpl.
  rewrite (parse_enum_ok s) by done. eexists. split; [done|]. simpl. rewrite He0, He1. auto.
Qed.
End rows.

(** ** Statements keep the invariant *)

Definition nodes_grow (t t' : Tables) : Prop :=
  forall id, is_Some (t_nodes t !! id) -> is_Some (t_nodes t' !! id).

Section statements.
Context `{JsonStrings, !JsonStringsLaws}.

Lemma wf_same_rows t t' :
  t_nodes t' = t_nodes t -> t_addresses t' = t_addresses t -> t_assignments t' = t_assignments t ->
  tables_wf t -> tables_wf t'.
Proof. intros Hn Ha Hs [? ? ? ? ?]. constructor; rewrite ?Hn, ?Ha, ?Hs; auto. Qed.

Lemma upsert_assignment_lookup zone new t :
  exists row, t_assignments (upsert_assignment_row zone new t) = <[zone := row]> (t_assignments t) /\
    aw_relay_id row = aw_relay_id new /\ aw_generation row = aw_generation new /\
    aw_state row = aw_state new /\ (assignment_row_ok new -> assignment_row_ok row).
Proof.
  unfold upsert_assignment_row. destruct (t_assignments t !! zone); simpl; eexists; split_and!; done.
Qed.

Lemma wf_upsert_assignment zone new t :
  tables_wf t -> assignment_row_ok new -> is_Some (t_nodes t !! aw_relay_id new) ->
  tables_wf (upsert_assignment_row zone new t).
Proof.
  intros Hwf Hnew Hnode. destruct (upsert_assignment_lookup zone new t) as (row & He & Hr & _ & _ & Hok).
  destruct Hwf as [? ? ? ? Hasg]. constructor; try done. intros z r. rewrite He. simpl.
  intros [[<- <-]|[_ Hz]]%lookup_insert_Some; [|by apply (Hasg z)]. rewrite Hr. auto.
Qed.

Lemma wf_insert_assignment zone new t :
  tables_wf t -> assignment_row_ok new -> is_Some (t_nodes t !! aw_relay_id new) ->
  tables_wf (on_assignments <[zone := new]> t).
Proof.
  intros [? ? ? ? Hasg] Hnew Hnode. constructor; try done. intros z r. simpl.
  intros [[<- <-]|[_ Hz]]%lookup_insert_Some; [done|by apply (Hasg z)].
Qed.

Lemma wf_complete_migration zone g now t : tables_wf t -> tables_wf (complete_migration_row zone g now t).2.
Proof.
  intros Hwf. unfold complete_migration_row. destruct (t_assignments t !! zone) as [r|] eqn:E; [|done].
  destruct (_ && _); [|done]. simpl. destruct (tw_assignments t Hwf zone r E) as [(st & src & ? & ? & ? & _) Hn].
  apply wf_insert_assignment; [done| |done]. exists RaActive, src. split_and!; done.
Qed.

(** A change of node rows that keeps what the invariant reads. *)
Lemma wf_alter_node f id t :
  tables_wf t -> (forall row, node_row_ok row -> node_row_ok (f row)) ->
  (forall row, nr_relay_sn (f row) = nr_relay_sn row) -> tables_wf (on_nodes (alter f id) t).
Proof.
  intros [Hn ? Hb Hu Hasg] Hf Hsn.
  assert (Hlk : forall i r, alter f id (t_nodes t) !! i = Some r ->
    exists r0, t_nodes t !! i = Some r0 /\ nr_relay_sn r = nr_relay_sn r0 /\ (node_row_ok r0 -> node_row_ok r)).
  { intros i r. rewrite lookup_alter_Some. intros [(-> & r0 & Hr0 & ->)|[_ Hr]]; eauto. }
  assert (Hex : forall i, is_Some (alter f id (t_nodes t) !! i) <-> is_Some (t_nodes t !! i)).
  { intros i. destruct (decide (id = i)) as [->|]; [rewrite lookup_alter_eq, fmap_is_Some; done|].
    by rewrite lookup_alter_ne. }
  constructor; simpl; try done.
  - intros i r (r0 & Hr0 & _ & Hok)%Hlk. destruct (Hn i r0 Hr0). auto.
  - intros i slot Hi. apply Hb. by apply Hex.
  - intros i1 i2 r1 r2 (r1' & H1 & E1 & _)%Hlk (r2' & H2 & E2 & _)%Hlk E.
    apply (Hu i1 i2 r1' r2' H1 H2). congruence.
  - intros z r Hr. destruct (Hasg z r Hr). split; [done|]. by apply Hex.
Qed.

Lemma wf_heartbeat id status load capacity http rtcp now drain t :
  tables_wf t -> 0 < capacity -> 0 <= load ->
  tables_wf (heartbeat_row id status load capacity http rtcp now drain t).
Proof.
  intros Hwf Hc Hl. apply wf_alter_node; [done| |done].
  intros row (_ & Ht & Hp & _). unfold node_row_ok. simpl. split_and!; eauto.
Qed.

Lemma wf_touch id now t : tables_wf t -> tables_wf (touch_node_row id now t).
Proof. intros Hwf. by apply wf_alter_node. Qed.

Lemma wf_update_address id slot ip now t :
  tables_wf t -> ip_wf ip -> tables_wf (update_address_row id slot ip now t).
Proof.
  intros [? Ha Hb ? ?] Hip. constructor; simpl; try done.
  - intros k a. rewrite lookup_alter_Some. intros [(_ & a0 & Hr0 & ->)|[_ Hr]]; eauto.
  - intros i s Hi Hs. destruct (decide ((id, slot) = (i, s))) as [Heq|].
    + simplify_eq. rewrite lookup_alter_eq, fmap_is_Some. by apply Hb.
    + rewrite lookup_alter_ne by done. by apply Hb.
Qed.

(** The three writes of a registration together. *)
Definition register_rows (id : string) (row : NodeRow) (ips : IpAddr * IpAddr) (now : Z) (t : Tables) : Tables :=
  upsert_address_row id 1 ips.2 now (upsert_address_row id 0 ips.1 now (upsert_node_row id row t)).

Lemma upsert_node_lookup id new t :
  exists row, t_nodes (upsert_node_row id new t) = <[id := row]> (t_nodes t) /\
    nr_relay_sn row = nr_relay_sn new /\ nr_status row = nr_status new /\
    (node_row_ok new -> (forall old, t_nodes t !! id = Some old -> 0 <= nr_current_load old) -> node_row_ok row).
Proof.
  unfold upsert_node_row. destruct (t_nodes t !! id) as [old|]; simpl; eexists; split_and!; try done.
  intros (? & ? & ? & ? & _) Hold. unfold node_row_ok. simpl. split_and!; auto.
Qed.

Lemma relay_sn_taken_false id sn t i row :
  relay_sn_taken id sn t = false -> t_nodes t !! i = Some row -> nr_relay_sn row = sn -> i = id.
Proof.
  intros Ht Hi Hs. destruct (decide (i = id)) as [|Hne]; [done|]. exfalso.
  assert (relay_sn_taken id sn t = true); [|congruence].
  apply existsb_exists. exists (i, row). split; [by apply list_elem_of_In, node_rows_elem|].
  rewrite Hs, String.eqb_refl, andb_true_r. apply negb_true_iff. by apply String.eqb_neq.
Qed.

Lemma wf_register id row ips now t :
  tables_wf t -> node_row_ok row -> is_empty (trim id) = false -> ip_wf ips.1 -> ip_wf ips.2 ->
  relay_sn_taken id (nr_relay_sn row) t = false -> tables_wf (register_rows id row ips now t).
Proof.
  intros Hwf Hrow Hid Hip1 Hip2 Hfree.
  destruct (upsert_node_lookup id row t) as (row' & He & Hsn & _ & Hok).
  destruct Hwf as [Hn Ha Hb Hu Hasg].
  assert (Hrow' : node_row_ok row').
  { apply Hok; [done|]. intros old Hold. destruct (Hn id old Hold) as [(_ & _ & _ & _ & ?) _]. done. }
  assert (Hfresh : forall i r, t_nodes t !! i = Some r -> nr_relay_sn r = nr_relay_sn row -> i = id).
  { intros i r Hi Hr. by apply (relay_sn_taken_false id (nr_relay_sn row) t i r). }
  assert (Hnodes : t_nodes (register_rows id row ips now t) = <[id := row']> (t_nodes t)) by exact He.
  assert (Haddr : exists a0 a1, ad_ip a0 = ip_to_string ips.1 /\ ad_ip a1 = ip_to_string ips.2 /\
    t_addresses (register_rows id row ips now t) =
      <[(id, 1%nat) := a1]> (<[(id, 0%nat) := a0]> (t_addresses t))).
  { eexists _, _. split_and!; [| |reflexivity]; done. }
  destruct Haddr as (a0 & a1 & Ha0 & Ha1 & Haddr).
  constructor; rewrite ?Hnodes, ?Haddr.
  - intros i r [[<- <-]|[_ Hi]]%lookup_insert_Some; [done|]. by apply (Hn i).
  - intros k a [[_ <-]|[_ Hk]]%lookup_insert_Some; [by exists ips.2|].
    apply lookup_insert_Some in Hk as [[_ <-]|[_ Hk]]; [by exists ips.1|]. by apply (Ha k).
  - intros i slot Hi Hs. destruct (decide (i = id)) as [->|Hne].
    + destruct slot as [|[|]]; [|by rewrite lookup_insert_eq|lia].
      rewrite lookup_insert_ne by (intros [=]). by rewrite lookup_insert_eq.
    + rewrite !lookup_insert_ne by (intros [=]; congruence). apply Hb; [|done].
      rewrite lookup_insert_ne in Hi; done.
  - intros i1 i2 r1 r2 H1 H2 E.
    apply lookup_insert_Some in H1 as [[<- <-]|[Hne1 H1]];
      apply lookup_insert_Some in H2 as [[<- <-]|[Hne2 H2]]; [done| | |by eapply Hu].
    + symmetry. apply (Hfresh i2 r2); congruence.
    + apply (Hfresh i1 r1); congruence.
  - intros z r Hr. destruct (Hasg z r Hr) as [? Hnode]. split; [done|].
    apply lookup_insert_is_Some'. by right.
Qed.

Lemma register_rows_grow id row ips now t : nodes_grow t (register_rows id row ips now t).
Proof.
  intros i Hi. simpl. unfold upsert_node_row. apply lookup_insert_is_Some'. by right.
Qed.

Lemma alter_nodes_grow f id t : nodes_grow t (on_nodes (alter f id) t).
Proof.
  intros i Hi. simpl. destruct (decide (id = i)) as [->|]; [rewrite lookup_alter_eq, fmap_is_Some; done|].
  by rewrite lookup_alter_ne.
Qed.

Lemma complete_nodes zone g now t : t_nodes (complete_migration_row zone g now t).2 = t_nodes t.
Proof. unfold complete_migration_row. destruct (t_assignments t !! zone); [|done]. by destruct (_ && _). Qed.
End statements.

(** ** Tasks keep the invariant *)

Create HintDb stab.
Create HintDb relay.

Section tasks.
Context `{NamedLocker, DeviceInfoDB, Clock, JsonStrings, !JsonStringsLaws, SqlNumbers, CharTables}.

Definition Inv (w : World) : Prop := tables_wf (w_db w).
Definition Grow (w w' : World) : Prop := nodes_grow (w_db w) (w_db w').

Notation stable := (stable Inv Grow).
Notation Safe := (Safe Inv Grow).

Definition known (id : string) (w : World) : Prop := is_Some (t_nodes (w_db w) !! id).

Lemma Grow_refl w : Grow w w.
Proof. by intros id. Qed.

Lemma stable_true : stable (fun _ => True).
Proof. by intros w w'. Qed.
Lemma stable_pure (P : Prop) : stable (fun _ => P).
Proof. by intros w w'. Qed.
Lemma stable_known id : stable (known id).
Proof. intros w w' _ _ HG. apply HG. Qed.
Lemma stable_and (P Q : World -> Prop) : stable P -> stable Q -> stable (fun w => P w /\ Q w).
Proof. intros HP HQ w w' Hw Hw' HG [HPw HQw]. split; [by apply (HP w)|by apply (HQ w)]. Qed.

(** The result of a task: an error of the tables is only possible where it is
    allowed. *)
Definition Good (strict : bool) {A} (P : A -> World -> Prop) (r : SnResult A) (w : World) : Prop :=
  match r with
  | SOk a => P a w
  | SErr e => strict = true -> se_code e <> EcDBError
  end.

Section rules.
Context (strict : bool).

Lemma good_let {A B} (m : T A) (k : A -> T B) K (P : A -> World -> Prop) (Q : B -> World -> Prop) :
  Safe m K (Good strict P) -> (forall a, Safe (k a) (P a) (Good strict Q)) ->
  Safe (bind m k) K (Good strict Q).
Proof.
  intros Hm Hk. eapply Safe_tbind; [exact Hm|]. intros [a|e]; [apply Hk|]. intros w _ He. exact He.
Qed.

Lemma good_ret {A} (a : A) (K : World -> Prop) (P : A -> World -> Prop) :
  (forall w, Inv w -> K w -> P a w) -> Safe (ret a) K (Good strict P).
Proof. intros HP w HI HK. by apply HP. Qed.

Lemma good_lift {A} (r : SnResult A) (K : World -> Prop) (P : A -> World -> Prop) :
  match r with
  | SOk a => forall w, Inv w -> K w -> P a w
  | SErr e => se_code e <> EcDBError
  end -> Safe (lift r) K (Good strict P).
Proof. destruct r; intros Hr w HI HK; [by apply Hr|]. intros _. exact Hr. Qed.

(** A query keeps what was known, and may add a fact that cannot change. *)
Lemma good_query_rows {A} (f : Tables -> SnResult A) (K : World -> Prop) (P : A -> World -> Prop) :
  stable K ->
  (forall t, tables_wf t ->
     match f t with
     | SOk a => exists F : World -> Prop, stable F /\ (forall w, w_db w = t -> F w) /\
                  (forall w, Inv w -> K w -> F w -> P a w)
     | SErr e => se_code e <> EcDBError
     end) ->
  Safe (query_rows f) K (Good strict P).
Proof.
  intros HK Hf. apply Safe_read; [intros w _; apply Grow_refl|]. intros w HI HKw.
  specialize (Hf (w_db w) HI). destruct (f (w_db w)) as [a|e].
  - destruct Hf as (F & HF & HFw & HP). exists (fun w => K w /\ F w). split_and!; [by apply stable_and|done|auto|].
    intros w2 HI2 [??]. by apply HP.
  - exists (fun _ => True). split_and!; [apply stable_true|done|]. intros w2 _ _ _. exact Hf.
Qed.

Lemma good_query {A} (f : Tables -> A) (K : World -> Prop) (P : A -> World -> Prop) :
  stable K -> (forall t, tables_wf t -> forall w, Inv w -> K w -> P (f t) w) -> Safe (query f) K (Good strict P).
Proof.
  intros HK Hf. apply Safe_read; [intros w _; apply Grow_refl|]. intros w HI HKw.
  exists K. split_and!; [done|done|]. intros w2 HI2 HK2. by apply (Hf (w_db w)).
Qed.

(** Anything that does not touch the tables. *)
Lemma good_elsewhere {A} (f : World -> SnResult A * World) (K : World -> Prop) (P : A -> World -> Prop) :
  stable K -> (forall w, w_db (f w).2 = w_db w) ->
  (forall w, Inv w -> match (f w).1 with
                      | SOk a => forall w2, Inv w2 -> K w2 -> P a w2
                      | SErr e => strict = true -> se_code e <> EcDBError
                      end) ->
  Safe (atomic f) K (Good strict P).
Proof.
  intros HK Hdb Hf. apply Safe_atomic. intros w HI HKw.
  assert (HI' : Inv (f w).2) by (unfold Inv; by rewrite Hdb).
  assert (HG : Grow w (f w).2) by (unfold Grow; rewrite Hdb; apply Grow_refl).
  split_and!; [done|done|]. exists K. split_and!; [done|by apply (HK w)|].
  intros w2 HI2 HK2. specialize (Hf w HI). destruct ((f w).1); simpl; [by apply Hf|exact Hf].
Qed.

Lemma good_now K (P : Z -> World -> Prop) :
  stable K -> (forall n w, Inv w -> K w -> P n w) -> Safe now_secs K (Good strict P).
Proof. intros HK HP. apply good_elsewhere; [done|done|]. intros w _ w2. simpl. apply HP. Qed.

Lemma good_count f K (P : unit -> World -> Prop) :
  stable K -> (forall w, Inv w -> K w -> P tt w) -> Safe (count f) K (Good strict P).
Proof. intros HK HP. apply good_elsewhere; [done|done|]. intros w _ w2. simpl. apply HP. Qed.

Lemma good_locker name (K : World -> Prop) :
  stable K -> Safe (get_locker name) K (Good strict (fun _ w => K w)).
Proof.
  intros HK w x w' HI HKw Hact. destruct (lock_held name (w_locks w)); [done|]. simplify_eq.
  assert (HG : Grow w (mkWorld (w_db w) (w_metrics w) (w_ticks w) (lock_name name (w_locks w)) (w_devices w)))
    by (by intros id).
  split_and!; [done|done|]. exists K. split_and!; [done|by apply (HK w)|]. by intros w2.
Qed.

Lemma good_drop_locker name (K : World -> Prop) :
  stable K -> Safe (drop_locker name) K (Good strict (fun _ w => K w)).
Proof. intros HK. apply good_elsewhere; [done|done|]. by intros w _ w2. Qed.

Lemma good_execute f (K : World -> Prop) (P : unit -> World -> Prop) :
  (forall t, tables_wf t -> nodes_grow t (f t)) ->
  (forall w, Inv w -> K w -> tables_wf (f (w_db w))) -> stable K ->
  (forall w, Inv w -> K w -> P tt w) -> Safe (execute f) K (Good strict P).
Proof.
  intros HG Hf HK HP. apply Safe_atomic. intros w HI HKw. simpl.
  assert (HI' : Inv (set_db f w)) by (by apply Hf).
  split_and!; [done|by apply HG|]. exists K. split_and!; [done| |by apply HP].
  apply (HK w); [done|done|by apply HG|done].
Qed.

(** A transaction as one action: what its statements do to the tables. *)
Lemma good_transaction {A} (t : T A) (K : World -> Prop) (P : A -> World -> Prop) :
  stable K ->
  (forall w, Inv w -> K w ->
     match run t w with
     | Some (SOk a, w') => Inv w' /\ Grow w w' /\ (forall w2, Inv w2 -> K w2 -> P a w2)
     | Some (SErr e, _) => strict = true -> se_code e <> EcDBError
     | None => True
     end) ->
  Safe (transaction t) K (Good strict P).
Proof.
  intros HK Ht w x w' HI HKw Hact. specialize (Ht w HI HKw).
  destruct (run t w) as [[[a|e] w1]|]; simplify_eq.
  - destruct Ht as (HI' & HG & HP). split_and!; [done|done|]. exists K. split_and!; [done|by apply (HK w)|].
    intros w2 HI2 HK2. by apply HP.
  - split_and!; [done|by intros id|]. exists (fun _ => True). split_and!; [apply stable_true|done|].
    intros w2 _ _. exact Ht.
Qed.
End rules.
End tasks.
#[export] Hint Resolve stable_true stable_pure stable_known stable_and : stab.
