(* ===== verification/RelayInv.v ===== *)
(** * Relay manager: every request keeps the invariant

    For each operation of the manager, that its actions keep the invariant of
    [RelaySafe] under every interleaving, and how one request runs alone;
    [relay_invariant] is the result for the whole system. *)

From S2P Require Import Prelude IpAddr Tasks RelayModel RelayStore Relay RelaySafe.

(** ** Errors that are not errors of the tables *)

Definition NoDb {A} (r : SnResult A) : Prop :=
  match r with SOk _ => True | SErr e => se_code e <> EcDBError end.

Create HintDb nodb.

Lemma nodb_ok {A} (a : A) : NoDb (SOk a).
Proof. done. Qed.
Lemma nodb_bind {A B} (m : SnResult A) (k : A -> SnResult B) :
  NoDb m -> (forall a, NoDb (k a)) -> NoDb (sbind m k).
Proof. intros Hm Hk. destruct m; [apply Hk|done]. Qed.
Lemma nodb_refuse b c msg : c <> EcDBError -> NoDb (refuse_if b (sn_err c msg)).
Proof. intros Hc. by destruct b. Qed.
Lemma nodb_some_or {A} (o : option A) c msg : c <> EcDBError -> NoDb (some_or o (sn_err c msg)).
Proof. intros Hc. by destruct o. Qed.
Lemma nodb_check v f : NoDb (check_non_empty v f).
Proof. by apply nodb_refuse. Qed.
Lemma nodb_check_opt v f : NoDb (check_non_empty_opt v f).
Proof. destruct v; [apply nodb_check|done]. Qed.
Lemma nodb_time v f : NoDb (to_db_time v f).
Proof. unfold to_db_time. by destruct (_ <? _). Qed.
Lemma nodb_time_opt v f : NoDb (to_db_time_opt v f).
Proof. destruct v; [|done]. unfold to_db_time_opt. apply nodb_bind; [apply nodb_time|done]. Qed.
Lemma nodb_assignable node : NoDb (check_assignable_node node).
Proof. by apply nodb_refuse. Qed.

#[export] Hint Resolve nodb_ok nodb_bind nodb_check nodb_check_opt nodb_time nodb_time_opt nodb_assignable : nodb.
#[export] Hint Extern 1 (NoDb (refuse_if _ _)) => (apply nodb_refuse; discriminate) : nodb.
#[export] Hint Extern 1 (NoDb (some_or _ _)) => (apply nodb_some_or; discriminate) : nodb.

Lemma nodb_validate_registration node : NoDb (validate_registration node).
Proof. unfold validate_registration. destruct (rg_capacity_score node); eauto 10 with nodb. Qed.
Lemma nodb_validate_assignment req : NoDb (validate_assignment_req req).
Proof. unfold validate_assignment_req. eauto 10 with nodb. Qed.
Lemma nodb_validate_admission req : NoDb (validate_admission_req req).
Proof. unfold validate_admission_req. eauto 10 with nodb. Qed.
Lemma nodb_to_row a : NoDb (assignment_to_row a).
Proof. unfold assignment_to_row. eauto 20 with nodb. Qed.
#[export] Hint Resolve nodb_validate_registration nodb_validate_assignment nodb_validate_admission nodb_to_row : nodb.

Section operations.
Context `{NamedLocker, DeviceInfoDB, Clock, JsonStrings, !JsonStringsLaws, SqlNumbers, CharTables}.
Context (self : RelayManager) (strict : bool).

Notation stable := (stable Inv Grow).
Notation Safe := (Safe Inv Grow).
Notation Good := (Good strict).

Lemma good_check {A} (r : SnResult A) K :
  NoDb r -> Safe (lift r) K (Good (fun a w => r = SOk a /\ K w)).
Proof. intros Hr. apply good_lift. destruct r; [|exact Hr]. auto. Qed.

(** A step whose result is not needed. *)
Lemma good_then {A B} (m : T A) (k : T B) K (Q : B -> World -> Prop) :
  Safe m K (Good (fun _ w => K w)) -> Safe k K (Good Q) -> Safe (m ;; k) K (Good Q).
Proof. intros Hm Hk. eapply good_let; [exact Hm|]. by intros a. Qed.

Lemma good_check_seq {A B} (r : SnResult A) (k : T B) K (Q : B -> World -> Prop) :
  NoDb r -> Safe k K (Good Q) -> Safe (lift r ;; k) K (Good Q).
Proof.
  intros Hr Hk. apply good_then; [|done]. apply good_lift. destruct r; [auto|exact Hr].
Qed.

Lemma good_mono {A} (t : T A) K (P Q : A -> World -> Prop) :
  Safe t K (Good P) -> (forall a w, Inv w -> P a w -> Q a w) -> Safe t K (Good Q).
Proof.
  intros Ht HP. eapply Safe_weaken; [exact Ht|done|]. intros [a|e] w HI; simpl; [by apply HP|done].
Qed.

(** ** Reading *)

Definition node_known (node : RelayNode) (w : World) : Prop :=
  known (rn_relay_id node) w /\ 0 < rn_capacity_score node /\ 0 <= rn_current_load node.

Lemma stable_node_known node : stable (node_known node).
Proof. unfold node_known. auto with stab. Qed.
Hint Resolve stable_node_known : stab.

Lemma reads_as_known t id row node w :
  tables_wf t -> t_nodes t !! id = Some row -> reads_as t id row node -> w_db w = t -> node_known node w.
Proof.
  intros Hwf Hrow (Hid & _ & _ & Hc & Hl & _) <-. unfold node_known, known. rewrite Hid, Hrow, Hc, Hl.
  destruct (tw_nodes _ Hwf id row Hrow) as [(_ & _ & _ & ? & ?) _]. eauto.
Qed.

Definition opt_node_known (o : option RelayNode) (w : World) : Prop :=
  match o with Some node => node_known node w | None => True end.

Lemma good_select_node id K :
  stable K -> Safe (query_rows (select_node id)) K
    (Good (fun o w => K w /\ opt_node_known o w /\ match o with Some n => rn_relay_id n = id | None => True end)).
Proof.
  intros HK. apply good_query_rows; [done|]. intros t Hwf. pose proof (select_node_ok t id Hwf) as Hs.
  destruct (t_nodes t !! id) as [row|] eqn:E.
  - destruct Hs as (node & -> & Hr). exists (node_known node). split_and!; [auto with stab| |].
    + intros w. by eapply reads_as_known.
    + intros w _ HKw Hn. split_and!; [done|done|]. by destruct Hr.
  - rewrite Hs. exists (fun _ => True). split_and!; auto with stab.
Qed.

Lemma good_get_relay_node id K :
  stable K -> Safe (get_relay_node id) K
    (Good (fun o w => K w /\ opt_node_known o w /\ match o with Some n => rn_relay_id n = id | None => True end)).
Proof. intros HK. apply good_check_seq; [auto with nodb|]. by apply good_select_node. Qed.

Lemma good_get_relay_node_by_sn sn K :
  stable K -> Safe (get_relay_node_by_sn sn) K (Good (fun o w => K w /\ opt_node_known o w)).
Proof.
  intros HK. apply good_check_seq; [auto with nodb|]. apply good_query_rows; [done|]. intros t Hwf.
  destruct (select_node_by_sn_ok t sn Hwf) as [->|(id & row & node & Hrow & _ & -> & Hr)].
  - exists (fun _ => True). split_and!; auto with stab.
  - exists (node_known node). split_and!; [auto with stab| |auto]. intros w. by eapply reads_as_known.
Qed.

Definition opt_generation_ok (o : option RelayAssignment) : Prop :=
  match o with Some a => 1 <= as_generation a | None => True end.

Lemma good_fetch_assignment zone K :
  stable K -> Safe (fetch_assignment_for_update zone) K (Good (fun o w => K w /\ opt_generation_ok o)).
Proof.
  intros HK. apply good_query_rows; [done|]. intros t Hwf. pose proof (select_assignment_ok t zone Hwf) as Hs.
  destruct (t_assignments t !! zone) as [row|].
  - destruct Hs as (a & -> & Hr). exists (fun _ => True). split_and!; auto with stab.
    intros w _ HKw _. split; [done|]. by destruct Hr as (_ & _ & _ & _ & _ & _ & ? & _).
  - rewrite Hs. exists (fun _ => True). split_and!; auto with stab.
Qed.

Lemma good_get_zone_relay zone K :
  stable K -> Safe (get_zone_relay zone) K (Good (fun o w => K w /\ opt_generation_ok o)).
Proof. intros HK. apply good_check_seq; [auto with nodb|]. by apply good_fetch_assignment. Qed.

Lemma good_list_relay_nodes K :
  stable K -> Safe list_relay_nodes K (Good (fun _ w => K w)).
Proof.
  intros HK. apply good_query_rows; [done|]. intros t Hwf. destruct (select_all_nodes_ok t Hwf) as (nodes & -> & _).
  exists (fun _ => True). split_and!; auto with stab.
Qed.

Lemma good_ip_map if_revision K :
  stable K -> Safe (get_relay_nodes_ip_map_snapshot if_revision) K (Good (fun _ w => K w)).
Proof.
  intros HK. eapply good_let.
  - apply (good_query_rows strict _ K (fun _ w => K w)); [done|]. intros t Hwf. cbv zeta.
    case_bool_decide; [exists (fun _ => True); split_and!; auto with stab|].
    destruct (mapS_ok (fun '(id, row) => ip_entry t id row) (fun _ _ => True)
      (List.filter (fun '(_, row) => negb (String.eqb (nr_status row) (as_str RnDeleted))) (node_rows t)))
      as (es & -> & _).
    + intros [id row] [Hin%list_elem_of_In%node_rows_elem _]%list_elem_of_In%filter_In.
      destruct (ip_entry_ok t id row Hwf Hin) as (e & -> & _). by exists e.
    + simpl. exists (fun _ => True). split_and!; auto with stab.
  - intros [[revision nodes]|]; [|by apply good_ret]. eapply good_let; [apply (good_now strict K (fun _ w => K w)); auto|].
    intros now. by apply good_ret.
Qed.

(** ** Choosing *)

Lemma good_sticky_node req K :
  stable K -> Safe (sticky_node req) K (Good (fun o w => K w /\ opt_node_known o w)).
Proof.
  intros HK. eapply good_let; [by apply good_get_zone_relay|]. intros [a|]; [|apply good_ret; naive_solver].
  simpl. destruct (_ && _); [|apply good_ret; naive_solver].
  destruct (as_sticky_until a); [|apply good_ret; naive_solver].
  eapply good_let; [apply (good_now strict _ (fun _ w => K w)); [auto with stab|naive_solver]|]. intros now. simpl.
  destruct (now <? _); [|apply good_ret; naive_solver].
  eapply good_let; [by apply good_get_relay_node|]. intros [node|]; apply good_ret; simpl; [|naive_solver].
  destruct (is_assignable_node node); naive_solver.
Qed.

Lemma good_choose_relay_node req K :
  stable K -> Safe (choose_relay_node req) K (Good (fun node w => K w /\ node_known node w)).
Proof.
  intros HK. unfold choose_relay_node. destruct (ar_relay_id req) as [id|].
  - eapply good_let; [by apply good_get_relay_node|]. intros o.
    eapply good_let; [apply good_check; auto with nodb|]. intros node. simpl.
    apply good_check_seq; [auto with nodb|]. apply good_check_seq; [auto with nodb|].
    apply good_ret. intros w _ (Ho & HKw & Hn & _). destruct o; simplify_eq/=. auto.
  - destruct (ar_relay_sn req) as [sn|].
    + eapply good_let; [by apply good_get_relay_node_by_sn|]. intros o.
      eapply good_let; [apply good_check; auto with nodb|]. intros node. simpl.
      apply good_check_seq; [auto with nodb|].
      apply good_ret. intros w _ (Ho & HKw & Hn). destruct o; simplify_eq/=. auto.
    + eapply good_let; [by apply good_sticky_node|]. intros [node|]; [by apply good_ret|]. simpl.
      eapply good_let.
      * apply (good_query_rows strict _ _ (fun o w => K w /\ opt_node_known o w)); [auto with stab|]. intros t Hwf.
        destruct (select_least_loaded_ok (ar_region req) t Hwf) as [->|(id & row & node & Hrow & _ & -> & Hr)].
        -- exists (fun _ => True). split_and!; [auto with stab|done|naive_solver].
        -- exists (node_known node). split_and!; [auto with stab| |naive_solver]. intros w. by eapply reads_as_known.
      * intros o. apply good_lift. destruct o; [|done]. simpl. auto.
Qed.

Lemma good_geo ip K : stable K -> Safe (lookup_geo_for_allocation self ip) K (Good (fun _ w => K w)).
Proof.
  intros HK. unfold lookup_geo_for_allocation. destruct ip as [ip|]; [|by apply good_ret].
  destruct (negb _); [by apply good_ret|]. destruct (rm_geo_ip_resolver self); [|by apply good_ret].
  eapply good_let.
  - apply (good_elsewhere strict _ K (fun _ w => K w)); [done|done|]. by intros w _ w2.
  - intros [info|e]; [by apply good_ret|]. apply good_then; [by apply good_count|]. by apply good_ret.
Qed.

Lemma nodb_select_relay pr geo nodes : NoDb (select_relay self pr geo nodes).
Proof. unfold select_relay. destruct (first_match _ _ _ _); [done|]. by destruct (List.find _ _). Qed.

Lemma good_choose_automatic pr geo K :
  stable K -> Safe (choose_automatic_relay self pr geo) K (Good (fun _ w => K w)).
Proof.
  intros HK. eapply good_let; [by apply good_list_relay_nodes|]. intros nodes.
  eapply good_mono; [apply good_check, nodb_select_relay|]. naive_solver.
Qed.

(** ** Assignments *)

Lemma sbind_ok {A B} (m : SnResult A) (k : A -> SnResult B) b :
  sbind m k = SOk b <-> exists a, m = SOk a /\ k a = SOk b.
Proof. destruct m; simpl; naive_solver. Qed.

Lemma to_db_time_ok v f z : to_db_time v f = SOk z -> z = v /\ v < 2 ^ 63.
Proof. unfold to_db_time. destruct (Z.ltb_spec (2 ^ 63 - 1) v); [done|]. intros [= <-]. lia. Qed.

Lemma to_db_time_opt_ok v f z : to_db_time_opt v f = SOk z -> z = v.
Proof.
  destruct v as [v|]; [|by intros [= <-]]. unfold to_db_time_opt, opt_mapS. rewrite sbind_ok.
  intros (a & [-> _]%to_db_time_ok & [= <-]). done.
Qed.

(** The row of an assignment. *)
Lemma assignment_to_row_fields a row :
  assignment_to_row a = SOk row ->
  row = {| aw_relay_id := as_relay_id a; aw_state := as_str (as_state a);
           aw_source := as_str (as_source a); aw_reason := as_reason a;
           aw_generation := as_generation a; aw_backup_relay_id := as_backup_relay_id a;
           aw_sticky_until := as_sticky_until a; aw_lease_expires_at := as_lease_expires_at a;
           aw_migrated_from := as_migrated_from a; aw_migration_deadline := as_migration_deadline a;
           aw_source_version := as_source_version a;
           aw_created_at := as_created_at a; aw_updated_at := as_updated_at a |} /\
  as_generation a < 2 ^ 63.
Proof.
  unfold assignment_to_row. rewrite sbind_ok. intros (g & [-> Hg]%to_db_time_ok & Hr).
  rewrite sbind_ok in Hr. destruct Hr as (s & ->%to_db_time_opt_ok & Hr).
  rewrite sbind_ok in Hr. destruct Hr as (l & ->%to_db_time_opt_ok & Hr).
  rewrite sbind_ok in Hr. destruct Hr as (d & ->%to_db_time_opt_ok & Hr).
  rewrite sbind_ok in Hr. destruct Hr as (c & [-> _]%to_db_time_ok & Hr).
  rewrite sbind_ok in Hr. destruct Hr as (u & [-> _]%to_db_time_ok & Hr). by simplify_eq.
Qed.

Lemma assignment_to_row_ok a row :
  assignment_to_row a = SOk row -> 1 <= as_generation a ->
  (as_state a = RaMigrating -> is_Some (as_migration_deadline a) /\ is_Some (as_migrated_from a)) ->
  assignment_row_ok row /\ aw_relay_id row = as_relay_id a.
Proof.
  intros [-> _]%assignment_to_row_fields Hg Hm. split; [|done]. by exists (as_state a), (as_source a).
Qed.

Lemma good_upsert_assignment a (K : World -> Prop) :
  stable K -> (forall w, Inv w -> K w -> known (as_relay_id a) w) -> 1 <= as_generation a ->
  (as_state a = RaMigrating -> is_Some (as_migration_deadline a) /\ is_Some (as_migrated_from a)) ->
  Safe (upsert_assignment a) K (Good (fun _ w => K w)).
Proof.
  intros HK Hknown Hg Hm. eapply good_let; [apply good_check; auto with nodb|]. intros row. simpl.
  apply good_execute; [by intros t _ id| |auto with stab|naive_solver].
  intros w HI [Hrow HKw]. destruct (assignment_to_row_ok a row Hrow Hg Hm) as [Hok Hid].
  apply wf_upsert_assignment; [done|done|]. rewrite Hid. by apply Hknown.
Qed.

Lemma next_generation req target now existing :
  opt_generation_ok existing -> 1 <= as_generation (next_assignment req target now existing).
Proof.
  destruct existing as [a|]; simpl; [|lia]. intros Hg. unfold u64_saturating_add. destruct (_ || _); lia.
Qed.

Lemma next_relay req target now existing :
  as_relay_id (next_assignment req target now existing) = rn_relay_id target /\
  as_state (next_assignment req target now existing) = RaActive.
Proof. by destruct existing. Qed.

Lemma good_assign_zone_relay req K :
  stable K -> Safe (assign_zone_relay req) K (Good (fun a w => K w)).
Proof.
  intros HK. apply good_check_seq; [auto with nodb|].
  eapply good_let; [by apply good_choose_relay_node|]. intros target. simpl.
  eapply good_let; [apply (good_now strict _ (fun _ w => K w /\ node_known target w)); auto with stab|]. intros now. simpl.
  eapply good_let; [apply good_fetch_assignment; auto with stab|]. intros existing. simpl.
  apply Safe_pure. intros Hok. destruct (next_relay req target now existing) as [Hid Hst].
  apply good_then.
  - apply good_upsert_assignment; [auto with stab| |by apply next_generation|by rewrite Hst].
    rewrite Hid. intros w _ [_ [Hk _]]. exact Hk.
  - apply good_ret. naive_solver.
Qed.

(** ** Allocation *)

Lemma good_reusable zone K : stable K -> Safe (reusable_assignment zone) K (Good (fun _ w => K w)).
Proof.
  intros HK. eapply good_let; [by apply good_get_zone_relay|]. intros [a|]; [|apply good_ret; naive_solver].
  simpl. case_bool_decide; [|apply good_ret; naive_solver].
  eapply good_let; [apply good_get_relay_node; auto with stab|]. intros [node|]; apply good_ret; naive_solver.
Qed.

Lemma good_allocate_inner req K :
  stable K -> Safe (allocate_zone_relay_inner self req) K (Good (fun _ w => K w)).
Proof.
  intros HK. do 2 (apply good_check_seq; [auto with nodb|]).
  eapply good_let; [by apply good_reusable|]. intros [a|]; [by apply good_ret|].
  eapply good_let; [by apply good_geo|]. intros geo.
  eapply good_let; [by apply good_choose_automatic|]. intros selection.
  eapply good_let; [by apply good_assign_zone_relay|]. intros a. by apply good_ret.
Qed.

Lemma good_record_pending req e K :
  stable K -> Safe (record_pending_allocation req e) K (Good (fun _ w => K w)).
Proof.
  intros HK. eapply good_let; [apply (good_now strict _ (fun _ w => K w)); auto|]. intros now.
  eapply good_let; [apply good_check; auto with nodb|]. intros now'. simpl.
  apply good_execute; [by intros t _ id| |auto with stab|naive_solver].
  intros w HI _. by apply (wf_same_rows (w_db w)).
Qed.

Lemma good_clear_pending zone K :
  stable K -> Safe (clear_pending_allocation zone) K (Good (fun _ w => K w)).
Proof.
  intros HK. apply good_execute; [by intros t _ id| |done|done]. intros w HI _. by apply (wf_same_rows (w_db w)).
Qed.

(** A task whose result is dropped. *)
Lemma good_ignoring {A} (t : T A) K :
  stable K -> Safe t K (Good (fun _ w => K w)) -> Safe (ignoring t) K (Good (fun _ w => K w)).
Proof.
  intros HK Ht. eapply Safe_tbind.
  - apply (Safe_frame Inv Grow t K _ K HK) in Ht. eapply Safe_weaken; [exact Ht| |]; [done|].
    intros a w _ [_ HKw]. exact HKw.
  - intros r. by apply good_ret.
Qed.

Lemma good_count_seq {B} f (k : T B) K (Q : B -> World -> Prop) :
  stable K -> Safe k K (Good Q) -> Safe (count f ;; k) K (Good Q).
Proof.
  intros HK Hk. apply good_then; [by apply good_count|done].
Qed.

(** An error is not lost by keeping what was known. *)
Lemma good_keep {A} (t : T A) K :
  stable K -> Safe t K (Good (fun _ w => K w)) -> Safe t K (fun r w => Good (fun _ _ => True) r w /\ K w).
Proof.
  intros HK Ht. apply (Safe_frame Inv Grow t K _ K HK) in Ht. eapply Safe_weaken; [exact Ht|done|].
  intros [a|e] w _ [Hr HKw]; split; try done.
Qed.

Lemma good_allocate_locked req K :
  stable K -> Safe (allocate_locked self req) K (Good (fun _ w => K w)).
Proof.
  intros HK. eapply Safe_tbind; [by apply good_keep, good_allocate_inner|].
  intros [[a fallback]|e].
  - apply good_mono with (P := fun _ w => K w); [|auto].
    eapply Safe_weaken; [|intros w _ [_ HKw]; exact HKw|done].
    apply good_count_seq; [done|].
    apply good_then; [destruct fallback; [by apply good_count|by apply good_ret]|].
    apply good_then; [by apply good_ignoring, good_clear_pending|]. by apply good_ret.
  - apply (Safe_pure_l Inv Grow _ (strict = true -> se_code e <> EcDBError)). intros He. apply good_count_seq; [done|].
    apply good_then; [by apply good_ignoring, good_record_pending|]. intros w _ _. exact He.
Qed.

Lemma good_allocate req K :
  stable K -> Safe (allocate_zone_relay self req) K (Good (fun _ w => K w)).
Proof.
  intros HK. do 2 (apply good_check_seq; [auto with nodb|]). apply good_count_seq; [done|].
  apply good_then; [by apply good_locker|].
  eapply Safe_tbind; [by apply good_keep, good_allocate_locked|]. intros r.
  apply (Safe_pure_l Inv Grow _ (match r with SOk _ => True | SErr e => strict = true -> se_code e <> EcDBError end)).
  intros Hr. apply good_then; [by apply good_drop_locker|].
  intros w _ HKw. destruct r; [done|exact Hr].
Qed.

Lemma good_retry_loop rows K : stable K -> Safe (retry_loop self rows) K (Good (fun _ w => K w)).
Proof.
  intros HK. induction rows as [|[zone row] rows IH]; [by apply good_ret|].
  apply good_then; [by apply good_ignoring, good_allocate|done].
Qed.

Lemma good_retry K : stable K -> Safe (retry_pending_allocations self) K (Good (fun _ w => K w)).
Proof.
  intros HK. eapply good_let; [by apply (good_query strict _ K (fun _ w => K w))|].
  intros rows. by apply good_retry_loop.
Qed.

(** ** Nodes *)

Lemma good_heartbeat hb K :
  stable K -> Safe (heartbeat_relay_node self hb) K (Good (fun _ w => K w)).
Proof.
  intros HK. apply good_check_seq; [auto with nodb|].
  eapply good_let; [by apply good_get_relay_node|]. intros o.
  eapply good_let; [apply good_check; auto with nodb|]. intros existing. simpl.
  eapply Safe_weaken; [|intros w _ Hw; exact (proj1 (proj2 Hw))|intros r w _ Hr; exact Hr].
  apply good_check_seq; [auto with nodb|].
  eapply good_let; [apply (good_now strict _ (fun _ w => K w)); auto|]. intros now.
  eapply good_let; [apply good_check; auto with nodb|]. intros u.
  apply Safe_pure_l. intros Hu. unfold refuse_if in Hu.
  destruct ((_ <=? 0) || (_ <? 0)) eqn:E; [done|]. apply orb_false_iff in E as [Hc Hl]. zbool.
  apply good_then.
  { apply good_transaction; [done|]. intros w HI HKw. unfold heartbeat_tx.
    destruct (to_db_time now _) as [now'|e] eqn:Et;
      [|intros _; pose proof (nodb_time now "last_heartbeat_at") as Hn; by rewrite Et in Hn].
    destruct (to_db_time_opt _ _) as [drain|e] eqn:Ed;
      [|intros _; pose proof (nodb_time_opt (if bool_decide (heartbeat_status hb (rn_status existing) = RnDraining)
          then opt_or (hb_drain_until hb) (rn_drain_until existing) else hb_drain_until hb) "drain_until") as Hn;
        by rewrite Ed in Hn].
    assert (Hwf : tables_wf (heartbeat_row (hb_relay_id hb) (heartbeat_status hb (rn_status existing))
      (default (rn_current_load existing) (hb_current_load hb))
      (default (rn_capacity_score existing) (hb_capacity_score hb))
      (normalize_optional_text (hb_http_endpoint hb)) (normalize_optional_text (hb_rtcp_endpoint hb))
      now' drain (w_db w))) by (apply wf_heartbeat; [done|lia|lia]).
    destruct (negb _); (split_and!; [|apply alter_nodes_grow|auto]); [|done].
    by eapply wf_same_rows; [..|exact Hwf]. }
  apply good_then; [destruct (_ && _); [by apply good_retry|by apply good_ret]|]. by apply good_ret.
Qed.

Lemma good_update_addresses u K :
  stable K -> ip_wf (au_ips u).1 -> ip_wf (au_ips u).2 ->
  Safe (update_relay_node_addresses u) K (Good (fun _ w => K w)).
Proof.
  intros HK Hip1 Hip2. apply good_check_seq; [auto with nodb|].
  eapply good_let; [by apply good_get_relay_node|]. intros o.
  eapply good_let; [apply good_check; auto with nodb|]. intros existing. simpl.
  eapply Safe_weaken; [|intros w _ Hw; exact (proj1 (proj2 Hw))|intros r w _ Hr; exact Hr].
  apply good_check_seq; [auto with nodb|]. case_bool_decide; [by apply good_ret|].
  eapply good_let; [apply (good_now strict _ (fun _ w => K w)); auto|]. intros now.
  apply good_then.
  { apply good_transaction; [done|]. intros w HI HKw. unfold address_tx.
    destruct (to_db_time now _) as [now'|e] eqn:Et;
      [|intros _; pose proof (nodb_time now "updated_at") as Hn; by rewrite Et in Hn].
    split_and!; [|intros id Hk; exact (alter_nodes_grow _ (au_relay_id u) (w_db w) id Hk)|auto].
    eapply wf_same_rows; [..|apply wf_touch, wf_update_address, Hip2; apply wf_update_address, Hip1; exact HI]; done. }
  eapply good_let; [by apply good_get_relay_node|]. intros stored. simpl.
  eapply good_mono; [apply good_check; auto with nodb|]. naive_solver.
Qed.

Lemma registration_row_ok node status now :
  validate_registration node = SOk tt -> node_row_ok (registration_row node status now) /\
  is_empty (trim (rg_relay_id node)) = false.
Proof.
  unfold validate_registration, check_non_empty, refuse_if.
  destruct (is_empty (trim (rg_relay_id node))); [done|].
  destruct (is_empty (trim (rg_relay_sn node))); [done|]. destruct (is_empty (trim (rg_public_host node))); [done|].
  simpl. case_bool_decide; [done|]. simpl. intros Hc. split; [|done].
  unfold node_row_ok, registration_row. simpl. split_and!; eauto; [|lia].
  unfold DEFAULT_CAPACITY_SCORE. destruct (rg_capacity_score node) as [c|]; simpl; [|lia].
  destruct (c <=? 0) eqn:E; [done|]. zbool. lia.
Qed.

Lemma registration_tx_run node status now w :
  run (registration_tx node status now) w =
  match to_db_time now "created_at" with
  | SErr e => Some (SErr e, w)
  | SOk now =>
      if relay_sn_taken (rg_relay_id node) (rg_relay_sn node) (w_db w)
      then Some (SErr (sn_err EcDBError "upsert relay node failed"), w)
      else Some (SOk tt, set_db (fun t => bump_node_map_revision
        (register_rows (rg_relay_id node) (registration_row node status now) (rg_ips node) now t)) w)
  end.
Proof.
  unfold registration_tx, bind. destruct (to_db_time now "created_at"); [|done]. simpl.
  unfold execute_checked, atomic. simpl. by destruct (relay_sn_taken _ _ _).
Qed.

Lemma good_register node K :
  stable K -> strict = false -> ip_wf (rg_ips node).1 -> ip_wf (rg_ips node).2 ->
  Safe (register_relay_node self node) K (Good (fun _ w => K w)).
Proof.
  intros HK Hstrict Hip1 Hip2. eapply good_let; [apply good_check; auto with nodb|]. intros [].
  apply Safe_pure_l. intros Hval.
  apply good_then.
  { eapply good_let; [by apply (good_query strict _ K (fun _ w => K w))|]. intros row.
    eapply good_mono; [apply good_check|naive_solver]. destruct row as [[id r]|]; auto with nodb. }
  eapply good_let; [apply (good_now strict _ (fun _ w => K w)); auto|]. intros now.
  eapply good_let.
  { apply (good_query_rows strict _ K (fun _ w => K w)); [done|]. intros t Hwf.
    destruct (t_nodes t !! rg_relay_id node) as [row|] eqn:E; simpl.
    - destruct (tw_nodes t Hwf _ row E) as [((s & Hs) & _) _]. rewrite (parse_enum_ok s) by done. simpl.
      exists (fun _ => True). split_and!; auto with stab.
    - exists (fun _ => True). split_and!; auto with stab. }
  intros existing. apply good_check_seq; [auto with nodb|]. cbv zeta.
  apply good_then.
  { apply good_transaction; [done|]. intros w HI HKw. rewrite registration_tx_run.
    destruct (to_db_time now _) as [now'|e] eqn:Et; [|by rewrite Hstrict].
    destruct (relay_sn_taken _ _ _) eqn:Efree; [by rewrite Hstrict|].
    destruct (registration_row_ok node (registration_status node existing) now' Hval) as [Hrow Hid].
    split_and!; [|intros id Hk; by apply register_rows_grow|auto].
    eapply wf_same_rows; [..|exact (wf_register (rg_relay_id node)
      (registration_row node (registration_status node existing) now') (rg_ips node) now' (w_db w)
      HI Hrow Hid Hip1 Hip2 Efree)]; done. }
  eapply good_let; [by apply good_get_relay_node|]. intros o. simpl.
  eapply good_let; [apply good_check; auto with nodb|]. intros stored. simpl.
  eapply Safe_weaken; [|intros w _ Hw; exact (proj1 (proj2 Hw))|intros r w _ Hr; exact Hr].
  apply good_then; [case_bool_decide; [by apply good_retry|by apply good_ret]|]. by apply good_ret.
Qed.

(** ** Admission *)

Lemma good_on_devices {A} (f : DeviceDb -> SnResult A * DeviceDb) K :
  stable K -> strict = false -> Safe (on_devices f) K (Good (fun _ w => K w)).
Proof.
  intros HK Hs. apply good_elsewhere; [done|intros w; by destruct (f (w_devices w))|].
  intros w _. destruct (f (w_devices w)) as [[a|e] d]; simpl; [auto|by rewrite Hs].
Qed.

Lemma good_verify req K :
  stable K -> (rm_has_device_info_db self = true -> strict = false) ->
  Safe (verify_device_binding self req) K (Good (fun _ w => K w)).
Proof.
  intros HK Hd. unfold verify_device_binding. destruct (rm_has_device_info_db self); [|by apply good_ret].
  specialize (Hd eq_refl). simpl. destruct (aq_did req), (aq_device_name req); try by apply good_ret.
  all: eapply good_let; [by apply good_on_devices|]; intros d; by apply good_ret.
Qed.

Lemma good_resolve req K :
  stable K -> Safe (resolve_assignment_for_admission self req) K (Good (fun _ w => K w)).
Proof.
  intros HK. eapply good_let; [by apply good_get_zone_relay|]. intros [a|]; simpl; [apply good_ret; naive_solver|].
  eapply Safe_tbind; [apply good_keep; [auto with stab|by apply good_allocate; auto with stab]|]. intros [a|e].
  - apply good_ret. naive_solver.
  - apply (Safe_pure_l Inv Grow _ (strict = true -> se_code e <> EcDBError)). intros He.
    case_bool_decide; [apply good_ret; naive_solver|]. intros w _ _. exact He.
Qed.

Lemma good_decision req d r sn g K :
  stable K -> Safe (build_admission_decision self req d r sn g) K (Good (fun _ w => K w)).
Proof.
  intros HK. eapply good_let; [apply (good_now strict _ (fun _ w => K w)); auto|]. intros now. cbv zeta.
  apply good_then; [|by apply good_ret].
  eapply good_let; [apply good_check; auto with nodb|]. intros g'.
  eapply good_let; [apply good_check; auto with nodb|]. intros c. simpl.
  apply good_execute; [by intros t _ id| |auto with stab|naive_solver].
  intros w HI _. by apply (wf_same_rows (w_db w)).
Qed.

Lemma good_admission req K :
  stable K -> (rm_has_device_info_db self = true -> strict = false) ->
  Safe (check_relay_admission self req) K (Good (fun _ w => K w)).
Proof.
  intros HK Hd. apply good_check_seq; [auto with nodb|].
  eapply good_let; [by apply good_resolve|]. intros [a|]; [|by apply good_decision]. cbv zeta.
  do 2 (case_bool_decide; [by apply good_decision|]).
  destruct (match aq_assignment_generation req with Some g => _ | None => _ end); [by apply good_decision|].
  eapply good_let; [by apply good_verify|]. intros bound.
  destruct (negb bound); [by apply good_decision|]. destruct (negb _); [by apply good_decision|].
  eapply good_let; [by apply good_get_relay_node|]. intros [node|]; simpl.
  - eapply Safe_weaken; [|intros w _ Hw; exact (proj1 Hw)|intros r w _ Hr; exact Hr].
    destruct (rn_status node); by apply good_decision.
  - eapply Safe_weaken; [by apply good_decision|naive_solver|done].
Qed.

(** ** Migration *)

Lemma good_start_migration req K :
  stable K -> Safe (start_relay_migration req) K (Good (fun _ w => K w)).
Proof.
  intros HK. apply good_check_seq; [auto with nodb|].
  eapply good_let; [by apply good_choose_relay_node|]. intros target. simpl.
  eapply good_let; [apply good_get_zone_relay; auto with stab|]. intros o. simpl.
  apply Safe_pure. intros Hg.
  eapply good_let; [apply good_check; auto with nodb|]. intros existing. simpl.
  apply Safe_pure_l. intros Ho. destruct o as [a|]; simplify_eq/=.
  apply good_check_seq; [auto with nodb|].
  eapply good_let; [apply (good_now strict _ (fun _ w => K w /\ node_known target w)); auto with stab|]. intros now.
  cbv zeta. apply good_then; [|apply good_ret; naive_solver].
  apply good_upsert_assignment; [auto with stab| | |].
  - simpl. intros w _ [_ [Hk _]]. exact Hk.
  - simpl. unfold u64_saturating_add. lia.
  - simpl. intros _. split; eauto.
Qed.

Lemma good_complete_migration zone g K :
  stable K -> Safe (complete_relay_migration zone g) K (Good (fun _ w => K w)).
Proof.
  intros HK. apply good_check_seq; [auto with nodb|].
  eapply good_let; [apply (good_now strict _ (fun _ w => K w)); auto|]. intros now.
  eapply good_let; [apply good_check; auto with nodb|]. intros now'. apply Safe_pure_l. intros _.
  eapply good_let; [apply good_check; auto with nodb|]. intros g'. apply Safe_pure_l. intros _.
  eapply good_let.
  - apply (Safe_atomic Inv Grow _ K (Good (fun (_ : bool) w => K w))). intros w HI HKw.
    destruct (complete_migration_row zone g' now' (w_db w)) as [b t] eqn:E. simpl.
    pose proof (wf_complete_migration zone g' now' (w_db w) HI) as Hwf. rewrite E in Hwf. simpl in Hwf.
    pose proof (complete_nodes zone g' now' (w_db w)) as Hn. rewrite E in Hn. simpl in Hn.
    assert (HG : Grow w (set_db (fun _ => t) w)) by (intros id; simpl; by rewrite Hn).
    split_and!; [done|done|]. exists K. split_and!; [done|by apply (HK w)|auto].
  - intros b. eapply good_mono; [apply good_check; auto with nodb|]. naive_solver.
Qed.
End operations.

(** * Requests that run alone

    The execution of one request with no other around: rewriting rules for its
    actions, that it always ends and gives its locks back, and how the
    generations of the assignments move. *)

Create Rewrite HintDb runs.

Section runs.
Context `{NamedLocker, DeviceInfoDB, Clock, JsonStrings, SqlNumbers, CharTables}.

Definition with_ticks (n : nat) (w : World) : World :=
  mkWorld (w_db w) (w_metrics w) n (w_locks w) (w_devices w).
Definition with_locks (l : LockState) (w : World) : World :=
  mkWorld (w_db w) (w_metrics w) (w_ticks w) l (w_devices w).

Lemma run_let {A B} (m : T A) (k : A -> T B) w :
  run (bind m k) w =
  match run m w with
  | Some (SOk a, w') => run (k a) w'
  | Some (SErr e, w') => Some (SErr e, w')
  | None => None
  end.
Proof. unfold bind. rewrite run_tbind. by destruct (run m w) as [[[a|e] w']|]. Qed.

Lemma run_ret {A} (a : A) w : run (ret a) w = Some (SOk a, w).
Proof. done. Qed.
Lemma run_throw {A} e w : run (throw (A:=A) e) w = Some (SErr e, w).
Proof. done. Qed.
Lemma run_lift {A} (r : SnResult A) w : run (lift r) w = Some (r, w).
Proof. done. Qed.
Lemma run_query {A} (f : Tables -> A) w : run (query f) w = Some (SOk (f (w_db w)), w).
Proof. done. Qed.
Lemma run_query_rows {A} (f : Tables -> SnResult A) w : run (query_rows f) w = Some (f (w_db w), w).
Proof. done. Qed.
Lemma run_execute f w : run (execute f) w = Some (SOk tt, set_db f w).
Proof. done. Qed.
Lemma run_count f w : run (count f) w = Some (SOk tt, set_metrics f w).
Proof. done. Qed.
Lemma run_now w : run now_secs w = Some (SOk (clock_at (w_ticks w)), with_ticks (S (w_ticks w)) w).
Proof. done. Qed.
Lemma run_get_locker name w :
  run (get_locker name) w =
  if lock_held name (w_locks w) then None else Some (SOk tt, with_locks (lock_name name (w_locks w)) w).
Proof. unfold get_locker. simpl. by destruct (lock_held name (w_locks w)). Qed.
Lemma run_drop_locker name w :
  run (drop_locker name) w = Some (SOk tt, with_locks (unlock_name name (w_locks w)) w).
Proof. done. Qed.
Lemma run_transaction {A} (t : T A) w :
  run (transaction t) w =
  match run t w with
  | Some (SOk a, w') => Some (SOk a, w')
  | Some (SErr e, w') => Some (SErr e, set_db (fun _ => w_db w) w')
  | None => None
  end.
Proof. unfold transaction. simpl. by destruct (run t w) as [[[a|e] w']|]. Qed.
Lemma run_ignoring {A} (t : T A) w :
  run (ignoring t) w = match run t w with Some (_, w') => Some (SOk tt, w') | None => None end.
Proof. unfold ignoring. by rewrite run_tbind. Qed.

(** ** Requests end and release their locks

    [Ends t]: from a world in which no lock is held, [t] ends in such a world. *)

Definition no_lock_held (w : World) : Prop := forall name, lock_held name (w_locks w) = false.

Definition Ends {A} (t : Task World A) : Prop :=
  forall w, no_lock_held w -> exists a w', run t w = Some (a, w') /\ no_lock_held w'.

Lemma ends_atomic {A} (f : World -> A * World) :
  (forall w, no_lock_held w -> no_lock_held (f w).2) -> Ends (atomic f).
Proof.
  intros Hf w Hw. rewrite run_atomic. exists (f w).1, (f w).2. split; [by destruct (f w)|auto].
Qed.

Lemma ends_tbind {A B} (t : Task World A) (f : A -> Task World B) :
  Ends t -> (forall a, Ends (f a)) -> Ends (tbind t f).
Proof.
  intros Ht Hf w Hw. rewrite run_tbind. destruct (Ht w Hw) as (a & w' & -> & Hw'). by apply Hf.
Qed.

Lemma ends_Ret {A} (a : A) : Ends (Ret a).
Proof. intros w Hw. by exists a, w. Qed.

Lemma ends_bind {A B} (m : T A) (k : A -> T B) : Ends m -> (forall a, Ends (k a)) -> Ends (bind m k).
Proof. intros Hm Hk. apply ends_tbind; [done|]. intros [a|e]; [apply Hk|apply ends_Ret]. Qed.

Lemma ends_query {A} (f : Tables -> A) : Ends (query f).
Proof. by apply ends_atomic. Qed.
Lemma ends_query_rows {A} (f : Tables -> SnResult A) : Ends (query_rows f).
Proof. by apply ends_atomic. Qed.
Lemma ends_execute f : Ends (execute f).
Proof. by apply ends_atomic. Qed.
Lemma ends_execute_checked {A} (f : Tables -> SnResult (A * Tables)) : Ends (execute_checked f).
Proof. apply ends_atomic. intros w Hw. by destruct (f (w_db w)) as [[??]|]. Qed.
Lemma ends_count f : Ends (count f).
Proof. by apply ends_atomic. Qed.
Lemma ends_now : Ends now_secs.
Proof. by apply ends_atomic. Qed.
Lemma ends_on_devices {A} (f : DeviceDb -> SnResult A * DeviceDb) : Ends (on_devices f).
Proof. apply ends_atomic. intros w Hw. by destruct (f (w_devices w)). Qed.
Lemma ends_transaction {A} (t : T A) : Ends t -> Ends (transaction t).
Proof.
  intros Ht w Hw. rewrite run_transaction. destruct (Ht w Hw) as ([a|e] & w' & -> & Hw'); eauto.
Qed.
Lemma ends_ignoring {A} (t : T A) : Ends t -> Ends (ignoring t).
Proof. intros Ht. apply ends_tbind; [done|]. intros a. apply ends_Ret. Qed.

(** A part that holds a lock: it must end whichever lock is held, as long as it
    takes none itself. *)
Definition EndsHolding {A} (t : Task World A) : Prop :=
  forall w, exists a w', run t w = Some (a, w') /\ w_locks w' = w_locks w.

Lemma holding_tbind {A B} (t : Task World A) (f : A -> Task World B) :
  EndsHolding t -> (forall a, EndsHolding (f a)) -> EndsHolding (tbind t f).
Proof.
  intros Ht Hf w. rewrite run_tbind. destruct (Ht w) as (a & w' & -> & Hw').
  destruct (Hf a w') as (b & w'' & -> & Hw''). exists b, w''. split; [done|congruence].
Qed.
Lemma holding_atomic {A} (f : World -> A * World) :
  (forall w, w_locks (f w).2 = w_locks w) -> EndsHolding (atomic f).
Proof. intros Hf w. rewrite run_atomic. exists (f w).1, (f w).2. split; [by destruct (f w)|auto]. Qed.
Lemma holding_Ret {A} (a : A) : EndsHolding (Ret a).
Proof. intros w. by exists a, w. Qed.
Lemma holding_bind {A B} (m : T A) (k : A -> T B) :
  EndsHolding m -> (forall a, EndsHolding (k a)) -> EndsHolding (bind m k).
Proof. intros Hm Hk. apply holding_tbind; [done|]. intros [a|e]; [apply Hk|apply holding_Ret]. Qed.
Lemma holding_ignoring {A} (t : T A) : EndsHolding t -> EndsHolding (ignoring t).
Proof. intros Ht. apply holding_tbind; [done|]. intros a. apply holding_Ret. Qed.
Lemma holding_ends {A} (t : Task World A) : EndsHolding t -> Ends t.
Proof.
  intros Ht w Hw. destruct (Ht w) as (a & w' & Hr & Hl). exists a, w'. split; [done|].
  intros name. rewrite Hl. apply Hw.
Qed.
Lemma holding_execute_checked {A} (f : Tables -> SnResult (A * Tables)) : EndsHolding (execute_checked f).
Proof. apply holding_atomic. intros w. by destruct (f (w_db w)) as [[??]|]. Qed.
Lemma holding_on_devices {A} (f : DeviceDb -> SnResult A * DeviceDb) : EndsHolding (on_devices f).
Proof. apply holding_atomic. intros w. by destruct (f (w_devices w)). Qed.
Lemma holding_transaction {A} (t : T A) : EndsHolding t -> EndsHolding (transaction t).
Proof.
  intros Ht w. rewrite run_transaction. destruct (Ht w) as ([a|e] & w' & -> & Hw'); eauto.
Qed.
End runs.

#[export] Hint Rewrite @run_let @run_ret @run_throw @run_lift @run_query @run_query_rows @run_execute
  @run_count @run_now @run_get_locker @run_drop_locker @run_transaction @run_ignoring : runs.

Create HintDb holding.
#[export] Hint Resolve holding_Ret holding_execute_checked holding_on_devices : holding.
#[export] Hint Extern 1 (EndsHolding (atomic _)) => (apply holding_atomic; reflexivity) : holding.

(** Split a task into its actions. *)
Ltac holding :=
  repeat first
  [ progress intros
  | apply holding_bind
  | apply holding_tbind
  | apply holding_ignoring
  | apply holding_transaction
  | solve [auto with holding]
  | apply holding_atomic; intros; reflexivity
  | apply holding_Ret
  | match goal with |- EndsHolding (match ?x with _ => _ end) => destruct x end ].

Section ends.
Context `{NamedLocker, !NamedLockerLaws, DeviceInfoDB, Clock, JsonStrings, SqlNumbers, CharTables}.
Context (self : RelayManager).

Lemma holding_allocate_locked req : EndsHolding (allocate_locked self req).
Proof.
  unfold allocate_locked, allocate_zone_relay_inner, reusable_assignment, lookup_geo_for_allocation,
    choose_automatic_relay, assign_zone_relay, choose_relay_node, sticky_node, upsert_assignment,
    record_pending_allocation, clear_pending_allocation, get_zone_relay, get_relay_node, get_relay_node_by_sn,
    list_relay_nodes, fetch_assignment_for_update.
  holding.
Qed.

Lemma ends_allocate req : Ends (allocate_zone_relay self req).
Proof.
  intros w Hw. unfold allocate_zone_relay. autorewrite with runs.
  destruct (check_non_empty (al_zone req) "zone"); [|by eauto]. autorewrite with runs.
  destruct (check_non_empty (al_reason req) "reason"); [|by eauto]. autorewrite with runs. simpl. rewrite Hw.
  rewrite run_tbind. set (w1 := with_locks _ _).
  destruct (holding_allocate_locked req w1) as (r & w2 & -> & Hl). autorewrite with runs.
  eexists r, _. split; [done|]. intros name. simpl. rewrite Hl, unlock_name_held. simpl. rewrite lock_name_held.
  specialize (Hw name). simpl in Hw. rewrite Hw. by destruct (String.eqb name _).
Qed.

Lemma ends_retry_loop rows : Ends (retry_loop self rows).
Proof.
  induction rows as [|[zone row] rows IH]; [apply ends_Ret|].
  apply ends_bind; [apply ends_ignoring, ends_allocate|done].
Qed.

Lemma ends_retry : Ends (retry_pending_allocations self).
Proof. apply ends_bind; [apply ends_query|apply ends_retry_loop]. Qed.

(** Requests without a lock of their own. *)
Ltac ends_tac :=
  repeat first
  [ progress intros
  | apply ends_retry
  | apply ends_allocate
  | apply ends_bind
  | apply ends_tbind
  | apply ends_ignoring
  | apply ends_Ret
  | solve [apply holding_ends; holding]
  | match goal with |- Ends (match ?x with _ => _ end) => destruct x end ].

Lemma ends_task c : Ends (relay_task self c).
Proof.
  destruct c; unfold relay_task; (apply ends_tbind; [|intros a; apply ends_Ret]).
  - unfold register_relay_node, ensure_relay_sn_unique, registration_tx, get_relay_node. ends_tac.
  - unfold heartbeat_relay_node, heartbeat_tx, get_relay_node. ends_tac.
  - unfold update_relay_node_addresses, address_tx, get_relay_node. ends_tac.
  - unfold get_relay_node. ends_tac.
  - unfold list_relay_nodes. ends_tac.
  - unfold get_relay_nodes_ip_map_snapshot. ends_tac.
  - unfold assign_zone_relay, choose_relay_node, sticky_node, upsert_assignment, get_zone_relay,
      get_relay_node, get_relay_node_by_sn, fetch_assignment_for_update. ends_tac.
  - apply ends_allocate.
  - unfold get_zone_relay. ends_tac.
  - unfold check_relay_admission, resolve_assignment_for_admission, verify_device_binding,
      build_admission_decision, record_admission_event, get_zone_relay, get_relay_node. ends_tac.
  - unfold start_relay_migration, choose_relay_node, sticky_node, upsert_assignment, get_zone_relay,
      get_relay_node, get_relay_node_by_sn. ends_tac.
  - unfold complete_relay_migration, complete_assignment_migration. ends_tac.
Qed.
End ends.
