(* ===== verification/RelaySeq.v ===== *)
(** * Relay manager: requests one after the other

    What a history of requests that do not overlap does to the tables: how
    generations grow with the relays of a zone, what the revision of the node
    map says about the map, and that deleted nodes stay deleted. *)

From S2P Require Import Prelude IpAddr Tasks RelayModel RelayStore Relay RelaySafe RelayInv.

(** ** What a request may do to the tables *)

(** The part of the node map that a snapshot shows, without the times. *)
Definition map_view (t : Tables) : gmap string (string * option string * option string * string) :=
  map_imap (fun id row =>
    if String.eqb (nr_status row) (as_str RnDeleted) then None
    else Some (nr_relay_sn row, stored_ip t id 0, stored_ip t id 1, nr_status row)) (t_nodes t).

Record tables_step (t t' : Tables) : Prop := mkTablesStep {
  ts_generation zone row : t_assignments t !! zone = Some row ->
    exists row', t_assignments t' !! zone = Some row' /\
      aw_generation row <= aw_generation row' /\
      (aw_relay_id row' <> aw_relay_id row -> aw_generation row < aw_generation row') /\
      aw_created_at row' = aw_created_at row;
  ts_revision : t_node_map_revision t <= t_node_map_revision t';
  ts_map : t_node_map_revision t' = t_node_map_revision t -> map_view t' = map_view t;
  ts_deleted id row : t_nodes t !! id = Some row -> nr_status row = as_str RnDeleted ->
    exists row', t_nodes t' !! id = Some row' /\ nr_status row' = as_str RnDeleted;
  ts_events : exists l, t_events t' = t_events t ++ l
}.

Lemma tables_step_refl t : tables_step t t.
Proof.
  constructor; [|lia|done|eauto|by exists []; rewrite app_nil_r].
  intros zone row Hr. exists row. split_and!; [done|lia|done|done].
Qed.

Lemma tables_step_trans t1 t2 t3 : tables_step t1 t2 -> tables_step t2 t3 -> tables_step t1 t3.
Proof.
  intros [G1 R1 M1 D1 (l1 & E1)] [G2 R2 M2 D2 (l2 & E2)]. constructor.
  - intros zone row Hr. destruct (G1 zone row Hr) as (r2 & Hr2 & Hle & Hlt & Hc).
    destruct (G2 zone r2 Hr2) as (r3 & Hr3 & Hle' & Hlt' & Hc'). exists r3. split_and!; [done|lia| |congruence].
    intros Hne. destruct (decide (aw_relay_id r2 = aw_relay_id row)) as [He|He]; [|specialize (Hlt He); lia].
    rewrite <- He in Hne. specialize (Hlt' Hne). lia.
  - lia.
  - intros E. rewrite M2, M1 by lia. done.
  - intros id row Hr Hs. destruct (D1 id row Hr Hs) as (r2 & Hr2 & Hs2). eauto.
  - exists (l1 ++ l2). by rewrite E2, E1, app_assoc.
Qed.

(** A change that leaves nodes, addresses and assignments alone. *)
Lemma tables_step_aside t t' :
  t_nodes t' = t_nodes t -> t_addresses t' = t_addresses t -> t_assignments t' = t_assignments t ->
  t_node_map_revision t' = t_node_map_revision t -> (exists l, t_events t' = t_events t ++ l) ->
  tables_step t t'.
Proof.
  intros Hn Ha Hs Hr He. constructor; rewrite ?Hn, ?Hs, ?Hr; try done; try lia.
  - intros zone row Hz. exists row. split_and!; [done|lia|done|done].
  - intros _. unfold map_view, stored_ip. by rewrite Hn, Ha.
  - eauto.
Qed.

Section sequential.
Context `{NamedLocker, DeviceInfoDB, Clock, JsonStrings, !JsonStringsLaws, SqlNumbers, CharTables}.
Context (self : RelayManager).

(** ** Tasks that only read the tables *)

Definition Reads {A} (t : Task World A) : Prop :=
  forall w r w', run t w = Some (r, w') -> w_db w' = w_db w.

Lemma reads_tbind {A B} (t : Task World A) (f : A -> Task World B) :
  Reads t -> (forall a, Reads (f a)) -> Reads (tbind t f).
Proof.
  intros Ht Hf w r w'. rewrite run_tbind. destruct (run t w) as [[a w1]|] eqn:E; [|done].
  intros Hr. rewrite (Hf a w1 r w' Hr). by apply (Ht w a).
Qed.
Lemma reads_let {A B} (m : T A) (k : A -> T B) : Reads m -> (forall a, Reads (k a)) -> Reads (bind m k).
Proof. intros Hm Hk. apply reads_tbind; [done|]. intros [a|e]; [apply Hk|]. intros w r w' Hr. by simplify_eq/=. Qed.
Lemma reads_Ret {A} (a : A) : Reads (Ret a).
Proof. intros w r w' Hr. by simplify_eq/=. Qed.
Lemma reads_atomic {A} (f : World -> A * World) : (forall w, w_db (f w).2 = w_db w) -> Reads (atomic f).
Proof. intros Hf w r w'. rewrite run_atomic. intros [= Hr]. specialize (Hf w). by rewrite Hr in Hf. Qed.
Lemma reads_locker name : Reads (get_locker name).
Proof. intros w r w'. rewrite run_get_locker. destruct (lock_held _ _); [done|]. intros Hr. by simplify_eq. Qed.
Lemma reads_on_devices {A} (f : DeviceDb -> SnResult A * DeviceDb) : Reads (on_devices f).
Proof. apply reads_atomic. intros w. by destruct (f (w_devices w)). Qed.
End sequential.

Ltac reads :=
  repeat first
  [ progress intros
  | apply reads_let
  | apply reads_tbind
  | apply reads_locker
  | apply reads_on_devices
  | apply reads_atomic; intros; reflexivity
  | apply reads_Ret
  | match goal with |- Reads (match ?x with _ => _ end) => destruct x end ].

Section steps.
Context `{NamedLocker, DeviceInfoDB, Clock, JsonStrings, !JsonStringsLaws, SqlNumbers, CharTables}.
Context (self : RelayManager).

Lemma reads_choose_relay_node req : Reads (choose_relay_node req).
Proof.
  unfold choose_relay_node, sticky_node, get_zone_relay, get_relay_node, get_relay_node_by_sn. reads.
Qed.
Lemma reads_get_relay_node id : Reads (get_relay_node id).
Proof. unfold get_relay_node. reads. Qed.
Lemma reads_get_zone_relay zone : Reads (get_zone_relay zone).
Proof. unfold get_zone_relay. reads. Qed.

(** ** Sequential steps *)

Definition Seq {A} (t : Task World A) : Prop :=
  forall w r w', Inv w -> run t w = Some (r, w') -> Inv w' /\ tables_step (w_db w) (w_db w').

Lemma seq_tbind {A B} (t : Task World A) (f : A -> Task World B) :
  Seq t -> (forall a, Seq (f a)) -> Seq (tbind t f).
Proof.
  intros Ht Hf w r w' HI. rewrite run_tbind. destruct (run t w) as [[a w1]|] eqn:E; [|done].
  destruct (Ht w a w1 HI E) as [HI1 Hs1]. intros Hr. destruct (Hf a w1 r w' HI1 Hr) as [HI' Hs'].
  split; [done|by eapply tables_step_trans].
Qed.
Lemma seq_bind {A B} (m : T A) (k : A -> T B) : Seq m -> (forall a, Seq (k a)) -> Seq (bind m k).
Proof.
  intros Hm Hk. apply seq_tbind; [done|]. intros [a|e]; [apply Hk|]. intros w r w' HI Hr. simplify_eq/=.
  split; [done|apply tables_step_refl].
Qed.
Lemma seq_reads {A} (t : Task World A) : Reads t -> Seq t.
Proof.
  intros Ht w r w' HI Hr. unfold Inv. rewrite (Ht w r w' Hr). split; [done|apply tables_step_refl].
Qed.
Lemma seq_Ret {A} (a : A) : Seq (Ret a).
Proof. apply seq_reads, reads_Ret. Qed.
Lemma seq_ignoring {A} (t : T A) : Seq t -> Seq (ignoring t).
Proof. intros Ht. apply seq_tbind; [done|]. intros a. apply seq_Ret. Qed.
Lemma seq_execute f :
  (forall t, tables_wf t -> tables_wf (f t) /\ tables_step t (f t)) -> Seq (execute f).
Proof. intros Hf w r w' HI Hr. simplify_eq/=. by apply Hf. Qed.

(** ** Assignments *)

(** Replacing the assignment of a zone by one of a higher generation, or of the
    same one for the same relay. *)
Lemma tables_step_assign zone new t :
  (forall old, t_assignments t !! zone = Some old ->
     aw_generation old <= aw_generation new /\
     (aw_relay_id new <> aw_relay_id old -> aw_generation old < aw_generation new)) ->
  tables_step t (upsert_assignment_row zone new t).
Proof.
  intros Hnew. destruct (upsert_assignment_lookup zone new t) as (row & He & Hr & Hg & _).
  constructor; [|simpl; lia|done|simpl; eauto|exists []; by rewrite app_nil_r].
  intros z old Hold. rewrite He. destruct (decide (z = zone)) as [->|Hne].
  - exists row. rewrite lookup_insert_eq, Hr, Hg. destruct (Hnew old Hold) as [Hle Hlt]. split_and!; auto.
    revert He. unfold upsert_assignment_row. rewrite Hold. simpl. intros He.
    apply (f_equal (fun m => m !! zone)) in He. rewrite !lookup_insert_eq in He. by simplify_eq/=.
  - exists old. rewrite lookup_insert_ne by done. split_and!; [done|lia|done|done].
Qed.

(** An assignment and the row it came from, just before it is replaced. *)
Lemma seq_upsert a w r w' :
  Inv w ->
  (forall old, t_assignments (w_db w) !! as_zone a = Some old ->
     as_generation a < 2 ^ 63 ->
     aw_generation old <= as_generation a /\
     (as_relay_id a <> aw_relay_id old -> aw_generation old < as_generation a)) ->
  run (upsert_assignment a) w = Some (r, w') -> tables_step (w_db w) (w_db w').
Proof.
  intros HI Ha. unfold upsert_assignment. autorewrite with runs.
  destruct (assignment_to_row a) as [row|e] eqn:E; autorewrite with runs; intros Hr; simplify_eq;
    [|apply tables_step_refl].
  apply assignment_to_row_fields in E as [-> Hg]. simpl. apply tables_step_assign. intros old Hold. simpl.
  by apply Ha.
Qed.

Lemma generation_next g : 1 <= g -> u64_saturating_add g 1 < 2 ^ 63 -> u64_saturating_add g 1 = g + 1.
Proof. unfold u64_saturating_add. lia. Qed.

Lemma seq_assign req : Seq (assign_zone_relay req).
Proof.
  intros w r w' HI Hr. split.
  { by destruct (Safe_run Inv Grow _ _ _ w r w' (good_assign_zone_relay true req (fun _ => True) stable_true)
      HI I Hr). }
  revert Hr. unfold assign_zone_relay. autorewrite with runs.
  destruct (validate_assignment_req req) as [[]|]; [|intros; simplify_eq; apply tables_step_refl].
  destruct (run (choose_relay_node req) w) as [[[target|e] w1]|] eqn:Ec; [| |done].
  2: { intros; simplify_eq. rewrite (reads_choose_relay_node req _ _ _ Ec). apply tables_step_refl. }
  pose proof (reads_choose_relay_node req _ _ _ Ec) as Hdb. autorewrite with runs.
  unfold fetch_assignment_for_update. autorewrite with runs. simpl.
  assert (HI1 : tables_wf (w_db w1)) by (by rewrite Hdb).
  pose proof (select_assignment_ok (w_db w1) (ar_zone req) HI1) as Hsel. rewrite <- Hdb.
  set (w2 := with_ticks _ _). destruct (t_assignments (w_db w1) !! ar_zone req) as [old|] eqn:Eo.
  - destruct Hsel as (a & -> & Hread). autorewrite with runs.
    destruct (run (upsert_assignment _) w2) as [[r3 w3]|] eqn:Eu; [|done].
    assert (Hs : tables_step (w_db w1) (w_db w3)).
    { change (w_db w1) with (w_db w2). apply (seq_upsert _ w2 r3 w3 HI1) in Eu; [done|]. clear Eu.
      destruct Hread as (Hz & Hid & Hsn & Hst & _ & Hg & Hg1 & _). simpl. rewrite Hz.
      intros old'. rewrite Eo. intros [= <-]. rewrite <- Hid, <- Hg.
      destruct (String.eqb_spec (as_relay_id a) (rn_relay_id target)) as [Heq|Hne]; simpl.
      - destruct (_ || _); [|intros _; split; [lia|congruence]]. intros Hlt. rewrite generation_next by done. lia.
      - intros Hlt. rewrite generation_next by done. lia. }
    destruct r3; autorewrite with runs; intros; simplify_eq; done.
  - rewrite Hsel. autorewrite with runs.
    destruct (run (upsert_assignment _) w2) as [[r3 w3]|] eqn:Eu; [|done].
    assert (Hs : tables_step (w_db w1) (w_db w3)).
    { change (w_db w1) with (w_db w2). apply (seq_upsert _ w2 r3 w3 HI1) in Eu; [done|]. simpl.
      intros old. change (w_db w2) with (w_db w1). by rewrite Eo. }
    destruct r3; autorewrite with runs; intros; simplify_eq; done.
Qed.

Lemma seq_aside f :
  (forall t, t_nodes (f t) = t_nodes t /\ t_addresses (f t) = t_addresses t /\
     t_assignments (f t) = t_assignments t /\ t_node_map_revision (f t) = t_node_map_revision t /\
     exists l, t_events (f t) = t_events t ++ l) -> Seq (execute f).
Proof.
  intros Hf. apply seq_execute. intros t Hwf. destruct (Hf t) as (? & ? & ? & ? & ?).
  split; [by apply (wf_same_rows t)|by apply tables_step_aside].
Qed.

Lemma seq_pending_write f : Seq (execute (on_pending f)).
Proof. apply seq_aside. intros t. split_and!; try done. exists []. by rewrite app_nil_r. Qed.

(** Split a task into parts that only read and parts known to be steps. *)
Ltac seq_part :=
  first
  [ progress intros
  | apply seq_assign
  | apply seq_pending_write
  | apply seq_bind
  | apply seq_tbind
  | apply seq_ignoring
  | solve [apply seq_reads; reads]
  | match goal with |- Seq (match ?x with _ => _ end) => destruct x end ].
Ltac seqs := repeat seq_part.

Lemma seq_allocate req : Seq (allocate_zone_relay self req).
Proof.
  unfold allocate_zone_relay, allocate_locked, allocate_zone_relay_inner, reusable_assignment,
    lookup_geo_for_allocation, choose_automatic_relay, record_pending_allocation, clear_pending_allocation,
    get_zone_relay, get_relay_node, list_relay_nodes.
  seqs. apply seq_aside. intros t. split_and!; try done. exists []. by rewrite app_nil_r.
Qed.

Lemma seq_retry : Seq (retry_pending_allocations self).
Proof.
  apply seq_bind; [apply seq_reads; reads|]. intros rows. induction rows as [|[zone row] rows IH].
  - apply seq_Ret.
  - apply seq_bind; [apply seq_ignoring, seq_allocate|done].
Qed.

Lemma seq_decision req d r sn g : Seq (build_admission_decision self req d r sn g).
Proof.
  unfold build_admission_decision, record_admission_event. seqs. apply seq_aside. intros t. split_and!; try done.
  by eexists.
Qed.

Lemma seq_admission req : Seq (check_relay_admission self req).
Proof.
  unfold check_relay_admission, resolve_assignment_for_admission, verify_device_binding, get_zone_relay, get_relay_node.
  repeat first [apply seq_decision | apply seq_allocate | seq_part].
Qed.

(** ** Nodes *)

Lemma tables_step_register id row ips now t :
  (forall old, t_nodes t !! id = Some old -> nr_status old <> as_str RnDeleted) ->
  tables_step t (bump_node_map_revision (register_rows id row ips now t)).
Proof.
  intros Hlive. destruct (upsert_node_lookup id row t) as (row' & He & _).
  constructor; [|simpl; lia|simpl; lia| |exists []; by rewrite app_nil_r].
  - intros zone r Hr. exists r. split_and!; [done|lia|done|done].
  - intros i r Hr Hs. destruct (decide (i = id)) as [->|Hne]; [by destruct (Hlive r Hr)|].
    exists r. split; [|done]. change (t_nodes (upsert_node_row id row t) !! i = Some r). rewrite He.
    by rewrite lookup_insert_ne.
Qed.

(** The same for one run, so that what was read can be used. *)
Definition SeqAt {A} (t : Task World A) (w : World) : Prop :=
  forall r w', Inv w -> run t w = Some (r, w') -> Inv w' /\ tables_step (w_db w) (w_db w').

Lemma at_seq {A} (t : Task World A) w : Seq t -> SeqAt t w.
Proof. intros Ht r w'. apply Ht. Qed.

Lemma at_bind {A B} (m : T A) (k : A -> T B) w :
  SeqAt m w -> (forall a w1, run m w = Some (SOk a, w1) -> SeqAt (k a) w1) -> SeqAt (bind m k) w.
Proof.
  intros Hm Hk r w' HI. rewrite run_let. destruct (run m w) as [[[a|e] w1]|] eqn:E; [| |done].
  - destruct (Hm _ w1 HI E) as [HI1 Hs1]. intros Hr. destruct (Hk a w1 eq_refl r w' HI1 Hr) as [HI' Hs'].
    split; [done|by eapply tables_step_trans].
  - intros Hr. simplify_eq. by apply (Hm (SErr e)).
Qed.

Lemma at_read {A B} (m : T A) (k : A -> T B) w :
  Reads m -> (forall a w1, run m w = Some (SOk a, w1) -> w_db w1 = w_db w -> SeqAt (k a) w1) ->
  SeqAt (bind m k) w.
Proof.
  intros Hm Hk. apply at_bind; [by apply at_seq, seq_reads|]. intros a w1 Hr. apply Hk; [done|]. by apply (Hm w (SOk a)).
Qed.

Lemma at_lift {A B} (r : SnResult A) (k : A -> T B) w :
  (forall a, r = SOk a -> SeqAt (k a) w) -> SeqAt (bind (lift r) k) w.
Proof. intros Hk. apply at_read; [apply reads_Ret|]. intros a w1 Hr _. simplify_eq/=. by apply Hk. Qed.

(** A transaction that writes the tables once. *)
Lemma at_transaction {A} (t : T A) w :
  (forall a w', Inv w -> run t w = Some (SOk a, w') -> Inv w' /\ tables_step (w_db w) (w_db w')) ->
  SeqAt (transaction t) w.
Proof.
  intros Ht r w' HI. rewrite run_transaction. destruct (run t w) as [[[a|e] w1]|] eqn:E; intros Hr; simplify_eq.
  - by apply (Ht a).
  - split; [done|apply tables_step_refl].
Qed.

Lemma seq_register node :
  ip_wf (rg_ips node).1 -> ip_wf (rg_ips node).2 -> Seq (register_relay_node self node).
Proof.
  intros Hip1 Hip2 w. apply at_lift. intros [] Hval.
  apply at_read; [unfold ensure_relay_sn_unique; reads|]. intros [] w1 _ _.
  apply at_read; [reads|]. intros now w2 _ _.
  apply at_read; [reads|]. intros existing w3 Hex Hdb. rewrite run_query_rows in Hex. injection Hex as Hex <-.
  apply at_lift. intros [] Hdel. cbv zeta. apply at_bind.
  - apply at_transaction. intros [] w' HI. rewrite registration_tx_run.
    destruct (to_db_time _ _) as [now'|]; [|done]. destruct (relay_sn_taken _ _ _) eqn:Efree; [done|].
    intros Hr. simplify_eq.
    destruct (registration_row_ok node (registration_status node existing) now' Hval) as [Hrow Hid]. split.
    + eapply wf_same_rows; [..|exact (wf_register (rg_relay_id node)
        (registration_row node (registration_status node existing) now') (rg_ips node) now' _
        HI Hrow Hid Hip1 Hip2 Efree)]; done.
    + apply tables_step_register. intros old Ho Hd. rewrite Ho in Hex. simpl in Hex.
      rewrite (parse_enum_ok RnDeleted) in Hex by done. by simplify_eq/=.
  - intros [] w4 _. apply at_read; [apply reads_get_relay_node|]. intros o w5 _ _.
    apply at_lift. intros stored _. apply at_seq. clear Hdel.
    apply seq_bind; [case_bool_decide; [apply seq_retry|apply seq_Ret]|]. intros []. apply seq_Ret.
Qed.

(** A heartbeat, given the status it read. *)
Lemma map_view_alter f id t :
  (forall row, t_nodes t !! id = Some row ->
     nr_relay_sn (f row) = nr_relay_sn row /\ nr_status (f row) = nr_status row) ->
  map_view (on_nodes (alter f id) t) = map_view t.
Proof.
  intros Hf. apply map_eq. intros i. unfold map_view. rewrite !map_lookup_imap. simpl.
  destruct (decide (id = i)) as [->|Hne]; [|by rewrite lookup_alter_ne].
  rewrite lookup_alter_eq. destruct (t_nodes t !! i) as [row|] eqn:E; [|done]. simpl.
  destruct (Hf row eq_refl) as [-> ->]. done.
Qed.

Lemma tables_step_alter f id t :
  (forall row, t_nodes t !! id = Some row -> nr_status row = as_str RnDeleted ->
     nr_status (f row) = as_str RnDeleted) ->
  (map_view (on_nodes (alter f id) t) = map_view t -> tables_step t (on_nodes (alter f id) t)) /\
  tables_step t (bump_node_map_revision (on_nodes (alter f id) t)).
Proof.
  intros Hf.
  assert (Hd : forall i r, t_nodes t !! i = Some r -> nr_status r = as_str RnDeleted ->
    exists r', alter f id (t_nodes t) !! i = Some r' /\ nr_status r' = as_str RnDeleted).
  { intros i r Hr Hs. destruct (decide (id = i)) as [->|Hne].
    - exists (f r). rewrite lookup_alter_eq, Hr. split; [done|by apply Hf].
    - exists r. by rewrite lookup_alter_ne. }
  assert (Hg : forall zone row, t_assignments t !! zone = Some row -> exists row',
    t_assignments t !! zone = Some row' /\ aw_generation row <= aw_generation row' /\
    (aw_relay_id row' <> aw_relay_id row -> aw_generation row < aw_generation row') /\
    aw_created_at row' = aw_created_at row).
  { intros zone row Hz. exists row. split_and!; [done|lia|done|done]. }
  split; [intros Hm|]; (constructor; simpl; [done|lia| |done|exists []; by rewrite app_nil_r]); [done|lia].
Qed.

Lemma heartbeat_tx_run hb status load capacity now drain changed w :
  run (heartbeat_tx hb status load capacity now drain changed) w =
  match to_db_time now "last_heartbeat_at", to_db_time_opt drain "drain_until" with
  | SOk now, SOk drain =>
      let write := heartbeat_row (hb_relay_id hb) status load capacity
        (normalize_optional_text (hb_http_endpoint hb)) (normalize_optional_text (hb_rtcp_endpoint hb)) now drain in
      Some (SOk tt, set_db (fun t => if changed : bool then bump_node_map_revision (write t) else write t) w)
  | SErr e, _ => Some (SErr e, w)
  | _, SErr e => Some (SErr e, w)
  end.
Proof.
  unfold heartbeat_tx. autorewrite with runs. destruct (to_db_time now _); [|done]. autorewrite with runs.
  destruct (to_db_time_opt drain _); [|done]. autorewrite with runs. by destruct changed.
Qed.

Lemma read_status id w node w1 :
  Inv w -> run (get_relay_node id) w = Some (SOk (Some node), w1) ->
  exists row, t_nodes (w_db w) !! id = Some row /\ reads_as (w_db w) id row node.
Proof.
  intros HI. unfold get_relay_node. autorewrite with runs. destruct (check_non_empty _ _); [|done].
  autorewrite with runs. intros Hr. pose proof (select_node_ok (w_db w) id HI) as Hs.
  destruct (t_nodes (w_db w) !! id) as [row|]; [|by rewrite Hs in Hr].
  destruct Hs as (n & Hn & Hread). rewrite Hn in Hr. simplify_eq. eauto.
Qed.

Lemma seq_heartbeat hb : Seq (heartbeat_relay_node self hb).
Proof.
  intros w r w' HI. revert r w' HI. fold (SeqAt (heartbeat_relay_node self hb) w).
  apply at_lift. intros [] _. apply at_read; [apply reads_get_relay_node|]. intros o w1 Hget Hdb1.
  apply at_lift. intros existing Ho. destruct o as [existing'|]; simplify_eq/=.
  apply at_lift. intros [] Hlive. apply at_read; [reads|]. intros now w2 Hnow Hdb2. rewrite run_now in Hnow.
  injection Hnow as <- <-. apply at_lift. intros [] Hnum. cbv zeta. apply at_bind.
  - apply at_transaction. intros [] w' HI. rewrite heartbeat_tx_run.
    destruct (to_db_time _ _) as [now|]; [|done]. destruct (to_db_time_opt _ _) as [drain|]; [|done].
    intros Hr. injection Hr as <-. simpl in *.
    assert (HI0 : Inv w) by (unfold Inv; by rewrite <- Hdb1).
    destruct (read_status _ _ _ _ HI0 Hget) as (row & Hrow & (_ & _ & Hst & _)).
    unfold refuse_if in Hnum. destruct ((_ <=? 0) || (_ <? 0)) eqn:E; [done|].
    apply orb_false_iff in E as [Hc Hl]. zbool.
    rewrite <- Hdb1 in Hrow.
    set (write := heartbeat_row _ _ _ _ _ _ _ _).
    assert (Hwf : tables_wf (write (w_db w1))) by (apply wf_heartbeat; [done|lia|lia]).
    destruct (tables_step_alter (beat_row (heartbeat_status hb (rn_status existing))
      (default (rn_current_load existing) (hb_current_load hb))
      (default (rn_capacity_score existing) (hb_capacity_score hb))
      (normalize_optional_text (hb_http_endpoint hb)) (normalize_optional_text (hb_rtcp_endpoint hb)) now drain)
      (hb_relay_id hb) (w_db w1)) as [Hsame Hbump].
    { rewrite Hrow. intros row' [= <-] Hd. exfalso. rewrite <- Hst in Hd. apply as_str_inj in Hd.
      unfold refuse_if in Hlive. rewrite bool_decide_eq_true_2 in Hlive by done. done. }
    clear Hlive. case_bool_decide as Heq; simpl.
    + split; [done|]. apply Hsame. apply map_view_alter. rewrite Hrow. intros row' [= <-]. simpl.
      split; [done|]. by rewrite Heq.
    + split; [by apply (wf_same_rows (write (w_db w1)))|exact Hbump].
  - intros [] w3 _. apply at_seq. apply seq_bind; [|intros []; apply seq_Ret].
    destruct (_ && _); [apply seq_retry|apply seq_Ret].
Qed.

Lemma address_tx_run u now w :
  run (address_tx u now) w =
  match to_db_time now "updated_at" with
  | SErr e => Some (SErr e, w)
  | SOk now => Some (SOk tt, set_db (fun t => bump_node_map_revision (touch_node_row (au_relay_id u) now
      (update_address_row (au_relay_id u) 1 (au_ips u).2 now
        (update_address_row (au_relay_id u) 0 (au_ips u).1 now t)))) w)
  end.
Proof. unfold address_tx. autorewrite with runs. by destruct (to_db_time now _). Qed.

Lemma seq_update_addresses u :
  ip_wf (au_ips u).1 -> ip_wf (au_ips u).2 -> Seq (update_relay_node_addresses u).
Proof.
  intros Hip1 Hip2 w r w' HI. revert r w' HI. fold (SeqAt (update_relay_node_addresses u) w).
  apply at_lift. intros [] _. apply at_read; [apply reads_get_relay_node|]. intros o w1 _ _.
  apply at_lift. intros existing _. apply at_lift. intros [] Hlive. clear Hlive.
  case_bool_decide; [apply at_seq, seq_Ret|]. apply at_read; [reads|]. intros now w2 _ _. apply at_bind.
  - apply at_transaction. intros [] w' HI. rewrite address_tx_run. destruct (to_db_time _ _) as [now'|]; [|done].
    intros Hr. injection Hr as <-. split.
    + eapply wf_same_rows; [..|apply wf_touch, wf_update_address, Hip2; apply wf_update_address, Hip1; exact HI]; done.
    + constructor; simpl; [|lia|lia| |exists []; by rewrite app_nil_r].
      * intros zone row Hz. exists row. split_and!; [done|lia|done|done].
      * intros i row Hrow Hd. destruct (decide (au_relay_id u = i)) as [->|Hne].
        -- rewrite lookup_alter_eq, Hrow. by eexists.
        -- rewrite lookup_alter_ne by done. eauto.
  - intros [] w3 _. apply at_seq, seq_reads. unfold get_relay_node. reads.
Qed.

(** ** Migration *)

(** An assignment that was read is the row of the tables. *)
Lemma read_assignment zone w o w1 :
  Inv w -> run (get_zone_relay zone) w = Some (SOk o, w1) ->
  match o with
  | None => t_assignments (w_db w) !! zone = None
  | Some a => exists row, t_assignments (w_db w) !! zone = Some row /\ reads_as_assignment (w_db w) zone row a
  end.
Proof.
  intros HI. unfold get_zone_relay. autorewrite with runs. destruct (check_non_empty _ _) as [[]|]; [|done].
  autorewrite with runs. intros Hr. pose proof (select_assignment_ok (w_db w) zone HI) as Hs.
  destruct (t_assignments (w_db w) !! zone) as [row|].
  - destruct Hs as (a & Ha & Hread). rewrite Ha in Hr. simplify_eq. eauto.
  - rewrite Hs in Hr. by simplify_eq.
Qed.

Lemma seq_start_migration req : Seq (start_relay_migration req).
Proof.
  intros w r w' HI Hr. split.
  { by destruct (Safe_run Inv Grow _ _ _ w r w' (good_start_migration true req (fun _ => True) stable_true) HI I Hr). }
  revert Hr. unfold start_relay_migration. autorewrite with runs.
  destruct (check_non_empty _ _) as [[]|]; [|intros; simplify_eq; apply tables_step_refl].
  destruct (run (choose_relay_node _) w) as [[[target|e] w1]|] eqn:Ec; [| |done].
  2: { intros; simplify_eq. rewrite (reads_choose_relay_node _ _ _ _ Ec). apply tables_step_refl. }
  pose proof (reads_choose_relay_node _ _ _ _ Ec) as Hdb1. rewrite run_let.
  assert (HI1 : Inv w1) by (unfold Inv; by rewrite Hdb1).
  destruct (run (get_zone_relay _) w1) as [[[o|e] w2]|] eqn:Eg; [| |done].
  2: { intros; simplify_eq. rewrite (reads_get_zone_relay _ _ _ _ Eg), Hdb1. apply tables_step_refl. }
  pose proof (reads_get_zone_relay _ _ _ _ Eg) as Hdb2. pose proof (read_assignment _ _ _ _ HI1 Eg) as Hread.
  rewrite <- Hdb1, <- Hdb2 in *. autorewrite with runs.
  destruct o as [existing|]; simpl some_or; [|intros; simplify_eq/=; apply tables_step_refl]. cbv iota beta. autorewrite with runs.
  destruct (refuse_if _ _) as [[]|]; [|intros; simplify_eq; apply tables_step_refl]. autorewrite with runs.
  destruct Hread as (old & Hold & Hz & Hid & _ & _ & _ & Hg & Hg1 & _).
  set (w3 := with_ticks _ _).
  destruct (run (upsert_assignment _) w3) as [[r4 w4]|] eqn:Eu; [|done].
  assert (Hs : tables_step (w_db w2) (w_db w4)).
  { change (w_db w2) with (w_db w3). apply (seq_upsert _ w3 r4 w4) in Eu; [done|unfold Inv; simpl; by rewrite Hdb2|].
    simpl. rewrite Hz. intros old'. rewrite Hold. intros [= <-]. rewrite <- Hg. intros Hlt.
    rewrite generation_next by done. lia. }
  destruct r4; autorewrite with runs; intros; simplify_eq; done.
Qed.

Lemma seq_complete_migration zone g : Seq (complete_relay_migration zone g).
Proof.
  intros w r w' HI. revert r w' HI. fold (SeqAt (complete_relay_migration zone g) w).
  apply at_lift. intros [] _. apply at_read; [reads|]. intros now w1 _ _.
  apply at_lift. intros now' _. apply at_lift. intros g' _. apply at_bind; [|intros b w2 _; apply at_seq, seq_Ret].
  intros r w' HI. unfold execute_checked. rewrite run_atomic.
  pose proof (wf_complete_migration zone g' now' (w_db w1) HI) as Hwf. revert Hwf.
  destruct (complete_migration_row zone g' now' (w_db w1)) as [b t] eqn:E. simpl. intros Hwf Hr. injection Hr as <- <-.
  split; [done|]. simpl. revert E. unfold complete_migration_row.
  destruct (t_assignments (w_db w1) !! zone) as [row|] eqn:Erow; [|intros [= <- <-]; apply tables_step_refl].
  destruct (_ && _); intros [= <- <-]; [|apply tables_step_refl].
  constructor; simpl; [|lia|done|eauto|exists []; by rewrite app_nil_r].
  intros z r Hr. destruct (decide (z = zone)) as [->|Hne].
  - rewrite lookup_insert_eq. eexists. split; [done|]. simplify_eq. simpl. split_and!; [lia|done|done].
  - rewrite lookup_insert_ne by done. exists r. split_and!; [done|lia|done|done].
Qed.

(** ** Histories *)

Definition typed_call (c : RelayCall) : Prop :=
  match c with
  | CallRegisterNode node => ip_wf (rg_ips node).1 /\ ip_wf (rg_ips node).2
  | CallUpdateAddresses u => ip_wf (au_ips u).1 /\ ip_wf (au_ips u).2
  | _ => True
  end.

Lemma seq_task c : typed_call c -> Seq (relay_task self c).
Proof.
  intros Hc. destruct c; unfold relay_task; (apply seq_tbind; [|intros; apply seq_Ret]).
  - by apply seq_register; apply Hc.
  - apply seq_heartbeat.
  - by apply seq_update_addresses; apply Hc.
  - apply seq_reads, reads_get_relay_node.
  - apply seq_reads. unfold list_relay_nodes. reads.
  - apply seq_reads. unfold get_relay_nodes_ip_map_snapshot. reads.
  - apply seq_assign.
  - apply seq_allocate.
  - apply seq_reads, reads_get_zone_relay.
  - apply seq_admission.
  - apply seq_start_migration.
  - apply seq_complete_migration.
Qed.

(** Requests served one after the other. *)
Fixpoint run_calls (cs : list RelayCall) (w : World) : option World :=
  match cs with
  | [] => Some w
  | c :: cs' => match run (relay_task self c) w with Some (_, w') => run_calls cs' w' | None => None end
  end.

Lemma seq_calls cs w w' :
  Forall typed_call cs -> Inv w -> run_calls cs w = Some w' -> Inv w' /\ tables_step (w_db w) (w_db w').
Proof.
  intros Hcs. revert w. induction Hcs as [|c cs Hc Hcs IH]; intros w HI Hr; simpl in Hr.
  - simplify_eq. split; [done|apply tables_step_refl].
  - destruct (run (relay_task self c) w) as [[r w1]|] eqn:E; [|done].
    destruct (seq_task c Hc w r w1 HI E) as [HI1 Hs1]. destruct (IH w1 HI1 Hr) as [HI' Hs'].
    split; [done|by eapply tables_step_trans].
Qed.
End steps.
