(* ===== verification/RelayFacts.v ===== *)
(** * Relay manager: theorems *)

From S2P Require Import Prelude IpAddr Tasks RelayModel RelayStore Relay RelaySafe RelayInv RelaySeq.

(** ** The order of load *)

Definition capacity (n : RelayNode) : Z := Z.max (rn_capacity_score n) 1.

(** A node comes before another: a smaller share of its capacity is used, or the
    same share of a larger capacity, or it has the smaller name. *)
Definition load_le (l r : RelayNode) : Prop :=
  rn_current_load l * capacity r < rn_current_load r * capacity l \/
  (rn_current_load l * capacity r = rn_current_load r * capacity l /\
   (rn_capacity_score r < rn_capacity_score l \/
    (rn_capacity_score r = rn_capacity_score l /\ String.leb (rn_relay_id l) (rn_relay_id r) = true))).

Lemma load_leb_le l r : load_leb l r = true <-> load_le l r.
Proof.
  unfold load_leb, compare_relay_load, load_le, capacity. cbv zeta.
  destruct (Z.compare_spec (rn_current_load l * Z.max (rn_capacity_score r) 1)
              (rn_current_load r * Z.max (rn_capacity_score l) 1)); [|naive_solver lia|naive_solver lia].
  destruct (Z.compare_spec (rn_capacity_score r) (rn_capacity_score l)); [|naive_solver lia|naive_solver lia].
  unfold String.leb. destruct (String.compare _ _); naive_solver lia.
Qed.

Lemma ratio_trans a b c x y z :
  0 < x -> 0 < y -> 0 < z -> a * y <= b * x -> b * z <= c * y ->
  a * z <= c * x /\ (a * z = c * x -> a * y = b * x /\ b * z = c * y).
Proof.
  intros Hx Hy Hz H1 H2.
  assert (E1 : a * y * z <= b * x * z) by (by apply Z.mul_le_mono_nonneg_r; [lia|]).
  assert (E2 : b * z * x <= c * y * x) by (by apply Z.mul_le_mono_nonneg_r; [lia|]).
  assert (E3 : a * z * y <= c * x * y) by lia.
  split; [by apply (Z.mul_le_mono_pos_r _ _ y)|]. intros E.
  assert (E4 : a * z * y = c * x * y) by congruence.
  split; [apply (Z.mul_reg_r _ _ z)|apply (Z.mul_reg_r _ _ x)]; lia.
Qed.

Lemma load_le_trans l m r : load_le l m -> load_le m r -> load_le l r.
Proof.
  intros H1 H2. unfold load_le in *.
  destruct (ratio_trans (rn_current_load l) (rn_current_load m) (rn_current_load r)
    (capacity l) (capacity m) (capacity r)) as [Hle Heq]; [unfold capacity; lia..|lia|lia|].
  destruct (Z.eq_dec (rn_current_load l * capacity r) (rn_current_load r * capacity l)) as [E|E]; [|lia].
  right. split; [done|]. destruct (Heq E). destruct H1 as [|(_ & H1)]; [lia|]. destruct H2 as [|(_ & H2)]; [lia|].
  destruct H1 as [|[? H1]], H2 as [|[? H2]]; try (left; lia). right. split; [lia|]. by eapply text_leb_trans.
Qed.

Lemma load_le_total l r : load_leb l r = false -> load_leb r l = true.
Proof.
  intros H. apply load_leb_le. assert (Hn : ~ load_le l r) by (rewrite <- load_leb_le; congruence).
  unfold load_le in *. destruct (String.leb (rn_relay_id r) (rn_relay_id l)) eqn:E.
  - destruct (Z.lt_trichotomy (rn_current_load r * capacity l) (rn_current_load l * capacity r)) as [|[]];
      [lia| |lia]. right. split; [lia|].
    destruct (Z.lt_trichotomy (rn_capacity_score l) (rn_capacity_score r)) as [|[]]; [lia|auto|].
    exfalso. apply Hn. right. split; [lia|lia].
  - apply text_leb_total in E.
    destruct (Z.lt_trichotomy (rn_current_load r * capacity l) (rn_current_load l * capacity r)) as [|[]];
      [lia| |lia]. right. split; [lia|].
    destruct (Z.lt_trichotomy (rn_capacity_score l) (rn_capacity_score r)) as [|[]]; [lia| |];
      exfalso; apply Hn; right; (split; [lia|]); [right|left]; auto with lia.
Qed.

Lemma sorted_by_load nodes : StronglySorted load_le (stable_sort load_leb nodes).
Proof.
  assert (Hs : StronglySorted (fun x y => load_leb x y = true) (stable_sort load_leb nodes)).
  { apply stable_sort_sorted; [apply load_le_total|]. intros x y z. rewrite !load_leb_le. apply load_le_trans. }
  induction Hs as [|x l _ IH Hall]; constructor; [done|]. eapply Forall_impl; [exact Hall|].
  intros y. apply load_leb_le.
Qed.

(** ** Selection *)

Section selection.
Context `{CharTables}.
Implicit Types (self : RelayManager) (node : RelayNode).

(** The node satisfies the rule for what is known of the source. *)
Definition rule_matches (region : option string) (geo : option GeoIpInfo) (rule : RelayMatchRule) node : Prop :=
  exists value, rule_value rule region geo = Some value /\ node_matches_rule node rule value = true.

(** The best of the nodes with a property. *)
Definition least_loaded (P : RelayNode -> Prop) (nodes : list RelayNode) node : Prop :=
  node ∈ nodes /\ rn_status node = RnActive /\ P node /\
  forall other, other ∈ nodes -> rn_status other = RnActive -> P other -> load_le node other.

Lemma load_le_refl l : load_le l l.
Proof.
  right. split; [lia|]. right. split; [lia|].
  destruct (String.leb (rn_relay_id l) (rn_relay_id l)) eqn:E; [done|]. by apply text_leb_total in E as E'; congruence.
Qed.

Lemma find_sorted (P : RelayNode -> bool) l node :
  StronglySorted load_le l -> List.find P l = Some node ->
  node ∈ l /\ P node = true /\ forall other, other ∈ l -> P other = true -> load_le node other.
Proof.
  induction 1 as [|x l Hs IH Hall]; simpl; [done|]. destruct (P x) eqn:E.
  - intros [= <-]. split_and!; [left|done|]. intros other [->|Ho]%elem_of_cons _; [apply load_le_refl|].
    rewrite Forall_forall in Hall. by apply Hall.
  - intros Hf. destruct (IH Hf) as (Hin & HP & Hmin). split_and!; [by right|done|].
    intros other [->|Ho]%elem_of_cons HPo; [congruence|auto].
Qed.

Lemma active_elem nodes node :
  node ∈ stable_sort load_leb (List.filter is_assignable_node nodes) <-> node ∈ nodes /\ rn_status node = RnActive.
Proof.
  rewrite stable_sort_Permutation, list_elem_of_In, filter_In, <- list_elem_of_In.
  unfold is_assignable_node. by rewrite bool_decide_eq_true.
Qed.

Lemma first_match_spec rules region geo nodes :
  let active := stable_sort load_leb (List.filter is_assignable_node nodes) in
  match first_match rules region geo active with
  | Some sel =>
      sel_fallback sel = false /\
      exists before rule after, rules = before ++ rule :: after /\ sel_rule sel = match_rule_str rule /\
        least_loaded (rule_matches region geo rule) nodes (sel_node sel) /\
        forall r node, r ∈ before -> node ∈ nodes -> rn_status node = RnActive -> ~ rule_matches region geo r node
  | None =>
      forall r node, r ∈ rules -> node ∈ nodes -> rn_status node = RnActive -> ~ rule_matches region geo r node
  end.
Proof.
  intros active. induction rules as [|rule rules IH]; simpl.
  { intros r node Hr. by apply elem_of_nil in Hr. }
  assert (Hskip : (forall node, node ∈ nodes -> rn_status node = RnActive -> ~ rule_matches region geo rule node) ->
    match first_match rules region geo active with
    | Some sel =>
        sel_fallback sel = false /\
        exists before r after, rule :: rules = before ++ r :: after /\ sel_rule sel = match_rule_str r /\
          least_loaded (rule_matches region geo r) nodes (sel_node sel) /\
          forall r0 node, r0 ∈ before -> node ∈ nodes -> rn_status node = RnActive -> ~ rule_matches region geo r0 node
    | None => forall r node, r ∈ rule :: rules -> node ∈ nodes -> rn_status node = RnActive -> ~ rule_matches region geo r node
    end).
  { intros Hno. destruct (first_match rules region geo active) as [sel|].
    - destruct IH as (Hf & before & r & after & -> & Hr & Hl & Hb). split; [done|].
      exists (rule :: before), r, after. split_and!; [done|done|done|].
      intros r0 node [->|Hr0]%elem_of_cons; [by apply Hno|by apply Hb].
    - intros r node [->|Hr]%elem_of_cons; [by apply Hno|by apply IH]. }
  destruct (rule_value rule region geo) as [value|] eqn:Ev.
  - destruct (List.find _ active) as [node|] eqn:Ef.
    + destruct (find_sorted _ _ _ (sorted_by_load _) Ef) as (Hin & Hm & Hmin). apply active_elem in Hin as [Hin Hst].
      split; [done|]. exists [], rule, rules. split_and!; [done|done| |by intros ? ? ?%elem_of_nil].
      split_and!; [done|done|by exists value|]. intros other Ho Hso (v & Hv & Hmo). simplify_eq.
      apply Hmin; [by apply active_elem|done].
    + apply Hskip. intros node Hin Hst (v & Hv & Hmo). simplify_eq.
      assert (Ha : node ∈ active) by (by apply active_elem).
      apply list_elem_of_In in Ha. pose proof (List.find_none _ _ Ef node Ha) as Hn. simpl in Hn. congruence.
  - apply Hskip. intros node _ _ (v & Hv & _). congruence.
Qed.

(** The automatic choice takes the first rule that some active node
    satisfies and, of the active nodes that satisfy it, the one with the least
    share of its capacity in use; without such a rule it takes the least loaded
    node the fallback list allows, and it fails exactly when there is none. *)
Theorem select_relay_exact self region geo nodes :
  let rules := match_rules (rm_allocation_config self) in
  let unmatched rs := forall r node, r ∈ rs -> node ∈ nodes -> rn_status node = RnActive -> ~ rule_matches region geo r node in
  let allowed node := fallback_allows (rm_allocation_config self) node = true in
  match select_relay self region geo nodes with
  | SOk sel =>
      if sel_fallback sel
      then unmatched rules /\ sel_rule sel = "fallback" /\ least_loaded allowed nodes (sel_node sel)
      else exists before rule after, rules = before ++ rule :: after /\ unmatched before /\
             sel_rule sel = match_rule_str rule /\
             least_loaded (rule_matches region geo rule) nodes (sel_node sel)
  | SErr e =>
      se_code e = EcNotFound /\ unmatched rules /\
      forall node, node ∈ nodes -> rn_status node = RnActive -> ~ allowed node
  end.
Proof.
  intros rules unmatched allowed. unfold select_relay. fold rules.
  pose proof (first_match_spec rules region geo nodes) as Hm. cbv zeta in Hm.
  destruct (first_match rules region geo _) as [sel|].
  - destruct Hm as (-> & before & rule & after & Hr & Hs & Hl & Hb). exists before, rule, after. auto.
  - destruct (List.find _ _) as [node|] eqn:Ef; simpl.
    + destruct (find_sorted _ _ _ (sorted_by_load _) Ef) as (Hin & Hok & Hmin). apply active_elem in Hin as [Hin Hst].
      split_and!; [done|done|]. split_and!; [done|done|done|]. intros other Ho Hso Hao.
      apply Hmin; [by apply active_elem|done].
    + split_and!; [done|done|]. intros node Hin Hst Hok.
      assert (Ha : node ∈ stable_sort load_leb (List.filter is_assignable_node nodes)) by (by apply active_elem).
      apply list_elem_of_In in Ha. pose proof (List.find_none _ _ Ef node Ha) as Hn. simpl in Hn. unfold allowed in Hok.
      congruence.
Qed.
End selection.

(** ** Every interleaving *)

Definition error_of {A} (r : SnResult A) : option SnError :=
  match r with SOk _ => None | SErr e => Some e end.

Definition reply_error (r : RelayReply) : option SnError :=
  match r with
  | ReplyNode r => error_of r
  | ReplyHealth r => error_of r
  | ReplyOptNode r => error_of r
  | ReplyNodes r => error_of r
  | ReplyIpMap r => error_of r
  | ReplyAssignment r => error_of r
  | ReplyOptAssignment r => error_of r
  | ReplyDecision r => error_of r
  | ReplyUnit r => error_of r
  end.

(** A registration may lose a race for its [relay_sn]; an admission passes on
    the errors of the device database. *)
Definition may_fail_in_db (self : RelayManager) (c : RelayCall) : bool :=
  match c with
  | CallRegisterNode _ => true
  | CallAdmission _ => rm_has_device_info_db self
  | _ => false
  end.

Definition reply_readable (self : RelayManager) (c : RelayCall) (r : RelayReply) : Prop :=
  may_fail_in_db self c = false -> forall e, reply_error r = Some e -> se_code e <> EcDBError.

Section facts.
Context `{NamedLocker, DeviceInfoDB, Clock, JsonStrings, !JsonStringsLaws, SqlNumbers, CharTables}.
Context (self : RelayManager).

Lemma safe_reply {A} (t : T A) (f : SnResult A -> RelayReply) c :
  (forall r, reply_error (f r) = error_of r) ->
  Safe Inv Grow t (fun _ => True) (Good (negb (may_fail_in_db self c)) (fun _ _ => True)) ->
  Safe Inv Grow (tbind t (fun r => Ret (f r))) (fun _ => True) (fun r _ => reply_readable self c r).
Proof.
  intros Hf Ht. eapply Safe_tbind; [exact Ht|]. intros r w _ Hr Hc e. rewrite Hf. destruct r as [a|e']; [done|].
  intros [= ->]. apply Hr. by rewrite Hc.
Qed.

Lemma safe_task c : typed_call c ->
  Safe Inv Grow (relay_task self c) (fun _ => True) (fun r _ => reply_readable self c r).
Proof.
  intros Hc. set (strict := negb (may_fail_in_db self c)).
  destruct c; unfold relay_task; (apply safe_reply; [by intros []|]).
  - by apply good_register; [apply stable_true|done|apply Hc|apply Hc].
  - apply good_heartbeat, stable_true.
  - by apply good_update_addresses; [apply stable_true|apply Hc|apply Hc].
  - eapply good_mono; [apply good_get_relay_node, stable_true|done].
  - eapply good_mono; [apply good_list_relay_nodes, stable_true|done].
  - eapply good_mono; [apply good_ip_map, stable_true|done].
  - apply good_assign_zone_relay, stable_true.
  - apply good_allocate, stable_true.
  - eapply good_mono; [apply good_get_zone_relay, stable_true|done].
  - apply good_admission; [apply stable_true|]. simpl. by intros ->.
  - apply good_start_migration, stable_true.
  - apply good_complete_migration, stable_true.
Qed.

(** C29: Whatever requests arrive and however their actions interleave, the
    relay tables stay well formed (every node row with its two canonical
    addresses, its JSON columns and its status readable, [relay_sn] unique, every
    assignment naming an existing node with a generation of at least one), so no
    request meets a row it cannot read: an error of the database only comes from
    a registration that loses a race for its [relay_sn] or from the device
    database. *)
Theorem relay_invariant w s :
  tables_wf (w_db w) -> rtc (sys_step (relay_task self) typed_call) (started w) s ->
  tables_wf (w_db (sys_world s)) /\ Forall (fun cr => reply_readable self cr.1 cr.2) (sys_replies s).
Proof.
  intros Hwf Hs.
  destruct (sys_safe Inv Grow (relay_task self) typed_call (reply_readable self) w s safe_task Hwf Hs) as (HI & _ & Hr).
  done.
Qed.

(** A request that runs alone always ends, and holds no lock afterwards,
    whatever the tables contain. *)
Theorem relay_requests_end `{!NamedLockerLaws} c w :
  no_lock_held w -> exists r w', run (relay_task self c) w = Some (r, w') /\ no_lock_held w'.
Proof. apply ends_task. Qed.

(** ** One request after the other *)

(** C31: In a history of requests that do not overlap, the generation of a zone
    never decreases, and two assignments of the zone with the same generation
    name the same relay; the row keeps the time it was created. *)
Theorem generation_names_relay cs w w' zone row :
  Forall typed_call cs -> tables_wf (w_db w) -> run_calls self cs w = Some w' ->
  t_assignments (w_db w) !! zone = Some row ->
  exists row', t_assignments (w_db w') !! zone = Some row' /\
    aw_generation row <= aw_generation row' /\
    (aw_generation row' = aw_generation row -> aw_relay_id row' = aw_relay_id row) /\
    aw_created_at row' = aw_created_at row.
Proof.
  intros Hcs Hwf Hr Hrow. destruct (seq_calls self cs w w' Hcs Hwf Hr) as [_ Hstep].
  destruct (ts_generation _ _ Hstep zone row Hrow) as (row' & Hrow' & Hle & Hlt & Hc). exists row'.
  split_and!; [done|done| |done]. intros E. destruct (decide (aw_relay_id row' = aw_relay_id row)) as [|Hne]; [done|].
  specialize (Hlt Hne). lia.
Qed.

(** In such a history a deleted node stays deleted: it can neither be
    registered again nor come back by a heartbeat. *)
Theorem deleted_node_stays cs w w' id row :
  Forall typed_call cs -> tables_wf (w_db w) -> run_calls self cs w = Some w' ->
  t_nodes (w_db w) !! id = Some row -> nr_status row = as_str RnDeleted ->
  exists row', t_nodes (w_db w') !! id = Some row' /\ nr_status row' = as_str RnDeleted.
Proof.
  intros Hcs Hwf Hr. destruct (seq_calls self cs w w' Hcs Hwf Hr) as [_ Hstep]. apply (ts_deleted _ _ Hstep).
Qed.

(** What an entry of the map shows, without its time. *)
Definition shown (e : RelayNodeIpEntry) : string * string * (IpAddr * IpAddr) * RelayNodeStatus :=
  (ie_relay_id e, ie_relay_sn e, ie_ips e, ie_status e).

Lemma mapS_inv {A B} (f : A -> SnResult B) l bs : mapS f l = SOk bs -> Forall2 (fun a b => f a = SOk b) l bs.
Proof.
  revert bs. induction l as [|a l IH]; intros bs; simpl; [intros [= <-]; constructor|].
  rewrite sbind_ok. intros (b & Hb & Hr). rewrite sbind_ok in Hr. destruct Hr as (bs' & Hbs & [= <-]).
  constructor; [done|by apply IH].
Qed.

Lemma parse_enum_inv {A} `{StringEnum A} v field (a : A) : parse_db_enum v field = SOk a -> as_str a = v.
Proof.
  unfold parse_db_enum, from_str. destruct (List.find _ _) as [b|] eqn:E; [|done]. intros [= <-].
  by apply find_Some in E as [_ E%String.eqb_eq].
Qed.

(** What an entry and the view of the map have in common. *)
Definition in_view (t : Tables) (e : string * string * (IpAddr * IpAddr) * RelayNodeStatus) : Prop :=
  exists ip0 ip1, map_view t !! e.1.1.1 = Some (e.1.1.2, Some ip0, Some ip1, as_str e.2) /\
    parse_stored_ip (Some ip0) 0 = SOk e.1.2.1 /\ parse_stored_ip (Some ip1) 1 = SOk e.1.2.2.

Lemma map_view_lookup t id v :
  map_view t !! id = Some v <->
  exists row, t_nodes t !! id = Some row /\ nr_status row <> as_str RnDeleted /\
    v = (nr_relay_sn row, stored_ip t id 0, stored_ip t id 1, nr_status row).
Proof.
  unfold map_view. rewrite map_lookup_imap. destruct (t_nodes t !! id) as [row|]; cbn [mbind option_bind]; [|naive_solver].
  destruct (String.eqb_spec (nr_status row) (as_str RnDeleted)); naive_solver.
Qed.

Lemma ip_entry_view t id row en :
  t_nodes t !! id = Some row -> nr_status row <> as_str RnDeleted ->
  ip_entry t id row = SOk en -> in_view t (shown en).
Proof.
  intros Hrow Hlive. unfold ip_entry.
  destruct (t_addresses t !! (id, 0%nat)) as [a0|] eqn:E0; [|done].
  destruct (t_addresses t !! (id, 1%nat)) as [a1|] eqn:E1; [|done].
  rewrite sbind_ok. intros (ip0 & Hp0 & Hr). rewrite sbind_ok in Hr. destruct Hr as (ip1 & Hp1 & Hr).
  rewrite sbind_ok in Hr. destruct Hr as (st & Hst & [= <-]). exists (ad_ip a0), (ad_ip a1).
  split_and!; [|done|done]. apply map_view_lookup. exists row. split_and!; [done|done|].
  apply parse_enum_inv in Hst. unfold shown, stored_ip. cbn. rewrite E0, E1. cbn in *. by rewrite Hst.
Qed.

Lemma view_ip_entry t e :
  in_view t e -> exists row en, t_nodes t !! e.1.1.1 = Some row /\ nr_status row <> as_str RnDeleted /\
    ip_entry t e.1.1.1 row = SOk en /\ shown en = e.
Proof.
  destruct e as [[[id sn] [ip0 ip1]] st]. intros (x0 & x1 & (row & Hrow & Hlive & Hv)%map_view_lookup & Hp0 & Hp1).
  cbn in *. injection Hv as -> Hs0 Hs1 Hst. unfold stored_ip in *. exists row.
  destruct (t_addresses t !! (id, 0%nat)) as [a0|] eqn:E0; [|done].
  destruct (t_addresses t !! (id, 1%nat)) as [a1|] eqn:E1; [|done]. cbn in *.
  injection Hs0 as ->. injection Hs1 as ->. unfold ip_entry. rewrite E0, E1, Hp0, Hp1. simpl.
  rewrite (parse_enum_ok st) by done. eexists. split_and!; done.
Qed.

(** A snapshot lists exactly the view of the map. *)
Lemma snapshot_view w snap w' :
  run (get_relay_nodes_ip_map_snapshot None) w = Some (SOk (Some snap), w') ->
  sn_revision snap = i64_to_u64 (t_node_map_revision (w_db w)) /\
  forall e, e ∈ (shown <$> sn_nodes snap) <-> in_view (w_db w) e.
Proof.
  unfold get_relay_nodes_ip_map_snapshot. autorewrite with runs. cbv zeta.
  rewrite bool_decide_eq_false_2 by done. destruct (mapS _ _) as [es|] eqn:Em; cbn [sbind]; [|done].
  autorewrite with runs. intros Hr. injection Hr as <- _. split; [done|]. cbn [sn_nodes].
  apply mapS_inv in Em.
  assert (Hin : forall id row, (id, row) ∈ List.filter (fun '(_, row) => negb (String.eqb (nr_status row) (as_str RnDeleted)))
    (node_rows (w_db w)) <-> t_nodes (w_db w) !! id = Some row /\ nr_status row <> as_str RnDeleted).
  { intros id row. rewrite list_elem_of_In, filter_In, <- list_elem_of_In, node_rows_elem, negb_true_iff, String.eqb_neq.
    done. }
  intros e. rewrite list_elem_of_fmap. split.
  - intros (en & -> & Hen). apply list_elem_of_lookup in Hen as [i Hi].
    destruct (Forall2_lookup_r _ _ _ _ _ Em Hi) as ([id row] & Hl & Hok).
    apply list_elem_of_lookup_2, Hin in Hl as [Hrow Hlive]. by eapply ip_entry_view.
  - intros (row & en & Hrow & Hlive & Hok & He)%view_ip_entry.
    assert (Hl : (e.1.1.1, row) ∈ List.filter (fun '(_, row) => negb (String.eqb (nr_status row) (as_str RnDeleted)))
      (node_rows (w_db w))) by (by apply Hin).
    apply list_elem_of_lookup in Hl as [i Hi]. destruct (Forall2_lookup_l _ _ _ _ _ Em Hi) as (en' & Hi' & Hok').
    exists en'. rewrite Hok in Hok'. simplify_eq. split; [done|by eapply list_elem_of_lookup_2].
Qed.

(** C34: In a history of requests that do not overlap, a client that kept a
    snapshot of the node map and is told that its revision is current has the
    current map: a new snapshot would list the same nodes with the same names,
    addresses and status. *)
Theorem unchanged_map_is_current cs w snap w1 w2 w3 snap' w4 e :
  Forall typed_call cs -> tables_wf (w_db w) -> 0 <= t_node_map_revision (w_db w) ->
  run (get_relay_nodes_ip_map_snapshot None) w = Some (SOk (Some snap), w1) ->
  run_calls self cs w1 = Some w2 ->
  run (get_relay_nodes_ip_map_snapshot (Some (sn_revision snap))) w2 = Some (SOk None, w3) ->
  run (get_relay_nodes_ip_map_snapshot None) w2 = Some (SOk (Some snap'), w4) ->
  e ∈ (shown <$> sn_nodes snap') <-> e ∈ (shown <$> sn_nodes snap).
Proof.
  intros Hcs Hwf Hrev Hsnap Hcalls Hcond Hsnap'.
  assert (Hdb : w_db w1 = w_db w).
  { assert (Hreads : Reads (get_relay_nodes_ip_map_snapshot None))
      by (unfold get_relay_nodes_ip_map_snapshot; reads). by apply (Hreads w (SOk (Some snap))). }
  destruct (seq_calls self cs w1 w2 Hcs) as [_ Hstep]; [unfold Inv; by rewrite Hdb|done|].
  destruct (snapshot_view _ _ _ Hsnap) as [Hr1 Hv1]. destruct (snapshot_view _ _ _ Hsnap') as [Hr2 Hv2].
  rewrite Hv1, Hv2. rewrite Hdb in Hstep. pose proof (ts_revision _ _ Hstep) as Hle.
  assert (Heq : t_node_map_revision (w_db w2) = t_node_map_revision (w_db w)).
  { revert Hcond. unfold get_relay_nodes_ip_map_snapshot at 1. autorewrite with runs. cbv zeta.
    case_bool_decide as E; [|destruct (mapS _ _); cbn [sbind]; autorewrite with runs; done].
    intros _. injection E as E. rewrite Hr1 in E. unfold i64_to_u64 in E.
    destruct (Z.ltb_spec (t_node_map_revision (w_db w)) 0); [lia|].
    destruct (Z.ltb_spec (t_node_map_revision (w_db w2)) 0); lia. }
  unfold in_view. by rewrite (ts_map _ _ Hstep Heq).
Qed.
End facts.
