(* ===== verification/RelayProtocol.v ===== *)
(** * Relay manager: admission, allocation and migration

    What the requests that decide over a zone do, each running alone: the exact
    condition of an admission, that a repeated allocation does not move a zone,
    and the protocol of a migration. *)

From S2P Require Import Prelude IpAddr Tasks RelayModel RelayStore Relay RelaySafe RelayInv RelaySeq.

Section protocol.
Context `{NamedLocker, DeviceInfoDB, Clock, JsonStrings, !JsonStringsLaws, SqlNumbers, CharTables}.
Context (self : RelayManager).

Lemma get_zone_relay_run zone w :
  run (get_zone_relay zone) w =
  Some (sbind (check_non_empty zone "zone") (fun _ => select_assignment zone (w_db w)), w).
Proof. unfold get_zone_relay. autorewrite with runs. by destruct (check_non_empty zone "zone"). Qed.

Lemma get_relay_node_run id w :
  run (get_relay_node id) w =
  Some (sbind (check_non_empty id "relay_id") (fun _ => select_node id (w_db w)), w).
Proof. unfold get_relay_node. autorewrite with runs. by destruct (check_non_empty id "relay_id"). Qed.

(** ** Admission *)

Definition event_of (d : RelayAdmissionDecision) : EventRow :=
  {| ev_request_id := dc_request_id d; ev_relay_id := dc_relay_id d; ev_zone := dc_zone d;
     ev_device_name := dc_device_name d; ev_did := dc_did d; ev_decision := as_str (dc_decision d);
     ev_reason := as_str (dc_reason d); ev_expected_relay_sn := dc_expected_relay_sn d;
     ev_assignment_generation := dc_assignment_generation d; ev_observed_ip := dc_observed_ip d;
     ev_created_at := dc_created_at d |}.

(** A decision that was made, and its event. *)
Definition decided (req : RelayAdmissionReq) (w w' : World) (d : RelayAdmissionDecision)
    (kind : RelayAdmissionDecisionKind) (generation : option Z) : Prop :=
  dc_zone d = aq_zone req /\ dc_relay_id d = aq_relay_id req /\ dc_decision d = kind /\
  dc_assignment_generation d = generation /\
  dc_admission_expires_at d =
    (if bool_decide (kind = AdAllow)
     then Some (u64_saturating_add (dc_created_at d) (rm_admission_ttl_secs self)) else None) /\
  w_db w' = on_events (fun l => l ++ [event_of d]) (w_db w).

Lemma decision_run req kind reason sn g w d w' :
  run (build_admission_decision self req kind reason sn g) w = Some (SOk d, w') -> decided req w w' d kind g.
Proof.
  unfold build_admission_decision, record_admission_event. autorewrite with runs. cbv zeta. autorewrite with runs.
  cbn [dc_assignment_generation dc_created_at]. destruct (to_db_time_opt g _) as [g'|] eqn:Eg; [|done].
  autorewrite with runs. destruct (to_db_time _ _) as [c|] eqn:Ec; [|done]. autorewrite with runs.
  intros Hr. injection Hr as <- <-. apply to_db_time_opt_ok in Eg as ->. apply to_db_time_ok in Ec as [-> _].
  unfold decided. split_and!; done.
Qed.

(** The row of the zone admits the request. *)
Definition admits (req : RelayAdmissionReq) (w : World) (row : AssignmentRow) : Prop :=
  (aw_state row = as_str RaActive \/ aw_state row = as_str RaMigrating) /\
  (forall g, aq_assignment_generation req = Some g -> g = aw_generation row) /\
  (exists w1, run (verify_device_binding self req) w = Some (SOk true, w1)) /\
  aq_relay_id req = aw_relay_id row /\
  exists node, t_nodes (w_db w) !! aw_relay_id row = Some node /\ nr_status node = as_str RnActive.

Lemma reads_verify req : Reads (verify_device_binding self req).
Proof. unfold verify_device_binding. reads. Qed.

(** What the theorem says of a decision. *)
Definition outcome req w row d w' : Prop :=
  (dc_decision d = AdAllow <-> admits req w row) /\
  decided req w w' d (dc_decision d) (Some (aw_generation row)).

Lemma verdict req w w0 row a kind reason sn d w' :
  w_db w0 = w_db w -> as_generation a = aw_generation row ->
  run (build_admission_decision self req kind reason sn (Some (as_generation a))) w0 = Some (SOk d, w') ->
  (kind = AdAllow <-> admits req w row) -> outcome req w row d w'.
Proof.
  intros Hdb Hg Hd%decision_run Hk. unfold decided in Hd. rewrite Hg, Hdb in Hd.
  pose proof Hd as (_ & _ & Hkd & _). split; by rewrite Hkd.
Qed.

(** The checks after the device was found bound to the zone. *)
Lemma relay_verdict req w w1 row a d w' :
  tables_wf (w_db w) -> run (verify_device_binding self req) w = Some (SOk true, w1) ->
  reads_as_assignment (w_db w) (aq_zone req) row a ->
  (aw_state row = as_str RaActive \/ aw_state row = as_str RaMigrating) ->
  (forall g, aq_assignment_generation req = Some g -> g = aw_generation row) ->
  aq_relay_id req = as_relay_id a ->
  run (let* node := get_relay_node (aq_relay_id req) in
       match node with
       | None => build_admission_decision self req AdReject RrRelayUnavailable (Some (as_relay_sn a)) (Some (as_generation a))
       | Some node =>
           match rn_status node with
           | RnActive => build_admission_decision self req AdAllow RrOk None (Some (as_generation a))
           | RnDraining => build_admission_decision self req AdReject RrRelayDraining (Some (as_relay_sn a)) (Some (as_generation a))
           | RnDisabled | RnUnhealthy | RnDeleted =>
               build_admission_decision self req AdReject RrRelayUnavailable (Some (as_relay_sn a)) (Some (as_generation a))
           end
       end)%sn w1 = Some (SOk d, w') ->
  outcome req w row d w'.
Proof.
  intros Hwf Hv (_ & Hid & _ & _ & _ & Hg & _) Hst Hgen Hrel. pose proof (reads_verify req _ _ _ Hv) as Hdb.
  autorewrite with runs. rewrite get_relay_node_run, Hdb.
  destruct (check_non_empty _ _) as [[]|]; cbn [sbind]; [|done].
  pose proof (select_node_ok (w_db w) (aq_relay_id req) Hwf) as Hs.
  destruct (t_nodes (w_db w) !! aq_relay_id req) as [nrow|] eqn:En.
  - destruct Hs as (node & -> & (_ & _ & Hns & _)).
    assert (Hiff : rn_status node = RnActive <-> admits req w row).
    { unfold admits. rewrite <- Hid, <- Hrel, En. split.
      - intros E. split_and!; [done|done|by exists w1|done|]. exists nrow. by rewrite <- Hns, E.
      - intros (_ & _ & _ & _ & (x & [= <-] & Hx)). rewrite <- Hns in Hx. by apply as_str_inj in Hx. }
    destruct (rn_status node); intros Hr; (eapply verdict; [exact Hdb|exact Hg|exact Hr|]); rewrite <- Hiff; done.
  - rewrite Hs. intros Hr. eapply verdict; [exact Hdb|exact Hg|exact Hr|]. split; [done|].
    intros (_ & _ & _ & _ & (x & Hx & _)). congruence.
Qed.

(** C30: A request for a zone that has an assignment is allowed exactly when the
    assignment is active or migrating, the generation the relay knows (if it says
    one) is the current one, [verify_device_binding] accepts the device, the zone
    is assigned to the asking relay and that relay is active.  The decision
    carries the current generation, an allowance expires after the configured
    time, and the decision is logged and nothing else changes. *)
Theorem admission_exact req w row d w' :
  tables_wf (w_db w) -> t_assignments (w_db w) !! aq_zone req = Some row ->
  run (check_relay_admission self req) w = Some (SOk d, w') ->
  (dc_decision d = AdAllow <-> admits req w row) /\
  decided req w w' d (dc_decision d) (Some (aw_generation row)).
Proof.
  intros Hwf Hrow. fold (outcome req w row d w'). unfold check_relay_admission, resolve_assignment_for_admission.
  autorewrite with runs. destruct (validate_admission_req req) as [[]|]; [|done]. autorewrite with runs.
  rewrite get_zone_relay_run. destruct (check_non_empty _ _) as [[]|]; cbn [sbind]; [|done].
  pose proof (select_assignment_ok (w_db w) (aq_zone req) Hwf) as Hs. rewrite Hrow in Hs. destruct Hs as (a & -> & Ha).
  autorewrite with runs. pose proof Ha as (_ & Hid & _ & Hst & _ & Hg & _).
  case_bool_decide as Hsus.
  { intros Hr. eapply verdict; [done|exact Hg|exact Hr|]. split; [done|]. intros [[E|E] _]; rewrite <- Hst, Hsus in E; done. }
  case_bool_decide as Hdr.
  { intros Hr. eapply verdict; [done|exact Hg|exact Hr|]. split; [done|]. intros [[E|E] _]; rewrite <- Hst, Hdr in E; done. }
  destruct (match aq_assignment_generation req with Some g => _ | None => _ end) eqn:Egen.
  { intros Hr. eapply verdict; [done|exact Hg|exact Hr|]. split; [done|]. intros (_ & Hgen & _).
    destruct (aq_assignment_generation req) as [g|]; [|done]. rewrite (Hgen g eq_refl), Hg, Z.eqb_refl in Egen. done. }
  autorewrite with runs. destruct (run (verify_device_binding self req) w) as [[[bound|e] w1]|] eqn:Ev; [| |done]; [|done].
  pose proof (reads_verify req _ _ _ Ev) as Hdb1. destruct bound; simpl negb; cbv iota.
  2: { intros Hr. eapply verdict; [exact Hdb1|exact Hg|exact Hr|]. split; [done|]. intros (_ & _ & (w2 & Hv) & _). congruence. }
  destruct (String.eqb_spec (aq_relay_id req) (as_relay_id a)) as [Heq|Hne]; simpl negb; cbv iota.
  2: { intros Hr. eapply verdict; [exact Hdb1|exact Hg|exact Hr|]. split; [done|]. intros (_ & _ & _ & Hr' & _). congruence. }
  intros Hr. eapply relay_verdict; [done|exact Ev|exact Ha| | |done|exact Hr].
  - destruct (as_state a); [left|right|done|done]; by rewrite <- Hst.
  - intros g Hg'. rewrite Hg' in Egen. apply negb_false_iff in Egen. zbool. congruence.
Qed.

(** ** Migration *)

Lemma upsert_run a w w' :
  run (upsert_assignment a) w = Some (SOk tt, w') ->
  exists row, w' = set_db (on_assignments <[as_zone a := row]>) w /\ aw_relay_id row = as_relay_id a /\
    aw_generation row = as_generation a /\ aw_state row = as_str (as_state a) /\ as_generation a < 2 ^ 63.
Proof.
  unfold upsert_assignment. autorewrite with runs. destruct (assignment_to_row a) as [row|] eqn:E; [|done].
  autorewrite with runs. intros Hr. injection Hr as <-. apply assignment_to_row_fields in E as [-> Hg].
  unfold upsert_assignment_row, set_db. destruct (t_assignments (w_db w) !! as_zone a); eexists; split_and!; done.
Qed.

(** What a migration that was started leaves. *)
Lemma start_migration_row req w row a w1 :
  tables_wf (w_db w) -> t_assignments (w_db w) !! mg_zone req = Some row ->
  run (start_relay_migration req) w = Some (SOk a, w1) ->
  check_non_empty (mg_zone req) "zone" = SOk tt /\
  as_generation a = aw_generation row + 1 /\ as_migrated_from a = Some (aw_relay_id row) /\
  as_relay_id a <> aw_relay_id row /\ as_generation a < 2 ^ 63 /\
  exists row1, t_assignments (w_db w1) !! mg_zone req = Some row1 /\ aw_relay_id row1 = as_relay_id a /\
    aw_generation row1 = as_generation a /\ aw_state row1 = as_str RaMigrating.
Proof.
  intros Hwf Hrow. unfold start_relay_migration. autorewrite with runs.
  destruct (check_non_empty _ _) as [[]|] eqn:Ez; [|done].
  destruct (run (choose_relay_node _) w) as [[[target|e] w0]|] eqn:Ec; [| |done]; [|done].
  pose proof (reads_choose_relay_node _ _ _ _ Ec) as Hdb. rewrite run_let, get_zone_relay_run, Ez. cbn [sbind].
  pose proof (select_assignment_ok (w_db w) (mg_zone req) Hwf) as Hs. rewrite Hrow in Hs.
  destruct Hs as (ex & Hex & (Hz & Hid & _ & _ & _ & Hg & Hg1 & _)). rewrite Hdb, Hex. autorewrite with runs.
  simpl some_or. cbv iota beta. autorewrite with runs. unfold refuse_if.
  destruct (String.eqb_spec (as_relay_id ex) (rn_relay_id target)) as [|Hne]; [done|]. autorewrite with runs.
  destruct (run (upsert_assignment _) _) as [[[[]|e] w2]|] eqn:Eu; [| |done]; [|done]. autorewrite with runs.
  intros Hr. injection Hr as <- <-. apply upsert_run in Eu as (r1 & -> & Hr1 & Hg2 & Hs1 & Hlt).
  cbn [as_zone as_relay_id as_generation as_migrated_from as_state migration_assignment] in *.
  rewrite Hz. pose proof (generation_next _ Hg1 Hlt) as Hn. rewrite Hn in *. rewrite <- Hid, <- Hg.
  split_and!; [done|done|done|congruence|done|]. exists r1. simpl. by rewrite lookup_insert_eq.
Qed.

Lemma complete_run zone g w :
  (forall n, clock_at n < 2 ^ 63) -> check_non_empty zone "zone" = SOk tt -> g < 2 ^ 63 ->
  let now := clock_at (w_ticks w) in
  run (complete_relay_migration zone g) w =
  Some (refuse_if (negb (complete_migration_row zone g now (w_db w)).1)
          (sn_err EcConflict "relay assignment migration generation does not match"),
        set_db (fun _ => (complete_migration_row zone g now (w_db w)).2) (with_ticks (S (w_ticks w)) w)).
Proof.
  intros Hclock Hz Hg. unfold complete_relay_migration, complete_assignment_migration, to_db_time. rewrite Hz.
  autorewrite with runs. specialize (Hclock (w_ticks w)).
  destruct (Z.ltb_spec (2 ^ 63 - 1) (clock_at (w_ticks w))); [lia|]. autorewrite with runs.
  destruct (Z.ltb_spec (2 ^ 63 - 1) g); [lia|]. autorewrite with runs.
  unfold execute_checked. rewrite run_atomic. simpl w_db. by destruct (complete_migration_row _ _ _ _).
Qed.

(** The statement affects a row exactly when the migration of that generation is
    under way. *)
Lemma complete_row_spec zone g now t row :
  t_assignments t !! zone = Some row ->
  let '(affected, t') := complete_migration_row zone g now t in
  (affected = true <-> aw_generation row = g /\ aw_state row = as_str RaMigrating) /\
  (affected = false -> t' = t) /\
  (affected = true -> exists row', t_assignments t' !! zone = Some row' /\ aw_state row' = as_str RaActive /\
     aw_relay_id row' = aw_relay_id row /\ aw_generation row' = aw_generation row /\ aw_migrated_from row' = None).
Proof.
  intros Hrow. unfold complete_migration_row. rewrite Hrow.
  destruct (Z.eqb_spec (aw_generation row) g) as [Hg|Hg]; cbn [andb];
    [|split_and!; [split; [done|by intros [? _]]|done|done]].
  destruct (String.eqb_spec (aw_state row) (as_str RaMigrating)) as [Hs|Hs];
    [|split_and!; [split; [done|by intros [_ ?]]|done|done]].
  split_and!; [done|done|]. intros _. simpl. rewrite lookup_insert_eq. by eexists.
Qed.

(** C32: A migration moves the zone to another relay under the next generation
    and remembers where it came from.  It is completed exactly by a request with
    that generation: any other one is refused and changes nothing, and once
    completed the zone is active on the new relay and no request completes it
    again. *)
Theorem migration_protocol req w row a w1 g :
  (forall n, clock_at n < 2 ^ 63) -> g < 2 ^ 63 ->
  tables_wf (w_db w) -> t_assignments (w_db w) !! mg_zone req = Some row ->
  run (start_relay_migration req) w = Some (SOk a, w1) ->
  as_generation a = aw_generation row + 1 /\ as_migrated_from a = Some (aw_relay_id row) /\
  as_relay_id a <> aw_relay_id row /\
  exists r w2, run (complete_relay_migration (mg_zone req) g) w1 = Some (r, w2) /\
    (r = SOk tt <-> g = as_generation a) /\
    (r <> SOk tt -> w_db w2 = w_db w1) /\
    (r = SOk tt -> (exists row2, t_assignments (w_db w2) !! mg_zone req = Some row2 /\
         aw_state row2 = as_str RaActive /\ aw_relay_id row2 = as_relay_id a /\
         aw_generation row2 = as_generation a /\ aw_migrated_from row2 = None) /\
       forall g', g' < 2 ^ 63 -> exists e w3,
         run (complete_relay_migration (mg_zone req) g') w2 = Some (SErr e, w3) /\
         se_code e = EcConflict /\ w_db w3 = w_db w2).
Proof.
  intros Hclock Hg Hwf Hrow Hr.
  destruct (start_migration_row _ _ _ _ _ Hwf Hrow Hr) as (Hz & Hga & Hfrom & Hne & Hlt & row1 & Hrow1 & Hid1 & Hg1 & Hs1).
  split_and!; [done|done|done|]. rewrite complete_run by done. eexists _, _. split; [done|].
  pose proof (complete_row_spec (mg_zone req) g (clock_at (w_ticks w1)) _ _ Hrow1) as Hspec.
  destruct (complete_migration_row _ _ _ _) as [affected t'] eqn:E. destruct Hspec as (Hiff & Hno & Hyes).
  simpl. destruct affected; simpl.
  - assert (Hgen : aw_generation row1 = g) by (by apply Hiff).
    split_and!; [split; [congruence|done]|done|]. intros _. destruct (Hyes eq_refl) as (row2 & Hrow2 & Hst2 & Hid2 & Hg2 & Hm2).
    split; [exists row2; split_and!; [done|exact Hst2|congruence|congruence|done]|]. intros g' Hg'. rewrite complete_run by done.
    pose proof (complete_row_spec (mg_zone req) g' (clock_at (S (w_ticks w1))) _ _ Hrow2) as Hspec'.
    simpl w_ticks. simpl w_db. destruct (complete_migration_row _ _ _ t') as [[] t3]; destruct Hspec' as (Hiff' & Hno' & _).
    + destruct Hiff' as [Hx _]. destruct (Hx eq_refl) as [_ Hm]. by rewrite Hst2 in Hm.
    + eexists _, _. split_and!; [done|done|]. simpl. by apply Hno'.
  - split_and!; [|intros _; by apply Hno|done]. split; [done|]. intros ->. destruct Hiff as [_ Hx]. by discriminate Hx.
Qed.
End protocol.
