(* ===== verification/RelayAlloc.v ===== *)
(** * Relay manager: allocation

    The effect of an allocation that runs alone: a zone that has an active
    assignment on an active node is settled and stays where it is, any other
    zone gets one when some node can serve it, and the registration of an active
    node serves the zones that were waiting. *)

From S2P Require Import Prelude IpAddr Tasks RelayModel RelayStore Relay RelaySafe RelayInv RelaySeq RelayFacts RelayProtocol.

(** The zone has an active assignment on an active node. *)
Definition settled (t : Tables) (zone id : string) (generation : Z) : Prop :=
  exists row node, t_assignments t !! zone = Some row /\ aw_relay_id row = id /\
    aw_generation row = generation /\ aw_state row = as_str RaActive /\
    t_nodes t !! id = Some node /\ nr_status node = as_str RnActive.

Lemma settled_unique t zone id1 id2 g1 g2 :
  settled t zone id1 g1 -> settled t zone id2 g2 -> id1 = id2 /\ g1 = g2.
Proof. intros (r1 & n1 & H1 & Hi1 & Hg1 & _) (r2 & n2 & H2 & Hi2 & Hg2 & _). by simplify_eq. Qed.

(** A row whose next version SQLite can store. *)
Definition storable (t : Tables) (zone : string) : Prop :=
  forall row, t_assignments t !! zone = Some row ->
    aw_generation row < 2 ^ 63 - 1 /\ aw_created_at row < 2 ^ 63 /\
    (forall v, aw_sticky_until row = Some v -> v < 2 ^ 63) /\
    (forall v, aw_lease_expires_at row = Some v -> v < 2 ^ 63).

(** Some node can serve every zone. *)
Definition served (self : RelayManager) (t : Tables) : Prop :=
  existsb (fun relay => String.eqb (trim relay) "*") (fallback_relays (rm_allocation_config self)) = true /\
  exists id node, t_nodes t !! id = Some node /\ nr_status node = as_str RnActive.

Section alloc.
Context `{NamedLocker, DeviceInfoDB, Clock, JsonStrings, !JsonStringsLaws, SqlNumbers, CharTables}.
Context (self : RelayManager).

(** ** Reading *)

Lemma node_id_checked t id : tables_wf t -> is_Some (t_nodes t !! id) -> check_non_empty id "relay_id" = SOk tt.
Proof.
  intros Hwf [row Hrow]. destruct (tw_nodes t Hwf id row Hrow) as [_ Hid]. unfold check_non_empty. by rewrite Hid.
Qed.

Lemma reusable_run zone w :
  tables_wf (w_db w) -> check_non_empty zone "zone" = SOk tt ->
  exists o, run (reusable_assignment zone) w = Some (SOk o, w) /\
    match o with
    | Some a => as_zone a = zone /\ settled (w_db w) zone (as_relay_id a) (as_generation a)
    | None => forall id g, ~ settled (w_db w) zone id g
    end.
Proof.
  intros Hwf Hz. unfold reusable_assignment. autorewrite with runs. rewrite get_zone_relay_run, Hz. cbn [sbind].
  pose proof (select_assignment_ok (w_db w) zone Hwf) as Hs.
  destruct (t_assignments (w_db w) !! zone) as [row|] eqn:Erow.
  2: { rewrite Hs. exists None. split; [done|]. intros id g (r & n & Hr & _). congruence. }
  destruct Hs as (a & -> & (Haz & Hid & _ & Hst & _ & Hg & _)).
  case_bool_decide as Hact.
  2: { exists None. split; [done|]. intros id g (r & n & Hr & _ & _ & Ha & _). simplify_eq.
       apply Hact. apply as_str_inj. congruence. }
  destruct (tw_assignments _ Hwf zone row Erow) as [_ [nrow Hn]]. rewrite <- Hid in Hn.
  autorewrite with runs. rewrite get_relay_node_run.
  rewrite (node_id_checked (w_db w)) by eauto. cbn [sbind].
  pose proof (select_node_ok (w_db w) (as_relay_id a) Hwf) as Hsn. rewrite Hn in Hsn.
  destruct Hsn as (node & -> & (_ & _ & Hns & _)). unfold is_assignable_node. case_bool_decide as Hna.
  - exists (Some a). split; [done|]. split; [done|]. exists row, nrow. split_and!; try done; try congruence.
  - exists None. split; [done|]. intros id g (r & n & Hr & Hi & _ & _ & Hn' & Hact'). simplify_eq.
    rewrite <- Hid, Hn in Hn'. simplify_eq. apply Hna. apply as_str_inj. congruence.
Qed.

Lemma geo_run ip w :
  exists geo w', run (lookup_geo_for_allocation self ip) w = Some (SOk geo, w') /\
    w_db w' = w_db w /\ w_locks w' = w_locks w.
Proof.
  unfold lookup_geo_for_allocation. destruct ip as [ip|]; [|eauto].
  destruct (negb (is_public_source_ip ip)); [eauto|]. destruct (rm_geo_ip_resolver self) as [f|]; [|eauto].
  rewrite run_let, run_atomic. destruct (f (w_ticks w) ip); autorewrite with runs; eauto.
Qed.

Lemma select_relay_elem region geo nodes sel :
  select_relay self region geo nodes = SOk sel -> sel_node sel ∈ nodes /\ rn_status (sel_node sel) = RnActive.
Proof.
  unfold select_relay. pose proof (first_match_spec (match_rules (rm_allocation_config self)) region geo nodes) as Hm.
  cbv zeta in Hm. destruct (first_match _ _ _ _) as [s|].
  - intros [= <-]. by destruct Hm as (_ & before & rule & after & _ & _ & (Hin & Hst & _) & _).
  - destruct (List.find _ _) as [node|] eqn:Ef; [|done]. intros [= <-].
    apply find_Some in Ef as [Hin _]. by apply active_elem in Hin.
Qed.

Lemma select_relay_served region geo t nodes :
  served self t ->
  Forall2 (fun p node => t_nodes t !! p.1 = Some p.2 /\ reads_as t p.1 p.2 node) (node_rows t) nodes ->
  exists sel, select_relay self region geo nodes = SOk sel.
Proof.
  intros (Hstar & id & row & Hrow & Hact) Hnodes. unfold select_relay. destruct (first_match _ _ _ _); [eauto|].
  destruct (List.find _ _) as [node|] eqn:Ef; [eauto|]. exfalso.
  apply node_rows_elem, list_elem_of_lookup in Hrow as [i Hi].
  destruct (Forall2_lookup_l _ _ _ _ _ Hnodes Hi) as (node & Hl & _ & (_ & _ & Hst & _)).
  assert (Hin : node ∈ stable_sort load_leb (List.filter is_assignable_node nodes)).
  { apply active_elem. split; [by eapply list_elem_of_lookup_2|]. apply as_str_inj. simpl in *. congruence. }
  apply list_elem_of_In in Hin. pose proof (List.find_none _ _ Ef node Hin) as Hn. unfold fallback_allows in Hn.
  by rewrite Hstar in Hn.
Qed.

(** ** Assigning a given relay *)

Lemma to_db_time_fits v f : v < 2 ^ 63 -> to_db_time v f = SOk v.
Proof. intros Hv. unfold to_db_time. destruct (Z.ltb_spec (2 ^ 63 - 1) v); [lia|done]. Qed.

Lemma to_db_time_opt_fits v f : (forall x, v = Some x -> x < 2 ^ 63) -> to_db_time_opt v f = SOk v.
Proof.
  intros Hv. destruct v as [v|]; [|done]. unfold to_db_time_opt, opt_mapS. by rewrite to_db_time_fits by auto.
Qed.

Lemma u64_fits v : v < 2 ^ 63 -> i64_to_u64 v < 2 ^ 63.
Proof. unfold i64_to_u64. destruct (v <? 0); lia. Qed.

Lemma opt_u64_fits o : (forall v, o = Some v -> v < 2 ^ 63) -> forall v, opt_to_u64 o = Some v -> v < 2 ^ 63.
Proof. intros Ho v. destruct o as [x|]; simpl; [|done]. destruct (x <? 0); [done|]. intros [= <-]. auto. Qed.

(** The request that an allocation makes once it has chosen a relay. *)
Definition explicit (req : AssignZoneRelayReq) (id : string) : Prop :=
  ar_relay_id req = Some id /\ ar_relay_sn req = None /\ ar_sticky_until req = None /\
  ar_lease_expires_at req = None /\ check_non_empty (ar_zone req) "zone" = SOk tt.

Definition fits (o : option RelayAssignment) : Prop :=
  forall a, o = Some a -> as_generation a < 2 ^ 63 - 1 /\ as_created_at a < 2 ^ 63 /\
    (forall v, as_sticky_until a = Some v -> v < 2 ^ 63) /\
    (forall v, as_lease_expires_at a = Some v -> v < 2 ^ 63).

Lemma next_fits req id target now o :
  explicit req id -> now < 2 ^ 63 -> fits o -> exists row, assignment_to_row (next_assignment req target now o) = SOk row.
Proof.
  intros (_ & _ & Hs & Hl & _) Hnow Ho. unfold assignment_to_row.
  assert (Hg : as_generation (next_assignment req target now o) < 2 ^ 63 /\
    as_created_at (next_assignment req target now o) < 2 ^ 63 /\
    (forall v, as_sticky_until (next_assignment req target now o) = Some v -> v < 2 ^ 63) /\
    (forall v, as_lease_expires_at (next_assignment req target now o) = Some v -> v < 2 ^ 63)).
  { destruct o as [a|]; simpl; rewrite Hs, Hl; simpl; [|split_and!; try done; lia].
    destruct (Ho a eq_refl) as (Hg & Hc & Hs' & Hl'). split_and!; try done.
    unfold u64_saturating_add. destruct (_ || _); lia. }
  destruct Hg as (Hg & Hc & Hs' & Hl'). rewrite to_db_time_fits by done. cbn [sbind].
  rewrite !to_db_time_opt_fits by done. cbn [sbind].
  rewrite (to_db_time_opt_fits (as_migration_deadline _)) by (by destruct o). cbn [sbind].
  rewrite to_db_time_fits by done. cbn [sbind]. rewrite to_db_time_fits by (by destruct o). cbn [sbind]. eauto.
Qed.

Lemma stored_fits t zone :
  tables_wf t -> storable t zone -> forall o, select_assignment zone t = SOk o -> fits o.
Proof.
  intros Hwf Hst o Hsel a ->. pose proof (select_assignment_ok t zone Hwf) as Hs.
  destruct (t_assignments t !! zone) as [row|] eqn:E; [|congruence].
  destruct Hs as (a' & Ha' & (_ & _ & _ & _ & _ & Hg & _ & Hc & Hsk & Hl)). rewrite Hsel in Ha'. simplify_eq.
  destruct (Hst row E) as (? & ? & ? & ?). rewrite Hg, Hc, Hsk, Hl.
  split_and!; [done|by apply u64_fits|by apply opt_u64_fits|by apply opt_u64_fits].
Qed.

(** What an assignment to an active relay does. *)
Lemma assign_explicit req id nrow w :
  tables_wf (w_db w) -> explicit req id -> t_nodes (w_db w) !! id = Some nrow -> nr_status nrow = as_str RnActive ->
  exists r w', run (assign_zone_relay req) w = Some (r, w') /\ w_locks w' = w_locks w /\
    match r with
    | SOk a => as_zone a = ar_zone req /\ exists row,
        w_db w' = on_assignments <[ar_zone req := row]> (w_db w) /\ settled (w_db w') (ar_zone req) (as_relay_id a) (as_generation a)
    | SErr _ => w_db w' = w_db w
    end /\
    ((forall n, clock_at n < 2 ^ 63) -> storable (w_db w) (ar_zone req) -> exists a, r = SOk a).
Proof.
  intros Hwf Hreq Hn Hact. pose proof Hreq as (Hid & Hsn & _ & _ & Hz).
  pose proof (node_id_checked (w_db w) id Hwf ltac:(eauto)) as Hidc.
  unfold assign_zone_relay, validate_assignment_req. rewrite Hz, Hid, Hsn. unfold check_non_empty_opt. rewrite Hidc. cbn [sbind].
  autorewrite with runs. unfold choose_relay_node. rewrite Hid, Hsn. autorewrite with runs.
  rewrite get_relay_node_run, Hidc. cbn [sbind]. pose proof (select_node_ok (w_db w) id Hwf) as Hs. rewrite Hn in Hs.
  destruct Hs as (node & -> & (Hnid & _ & Hns & _)). autorewrite with runs. simpl some_or. cbv iota beta. autorewrite with runs.
  unfold check_assignable_node, is_assignable_node.
  rewrite bool_decide_eq_true_2 by (apply as_str_inj; congruence). cbn [negb]. unfold refuse_if at 1. autorewrite with runs.
  unfold fetch_assignment_for_update, refuse_if. autorewrite with runs. simpl w_db.
  pose proof (select_assignment_ok (w_db w) (ar_zone req) Hwf) as Hsel.
  assert (Ho : exists o, select_assignment (ar_zone req) (w_db w) = SOk o /\
      as_zone (next_assignment req node (clock_at (w_ticks w)) o) = ar_zone req).
  { destruct (t_assignments (w_db w) !! ar_zone req) as [old|]; [|by exists None].
    destruct Hsel as (a & -> & (Haz & _)). exists (Some a). by split. }
  destruct Ho as (o & Eo & Hzone). rewrite Eo. clear Hsel. cbv zeta. autorewrite with runs.
  destruct (next_relay req node (clock_at (w_ticks w)) o) as [Hrel Hst].
  set (a := next_assignment _ _ _ _) in *.
  destruct (assignment_to_row a) as [row|e] eqn:Erow.
  - assert (Hrun : run (upsert_assignment a) (with_ticks (S (w_ticks w)) w)
        = Some (SOk tt, set_db (upsert_assignment_row (as_zone a) row) (with_ticks (S (w_ticks w)) w))).
    { unfold upsert_assignment. autorewrite with runs. by rewrite Erow. }
    pose proof Hrun as (r1 & Hw & Hr1 & Hg1 & Hs1 & _)%upsert_run. rewrite Hrun, Hw. autorewrite with runs.
    eexists (SOk a), _. split; [done|]. split; [done|]. split; [|by eauto]. split; [done|]. exists r1. rewrite Hzone. split; [done|].
    exists r1, nrow. cbn [set_db w_db on_assignments t_assignments t_nodes with_ticks]. rewrite lookup_insert_eq, Hrel, Hnid. split_and!; try done; congruence.
  - assert (Hrun : run (upsert_assignment a) (with_ticks (S (w_ticks w)) w) = Some (SErr e, with_ticks (S (w_ticks w)) w)).
    { unfold upsert_assignment. autorewrite with runs. by rewrite Erow. }
    rewrite Hrun. eexists (SErr e), _. split_and!; [done|done|done|]. intros Hclock Hstore.
    destruct (next_fits req id node (clock_at (w_ticks w)) o Hreq (Hclock _)) as [row Hrow].
    { by eapply stored_fits. }
    fold a in Hrow. congruence.
Qed.

(** ** An allocation *)

(** A request whose zone has no blanks around it and whose reason is not blank. *)
Definition plain_req (req : AllocateZoneRelayReq) : Prop :=
  trim (al_zone req) = al_zone req /\ check_non_empty (al_zone req) "zone" = SOk tt /\
  check_non_empty (al_reason req) "reason" = SOk tt.

(** Everything but the assignment of the zone and the waiting zones is kept. *)
Definition others_kept (zone : string) (t t' : Tables) : Prop :=
  t_nodes t' = t_nodes t /\ forall z, z <> zone -> t_assignments t' !! z = t_assignments t !! z.

Definition inner_outcome (req : AllocateZoneRelayReq) (w w' : World) (r : SnResult (RelayAssignment * bool)) : Prop :=
  w_locks w' = w_locks w /\ t_pending (w_db w') = t_pending (w_db w) /\
  match r with
  | SOk (a, _) =>
      as_zone a = al_zone req /\ settled (w_db w') (al_zone req) (as_relay_id a) (as_generation a) /\
      others_kept (al_zone req) (w_db w) (w_db w')
  | SErr _ => w_db w' = w_db w
  end /\
  (forall id g, settled (w_db w) (al_zone req) id g ->
     t_assignments (w_db w') = t_assignments (w_db w) /\ exists x, r = SOk x) /\
  ((forall n, clock_at n < 2 ^ 63) -> served self (w_db w) -> storable (w_db w) (al_zone req) -> exists x, r = SOk x).

Lemma inner_effect req w :
  tables_wf (w_db w) -> plain_req req ->
  exists r w', run (allocate_zone_relay_inner self req) w = Some (r, w') /\ inner_outcome req w w' r.
Proof.
  intros Hwf (Htrim & Hz & Hreason). unfold allocate_zone_relay_inner. rewrite Hz, Hreason, Htrim.
  autorewrite with runs. destruct (reusable_run (al_zone req) w Hwf Hz) as (o & -> & Ho). destruct o as [a|].
  { exists (SOk (a, false)), w. split; [done|]. destruct Ho as [Haz Hs]. split_and!; try done; eauto. }
  autorewrite with runs. destruct (geo_run (al_source_ip req) w) as (geo & w1 & -> & Hdb1 & Hl1). cbv zeta.
  unfold choose_automatic_relay, list_relay_nodes. autorewrite with runs. rewrite Hdb1.
  destruct (select_all_nodes_ok (w_db w) Hwf) as (nodes & -> & Hnodes). autorewrite with runs.
  set (region := al_preferred_region req ≫= normalize_sn_region_id_hint).
  assert (Hno : forall id g, settled (w_db w) (al_zone req) id g -> False) by exact Ho.
  destruct (select_relay self region geo nodes) as [sel|e] eqn:Esel.
  2: { exists (SErr e), w1. split; [done|]. unfold inner_outcome. rewrite Hdb1, Hl1. split_and!; try done.
       - intros id g Hs. by destruct (Hno id g).
       - intros _ Hserved _. destruct (select_relay_served region geo _ nodes Hserved Hnodes). congruence. }
  apply select_relay_elem in Esel as [Hin Hst]. apply list_elem_of_lookup in Hin as [i Hi].
  destruct (Forall2_lookup_r _ _ _ _ _ Hnodes Hi) as ([id nrow] & _ & Hnrow & (Hid & _ & Hns & _)).
  cbn [fst snd] in *. autorewrite with runs.
  match goal with |- context [run (assign_zone_relay ?r) w1] => set (areq := r) end.
  assert (Hex : explicit areq (rn_relay_id (sel_node sel))) by (by unfold explicit, areq; split_and!).
  destruct (assign_explicit areq (rn_relay_id (sel_node sel)) nrow w1) as (r & w2 & -> & Hl2 & Hr & Hok).
  { by rewrite Hdb1. } { done. } { by rewrite Hdb1, Hid. } { congruence. }
  change (ar_zone areq) with (al_zone req) in *. rewrite Hdb1 in *. destruct r as [a|e].
  - autorewrite with runs. destruct Hr as (Haz & row & Hdb2 & Hset). exists (SOk (a, sel_fallback sel)), w2.
    split; [done|]. unfold inner_outcome. rewrite Hl2, Hl1. split; [done|]. split; [by rewrite Hdb2|].
    split; [|split; [intros id' g Hs; by destruct (Hno id' g)|eauto]]. split; [done|]. split; [done|].
    rewrite Hdb2. split; [done|]. intros z Hne. simpl. by rewrite lookup_insert_ne.
  - exists (SErr e), w2. split; [done|]. unfold inner_outcome. rewrite Hr, Hl2, Hl1. split_and!; try done.
    + intros id' g Hs. by destruct (Hno id' g).
    + intros Hc _ Hs. by destruct (Hok Hc Hs).
Qed.

Definition allocate_outcome (req : AllocateZoneRelayReq) (w w' : World) (r : SnResult RelayAssignment) : Prop :=
  no_lock_held w' /\ tables_wf (w_db w') /\
  (forall a, r = SOk a ->
     as_zone a = al_zone req /\ settled (w_db w') (al_zone req) (as_relay_id a) (as_generation a) /\
     others_kept (al_zone req) (w_db w) (w_db w') /\
     t_pending (w_db w') = delete (al_zone req) (t_pending (w_db w))) /\
  (forall id g, settled (w_db w) (al_zone req) id g ->
     t_assignments (w_db w') = t_assignments (w_db w) /\ exists a, r = SOk a) /\
  ((forall n, clock_at n < 2 ^ 63) -> served self (w_db w) -> storable (w_db w) (al_zone req) -> exists a, r = SOk a).

Lemma locked_effect req w :
  tables_wf (w_db w) -> plain_req req ->
  exists r w' ri wi, run (allocate_locked self req) w = Some (r, w') /\ inner_outcome req w wi ri /\
    match ri with
    | SOk (a, _) => r = SOk a /\ w_db w' = on_pending (delete (as_zone a)) (w_db wi)
    | SErr e => r = SErr e
    end.
Proof.
  intros Hwf Hreq. destruct (inner_effect req w Hwf Hreq) as (ri & wi & Hri & Hi).
  unfold allocate_locked. rewrite run_tbind, Hri. destruct ri as [[a fb]|e].
  - autorewrite with runs. destruct fb; autorewrite with runs; unfold clear_pending_allocation;
      autorewrite with runs; eexists _, _, (SOk (a, _)), wi; (split; [done|]); (split; [exact Hi|done]).
  - autorewrite with runs. destruct (run (record_pending_allocation _ _) _) as [[r w']|] eqn:E.
    + autorewrite with runs. by eexists _, _, (SErr e), wi.
    + exfalso. revert E. unfold record_pending_allocation. autorewrite with runs. cbv zeta. autorewrite with runs.
      by destruct (to_db_time _ _).
Qed.

Lemma allocate_effect `{!NamedLockerLaws} req w :
  tables_wf (w_db w) -> no_lock_held w -> plain_req req ->
  exists r w', run (allocate_zone_relay self req) w = Some (r, w') /\ allocate_outcome req w w' r.
Proof.
  intros Hwf Hfree Hreq. destruct (ends_allocate self req w Hfree) as (r & w' & Hr & Hfree').
  exists r, w'. split; [done|]. split; [done|]. split; [by destruct (seq_allocate self req w r w' Hwf Hr)|].
  revert Hr. unfold allocate_zone_relay. pose proof Hreq as (_ & Hz & Hreason). rewrite Hz, Hreason. autorewrite with runs.
  simpl w_locks. rewrite (Hfree (zone_lock (al_zone req))). rewrite run_tbind. set (w1 := with_locks _ _).
  destruct (locked_effect req w1 Hwf Hreq) as (r2 & w2 & ri & wi & -> & (_ & Hp & Hi & Hset & Hok) & Hri).
  autorewrite with runs. intros Hr. injection Hr as -> <-. cbn [with_locks w_db] in *.
  destruct ri as [[a fb]|e]; simplify_eq.
  - destruct Hri as [-> Hdb]. destruct Hi as (Haz & Hs & Hk1 & Hk2). rewrite Hdb, Haz. cbn. split_and!.
    + intros a' [= <-]. split_and!; try done. by rewrite Hp.
    + intros id g Hs0. destruct (Hset id g Hs0) as [Ha _]. eauto.
    + eauto.
  - split_and!; [done| |].
    + intros id g Hs0. destruct (Hset id g Hs0) as [_ [x Hx]]. done.
    + intros Hc Hsv Hst. by destruct (Hok Hc Hsv Hst).
Qed.

(** Allocating a zone again does not move it.  An allocation that succeeds
    leaves the zone settled on its relay, and as long as it is settled there,
    whatever else has changed since (the load, the regions, the other relays),
    another allocation for the zone, whatever its reason, region or source
    address, answers with the same relay and generation and changes no
    assignment. *)
Theorem allocation_repeats `{!NamedLockerLaws} req w a w1 :
  tables_wf (w_db w) -> no_lock_held w -> plain_req req ->
  run (allocate_zone_relay self req) w = Some (SOk a, w1) ->
  settled (w_db w1) (al_zone req) (as_relay_id a) (as_generation a) /\
  forall req' w2, tables_wf (w_db w2) -> no_lock_held w2 -> plain_req req' -> al_zone req' = al_zone req ->
    settled (w_db w2) (al_zone req) (as_relay_id a) (as_generation a) ->
    exists a' w3, run (allocate_zone_relay self req') w2 = Some (SOk a', w3) /\
      as_relay_id a' = as_relay_id a /\ as_generation a' = as_generation a /\
      t_assignments (w_db w3) = t_assignments (w_db w2).
Proof.
  intros Hwf Hfree Hreq Hr.
  destruct (allocate_effect req w Hwf Hfree Hreq) as (r & w1' & Hr' & _ & _ & Hok & _). rewrite Hr in Hr'.
  simplify_eq. destruct (Hok a eq_refl) as (_ & Hset & _). split; [done|].
  intros req' w2 Hwf2 Hfree2 Hreq' Hzone Hset2.
  destruct (allocate_effect req' w2 Hwf2 Hfree2 Hreq') as (r2 & w3 & Hr2 & _ & _ & Hok2 & Hstay & _).
  rewrite Hzone in *. destruct (Hstay _ _ Hset2) as [Hsame [a2 ->]]. exists a2, w3.
  destruct (Hok2 a2 eq_refl) as (_ & Hs2 & (Hnodes & _) & _).
  assert (Hs1 : settled (w_db w3) (al_zone req) (as_relay_id a) (as_generation a)).
  { unfold settled in *. by rewrite Hsame, Hnodes. }
  destruct (settled_unique _ _ _ _ _ _ Hs2 Hs1). by split_and!.
Qed.

(** ** Waiting zones *)

Definition waiting_ok (t : Tables) (zone : string) (row : PendingRow) : Prop :=
  trim zone = zone /\ check_non_empty zone "zone" = SOk tt /\
  check_non_empty (pw_reason row) "reason" = SOk tt /\ storable t zone.

Lemma settled_kept zone t t' z id g : others_kept zone t t' -> z <> zone -> settled t z id g -> settled t' z id g.
Proof. intros [Hn Ha] Hne (row & node & Hrow & Hrest). exists row, node. by rewrite Ha, Hn. Qed.

Lemma retry_loop_run `{!NamedLockerLaws} rows w :
  (forall n, clock_at n < 2 ^ 63) -> tables_wf (w_db w) -> no_lock_held w -> served self (w_db w) ->
  NoDup rows.*1 -> Forall (fun p => waiting_ok (w_db w) p.1 p.2) rows ->
  exists w', run (retry_loop self rows) w = Some (SOk tt, w') /\
    t_pending (w_db w') = foldr delete (t_pending (w_db w)) (reverse rows.*1) /\
    (forall z, z ∈ rows.*1 -> exists id g, settled (w_db w') z id g) /\
    (forall z id g, z ∉ rows.*1 -> settled (w_db w) z id g -> settled (w_db w') z id g).
Proof.
  intros Hclock. revert w. induction rows as [|[zone row] rows IH]; intros w Hwf Hfree Hserved Hnd Hall.
  { exists w. split_and!; [done|done| |done]. intros z Hz. by apply elem_of_nil in Hz. }
  apply NoDup_cons in Hnd as [Hnew Hnd]. apply Forall_cons in Hall as [(Ht & Hz & Hre & Hst) Hall].
  cbn [retry_loop]. autorewrite with runs. set (req := {| al_zone := zone |}).
  destruct (allocate_effect req w Hwf Hfree) as (r & w1 & -> & Hfree1 & Hwf1 & Hok & _ & Hsucc); [done|].
  destruct (Hsucc Hclock Hserved Hst) as [a ->]. destruct (Hok a eq_refl) as (_ & Hset & Hkept & Hpend).
  change (al_zone req) with zone in *. destruct (IH w1 Hwf1 Hfree1) as (w' & Hrun & Hp & Hin & Hout).
  { destruct Hserved as (Hstar & Hact). split; [done|]. destruct Hkept as [-> _]. done. }
  { done. }
  { rewrite Forall_forall in *. intros [z r] Hzr. destruct (Hall _ Hzr) as (? & ? & ? & Hs). split_and!; try done.
    cbn [fst snd] in *. intros row'. rewrite (proj2 Hkept); [apply Hs|]. intros ->. apply Hnew.
    by apply (list_elem_of_fmap_2 fst) in Hzr. }
  exists w'. split; [done|]. cbn [fst fmap list_fmap]. split_and!.
  - rewrite Hp, Hpend, reverse_cons, foldr_app. done.
  - intros z [->|Hz']%elem_of_cons; [|auto]. exists (as_relay_id a), (as_generation a). by apply Hout.
  - intros z id g [Hne Hn]%not_elem_of_cons Hs. apply Hout; [done|]. by eapply settled_kept.
Qed.

Lemma foldr_delete_lookup {V} (m : gmap string V) l k : foldr delete m l !! k = if bool_decide (k ∈ l) then None else m !! k.
Proof.
  induction l as [|x l IH]; simpl; [done|]. destruct (decide (k = x)) as [->|Hne].
  - rewrite lookup_delete_eq, bool_decide_eq_true_2 by left. done.
  - rewrite lookup_delete_ne, IH by done. repeat case_bool_decide; set_solver.
Qed.

Lemma pending_rows_elem t zone row : (zone, row) ∈ pending_rows t <-> t_pending t !! zone = Some row.
Proof. unfold pending_rows. rewrite stable_sort_Permutation. apply elem_of_map_to_list. Qed.

Lemma retry_run `{!NamedLockerLaws} w :
  (forall n, clock_at n < 2 ^ 63) -> tables_wf (w_db w) -> no_lock_held w -> served self (w_db w) ->
  (forall zone row, t_pending (w_db w) !! zone = Some row -> waiting_ok (w_db w) zone row) ->
  exists w', run (retry_pending_allocations self) w = Some (SOk tt, w') /\ t_pending (w_db w') = ∅ /\
    forall zone, is_Some (t_pending (w_db w) !! zone) -> exists id g, settled (w_db w') zone id g.
Proof.
  intros Hclock Hwf Hfree Hserved Hall. unfold retry_pending_allocations. autorewrite with runs.
  assert (Hnd : NoDup (pending_rows (w_db w)).*1).
  { unfold pending_rows. rewrite stable_sort_Permutation. apply NoDup_fst_map_to_list. }
  destruct (retry_loop_run (pending_rows (w_db w)) w Hclock Hwf Hfree Hserved Hnd) as (w' & Hrun & Hp & Hin & _).
  { apply Forall_forall. intros [zone row] Hx%pending_rows_elem. by apply Hall. }
  assert (Hkey : forall zone, is_Some (t_pending (w_db w) !! zone) -> zone ∈ (pending_rows (w_db w)).*1).
  { intros zone [row Hrow%pending_rows_elem]. by apply (list_elem_of_fmap_2 fst) in Hrow. }
  exists w'. split_and!; [done| |auto]. apply map_eq. intros zone. rewrite Hp, foldr_delete_lookup, lookup_empty.
  case_bool_decide as Hc; [done|]. destruct (t_pending (w_db w) !! zone) eqn:E; [|done].
  exfalso. apply Hc. rewrite elem_of_reverse. apply Hkey. by rewrite E.
Qed.

(** What the writes of a registration leave. *)
Lemma registered_rows `{!NamedLockerLaws} node status now w :
  validate_registration node = SOk tt -> ip_wf (rg_ips node).1 -> ip_wf (rg_ips node).2 ->
  tables_wf (w_db w) -> relay_sn_taken (rg_relay_id node) (rg_relay_sn node) (w_db w) = false ->
  let t' := bump_node_map_revision
    (register_rows (rg_relay_id node) (registration_row node status now) (rg_ips node) now (w_db w)) in
  tables_wf t' /\ t_pending t' = t_pending (w_db w) /\ t_assignments t' = t_assignments (w_db w) /\
  exists row, t_nodes t' !! rg_relay_id node = Some row /\ nr_status row = as_str status.
Proof.
  intros Hval Hip1 Hip2 Hwf Hfree t'. destruct (registration_row_ok node status now Hval) as [Hrow Hid]. split_and!.
  - eapply wf_same_rows; [..|exact (wf_register (rg_relay_id node) (registration_row node status now) (rg_ips node) now _
      Hwf Hrow Hid Hip1 Hip2 Hfree)]; done.
  - done.
  - done.
  - destruct (upsert_node_lookup (rg_relay_id node) (registration_row node status now) (w_db w)) as (row & He & _ & Hs & _).
    exists row. split; [|done]. change (t_nodes (upsert_node_row (rg_relay_id node) (registration_row node status now)
      (w_db w)) !! rg_relay_id node = Some row). by rewrite He, lookup_insert_eq.
Qed.

(** C33: Where the fallback list has an asterisk, which allows every relay, and
    every zone that waits can be stored ([waiting_ok]), the registration of a node
    that ends up active, run alone with no lock held, serves all zones that were
    waiting for a relay: none is left waiting, and each has an active assignment
    on an active node. *)
Theorem registration_drains_pending `{!NamedLockerLaws} node w stored w' :
  (forall n, clock_at n < 2 ^ 63) -> ip_wf (rg_ips node).1 -> ip_wf (rg_ips node).2 ->
  tables_wf (w_db w) -> no_lock_held w ->
  existsb (fun relay => String.eqb (trim relay) "*") (fallback_relays (rm_allocation_config self)) = true ->
  (forall zone row, t_pending (w_db w) !! zone = Some row -> waiting_ok (w_db w) zone row) ->
  run (register_relay_node self node) w = Some (SOk stored, w') -> rn_status stored = RnActive ->
  t_pending (w_db w') = ∅ /\
  forall zone, is_Some (t_pending (w_db w) !! zone) -> exists id g, settled (w_db w') zone id g.
Proof.
  intros Hclock Hip1 Hip2 Hwf Hfree Hstar Hall. unfold register_relay_node. autorewrite with runs.
  destruct (validate_registration node) as [[]|] eqn:Hval; [|done]. unfold ensure_relay_sn_unique. autorewrite with runs.
  destruct (match List.find _ _ with Some _ => _ | None => _ end) as [[]|]; [|done]. autorewrite with runs. simpl w_db.
  destruct (opt_mapS _ _) as [existing|]; [|done]. autorewrite with runs.
  destruct (refuse_if _ _) as [[]|]; [|done]. cbv zeta. autorewrite with runs. rewrite registration_tx_run.
  destruct (to_db_time _ _) as [now|]; [|done]. simpl w_db. destruct (relay_sn_taken _ _ _) eqn:Esn; [done|].
  set (status := registration_status node existing). set (w1 := set_db _ _).
  destruct (registered_rows node status now w Hval Hip1 Hip2 Hwf Esn) as (Hwf1 & Hp1 & Ha1 & row & Hrow & Hst).
  change (tables_wf (w_db w1)) in Hwf1. change (t_pending (w_db w1) = t_pending (w_db w)) in Hp1.
  change (t_assignments (w_db w1) = t_assignments (w_db w)) in Ha1.
  change (t_nodes (w_db w1) !! rg_relay_id node = Some row) in Hrow. cbv iota beta. autorewrite with runs.
  rewrite get_relay_node_run.
  rewrite (node_id_checked (w_db w1)) by eauto. cbn [sbind].
  pose proof (select_node_ok (w_db w1) (rg_relay_id node) Hwf1) as Hs. rewrite Hrow in Hs.
  destruct Hs as (n & -> & (_ & _ & Hns & _)). autorewrite with runs. simpl some_or. cbv iota beta. autorewrite with runs.
  case_bool_decide as Hact.
  - assert (Hw1 : exists w2, run (retry_pending_allocations self) w1 = Some (SOk tt, w2) /\ t_pending (w_db w2) = ∅ /\
      forall zone, is_Some (t_pending (w_db w1) !! zone) -> exists id g, settled (w_db w2) zone id g).
    { apply retry_run; [done|done|exact Hfree| |].
      - split; [done|]. exists (rg_relay_id node), row. by rewrite Hst, Hact.
      - intros zone prow. rewrite Hp1. intros Hz. destruct (Hall _ _ Hz) as (? & ? & ? & Hsto). by split_and!. }
    destruct Hw1 as (w2 & -> & Hnone & Hset). autorewrite with runs. intros Hr _. injection Hr as _ <-.
    rewrite Hp1 in Hset. done.
  - autorewrite with runs. intros Hr Hn. injection Hr as <- _. exfalso. apply Hact. apply as_str_inj. rewrite <- Hst, <- Hns.
    by rewrite Hn.
Qed.
End alloc.
