(* ===== verification/RelaySamples.v ===== *)
(** * Relay manager: a sample manager, and requests that overlap

    Concrete functions in place of the crates, a manager with two relays, the
    theorems applied to it, and schedules in which requests that overlap lose an
    update: what the theorems on histories of single requests say does not hold
    for them. *)

From S2P Require Import Prelude IpAddr Tasks RelayModel RelayStore Relay RelaySafe RelayInv RelaySeq RelayFacts RelayProtocol RelayAlloc.

(** ** Instances *)

Definition sample_locker : NamedLocker := {|
  LockState := gset string;
  no_locks := ∅;
  lock_held n s := bool_decide (n ∈ s);
  lock_name n s := {[n]} ∪ s;
  unlock_name n s := s ∖ {[n]}
|}.
#[local] Existing Instance sample_locker.

#[local] Instance sample_locker_laws : NamedLockerLaws.
Proof.
  split; simpl; intros.
  - by apply bool_decide_eq_false_2, not_elem_of_empty.
  - apply eq_bool_prop_intro. rewrite bool_decide_spec, orb_True, bool_decide_spec, elem_of_union, elem_of_singleton.
    destruct (String.eqb_spec n m); simpl; tauto.
  - apply eq_bool_prop_intro. rewrite bool_decide_spec, andb_True, bool_decide_spec, elem_of_difference, elem_of_singleton.
    destruct (String.eqb_spec n m); simpl; tauto.
Qed.

(** The device database: devices by identifier. *)
Definition sample_devices : DeviceInfoDB := {|
  DeviceDb := list (string * SnDeviceStateView);
  get_device_state did db := (SOk (option_map snd (List.find (fun p => String.eqb p.1 did) db)), db);
  get_device_state_by_name zone name db :=
    (SOk (option_map snd (List.find (fun p => String.eqb (dv_zone p.2) zone && String.eqb (dv_device_name p.2) name) db)), db)
|}.
#[local] Existing Instance sample_devices.

#[local] Instance relay_clock : Clock := fun n => Z.of_nat (1000 + n mod 1000).

Lemma relay_clock_fits n : clock_at n < 2 ^ 63.
Proof.
  unfold clock_at, relay_clock. assert (n mod 1000 < 1000)%nat by (apply Nat.mod_upper_bound; lia). lia.
Qed.

(** Texts written letter by letter, each letter marked and each text ended. *)
Fixpoint mark (s rest : string) : string :=
  match s with
  | EmptyString => String "e" rest
  | String a s' => String "c" (String a (mark s' rest))
  end.

Fixpoint unmark (s : string) (text : string -> string) : option (list string) :=
  match s with
  | EmptyString => Some []
  | String t s' =>
      if Ascii.eqb t "e" then option_map (cons (text EmptyString)) (unmark s' id)
      else match s' with
           | EmptyString => None
           | String a s'' => unmark s'' (fun x => text (String a x))
           end
  end.

Definition sample_json : JsonStrings := {|
  json_of_strings l := String "[" (foldr mark EmptyString l);
  json_to_strings s := match s with String _ s' => unmark s' id | EmptyString => None end
|}.
#[local] Existing Instance sample_json.

Lemma unmark_mark s rest text :
  unmark (mark s rest) text = option_map (cons (text s)) (unmark rest id).
Proof. revert text. induction s as [|a s IH]; intros text; simpl; [done|]. by rewrite IH. Qed.

Lemma trim_end_solid_start a s : is_whitespace a = false -> is_empty (trim_end (String a s)) = false.
Proof. intros Ha. simpl. destruct (trim_end s); [by rewrite Ha|done]. Qed.

#[local] Instance sample_json_laws : JsonStringsLaws.
Proof.
  split; intros l.
  - simpl. induction l as [|s l IH]; simpl; [done|]. by rewrite unmark_mark, IH.
  - unfold trim. simpl trim_start. by apply trim_end_solid_start.
Qed.

(** Numbers of SQLite, a real rounded down. *)
Definition sample_sql : SqlNumbers := {|
  sql_real := Z;
  real_ratio a b := a / b;
  sql_leb x y := (match x with inl a => a | inr a => a end <=? match y with inl a => a | inr a => a end)
|}.
#[local] Existing Instance sample_sql.

(** ASCII only. *)
Definition ascii_char (c : Z) : Ascii.ascii := Ascii.ascii_of_N (Z.to_N c).

Definition sample_chars : CharTables := {|
  char_alphanumeric c := (c <? 128) && is_ascii_alphanumeric (ascii_char c);
  char_lowercase c := if c <? 128 then [byte_at (char_to_lower (ascii_char c))] else [c];
  char_whitespace c := (c <? 128) && is_whitespace (ascii_char c)
|}.
#[local] Existing Instance sample_chars.

(** ** A manager with two relays *)

Definition sample_node (id : string) (last : Z) : RelayNodeRegistration :=
  {| rg_relay_id := id; rg_relay_sn := id +:+ ".sn"; rg_ips := (V4 [8; 8; 8; last], V4 [8; 8; 4; last]);
     rg_public_host := id +:+ ".example"; rg_http_endpoint := None; rg_rtcp_endpoint := None;
     rg_region := Some "cn"; rg_isp := None; rg_tags := ["cn"]; rg_capabilities := [];
     rg_status := None; rg_capacity_score := None |}.

Definition empty_world : World := mkWorld initialize_database (mkMetrics 0 0 0 0 0) 0 no_locks [].

Definition world_after (cs : list RelayCall) (w : World) : World := default w (run_calls from_pool cs w).

Lemma calls_after cs w :
  is_some (run_calls from_pool cs w) = true -> run_calls from_pool cs w = Some (world_after cs w).
Proof. unfold world_after. by destruct (run_calls from_pool cs w). Qed.

(** The world a task leaves, and its answer. *)
Definition after {A} (t : Task World A) (w : World) : World :=
  match run t w with Some (_, w') => w' | None => w end.
Definition answer {A} (t : Task World A) (w : World) : option A := option_map fst (run t w).

Lemma run_after {A} (t : Task World A) w r : answer t w = Some r -> run t w = Some (r, after t w).
Proof. unfold answer, after. destruct (run t w) as [[a w']|]; [|done]. by intros [= ->]. Qed.

Definition two_nodes : list RelayCall := [CallRegisterNode (sample_node "r1" 1); CallRegisterNode (sample_node "r2" 2)].

Definition assign_to (zone id : string) : AssignZoneRelayReq :=
  {| ar_zone := zone; ar_relay_id := Some id; ar_relay_sn := None; ar_from_ip := None; ar_region := None;
     ar_source := SrcAdmin; ar_reason := None; ar_sticky_until := None; ar_lease_expires_at := None;
     ar_backup_relay_id := None; ar_source_version := None |}.

Definition two_relays : World := world_after two_nodes empty_world.
Definition one_zone : World := world_after [CallAssign (assign_to "alice" "r1")] two_relays.

(** ** Requests that overlap *)

Notation reachable := (rtc (sys_step (relay_task from_pool) typed_call)).

(** The state a schedule leads to. *)
Definition state_after ms s := default s (schedule (relay_task from_pool) ms s).

Lemma reach ms s :
  Forall (move_allowed typed_call) ms -> is_some (schedule (relay_task from_pool) ms s) = true ->
  reachable s (state_after ms s).
Proof.
  intros Hms Hs. unfold state_after. destruct (schedule _ ms s) as [s'|] eqn:E; [|done]. by eapply schedule_sound.
Qed.

Definition beat (id : string) (status : option RelayNodeStatus) (load : option Z) : RelayHeartbeat :=
  {| hb_relay_id := id; hb_status := status; hb_current_load := load; hb_capacity_score := None;
     hb_drain_until := None; hb_http_endpoint := None; hb_rtcp_endpoint := None |}.

Definition assignment_race := state_after
  [Arrive (CallAssign (assign_to "alice" "r1")); Arrive (CallAssign (assign_to "alice" "r2"));
   Proceed 0; Proceed 0; Proceed 0; Proceed 1; Proceed 1; Proceed 1; Proceed 0; Proceed 0; Proceed 0; Proceed 0]
  (started two_relays).

(** Two assignments of a zone that overlap can both succeed with the same
    generation for different relays: the row is read and written by separate
    statements, so the generation does not tell the two apart and one of them is
    lost. *)
Theorem overlapping_assignments_share_generation :
  exists s a b, reachable (started two_relays) s /\
    sys_replies s = [(CallAssign (assign_to "alice" "r1"), ReplyAssignment (SOk a));
                     (CallAssign (assign_to "alice" "r2"), ReplyAssignment (SOk b))] /\
    as_generation a = as_generation b /\ as_relay_id a <> as_relay_id b.
Proof.
  eexists assignment_race, _, _. split; [apply reach; [repeat constructor|vm_compute; reflexivity]|].
  split; [vm_compute; reflexivity|]. split; [reflexivity|discriminate].
Qed.

Definition map_race := state_after
  [Arrive (CallHeartbeat (beat "r1" None None)); Proceed 0;
   Arrive (CallHeartbeat (beat "r1" (Some RnDraining) None)); Proceed 1; Proceed 1; Proceed 1; Proceed 1;
   Arrive (CallIpMap None); Proceed 1; Proceed 1; Proceed 1;
   Proceed 0; Proceed 0; Proceed 0;
   Arrive (CallIpMap (Some 3)); Proceed 0; Proceed 0;
   Arrive (CallIpMap None); Proceed 0; Proceed 0; Proceed 0]
  (started two_relays).

(** With heartbeats that overlap, a client can be told that its revision of
    the node map is current although a node has changed its status since: a
    heartbeat decides whether the map changes from the status it read, not from
    the one it replaces. *)
Theorem overlapping_heartbeats_hide_change :
  exists s snap snap' revision, reachable (started two_relays) s /\
    omap (fun cr => match cr with (CallIpMap r, ReplyIpMap (SOk o)) => Some (r, o) | _ => None end) (sys_replies s) =
      [(None, Some snap); (Some revision, None); (None, Some snap')] /\
    revision = sn_revision snap /\ shown <$> sn_nodes snap' <> shown <$> sn_nodes snap.
Proof.
  eexists map_race, _, _, _. split; [apply reach; [repeat constructor|vm_compute; reflexivity]|].
  split; [vm_compute; reflexivity|]. split; [reflexivity|discriminate].
Qed.

Definition deletion_race := state_after
  [Arrive (CallHeartbeat (beat "r1" None None)); Proceed 0;
   Arrive (CallHeartbeat (beat "r1" (Some RnDeleted) None)); Proceed 1; Proceed 1; Proceed 1; Proceed 1]
  (started two_relays).

(** A heartbeat that overlaps with the deletion of its node brings the node
    back. *)
Theorem overlapping_heartbeat_revives_node :
  exists s s' row row', reachable (started two_relays) s /\ reachable s s' /\
    t_nodes (w_db (sys_world s)) !! "r1" = Some row /\ nr_status row = as_str RnDeleted /\
    t_nodes (w_db (sys_world s')) !! "r1" = Some row' /\ nr_status row' = as_str RnActive.
Proof.
  eexists deletion_race, (state_after [Proceed 0; Proceed 0; Proceed 0] deletion_race), _, _.
  split; [apply reach; [repeat constructor|vm_compute; reflexivity]|].
  split; [apply reach; [repeat constructor|vm_compute; reflexivity]|].
  split; [vm_compute; reflexivity|]. split; [reflexivity|]. split; [vm_compute; reflexivity|reflexivity].
Qed.

Definition allocate_req (zone reason : string) : AllocateZoneRelayReq :=
  {| al_zone := zone; al_preferred_region := None; al_source_ip := None; al_reason := reason;
     al_source_version := None |}.

(** A zone with blanks around it drifts: its assignment is stored under the
    trimmed name but looked up under the name as given, so the same request, sent
    again after the load has changed, moves the zone to another relay although
    the first one can still serve it. *)
Theorem blank_zone_drifts :
  exists a w1 h w2 b w3,
    run (allocate_zone_relay from_pool (allocate_req " alice" "retry")) two_relays = Some (SOk a, w1) /\
    run (heartbeat_relay_node from_pool (beat "r1" None (Some 50))) w1 = Some (SOk h, w2) /\
    run (allocate_zone_relay from_pool (allocate_req " alice" "retry")) w2 = Some (SOk b, w3) /\
    as_zone a = as_zone b /\ as_relay_id a = "r1" /\ rh_status h = RnActive /\ as_relay_id b = "r2" /\
    as_generation b = as_generation a + 1.
Proof.
  eexists _, _, _, _, _, _. split; [apply run_after; vm_compute; reflexivity|].
  split; [apply run_after; vm_compute; reflexivity|]. split; [apply run_after; vm_compute; reflexivity|].
  split_and!; reflexivity.
Qed.

(** ** The theorems on the sample *)

Lemma empty_tables_wf : tables_wf initialize_database.
Proof. constructor; simpl; try done. intros id slot [? Hid]. done. Qed.

Lemma run_two_relays : run_calls from_pool two_nodes empty_world = Some two_relays.
Proof. apply calls_after. vm_compute. reflexivity. Qed.

Lemma sample_ips last : 0 <= last < 256 -> ip_wf (V4 [8; 8; 8; last]) /\ ip_wf (V4 [8; 8; 4; last]).
Proof. intros Hl. split; (split; [done|]); repeat constructor; lia. Qed.

Lemma two_nodes_typed : Forall typed_call two_nodes.
Proof. repeat constructor; simpl; try apply sample_ips; lia. Qed.

Lemma two_relays_wf : tables_wf (w_db two_relays).
Proof.
  apply (seq_calls from_pool two_nodes empty_world two_relays two_nodes_typed empty_tables_wf run_two_relays).
Qed.

Lemma run_one_zone : run_calls from_pool [CallAssign (assign_to "alice" "r1")] two_relays = Some one_zone.
Proof. apply calls_after. vm_compute. reflexivity. Qed.

Lemma one_zone_wf : tables_wf (w_db one_zone).
Proof.
  apply (seq_calls from_pool [CallAssign (assign_to "alice" "r1")] two_relays one_zone); [by repeat constructor| |].
  - apply two_relays_wf.
  - apply run_one_zone.
Qed.

Definition assign_schedule : list (Move (Call:=RelayCall)) :=
  [Arrive (CallAssign (assign_to "alice" "r1")); Proceed 0; Proceed 0;
   Arrive (CallHeartbeat (beat "r2" (Some RnDraining) None)); Proceed 1; Proceed 0; Proceed 0; Proceed 0;
   Proceed 0; Proceed 0; Proceed 0].

Definition assign_state := state_after assign_schedule (started two_relays).

Lemma assign_state_reached : reachable (started two_relays) assign_state.
Proof. apply reach; [repeat constructor|]. vm_compute. reflexivity. Qed.

Lemma relay_invariant_witness :
  length (sys_replies assign_state) = 2%nat /\ tables_wf (w_db (sys_world assign_state)) /\
  Forall (fun cr => reply_readable from_pool cr.1 cr.2) (sys_replies assign_state).
Proof.
  split; [vm_compute; reflexivity|]. exact (relay_invariant from_pool two_relays assign_state two_relays_wf assign_state_reached).
Defined.

Lemma free_world w : w_locks w = no_locks -> no_lock_held w.
Proof. intros Hw name. rewrite Hw. apply no_locks_held. Qed.

Lemma no_lock_sample : no_lock_held two_relays.
Proof. apply free_world. vm_compute. reflexivity. Qed.

Lemma relay_requests_end_witness :
  exists r w', run (relay_task from_pool (CallAllocate (allocate_req "alice" "test"))) two_relays = Some (r, w') /\ no_lock_held w'.
Proof. exact (relay_requests_end from_pool (CallAllocate (allocate_req "alice" "test")) two_relays no_lock_sample). Defined.

Definition alice_row : AssignmentRow :=
  {| aw_relay_id := "r1"; aw_state := "active"; aw_source := "admin"; aw_reason := Some "first_assignment";
     aw_generation := 1; aw_backup_relay_id := None; aw_sticky_until := None; aw_lease_expires_at := None;
     aw_migrated_from := None; aw_migration_deadline := None; aw_source_version := None;
     aw_created_at := 1002; aw_updated_at := 1002 |}.

Lemma alice_stored : t_assignments (w_db one_zone) !! "alice" = Some alice_row.
Proof. vm_compute. reflexivity. Qed.

Definition moved : World := world_after [CallAssign (assign_to "alice" "r2")] one_zone.

Lemma generation_names_relay_witness :
  exists row', t_assignments (w_db moved) !! "alice" = Some row' /\ 1 <= aw_generation row' /\
    (aw_generation row' = 1 -> aw_relay_id row' = "r1") /\ aw_created_at row' = 1002.
Proof.
  apply (generation_names_relay from_pool [CallAssign (assign_to "alice" "r2")] one_zone moved "alice" alice_row).
  - repeat constructor.
  - apply one_zone_wf.
  - apply calls_after. vm_compute. reflexivity.
  - apply alice_stored.
Defined.

Definition deletion : list RelayCall := [CallHeartbeat (beat "r1" (Some RnDeleted) None)].
Definition deleted : World := world_after deletion two_relays.
Definition revival : list RelayCall := [CallHeartbeat (beat "r1" (Some RnActive) None); CallRegisterNode (sample_node "r1" 1)].

Lemma deleted_wf : tables_wf (w_db deleted).
Proof.
  apply (seq_calls from_pool deletion two_relays deleted); [by repeat constructor|apply two_relays_wf|].
  apply calls_after. vm_compute. reflexivity.
Qed.

Lemma revival_typed : Forall typed_call revival.
Proof. repeat constructor; simpl; try apply sample_ips; lia. Qed.

Lemma deleted_node_stays_witness :
  exists row', t_nodes (w_db (world_after revival deleted)) !! "r1" = Some row' /\ nr_status row' = as_str RnDeleted.
Proof.
  eapply (deleted_node_stays from_pool revival deleted (world_after revival deleted) "r1").
  - apply revival_typed.
  - apply deleted_wf.
  - apply calls_after. vm_compute. reflexivity.
  - vm_compute. reflexivity.
  - reflexivity.
Defined.

Notation read_map := get_relay_nodes_ip_map_snapshot.

Definition loaded : list RelayCall := [CallHeartbeat (beat "r1" None (Some 40))].
Definition with_load : World := world_after loaded (after (read_map None) two_relays).

Lemma unchanged_map_is_current_witness :
  exists snap, answer (read_map None) with_load = Some (SOk (Some snap)) /\
    ("r1", "r1.sn", (V4 [8; 8; 8; 1], V4 [8; 8; 4; 1]), RnActive) ∈ (shown <$> sn_nodes snap).
Proof.
  eexists. split; [vm_compute; reflexivity|].
  refine (proj2 (unchanged_map_is_current from_pool loaded two_relays _ (after (read_map None) two_relays) with_load
    (after (read_map (Some 2)) with_load) _ (after (read_map None) with_load) _ _ _ _ _ _ _ _) _).
  - repeat constructor.
  - apply two_relays_wf.
  - vm_compute. discriminate.
  - apply run_after. vm_compute. reflexivity.
  - apply calls_after. vm_compute. reflexivity.
  - apply run_after. vm_compute. reflexivity.
  - apply run_after. vm_compute. reflexivity.
  - vm_compute. left.
Defined.

Definition admission_req (relay : string) : RelayAdmissionReq :=
  {| aq_request_id := None; aq_relay_id := relay; aq_zone := "alice"; aq_device_name := None; aq_did := Some "did:dev:1";
     aq_auth_context := None; aq_assignment_generation := Some 1; aq_observed_ip := None |}.

(** A manager that checks devices, and a device of the zone. *)
Definition checking : RelayManager := mkManager true 60 default_allocation_config None.

Definition with_device : World :=
  mkWorld (w_db one_zone) (w_metrics one_zone) (w_ticks one_zone) (w_locks one_zone)
    [("did:dev:1", mkDeviceView "did:dev:1" "alice" "phone" DevOnline [] [] [])].

Lemma admission_exact_witness :
  exists d w', run (check_relay_admission checking (admission_req "r1")) with_device = Some (SOk d, w') /\
    dc_decision d = AdAllow /\ admits checking (admission_req "r1") with_device alice_row.
Proof.
  eexists _, _. split; [apply run_after; vm_compute; reflexivity|]. split; [reflexivity|].
  refine (proj1 (proj1 (admission_exact checking (admission_req "r1") with_device alice_row _ _ _ _ _)) _).
  - apply one_zone_wf.
  - apply alice_stored.
  - apply run_after. vm_compute. reflexivity.
  - reflexivity.
Defined.

Definition to_r2 : RelayMigrationReq :=
  {| mg_zone := "alice"; mg_target_relay_id := Some "r2"; mg_target_relay_sn := None; mg_operator := None;
     mg_reason := None; mg_migration_deadline := None; mg_source_version := None |}.

Definition migrating : World := after (start_relay_migration to_r2) one_zone.

Lemma migration_protocol_witness :
  exists w2, run (complete_relay_migration "alice" 2) migrating = Some (SOk tt, w2).
Proof.
  assert (Hrun : exists a, run (start_relay_migration to_r2) one_zone = Some (SOk a, migrating) /\ as_generation a = 2).
  { unfold migrating. eexists. split; [apply run_after; vm_compute; reflexivity|reflexivity]. }
  destruct Hrun as (a & Hrun & Hg).
  destruct (migration_protocol to_r2 one_zone alice_row a migrating 2 relay_clock_fits ltac:(lia) one_zone_wf
    alice_stored Hrun) as (_ & _ & _ & r & w2 & Hc & Hiff & _).
  exists w2. change (mg_zone to_r2) with "alice" in Hc. rewrite Hc, (proj2 Hiff) by (by rewrite Hg). reflexivity.
Defined.

Lemma plain_alice reason : check_non_empty reason "reason" = SOk tt -> plain_req (allocate_req "alice" reason).
Proof. intros Hr. split_and!; [reflexivity|reflexivity|exact Hr]. Qed.

Definition allocated : World := after (allocate_zone_relay from_pool (allocate_req "alice" "first")) two_relays.

(** The relay of the zone becomes the more loaded one. *)
Definition reloaded : World := world_after [CallHeartbeat (beat "r1" None (Some 50))] allocated.

Lemma allocated_run : exists a, run (allocate_zone_relay from_pool (allocate_req "alice" "first")) two_relays
  = Some (SOk a, allocated) /\ as_relay_id a = "r1" /\ as_generation a = 1.
Proof. unfold allocated. eexists. split; [apply run_after; vm_compute; reflexivity|]. split; reflexivity. Qed.

Lemma reloaded_wf : tables_wf (w_db reloaded).
Proof.
  destruct allocated_run as (a & Hrun & _).
  apply (seq_calls from_pool [CallHeartbeat (beat "r1" None (Some 50))] allocated reloaded); [by repeat constructor| |].
  - apply (seq_allocate from_pool (allocate_req "alice" "first") two_relays (SOk a) allocated two_relays_wf Hrun).
  - apply calls_after. vm_compute. reflexivity.
Qed.

Lemma reloaded_settled : settled (w_db reloaded) "alice" "r1" 1.
Proof.
  eexists _, _. split; [vm_compute; reflexivity|]. split; [reflexivity|]. split; [reflexivity|].
  split; [reflexivity|]. split; [vm_compute; reflexivity|reflexivity].
Qed.

Lemma allocation_repeats_witness :
  exists a w2, run (allocate_zone_relay from_pool (allocate_req "alice" "again")) reloaded = Some (SOk a, w2) /\
    as_relay_id a = "r1" /\ as_generation a = 1 /\ t_assignments (w_db w2) = t_assignments (w_db reloaded).
Proof.
  destruct allocated_run as (a & Hrun & Hid & Hg).
  destruct (allocation_repeats from_pool (allocate_req "alice" "first") two_relays a allocated two_relays_wf
    no_lock_sample (plain_alice "first" eq_refl) Hrun) as [_ Hagain].
  rewrite Hid, Hg in Hagain.
  apply (Hagain (allocate_req "alice" "again") reloaded reloaded_wf).
  - apply free_world. vm_compute. reflexivity.
  - exact (plain_alice "again" eq_refl).
  - reflexivity.
  - exact reloaded_settled.
Defined.

(** No relay yet: the zone waits until one is registered. *)
Definition waiting : World := after (allocate_zone_relay from_pool (allocate_req "alice" "first")) empty_world.

Lemma waiting_wf : tables_wf (w_db waiting).
Proof.
  assert (Hrun : exists r, run (allocate_zone_relay from_pool (allocate_req "alice" "first")) empty_world = Some (r, waiting)).
  { unfold waiting. eexists. apply run_after. vm_compute. reflexivity. }
  destruct Hrun as [r Hrun]. apply (seq_allocate from_pool (allocate_req "alice" "first") empty_world r waiting empty_tables_wf Hrun).
Qed.

Lemma waiting_pending : t_pending (w_db waiting) = {["alice" := mkPendingRow None "first" None 1
  "NotFound: no_relay_available: no matching or fallback relay is healthy" 1000 1000]}.
Proof. vm_compute. reflexivity. Qed.

Lemma waiting_zones zone row : t_pending (w_db waiting) !! zone = Some row -> waiting_ok (w_db waiting) zone row.
Proof.
  rewrite waiting_pending. intros [<- <-]%lookup_singleton_Some.
  split; [reflexivity|]. split; [reflexivity|]. split; [reflexivity|]. intros r.
  assert (Hnone : t_assignments (w_db waiting) !! "alice" = None) by (vm_compute; reflexivity). by rewrite Hnone.
Qed.

Lemma registration_drains_pending_witness :
  exists stored w', run (register_relay_node from_pool (sample_node "r1" 1)) waiting = Some (SOk stored, w') /\
    is_Some (t_pending (w_db waiting) !! "alice") /\ t_pending (w_db w') = ∅.
Proof.
  eexists _, _. split; [apply run_after; vm_compute; reflexivity|].
  split; [rewrite waiting_pending, lookup_singleton_eq; by eexists|].
  refine (proj1 (registration_drains_pending from_pool (sample_node "r1" 1) waiting _ _ relay_clock_fits _ _ waiting_wf _ _
    waiting_zones _ _)).
  - apply sample_ips. lia.
  - apply sample_ips. lia.
  - apply free_world. vm_compute. reflexivity.
  - reflexivity.
  - apply run_after. vm_compute. reflexivity.
  - reflexivity.
Defined.
