(* ===== verification/AuthModel.v ===== *)
(** * Service node: the data of the account database

    The pure part of [cyfs-sn/src/sn_auth.rs]: the canonical forms of e-mail
    addresses, bound domains and DNS owner names, the record types and values of
    user DNS, the PKX proof of a domain and the records the database returns.
    The JSON text of an owner key is read by [serde_json], a class here. *)

From S2P Require Import Prelude IpAddr RelayModel.

(** ** Texts *)

(** [str::trim_end_matches] and [str::trim_start_matches] of one character. *)
Fixpoint trim_end_char (c : Ascii.ascii) (s : string) : string :=
  match s with
  | EmptyString => EmptyString
  | String a s' =>
      match trim_end_char c s' with
      | EmptyString => if Ascii.eqb a c then EmptyString else String a EmptyString
      | t => String a t
      end
  end.

Fixpoint trim_start_char (c : Ascii.ascii) (s : string) : string :=
  match s with
  | EmptyString => EmptyString
  | String a s' => if Ascii.eqb a c then trim_start_char c s' else s
  end.

(** [str::is_ascii]. *)
Definition is_ascii (s : string) : bool := string_forallb (fun a => byte_at a <? 128) s.

(** [Option::unwrap_or_default] on a text. *)
Definition text_or_empty (o : option string) : string := default "" o.

(** ** E-mail addresses *)

Definition char_in (s : string) (a : Ascii.ascii) : bool := string_contains a s.

Definition email_local_char (a : Ascii.ascii) : bool :=
  is_ascii_alphanumeric a || char_in "!#$%&'*+-./=?^_`{|}~" a.

Definition email_label_bad (label : string) : bool :=
  is_empty label || (63 <? String.length label)%nat || starts_with "-" label || ends_with "-" label
  || negb (string_forallb (fun a => is_ascii_alphanumeric a || char_in "-" a) label).

Definition canonical_email (email : string) : SnResult string :=
  let email := trim email in
  let? _ := refuse_if (is_empty email || (254 <? String.length email)%nat || negb (is_ascii email))
    (sn_err EcInvalidInput "email must be a non-empty ASCII address no longer than 254 bytes") in
  let? (local, domain) := some_or (split_once "@" email)
    (sn_err EcInvalidInput "email must contain exactly one @ separator") in
  let? _ := refuse_if (is_empty local || (64 <? String.length local)%nat || is_empty domain
                       || (253 <? String.length domain)%nat || string_contains "@" domain)
    (sn_err EcInvalidInput "email local part or domain is invalid") in
  let? _ := refuse_if (starts_with "." local || ends_with "." local || is_some (split_once ".." local)
                       || negb (string_forallb email_local_char local))
    (sn_err EcInvalidInput "email local part has invalid syntax") in
  let? _ := refuse_if (existsb email_label_bad (split_on "." domain))
    (sn_err EcInvalidInput "email domain has invalid syntax") in
  SOk (to_ascii_lowercase email).

(** ** Domains and DNS names *)

Definition canonical_user_domain (domain : string) : option string :=
  let normalized := to_ascii_lowercase (trim_end_char "." (trim domain)) in
  if is_empty normalized then None
  else
    let canonical := default normalized (strip_prefix "*." normalized) in
    if is_empty canonical || String.eqb canonical "*" then None else Some canonical.

Definition dns_label_char (a : Ascii.ascii) : bool :=
  is_ascii_lower a || is_ascii_digit a || char_in "-_" a.

Definition dns_label_bad (label : string) : bool :=
  is_empty label || (63 <? String.length label)%nat || starts_with "-" label || ends_with "-" label
  || negb (string_forallb dns_label_char label).

Definition canonical_user_dns_name (name : string) : SnResult string :=
  let name := trim_end_char "." (trim name) in
  let? _ := refuse_if (is_empty name || (253 <? String.length name)%nat || negb (is_ascii name))
    (sn_err EcInvalidInput "DNS name must be a non-empty ASCII name no longer than 253 bytes") in
  let canonical := to_ascii_lowercase name in
  let? _ := refuse_if (existsb dns_label_bad (split_on "." canonical))
    (sn_err EcInvalidInput "DNS name contains an invalid label") in
  SOk canonical.

(** ** Record types, values, lifetimes *)

Inductive UserDnsRecordType : Type := DnsA | DnsAaaa | DnsTxt.

#[export] Instance UserDnsRecordType_eq_dec : EqDecision UserDnsRecordType.
Proof. solve_decision. Defined.

#[export] Instance UserDnsRecordType_countable : Countable UserDnsRecordType.
Proof.
  apply (inj_countable' (fun t => match t with DnsA => 0%nat | DnsAaaa => 1%nat | DnsTxt => 2%nat end)
    (fun n => match n with 0%nat => DnsA | 1%nat => DnsAaaa | _ => DnsTxt end)).
  by intros [].
Defined.

#[export] Instance UserDnsRecordType_enum : StringEnum UserDnsRecordType := {|
  variants := [DnsA; DnsAaaa; DnsTxt];
  as_str t := match t with DnsA => "A" | DnsAaaa => "AAAA" | DnsTxt => "TXT" end |}.

#[export] Instance UserDnsRecordType_laws : StringEnumLaws UserDnsRecordType.
Proof. enum_laws. Qed.

(** [UserDnsRecordType::from_str]. *)
Definition record_type_from_str (value : string) : SnResult UserDnsRecordType :=
  some_or (from_str (to_ascii_uppercase (trim value)))
    (sn_err EcInvalidInput "unsupported user DNS record type").

Definition USER_DNS_DEFAULT_TTL : Z := 600.
Definition USER_DNS_MIN_TTL : Z := 30.
Definition USER_DNS_MAX_TTL : Z := 86400.
Definition USER_DNS_MAX_TXT_BYTES : nat := Z.to_nat 4096.
Definition USER_DNS_CHANGE_RETENTION : Z := 10000.

(** [str::parse::<Ipv4Addr>] and [str::parse::<Ipv6Addr>]: the whole text. *)
Definition parse_ipv4 (s : string) : option (list Z) :=
  match read_ipv4_addr s with Some (os, EmptyString) => Some os | _ => None end.
Definition parse_ipv6 (s : string) : option (list Z) :=
  match read_ipv6_addr s with Some (ss, EmptyString) => Some ss | _ => None end.

Definition canonical_user_dns_rdata (record_type : UserDnsRecordType) (value : string) : SnResult string :=
  match record_type with
  | DnsA =>
      let? os := some_or (parse_ipv4 (trim value)) (sn_err EcInvalidInput "invalid IPv4 rdata") in
      SOk (fmt_ipv4 os)
  | DnsAaaa =>
      let? ss := some_or (parse_ipv6 (trim value)) (sn_err EcInvalidInput "invalid IPv6 rdata") in
      SOk (fmt_ipv6 ss)
  | DnsTxt =>
      let? _ := refuse_if (is_empty value) (sn_err EcInvalidInput "TXT rdata must not be empty") in
      let? _ := refuse_if (USER_DNS_MAX_TXT_BYTES <? String.length value)%nat
        (sn_err EcInvalidInput "TXT rdata exceeds 4096 bytes") in
      SOk value
  end.

Definition validate_user_dns_ttl (ttl : Z) : SnResult Z :=
  let? _ := refuse_if (negb ((USER_DNS_MIN_TTL <=? ttl) && (ttl <=? USER_DNS_MAX_TTL)))
    (sn_err EcInvalidInput "user DNS TTL must be in 30..=86400") in
  SOk ttl.

Record UserDnsRrset : Type := mkRrset {
  rr_name : string;
  rr_record_type : UserDnsRecordType;
  rr_ttl : Z;
  rr_values : list string;
  rr_revision : Z
}.

#[export] Instance UserDnsRrset_eq_dec : EqDecision UserDnsRrset.
Proof. solve_decision. Defined.

Record UserDnsLookup : Type := mkLookup {
  lk_rrset : option UserDnsRrset;
  lk_observed_revision : Z
}.

Record UserDnsMutationResult : Type := mkMutation {
  mu_revision : Z;
  mu_changed : bool;
  mu_rrset : option UserDnsRrset
}.

Inductive UserDnsChangeOperation : Type := UpsertRrset | DeleteRrset | DeleteName.

#[export] Instance UserDnsChangeOperation_eq_dec : EqDecision UserDnsChangeOperation.
Proof. solve_decision. Defined.

#[export] Instance UserDnsChangeOperation_enum : StringEnum UserDnsChangeOperation := {|
  variants := [UpsertRrset; DeleteRrset; DeleteName];
  as_str o := match o with
              | UpsertRrset => "upsert_rrset" | DeleteRrset => "delete_rrset"
              | DeleteName => "delete_name" end |}.

#[export] Instance UserDnsChangeOperation_laws : StringEnumLaws UserDnsChangeOperation.
Proof. enum_laws. Qed.

(** [UserDnsChangeOperation::from_db]. *)
Definition change_operation_from_db (value : string) : SnResult UserDnsChangeOperation :=
  some_or (from_str value) (sn_err EcDBError "invalid user DNS change operation").

Record UserDnsChange : Type := mkChange {
  ch_revision : Z;
  ch_name : string;
  ch_record_type : option UserDnsRecordType;
  ch_operation : UserDnsChangeOperation
}.

Record UserDnsChangePage : Type := mkPage {
  pg_changes : list UserDnsChange;
  pg_current_revision : Z;
  pg_earliest_available_revision : Z
}.

Record SnAuthDbCapabilities : Type := mkCapabilities {
  cap_contract_version : Z;
  cap_schema_version : Z;
  cap_user_dns_rrsets : bool;
  cap_user_dns_change_feed : bool
}.

Definition SN_AUTH_DB_SCHEMA_VERSION : Z := 3.
Definition SN_AUTH_DB_CONTRACT_VERSION : Z := 3.

(** ** The PKX proof of a domain *)

Definition pkx_record_name (canonical_domain : string) : string := "_pkx." +:+ canonical_domain.

(** The text under the key [x] of a JSON object, when the text is one. *)
Class JsonKeys : Type := json_x : string -> option string.

Section pkx.
Context `{JsonKeys}.

Definition pkx_source_of (key_material : string) : option string :=
  let trimmed := trim key_material in
  if is_empty trimmed then None
  else if starts_with "{" trimmed then
    match json_x trimmed with
    | Some x => if is_empty (trim x) then Some trimmed else Some (trim x)
    | None => Some trimmed
    end
  else match strip_prefix "PKX=" trimmed with
  | Some rest =>
      let x := trim (default "" (head (split_by (char_in ":;") rest))) in
      if is_empty x then None else Some x
  | None => Some (trim_end_char ";" trimmed)
  end.

Definition pkx_value (key_material : string) : SnResult string :=
  let? source := some_or (pkx_source_of key_material)
    (sn_err EcInvalidInput "owner key ref or public key is required before creating PKX binding") in
  SOk ("PKX(" +:+ source +:+ ")").
End pkx.

Definition txt_matches_pkx (txt expected_pkx : string) : bool :=
  String.eqb (trim (trim_end_char char_dquote (trim_start_char char_dquote (trim txt)))) expected_pkx.

(** ** Accounts *)

Inductive UserState : Type := UsActive | UsSuspended | UsDeleted | UsBanned.

#[export] Instance UserState_eq_dec : EqDecision UserState.
Proof. solve_decision. Defined.

Definition user_state_to_string (s : UserState) : string :=
  match s with
  | UsActive => "active" | UsSuspended => "suspended" | UsDeleted => "deleted" | UsBanned => "banned"
  end.

Definition user_state_from_str (s : option string) : UserState :=
  match s with
  | Some s =>
      if String.eqb s "suspended" then UsSuspended
      else if String.eqb s "deleted" then UsDeleted
      else if String.eqb s "banned" then UsBanned
      else UsActive
  | None => UsActive
  end.

Definition user_state_is_active (s : UserState) : bool := bool_decide (s = UsActive).

Record UserRelayInfo : Type := mkUserRelay {
  ur_relay_id : string;
  ur_relay_sn : string;
  ur_state : RelayAssignmentState;
  ur_generation : Z
}.

Definition user_relay_of (a : RelayAssignment) : UserRelayInfo :=
  mkUserRelay (as_relay_id a) (as_relay_sn a) (as_state a) (as_generation a).

Record SNUserInfo : Type := mkUserInfo {
  ui_username : option string;
  ui_email : option string;
  ui_state : UserState;
  ui_public_key : string;
  ui_activation_code : option string;
  ui_zone_config : string;
  ui_self_cert : bool;
  ui_user_domain : option string;
  ui_sn_ips : option string;
  ui_updated_at : Z;
  ui_relay : option UserRelayInfo
}.

Record SnClearStateResult : Type := mkClearState {
  cl_deleted_users : Z;
  cl_activation_code_reset : bool
}.

Record SnAuthInfo : Type := mkAuthInfo {
  ai_username : string;
  ai_password_hash : string;
  ai_password_salt : string;
  ai_password_algo : string;
  ai_created_at : Z;
  ai_updated_at : Z;
  ai_last_login_at : option Z
}.

Record DomainBinding : Type := mkBinding {
  db_username : string;
  db_domain : string;
  db_pkx : string;
  db_pkx_record_name : string;
  db_verified_at : Z
}.

Record ZoneInfo : Type := mkZoneInfo {
  zi_username : string;
  zi_bns_name : string;
  zi_zone : option string;
  zi_relay_sn : option string;
  zi_self_cert : bool;
  zi_cert_checked_at : option Z;
  zi_cert_expires_at : option Z;
  zi_sn_ips : option string;
  zi_source_version : option string;
  zi_updated_at : Z;
  zi_relay : option UserRelayInfo
}.

Definition zone_info_default_for (username : string) : ZoneInfo :=
  mkZoneInfo username username None None false None None None None 0 None.

Record ZoneInfoPatch : Type := mkZonePatch {
  zp_bns_name : option string;
  zp_zone : option string;
  zp_relay_sn : option string;
  zp_self_cert : option bool;
  zp_cert_checked_at : option Z;
  zp_cert_expires_at : option Z;
  zp_sn_ips : option string;
  zp_source_version : option string
}.

Definition default_zone_patch : ZoneInfoPatch := mkZonePatch None None None None None None None None.

(** The fields [update_zone_info] overwrites. *)
Definition patch_zone_info (patch : ZoneInfoPatch) (now : Z) (current : ZoneInfo) : ZoneInfo :=
  let or_old {A} (new old : option A) := match new with Some v => Some v | None => old end in
  {| zi_username := zi_username current;
     zi_bns_name := default (zi_bns_name current) (zp_bns_name patch);
     zi_zone := or_old (zp_zone patch) (zi_zone current);
     zi_relay_sn := None;
     zi_self_cert := default (zi_self_cert current) (zp_self_cert patch);
     zi_cert_checked_at := or_old (zp_cert_checked_at patch) (zi_cert_checked_at current);
     zi_cert_expires_at := or_old (zp_cert_expires_at patch) (zi_cert_expires_at current);
     zi_sn_ips := or_old (zp_sn_ips patch) (zi_sn_ips current);
     zi_source_version := or_old (zp_source_version patch) (zi_source_version current);
     zi_updated_at := now;
     zi_relay := None |}.

Record RegisterUserWithRelayAllocationReq : Type := mkRegisterRelayReq {
  rq_active_code : string;
  rq_username : string;
  rq_email : string;
  rq_password_hash : string;
  rq_password_salt : string;
  rq_password_algo : string;
  rq_preferred_region : option string;
  rq_source_ip : option IpAddr;
  rq_source_version : option string
}.

Record RegisterUserWithOwnerKeyReq : Type := mkRegisterKeyReq {
  rk_active_code : string;
  rk_username : string;
  rk_email : string;
  rk_password_hash : string;
  rk_password_salt : string;
  rk_password_algo : string;
  rk_public_key : string;
  rk_zone_config : string;
  rk_user_domain : option string;
  rk_sn_ips : option string
}.

Inductive RegistrationRelayAllocation : Type :=
| RelayAssigned (assignment : RelayAssignment)
| RelayPending (error_code : SnErrorCode) (message : string).

Record RegisterUserWithRelayAllocationResult : Type := mkRegisterRelayResult {
  rs_registered : bool;
  rs_relay : option RegistrationRelayAllocation
}.

Record AccountSession : Type := mkSession {
  se_session_id : string;
  se_username : string;
  se_token_aud : string;
  se_state : string;
  se_issued_at : Z;
  se_expires_at : Z;
  se_revoked_at : option Z
}.
