(* ===== verification/AuthStore.v ===== *)
(** * Service node: the tables of the account database

    The tables [SqliteSnAuthDB::initialize_database] of [cyfs-sn/src/sn_auth.rs]
    creates, as finite maps keyed by their primary keys, and the SQL statements
    of the database as functions on them, with what SQLite does on a violated
    constraint: an error, a row that is skipped ([OR IGNORE]) or the rows that
    refer to a deleted one ([ON DELETE CASCADE]).  The four DNS tables and the
    revision are a record of their own. *)

From S2P Require Import Prelude RelayModel RelayStore AuthModel.

(** ** SQL texts *)

(** A text as the C functions of SQLite see it. *)
Fixpoint until_nul (s : string) : string :=
  match s with
  | EmptyString => EmptyString
  | String a s' => if byte_at a =? 0 then EmptyString else String a (until_nul s')
  end.

(** [length(X)]: the characters before the first NUL. *)
Definition sql_length (s : string) : nat := length (utf8_chars (until_nul s)).

(** [lower(X)] of ASCII letters, on characters. *)
Definition fold_case (c : Z) : Z := if (65 <=? c) && (c <=? 90) then c + 32 else c.

Fixpoint like_chars (p s : list Z) : bool :=
  match p with
  | [] => match s with [] => true | _ => false end
  | c :: p' =>
      if c =? 37 then
        (fix any s := like_chars p' s || match s with [] => false | _ :: s' => any s' end) s
      else
        match s with
        | [] => false
        | d :: s' => ((c =? 95) || (fold_case c =? fold_case d)) && like_chars p' s'
        end
  end.

(** [text LIKE pattern]: [%] is any text, [_] any character. *)
Definition sql_like (pattern text : string) : bool :=
  like_chars (utf8_chars (until_nul pattern)) (utf8_chars (until_nul text)).

(** [name = domain OR name LIKE '%.' || domain]. *)
Definition under_domain (name domain : string) : bool :=
  String.eqb name domain || sql_like ("%." +:+ domain) name.

(** The rows of a [SELECT] without [ORDER BY] come in an order of the engine's
    choice. *)
Class RowOrder : Type := scan : forall {A : Type}, list A -> list A.
Class RowOrderLaws `{RowOrder} : Prop := scan_Permutation : forall {A} (l : list A), scan l ≡ₚ l.

(** ** Rows *)

(** A row of [users]; the key is the user name. *)
Record UserRow : Type := mkUserRow {
  us_email : option string;
  us_state : string;
  us_bns_name : option string;
  us_public_key : string;
  us_activation_code : option string;
  us_owner_key_ref : option string;
  us_zone_config : string;
  us_self_cert : Z;
  us_user_domain : option string;
  us_sn_ips : option string;
  us_created_at : Z;
  us_updated_at : Z;
  us_last_login_at : option Z
}.

(** A row of [user_auth]; the key is the user name. *)
Record AuthRow : Type := mkAuthRow {
  au_password_hash : string;
  au_password_salt : string;
  au_password_algo : string;
  au_created_at : Z;
  au_updated_at : Z;
  au_last_login_at : option Z
}.

(** A row of [user_domain_history]. *)
Record HistoryRow : Type := mkHistoryRow {
  hi_domain : string;
  hi_owner : string;
  hi_created_at : Z
}.

(** A row of [user_domain_bindings]; the key is its id. *)
Record BindingRow : Type := mkBindingRow {
  bi_domain : string;
  bi_owner : string;
  bi_state : string;
  bi_pkx : string;
  bi_pkx_record_name : string;
  bi_verified_at : option Z;
  bi_created_at : Z;
  bi_updated_at : Z
}.

(** A row of [zone_info]; the key is the user name. *)
Record ZoneRow : Type := mkZoneRow {
  zr_bns_name : string;
  zr_zone : option string;
  zr_relay_sn : option string;
  zr_self_cert : Z;
  zr_cert_checked_at : option Z;
  zr_cert_expires_at : option Z;
  zr_sn_ips : option string;
  zr_source_version : option string;
  zr_updated_at : Z
}.

(** A row of [account_sessions]; the key is the session id. *)
Record SessionRow : Type := mkSessionRow {
  ss_username : string;
  ss_token_aud : string;
  ss_state : string;
  ss_issued_at : Z;
  ss_expires_at : Z;
  ss_revoked_at : option Z
}.

(** A row of [user_dns_names]; the key is the name. *)
Record NameRow : Type := mkNameRow {
  nm_owner : string;
  nm_created_at : Z;
  nm_updated_at : Z
}.

(** A row of [user_dns_rrsets]; the key is the name and the record type. *)
Record RrsetRow : Type := mkRrsetRow {
  rw_ttl : Z;
  rw_revision : Z;
  rw_created_at : Z;
  rw_updated_at : Z
}.

(** A row of [user_dns_changes]; the key is the revision. *)
Record ChangeRow : Type := mkChangeRow {
  cw_name : string;
  cw_record_type : option string;
  cw_operation : string;
  cw_committed_at : Z
}.

(** ** Tables *)

(** The DNS tables; the key of a value is the name, the type and the text, and
    [d_revision] is the row of [user_dns_state]. *)
Record DnsTables : Type := mkDns {
  d_names : gmap string NameRow;
  d_rrsets : gmap (string * UserDnsRecordType) RrsetRow;
  d_rdata : gmap (string * UserDnsRecordType * string) Z;
  d_revision : Z;
  d_changes : gmap Z ChangeRow
}.

Record AuthTables : Type := mkAuthTables {
  a_schema_version : Z;
  a_codes : gmap string Z;
  a_users : gmap string UserRow;
  a_auth : gmap string AuthRow;
  a_history : list HistoryRow;
  a_bindings : gmap Z BindingRow;
  a_binding_seq : Z;
  a_zones : gmap string ZoneRow;
  a_sessions : gmap string SessionRow;
  a_dns : DnsTables
}.

Definition fresh_auth_tables : AuthTables :=
  mkAuthTables SN_AUTH_DB_SCHEMA_VERSION ∅ ∅ ∅ [] ∅ 0 ∅ ∅ (mkDns ∅ ∅ ∅ 0 ∅).

Definition on_codes f (t : AuthTables) : AuthTables :=
  mkAuthTables (a_schema_version t) (f (a_codes t)) (a_users t) (a_auth t) (a_history t)
    (a_bindings t) (a_binding_seq t) (a_zones t) (a_sessions t) (a_dns t).
Definition on_users f (t : AuthTables) : AuthTables :=
  mkAuthTables (a_schema_version t) (a_codes t) (f (a_users t)) (a_auth t) (a_history t)
    (a_bindings t) (a_binding_seq t) (a_zones t) (a_sessions t) (a_dns t).
Definition on_auth f (t : AuthTables) : AuthTables :=
  mkAuthTables (a_schema_version t) (a_codes t) (a_users t) (f (a_auth t)) (a_history t)
    (a_bindings t) (a_binding_seq t) (a_zones t) (a_sessions t) (a_dns t).
Definition on_history f (t : AuthTables) : AuthTables :=
  mkAuthTables (a_schema_version t) (a_codes t) (a_users t) (a_auth t) (f (a_history t))
    (a_bindings t) (a_binding_seq t) (a_zones t) (a_sessions t) (a_dns t).
Definition on_bindings f (t : AuthTables) : AuthTables :=
  mkAuthTables (a_schema_version t) (a_codes t) (a_users t) (a_auth t) (a_history t)
    (f (a_bindings t)) (a_binding_seq t) (a_zones t) (a_sessions t) (a_dns t).
Definition on_zones f (t : AuthTables) : AuthTables :=
  mkAuthTables (a_schema_version t) (a_codes t) (a_users t) (a_auth t) (a_history t)
    (a_bindings t) (a_binding_seq t) (f (a_zones t)) (a_sessions t) (a_dns t).
Definition on_sessions f (t : AuthTables) : AuthTables :=
  mkAuthTables (a_schema_version t) (a_codes t) (a_users t) (a_auth t) (a_history t)
    (a_bindings t) (a_binding_seq t) (a_zones t) (f (a_sessions t)) (a_dns t).
Definition on_dns f (t : AuthTables) : AuthTables :=
  mkAuthTables (a_schema_version t) (a_codes t) (a_users t) (a_auth t) (a_history t)
    (a_bindings t) (a_binding_seq t) (a_zones t) (a_sessions t) (f (a_dns t)).

(** ** Statements in a transaction *)

(** A statement or a transaction: an error leaves the tables as they were. *)
Definition Tx (S A : Type) : Type := S -> SnResult (A * S).

Section tx.
Context {S : Type}.

Definition tret {A} (a : A) : Tx S A := fun s => SOk (a, s).
Definition tfail {A} (e : SnError) : Tx S A := fun _ => SErr e.
Definition tthen {A B} (m : Tx S A) (k : A -> Tx S B) : Tx S B := fun s =>
  match m s with SOk (a, s') => k a s' | SErr e => SErr e end.
Definition tlift {A} (r : SnResult A) : Tx S A := fun s => let? a := r in SOk (a, s).
Definition tget {A} (f : S -> A) : Tx S A := fun s => SOk (f s, s).
Definition tput (f : S -> S) : Tx S unit := fun s => SOk (tt, f s).

Fixpoint titer {A} (f : A -> Tx S unit) (l : list A) : Tx S unit :=
  match l with
  | [] => tret tt
  | x :: l' => tthen (f x) (fun _ => titer f l')
  end.
End tx.

Notation "'let!' x ':=' m 'in' k" := (tthen m (fun x => k))
  (at level 10, x pattern, m at level 100, k at level 200) : sn_scope.
Notation "m1 ;! m2" := (tthen m1 (fun _ => m2)) (at level 100, m2 at level 200, right associativity) : sn_scope.

(** A transaction on the DNS tables, inside one on all of them. *)
Definition in_dns {A} (m : Tx DnsTables A) : Tx AuthTables A := fun t =>
  match m (a_dns t) with SOk (a, d) => SOk (a, on_dns (fun _ => d) t) | SErr e => SErr e end.

Definition db_err (context : string) : SnError := sn_err EcDBError context.
Definition invalid_input (context : string) : SnError := sn_err EcInvalidInput context.

(** [value as i64] of a [u64]. *)
Definition u64_as_i64 (value : Z) : Z := if value <? 2 ^ 63 then value else value - 2 ^ 64.

Definition sql_bool (b : bool) : Z := if b then 1 else 0.

Definition sorted_texts (l : list string) : list string := stable_sort String.leb l.

(** ** DNS statements *)

Definition current_user_dns_revision_tx : Tx DnsTables Z := tget (fun d => i64_to_u64 (d_revision d)).

(** [UPDATE user_dns_state SET revision = revision]: takes the writer's lock. *)
Definition lock_user_dns_state_tx : Tx DnsTables unit :=
  tput (fun d => mkDns (d_names d) (d_rrsets d) (d_rdata d) (d_revision d) (d_changes d)).

(** A sum that leaves the 64-bit range is a real, which is not read back as an
    integer. *)
Definition allocate_user_dns_revision_tx : Tx DnsTables Z := fun d =>
  let revision := d_revision d + 1 in
  if 2 ^ 63 <=? revision then SErr (db_err "allocate user DNS revision failed")
  else SOk (i64_to_u64 revision,
            mkDns (d_names d) (d_rrsets d) (d_rdata d) revision (d_changes d)).

Definition append_user_dns_change_tx (revision : Z) (name : string) (record_type : option UserDnsRecordType)
    (operation : UserDnsChangeOperation) (now : Z) : Tx DnsTables unit := fun d =>
  match d_changes d !! u64_as_i64 revision with
  | Some _ => SErr (db_err "append user DNS change failed")
  | None =>
      let row := mkChangeRow name (as_str <$> record_type) (as_str operation) now in
      let changes := <[u64_as_i64 revision := row]> (d_changes d) in
      let cutoff := u64_saturating_sub revision USER_DNS_CHANGE_RETENTION in
      let changes :=
        if 0 <? cutoff then filter (fun '(r, _) => ~ r <= u64_as_i64 cutoff) changes else changes in
      SOk (tt, mkDns (d_names d) (d_rrsets d) (d_rdata d) (d_revision d) changes)
  end.

(** [SELECT rdata ... WHERE name = ?1 AND record_type = ?2 ORDER BY rdata]. *)
Definition rdata_of (d : DnsTables) (name : string) (ty : UserDnsRecordType) : list string :=
  sorted_texts (omap (fun '((n, t, v), _) =>
    if bool_decide (n = name) && bool_decide (t = ty) then Some v else None) (map_to_list (d_rdata d))).

Definition user_dns_rrset (d : DnsTables) (name : string) (ty : UserDnsRecordType) : option UserDnsRrset :=
  match d_rrsets d !! (name, ty) with
  | None => None
  | Some row =>
      Some {| rr_name := name; rr_record_type := ty; rr_ttl := Z.max 0 (rw_ttl row) mod 2 ^ 32;
              rr_values := rdata_of d name ty; rr_revision := i64_to_u64 (rw_revision row) |}
  end.

Definition user_dns_rrset_tx (name : string) (ty : UserDnsRecordType) : Tx DnsTables (option UserDnsRrset) :=
  tget (fun d => user_dns_rrset d name ty).

Definition user_dns_owner_tx (name : string) : Tx DnsTables (option string) :=
  tget (fun d => nm_owner <$> d_names d !! name).

Definition ensure_user_dns_owner (actual requested : string) : SnResult unit :=
  refuse_if (negb (String.eqb actual requested))
    (sn_err EcConflict "user DNS name is owned by another user").

(** The row of the name is there and satisfies the condition. *)
Definition name_gone (gone : string -> NameRow -> bool) (d : DnsTables) (n : string) : bool :=
  match d_names d !! n with Some row => gone n row | None => false end.

(** [DELETE FROM user_dns_names WHERE ...]: the RRsets and the values of the
    names go with them. *)
Definition delete_names (gone : string -> NameRow -> bool) (d : DnsTables) : DnsTables :=
  mkDns (filter (fun '(n, _) => name_gone gone d n = false) (d_names d))
        (filter (fun '((n, _), _) => name_gone gone d n = false) (d_rrsets d))
        (filter (fun '((n, _, _), _) => name_gone gone d n = false) (d_rdata d))
        (d_revision d) (d_changes d).

Arguments delete_names : simpl never.

(** The names of an owner, under a domain if one is given, in order. *)
Definition owned_names (d : DnsTables) (owner : string) (domain : option string) : list string :=
  sorted_texts (omap (fun '(n, row) =>
    if String.eqb (nm_owner row) owner && match domain with Some dom => under_domain n dom | None => true end
    then Some n else None) (map_to_list (d_names d))).

Definition delete_one_name (owner : string) (now : Z) (name : string) : Tx DnsTables unit :=
  let! latest := allocate_user_dns_revision_tx in
  tput (delete_names (fun n row => String.eqb n name && String.eqb (nm_owner row) owner)) ;!
  append_user_dns_change_tx latest name None DeleteName now.

Definition delete_user_dns_names_tx (owner : string) (domain : option string) (now : Z) : Tx DnsTables Z :=
  let! names := tget (fun d => owned_names d owner domain) in
  titer (delete_one_name owner now) names ;!
  current_user_dns_revision_tx.

(** The check of [user_dns_names.name]. *)
Definition dns_name_check (name : string) : bool :=
  String.eqb name (to_ascii_lowercase name) && negb (sql_like "%." name)
  && (1 <=? sql_length name)%nat && (sql_length name <=? 253)%nat.

(** [INSERT OR IGNORE INTO user_dns_names]; the owner is a user. *)
Definition claim_dns_name (name owner : string) (now : Z) : Tx AuthTables unit := fun t =>
  if is_some (d_names (a_dns t) !! name) || negb (dns_name_check name) then SOk (tt, t)
  else match a_users t !! owner with
  | None => SErr (db_err "claim user DNS name failed")
  | Some _ =>
      SOk (tt, on_dns (fun d => mkDns (<[name := mkNameRow owner now now]> (d_names d))
                 (d_rrsets d) (d_rdata d) (d_revision d) (d_changes d)) t)
  end.

(** [INSERT INTO user_dns_rrsets ... ON CONFLICT DO UPDATE]. *)
Definition upsert_rrset (name : string) (ty : UserDnsRecordType) (ttl revision now : Z) :
    Tx DnsTables unit := fun d =>
  if negb ((30 <=? ttl) && (ttl <=? 86400) && (0 <? revision) && is_some (d_names d !! name))
  then SErr (db_err "upsert user DNS RRset failed")
  else
    let created :=
      match d_rrsets d !! (name, ty) with Some old => rw_created_at old | None => now end in
    SOk (tt, mkDns (d_names d) (<[(name, ty) := mkRrsetRow ttl revision created now]> (d_rrsets d))
               (d_rdata d) (d_revision d) (d_changes d)).

(** The check of [user_dns_rdata.rdata]. *)
Definition rdata_check (value : string) : bool :=
  (1 <=? sql_length value)%nat && (String.length value <=? USER_DNS_MAX_TXT_BYTES)%nat.

(** [INSERT OR IGNORE INTO user_dns_rdata]; the RRset exists. *)
Definition insert_rdata (name : string) (ty : UserDnsRecordType) (value : string) (now : Z) :
    Tx DnsTables unit := fun d =>
  if is_some (d_rdata d !! (name, ty, value)) || negb (rdata_check value) then SOk (tt, d)
  else match d_rrsets d !! (name, ty) with
  | None => SErr (db_err "insert user DNS rdata failed")
  | Some _ =>
      SOk (tt, mkDns (d_names d) (d_rrsets d) (<[(name, ty, value) := now]> (d_rdata d))
                 (d_revision d) (d_changes d))
  end.

Definition touch_dns_name (name : string) (now : Z) (d : DnsTables) : DnsTables :=
  mkDns (alter (fun row => mkNameRow (nm_owner row) (nm_created_at row) now) name (d_names d))
        (d_rrsets d) (d_rdata d) (d_revision d) (d_changes d).

(** [DELETE FROM user_dns_rdata WHERE ...]: whether a row was there. *)
Definition delete_rdata (name : string) (ty : UserDnsRecordType) (value : string) : Tx DnsTables bool := fun d =>
  SOk (is_some (d_rdata d !! (name, ty, value)),
       mkDns (d_names d) (d_rrsets d) (delete (name, ty, value) (d_rdata d)) (d_revision d) (d_changes d)).

(** The values of the other RRsets. *)
Definition rdata_without (name : string) (ty : UserDnsRecordType)
    (rdata : gmap (string * UserDnsRecordType * string) Z) : gmap (string * UserDnsRecordType * string) Z :=
  filter (fun '((n, t, _), _) => (n, t) <> (name, ty)) rdata.

(** [DELETE FROM user_dns_rrsets WHERE ...] with its values: whether it was there. *)
Definition delete_rrset (name : string) (ty : UserDnsRecordType) : Tx DnsTables bool := fun d =>
  SOk (is_some (d_rrsets d !! (name, ty)),
       mkDns (d_names d) (delete (name, ty) (d_rrsets d))
         (rdata_without name ty (d_rdata d))
         (d_revision d) (d_changes d)).

(** [SELECT COUNT( * ) FROM user_dns_rrsets WHERE name = ?1]. *)
Definition rrset_count (name : string) (d : DnsTables) : nat :=
  length (List.filter (fun ty => is_some (d_rrsets d !! (name, ty))) variants).

(** [UPDATE user_dns_rrsets SET ...]; without a [ttl] the old one stays. *)
Definition update_rrset (name : string) (ty : UserDnsRecordType) (ttl : option Z) (revision now : Z)
    (d : DnsTables) : DnsTables :=
  mkDns (d_names d)
    (alter (fun row => mkRrsetRow (default (rw_ttl row) ttl) revision (rw_created_at row) now) (name, ty)
       (d_rrsets d))
    (d_rdata d) (d_revision d) (d_changes d).

(** [DELETE FROM user_dns_names WHERE name = ?1]. *)
Definition drop_name (name : string) : DnsTables -> DnsTables :=
  delete_names (fun n _ => String.eqb n name).

(** ** Account statements *)

Definition email_taken (email : string) (t : AuthTables) : bool :=
  existsb (fun '(_, u) => bool_decide (us_email u = Some email)) (map_to_list (a_users t)).

(** [INSERT INTO users]; the violated index tells the error. *)
Definition insert_user (username email : string) (row : UserRow) : Tx AuthTables unit := fun t =>
  if is_some (a_users t !! username) then SErr (db_err "insert user failed")
  else if email_taken email t then SErr (sn_err EcEmailAlreadyBound "email already bound")
  else SOk (tt, on_users <[username := row]> t).

Definition insert_user_auth_tx (username hash salt algo : string) (now : Z) : Tx AuthTables unit := fun t =>
  if is_some (a_auth t !! username) || negb (is_some (a_users t !! username))
  then SErr (db_err "insert auth failed")
  else SOk (tt, on_auth <[username := mkAuthRow hash salt algo now now None]> t).

(** [UPDATE activation_codes SET used = 1]. *)
Definition use_code (code : string) (t : AuthTables) : AuthTables :=
  on_codes (alter (fun _ => 1) code) t.

Definition map_user (username : string) (f : UserRow -> UserRow) (t : AuthTables) : AuthTables :=
  on_users (alter f username) t.

Definition set_user_domain (domain : option string) (now : Z) (u : UserRow) : UserRow :=
  mkUserRow (us_email u) (us_state u) (us_bns_name u) (us_public_key u) (us_activation_code u)
    (us_owner_key_ref u) (us_zone_config u) (us_self_cert u) domain (us_sn_ips u) (us_created_at u) now
    (us_last_login_at u).

(** [UPDATE users SET user_domain = NULL ... WHERE username = ?2 AND user_domain = ?3]. *)
Definition clear_user_domain (username domain : string) (now : Z) (t : AuthTables) : AuthTables :=
  map_user username (fun u =>
    if bool_decide (us_user_domain u = Some domain) then set_user_domain None now u else u) t.

(** [DELETE FROM users WHERE activation_code = ?1], and every row that refers to
    a deleted user. *)
Definition delete_users_by_code (code : string) (t : AuthTables) : AuthTables :=
  let dead u := match a_users t !! u with
                | Some row => bool_decide (us_activation_code row = Some code) | None => false end in
  mkAuthTables (a_schema_version t) (a_codes t)
    (filter (fun '(u, _) => dead u = false) (a_users t))
    (filter (fun '(u, _) => dead u = false) (a_auth t))
    (List.filter (fun h => negb (dead (hi_owner h))) (a_history t))
    (filter (fun '(_, b) => dead (bi_owner b) = false) (a_bindings t))
    (a_binding_seq t)
    (filter (fun '(u, _) => dead u = false) (a_zones t))
    (filter (fun '(_, s) => dead (ss_username s) = false) (a_sessions t))
    (delete_names (fun _ row => dead (nm_owner row)) (a_dns t)).

(** ** Binding statements *)

Definition DOMAIN_BINDING_ACTIVE : string := "active".
Definition DOMAIN_BINDING_REVOKED : string := "revoked".
Definition DOMAIN_BINDING_SUPERSEDED : string := "superseded".

Definition is_active_binding (b : BindingRow) : bool := String.eqb (bi_state b) DOMAIN_BINDING_ACTIVE.

(** [SELECT id, owner FROM user_domain_bindings WHERE domain = ?1 AND state =
    'active']: the index allows one. *)
Definition active_binding (domain : string) (t : AuthTables) : option (Z * BindingRow) :=
  List.find (fun '(_, b) => String.eqb (bi_domain b) domain && is_active_binding b)
    (map_to_list (a_bindings t)).

Definition set_binding_state (state : string) (now : Z) (b : BindingRow) : BindingRow :=
  mkBindingRow (bi_domain b) (bi_owner b) state (bi_pkx b) (bi_pkx_record_name b) (bi_verified_at b)
    (bi_created_at b) now.

Definition refresh_binding (pkx record_name : string) (now : Z) (b : BindingRow) : BindingRow :=
  mkBindingRow (bi_domain b) (bi_owner b) (bi_state b) pkx record_name (Some now) (bi_created_at b) now.

(** [INSERT INTO user_domain_bindings] of an active row. *)
Definition insert_binding (domain owner pkx record_name : string) (now : Z) : Tx AuthTables unit := fun t =>
  if is_some (active_binding domain t) || negb (is_some (a_users t !! owner))
  then SErr (db_err "insert user_domain binding failed")
  else
    let id := a_binding_seq t + 1 in
    SOk (tt, mkAuthTables (a_schema_version t) (a_codes t) (a_users t) (a_auth t) (a_history t)
      (<[id := mkBindingRow domain owner DOMAIN_BINDING_ACTIVE pkx record_name (Some now) now now]>
        (a_bindings t))
      id (a_zones t) (a_sessions t) (a_dns t)).

Definition insert_history (domain owner : string) (now : Z) : Tx AuthTables unit := fun t =>
  match a_users t !! owner with
  | None => SErr (db_err "insert user_domain history failed")
  | Some _ => SOk (tt, on_history (fun h => h ++ [mkHistoryRow domain owner now]) t)
  end.

(** [UPDATE user_domain_bindings SET state = 'revoked' ...] of the active rows a
    condition selects. *)
Definition revoke_bindings (which : BindingRow -> bool) (now : Z) (t : AuthTables) : AuthTables :=
  on_bindings (fmap (fun b =>
    if which b && is_active_binding b then set_binding_state DOMAIN_BINDING_REVOKED now b else b)) t.

(** [SELECT DISTINCT owner FROM user_dns_names WHERE owner != ?1 AND ...]. *)
Definition previous_dns_owners (username domain : string) (d : DnsTables) : list string :=
  sorted_texts (remove_dups (omap (fun '(n, row) =>
    if negb (String.eqb (nm_owner row) username) && under_domain n domain
    then Some (nm_owner row) else None) (map_to_list (d_names d)))).

(** ** Reading rows *)

Definition user_from_row (username : string) (row : UserRow) : SNUserInfo :=
  {| ui_username := Some username; ui_email := us_email row;
     ui_state := user_state_from_str (Some (us_state row));
     ui_public_key := us_public_key row; ui_activation_code := us_activation_code row;
     ui_zone_config := us_zone_config row; ui_self_cert := negb (us_self_cert row =? 0);
     ui_user_domain := us_user_domain row; ui_sn_ips := us_sn_ips row;
     ui_updated_at := Z.max 0 (us_updated_at row); ui_relay := None |}.

Definition zone_info_from_row (username : string) (row : ZoneRow) : ZoneInfo :=
  {| zi_username := username; zi_bns_name := zr_bns_name row; zi_zone := zr_zone row;
     zi_relay_sn := zr_relay_sn row; zi_self_cert := negb (zr_self_cert row =? 0);
     zi_cert_checked_at := i64_to_u64 <$> zr_cert_checked_at row;
     zi_cert_expires_at := i64_to_u64 <$> zr_cert_expires_at row;
     zi_sn_ips := zr_sn_ips row; zi_source_version := zr_source_version row;
     zi_updated_at := i64_to_u64 (zr_updated_at row); zi_relay := None |}.

Definition auth_from_row (username : string) (row : AuthRow) : SnAuthInfo :=
  {| ai_username := username; ai_password_hash := au_password_hash row;
     ai_password_salt := au_password_salt row; ai_password_algo := au_password_algo row;
     ai_created_at := i64_to_u64 (au_created_at row); ai_updated_at := i64_to_u64 (au_updated_at row);
     ai_last_login_at := i64_to_u64 <$> au_last_login_at row |}.

Definition session_from_row (session_id : string) (row : SessionRow) : AccountSession :=
  {| se_session_id := session_id; se_username := ss_username row; se_token_aud := ss_token_aud row;
     se_state := ss_state row; se_issued_at := i64_to_u64 (ss_issued_at row);
     se_expires_at := i64_to_u64 (ss_expires_at row); se_revoked_at := i64_to_u64 <$> ss_revoked_at row |}.

Definition change_from_row (revision : Z) (row : ChangeRow) : SnResult UserDnsChange :=
  let? record_type := opt_mapS record_type_from_str (cw_record_type row) in
  let? operation := change_operation_from_db (cw_operation row) in
  SOk (mkChange (i64_to_u64 revision) (cw_name row) record_type operation).
