(* ===== verification/Auth.v ===== *)
(** * Service node: the transactions of the account database

    The transactions of [SqliteSnAuthDB] ([cyfs-sn/src/sn_auth.rs]) over the
    account tables, the pages of the change feed, and the opening of the
    database.  [AuthDb] makes the requests of them. *)

From S2P Require Import Prelude IpAddr Tasks RelayModel RelayStore Relay AuthModel AuthStore.

(** What [sqlx] makes of a [NULL] that is read as a text: a text or an error. *)
Class SqlxNull : Type := null_text : option string.

(** ** Transactions on the account tables *)

Section transactions.
Context `{JsonKeys}.

Definition register_user_tx (active_code username email hash salt algo : string) (now : Z) :
    Tx AuthTables bool :=
  let! used := tget (fun t => a_codes t !! active_code) in
  if negb (bool_decide (used = Some 0)) then tret false
  else
    let! user := tget (fun t => a_users t !! username) in
    if is_some user then tret false
    else
      let! auth := tget (fun t => a_auth t !! username) in
      if is_some auth then tret false
      else
        let! taken := tget (email_taken email) in
        tlift (refuse_if taken (sn_err EcEmailAlreadyBound "email already bound")) ;!
        insert_user username email
          {| us_email := Some email; us_state := user_state_to_string UsActive;
             us_bns_name := Some username; us_public_key := "";
             us_activation_code := Some active_code; us_owner_key_ref := None; us_zone_config := "";
             us_self_cert := 0; us_user_domain := None; us_sn_ips := None;
             us_created_at := now; us_updated_at := now; us_last_login_at := None |} ;!
        insert_user_auth_tx username hash salt algo now ;!
        tput (use_code active_code) ;!
        tret true.

Definition activate_binding_tx (username canonical_domain pkx : string) (now : Z) : Tx AuthTables unit :=
  let! owners := tget (fun t => previous_dns_owners username canonical_domain (a_dns t)) in
  in_dns (titer (fun owner =>
    delete_user_dns_names_tx owner (Some canonical_domain) now ;! tret tt) owners) ;!
  let record_name := pkx_record_name canonical_domain in
  let! existing := tget (active_binding canonical_domain) in
  let! refreshed :=
    match existing with
    | Some (id, b) =>
        if String.eqb (bi_owner b) username then
          tput (on_bindings (alter (refresh_binding pkx record_name now) id)) ;! tret true
        else
          tput (on_bindings (alter (set_binding_state DOMAIN_BINDING_SUPERSEDED now) id)) ;!
          tput (clear_user_domain (bi_owner b) canonical_domain now) ;!
          tret false
    | None => tret false
    end in
  (if refreshed : bool then tret tt
   else
     insert_binding canonical_domain username pkx record_name now ;!
     insert_history canonical_domain username now) ;!
  tput (map_user username (set_user_domain (Some canonical_domain) now)).

Definition insert_zone_info (username : string) (row : ZoneRow) : Tx AuthTables unit := fun t =>
  if is_some (a_zones t !! username) || negb (is_some (a_users t !! username))
  then SErr (db_err "insert zone info failed")
  else SOk (tt, on_zones <[username := row]> t).

Definition register_user_with_owner_key_tx (req : RegisterUserWithOwnerKeyReq) (email : string) (now : Z) :
    Tx AuthTables bool :=
  let username := rk_username req in
  let! used := tget (fun t => a_codes t !! rk_active_code req) in
  if negb (bool_decide (used = Some 0)) then tret false
  else
    let! user := tget (fun t => a_users t !! username) in
    if is_some user then tret false
    else
      let! taken := tget (email_taken email) in
      tlift (refuse_if taken (sn_err EcEmailAlreadyBound "email already bound")) ;!
      let canonical_domain := rk_user_domain req ≫= canonical_user_domain in
      insert_user username email
        {| us_email := Some email; us_state := user_state_to_string UsActive;
           us_bns_name := Some username; us_public_key := rk_public_key req;
           us_activation_code := Some (rk_active_code req); us_owner_key_ref := None;
           us_zone_config := rk_zone_config req; us_self_cert := 0;
           us_user_domain := canonical_domain; us_sn_ips := rk_sn_ips req;
           us_created_at := now; us_updated_at := now; us_last_login_at := None |} ;!
      insert_user_auth_tx username (rk_password_hash req) (rk_password_salt req) (rk_password_algo req) now ;!
      insert_zone_info username
        {| zr_bns_name := username;
           zr_zone := if is_empty (trim (rk_zone_config req)) then None else Some (rk_zone_config req);
           zr_relay_sn := None; zr_self_cert := 0; zr_cert_checked_at := None;
           zr_cert_expires_at := None; zr_sn_ips := rk_sn_ips req; zr_source_version := None;
           zr_updated_at := now |} ;!
      match canonical_domain with
      | Some domain =>
          let! pkx := tlift (pkx_value (rk_public_key req)) in
          activate_binding_tx username domain pkx now
      | None => tret tt
      end ;!
      tput (use_code (rk_active_code req)) ;!
      tret true.

Definition set_state_of_user (state : UserState) (now : Z) (u : UserRow) : UserRow :=
  mkUserRow (us_email u) (user_state_to_string state) (us_bns_name u) (us_public_key u)
    (us_activation_code u) (us_owner_key_ref u) (us_zone_config u) (us_self_cert u) (us_user_domain u)
    (us_sn_ips u) (us_created_at u) now (us_last_login_at u).

Definition set_user_state_tx (username : string) (state : UserState) (now : Z) : Tx AuthTables unit :=
  tput (map_user username (set_state_of_user state now)) ;!
  if bool_decide (state = UsDeleted)
  then in_dns (delete_user_dns_names_tx username None now) ;! tret tt
  else tret tt.

(** The key whose [x] proves the domain: the reference before the public key. *)
Definition owner_key_material (u : UserRow) : string :=
  match us_owner_key_ref u with
  | Some k => if is_empty (trim k) then us_public_key u else k
  | None => us_public_key u
  end.

Definition update_user_domain_tx (username : string) (user_domain : option string) (now : Z) :
    Tx AuthTables unit :=
  match user_domain ≫= canonical_user_domain with
  | Some domain =>
      let! user := tget (fun t => a_users t !! username) in
      let! user := tlift (some_or user (sn_err EcUserNotFound "user not found")) in
      let source := owner_key_material user in
      let! pkx := tlift (if is_empty (trim source) then SOk "" else pkx_value source) in
      activate_binding_tx username domain pkx now
  | None =>
      tput (revoke_bindings (fun b => String.eqb (bi_owner b) username) now) ;!
      tput (map_user username (set_user_domain None now))
  end.

Definition set_last_login (at_ : Z) (u : UserRow) : UserRow :=
  mkUserRow (us_email u) (us_state u) (us_bns_name u) (us_public_key u) (us_activation_code u)
    (us_owner_key_ref u) (us_zone_config u) (us_self_cert u) (us_user_domain u) (us_sn_ips u)
    (us_created_at u) at_ (Some at_).

Definition update_last_login_tx (username : string) (at_ : Z) : Tx AuthTables unit :=
  tput (on_auth (alter (fun r =>
    mkAuthRow (au_password_hash r) (au_password_salt r) (au_password_algo r) (au_created_at r) at_ (Some at_))
    username)) ;!
  tput (map_user username (set_last_login at_)).

Definition activate_user_domain_binding_tx (username canonical_domain pkx : string) (now : Z) :
    Tx AuthTables unit :=
  let! user := tget (fun t => a_users t !! username) in
  let! user := tlift (some_or user (sn_err EcUserNotFound "user not found")) in
  tlift (refuse_if (negb (user_state_is_active (user_state_from_str (Some (us_state user)))))
    (sn_err EcBlocked "user is not active")) ;!
  activate_binding_tx username canonical_domain pkx now.

Definition unbind_user_domain_tx (username canonical_domain : string) (now : Z) : Tx AuthTables unit :=
  tput (revoke_bindings (fun b =>
    String.eqb (bi_domain b) canonical_domain && String.eqb (bi_owner b) username) now) ;!
  tput (clear_user_domain username canonical_domain now) ;!
  in_dns (delete_user_dns_names_tx username (Some canonical_domain) now) ;!
  tret tt.

(** ** User DNS *)

(** A transaction that changed nothing. *)
Definition unchanged_mutation (rrset : option UserDnsRrset) : Tx DnsTables UserDnsMutationResult :=
  let! revision := current_user_dns_revision_tx in
  tret (mkMutation revision false rrset).

Definition put_user_dns_value_tx (owner name : string) (ty : UserDnsRecordType) (value : string)
    (ttl now : Z) : Tx AuthTables UserDnsMutationResult :=
  in_dns lock_user_dns_state_tx ;!
  let! user := tget (fun t => a_users t !! owner) in
  let! user := tlift (some_or user (sn_err EcUserNotFound "user not found")) in
  tlift (refuse_if (negb (user_state_is_active (user_state_from_str (Some (us_state user)))))
    (sn_err EcBlocked "user is not active")) ;!
  claim_dns_name name owner now ;!
  let! actual_owner := in_dns (user_dns_owner_tx name) in
  let! actual_owner := tlift (some_or actual_owner (db_err "claim user DNS name failed")) in
  tlift (ensure_user_dns_owner actual_owner owner) ;!
  let! current := in_dns (user_dns_rrset_tx name ty) in
  let! value_exists := in_dns (tget (fun d => is_some (d_rdata d !! (name, ty, value)))) in
  let effective_ttl := match current with Some rr => Z.min (rr_ttl rr) ttl | None => ttl end in
  if value_exists && match current with Some rr => rr_ttl rr =? effective_ttl | None => false end then
    in_dns (unchanged_mutation current)
  else
    in_dns (
      let! revision := allocate_user_dns_revision_tx in
      upsert_rrset name ty effective_ttl (u64_as_i64 revision) now ;!
      insert_rdata name ty value now ;!
      tput (touch_dns_name name now) ;!
      append_user_dns_change_tx revision name (Some ty) UpsertRrset now ;!
      let! rrset := user_dns_rrset_tx name ty in
      tret (mkMutation revision true rrset)).

(** What a removal leaves of the RRset and the name, and how the change is told. *)
Definition after_removal (name : string) (ty : UserDnsRecordType) (emptied : bool) (revision now : Z) :
    Tx DnsTables (UserDnsChangeOperation * option UserDnsRecordType) :=
  if emptied then
    let! _ := delete_rrset name ty in
    let! count := tget (rrset_count name) in
    if (count =? 0)%nat then tput (drop_name name) ;! tret (DeleteName, None)
    else tret (DeleteRrset, Some ty)
  else
    tput (update_rrset name ty None (u64_as_i64 revision) now) ;!
    tret (UpsertRrset, Some ty).

Definition remove_user_dns_value_tx (owner name : string) (ty : UserDnsRecordType) (value : string)
    (now : Z) : Tx DnsTables UserDnsMutationResult :=
  lock_user_dns_state_tx ;!
  let! actual_owner := user_dns_owner_tx name in
  match actual_owner with
  | None => unchanged_mutation None
  | Some actual_owner =>
      tlift (ensure_user_dns_owner actual_owner owner) ;!
      let! deleted := delete_rdata name ty value in
      if negb deleted then
        let! rrset := user_dns_rrset_tx name ty in
        unchanged_mutation rrset
      else
        let! revision := allocate_user_dns_revision_tx in
        let! remaining := tget (fun d => length (rdata_of d name ty)) in
        let! (operation, change_type) := after_removal name ty (remaining =? 0)%nat revision now in
        append_user_dns_change_tx revision name change_type operation now ;!
        let! rrset := user_dns_rrset_tx name ty in
        tret (mkMutation revision true rrset)
  end.

Definition delete_user_dns_rrset_tx (owner name : string) (ty : UserDnsRecordType) (now : Z) :
    Tx DnsTables UserDnsMutationResult :=
  lock_user_dns_state_tx ;!
  let! actual_owner := user_dns_owner_tx name in
  match actual_owner with
  | None => unchanged_mutation None
  | Some actual_owner =>
      tlift (ensure_user_dns_owner actual_owner owner) ;!
      let! deleted := delete_rrset name ty in
      if negb deleted then unchanged_mutation None
      else
        let! revision := allocate_user_dns_revision_tx in
        let! remaining := tget (rrset_count name) in
        let! (operation, change_type) :=
          (if (remaining =? 0)%nat then tput (drop_name name) ;! tret (DeleteName, None)
           else tret (DeleteRrset, Some ty)) in
        append_user_dns_change_tx revision name change_type operation now ;!
        tret (mkMutation revision true None)
  end.

Definition set_user_dns_rrset_ttl_tx (owner name : string) (ty : UserDnsRecordType) (ttl now : Z) :
    Tx DnsTables UserDnsMutationResult :=
  lock_user_dns_state_tx ;!
  let! actual_owner := user_dns_owner_tx name in
  let! actual_owner := tlift (some_or actual_owner (sn_err EcNotFound "user DNS name not found")) in
  tlift (ensure_user_dns_owner actual_owner owner) ;!
  let! current := user_dns_rrset_tx name ty in
  let! current := tlift (some_or current (sn_err EcNotFound "user DNS RRset not found")) in
  if rr_ttl current =? ttl then unchanged_mutation (Some current)
  else
    let! revision := allocate_user_dns_revision_tx in
    tput (update_rrset name ty (Some ttl) (u64_as_i64 revision) now) ;!
    append_user_dns_change_tx revision name (Some ty) UpsertRrset now ;!
    let! rrset := user_dns_rrset_tx name ty in
    tret (mkMutation revision true rrset).

(** [DELETE FROM ... WHERE zone IN (SELECT username FROM users WHERE ...)] of the
    three relay tables. *)
Definition delete_relay_zones (zones : list string) (t : Tables) : Tables :=
  on_pending (filter (fun '(z, _) => z ∉ zones))
    (on_assignments (filter (fun '(z, _) => z ∉ zones))
      (on_events (List.filter (fun e => negb (bool_decide (ev_zone e ∈ zones)))) t)).

Definition users_of_code (code : string) (t : AuthTables) : list string :=
  sorted_texts (omap (fun '(u, row) =>
    if bool_decide (us_activation_code row = Some code) then Some u else None) (map_to_list (a_users t))).

Definition clear_state_tx (active_code : string) (now : Z) :
    Tx (AuthTables * Tables) SnClearStateResult := fun '(t, r) =>
  let owners := users_of_code active_code t in
  match in_dns (titer (fun owner => delete_user_dns_names_tx owner None now ;! tret tt) owners) t with
  | SErr e => SErr e
  | SOk (_, t1) =>
      let r1 := delete_relay_zones (users_of_code active_code t1) r in
      let t2 := delete_users_by_code active_code t1 in
      let t3 := on_codes <[active_code := 0]> t2 in
      SOk (mkClearState (Z.of_nat (length owners)) true, (t3, r1))
  end.

(** ** Activation codes *)

Definition ACTIVATION_CODE_LEN : nat := 32.
Definition ACTIVATION_CODE_CHARS : string :=
  "ABCDEFGHIJKLMNOPQRSTUVWXYZabcdefghijklmnopqrstuvwxyz0123456789".

(** The code a draw of [ACTIVATION_CODE_LEN] indices gives. *)
Definition generate_activation_code (draw : list nat) : string :=
  String.string_of_list_ascii (omap (fun i => String.get i ACTIVATION_CODE_CHARS) draw).

(** [INSERT OR IGNORE INTO activation_codes]: whether the row is new. *)
Definition try_insert_code (code : string) : Tx AuthTables bool := fun t =>
  if is_some (a_codes t !! code) then SOk (false, t)
  else SOk (true, on_codes <[code := 0]> t).

(** The loop over the draws of the generator, as far as they go; [None]: the
    loop has not ended, it wants another draw. *)
Fixpoint generate_codes_loop (draws : list (list nat)) (count : nat) (codes : list string) :
    Tx AuthTables (option (list string)) :=
  if (count <=? length codes)%nat then tret (Some codes)
  else match draws with
  | [] => tret None
  | draw :: draws' =>
      let code := generate_activation_code draw in
      let! inserted := try_insert_code code in
      generate_codes_loop draws' count (if inserted : bool then codes ++ [code] else codes)
  end.

(** The transaction around the loop: nothing is committed before the loop ends. *)
Definition generate_codes_tx (draws : list (list nat)) (count : nat) : Tx AuthTables (option (list string)) := fun t =>
  match generate_codes_loop draws count [] t with
  | SOk (None, _) => SOk (None, t)
  | r => r
  end.

Definition unused_codes `{RowOrder} (t : AuthTables) : list string :=
  omap (fun '(code, used) => if used =? 0 then Some code else None) (scan (map_to_list (a_codes t))).

Definition insert_activation_code_tx (code : string) : Tx AuthTables unit := fun t =>
  if is_some (a_codes t !! code) then SErr (db_err "insert activation_codes failed")
  else SOk (tt, on_codes <[code := 0]> t).

(** ** Zones and sessions *)

(** The upsert of [zone_info] and the copy in [users]. *)
Definition write_zone_info_tx (username : string) (z : ZoneInfo) : Tx AuthTables unit := fun t =>
  match a_users t !! username with
  | None => SErr (db_err "upsert zone_info failed")
  | Some _ =>
      let row :=
        {| zr_bns_name := zi_bns_name z; zr_zone := zi_zone z; zr_relay_sn := zi_relay_sn z;
           zr_self_cert := sql_bool (zi_self_cert z);
           zr_cert_checked_at := u64_as_i64 <$> zi_cert_checked_at z;
           zr_cert_expires_at := u64_as_i64 <$> zi_cert_expires_at z;
           zr_sn_ips := zi_sn_ips z; zr_source_version := zi_source_version z;
           zr_updated_at := u64_as_i64 (zi_updated_at z) |} in
      SOk (tt, map_user username (fun u =>
        mkUserRow (us_email u) (us_state u) (us_bns_name u) (us_public_key u) (us_activation_code u)
          (us_owner_key_ref u) (default (us_zone_config u) (zi_zone z)) (sql_bool (zi_self_cert z))
          (us_user_domain u) (zi_sn_ips z) (us_created_at u) (u64_as_i64 (zi_updated_at z))
          (us_last_login_at u)) (on_zones <[username := row]> t))
  end.

Definition SESSION_ACTIVE : string := "active".
Definition SESSION_REVOKED : string := "revoked".

Definition create_account_session_tx (session_id username token_aud : string) (issued_at expires_at : Z) :
    Tx AuthTables unit := fun t =>
  if is_some (a_sessions t !! session_id) || negb (is_some (a_users t !! username))
  then SErr (db_err "insert account session failed")
  else SOk (tt, on_sessions <[session_id := mkSessionRow username token_aud SESSION_ACTIVE
                                (u64_as_i64 issued_at) (u64_as_i64 expires_at) None]> t).

Definition revoke_session (revoked_at : Z) (s : SessionRow) : SessionRow :=
  mkSessionRow (ss_username s) (ss_token_aud s) SESSION_REVOKED (ss_issued_at s) (ss_expires_at s)
    (Some (u64_as_i64 revoked_at)).

Definition live_session_of (username : string) (s : SessionRow) : bool :=
  String.eqb (ss_username s) username && negb (String.eqb (ss_state s) SESSION_REVOKED).

Definition revoke_user_sessions_tx (username : string) (revoked_at : Z) : Tx AuthTables Z := fun t =>
  SOk (Z.of_nat (size (filter (fun '(_, s) => live_session_of username s = true) (a_sessions t))),
       on_sessions (fmap (fun s => if live_session_of username s then revoke_session revoked_at s else s)) t).

(** ** Queries *)

Definition users_without_auth (t : AuthTables) : list string :=
  sorted_texts (omap (fun '(u, _) => if is_some (a_auth t !! u) then None else Some u)
    (map_to_list (a_users t))).

Definition assert_no_passwordless_users (t : AuthTables) : SnResult unit :=
  refuse_if (match users_without_auth t with [] => false | _ => true end)
    (db_err "AuthDB invariant violated: users without user_auth, recreate database").

(** The active binding that covers a domain, the longest domain first. *)
Definition covering_bindings `{RowOrder} (domain : string) (t : AuthTables) : list (BindingRow * UserRow) :=
  stable_sort (fun x y => (sql_length (bi_domain y.1) <=? sql_length (bi_domain x.1))%nat)
    (scan (omap (fun '(_, b) =>
      match a_users t !! bi_owner b with
      | Some u =>
          if is_active_binding b && String.eqb (us_state u) "active" && under_domain domain (bi_domain b)
          then Some (b, u) else None
      | None => None
      end) (map_to_list (a_bindings t)))).

(** The user of a domain, with the domain of the binding. *)
Definition user_of_domain `{RowOrder} (domain : string) (t : AuthTables) : option SNUserInfo :=
  (fun '(b, u) => user_from_row (bi_owner b) (set_user_domain (Some (bi_domain b)) (us_updated_at u) u))
    <$> head (covering_bindings domain t).

Definition user_of_email `{RowOrder} (email : string) (t : AuthTables) : option SNUserInfo :=
  (fun '(n, u) => user_from_row n u)
    <$> head (List.filter (fun '(_, u) => bool_decide (us_email u = Some email))
                (scan (map_to_list (a_users t)))).

Definition user_of_public_key `{RowOrder} (public_key : string) (t : AuthTables) :
    option (string * string * option string) :=
  (fun '(n, u) => (n, us_zone_config u, us_sn_ips u))
    <$> head (List.filter (fun '(_, u) => String.eqb (us_public_key u) public_key)
                (scan (map_to_list (a_users t)))).

(** The rows of [list_user_dns_rrsets], in the order of the statement. *)
Definition rrset_rows (owner : string) (d : DnsTables) : list (string * UserDnsRecordType * RrsetRow * string) :=
  let names := owned_names d owner None in
  names ≫= fun n => variants ≫= fun ty =>
    match d_rrsets d !! (n, ty) with
    | Some row => (fun v => (n, ty, row, v)) <$> rdata_of d n ty
    | None => []
    end.

(** The loop of [list_user_dns_rrsets]: consecutive rows of an RRset are one. *)
Fixpoint group_rrsets (rows : list (string * UserDnsRecordType * RrsetRow * string))
    (rrsets : list UserDnsRrset) : SnResult (list UserDnsRrset) :=
  match rows with
  | [] => SOk (rev rrsets)
  | (name, ty_raw, row, value) :: rows' =>
      let? ty := record_type_from_str (as_str ty_raw) in
      let fresh := mkRrset name ty (Z.max 0 (rw_ttl row) mod 2 ^ 32) [value] (i64_to_u64 (rw_revision row)) in
      match rrsets with
      | last :: before =>
          if String.eqb (rr_name last) name && bool_decide (rr_record_type last = ty)
          then group_rrsets rows' (mkRrset (rr_name last) (rr_record_type last) (rr_ttl last)
                                     (rr_values last ++ [value]) (rr_revision last) :: before)
          else group_rrsets rows' (fresh :: rrsets)
      | [] => group_rrsets rows' [fresh]
      end
  end.

(** The rows of [user_dns_changes] after a revision, in order. *)
Definition change_rows (after : Z) (limit : nat) (d : DnsTables) : list (Z * ChangeRow) :=
  take limit (sort_by_key fst (List.filter (fun '(r, _) => after <? r) (map_to_list (d_changes d)))).

(** [SELECT MIN(revision) FROM user_dns_changes]. *)
Definition earliest_change (d : DnsTables) : option Z :=
  fst <$> head (sort_by_key fst (map_to_list (d_changes d))).

Definition change_page (current : Z) (earliest : option Z) (rows : list (Z * ChangeRow)) :
    SnResult UserDnsChangePage :=
  let? changes := mapS (fun '(r, row) => change_from_row r row) rows in
  let current := i64_to_u64 current in
  SOk (mkPage changes current
    (match earliest with Some e => i64_to_u64 e | None => u64_saturating_add current 1 end)).
End transactions.

(** ** Opening the database *)

(** A database file: without the version table, or with it. *)
Inductive AuthFile : Type :=
| UnversionedFile (tables : list string)
| VersionedFile (version : option Z) (t : AuthTables).

Definition incompatible_tables : list string :=
  ["activation_codes"; "users"; "user_auth"; "user_domain_history"; "user_domain_bindings"; "zone_info";
   "account_sessions"; "devices"; "did_documents"; "user_dns_records"].

Definition initialize_auth_database (file : AuthFile) : SnResult AuthTables :=
  let? t :=
    match file with
    | UnversionedFile tables =>
        if existsb (fun n => bool_decide (n ∈ incompatible_tables)) tables
        then SErr (db_err "incompatible schema, recreate database") else SOk fresh_auth_tables
    | VersionedFile None _ => SErr (db_err "incompatible schema, recreate database")
    | VersionedFile (Some v) t =>
        if v =? SN_AUTH_DB_SCHEMA_VERSION then SOk t
        else SErr (db_err "incompatible schema, recreate database")
    end in
  let? _ := assert_no_passwordless_users t in
  SOk t.
