(* ===== verification/AuthDb.v ===== *)
(** * Service node: the requests of the account database

    The operations of [SqliteSnAuthDB] ([cyfs-sn/src/sn_auth.rs]) as tasks: the
    checks before a transaction, the locks, the clock, the transactions of
    [Auth] and the calls of the relay manager, in the order of the code. *)

From S2P Require Import Prelude IpAddr Tasks RelayModel RelayStore Relay AuthModel AuthStore Auth.

(** ** The world *)

Section world.
Context `{NamedLocker, DeviceInfoDB}.

Record SnWorld : Type := mkSnWorld {
  sw_auth : AuthTables;
  sw_relay : World
}.

Definition AT (A : Type) : Type := Task SnWorld (SnResult A).

Definition aret {A} (a : A) : AT A := Ret (SOk a).
Definition alift {A} (r : SnResult A) : AT A := Ret r.

(** The [?] operator. *)
Definition abind {A B} (m : AT A) (k : A -> AT B) : AT B :=
  tbind m (fun r => match r with SOk a => k a | SErr e => Ret (SErr e) end).

(** A task of the relay manager. *)
Fixpoint on_relay {A} (t : Task World A) : Task SnWorld A :=
  match t with
  | Ret a => Ret a
  | Act act k => Act (fun w =>
      match act (sw_relay w) with
      | Some (x, r) => Some (x, mkSnWorld (sw_auth w) r)
      | None => None
      end) (fun x => on_relay (k x))
  end.

(** A [SELECT] outside a transaction. *)
Definition select {A} (f : AuthTables -> A) : AT A := atomic (fun w => (SOk (f (sw_auth w)), w)).

(** A transaction, or a writing statement outside one. *)
Definition transact {A} (f : Tx AuthTables A) : AT A := atomic (fun w =>
  match f (sw_auth w) with
  | SOk (a, t) => (SOk a, mkSnWorld t (sw_relay w))
  | SErr e => (SErr e, w)
  end).

Section clock.
Context `{Clock}.

(** [now_secs() as i64]. *)
Definition now_of (r : World) : Z := u64_as_i64 (clock_at (w_ticks r)).
Definition tick (r : World) : World :=
  mkWorld (w_db r) (w_metrics r) (S (w_ticks r)) (w_locks r) (w_devices r).

Definition auth_now : AT Z := atomic (fun w => (SOk (now_of (sw_relay w)), mkSnWorld (sw_auth w) (tick (sw_relay w)))).

(** A transaction that reads the clock. *)
Definition transact_now {A} (f : Z -> Tx AuthTables A) : AT A := atomic (fun w =>
  match f (now_of (sw_relay w)) (sw_auth w) with
  | SOk (a, t) => (SOk a, mkSnWorld t (tick (sw_relay w)))
  | SErr e => (SErr e, mkSnWorld (sw_auth w) (tick (sw_relay w)))
  end).

(** A transaction that reads the clock and writes the relay tables as well. *)
Definition transact_both {A} (f : Z -> Tx (AuthTables * Tables) A) : AT A := atomic (fun w =>
  match f (now_of (sw_relay w)) (sw_auth w, w_db (sw_relay w)) with
  | SOk (a, (t, r)) => (SOk a, mkSnWorld t (set_db (fun _ => r) (tick (sw_relay w))))
  | SErr e => (SErr e, mkSnWorld (sw_auth w) (tick (sw_relay w)))
  end).

(** A transaction whose statements are tasks: an error, or a result that is not
    to be committed, undoes what they did to the tables. *)
Definition auth_transaction {A} (commit : A -> bool) (t : AT A) : AT A := Act (fun w =>
  let undo w' := mkSnWorld (sw_auth w) (set_db (fun _ => w_db (sw_relay w)) (sw_relay w')) in
  match run t w with
  | Some (SOk a, w') => Some (SOk a, if commit a then w' else undo w')
  | Some (SErr e, w') => Some (SErr e, undo w')
  | None => None
  end) Ret.
End clock.

(** A task that holds a named lock; the guard is dropped on every path. *)
Definition with_locker {A} (name : string) (t : AT A) : AT A :=
  abind (on_relay (get_locker name)) (fun _ =>
    tbind t (fun r => abind (on_relay (drop_locker name)) (fun _ => Ret r))).
End world.

Arguments abind : simpl never.
Arguments auth_transaction : simpl never.

Notation "'let@' x ':=' m 'in' k" := (abind m (fun x => k))
  (at level 10, x pattern, m at level 100, k at level 200) : sn_scope.
Notation "m1 ;@ m2" := (abind m1 (fun _ => m2))
  (at level 100, m2 at level 200, right associativity) : sn_scope.

(** ** Operations *)

Definition active_code_lock (code : string) : string := "active_code_" +:+ code.
Definition email_lock (email : string) : string := "sn_email_" +:+ email.
Definition USER_DOMAIN_BINDING_LOCK : string := "sn_user_domain_binding".

Section auth.
Context `{NamedLocker, DeviceInfoDB, Clock, JsonStrings, SqlNumbers, CharTables}.
Context `{JsonKeys, RowOrder, SqlxNull}.
Context (self : RelayManager).

(** *** Activation codes *)

Definition capabilities : AT SnAuthDbCapabilities :=
  let@ version := select a_schema_version in
  aret (mkCapabilities SN_AUTH_DB_CONTRACT_VERSION (i64_to_u64 version mod 2 ^ 32) true true).

Definition has_activation_code (code : string) : AT bool :=
  select (fun t => is_some (a_codes t !! code)).

Definition get_activation_codes : AT (list string) :=
  select unused_codes.

Definition insert_activation_code (code : string) : AT unit := transact (insert_activation_code_tx code).

(** [draws]: the draws of the generator until the request is answered, or, with
    the reply [None], some draws after which it is still waiting for more. *)
Definition generate_activation_codes (draws : list (list nat)) (count : nat) : AT (option (list string)) :=
  transact (generate_codes_tx draws count).

Definition check_active_code (code : string) : AT bool :=
  select (fun t => bool_decide (a_codes t !! code = Some 0)).

Definition clear_state_by_active_code (code : string) : AT SnClearStateResult :=
  transact_both (clear_state_tx code).

(** *** Registration *)

Definition register_user (active_code username email hash salt algo : string) : AT bool :=
  let@ email := alift (canonical_email email) in
  with_locker (active_code_lock active_code) (with_locker (email_lock email) (
    transact_now (register_user_tx active_code username email hash salt algo))).

Definition registration_alloc_req (req : RegisterUserWithRelayAllocationReq) : AllocateZoneRelayReq :=
  {| al_zone := rq_username req; al_preferred_region := rq_preferred_region req;
     al_source_ip := rq_source_ip req; al_reason := "register"; al_source_version := rq_source_version req |}.

(** The write transaction of a registration: the account and the relay of its
    zone. *)
Definition register_with_relay_tx (req : RegisterUserWithRelayAllocationReq) (email : string)
    (plan : SnResult RelaySelection) : AT (option (SnResult RelayAssignment)) :=
  let@ registered := transact_now (register_user_tx (rq_active_code req) (rq_username req) email
                       (rq_password_hash req) (rq_password_salt req) (rq_password_algo req)) in
  if negb registered then aret None
  else
    let@ relay := on_relay (commit_registration_allocation (registration_alloc_req req) plan) in
    aret (Some relay).

Definition register_user_with_relay_allocation (req : RegisterUserWithRelayAllocationReq) :
    AT RegisterUserWithRelayAllocationResult :=
  let@ email := alift (canonical_email (rq_email req)) in
  with_locker (active_code_lock (rq_active_code req)) (with_locker (email_lock email) (
    with_locker (zone_lock (rq_username req)) (
      tbind (on_relay (plan_registration_allocation self (registration_alloc_req req))) (fun plan =>
        let@ relay := auth_transaction is_some (register_with_relay_tx req email plan) in
        match relay with
        | None => aret (mkRegisterRelayResult false None)
        | Some (SOk assignment) => aret (mkRegisterRelayResult true (Some (RelayAssigned assignment)))
        | Some (SErr error) =>
            aret (mkRegisterRelayResult true (Some (RelayPending (se_code error) (se_msg error))))
        end)))).

(** The default of the trait: the account first, then an allocation of its own. *)
Definition register_then_allocate (req : RegisterUserWithRelayAllocationReq) :
    AT RegisterUserWithRelayAllocationResult :=
  let@ registered := register_user (rq_active_code req) (rq_username req) (rq_email req)
                       (rq_password_hash req) (rq_password_salt req) (rq_password_algo req) in
  if negb registered then aret (mkRegisterRelayResult false None)
  else
    tbind (on_relay (allocate_zone_relay self (registration_alloc_req req))) (fun r =>
      aret (mkRegisterRelayResult true (Some
        match r with
        | SOk assignment => RelayAssigned assignment
        | SErr error => RelayPending (se_code error) (se_msg error)
        end))).

Definition is_user_exist (username : string) : AT bool := select (fun t => is_some (a_users t !! username)).

Definition register_user_with_owner_key (req : RegisterUserWithOwnerKeyReq) : AT bool :=
  let@ email := alift (canonical_email (rk_email req)) in
  let body : AT bool :=
    alift (refuse_if (is_empty (trim (rk_password_hash req)) || is_empty (trim (rk_password_salt req))
                      || is_empty (trim (rk_password_algo req)))
      (invalid_input "owner-key registration requires complete password credentials")) ;@
    transact_now (register_user_with_owner_key_tx req email) in
  with_locker (active_code_lock (rk_active_code req)) (with_locker (email_lock email) (
    if is_some (rk_user_domain req) then with_locker USER_DOMAIN_BINDING_LOCK body else body)).

(** *** Users *)

Definition relay_projection (zone : string) : AT (option UserRelayInfo) :=
  let@ assignment := on_relay (get_zone_relay zone) in
  aret (user_relay_of <$> assignment).

Definition project_user_relay (user : SNUserInfo) : AT SNUserInfo :=
  match ui_username user with
  | Some username =>
      let@ relay := relay_projection username in
      aret (mkUserInfo (ui_username user) (ui_email user) (ui_state user) (ui_public_key user)
              (ui_activation_code user) (ui_zone_config user) (ui_self_cert user) (ui_user_domain user)
              (ui_sn_ips user) (ui_updated_at user) relay)
  | None => aret user
  end.

Definition project_optional (user : option SNUserInfo) : AT (option SNUserInfo) :=
  match user with
  | Some user => let@ user := project_user_relay user in aret (Some user)
  | None => aret None
  end.

Definition get_user_by_email (email : string) : AT (option SNUserInfo) :=
  let@ email := alift (canonical_email email) in
  let@ user := select (user_of_email email) in
  project_optional user.

Definition get_user_by_public_key (public_key : string) : AT (option (string * string * option string)) :=
  select (user_of_public_key public_key).

Definition get_user_info (username : string) : AT (option SNUserInfo) :=
  let@ user := select (fun t => user_from_row username <$> a_users t !! username : option SNUserInfo) in
  project_optional user.

Definition get_user_by_domain (domain : string) : AT (option SNUserInfo) :=
  match canonical_user_domain domain with
  | Some canonical_domain =>
      let@ user := select (user_of_domain canonical_domain) in
      project_optional user
  | None => aret None
  end.

Definition revoke_user_sessions (username : string) (revoked_at : Z) : AT Z :=
  transact (revoke_user_sessions_tx username revoked_at).

Definition set_user_state (username : string) (state : UserState) : AT unit :=
  let@ now := auth_now in
  transact (set_user_state_tx username state now) ;@
  if negb (user_state_is_active state) then
    let@ _ := revoke_user_sessions username (now mod 2 ^ 64) in aret tt
  else aret tt.

Definition update_user_public_key (username public_key : string) : AT unit :=
  let@ now := auth_now in
  transact (tput (map_user username (fun u =>
    mkUserRow (us_email u) (us_state u) (us_bns_name u) public_key (us_activation_code u)
      (us_owner_key_ref u) (us_zone_config u) (us_self_cert u) (us_user_domain u) (us_sn_ips u)
      (us_created_at u) now (us_last_login_at u)))).

Definition get_zone_info (username : string) : AT (option ZoneInfo) :=
  let@ row := select (fun t => a_zones t !! username) in
  let info := match row with
              | Some row => zone_info_from_row username row
              | None => zone_info_default_for username end in
  let@ relay := relay_projection username in
  aret (Some (mkZoneInfo (zi_username info) (zi_bns_name info) (zi_zone info) (ur_relay_sn <$> relay)
    (zi_self_cert info) (zi_cert_checked_at info) (zi_cert_expires_at info) (zi_sn_ips info)
    (zi_source_version info) (zi_updated_at info) relay)).

Definition update_zone_info (username : string) (patch : ZoneInfoPatch) : AT unit :=
  alift (refuse_if (is_some (zp_relay_sn patch))
    (invalid_input "relay_sn is read-only; use relay allocation or migration APIs")) ;@
  let@ current := get_zone_info username in
  let current := default (zone_info_default_for username) current in
  let@ now := on_relay now_secs in
  transact (write_zone_info_tx username (patch_zone_info patch now current)).

Definition update_zone_relay_sn : AT bool :=
  alift (SErr (invalid_input "relay_sn is read-only; use relay allocation or migration APIs")).

Definition update_user_zone_config (username zone_config : string) : AT unit :=
  update_zone_info username (mkZonePatch None (Some zone_config) None None None None None None).

Definition update_user_self_cert (username : string) (self_cert : bool) : AT unit :=
  update_zone_info username (mkZonePatch None None None (Some self_cert) None None None None).

Definition update_user_domain (username : string) (user_domain : option string) : AT unit :=
  with_locker USER_DOMAIN_BINDING_LOCK (transact_now (update_user_domain_tx username user_domain)).

Definition get_user_sn_ips (username : string) : AT (option string) :=
  let@ zone_info := get_zone_info username in
  match zone_info ≫= zi_sn_ips with
  | Some ips => aret (Some ips)
  | None =>
      let@ row := select (fun t => a_users t !! username) in
      match row with
      | None => aret None
      | Some u =>
          let@ ips := alift (some_or (opt_or (us_sn_ips u) null_text) (db_err "read sn_ips failed")) in
          aret (Some ips)
      end
  end.

Definition get_user_sn_ips_as_vec (username : string) : AT (option (list string)) :=
  let@ sn_ips := get_user_sn_ips username in
  match sn_ips with
  | None => aret None
  | Some sn_ips =>
      if is_empty (trim sn_ips) then aret (Some [])
      else match json_to_strings sn_ips with
      | Some ips => aret (Some ips)
      | None => aret (Some (List.filter (fun ip => negb (is_empty ip)) (trim <$> split_on "," sn_ips)))
      end
  end.

Definition get_auth (username : string) : AT (option SnAuthInfo) :=
  select (fun t => auth_from_row username <$> a_auth t !! username : option SnAuthInfo).

Definition update_last_login (username : string) (last_login_at : Z) : AT unit :=
  transact (update_last_login_tx username (u64_as_i64 last_login_at)).

(** *** Domains *)

Definition activate_user_domain_binding (username domain pkx : string) : AT DomainBinding :=
  let@ canonical_domain := alift (some_or (canonical_user_domain domain) (invalid_input "domain is empty")) in
  let pkx := trim pkx in
  alift (check_non_empty pkx "pkx") ;@
  with_locker USER_DOMAIN_BINDING_LOCK (
    let@ now := transact_now (fun now =>
      activate_user_domain_binding_tx username canonical_domain pkx now ;! tret now) in
    aret (mkBinding username canonical_domain pkx (pkx_record_name canonical_domain) (now mod 2 ^ 64))).

Definition unbind_user_domain (username domain : string) : AT unit :=
  let@ canonical_domain := alift (some_or (canonical_user_domain domain) (invalid_input "domain is empty")) in
  with_locker USER_DOMAIN_BINDING_LOCK (transact_now (unbind_user_domain_tx username canonical_domain)).

(** *** User DNS *)

Definition put_user_dns_value (owner name : string) (ty : UserDnsRecordType) (value : string) (ttl : Z) :
    AT UserDnsMutationResult :=
  let owner := trim owner in
  alift (check_non_empty owner "owner") ;@
  let@ name := alift (canonical_user_dns_name name) in
  let@ value := alift (canonical_user_dns_rdata ty value) in
  let@ ttl := alift (validate_user_dns_ttl ttl) in
  let@ now := auth_now in
  transact (put_user_dns_value_tx owner name ty value ttl now).

Definition remove_user_dns_value (owner name : string) (ty : UserDnsRecordType) (value : string) :
    AT UserDnsMutationResult :=
  let owner := trim owner in
  alift (check_non_empty owner "owner") ;@
  let@ name := alift (canonical_user_dns_name name) in
  let@ value := alift (canonical_user_dns_rdata ty value) in
  let@ now := auth_now in
  transact (in_dns (remove_user_dns_value_tx owner name ty value now)).

Definition delete_user_dns_rrset (owner name : string) (ty : UserDnsRecordType) : AT UserDnsMutationResult :=
  let owner := trim owner in
  alift (check_non_empty owner "owner") ;@
  let@ name := alift (canonical_user_dns_name name) in
  let@ now := auth_now in
  transact (in_dns (delete_user_dns_rrset_tx owner name ty now)).

Definition set_user_dns_rrset_ttl (owner name : string) (ty : UserDnsRecordType) (ttl : Z) :
    AT UserDnsMutationResult :=
  let owner := trim owner in
  alift (check_non_empty owner "owner") ;@
  let@ name := alift (canonical_user_dns_name name) in
  let@ ttl := alift (validate_user_dns_ttl ttl) in
  let@ now := auth_now in
  transact (in_dns (set_user_dns_rrset_ttl_tx owner name ty ttl now)).

Definition get_user_dns_rrset (name : string) (ty : UserDnsRecordType) : AT UserDnsLookup :=
  let@ name := alift (canonical_user_dns_name name) in
  select (fun t => mkLookup (user_dns_rrset (a_dns t) name ty) (i64_to_u64 (d_revision (a_dns t)))).

Definition list_user_dns_rrsets (owner : string) : AT (list UserDnsRrset) :=
  let@ rows := select (fun t => rrset_rows (trim owner) (a_dns t)) in
  alift (group_rrsets rows []).

(** Three statements outside a transaction. *)
Definition list_user_dns_changes (after_revision : Z) (limit : Z) : AT UserDnsChangePage :=
  alift (refuse_if (negb ((1 <=? limit) && (limit <=? 1000)))
    (invalid_input "user DNS change page limit must be in 1..=1000")) ;@
  let@ current := select (fun t => d_revision (a_dns t)) in
  let@ earliest := select (fun t => earliest_change (a_dns t)) in
  let@ rows := select (fun t => change_rows (u64_as_i64 after_revision) (Z.to_nat limit) (a_dns t)) in
  alift (change_page current earliest rows).

(** *** Sessions *)

Definition create_account_session (session_id username token_aud : string) (issued_at expires_at : Z) :
    AT unit :=
  transact (create_account_session_tx session_id username token_aud issued_at expires_at).

Definition revoke_account_session (session_id : string) (revoked_at : Z) : AT unit :=
  transact (tput (on_sessions (alter (revoke_session revoked_at) session_id))).

Definition get_account_session (session_id : string) : AT (option AccountSession) :=
  select (fun t => session_from_row session_id <$> a_sessions t !! session_id : option AccountSession).

(** ** Requests *)

Inductive AuthCall : Type :=
| AcInsertCode (code : string)
| AcGenerateCodes (draws : list (list nat)) (count : nat)
| AcClearState (code : string)
| AcRegister (code username email hash salt algo : string)
| AcRegisterRelay (req : RegisterUserWithRelayAllocationReq)
| AcRegisterKey (req : RegisterUserWithOwnerKeyReq)
| AcSetState (username : string) (state : UserState)
| AcSetPublicKey (username public_key : string)
| AcUpdateZone (username : string) (patch : ZoneInfoPatch)
| AcSetDomain (username : string) (domain : option string)
| AcLogin (username : string) (at_ : Z)
| AcActivate (username domain pkx : string)
| AcUnbind (username domain : string)
| AcDnsPut (owner name : string) (ty : UserDnsRecordType) (value : string) (ttl : Z)
| AcDnsRemove (owner name : string) (ty : UserDnsRecordType) (value : string)
| AcDnsDelete (owner name : string) (ty : UserDnsRecordType)
| AcDnsTtl (owner name : string) (ty : UserDnsRecordType) (ttl : Z)
| AcDnsGet (name : string) (ty : UserDnsRecordType)
| AcDnsChanges (after limit : Z)
| AcGetUser (username : string)
| AcGetByDomain (domain : string)
| AcCreateSession (session_id username token_aud : string) (issued_at expires_at : Z)
| AcRevokeSession (session_id : string) (revoked_at : Z)
| AcRevokeSessions (username : string) (revoked_at : Z)
| AcRelay (c : RelayCall).

Inductive AuthReply : Type :=
| ArUnit (r : SnResult unit)
| ArCodes (r : SnResult (option (list string)))
| ArClear (r : SnResult SnClearStateResult)
| ArBool (r : SnResult bool)
| ArRegister (r : SnResult RegisterUserWithRelayAllocationResult)
| ArBinding (r : SnResult DomainBinding)
| ArMutation (r : SnResult UserDnsMutationResult)
| ArLookup (r : SnResult UserDnsLookup)
| ArPage (r : SnResult UserDnsChangePage)
| ArUser (r : SnResult (option SNUserInfo))
| ArCount (r : SnResult Z)
| ArRelay (r : RelayReply).

Definition auth_task (c : AuthCall) : Task SnWorld AuthReply :=
  let reply {A} (f : SnResult A -> AuthReply) (t : AT A) := tbind t (fun r => Ret (f r)) in
  match c with
  | AcInsertCode code => reply ArUnit (insert_activation_code code)
  | AcGenerateCodes draws count => reply ArCodes (generate_activation_codes draws count)
  | AcClearState code => reply ArClear (clear_state_by_active_code code)
  | AcRegister code username email hash salt algo =>
      reply ArBool (register_user code username email hash salt algo)
  | AcRegisterRelay req => reply ArRegister (register_user_with_relay_allocation req)
  | AcRegisterKey req => reply ArBool (register_user_with_owner_key req)
  | AcSetState username state => reply ArUnit (set_user_state username state)
  | AcSetPublicKey username key => reply ArUnit (update_user_public_key username key)
  | AcUpdateZone username patch => reply ArUnit (update_zone_info username patch)
  | AcSetDomain username domain => reply ArUnit (update_user_domain username domain)
  | AcLogin username at_ => reply ArUnit (update_last_login username at_)
  | AcActivate username domain pkx => reply ArBinding (activate_user_domain_binding username domain pkx)
  | AcUnbind username domain => reply ArUnit (unbind_user_domain username domain)
  | AcDnsPut owner name ty value ttl => reply ArMutation (put_user_dns_value owner name ty value ttl)
  | AcDnsRemove owner name ty value => reply ArMutation (remove_user_dns_value owner name ty value)
  | AcDnsDelete owner name ty => reply ArMutation (delete_user_dns_rrset owner name ty)
  | AcDnsTtl owner name ty ttl => reply ArMutation (set_user_dns_rrset_ttl owner name ty ttl)
  | AcDnsGet name ty => reply ArLookup (get_user_dns_rrset name ty)
  | AcDnsChanges after limit => reply ArPage (list_user_dns_changes after limit)
  | AcGetUser username => reply ArUser (get_user_info username)
  | AcGetByDomain domain => reply ArUser (get_user_by_domain domain)
  | AcCreateSession id username aud issued expires =>
      reply ArUnit (create_account_session id username aud issued expires)
  | AcRevokeSession id at_ => reply ArUnit (revoke_account_session id at_)
  | AcRevokeSessions username at_ => reply ArCount (revoke_user_sessions username at_)
  | AcRelay c => tbind (on_relay (relay_task self c)) (fun r => Ret (ArRelay r))
  end.
End auth.
