(* ===== verification/AuthDns.v ===== *)
(** * Account database: user DNS

    The invariant of the DNS tables, and the change feed: every change of an
    RRset has a row with a later revision, until the rows of that age are pruned.
    A transaction that changes the RRsets of one name is a [mutated] step; what
    holds of those steps holds of every DNS transaction.  The pages of the feed
    have consecutive revisions. *)

From S2P Require Import Prelude RelayModel RelayStore Relay RelaySafe AuthModel AuthStore Auth.

(** ** Reading *)

Lemma elem_of_sorted_texts v l : v ∈ sorted_texts l <-> v ∈ l.
Proof. unfold sorted_texts. by rewrite stable_sort_Permutation. Qed.

Lemma elem_of_rdata_of d n ty v : v ∈ rdata_of d n ty <-> is_Some (d_rdata d !! (n, ty, v)).
Proof.
  unfold rdata_of. rewrite elem_of_sorted_texts, list_elem_of_omap. split.
  - intros ([[[n' ty'] v'] z] & Hin & He). apply elem_of_map_to_list in Hin.
    do 2 case_bool_decide; simplify_eq/=; eauto.
  - intros [z Hz]. exists (n, ty, v, z). rewrite elem_of_map_to_list. split; [done|].
    by rewrite !bool_decide_true.
Qed.

Lemma rdata_of_NoDup d n ty : NoDup (rdata_of d n ty).
Proof.
  unfold rdata_of, sorted_texts. rewrite stable_sort_Permutation.
  assert (Hkeys : NoDup (map_to_list (d_rdata d)).*1) by apply NoDup_fst_map_to_list.
  induction (map_to_list (d_rdata d)) as [|[[[n' ty'] v'] z] l IH]; [constructor|].
  simpl in *. apply NoDup_cons in Hkeys as [Hnin Hkeys]. specialize (IH Hkeys).
  do 2 case_bool_decide; simpl; try done. subst. apply NoDup_cons. split; [|done].
  rewrite list_elem_of_omap. intros ([[[n2 ty2] v2] z2] & Hin & He).
  do 2 case_bool_decide; simplify_eq/=. apply Hnin. apply list_elem_of_fmap. by exists (n, ty, v', z2).
Qed.

Lemma text_leb_antisym a b : String.leb a b = true -> String.leb b a = true -> a = b.
Proof.
  intros Hab Hba. destruct (decide (a = b)) as [|Hne]; [done|]. exfalso.
  apply (text_lt_irrefl a). apply (text_lt_trans a b a); apply text_leb_lt; congruence.
Qed.

Lemma sorted_texts_sorted l : StronglySorted (fun a b => String.leb a b = true) (sorted_texts l).
Proof. apply stable_sort_sorted; [apply text_leb_total|intros a b c; apply text_leb_trans]. Qed.

Lemma sorted_texts_ext l1 l2 : l1 ≡ₚ l2 -> sorted_texts l1 = sorted_texts l2.
Proof.
  intros Hp. assert (AntiSymm (=) (fun a b => String.leb a b = true)) by (intros a b; apply text_leb_antisym).
  apply (StronglySorted_unique (fun a b => String.leb a b = true)); [apply sorted_texts_sorted..|].
  unfold sorted_texts. by rewrite !stable_sort_Permutation.
Qed.

Lemma sorted_texts_idem l : sorted_texts (sorted_texts l) = sorted_texts l.
Proof. apply sorted_texts_ext. unfold sorted_texts. apply stable_sort_Permutation. Qed.

(** Values are read in the same order from tables that hold the same ones. *)
Lemma rdata_of_ext d d' n ty :
  (forall v, is_Some (d_rdata d !! (n, ty, v)) <-> is_Some (d_rdata d' !! (n, ty, v))) ->
  rdata_of d n ty = rdata_of d' n ty.
Proof.
  intros Hv. assert (Hp : rdata_of d n ty ≡ₚ rdata_of d' n ty).
  { apply NoDup_Permutation; [apply rdata_of_NoDup..|]. intros v. by rewrite !elem_of_rdata_of. }
  unfold rdata_of in *. rewrite <- (sorted_texts_idem (omap _ (map_to_list (d_rdata d)))).
  rewrite <- (sorted_texts_idem (omap _ (map_to_list (d_rdata d')))). by apply sorted_texts_ext.
Qed.

Lemma user_dns_rrset_ext d d' n ty :
  d_rrsets d !! (n, ty) = d_rrsets d' !! (n, ty) ->
  (forall v, is_Some (d_rdata d !! (n, ty, v)) <-> is_Some (d_rdata d' !! (n, ty, v))) ->
  user_dns_rrset d n ty = user_dns_rrset d' n ty.
Proof. intros Hr Hv. unfold user_dns_rrset. by rewrite Hr, (rdata_of_ext d d'). Qed.

Lemma elem_of_owned_names d owner dom n :
  n ∈ owned_names d owner dom <->
  exists row, d_names d !! n = Some row /\ nm_owner row = owner /\
    match dom with Some dm => under_domain n dm = true | None => True end.
Proof.
  unfold owned_names. rewrite elem_of_sorted_texts, list_elem_of_omap. split.
  - intros ([n' row] & Hin & He). apply elem_of_map_to_list in Hin.
    destruct (String.eqb (nm_owner row) owner) eqn:E; simpl in He; [|done]. apply String.eqb_eq in E.
    exists row. destruct dom as [dm|]; [destruct (under_domain n' dm) eqn:Eu|]; simplify_eq; naive_solver.
  - intros (row & Hrow & Ho & Hd). exists (n, row). rewrite elem_of_map_to_list. split; [done|].
    rewrite (proj2 (String.eqb_eq _ _) Ho). simpl. destruct dom as [dm|]; [by rewrite Hd|done].
Qed.

Lemma owned_names_NoDup d owner dom : NoDup (owned_names d owner dom).
Proof.
  unfold owned_names, sorted_texts. rewrite stable_sort_Permutation.
  assert (Hkeys : NoDup (map_to_list (d_names d)).*1) by apply NoDup_fst_map_to_list.
  induction (map_to_list (d_names d)) as [|[n row] l IH]; [constructor|].
  simpl in *. apply NoDup_cons in Hkeys as [Hnin Hkeys]. specialize (IH Hkeys).
  destruct (String.eqb _ _ && _); [|done]. apply NoDup_cons. split; [|done].
  rewrite list_elem_of_omap. intros ([n2 row2] & Hin & He). destruct (String.eqb _ _ && _); simplify_eq.
  apply Hnin. apply list_elem_of_fmap. by exists (n, row2).
Qed.

(** ** The invariant *)

(** The revisions the feed still has. *)
Definition retained (revision r : Z) : Prop := revision - USER_DNS_CHANGE_RETENTION < r <= revision /\ 0 < r.

Definition change_row_ok (row : ChangeRow) : Prop :=
  exists (ty : option UserDnsRecordType) (op : UserDnsChangeOperation),
    cw_record_type row = as_str <$> ty /\ cw_operation row = as_str op.

Record dns_wf (d : DnsTables) : Prop := mkDnsWf {
  dw_revision : 0 <= d_revision d < 2 ^ 63;
  dw_rrset n ty row : d_rrsets d !! (n, ty) = Some row ->
    is_Some (d_names d !! n) /\ USER_DNS_MIN_TTL <= rw_ttl row <= USER_DNS_MAX_TTL /\
    1 <= rw_revision row <= d_revision d;
  dw_rdata n ty v : is_Some (d_rdata d !! (n, ty, v)) ->
    is_Some (d_rrsets d !! (n, ty)) /\ rdata_check v = true;
  dw_name n : is_Some (d_names d !! n) -> exists ty, is_Some (d_rrsets d !! (n, ty));
  dw_kept r : is_Some (d_changes d !! r) <-> retained (d_revision d) r;
  dw_change r row : d_changes d !! r = Some row -> change_row_ok row
}.

(** Every RRset has a value. *)
Definition dns_filled (d : DnsTables) : Prop :=
  forall n ty, is_Some (d_rrsets d !! (n, ty)) -> exists v, is_Some (d_rdata d !! (n, ty, v)).

Lemma fresh_dns_wf : dns_wf (mkDns ∅ ∅ ∅ 0 ∅) /\ dns_filled (mkDns ∅ ∅ ∅ 0 ∅).
Proof.
  split; [split; simpl|intros n ty [? H]; simpl in H; by rewrite lookup_empty in H].
  - lia.
  - intros n ty row H. by rewrite lookup_empty in H.
  - intros n ty v [? H]. by rewrite lookup_empty in H.
  - intros n [? H]. by rewrite lookup_empty in H.
  - intros r. rewrite lookup_empty. unfold retained, USER_DNS_CHANGE_RETENTION. split; [by intros []|lia].
  - intros r row H. by rewrite lookup_empty in H.
Qed.

(** ** The feed *)

(** A reader at revision [c] is told of something: by a row of the feed that
    says so, or by a row that is gone. *)
Definition told_by (P : ChangeRow -> Prop) (d : DnsTables) (c : Z) : Prop :=
  exists r, c < r <= d_revision d /\
    match d_changes d !! r with Some row => P row | None => True end.

(** ... of a change of the name [n]. *)
Definition told (d : DnsTables) (c : Z) (n : string) : Prop := told_by (fun row => cw_name row = n) d c.

(** A row for the RRset of a name and a type, or for the deletion of the name. *)
Definition tells (n : string) (ty : UserDnsRecordType) (row : ChangeRow) : Prop :=
  cw_name row = n /\
  (cw_record_type row = Some (as_str ty) \/ (cw_record_type row = None /\ cw_operation row = as_str DeleteName)).

(** What a reader may rely on between two moments. *)
Record dns_evolves (d d' : DnsTables) : Prop := mkEvolves {
  ev_forward : d_revision d <= d_revision d';
  ev_rows r row : r <= d_revision d -> d_changes d' !! r = Some row -> d_changes d !! r = Some row;
  ev_tells n ty : user_dns_rrset d n ty <> user_dns_rrset d' n ty -> told_by (tells n ty) d' (d_revision d)
}.

Lemma told_by_later P d d' c : dns_evolves d d' -> told_by P d c -> told_by P d' c.
Proof.
  intros [Hf Hr _] (r & Hc & Hrow). exists r. split; [lia|].
  destruct (d_changes d' !! r) as [row|] eqn:E; [|done]. rewrite (Hr r row) in Hrow by (lia || done). done.
Qed.

Lemma told_by_earlier P d c c' : c' <= c -> told_by P d c -> told_by P d c'.
Proof. intros Hle (r & Hr & Hrow). exists r. split; [lia|done]. Qed.

Lemma told_later d d' c n : dns_evolves d d' -> told d c n -> told d' c n.
Proof. apply told_by_later. Qed.

Lemma told_earlier d c c' n : c' <= c -> told d c n -> told d c' n.
Proof. apply told_by_earlier. Qed.

Lemma ev_told d d' : dns_evolves d d' ->
  forall n ty, user_dns_rrset d n ty <> user_dns_rrset d' n ty -> told d' (d_revision d) n.
Proof.
  intros He n ty Hne. destruct (ev_tells _ _ He n ty Hne) as (r & Hr & Hrow). exists r. split; [done|].
  destruct (d_changes d' !! r); [apply Hrow|done].
Qed.

#[export] Instance dns_evolves_preorder : PreOrder dns_evolves.
Proof.
  split.
  - intros d. split; [lia|done|done].
  - intros d1 d2 d3 H12 H23. pose proof H12 as [Hf1 Hr1 Ht1]. pose proof H23 as [Hf2 Hr2 Ht2]. split; [lia| |].
    + intros r row Hle Hrow. apply Hr1; [done|]. apply Hr2; [lia|done].
    + intros n ty Hne. destruct (decide (user_dns_rrset d1 n ty = user_dns_rrset d2 n ty)) as [He|He].
      * rewrite He in Hne. eapply told_by_earlier, Ht2, Hne. done.
      * by eapply told_by_later, Ht1, He.
Qed.

(** ** Steps that change one name *)

Definition agree_off (n : string) (d d' : DnsTables) : Prop :=
  (forall m, m <> n -> d_names d' !! m = d_names d !! m) /\
  (forall m ty, m <> n -> d_rrsets d' !! (m, ty) = d_rrsets d !! (m, ty)) /\
  (forall m ty v, m <> n -> d_rdata d' !! (m, ty, v) = d_rdata d !! (m, ty, v)).

(** The rows of [user_dns_changes] after a revision is told. *)
Definition with_change (r : Z) (row : ChangeRow) (changes : gmap Z ChangeRow) : gmap Z ChangeRow :=
  let changes := <[r := row]> changes in
  let cutoff := u64_saturating_sub r USER_DNS_CHANGE_RETENTION in
  if 0 <? cutoff then filter (fun '(r, _) => ~ r <= u64_as_i64 cutoff) changes else changes.

(** A change of the name [n]: of its RRset of the type [o], or of the name with
    all of them.  The row it leaves in the feed is for that type, or for the
    deletion of the name. *)
Record mutated (n : string) (o : option UserDnsRecordType) (d d' : DnsTables) : Prop := mkMutated {
  mt_off : agree_off n d d';
  mt_types ty ty' : o = Some ty -> ty' <> ty ->
    d_rrsets d' !! (n, ty') = d_rrsets d !! (n, ty') /\
    forall v, d_rdata d' !! (n, ty', v) = d_rdata d !! (n, ty', v);
  mt_revision : d_revision d' = d_revision d + 1;
  mt_room : d_revision d + 1 < 2 ^ 63;
  mt_change : exists row, (forall ty, o = None \/ o = Some ty -> tells n ty row) /\
    change_row_ok row /\ d_changes d' = with_change (d_revision d + 1) row (d_changes d);
  mt_rrset ty row : d_rrsets d' !! (n, ty) = Some row ->
    is_Some (d_names d' !! n) /\ USER_DNS_MIN_TTL <= rw_ttl row <= USER_DNS_MAX_TTL /\
    1 <= rw_revision row <= d_revision d + 1;
  mt_rdata ty v : is_Some (d_rdata d' !! (n, ty, v)) ->
    is_Some (d_rrsets d' !! (n, ty)) /\ rdata_check v = true;
  mt_name : is_Some (d_names d' !! n) -> exists ty, is_Some (d_rrsets d' !! (n, ty))
}.

Lemma with_change_lookup r row changes s :
  0 < r < 2 ^ 63 ->
  with_change r row changes !! s =
    if bool_decide (r - USER_DNS_CHANGE_RETENTION < s \/ r <= USER_DNS_CHANGE_RETENTION)
    then <[r := row]> changes !! s else None.
Proof.
  intros Hr. unfold with_change, u64_saturating_sub, USER_DNS_CHANGE_RETENTION in *.
  destruct (0 <? Z.max 0 (r - 10000)) eqn:E; zbool.
  - unfold u64_as_i64. rewrite (proj2 (Z.ltb_lt _ _)) by lia. rewrite map_lookup_filter.
    case_bool_decide as Hs; destruct (<[r:=row]> changes !! s) as [row'|]; simpl; try done.
    + rewrite option_guard_True; [done|lia].
    + rewrite option_guard_False; [done|lia].
  - rewrite bool_decide_true; [done|]. right. lia.
Qed.

Lemma mutated_evolves n o d d' : dns_wf d -> mutated n o d d' -> dns_evolves d d'.
Proof.
  intros Hwf [(Hnm & Hrr & Hrd) Hty Hrev Hroom (row & Hn & _ & Hch) _ _ _].
  pose proof (dw_revision d Hwf). split; [lia| |].
  - intros r row' Hle Hrow. rewrite Hch, with_change_lookup in Hrow by lia.
    case_bool_decide; [|done]. by rewrite lookup_insert_ne in Hrow by lia.
  - intros m ty Hne. destruct (decide (m = n)) as [->|Hmn].
    + exists (d_revision d + 1). split; [lia|]. rewrite Hch, with_change_lookup by lia.
      case_bool_decide; [|done]. rewrite lookup_insert_eq. destruct o as [ty0|]; [|apply Hn; by left].
      destruct (decide (ty = ty0)) as [->|Hne0]; [apply Hn; by right|].
      destruct (Hty ty0 ty eq_refl Hne0) as [Hr Hv]. destruct Hne. apply user_dns_rrset_ext; [by rewrite Hr|].
      intros v. by rewrite Hv.
    + destruct Hne. apply user_dns_rrset_ext; [by rewrite Hrr|]. intros v. by rewrite Hrd.
Qed.

Lemma mutated_wf n o d d' : dns_wf d -> mutated n o d d' -> dns_wf d'.
Proof.
  intros Hwf [(Hnm & Hrr & Hrd) _ Hrev Hroom (row & Hn & Hrow & Hch) Hr Hv Hnn].
  pose proof (dw_revision d Hwf) as Hrange. split.
  - lia.
  - intros m ty row' Hm. destruct (decide (m = n)) as [->|Hmn].
    + rewrite Hrev. by apply (Hr ty).
    + rewrite Hrr in Hm by done. apply (dw_rrset d Hwf) in Hm as (? & ? & ?). rewrite Hnm by done.
      split_and!; try done; lia.
  - intros m ty v Hm. destruct (decide (m = n)) as [->|Hmn]; [by apply Hv|].
    rewrite Hrd in Hm by done. rewrite Hrr by done. by apply (dw_rdata d Hwf).
  - intros m Hm. destruct (decide (m = n)) as [->|Hmn]; [by apply Hnn|].
    rewrite Hnm in Hm by done. destruct (dw_name d Hwf m Hm) as [ty Hty]. exists ty. by rewrite Hrr.
  - intros r. rewrite Hrev, Hch, with_change_lookup by lia.
    pose proof (dw_kept d Hwf r) as Hk. unfold retained in *. unfold USER_DNS_CHANGE_RETENTION in *.
    case_bool_decide.
    + destruct (decide (r = d_revision d + 1)) as [->|].
      * rewrite lookup_insert_eq. split; [lia|done].
      * rewrite lookup_insert_ne by done. rewrite Hk. lia.
    + split; [by intros []|lia].
  - intros r row'. rewrite Hch, with_change_lookup by lia. case_bool_decide; [|done].
    destruct (decide (r = d_revision d + 1)) as [->|].
    + rewrite lookup_insert_eq. by intros [= <-].
    + rewrite lookup_insert_ne by done. apply (dw_change d Hwf).
Qed.

(** ** Each transaction as one step *)

(** The row a change leaves in the feed. *)
Definition told_row (n : string) (ty : option UserDnsRecordType) (op : UserDnsChangeOperation) (now : Z) :
    ChangeRow := mkChangeRow n (as_str <$> ty) (as_str op) now.

Lemma told_row_ok n ty op now : change_row_ok (told_row n ty op now).
Proof. by exists ty, op. Qed.

Lemma u64_as_i64_small z : z < 2 ^ 63 -> u64_as_i64 z = z.
Proof. intros Hz. unfold u64_as_i64. by rewrite (proj2 (Z.ltb_lt _ _)). Qed.

Lemma i64_to_u64_pos z : 0 <= z -> i64_to_u64 z = z.
Proof. intros Hz. unfold i64_to_u64. destruct (z <? 0) eqn:E; zbool; lia. Qed.

Lemma allocate_run d :
  dns_wf d -> d_revision d + 1 < 2 ^ 63 ->
  allocate_user_dns_revision_tx d =
    SOk (d_revision d + 1, mkDns (d_names d) (d_rrsets d) (d_rdata d) (d_revision d + 1) (d_changes d)).
Proof.
  intros Hwf Hroom. pose proof (dw_revision d Hwf). unfold allocate_user_dns_revision_tx.
  rewrite (proj2 (Z.leb_gt _ _)) by lia. by rewrite i64_to_u64_pos by lia.
Qed.

Lemma allocate_full d :
  2 ^ 63 <= d_revision d + 1 ->
  allocate_user_dns_revision_tx d = SErr (db_err "allocate user DNS revision failed").
Proof. intros Hfull. unfold allocate_user_dns_revision_tx. by rewrite (proj2 (Z.leb_le _ _)) by lia. Qed.

(** Appending the change of the revision just allocated. *)
Lemma append_run d0 d n ty op now :
  dns_wf d0 -> d_revision d0 + 1 < 2 ^ 63 -> d_changes d = d_changes d0 ->
  append_user_dns_change_tx (d_revision d0 + 1) n ty op now d =
    SOk (tt, mkDns (d_names d) (d_rrsets d) (d_rdata d) (d_revision d)
               (with_change (d_revision d0 + 1) (told_row n ty op now) (d_changes d0))).
Proof.
  intros Hwf Hroom Hch. pose proof (dw_revision d0 Hwf) as Hr. unfold append_user_dns_change_tx.
  rewrite u64_as_i64_small, Hch by lia.
  destruct (d_changes d0 !! (d_revision d0 + 1)) as [row|] eqn:E.
  - assert (Hk : retained (d_revision d0) (d_revision d0 + 1)) by (apply (dw_kept d0 Hwf); by rewrite E).
    unfold retained in Hk. lia.
  - done.
Qed.

(** *** Statements one after another *)

Section run.
Context {S : Type}.
Implicit Types s : S.

Lemma tthen_tret {A B} (a : A) (k : A -> Tx S B) s : tthen (tret a) k s = k a s.
Proof. done. Qed.
Lemma tthen_tget {A B} (f : S -> A) (k : A -> Tx S B) s : tthen (tget f) k s = k (f s) s.
Proof. done. Qed.
Lemma tthen_tput {B} (f : S -> S) (k : unit -> Tx S B) s : tthen (tput f) k s = k tt (f s).
Proof. done. Qed.
Lemma tthen_ok {A B} (a : A) (k : A -> Tx S B) s : tthen (tlift (SOk a)) k s = k a s.
Proof. done. Qed.
Lemma tthen_err {A B} e (k : A -> Tx S B) s : tthen (tlift (SErr e)) k s = SErr e.
Proof. done. Qed.
Lemma tthen_assoc {A B C} (m : Tx S A) (k : A -> Tx S B) (l : B -> Tx S C) s :
  tthen (tthen m k) l s = tthen m (fun a => tthen (k a) l) s.
Proof. unfold tthen. by destruct (m s) as [[a s']|e]. Qed.
End run.

Lemma on_dns_id t : on_dns (fun _ => a_dns t) t = t.
Proof. by destruct t. Qed.

Lemma in_dns_tget {A B} (f : DnsTables -> A) (k : A -> Tx AuthTables B) t :
  tthen (in_dns (tget f)) k t = k (f (a_dns t)) t.
Proof. unfold tthen, in_dns, tget. by rewrite on_dns_id. Qed.

Lemma in_dns_lock {B} (k : unit -> Tx AuthTables B) t : tthen (in_dns lock_user_dns_state_tx) k t = k tt t.
Proof.
  unfold tthen, in_dns, lock_user_dns_state_tx, tput. by destruct t as [????????? []].
Qed.

Lemma lock_run {B} (k : unit -> Tx DnsTables B) d : tthen lock_user_dns_state_tx k d = k tt d.
Proof. unfold tthen, lock_user_dns_state_tx, tput. by destruct d. Qed.

Lemma in_dns_owner {B} n (k : option string -> Tx AuthTables B) t :
  tthen (in_dns (user_dns_owner_tx n)) k t = k (nm_owner <$> d_names (a_dns t) !! n) t.
Proof. apply in_dns_tget. Qed.

Lemma in_dns_rrset {B} n ty (k : option UserDnsRrset -> Tx AuthTables B) t :
  tthen (in_dns (user_dns_rrset_tx n ty)) k t = k (user_dns_rrset (a_dns t) n ty) t.
Proof. apply in_dns_tget. Qed.

Create Rewrite HintDb tx.
#[export] Hint Rewrite @tthen_tret @tthen_tget @tthen_tput @tthen_ok @tthen_err @in_dns_tget @in_dns_lock
  @lock_run @in_dns_owner @in_dns_rrset : tx.

(** *** Put *)

Definition put_ttl (d : DnsTables) (n : string) (ty : UserDnsRecordType) (ttl : Z) : Z :=
  match d_rrsets d !! (n, ty) with Some row => Z.min (rw_ttl row) ttl | None => ttl end.

Definition put_dns (owner n : string) (ty : UserDnsRecordType) (value : string) (ttl now : Z)
    (d : DnsTables) : DnsTables :=
  let created := match d_rrsets d !! (n, ty) with Some old => rw_created_at old | None => now end in
  let name_row := match d_names d !! n with
                  | Some row => mkNameRow (nm_owner row) (nm_created_at row) now
                  | None => mkNameRow owner now now end in
  mkDns (<[n := name_row]> (d_names d))
    (<[(n, ty) := mkRrsetRow (put_ttl d n ty ttl) (d_revision d + 1) created now]> (d_rrsets d))
    (if is_some (d_rdata d !! (n, ty, value)) || negb (rdata_check value) then d_rdata d
     else <[(n, ty, value) := now]> (d_rdata d))
    (d_revision d + 1)
    (with_change (d_revision d + 1) (told_row n (Some ty) UpsertRrset now) (d_changes d)).

(** A put that finds its value with a lifetime as short changes nothing. *)
Definition put_is_noop (d : DnsTables) (n : string) (ty : UserDnsRecordType) (value : string) (ttl : Z) : bool :=
  is_some (d_rdata d !! (n, ty, value)) &&
  match d_rrsets d !! (n, ty) with Some row => rw_ttl row <=? ttl | None => false end.

Lemma read_ttl d n ty row :
  dns_wf d -> d_rrsets d !! (n, ty) = Some row -> Z.max 0 (rw_ttl row) mod 2 ^ 32 = rw_ttl row.
Proof.
  intros Hwf Hrow. apply (dw_rrset d Hwf) in Hrow as (_ & Ht & _).
  unfold USER_DNS_MIN_TTL, USER_DNS_MAX_TTL in Ht. rewrite Z.max_r by lia. apply Z.mod_small. lia.
Qed.

Lemma put_mutated owner n ty value ttl now d :
  dns_wf d -> d_revision d + 1 < 2 ^ 63 -> USER_DNS_MIN_TTL <= ttl <= USER_DNS_MAX_TTL ->
  mutated n (Some ty) d (put_dns owner n ty value ttl now d).
Proof.
  intros Hwf Hroom Httl. pose proof (dw_revision d Hwf) as Hrev. unfold put_dns. split; simpl.
  - unfold agree_off. simpl. split_and!; [intros m Hm; by rewrite lookup_insert_ne|intros m ty' Hm; rewrite lookup_insert_ne; congruence|].
    intros m ty' v Hm. destruct (_ || _); [done|]. rewrite lookup_insert_ne; congruence.
  - intros ? ty' [= <-] Hne. rewrite lookup_insert_ne by congruence. split; [done|]. intros v.
    destruct (_ || _); [done|]. by rewrite lookup_insert_ne by congruence.
  - done.
  - done.
  - exists (told_row n (Some ty) UpsertRrset now). split_and!; [|apply told_row_ok|done].
    intros ty' [|[= <-]]; [done|]. split; [done|by left].
  - intros ty' row. rewrite lookup_insert_eq. destruct (decide (ty' = ty)) as [->|Hty].
    + rewrite lookup_insert_eq. intros [= <-]. simpl. split_and!; [done| | |lia|lia];
        unfold put_ttl; destruct (d_rrsets d !! (n, ty)) as [row|] eqn:E; try lia;
        apply (dw_rrset d Hwf) in E as (_ & ? & _); lia.
    + rewrite lookup_insert_ne by congruence. intros Hrow.
      apply (dw_rrset d Hwf) in Hrow as (_ & ? & ?). split_and!; try done; lia.
  - intros ty' v Hv.
    assert (Hcase : is_Some (d_rdata d !! (n, ty', v)) \/ (ty' = ty /\ v = value /\ rdata_check value = true)).
    { destruct (is_some _ || negb _) eqn:Eo; [by left|].
      apply orb_false_iff in Eo as [_ Ec%negb_false_iff].
      destruct (decide ((ty', v) = (ty, value))) as [[= -> ->]|Hne]; [right; done|].
      rewrite lookup_insert_ne in Hv by congruence. by left. }
    destruct Hcase as [Hold|(-> & -> & Hc)].
    + destruct (dw_rdata d Hwf _ _ _ Hold) as [Hr ?]. split; [|done].
      destruct (decide (ty' = ty)) as [->|]; [by rewrite lookup_insert_eq|].
      rewrite lookup_insert_ne; [done|congruence].
    + rewrite lookup_insert_eq. done.
  - intros _. exists ty. by rewrite lookup_insert_eq.
Qed.

Definition active_user (t : AuthTables) (owner : string) : option bool :=
  (fun u => user_state_is_active (user_state_from_str (Some (us_state u)))) <$> a_users t !! owner.

(** The name row a put finds or makes. *)
Definition claimed_row (owner n : string) (now : Z) (d : DnsTables) : NameRow :=
  default (mkNameRow owner now now) (d_names d !! n).

Definition claimed (owner n : string) (now : Z) (d : DnsTables) : DnsTables :=
  mkDns (<[n := claimed_row owner n now d]> (d_names d)) (d_rrsets d) (d_rdata d) (d_revision d) (d_changes d).

Lemma claim_run owner n now t u :
  dns_name_check n = true -> a_users t !! owner = Some u ->
  claim_dns_name n owner now t = SOk (tt, on_dns (fun _ => claimed owner n now (a_dns t)) t).
Proof.
  intros Hcheck Hu. unfold claim_dns_name, claimed, claimed_row. rewrite Hcheck, Hu, orb_false_r.
  destruct (d_names (a_dns t) !! n) as [row|] eqn:En; simpl; [|done].
  rewrite insert_id by done. by destruct t as [????????? []].
Qed.

(** The writes of a put, on tables whose name is claimed. *)
Lemma put_writes owner n ty value ttl now d :
  dns_wf d -> d_revision d + 1 < 2 ^ 63 -> USER_DNS_MIN_TTL <= ttl <= USER_DNS_MAX_TTL ->
  (let! revision := allocate_user_dns_revision_tx in
   upsert_rrset n ty (put_ttl d n ty ttl) (u64_as_i64 revision) now ;!
   insert_rdata n ty value now ;!
   tput (touch_dns_name n now) ;!
   append_user_dns_change_tx revision n (Some ty) UpsertRrset now ;!
   let! rrset := user_dns_rrset_tx n ty in
   tret (mkMutation revision true rrset)) (claimed owner n now d) =
  let d' := put_dns owner n ty value ttl now d in
  SOk (mkMutation (d_revision d') true (user_dns_rrset d' n ty), d').
Proof.
  intros Hwf Hroom Httl. pose proof (dw_revision d Hwf) as Hrev.
  assert (Hput : USER_DNS_MIN_TTL <= put_ttl d n ty ttl <= USER_DNS_MAX_TTL).
  { unfold put_ttl. destruct (d_rrsets d !! (n, ty)) as [row|] eqn:E; [|done].
    apply (dw_rrset d Hwf) in E as (_ & ? & _). lia. }
  unfold USER_DNS_MIN_TTL, USER_DNS_MAX_TTL in Hput.
  unfold tthen at 1, allocate_user_dns_revision_tx. simpl. rewrite (proj2 (Z.leb_gt _ _)) by lia.
  rewrite i64_to_u64_pos by lia.
  unfold tthen at 1, upsert_rrset. simpl. rewrite u64_as_i64_small, lookup_insert_eq by lia.
  rewrite (proj2 (Z.leb_le _ _)) by lia. rewrite (proj2 (Z.leb_le _ _)) by lia.
  rewrite (proj2 (Z.ltb_lt _ _)) by lia. simpl.
  unfold tthen at 1, insert_rdata. simpl. rewrite lookup_insert_eq.
  assert (Hnames : forall rr rd r c,
    touch_dns_name n now (mkDns (<[n:=claimed_row owner n now d]> (d_names d)) rr rd r c) =
    mkDns (d_names (put_dns owner n ty value ttl now d)) rr rd r c).
  { intros rr rd r c. unfold touch_dns_name, claimed_row. simpl. rewrite alter_insert_eq.
    by destruct (d_names d !! n). }
  unfold put_dns in Hnames |- *. simpl in Hnames.
  destruct (is_some _ || _); rewrite tthen_tput, Hnames; unfold tthen at 1; rewrite (append_run d) by done; done.
Qed.

Lemma put_ttl_read d n ty ttl :
  dns_wf d ->
  match user_dns_rrset d n ty with Some rr => rr_ttl rr `min` ttl | None => ttl end = put_ttl d n ty ttl.
Proof.
  intros Hwf. unfold user_dns_rrset, put_ttl. destruct (d_rrsets d !! (n, ty)) as [row|] eqn:E; [|done].
  simpl rr_ttl. by rewrite (read_ttl d n ty row).
Qed.

Lemma put_noop_read d n ty value ttl :
  dns_wf d ->
  is_some (d_rdata d !! (n, ty, value)) &&
    match user_dns_rrset d n ty with Some rr => rr_ttl rr =? put_ttl d n ty ttl | None => false end =
  put_is_noop d n ty value ttl.
Proof.
  intros Hwf. unfold put_is_noop, user_dns_rrset, put_ttl. f_equal.
  destruct (d_rrsets d !! (n, ty)) as [row|] eqn:E; [|done].
  simpl rr_ttl. rewrite (read_ttl d n ty row) by done.
  destruct (rw_ttl row <=? ttl) eqn:El; zbool; [apply Z.eqb_eq|apply Z.eqb_neq]; lia.
Qed.

Lemma put_run owner n ty value ttl now t :
  dns_wf (a_dns t) -> dns_name_check n = true -> USER_DNS_MIN_TTL <= ttl <= USER_DNS_MAX_TTL ->
  put_user_dns_value_tx owner n ty value ttl now t =
    match active_user t owner with
    | None => SErr (sn_err EcUserNotFound "user not found")
    | Some false => SErr (sn_err EcBlocked "user is not active")
    | Some true =>
        if match d_names (a_dns t) !! n with
           | Some row => negb (String.eqb (nm_owner row) owner) | None => false end
        then SErr (sn_err EcConflict "user DNS name is owned by another user")
        else if put_is_noop (a_dns t) n ty value ttl then
          SOk (mkMutation (d_revision (a_dns t)) false (user_dns_rrset (a_dns t) n ty), t)
        else if 2 ^ 63 <=? d_revision (a_dns t) + 1
        then SErr (db_err "allocate user DNS revision failed")
        else
          let d' := put_dns owner n ty value ttl now (a_dns t) in
          SOk (mkMutation (d_revision d') true (user_dns_rrset d' n ty), on_dns (fun _ => d') t)
    end.
Proof.
  intros Hwf Hcheck Httl. unfold put_user_dns_value_tx, active_user. autorewrite with tx.
  destruct (a_users t !! owner) as [u|] eqn:Eu; simpl; autorewrite with tx; [|done].
  destruct (user_state_is_active _); simpl; autorewrite with tx; [|done].
  unfold tthen at 1. rewrite (claim_run owner n now t u) by done. autorewrite with tx.
  simpl. rewrite lookup_insert_eq. simpl. autorewrite with tx. unfold ensure_user_dns_owner.
  assert (Hown : negb (String.eqb (nm_owner (claimed_row owner n now (a_dns t))) owner) =
    match d_names (a_dns t) !! n with Some row => negb (String.eqb (nm_owner row) owner) | None => false end).
  { unfold claimed_row. destruct (d_names (a_dns t) !! n); simpl; [done|]. by rewrite String.eqb_refl. }
  rewrite Hown. destruct (match d_names (a_dns t) !! n with Some row => _ | None => false end) eqn:Eo;
    simpl; autorewrite with tx; [done|].
  change (user_dns_rrset (a_dns (on_dns (fun _ => claimed owner n now (a_dns t)) t)) n ty)
    with (user_dns_rrset (a_dns t) n ty). simpl.
  rewrite put_ttl_read, put_noop_read by done.
  destruct (put_is_noop (a_dns t) n ty value ttl) eqn:En.
  - unfold in_dns, unchanged_mutation, current_user_dns_revision_tx. rewrite tthen_tget. simpl.
    rewrite i64_to_u64_pos by apply (dw_revision _ Hwf). f_equal. f_equal.
    unfold put_is_noop in En. apply andb_true_iff in En as [_ En].
    destruct (d_rrsets (a_dns t) !! (n, ty)) as [row|] eqn:Er; [|done].
    destruct (dw_rrset _ Hwf _ _ _ Er) as ([nrow Hnr] & _). unfold claimed, claimed_row. rewrite Hnr. simpl.
    rewrite insert_id by done. by destruct t as [????????? []].
  - unfold in_dns. simpl. destruct (2 ^ 63 <=? d_revision (a_dns t) + 1) eqn:Ef; zbool.
    + unfold tthen at 1. by rewrite allocate_full.
    + by rewrite put_writes.
Qed.

(** *** Deleting names *)

Lemma delete_names_lookup gone d n :
  d_names (delete_names gone d) !! n = if name_gone gone d n then None else d_names d !! n.
Proof.
  unfold delete_names. simpl. rewrite map_lookup_filter. destruct (d_names d !! n); simpl; [|by destruct (name_gone gone d n)].
  destruct (name_gone gone d n); [by rewrite option_guard_False|by rewrite option_guard_True].
Qed.

Lemma delete_names_rrset gone d n ty :
  d_rrsets (delete_names gone d) !! (n, ty) = if name_gone gone d n then None else d_rrsets d !! (n, ty).
Proof.
  unfold delete_names. simpl. rewrite map_lookup_filter. destruct (d_rrsets d !! (n, ty)); simpl; [|by destruct (name_gone gone d n)].
  destruct (name_gone gone d n); [by rewrite option_guard_False|by rewrite option_guard_True].
Qed.

Lemma delete_names_rdata gone d n ty v :
  d_rdata (delete_names gone d) !! (n, ty, v) = if name_gone gone d n then None else d_rdata d !! (n, ty, v).
Proof.
  unfold delete_names. simpl. rewrite map_lookup_filter. destruct (d_rdata d !! (n, ty, v)); simpl; [|by destruct (name_gone gone d n)].
  destruct (name_gone gone d n); [by rewrite option_guard_False|by rewrite option_guard_True].
Qed.

(** One name of an owner, as [delete_user_dns_names_tx] deletes it. *)
Definition deleted_name_dns (owner n : string) (now : Z) (d : DnsTables) : DnsTables :=
  let d1 := delete_names (fun m row => String.eqb m n && String.eqb (nm_owner row) owner) d in
  mkDns (d_names d1) (d_rrsets d1) (d_rdata d1) (d_revision d + 1)
    (with_change (d_revision d + 1) (told_row n None DeleteName now) (d_changes d)).

Lemma delete_one_run owner n now d :
  dns_wf d -> d_revision d + 1 < 2 ^ 63 ->
  delete_one_name owner now n d = SOk (tt, deleted_name_dns owner n now d).
Proof.
  intros Hwf Hroom. unfold delete_one_name. unfold tthen at 1. rewrite allocate_run by done.
  rewrite tthen_tput. by rewrite (append_run d) by done.
Qed.

Lemma delete_one_full owner n now d :
  2 ^ 63 <= d_revision d + 1 ->
  delete_one_name owner now n d = SErr (db_err "allocate user DNS revision failed").
Proof. intros Hfull. unfold delete_one_name. unfold tthen at 1. by rewrite allocate_full. Qed.

Lemma deleted_name_off owner n now d m :
  m <> n -> d_names (deleted_name_dns owner n now d) !! m = d_names d !! m.
Proof.
  intros Hm. unfold deleted_name_dns. cbn [d_names]. rewrite delete_names_lookup. unfold name_gone.
  destruct (d_names d !! m); [|done]. by rewrite (proj2 (String.eqb_neq m n)).
Qed.

Lemma deleted_name_gone owner n d row :
  d_names d !! n = Some row -> nm_owner row = owner ->
  name_gone (fun m row => String.eqb m n && String.eqb (nm_owner row) owner) d n = true.
Proof. intros Hn Ho. unfold name_gone. by rewrite Hn, Ho, !String.eqb_refl. Qed.

Lemma deleted_name_mutated owner n now d row :
  dns_wf d -> d_revision d + 1 < 2 ^ 63 -> d_names d !! n = Some row -> nm_owner row = owner ->
  mutated n None d (deleted_name_dns owner n now d).
Proof.
  intros Hwf Hroom Hn Ho. pose proof (deleted_name_gone owner n d row Hn Ho) as Hgone.
  assert (Hoff : forall m, m <> n -> name_gone (fun m row => String.eqb m n && String.eqb (nm_owner row) owner) d m = false).
  { intros m Hm. unfold name_gone. destruct (d_names d !! m); [|done]. by rewrite (proj2 (String.eqb_neq m n)). }
  split.
  - unfold agree_off. unfold deleted_name_dns. cbn [d_names d_rrsets d_rdata].
    split_and!; intros m; intros; rewrite ?delete_names_lookup, ?delete_names_rrset, ?delete_names_rdata, Hoff; done.
  - done.
  - done.
  - done.
  - exists (told_row n None DeleteName now). split_and!; [|apply told_row_ok|done].
    intros ty _. split; [done|by right].
  - intros ty r. unfold deleted_name_dns. cbn [d_rrsets]. by rewrite delete_names_rrset, Hgone.
  - intros ty v. unfold deleted_name_dns. cbn [d_rdata]. rewrite delete_names_rdata, Hgone. by intros [].
  - unfold deleted_name_dns. cbn [d_names]. rewrite delete_names_lookup, Hgone. by intros [].
Qed.

(** ** What a transaction may do *)

(** Any number of mutations of names that satisfy [P]. *)
Definition mutations (P : string -> Prop) : relation DnsTables := rtc (fun d d' => exists n o, P n /\ mutated n o d d').

Lemma mutations_one (P : string -> Prop) n o d d' : P n -> mutated n o d d' -> mutations P d d'.
Proof. intros HP Hm. apply rtc_once. by exists n, o. Qed.

Lemma mutations_weaken (P Q : string -> Prop) d d' : (forall n, P n -> Q n) -> mutations P d d' -> mutations Q d d'.
Proof. intros HPQ. apply rtc_subrel. intros d1 d2 (n & o & Hn & Hm). exists n, o. auto. Qed.

Lemma mutations_wf P d d' : mutations P d d' -> dns_wf d -> dns_wf d' /\ dns_evolves d d'.
Proof.
  induction 1 as [d|d1 d2 d3 (n & o & _ & Hm) _ IH]; intros Hwf; [done|].
  destruct (IH (mutated_wf n o d1 d2 Hwf Hm)) as [Hwf' Hev]. split; [done|].
  etrans; [by eapply mutated_evolves|done].
Qed.

Lemma mutations_off P d d' m : mutations P d d' -> ~ P m ->
  d_names d' !! m = d_names d !! m /\ (forall ty, user_dns_rrset d' m ty = user_dns_rrset d m ty).
Proof.
  induction 1 as [d|d1 d2 d3 (n & o & Hn & Hm) _ IH]; intros HP; [done|].
  destruct (IH HP) as [IH1 IH2]. destruct Hm as [(Hnm & Hrr & Hrd) _ _ _ _ _ _ _].
  assert (m <> n) by (intros ->; done). rewrite IH1, Hnm by done. split; [done|]. intros ty. rewrite IH2.
  apply user_dns_rrset_ext; [by rewrite Hrr|]. intros v. by rewrite Hrd.
Qed.

(** *** The names of an owner *)

Lemma delete_list_run owner now names d :
  dns_wf d -> NoDup names ->
  (forall n, n ∈ names -> exists row, d_names d !! n = Some row /\ nm_owner row = owner) ->
  match titer (delete_one_name owner now) names d with
  | SOk (_, d') =>
      mutations (fun n => n ∈ names) d d' /\ d_revision d' = d_revision d + Z.of_nat (length names) /\
      forall n, n ∈ names -> d_names d' !! n = None
  | SErr e => 2 ^ 63 <= d_revision d + Z.of_nat (length names) /\
      e = db_err "allocate user DNS revision failed"
  end.
Proof.
  revert d. induction names as [|n names IH]; intros d Hwf Hnd Hown; simpl.
  { split_and!; [apply rtc_refl|lia|]. by intros n Hn%elem_of_nil. }
  apply NoDup_cons in Hnd as [Hnin Hnd]. destruct (Hown n) as (row & Hrow & Ho); [left|].
  destruct (decide (d_revision d + 1 < 2 ^ 63)) as [Hroom|Hfull].
  - unfold tthen. rewrite delete_one_run by done.
    pose proof (deleted_name_mutated owner n now d row Hwf Hroom Hrow Ho) as Hm.
    specialize (IH (deleted_name_dns owner n now d) (mutated_wf _ _ _ _ Hwf Hm) Hnd).
    assert (Hown' : forall m, m ∈ names -> exists row,
      d_names (deleted_name_dns owner n now d) !! m = Some row /\ nm_owner row = owner).
    { intros m Hm'. rewrite deleted_name_off by (intros ->; done). apply Hown. by right. }
    specialize (IH Hown'). simpl d_revision in IH.
    destruct (titer _ names _) as [[[] d']|e].
    + destruct IH as (Hmu & Hr & Hgone). split_and!; [|lia|].
      * eapply rtc_l; [exists n, None; split; [left|exact Hm]|].
        eapply mutations_weaken; [|exact Hmu]. intros m Hm'. by right.
      * intros m [->|Hm']%elem_of_cons; [|by apply Hgone].
        assert (Hoff := mutations_off _ _ _ n Hmu Hnin). destruct Hoff as [-> _]. unfold deleted_name_dns. cbn [d_names].
        rewrite delete_names_lookup, (deleted_name_gone owner n d row Hrow Ho). done.
    + destruct IH as [? ->]. split; [lia|done].
  - unfold tthen. rewrite delete_one_full by lia. split; [lia|done].
Qed.

Lemma delete_names_run owner dom now d :
  dns_wf d ->
  match delete_user_dns_names_tx owner dom now d with
  | SOk (r, d') =>
      mutations (fun n => n ∈ owned_names d owner dom) d d' /\
      (r = d_revision d' /\ r = d_revision d + Z.of_nat (length (owned_names d owner dom))) /\
      forall n, n ∈ owned_names d owner dom -> d_names d' !! n = None
  | SErr e => 2 ^ 63 <= d_revision d + Z.of_nat (length (owned_names d owner dom)) /\
      e = db_err "allocate user DNS revision failed"
  end.
Proof.
  intros Hwf. unfold delete_user_dns_names_tx. rewrite tthen_tget. unfold tthen.
  pose proof (delete_list_run owner now (owned_names d owner dom) d Hwf (owned_names_NoDup _ _ _)) as H.
  destruct (titer _ _ d) as [[[] d']|e]; [|apply H].
  - destruct H as (Hmu & Hr & Hg).
    { intros n Hn. apply elem_of_owned_names in Hn as (row & ? & ? & _). eauto. }
    destruct (mutations_wf _ _ _ Hmu Hwf) as [Hwf' _].
    assert (Hpos : i64_to_u64 (d_revision d') = d_revision d') by apply i64_to_u64_pos, (dw_revision d' Hwf').
    split_and!; [done|done| |done]. congruence.
  - intros n Hn. apply elem_of_owned_names in Hn as (row & ? & ? & _). eauto.
Qed.

(** * The pages of the change feed

    What [list_user_dns_changes] reads: the revisions of a page are consecutive
    numbers, and its changes are the rows of the feed. *)

(** The first revision the feed still has. *)
Definition oldest (d : DnsTables) : Z := Z.max 1 (d_revision d - USER_DNS_CHANGE_RETENTION + 1).

Lemma retained_iff d r : retained (d_revision d) r <-> oldest d <= r <= d_revision d.
Proof. unfold retained, oldest. lia. Qed.

(** A strictly increasing list with the elements of an interval is the interval. *)
Lemma sorted_interval l a n :
  StronglySorted Z.le l -> NoDup l -> (forall z, z ∈ l <-> a <= z < a + n) -> l = seqZ a n.
Proof.
  intros Hs Hnd Hin. apply (StronglySorted_unique Z.le); [done| |].
  - apply Sorted_StronglySorted; [intros x y z; lia|].
    assert (Hseq : forall k m, StronglySorted Z.le (seqZ k (Z.of_nat m))).
    { intros k m. revert k. induction m as [|m IH]; intros k; [constructor|].
      rewrite seqZ_cons by lia. replace (Z.pred (Z.of_nat (S m))) with (Z.of_nat m) by lia. constructor; [apply IH|].
      apply Forall_forall. intros z Hz%elem_of_seqZ. lia. }
    destruct (decide (0 <= n)); [|rewrite seqZ_nil by lia; constructor].
    rewrite <- (Z2Nat.id n) by done. apply StronglySorted_Sorted, Hseq.
  - apply NoDup_Permutation; [done|apply NoDup_seqZ|]. intros z. rewrite Hin, elem_of_seqZ. lia.
Qed.

Lemma fmap_sorted {A} (key : A -> Z) l : StronglySorted (key_le key) l -> StronglySorted Z.le (key <$> l).
Proof.
  induction 1 as [|x l Hs IH Hall]; [constructor|]. csimpl. constructor; [done|]. apply Forall_fmap.
  eapply Forall_impl; [exact Hall|]. done.
Qed.

Definition later_rows (after : Z) (d : DnsTables) : list (Z * ChangeRow) :=
  sort_by_key fst (List.filter (fun '(r, _) => after <? r) (map_to_list (d_changes d))).

Lemma elem_of_later_rows after d r row :
  (r, row) ∈ later_rows after d <-> d_changes d !! r = Some row /\ after < r.
Proof.
  unfold later_rows. rewrite sort_by_key_Permutation, list_elem_of_In, filter_In, <- list_elem_of_In, elem_of_map_to_list.
  by rewrite Z.ltb_lt.
Qed.

Lemma later_keys after d :
  dns_wf d -> fst <$> later_rows after d =
    seqZ (Z.max (after + 1) (oldest d)) (d_revision d + 1 - Z.max (after + 1) (oldest d)).
Proof.
  intros Hwf. apply sorted_interval.
  - apply fmap_sorted, sort_by_key_sorted.
  - unfold later_rows. rewrite sort_by_key_Permutation. 
    assert (Hsub : forall l : list (Z * ChangeRow), NoDup l.*1 -> NoDup (List.filter (fun '(r, _) => after <? r) l).*1).
    { induction l as [|[r row] l IH]; intros Hnd; [constructor|]. csimpl in Hnd. apply NoDup_cons in Hnd as [Hr Hnd].
      simpl. destruct (after <? r); [|by apply IH]. csimpl. apply NoDup_cons. split; [|by apply IH].
      intros ([r' row'] & -> & Hin)%list_elem_of_fmap. apply Hr, list_elem_of_fmap. exists (r', row'). split; [done|].
      by apply list_elem_of_In, filter_In, proj1, list_elem_of_In in Hin. }
    apply Hsub, NoDup_fst_map_to_list.
  - intros z. rewrite list_elem_of_fmap. split.
    + intros ([r row] & -> & [Hr Ha]%elem_of_later_rows). simpl.
      assert (Hret : retained (d_revision d) r) by (apply (dw_kept d Hwf); eauto).
      apply retained_iff in Hret. lia.
    + intros Hz. destruct (proj2 (dw_kept d Hwf z)) as [row Hrow]; [apply retained_iff; lia|].
      exists (z, row). split; [done|]. apply elem_of_later_rows. split; [done|lia].
Qed.

Lemma take_seqZ k a n : take k (seqZ a n) = seqZ a (Z.min (Z.of_nat k) n).
Proof.
  revert a n. induction k as [|k IH]; intros a n; [by rewrite (seqZ_nil a (Z.min _ _)) by lia|].
  destruct (decide (0 < n)); [|by rewrite (seqZ_nil a n), (seqZ_nil a (Z.min _ _)) by lia].
  rewrite (seqZ_cons a n), (seqZ_cons a (Z.min _ n)) by lia. simpl. rewrite IH. do 2 f_equal. lia.
Qed.

(** The rows of a page. *)
Definition page_start (after : Z) (d : DnsTables) : Z := Z.max (after + 1) (oldest d).

Lemma change_rows_keys after limit d :
  dns_wf d -> fst <$> change_rows after limit d =
    seqZ (page_start after d) (Z.min (Z.of_nat limit) (d_revision d + 1 - page_start after d)).
Proof. intros Hwf. unfold change_rows. fold (later_rows after d). by rewrite fmap_take, later_keys, take_seqZ. Qed.

Lemma change_rows_elem after limit d r row :
  (r, row) ∈ change_rows after limit d -> d_changes d !! r = Some row /\ after < r.
Proof.
  intros Hin. apply elem_of_later_rows. unfold later_rows.
  rewrite <- (take_drop limit (sort_by_key _ _)), elem_of_app. by left.
Qed.

(** ** The page *)

Definition change_of (row : Z * ChangeRow) (ch : UserDnsChange) : Prop :=
  ch_revision ch = row.1 /\ ch_name ch = cw_name row.2 /\
  cw_record_type row.2 = as_str <$> ch_record_type ch /\ cw_operation row.2 = as_str (ch_operation ch).

Lemma record_type_round_trip (ty : UserDnsRecordType) : record_type_from_str (as_str ty) = SOk ty.
Proof. by destruct ty. Qed.

Lemma change_from_row_ok r row : change_row_ok row -> 0 <= r ->
  exists ch, change_from_row r row = SOk ch /\ change_of (r, row) ch.
Proof.
  intros (ty & op & Hty & Hop) Hr. unfold change_from_row. rewrite Hty, Hop.
  destruct ty as [ty|]; [destruct ty|]; destruct op; (eexists; split; [done|]); unfold change_of; simpl;
    by rewrite i64_to_u64_pos.
Qed.

Lemma change_page_ok current earliest rows :
  0 <= current -> (forall r row, (r, row) ∈ rows -> change_row_ok row /\ 0 <= r) ->
  exists changes, change_page current earliest rows =
    SOk (mkPage changes current (match earliest with Some e => i64_to_u64 e | None => u64_saturating_add current 1 end)) /\
    Forall2 change_of rows changes.
Proof.
  intros Hc Hrows. unfold change_page.
  destruct (mapS_ok (fun '(r, row) => change_from_row r row) change_of rows) as (changes & Hm & Hf).
  { intros [r row] Hin. destruct (Hrows r row Hin). by apply change_from_row_ok. }
  exists changes. rewrite Hm. simpl. by rewrite i64_to_u64_pos.
Qed.

Lemma rows_readable after limit d r row :
  dns_wf d -> (r, row) ∈ change_rows after limit d -> change_row_ok row /\ 0 <= r.
Proof.
  intros Hwf [Hr _]%change_rows_elem. split; [by apply (dw_change d Hwf r)|].
  assert (Hret : retained (d_revision d) r) by (apply (dw_kept d Hwf); eauto). unfold retained in Hret. lia.
Qed.

(** [SELECT MIN(revision)]. *)
Lemma earliest_change_eq d :
  dns_wf d -> earliest_change d = if d_revision d =? 0 then None else Some (oldest d).
Proof.
  intros Hwf. pose proof (later_keys 0 d Hwf) as Hk. pose proof (dw_revision d Hwf) as Hrev. unfold later_rows in Hk.
  assert (Hall : List.filter (fun '(r, _) => 0 <? r) (map_to_list (d_changes d)) = map_to_list (d_changes d)).
  { apply forallb_filter_id, forallb_forall. intros [r row] Hin%list_elem_of_In%elem_of_map_to_list.
    assert (Hret : retained (d_revision d) r) by (apply (dw_kept d Hwf); eauto). apply Z.ltb_lt, Hret. }
  rewrite Hall in Hk. unfold earliest_change. replace (Z.max (0 + 1) (oldest d)) with (oldest d) in Hk by (unfold oldest; lia).
  destruct (Z.eqb_spec (d_revision d) 0) as [E|E].
  - rewrite seqZ_nil in Hk by (unfold oldest, USER_DNS_CHANGE_RETENTION; lia). by apply fmap_nil_inv in Hk as ->.
  - rewrite seqZ_cons in Hk by (unfold oldest, USER_DNS_CHANGE_RETENTION; lia).
    destruct (sort_by_key fst _) as [|[r row] l]; [done|]. csimpl in Hk. simpl. by injection Hk as -> _.
Qed.
