(* ===== verification/AuthDnsOps.v ===== *)
(** * Account database: what each DNS request does

    The result of removing a value, deleting an RRset and changing a lifetime on
    every branch, as conditions on the tables before and after. *)

From S2P Require Import Prelude RelayModel RelayStore AuthModel AuthStore Auth AuthDns.

Arguments unchanged_mutation : simpl never.
Arguments allocate_user_dns_revision_tx : simpl never.
Arguments append_user_dns_change_tx : simpl never.
Arguments after_removal : simpl never.
Arguments delete_rrset : simpl never.

Lemma drop_name_gone n d m :
  is_Some (d_names d !! n) ->
  name_gone (fun k _ => String.eqb k n) d m = String.eqb m n.
Proof.
  intros [row Hn]. unfold name_gone. destruct (d_names d !! m) eqn:E; [done|].
  destruct (String.eqb_spec m n) as [->|]; congruence.
Qed.

Lemma rrset_count_zero n d : rrset_count n d = 0%nat <-> forall ty, d_rrsets d !! (n, ty) = None.
Proof.
  unfold rrset_count. rewrite length_zero_iff_nil. split.
  - intros Hnil ty. destruct (d_rrsets d !! (n, ty)) eqn:E; [|done]. exfalso.
    assert (Hin : ty ∈ List.filter (fun ty => is_some (d_rrsets d !! (n, ty))) variants).
    { rewrite list_elem_of_In, List.filter_In, <- list_elem_of_In. rewrite E. split; [apply variants_all|done]. }
    rewrite Hnil in Hin. by apply elem_of_nil in Hin.
  - intros Hall. induction (variants : list UserDnsRecordType) as [|ty l IH]; [done|]. simpl. by rewrite Hall.
Qed.

Lemma rdata_of_nil d n ty : length (rdata_of d n ty) = 0%nat <-> forall v, d_rdata d !! (n, ty, v) = None.
Proof.
  rewrite length_zero_iff_nil. split.
  - intros Hnil v. destruct (d_rdata d !! (n, ty, v)) eqn:E; [|done].
    assert (Hin : v ∈ rdata_of d n ty) by (by apply elem_of_rdata_of; rewrite E).
    rewrite Hnil in Hin. by apply elem_of_nil in Hin.
  - intros Hall. destruct (rdata_of d n ty) as [|v l] eqn:E; [done|].
    assert (Hin : v ∈ rdata_of d n ty) by (rewrite E; left). apply elem_of_rdata_of in Hin as [? Hv].
    by rewrite Hall in Hv.
Qed.

Lemma rdata_without_lookup n ty rd m t v :
  rdata_without n ty rd !! (m, t, v) = if decide ((m, t) = (n, ty)) then None else rd !! (m, t, v).
Proof.
  unfold rdata_without. rewrite map_lookup_filter. destruct (rd !! (m, t, v)); simpl; [|by destruct (decide _)].
  destruct (decide ((m, t) = (n, ty))); [rewrite option_guard_False; tauto|by rewrite option_guard_True].
Qed.

(** ** The tables after a removal *)

(** The values [gone] of a name are no longer there; an RRset that keeps a value
    has the new revision, an RRset that lost all of them is gone, and so is a
    name that has no RRset left. *)
Record removed (n : string) (ty : UserDnsRecordType) (gone : string -> Prop) (d d' : DnsTables) : Prop :=
  mkRemoved {
    rm_mutated : mutated n (Some ty) d d';
    rm_other_rrset ty' : ty' <> ty -> d_rrsets d' !! (n, ty') = d_rrsets d !! (n, ty');
    rm_other_rdata ty' v : ty' <> ty -> d_rdata d' !! (n, ty', v) = d_rdata d !! (n, ty', v);
    rm_values v : is_Some (d_rdata d' !! (n, ty, v)) <-> is_Some (d_rdata d !! (n, ty, v)) /\ ~ gone v;
    rm_filled : is_Some (d_rrsets d' !! (n, ty)) -> exists v, is_Some (d_rdata d' !! (n, ty, v));
    rm_owner : (exists ty', is_Some (d_rrsets d' !! (n, ty'))) -> d_names d' !! n = d_names d !! n;
    rm_revision row : d_rrsets d' !! (n, ty) = Some row ->
      rw_revision row = d_revision d + 1 /\
      exists old, d_rrsets d !! (n, ty) = Some old /\ rw_ttl row = rw_ttl old
  }.

(** Tables from which an RRset was deleted, and its name if that was the last. *)
Record emptied (n : string) (ty : UserDnsRecordType) (d d' : DnsTables) : Prop := mkEmptied {
  em_revision : d_revision d' = d_revision d + 1;
  em_names m : m <> n -> d_names d' !! m = d_names d !! m;
  em_name : (forall t, t <> ty -> d_rrsets d !! (n, t) = None) -> d_names d' !! n = None;
  em_name_kept t : t <> ty -> is_Some (d_rrsets d !! (n, t)) -> d_names d' !! n = d_names d !! n;
  em_rrsets m t : d_rrsets d' !! (m, t) = if decide ((m, t) = (n, ty)) then None else d_rrsets d !! (m, t);
  em_rdata m t v : d_rdata d' !! (m, t, v) =
    if decide ((m, t) = (n, ty)) then None else d_rdata d !! (m, t, v)
}.

Lemma drop_if_last n ty d rd row :
  dns_wf d -> d_names d !! n = Some row ->
  (forall m t v, (m, t) <> (n, ty) -> rd !! (m, t, v) = d_rdata d !! (m, t, v)) ->
  (forall v, rd !! (n, ty, v) = None) ->
  let d1 := mkDns (d_names d) (delete (n, ty) (d_rrsets d)) rd (d_revision d + 1) (d_changes d) in
  emptied n ty d (if (rrset_count n d1 =? 0)%nat then drop_name n d1 else d1).
Proof.
  intros Hwf Hn Hrd Hty d1. assert (Hn1 : is_Some (d_names d1 !! n)) by (simpl; by rewrite Hn).
  assert (Hlast : rrset_count n d1 = 0%nat <-> forall t, t <> ty -> d_rrsets d !! (n, t) = None).
  { rewrite rrset_count_zero. simpl. split.
    - intros Hall t Ht. specialize (Hall t). by rewrite lookup_delete_ne in Hall by congruence.
    - intros Hall t. destruct (decide (t = ty)) as [->|]; [by rewrite lookup_delete_eq|].
      rewrite lookup_delete_ne by congruence. by apply Hall. }
  destruct (Nat.eqb_spec (rrset_count n d1) 0) as [El|El].
  - rewrite Hlast in El. unfold drop_name. split.
    + done.
    + intros m Hm. rewrite delete_names_lookup, drop_name_gone, (proj2 (String.eqb_neq m n)); done.
    + intros _. rewrite delete_names_lookup, drop_name_gone, String.eqb_refl; done.
    + intros t Ht [? Hs]. by rewrite El in Hs.
    + intros m t. rewrite delete_names_rrset, drop_name_gone by done.
      destruct (String.eqb_spec m n) as [->|Hm]; simpl.
      * destruct (decide ((n, t) = (n, ty))) as [|Hne]; [done|]. symmetry. apply El. congruence.
      * rewrite lookup_delete_ne by congruence. by destruct (decide _); [congruence|].
    + intros m t v. rewrite delete_names_rdata, drop_name_gone by done.
      destruct (String.eqb_spec m n) as [->|Hm]; simpl.
      * destruct (decide ((n, t) = (n, ty))) as [|Hne]; [done|]. symmetry.
        destruct (d_rdata d !! (n, t, v)) eqn:E; [|done].
        destruct (dw_rdata d Hwf n t v) as [[? Hr] _]; [by rewrite E|]. rewrite El in Hr by congruence. done.
      * destruct (decide _); [congruence|]. apply Hrd. congruence.
  - split; simpl; try done.
    + intros Hall. by apply Hlast in Hall.
    + intros m t. destruct (decide ((m, t) = (n, ty))) as [->|]; [apply lookup_delete_eq|].
      by rewrite lookup_delete_ne by congruence.
    + intros m t v. destruct (decide ((m, t) = (n, ty))) as [[= -> ->]|]; [apply Hty|]. by apply Hrd.
Qed.

(** Once the change is told, that is a removal of every value of the RRset. *)
Lemma emptied_removed n ty (gone : string -> Prop) d d2 op cty now :
  dns_wf d -> d_revision d + 1 < 2 ^ 63 -> emptied n ty d d2 ->
  cty = Some ty \/ (cty = None /\ op = DeleteName) -> (forall v, is_Some (d_rdata d !! (n, ty, v)) -> gone v) ->
  removed n ty gone d
    (mkDns (d_names d2) (d_rrsets d2) (d_rdata d2) (d_revision d2)
       (with_change (d_revision d + 1) (told_row n cty op now) (d_changes d))).
Proof.
  intros Hwf Hroom [Hrev Hnm Hno Hkept Hrr Hrd] Hcty Hgone.
  assert (Hrr' : forall t, t <> ty -> d_rrsets d2 !! (n, t) = d_rrsets d !! (n, t)).
  { intros t Ht. rewrite Hrr. destruct (decide _); [congruence|done]. }
  assert (Hrd' : forall t v, t <> ty -> d_rdata d2 !! (n, t, v) = d_rdata d !! (n, t, v)).
  { intros t v Ht. rewrite Hrd. destruct (decide _); [congruence|done]. }
  assert (Hno_rr : d_rrsets d2 !! (n, ty) = None) by (rewrite Hrr; by rewrite decide_True).
  assert (Hno_rd : forall v, d_rdata d2 !! (n, ty, v) = None) by (intros v; rewrite Hrd; by rewrite decide_True).
  split; cbn [d_names d_rrsets d_rdata d_revision d_changes].
  - split; cbn [d_names d_rrsets d_rdata d_revision d_changes].
    + unfold agree_off. cbn. split_and!; [done|intros m t Hm; rewrite Hrr|intros m t v Hm; rewrite Hrd];
        (rewrite decide_False; [done|congruence]).
    + intros ? ty' [= <-] Hne. split; [by apply Hrr'|]. intros v. by apply Hrd'.
    + done.
    + done.
    + exists (told_row n cty op now). split_and!; [|apply told_row_ok|done].
      intros ty' [|[= <-]]; [done|]. split; [done|]. destruct Hcty as [->|[-> ->]]; [by left|by right].
    + intros t row Hrow. destruct (decide (t = ty)) as [->|Ht]; [congruence|].
      rewrite Hrr' in Hrow by done. destruct (dw_rrset d Hwf n t row Hrow) as (? & ? & ?).
      rewrite (Hkept t) by (done || by rewrite Hrow). split_and!; try done; lia.
    + intros t v Hv. destruct (decide (t = ty)) as [->|Ht]; [rewrite Hno_rd in Hv; by destruct Hv|].
      rewrite Hrd' in Hv by done. rewrite Hrr' by done. by apply (dw_rdata d Hwf).
    + intros Hs. destruct (decide (Exists (fun t => t <> ty /\ is_Some (d_rrsets d !! (n, t))) variants)) as [He|Hnone].
      * apply Exists_exists in He as (t & _ & Ht & Hr). exists t. by rewrite Hrr'.
      * rewrite Hno in Hs; [by destruct Hs|]. intros t Ht. apply eq_None_not_Some. intros Hr. apply Hnone.
        apply Exists_exists. exists t. split_and!; [apply variants_all|done|done].
  - done.
  - done.
  - intros v. rewrite Hno_rd. split; [by intros []|]. intros [Hv Hg]. by destruct Hg; apply Hgone.
  - rewrite Hno_rr. by intros [].
  - intros [t Ht]. destruct (decide (t = ty)) as [->|Hne]; [rewrite Hno_rr in Ht; by destruct Ht|].
    apply (Hkept t); [done|]. by rewrite <- Hrr'.
  - rewrite Hno_rr. done.
Qed.

(** An RRset that keeps a value gets the new revision. *)
Lemma trimmed_removed n ty value now d row w :
  dns_wf d -> d_revision d + 1 < 2 ^ 63 -> d_rrsets d !! (n, ty) = Some row ->
  is_Some (d_rdata d !! (n, ty, w)) -> w <> value ->
  removed n ty (eq value) d
    (mkDns (d_names d)
       (alter (fun row => mkRrsetRow (rw_ttl row) (d_revision d + 1) (rw_created_at row) now) (n, ty) (d_rrsets d))
       (delete (n, ty, value) (d_rdata d)) (d_revision d + 1)
       (with_change (d_revision d + 1) (told_row n (Some ty) UpsertRrset now) (d_changes d))).
Proof.
  intros Hwf Hroom Hrow Hw Hne. pose proof (dw_revision d Hwf) as Hrev.
  assert (Hrr : forall t, t <> ty -> alter (fun row => mkRrsetRow (rw_ttl row) (d_revision d + 1) (rw_created_at row) now)
    (n, ty) (d_rrsets d) !! (n, t) = d_rrsets d !! (n, t)).
  { intros t Ht. rewrite lookup_alter_ne by congruence. done. }
  destruct (dw_rrset d Hwf n ty row Hrow) as (Hname & Httl & _).
  split; cbn [d_names d_rrsets d_rdata d_revision d_changes].
  - split; cbn [d_names d_rrsets d_rdata d_revision d_changes].
    + unfold agree_off. cbn. split_and!; [done|intros m t Hm; rewrite lookup_alter_ne|intros m t v Hm; rewrite lookup_delete_ne];
        congruence.
    + intros ? ty' [= <-] Hne'. split; [by apply Hrr|]. intros v. by rewrite lookup_delete_ne by congruence.
    + done.
    + done.
    + exists (told_row n (Some ty) UpsertRrset now). split_and!; [|apply told_row_ok|done].
      intros ty' [|[= <-]]; [done|]. split; [done|by left].
    + intros t r Hr. destruct (decide (t = ty)) as [->|Ht].
      * rewrite lookup_alter_eq, Hrow in Hr. simplify_eq/=. split_and!; try done; lia.
      * rewrite Hrr in Hr by done. destruct (dw_rrset d Hwf n t r Hr) as (? & ? & ?). split_and!; try done; lia.
    + intros t v Hv. rewrite lookup_delete_is_Some in Hv. destruct Hv as [_ Hv].
      destruct (dw_rdata d Hwf n t v Hv) as [Hs Hc]. split; [|done].
      destruct (decide (t = ty)) as [->|Ht]; [by rewrite lookup_alter_eq, Hrow|by rewrite Hrr].
    + intros _. exists ty. by rewrite lookup_alter_eq, Hrow.
  - done.
  - intros t v Ht. by rewrite lookup_delete_ne by congruence.
  - intros v. rewrite lookup_delete_is_Some. split; intros [H1 H2]; split; try done; congruence.
  - intros _. exists w. rewrite lookup_delete_ne by congruence. done.
  - done.
  - intros r Hr. rewrite lookup_alter_eq, Hrow in Hr. simplify_eq/=. split; [done|]. by exists row.
Qed.

Definition owner_conflict : SnError := sn_err EcConflict "user DNS name is owned by another user".
Definition no_revision_left : SnError := db_err "allocate user DNS revision failed".

(** The name exists and belongs to somebody else. *)
Definition foreign_name (d : DnsTables) (owner n : string) : Prop :=
  exists row, d_names d !! n = Some row /\ nm_owner row <> owner.

Lemma no_name_no_rrset d n ty : dns_wf d -> d_names d !! n = None -> user_dns_rrset d n ty = None.
Proof.
  intros Hwf Hn. unfold user_dns_rrset. destruct (d_rrsets d !! (n, ty)) as [row|] eqn:E; [|done].
  destruct (dw_rrset d Hwf n ty row E) as ([? Hs] & _). congruence.
Qed.

Lemma unchanged_run d rr :
  dns_wf d -> unchanged_mutation rr d = SOk (mkMutation (d_revision d) false rr, d).
Proof.
  intros Hwf. unfold unchanged_mutation, current_user_dns_revision_tx. rewrite tthen_tget. simpl.
  by rewrite i64_to_u64_pos by apply (dw_revision d Hwf).
Qed.

(** What follows the deletion of a value that was there. *)
Lemma removal_tail n ty value now d row :
  dns_wf d -> d_revision d + 1 < 2 ^ 63 -> d_names d !! n = Some row ->
  is_Some (d_rdata d !! (n, ty, value)) ->
  exists d',
    (let! revision := allocate_user_dns_revision_tx in
     let! remaining := tget (fun d => length (rdata_of d n ty)) in
     let! (operation, change_type) := after_removal n ty (remaining =? 0)%nat revision now in
     append_user_dns_change_tx revision n change_type operation now ;!
     let! rrset := user_dns_rrset_tx n ty in
     tret (mkMutation revision true rrset))
      (mkDns (d_names d) (d_rrsets d) (delete (n, ty, value) (d_rdata d)) (d_revision d) (d_changes d)) =
    SOk (mkMutation (d_revision d + 1) true (user_dns_rrset d' n ty), d') /\
    removed n ty (eq value) d d'.
Proof.
  intros Hwf Hroom Hn Hv. pose proof (dw_revision d Hwf) as Hrev.
  destruct (dw_rdata d Hwf n ty value Hv) as [[r Hr] _].
  unfold tthen at 1, allocate_user_dns_revision_tx. cbn [d_revision]. rewrite (proj2 (Z.leb_gt _ _)) by lia.
  rewrite i64_to_u64_pos by lia. rewrite tthen_tget. cbn [d_names d_rrsets d_rdata d_changes].
  set (d1 := mkDns (d_names d) (d_rrsets d) (delete (n, ty, value) (d_rdata d)) (d_revision d + 1) (d_changes d)).
  destruct (Nat.eqb_spec (length (rdata_of d1 n ty)) 0) as [El|El].
  - assert (Hnone : forall v, v <> value -> d_rdata d !! (n, ty, v) = None).
    { intros v Hne. apply rdata_of_nil with (v := v) in El. simpl in El. by rewrite lookup_delete_ne in El by congruence. }
    unfold after_removal. rewrite tthen_assoc. unfold tthen at 1, delete_rrset. cbn [d_names d_rrsets d_rdata d_revision d_changes].
    rewrite tthen_assoc, tthen_tget.
    set (d3 := mkDns (d_names d1) (delete (n, ty) (d_rrsets d1)) (rdata_without n ty (d_rdata d1)) (d_revision d1)
      (d_changes d1)).
    assert (He : emptied n ty d (if (rrset_count n d3 =? 0)%nat then drop_name n d3 else d3)).
    { apply (drop_if_last n ty d (rdata_without n ty (d_rdata d1)) row Hwf Hn); intros; rewrite rdata_without_lookup.
      - rewrite decide_False by done. simpl. by rewrite lookup_delete_ne by congruence.
      - by rewrite decide_True. }
    assert (Hg : forall v, is_Some (d_rdata d !! (n, ty, v)) -> value = v).
    { intros v Hs. destruct (decide (v = value)) as [->|Hne]; [done|]. rewrite Hnone in Hs by done. by destruct Hs. }
    destruct (rrset_count n d3 =? 0)%nat.
    + rewrite tthen_assoc, tthen_tput, tthen_tret. unfold tthen at 1. rewrite (append_run d) by done.
      eexists. split; [reflexivity|]. apply emptied_removed; auto.
    + rewrite tthen_tret. unfold tthen at 1. rewrite (append_run d) by done.
      eexists. split; [reflexivity|]. apply (emptied_removed n ty (eq value) d _ DeleteRrset (Some ty) now); auto.
  - assert (Hex : exists w, is_Some (d_rdata d !! (n, ty, w)) /\ w <> value).
    { destruct (rdata_of d1 n ty) as [|w l] eqn:E; [done|].
      assert (Hin : w ∈ rdata_of d1 n ty) by (rewrite E; left). apply elem_of_rdata_of in Hin. simpl in Hin.
      rewrite lookup_delete_is_Some in Hin. destruct Hin. exists w. split; congruence. }
    destruct Hex as (w & Hw & Hne). unfold after_removal. rewrite tthen_assoc, tthen_tput, tthen_tret.
    unfold tthen at 1. rewrite (append_run d) by done. eexists. split; [reflexivity|].
    unfold update_rrset. cbn. rewrite u64_as_i64_small by lia. by eapply trimmed_removed.
Qed.

Lemma remove_run owner n ty value now d :
  dns_wf d ->
  match remove_user_dns_value_tx owner n ty value now d with
  | SErr e =>
      (e = owner_conflict /\ foreign_name d owner n) \/ (e = no_revision_left /\ 2 ^ 63 <= d_revision d + 1)
  | SOk (m, d') =>
      ~ foreign_name d owner n /\
      ((d_rdata d !! (n, ty, value) = None /\ d' = d /\
        m = mkMutation (d_revision d) false (user_dns_rrset d n ty)) \/
       (is_Some (d_rdata d !! (n, ty, value)) /\ removed n ty (eq value) d d' /\
        m = mkMutation (d_revision d + 1) true (user_dns_rrset d' n ty)))
  end.
Proof.
  intros Hwf. unfold remove_user_dns_value_tx. autorewrite with tx. unfold user_dns_owner_tx. autorewrite with tx.
  destruct (d_names d !! n) as [row|] eqn:En; cbn [fmap option_fmap option_map].
  2: { rewrite unchanged_run by done. split; [intros (? & ? & _); congruence|]. left. split_and!.
       - destruct (d_rdata d !! (n, ty, value)) eqn:E; [|done].
         destruct (dw_rdata d Hwf n ty value) as [[r Hr] _]; [by rewrite E|].
         destruct (dw_rrset d Hwf n ty r Hr) as ([? Hs] & _). congruence.
       - done.
       - by rewrite no_name_no_rrset. }
  unfold ensure_user_dns_owner. destruct (String.eqb_spec (nm_owner row) owner) as [Ho|Ho]; cbn [negb refuse_if]; autorewrite with tx.
  2: { left. split; [done|]. by exists row. }
  assert (Hnf : ~ foreign_name d owner n) by (intros (? & ? & Hne); simplify_eq).
  unfold tthen at 1, delete_rdata. destruct (d_rdata d !! (n, ty, value)) as [z|] eqn:Ev; cbn [is_some negb].
  2: { rewrite delete_id by done. unfold user_dns_rrset_tx. autorewrite with tx.
       replace (mkDns (d_names d) (d_rrsets d) (d_rdata d) (d_revision d) (d_changes d)) with d by (by destruct d).
       rewrite unchanged_run by done. split; [done|]. by left. }
  destruct (decide (d_revision d + 1 < 2 ^ 63)) as [Hroom|Hfull].
  2: { unfold tthen at 1. rewrite allocate_full by (simpl; lia). right. split; [done|lia]. }
  destruct (removal_tail n ty value now d row) as (d' & -> & Hrem); [done|done|done|by rewrite Ev|].
  split; [done|]. by right.
Qed.

(** *** Deleting an RRset *)

Lemma delete_rrset_run owner n ty now d :
  dns_wf d ->
  match delete_user_dns_rrset_tx owner n ty now d with
  | SErr e =>
      (e = owner_conflict /\ foreign_name d owner n) \/ (e = no_revision_left /\ 2 ^ 63 <= d_revision d + 1)
  | SOk (m, d') =>
      ~ foreign_name d owner n /\
      ((d_rrsets d !! (n, ty) = None /\ d' = d /\ m = mkMutation (d_revision d) false None) \/
       (is_Some (d_rrsets d !! (n, ty)) /\ removed n ty (fun _ => True) d d' /\
        d_rrsets d' !! (n, ty) = None /\ m = mkMutation (d_revision d + 1) true None))
  end.
Proof.
  intros Hwf. unfold delete_user_dns_rrset_tx. autorewrite with tx. unfold user_dns_owner_tx. autorewrite with tx.
  destruct (d_names d !! n) as [row|] eqn:En; cbn [fmap option_fmap option_map].
  2: { rewrite unchanged_run by done. split; [intros (? & ? & _); congruence|]. left. split_and!; [|done|done].
       destruct (d_rrsets d !! (n, ty)) as [r|] eqn:E; [|done].
       destruct (dw_rrset d Hwf n ty r E) as ([? Hs] & _). congruence. }
  unfold ensure_user_dns_owner.
  destruct (String.eqb_spec (nm_owner row) owner) as [Ho|Ho]; cbn [negb refuse_if]; autorewrite with tx.
  2: { left. split; [done|]. by exists row. }
  assert (Hnf : ~ foreign_name d owner n) by (intros (? & ? & Hne); simplify_eq).
  unfold tthen at 1, delete_rrset. destruct (d_rrsets d !! (n, ty)) as [r|] eqn:Er; cbn [is_some negb].
  2: { rewrite delete_id by done.
       replace (rdata_without n ty (d_rdata d)) with (d_rdata d).
       2: { apply map_eq. intros [[m t] v]. rewrite rdata_without_lookup. destruct (decide _) as [[= -> ->]|]; [|done].
            destruct (d_rdata d !! (n, ty, v)) eqn:E; [|done].
            destruct (dw_rdata d Hwf n ty v) as [[? Hs] _]; [by rewrite E|]. congruence. }
       replace (mkDns (d_names d) (d_rrsets d) (d_rdata d) (d_revision d) (d_changes d)) with d by (by destruct d).
       rewrite unchanged_run by done. split; [done|]. by left. }
  destruct (decide (d_revision d + 1 < 2 ^ 63)) as [Hroom|Hfull].
  2: { unfold tthen at 1. rewrite allocate_full by (simpl; lia). right. split; [done|lia]. }
  pose proof (dw_revision d Hwf) as Hrev.
  unfold tthen at 1, allocate_user_dns_revision_tx. cbn [d_revision]. rewrite (proj2 (Z.leb_gt _ _)) by lia.
  rewrite i64_to_u64_pos by lia. rewrite tthen_tget. cbn [d_names d_rrsets d_rdata d_changes].
  set (d3 := mkDns (d_names d) (delete (n, ty) (d_rrsets d)) (rdata_without n ty (d_rdata d)) (d_revision d + 1)
    (d_changes d)).
  assert (He : emptied n ty d (if (rrset_count n d3 =? 0)%nat then drop_name n d3 else d3)).
  { apply (drop_if_last n ty d (rdata_without n ty (d_rdata d)) row Hwf En); intros; rewrite rdata_without_lookup.
    - by rewrite decide_False.
    - by rewrite decide_True. }
  assert (Hrm : forall op cty, cty = Some ty \/ (cty = None /\ op = DeleteName) -> removed n ty (fun _ => True) d
    (let d2 := if (rrset_count n d3 =? 0)%nat then drop_name n d3 else d3 in
     mkDns (d_names d2) (d_rrsets d2) (d_rdata d2) (d_revision d2)
       (with_change (d_revision d + 1) (told_row n cty op now) (d_changes d)))).
  { intros op cty Hcty. by apply emptied_removed. }
  assert (Hnone : d_rrsets (if (rrset_count n d3 =? 0)%nat then drop_name n d3 else d3) !! (n, ty) = None).
  { rewrite (em_rrsets n ty d _ He). by rewrite decide_True. }
  destruct (rrset_count n d3 =? 0)%nat.
  - rewrite tthen_assoc, tthen_tput, tthen_tret. unfold tthen at 1. rewrite (append_run d) by done.
    split; [done|]. right. split_and!; [done|apply Hrm; by right|apply Hnone|done].
  - rewrite tthen_tret. unfold tthen at 1. rewrite (append_run d) by done.
    split; [done|]. right. split_and!; [done|apply (Hrm DeleteRrset (Some ty)); by left|apply Hnone|done].
Qed.

(** *** Changing a lifetime *)

Definition ttl_dns (n : string) (ty : UserDnsRecordType) (ttl now : Z) (d : DnsTables) : DnsTables :=
  mkDns (d_names d)
    (alter (fun row => mkRrsetRow ttl (d_revision d + 1) (rw_created_at row) now) (n, ty) (d_rrsets d))
    (d_rdata d) (d_revision d + 1)
    (with_change (d_revision d + 1) (told_row n (Some ty) UpsertRrset now) (d_changes d)).

Lemma ttl_mutated n ty ttl now d row :
  dns_wf d -> d_revision d + 1 < 2 ^ 63 -> USER_DNS_MIN_TTL <= ttl <= USER_DNS_MAX_TTL ->
  d_rrsets d !! (n, ty) = Some row -> mutated n (Some ty) d (ttl_dns n ty ttl now d).
Proof.
  intros Hwf Hroom Httl Hrow. pose proof (dw_revision d Hwf). destruct (dw_rrset d Hwf n ty row Hrow) as (Hname & _ & _).
  split; cbn [ttl_dns d_names d_rrsets d_rdata d_revision d_changes].
  - unfold agree_off. cbn. split_and!; [done|intros m t Hm; by rewrite lookup_alter_ne by congruence|done].
  - intros ? ty' [= <-] Hne. by rewrite lookup_alter_ne by congruence.
  - done.
  - done.
  - exists (told_row n (Some ty) UpsertRrset now). split_and!; [|apply told_row_ok|done].
    intros ty' [|[= <-]]; [done|]. split; [done|by left].
  - intros t r Hr. destruct (decide (t = ty)) as [->|Ht].
    + rewrite lookup_alter_eq, Hrow in Hr. simplify_eq/=. split_and!; try done; lia.
    + rewrite lookup_alter_ne in Hr by congruence. destruct (dw_rrset d Hwf n t r Hr) as (? & ? & ?).
      split_and!; try done; lia.
  - intros t v Hv. destruct (dw_rdata d Hwf n t v Hv) as [Hs Hc]. split; [|done].
    destruct (decide (t = ty)) as [->|Ht]; [by rewrite lookup_alter_eq, Hrow|by rewrite lookup_alter_ne by congruence].
  - intros _. exists ty. by rewrite lookup_alter_eq, Hrow.
Qed.

Lemma ttl_run owner n ty ttl now d :
  dns_wf d ->
  set_user_dns_rrset_ttl_tx owner n ty ttl now d =
    match d_names d !! n with
    | None => SErr (sn_err EcNotFound "user DNS name not found")
    | Some row =>
        if negb (String.eqb (nm_owner row) owner) then SErr owner_conflict
        else match d_rrsets d !! (n, ty) with
        | None => SErr (sn_err EcNotFound "user DNS RRset not found")
        | Some r =>
            if rw_ttl r =? ttl then SOk (mkMutation (d_revision d) false (user_dns_rrset d n ty), d)
            else if 2 ^ 63 <=? d_revision d + 1 then SErr no_revision_left
            else
              let d' := ttl_dns n ty ttl now d in
              SOk (mkMutation (d_revision d + 1) true (user_dns_rrset d' n ty), d')
        end
    end.
Proof.
  intros Hwf. unfold set_user_dns_rrset_ttl_tx. autorewrite with tx. unfold user_dns_owner_tx. autorewrite with tx.
  destruct (d_names d !! n) as [row|]; cbn [fmap option_fmap option_map some_or]; autorewrite with tx; [|done].
  unfold ensure_user_dns_owner. destruct (String.eqb (nm_owner row) owner); cbn [negb refuse_if]; autorewrite with tx; [|done].
  unfold user_dns_rrset_tx at 1. autorewrite with tx. unfold user_dns_rrset at 1.
  destruct (d_rrsets d !! (n, ty)) as [r|] eqn:Er; cbn [some_or]; autorewrite with tx; [|done].
  cbn [rr_ttl]. rewrite (read_ttl d n ty r Hwf Er). destruct (rw_ttl r =? ttl).
  { rewrite unchanged_run by done. unfold user_dns_rrset. by rewrite Er, (read_ttl d n ty r Hwf Er). }
  destruct (2 ^ 63 <=? d_revision d + 1) eqn:Ef; zbool.
  { unfold tthen at 1. by rewrite allocate_full. }
  pose proof (dw_revision d Hwf) as Hrev.
  unfold tthen at 1. rewrite allocate_run by done. rewrite tthen_tput. unfold tthen at 1.
  rewrite (append_run d) by done. unfold update_rrset. rewrite u64_as_i64_small by lia. done.
Qed.
