(* ===== verification/AuthTexts.v ===== *)
(** * Account database: the texts it stores

    The canonical forms of DNS names, values and e-mail addresses are accepted
    by the checks of the tables and are their own canonical forms, and what
    [LIKE '%.' || domain] matches when the domain has no wildcard. *)

From S2P Require Import Prelude IpAddr RelayModel RelayStore AuthModel AuthStore.

(** ** Characters *)

Lemma char_code_inj a b : char_code a = char_code b -> a = b.
Proof.
  unfold char_code. intros H. rewrite <- (Ascii.ascii_N_embedding a), <- (Ascii.ascii_N_embedding b). by f_equal.
Qed.

Lemma char_code_bound a : (char_code a < 256)%N.
Proof. apply Ascii.N_ascii_bounded. Qed.

Lemma string_forallb_app p s t : string_forallb p (s +:+ t) = string_forallb p s && string_forallb p t.
Proof. induction s as [|a s IH]; simpl; [done|]. by rewrite IH, andb_assoc. Qed.

(** ** Bytes and characters *)

Fixpoint bytes (s : string) : list Z :=
  match s with EmptyString => [] | String a s' => byte_at a :: bytes s' end.

Lemma utf8_chars_ascii s : is_ascii s = true -> utf8_chars s = bytes s.
Proof.
  unfold is_ascii. induction s as [|a s IH]; simpl; [done|]. intros [Ha Hs]%andb_true_iff.
  rewrite (proj2 (Z.ltb_lt _ _)) by lia. by rewrite IH.
Qed.

Lemma bytes_length s : length (bytes s) = String.length s.
Proof. induction s as [|a s IH]; simpl; [done|by rewrite IH]. Qed.

Lemma bytes_inj s t : bytes s = bytes t -> s = t.
Proof.
  revert t. induction s as [|a s IH]; intros [|b t]; simpl; try done.
  intros [= H1 H2]. f_equal; [|by apply IH]. apply char_code_inj. unfold byte_at in H1. lia.
Qed.

Lemma bytes_app s t : bytes (s +:+ t) = bytes s ++ bytes t.
Proof. induction s as [|a s IH]; simpl; [done|by rewrite IH]. Qed.

Lemma bytes_app_inv s l1 l2 :
  bytes s = l1 ++ l2 -> exists s1 s2, s = s1 +:+ s2 /\ bytes s1 = l1 /\ bytes s2 = l2.
Proof.
  revert s. induction l1 as [|x l1 IH]; intros s; simpl; [intros <-; by exists "", s|].
  destruct s as [|a s]; simpl; [done|]. intros [= Ha Hs]. destruct (IH s Hs) as (s1 & s2 & -> & <- & <-).
  exists (String a s1), s2. split_and!; [done| |done]. simpl. by rewrite Ha.
Qed.

Definition no_nul (s : string) : bool := string_forallb (fun a => negb (byte_at a =? 0)) s.

Lemma until_nul_id s : no_nul s = true -> until_nul s = s.
Proof.
  unfold no_nul. induction s as [|a s IH]; simpl; [done|]. intros [Ha%negb_true_iff Hs]%andb_true_iff.
  rewrite Ha. by rewrite IH.
Qed.

Lemma utf8_chars_nonempty a s : utf8_chars (String a s) <> [].
Proof. simpl. repeat case_match; done. Qed.

(** ** Names *)

(** The characters of a canonical DNS name. *)
Definition dns_name_char (a : Ascii.ascii) : bool := dns_label_char a || Ascii.eqb a ".".

Lemma split_on_nonempty c s : split_on c s <> [].
Proof. destruct s as [|a s]; simpl; [done|]. destruct (Ascii.eqb a c); [done|]. by destruct (split_on c s). Qed.

(** What holds of every part holds of the whole. *)
Lemma split_on_forallb c (p : Ascii.ascii -> bool) s :
  (forall l, l ∈ split_on c s -> string_forallb p l = true) ->
  string_forallb (fun a => p a || Ascii.eqb a c) s = true.
Proof.
  induction s as [|a s IH]; simpl; [done|]. destruct (Ascii.eqb a c) eqn:E.
  - intros H. rewrite orb_true_r. simpl. apply IH. intros l Hl. apply H. by right.
  - destruct (split_on c s) as [|q qs] eqn:Es; [by destruct (split_on_nonempty c s)|]. intros H.
    pose proof (H (String a q)) as Ha. simpl in Ha. rewrite orb_false_r.
    assert (Hq : p a && string_forallb p q = true) by (apply Ha; left).
    apply andb_true_iff in Hq as [-> Hq]. simpl. apply IH. intros l [->|Hl]%elem_of_cons; [done|]. apply H. by right.
Qed.

Lemma split_on_snoc c t : exists q l, split_on c (t +:+ String c "") = q :: l ++ [""].
Proof.
  induction t as [|a t (q & l & IH)]; simpl.
  - rewrite Ascii.eqb_refl. by exists "", [].
  - rewrite IH. destruct (Ascii.eqb a c); [by exists "", (q :: l)|by exists (String a q), l].
Qed.

Lemma split_on_last_nonempty c s :
  (forall l, l ∈ split_on c s -> l <> "") -> ~ exists t, s = t +:+ String c "".
Proof.
  intros H (t & ->). destruct (split_on_snoc c t) as (q & l & E). apply (H ""); [|done].
  rewrite E. right. apply elem_of_app. right. left.
Qed.

Lemma dns_label_ok l : dns_label_bad l = false -> l <> "" /\ string_forallb dns_label_char l = true.
Proof.
  unfold dns_label_bad. rewrite !orb_false_iff. intros ((((H1 & _) & _) & _) & H2%negb_false_iff).
  split; [by intros ->|done].
Qed.

Lemma dns_name_char_facts a :
  dns_name_char a = true ->
  char_to_lower a = a /\ (byte_at a <? 128) = true /\ is_whitespace a = false /\ (byte_at a =? 0) = false.
Proof. destruct a as [[] [] [] [] [] [] [] []]; vm_compute; done. Qed.

Lemma string_map_id f s : (forall a, char_in s a = true -> f a = a) -> string_map f s = s.
Proof.
  induction s as [|a s IH]; intros H; simpl; [done|]. rewrite H by (unfold char_in; simpl; by rewrite Ascii.eqb_refl).
  f_equal. apply IH. intros b Hb. apply H. unfold char_in in *. simpl. by rewrite Hb, orb_true_r.
Qed.

Lemma string_forallb_in p s a : string_forallb p s = true -> char_in s a = true -> p a = true.
Proof.
  unfold char_in. induction s as [|b s IH]; simpl; [done|]. intros [Hb Hs]%andb_true_iff.
  intros [->%Ascii.eqb_eq|?]%orb_true_iff; [done|by apply IH].
Qed.

Lemma trim_solid s : string_forallb (fun c => negb (is_whitespace c)) s = true -> trim s = s.
Proof.
  intros Hs. unfold trim. destruct s as [|a s]; [done|]. simpl in Hs. pose proof Hs as [Ha%negb_true_iff _]%andb_true_iff.
  simpl trim_start. rewrite Ha. by apply trim_end_solid.
Qed.

Lemma trim_end_char_last c s : ~ (exists t, s = t +:+ String c "") -> trim_end_char c s = s.
Proof.
  induction s as [|a s IH]; intros H; simpl; [done|]. rewrite IH.
  - destruct s as [|b s]; [|done]. destruct (Ascii.eqb a c) eqn:E; [|done]. apply Ascii.eqb_eq in E as ->.
    destruct H. by exists "".
  - intros (t & ->). apply H. by exists (String a t).
Qed.

(** ** Canonical names *)

(** The shape of what [canonical_user_dns_name] returns. *)
Definition dns_name_ok (n : string) : Prop :=
  (1 <= String.length n <= 253)%nat /\ existsb dns_label_bad (split_on "." n) = false.

Lemma dns_name_ok_chars n :
  dns_name_ok n -> string_forallb dns_name_char n = true /\ ~ exists t, n = t +:+ ".".
Proof.
  intros [_ Hl].
  assert (H : forall l, l ∈ split_on "." n -> l <> "" /\ string_forallb dns_label_char l = true).
  { intros l Hin. apply dns_label_ok. apply not_true_iff_false. intros Hb. apply not_true_iff_false in Hl. apply Hl.
    apply existsb_exists. exists l. split; [by apply list_elem_of_In|done]. }
  split; [apply split_on_forallb; intros l Hin; by apply H|]. apply split_on_last_nonempty. intros l Hin. by apply H.
Qed.

Lemma dns_name_ok_ascii n : dns_name_ok n ->
  is_ascii n = true /\ no_nul n = true /\ to_ascii_lowercase n = n /\ trim n = n /\ trim_end_char "." n = n.
Proof.
  intros Hn. destruct (dns_name_ok_chars n Hn) as [Hc Hlast]. split_and!.
  - eapply string_forallb_impl; [|exact Hc]. intros a Ha. by apply dns_name_char_facts in Ha as (_ & ? & _).
  - eapply string_forallb_impl; [|exact Hc]. intros a Ha. by apply dns_name_char_facts in Ha as (_ & _ & _ & ->).
  - apply string_map_id. intros a Ha. apply dns_name_char_facts. by eapply string_forallb_in.
  - apply trim_solid. eapply string_forallb_impl; [|exact Hc]. intros a Ha.
    by apply dns_name_char_facts in Ha as (_ & _ & -> & _).
  - by apply trim_end_char_last.
Qed.

Lemma string_map_length f s : String.length (string_map f s) = String.length s.
Proof. induction s as [|a s IH]; simpl; [done|by rewrite IH]. Qed.

Lemma canonical_dns_name_inv name n :
  canonical_user_dns_name name = SOk n -> dns_name_ok n.
Proof.
  unfold canonical_user_dns_name, refuse_if. set (s := trim_end_char "." (trim name)).
  destruct (is_empty s || _ || _) eqn:E1; simpl; [done|].
  apply orb_false_iff in E1 as [[E1 E2]%orb_false_iff _]. apply Nat.ltb_ge in E2.
  destruct (existsb dns_label_bad _) eqn:E3; simpl; [done|]. intros [= <-]. split; [|done].
  unfold to_ascii_lowercase. rewrite string_map_length. destruct s; simpl in *; [done|lia].
Qed.

Lemma canonical_dns_name_fixed n : dns_name_ok n -> canonical_user_dns_name n = SOk n.
Proof.
  intros Hn. destruct (dns_name_ok_ascii n Hn) as (Ha & _ & Hlow & Ht & Hd). destruct Hn as [Hlen Hl].
  unfold canonical_user_dns_name, refuse_if. rewrite Ht, Hd, Ha, Hlow, Hl.
  assert (is_empty n = false) as -> by (destruct n; simpl in *; [lia|done]).
  assert ((253 <? String.length n)%nat = false) as -> by (apply Nat.ltb_ge; lia). done.
Qed.

(** ** [LIKE] *)

Definition suffix_like (p s : list Z) : Prop := exists s1 s2, s = s1 ++ s2 /\ like_chars p s2 = true.

Lemma like_percent p s : like_chars (37 :: p) s = true <-> suffix_like p s.
Proof.
  unfold suffix_like. simpl. induction s as [|d s IH].
  - rewrite orb_false_r. split; [intros H; by exists [], []|].
    intros (s1 & s2 & Hs & H). symmetry in Hs. by apply app_eq_nil in Hs as [_ ->].
  - rewrite orb_true_iff, IH. split.
    + intros [H|(s1 & s2 & -> & H)]; [by exists [], (d :: s)|by exists (d :: s1), s2].
    + intros ([|c s1] & s2 & Hs & H); simpl in Hs; simplify_eq; [by left|right; by exists s1, s2].
Qed.

(** A pattern without wildcards matches itself, up to the case of letters. *)
Definition plain_pattern (p : list Z) : Prop := Forall (fun c => c <> 37 /\ c <> 95) p.

Lemma like_plain p s : plain_pattern p -> (like_chars p s = true <-> fold_case <$> p = fold_case <$> s).
Proof.
  intros Hp. revert s. induction Hp as [|c p [H1 H2] Hp IH]; intros s; simpl.
  - destruct s; naive_solver.
  - rewrite (proj2 (Z.eqb_neq c 37)) by done. destruct s as [|d s]; simpl; [done|].
    rewrite (proj2 (Z.eqb_neq c 95)) by done. cbn [orb]. rewrite andb_true_iff, IH, Z.eqb_eq. split.
    + intros [-> Hs]. by f_equal.
    + intros Hs. injection Hs as H3 H4. done.
Qed.

Lemma like_single_dot s : like_chars [46] s = true -> s = [46].
Proof.
  rewrite like_plain by (repeat constructor; lia). destruct s as [|d [|]]; simpl; try done.
  unfold fold_case. simpl. intros [= H]. f_equal. destruct (_ && _) eqn:E; [|done].
  apply andb_true_iff in E as [E%Z.leb_le _]. lia.
Qed.

Lemma sql_length_name n : dns_name_ok n -> sql_length n = String.length n.
Proof.
  intros Hn. destruct (dns_name_ok_ascii n Hn) as (Ha & Hz & _). unfold sql_length.
  by rewrite until_nul_id, utf8_chars_ascii, bytes_length.
Qed.

Lemma dns_name_check_ok n : dns_name_ok n -> dns_name_check n = true.
Proof.
  intros Hn. destruct (dns_name_ok_ascii n Hn) as (Ha & Hz & Hlow & _ & _).
  destruct (dns_name_ok_chars n Hn) as [_ Hlast]. destruct Hn as [Hlen _].
  unfold dns_name_check, sql_length, sql_like. rewrite Hlow, String.eqb_refl, (until_nul_id n), (utf8_chars_ascii n) by done.
  rewrite bytes_length. rewrite !andb_true_iff, !Nat.leb_le. split_and!; try done; try lia.
  apply negb_true_iff, not_true_iff_false. change (utf8_chars (until_nul "%.")) with [37; 46].
  rewrite like_percent. intros (s1 & s2 & Hs & Hl). apply like_single_dot in Hl as ->. apply Hlast.
  apply bytes_app_inv in Hs as (t1 & t2 & -> & _ & Ht2). exists t1. f_equal. by apply bytes_inj.
Qed.

(** *** Names under a domain *)

Lemma fold_case_lower a : char_to_lower a = a -> fold_case (byte_at a) = byte_at a.
Proof. destruct a as [[] [] [] [] [] [] [] []]; vm_compute; done. Qed.

Lemma fold_bytes_lower s : to_ascii_lowercase s = s -> fold_case <$> bytes s = bytes s.
Proof.
  unfold to_ascii_lowercase. induction s as [|a s IH]; simpl string_map; [done|]. intros [= Ha Hs].
  cbn [bytes]. by rewrite fmap_cons, fold_case_lower, IH.
Qed.

Lemma bytes_no_wildcard s :
  string_forallb dns_name_char s = true -> string_contains "_" s = false -> plain_pattern (bytes s).
Proof.
  induction s as [|a s IH]; simpl; intros Hc Hu; [constructor|].
  apply andb_true_iff in Hc as [Ha Hc]. apply orb_false_iff in Hu as [Hu1 Hu2]. constructor; [|by apply IH].
  clear -Ha Hu1. destruct a as [[] [] [] [] [] [] [] []]; vm_compute in *; done.
Qed.

(** A name is in the zone of a domain: it is the domain, or a name below it. *)
Definition in_zone (n dom : string) : Prop := n = dom \/ exists t, n = t +:+ "." +:+ dom.

(** A domain in the form of a DNS name, without an underscore. *)
Definition plain_domain (dom : string) : Prop := dns_name_ok dom /\ string_contains "_" dom = false.

(** Without an underscore in the domain, [LIKE] finds the names of its zone. *)
Lemma under_domain_plain n dom :
  dns_name_ok n -> plain_domain dom -> under_domain n dom = true <-> in_zone n dom.
Proof.
  unfold in_zone. intros Hn [Hd Hu]. destruct (dns_name_ok_ascii n Hn) as (Ha & Hz & Hlow & _ & _).
  destruct (dns_name_ok_ascii dom Hd) as (Ha' & Hz' & Hlow' & _ & _).
  destruct (dns_name_ok_chars dom Hd) as [Hc' _].
  unfold under_domain, sql_like. rewrite orb_true_iff, String.eqb_eq.
  rewrite (until_nul_id n), (utf8_chars_ascii n) by done.
  assert (Hp : utf8_chars (until_nul ("%." +:+ dom)) = 37 :: 46 :: bytes dom).
  { simpl. by rewrite until_nul_id, utf8_chars_ascii. }
  rewrite Hp, like_percent. unfold suffix_like.
  assert (Hplain : plain_pattern (46 :: bytes dom)) by (constructor; [lia|by apply bytes_no_wildcard]).
  apply or_iff_compat_l. split.
  - intros (s1 & s2 & Hs & Hl). apply like_plain in Hl; [|done].
    apply bytes_app_inv in Hs as (t1 & t2 & Ht & <- & <-). exists t1. rewrite Ht. f_equal. apply bytes_inj.
    simpl in Hl. rewrite fold_bytes_lower in Hl by done.
    rewrite (fold_bytes_lower t2) in Hl.
    + done.
    + rewrite Ht in Hlow. unfold to_ascii_lowercase in *. clear -Hlow.
      revert t2 Hlow. induction t1 as [|a t1 IH]; simpl; intros t2; [done|]. intros [= _ H]. by apply IH.
  - intros (t & ->). exists (bytes t), (bytes ("." +:+ dom)). rewrite bytes_app. split; [done|].
    apply like_plain; done.
Qed.

(** An underscore of the domain stands for any character. *)
Lemma like_pointwise p s :
  Forall2 (fun c d => c <> 37 /\ (c = 95 \/ c = d)) p s -> like_chars p s = true.
Proof.
  induction 1 as [|c d p s [Hp Hc] _ IH]; [done|]. cbn [like_chars]. rewrite (proj2 (Z.eqb_neq c 37)) by done.
  rewrite IH, andb_true_r. destruct Hc as [->| ->]; [done|]. by rewrite Z.eqb_refl, orb_true_r.
Qed.

Lemma like_same s r r' :
  string_forallb dns_name_char s = true ->
  Forall2 (fun c d => c <> 37 /\ (c = 95 \/ c = d)) r r' ->
  Forall2 (fun c d => c <> 37 /\ (c = 95 \/ c = d)) (bytes s ++ r) (bytes s ++ r').
Proof.
  intros Hs Hr. induction s as [|a s IH]; [done|]. simpl in Hs. apply andb_true_iff in Hs as [Ha Hs]. simpl.
  constructor; [|by apply IH]. split; [|by right]. clear -Ha. destruct a as [[] [] [] [] [] [] [] []]; vm_compute in *; done.
Qed.

Lemma under_domain_wildcard t l c r :
  dns_name_ok (t +:+ "." +:+ l +:+ String c r) -> dns_name_ok (l +:+ String "_" r) ->
  under_domain (t +:+ "." +:+ l +:+ String c r) (l +:+ String "_" r) = true.
Proof.
  intros Hn Hd. destruct (dns_name_ok_ascii _ Hn) as (Ha & Hz & _). destruct (dns_name_ok_ascii _ Hd) as (Ha' & Hz' & _).
  destruct (dns_name_ok_chars _ Hd) as [Hc _]. rewrite string_forallb_app in Hc. apply andb_true_iff in Hc as [Hl Hr].
  simpl in Hr. unfold under_domain, sql_like. apply orb_true_iff. right.
  rewrite (until_nul_id (t +:+ _)), (utf8_chars_ascii (t +:+ _)) by done.
  assert (utf8_chars (until_nul ("%." +:+ l +:+ String "_" r)) = 37 :: 46 :: bytes (l +:+ String "_" r)) as ->.
  { change ("%." +:+ l +:+ String "_" r) with (String "%" (String "." (l +:+ String "_" r))).
    cbn [until_nul]. simpl. by rewrite until_nul_id, utf8_chars_ascii. }
  apply like_percent. exists (bytes t), (bytes ("." +:+ l +:+ String c r)). split; [by rewrite bytes_app|].
  apply like_pointwise. change ("." +:+ l +:+ String c r) with (String "." (l +:+ String c r)). cbn [bytes].
  constructor; [split; [lia|by right]|]. rewrite !bytes_app. apply like_same; [done|]. cbn [bytes].
  constructor; [split; [done|by left]|]. rewrite <- (app_nil_r (bytes r)). by apply like_same.
Qed.

Lemma wildcard_out_of_zone t l c r :
  c <> "_"%char -> ~ in_zone (t +:+ "." +:+ l +:+ String c r) (l +:+ String "_" r).
Proof.
  intros Hc [Hn|[t' Hn]]; apply (f_equal bytes) in Hn; rewrite !bytes_app in Hn.
  - apply (f_equal length) in Hn. rewrite !length_app in Hn. simpl in Hn. lia.
  - apply app_inj_2 in Hn as [_ Hn]; [|simpl; rewrite !length_app; simpl; lia].
    apply (inj (app _)) in Hn. apply (inj (app _)) in Hn. simpl in Hn. injection Hn as Hb.
    apply Hc. clear -Hb. destruct c as [[] [] [] [] [] [] [] []]; vm_compute in Hb; done.
Qed.

(** ** Values *)

Lemma rdata_check_iff v :
  rdata_check v = true <->
  (exists a s, v = String a s /\ byte_at a <> 0) /\ (String.length v <= USER_DNS_MAX_TXT_BYTES)%nat.
Proof.
  unfold rdata_check, sql_length. rewrite andb_true_iff, !Nat.leb_le. apply and_iff_compat_r.
  destruct v as [|a s]; simpl; [split; [lia|intros (? & ? & ? & _); done]|].
  destruct (byte_at a =? 0) eqn:E; zbool.
  - split; [simpl; lia|]. intros (? & ? & ? & ?). simplify_eq.
  - split; [intros _; by exists a, s|]. intros _.
    pose proof (utf8_chars_nonempty a (until_nul s)) as H. destruct (utf8_chars _); simpl; [done|lia].
Qed.

(** The text starts with a NUL. *)
Definition nul_first (s : string) : bool := match s with String a _ => byte_at a =? 0 | _ => false end.

(** *** Addresses that were parsed *)

Lemma to_digit_range radix a d : to_digit radix a = Some d -> 0 <= d < radix.
Proof.
  unfold to_digit, is_ascii_digit, is_ascii_lower, is_ascii_upper, char_between.
  repeat match goal with |- context[if ?b then _ else _] => destruct b eqn:? end; intros [= <-]; zbool;
    rewrite ?andb_true_iff, ?N.leb_le in *; lia.
Qed.

Lemma read_digits_range radix s ds r : read_digits radix s = (ds, r) -> Forall (fun d => 0 <= d) ds.
Proof.
  revert ds r. induction s as [|a s IH]; intros ds r; simpl; [intros [= <- <-]; constructor|].
  destruct (to_digit radix a) as [d|] eqn:E; [|intros [= <- <-]; constructor].
  destruct (read_digits radix s) as [ds' r'] eqn:E'. intros [= <- <-].
  constructor; [by apply to_digit_range in E as []|by eapply IH].
Qed.

Lemma digits_value_pos radix ds : 0 <= radix -> Forall (fun d => 0 <= d) ds -> 0 <= digits_value radix ds.
Proof.
  intros Hr Hds. unfold digits_value. assert (H : forall acc, 0 <= acc -> 0 <= fold_left (fun v d => v * radix + d) ds acc).
  { induction Hds as [|d ds Hd Hds IH]; intros acc Hacc; simpl; [done|]. apply IH. nia. }
  by apply H.
Qed.

Lemma read_number_range radix w z limit s n r :
  0 <= radix -> read_number radix w z limit s = Some (n, r) -> 0 <= n <= limit.
Proof.
  intros Hr. unfold read_number. destruct (read_digits radix s) as [ds r'] eqn:E.
  apply read_digits_range in E. destruct (w <? length ds)%nat; [done|]. destruct ds as [|d ds]; [done|].
  destruct (_ && _ && _); [done|]. destruct (limit <? _) eqn:El; [done|]. zbool. intros [= <- <-].
  split; [by apply digits_value_pos|done].
Qed.

Lemma read_separator_inv {A} sep i (inner : string -> option (A * string)) s x r :
  read_separator sep i inner s = Some (x, r) -> exists s', inner s' = Some (x, r).
Proof. destruct i; simpl; [eauto|]. destruct (read_given_char sep s); [eauto|done]. Qed.

Lemma read_octets_wf n i s os r :
  read_octets n i s = Some (os, r) -> length os = n /\ Forall (fun o => 0 <= o < 256) os.
Proof.
  revert i s os r. induction n as [|n IH]; intros i s os r; simpl; [intros [= <- <-]; split; [done|constructor]|].
  destruct (read_separator _ _ _ _) as [[o s']|] eqn:E; [|done].
  destruct (read_octets n (S i) s') as [[os' r']|] eqn:E'; [|done]. intros [= <- <-].
  apply read_separator_inv in E as (s'' & E). apply read_number_range in E; [|lia].
  apply IH in E' as [Hl Hf]. split; [simpl; by rewrite Hl|constructor; [lia|done]].
Qed.

Lemma read_groups_wf n i s gs b r :
  read_groups n i s = (gs, b, r) -> (length gs <= n)%nat /\ Forall (fun g => 0 <= g < 65536) gs.
Proof.
  revert i s gs b r. induction n as [|n IH]; intros i s gs b r; [simpl; intros [= <- <- <-]; split; [simpl; lia|constructor]|].
  cbn [read_groups]. destruct (if (1 <=? n)%nat then _ else None) as [[os r']|] eqn:E.
  - destruct (1 <=? n)%nat eqn:El; [|done]. apply Nat.leb_le in El.
    apply read_separator_inv in E as (s' & E). apply read_octets_wf in E as [Hlen Hf].
    destruct os as [|x [|y [|z [|t [|]]]]]; try done. intros [= <- <- <-].
    rewrite !Forall_cons in Hf. split; [simpl; lia|]. unfold segment_of.
    repeat constructor; try lia.
  - destruct (read_separator char_colon i read_group s) as [[g s']|] eqn:E2;
      [|intros [= <- <- <-]; split; [simpl; lia|constructor]].
    apply read_separator_inv in E2 as (s'' & E2). apply read_number_range in E2; [|lia].
    destruct (read_groups n (S i) s') as [[gs' b'] r'] eqn:E3. intros [= <- <- <-].
    apply IH in E3 as [Hl Hf]. split; [simpl; lia|constructor; [lia|done]].
Qed.

Lemma parse_ipv4_wf s os : parse_ipv4 s = Some os -> ip_wf (V4 os).
Proof.
  unfold parse_ipv4, read_ipv4_addr. destruct (read_octets 4 0 s) as [[os' [|]]|] eqn:E; [|done|done].
  intros [= <-]. by apply read_octets_wf in E.
Qed.

Lemma parse_ipv6_wf s ss : parse_ipv6 s = Some ss -> ip_wf (V6 ss).
Proof.
  unfold parse_ipv6, read_ipv6_addr. destruct (read_groups 8 0 s) as [[head b] r] eqn:E.
  apply read_groups_wf in E as [Hl Hf]. destruct (Nat.eqb_spec (length head) 8) as [E8|E8].
  { destruct r; [|done]. intros [= <-]. done. }
  destruct b; [done|]. destruct (read_given_char char_colon r) as [r1|]; [|done].
  destruct (read_given_char char_colon r1) as [r2|]; [|done].
  destruct (read_groups (8 - (length head + 1)) 0 r2) as [[tail b'] r3] eqn:E2.
  apply read_groups_wf in E2 as [Hl2 Hf2]. destruct r3; [|done]. intros [= <-]. split.
  - rewrite !length_app, length_replicate. lia.
  - rewrite !Forall_app. split_and!; [done| |done]. apply Forall_replicate. lia.
Qed.

Lemma parse_ipv4_fmt os : ip_wf (V4 os) -> parse_ipv4 (fmt_ipv4 os) = Some os.
Proof.
  intros Hwf. pose proof (ip_round_trip (V4 os) Hwf) as H. unfold parse_ip in H. simpl in H. unfold parse_ipv4.
  destruct (read_ipv4_addr (fmt_ipv4 os)) as [[os' [|]]|]; [by simplify_eq|done|].
  by destruct (read_ipv6_addr _) as [[? [|]]|].
Qed.

Lemma parse_ipv6_fmt ss : ip_wf (V6 ss) -> parse_ipv6 (fmt_ipv6 ss) = Some ss.
Proof. intros Hwf. unfold parse_ipv6. by rewrite read_ipv6_fmt. Qed.

(** A text that parses does not start with a NUL. *)
Lemma to_digit_nul radix : to_digit radix (Ascii.ascii_of_N 0) = None.
Proof. unfold to_digit. simpl. by rewrite Z.ltb_irrefl. Qed.

Lemma read_octets_nul n s : read_octets (S n) 0 (String (Ascii.ascii_of_N 0) s) = None.
Proof. reflexivity. Qed.

Lemma nul_char a : byte_at a = 0 -> a = Ascii.ascii_of_N 0.
Proof. intros H. apply char_code_inj. unfold byte_at in H. change (char_code (Ascii.ascii_of_N 0)) with 0%N. lia. Qed.

Lemma parsed_first_char v :
  is_Some (parse_ipv4 v) \/ is_Some (parse_ipv6 v) -> exists a s, v = String a s /\ byte_at a <> 0.
Proof.
  destruct v as [|a s].
  - intros [[? H]|[? H]]; by vm_compute in H.
  - intros H. exists a, s. split; [done|]. intros ->%nul_char. destruct H as [[? H]|[? H]]; by cbn in H.
Qed.

(** *** Lengths *)

Lemma fmt_radix_length fuel radix n acc :
  (String.length (fmt_radix fuel radix n acc) <= fuel + String.length acc)%nat.
Proof.
  revert n acc. induction fuel as [|fuel IH]; intros n acc; simpl; [lia|].
  case_match; simpl; [lia|]. etrans; [apply IH|]. simpl. lia.
Qed.

Lemma concat_length sep k l :
  Forall (fun t => (String.length t <= k)%nat) l ->
  (String.length (String.concat sep l) <= length l * (k + String.length sep))%nat.
Proof.
  induction 1 as [|t l Ht Hl IH]; [simpl; lia|]. destruct l as [|t2 l]; [simpl; lia|].
  rewrite concat_cons_cons, !append_length. simpl length in *. lia.
Qed.

Lemma fmt_ipv4_length os : (String.length (fmt_ipv4 os) <= length os * 4)%nat.
Proof.
  unfold fmt_ipv4. etrans; [apply (concat_length "." 3)|rewrite length_fmap; simpl; lia].
  apply Forall_fmap, Forall_true. intros o. apply (fmt_radix_length 3 10 o "").
Qed.

Lemma fmt_subslice_length ss : (String.length (fmt_subslice ss) <= length ss * 5)%nat.
Proof.
  unfold fmt_subslice. etrans; [apply (concat_length ":" 4)|rewrite length_fmap; simpl; lia].
  apply Forall_fmap, Forall_true. intros o. apply (fmt_radix_length 4 16 o "").
Qed.

Lemma fmt_ipv6_length ss : length ss = 8%nat -> (String.length (fmt_ipv6 ss) <= 100)%nat.
Proof.
  intros Hl. unfold fmt_ipv6. destruct (to_ipv4_mapped ss) as [os|] eqn:E.
  - rewrite append_length. pose proof (fmt_ipv4_length os).
    assert (length os <= 4)%nat.
    { unfold to_ipv4_mapped, low_octets in E. repeat case_match; simplify_eq; simpl; lia. }
    simpl. lia.
  - destruct (zeroes ss) as [start len]. destruct (1 <? len)%nat.
    + rewrite !append_length. pose proof (fmt_subslice_length (take start ss)).
      pose proof (fmt_subslice_length (drop (start + len) ss)). rewrite length_take in *. rewrite length_drop in *. simpl. lia.
    + pose proof (fmt_subslice_length ss). lia.
Qed.

(** *** Canonical values *)

Definition solid (s : string) : bool := string_forallb (fun c => negb (is_whitespace c)) s.

Lemma solid_app s t : solid (s +:+ t) = solid s && solid t.
Proof. apply string_forallb_app. Qed.

Lemma solid_concat sep l : solid sep = true -> Forall (fun t => solid t = true) l -> solid (String.concat sep l) = true.
Proof.
  intros Hs. induction 1 as [|t l Ht Hl IH]; [done|]. destruct l as [|t2 l]; [done|].
  by rewrite concat_cons_cons, !solid_app, Ht, Hs, IH.
Qed.

Lemma digit_char_solid d : 0 <= d < 16 -> is_whitespace (digit_char d) = false.
Proof.
  intros Hd. assert (Hc : d ∈ seqZ 0 16) by (apply elem_of_seqZ; lia).
  change (seqZ 0 16) with [0; 1; 2; 3; 4; 5; 6; 7; 8; 9; 10; 11; 12; 13; 14; 15] in Hc.
  repeat (apply elem_of_cons in Hc as [->|Hc]; [done|]). by apply elem_of_nil in Hc.
Qed.

Lemma solid_fmt_radix fuel radix n acc :
  0 < radix <= 16 -> solid acc = true -> solid (fmt_radix fuel radix n acc) = true.
Proof.
  intros Hr. revert n acc. induction fuel as [|fuel IH]; intros n acc Ha; simpl; [done|].
  assert (Hd : solid (String (digit_char (n mod radix)) acc) = true).
  { unfold solid. simpl. rewrite digit_char_solid; [done|]. pose proof (Z.mod_pos_bound n radix). lia. }
  destruct (n <? radix); [done|by apply IH].
Qed.

Lemma solid_fmt_ipv4 os : solid (fmt_ipv4 os) = true.
Proof. apply solid_concat; [done|]. apply Forall_fmap, Forall_true. intros o. by apply solid_fmt_radix. Qed.

Lemma solid_fmt_subslice ss : solid (fmt_subslice ss) = true.
Proof. apply solid_concat; [done|]. apply Forall_fmap, Forall_true. intros o. by apply solid_fmt_radix. Qed.

Lemma solid_fmt_ipv6 ss : solid (fmt_ipv6 ss) = true.
Proof.
  unfold fmt_ipv6. destruct (to_ipv4_mapped ss); [by rewrite solid_app, solid_fmt_ipv4|].
  destruct (zeroes ss). destruct (1 <? n0)%nat; by rewrite ?solid_app, !solid_fmt_subslice.
Qed.

Lemma canonical_rdata_cases ty value v :
  canonical_user_dns_rdata ty value = SOk v ->
  match ty with
  | DnsA => exists os, ip_wf (V4 os) /\ v = fmt_ipv4 os
  | DnsAaaa => exists ss, ip_wf (V6 ss) /\ v = fmt_ipv6 ss
  | DnsTxt => v = value /\ v <> "" /\ (String.length v <= USER_DNS_MAX_TXT_BYTES)%nat
  end.
Proof.
  destruct ty; cbn [canonical_user_dns_rdata].
  - destruct (parse_ipv4 (trim value)) as [os|] eqn:E; simpl; [|done]. intros [= <-].
    apply parse_ipv4_wf in E. eauto.
  - destruct (parse_ipv6 (trim value)) as [ss|] eqn:E; simpl; [|done]. intros [= <-].
    apply parse_ipv6_wf in E. eauto.
  - unfold refuse_if. destruct (is_empty value) eqn:E1; cbn [sbind]; [done|].
    destruct (_ <? _)%nat eqn:E2; cbn [sbind]; [done|]. intros [= <-]. apply Nat.ltb_ge in E2.
    split_and!; [done|by destruct value|done].
Qed.

Lemma canonical_rdata_fixed ty value v :
  canonical_user_dns_rdata ty value = SOk v -> canonical_user_dns_rdata ty v = SOk v.
Proof.
  intros H. pose proof (canonical_rdata_cases ty value v H) as Hc. destruct ty; cbn [canonical_user_dns_rdata].
  - destruct Hc as (os & Hwf & ->). rewrite trim_solid by apply solid_fmt_ipv4. by rewrite parse_ipv4_fmt.
  - destruct Hc as (ss & Hwf & ->). rewrite trim_solid by apply solid_fmt_ipv6. by rewrite parse_ipv6_fmt.
  - destruct Hc as (-> & _ & _). exact H.
Qed.

(** Every canonical value but a TXT that starts with a NUL is stored. *)
Lemma canonical_rdata_check ty value v :
  canonical_user_dns_rdata ty value = SOk v -> rdata_check v = negb (nul_first v).
Proof.
  intros H. pose proof (canonical_rdata_cases ty value v H) as Hc. apply eq_bool_prop_intro.
  rewrite !Is_true_true, rdata_check_iff, negb_true_iff.
  assert (Hlen : (String.length v <= USER_DNS_MAX_TXT_BYTES)%nat).
  { destruct ty; [destruct Hc as (os & [Hl _] & ->)|destruct Hc as (ss & [Hl _] & ->)|by destruct Hc as (_ & _ & ?)].
    - pose proof (fmt_ipv4_length os). unfold USER_DNS_MAX_TXT_BYTES. lia.
    - pose proof (fmt_ipv6_length ss Hl). unfold USER_DNS_MAX_TXT_BYTES. lia. }
  assert (Hne : v <> "").
  { destruct ty; [destruct Hc as (os & Hwf & ->)|destruct Hc as (ss & Hwf & ->)|by destruct Hc as (_ & ? & _)].
    - destruct (parsed_first_char (fmt_ipv4 os)) as (a & s & -> & _); [left; by rewrite parse_ipv4_fmt|done].
    - destruct (parsed_first_char (fmt_ipv6 ss)) as (a & s & -> & _); [right; by rewrite parse_ipv6_fmt|done]. }
  destruct v as [|a s]; [done|]. unfold nul_first. rewrite Z.eqb_neq. split.
  - intros [(? & ? & [= <- <-] & ?) _]. done.
  - intros Ha. split; [by exists a, s|done].
Qed.

(** Only a TXT can start with a NUL. *)
Lemma nul_first_txt ty value v :
  canonical_user_dns_rdata ty value = SOk v -> nul_first v = true -> ty = DnsTxt /\ v = value.
Proof.
  intros H Hn. pose proof (canonical_rdata_cases ty value v H) as Hc. destruct ty.
  - destruct Hc as (os & Hwf & ->). destruct (parsed_first_char (fmt_ipv4 os)) as (a & s & E & Ha);
      [left; by rewrite parse_ipv4_fmt|]. rewrite E in Hn. simpl in Hn. by apply Z.eqb_eq in Hn.
  - destruct Hc as (ss & Hwf & ->). destruct (parsed_first_char (fmt_ipv6 ss)) as (a & s & E & Ha);
      [right; by rewrite parse_ipv6_fmt|]. rewrite E in Hn. simpl in Hn. by apply Z.eqb_eq in Hn.
  - by destruct Hc as (-> & _ & _).
Qed.
