(* ===== verification/AuthInv.v ===== *)
(** * Account database: the invariant of the tables

    Accounts and credentials come in pairs, an e-mail address and an activation
    code belong to one account, a domain has one active binding and the cached
    domain of a user is one of them, every row refers to a user that exists, the
    DNS names are canonical and a deleted user owns none.  Every transaction keeps it. *)

From S2P Require Import Prelude RelayModel RelayStore AuthModel AuthStore Auth AuthDns AuthDnsOps AuthTexts.

(** ** The invariant *)

(** What the invariant of the accounts reads of a user. *)
Definition profile (u : UserRow) : option string * string * option string :=
  (us_email u, us_state u, us_activation_code u).

Record accounts_wf (t : AuthTables) : Prop := mkAccountsWf {
  acc_state u row : a_users t !! u = Some row -> exists s, us_state row = user_state_to_string s;
  acc_pair u : is_Some (a_users t !! u) <-> is_Some (a_auth t !! u);
  acc_email u1 u2 r1 r2 e : a_users t !! u1 = Some r1 -> a_users t !! u2 = Some r2 ->
    us_email r1 = Some e -> us_email r2 = Some e -> u1 = u2;
  acc_code u row c : a_users t !! u = Some row -> us_activation_code row = Some c -> a_codes t !! c = Some 1;
  acc_code_once u1 u2 r1 r2 c : a_users t !! u1 = Some r1 -> a_users t !! u2 = Some r2 ->
    us_activation_code r1 = Some c -> us_activation_code r2 = Some c -> u1 = u2
}.

Definition active_for (t : AuthTables) (d u : string) : Prop :=
  exists id b, a_bindings t !! id = Some b /\ is_active_binding b = true /\ bi_domain b = d /\ bi_owner b = u.

(** [but]: a user whose cached domain is about to be set. *)
Record bindings_wf (but : option string) (t : AuthTables) : Prop := mkBindingsWf {
  bw_owner id b : a_bindings t !! id = Some b -> is_Some (a_users t !! bi_owner b) /\ id <= a_binding_seq t;
  bw_state id b : a_bindings t !! id = Some b ->
    bi_state b ∈ [DOMAIN_BINDING_ACTIVE; DOMAIN_BINDING_REVOKED; DOMAIN_BINDING_SUPERSEDED];
  bw_active id1 id2 b1 b2 : a_bindings t !! id1 = Some b1 -> a_bindings t !! id2 = Some b2 ->
    is_active_binding b1 = true -> is_active_binding b2 = true -> bi_domain b1 = bi_domain b2 -> id1 = id2;
  bw_cache u row d : Some u <> but -> a_users t !! u = Some row -> us_user_domain row = Some d -> active_for t d u
}.

Record rows_wf (t : AuthTables) : Prop := mkRowsWf {
  rw_zone u : is_Some (a_zones t !! u) -> is_Some (a_users t !! u);
  rw_session s row : a_sessions t !! s = Some row -> is_Some (a_users t !! ss_username row);
  rw_history h : h ∈ a_history t -> is_Some (a_users t !! hi_owner h)
}.

(** A name is canonical and belongs to a user that is not deleted. *)
Definition names_owned (t : AuthTables) : Prop :=
  forall n row, d_names (a_dns t) !! n = Some row ->
    dns_name_ok n /\ exists u, a_users t !! nm_owner row = Some u /\ us_state u <> user_state_to_string UsDeleted.

Record auth_wf (t : AuthTables) : Prop := mkAuthWf {
  wf_accounts : accounts_wf t;
  wf_bindings : bindings_wf None t;
  wf_rows : rows_wf t;
  wf_dns : dns_wf (a_dns t);
  wf_owned : names_owned t
}.

Lemma fresh_auth_wf : auth_wf fresh_auth_tables.
Proof.
  split; [split|split|split|apply fresh_dns_wf|]; simpl; intros *; rewrite ?lookup_empty;
    try done; try (by intros []); try (by intros ? [=]).
  - by intros Hh%elem_of_nil.
Qed.

(** ** What each part depends on *)

Record same_accounts (t t' : AuthTables) : Prop := mkSameAccounts {
  sa_profiles u : profile <$> a_users t' !! u = profile <$> a_users t !! u;
  sa_auth u : is_Some (a_auth t' !! u) <-> is_Some (a_auth t !! u);
  sa_codes : a_codes t' = a_codes t
}.

#[export] Instance same_accounts_preorder : PreOrder same_accounts.
Proof.
  split; [intros t; by split|]. intros t1 t2 t3 [P1 A1 C1] [P2 A2 C2].
  split; [intros u; by rewrite P2|intros u; by rewrite A2|by rewrite C2].
Qed.

Lemma profile_back t t' u row' : same_accounts t t' -> a_users t' !! u = Some row' ->
  exists row, a_users t !! u = Some row /\ profile row = profile row'.
Proof.
  intros [Hp _ _] Hu. specialize (Hp u). rewrite Hu in Hp. destruct (a_users t !! u) as [row|]; [|done].
  exists row. split; [done|]. by simplify_eq/=; unfold profile; congruence.
Qed.

Lemma same_users t t' u : same_accounts t t' -> is_Some (a_users t' !! u) <-> is_Some (a_users t !! u).
Proof.
  intros [Hp _ _]. specialize (Hp u). destruct (a_users t' !! u), (a_users t !! u); simplify_eq/=; split; intros []; eauto; done.
Qed.

Lemma accounts_same t t' : same_accounts t t' -> accounts_wf t -> accounts_wf t'.
Proof.
  intros Hs [Hst Hpr Hem Hco Hon]. pose proof Hs as [_ Ha Hc]. split.
  - intros u row' Hu. destruct (profile_back t t' u row' Hs Hu) as (row & Hr & He). unfold profile in He. simplify_eq.
    destruct (Hst u row Hr) as [s Hs']. exists s. congruence.
  - intros u. by rewrite (same_users t t' u Hs), Ha.
  - intros u1 u2 r1 r2 e H1 H2 E1 E2.
    destruct (profile_back t t' u1 r1 Hs H1) as (r1' & H1' & P1), (profile_back t t' u2 r2 Hs H2) as (r2' & H2' & P2).
    unfold profile in *. simplify_eq. apply (Hem u1 u2 r1' r2' e); congruence.
  - intros u row' c Hu Hcode. destruct (profile_back t t' u row' Hs Hu) as (row & Hr & He). unfold profile in He.
    simplify_eq. rewrite Hc. apply (Hco u row c); congruence.
  - intros u1 u2 r1 r2 c H1 H2 E1 E2.
    destruct (profile_back t t' u1 r1 Hs H1) as (r1' & H1' & P1), (profile_back t t' u2 r2 Hs H2) as (r2' & H2' & P2).
    unfold profile in *. simplify_eq. apply (Hon u1 u2 r1' r2' c); congruence.
Qed.

Lemma rows_same t t' :
  rows_wf t -> (forall u, is_Some (a_users t !! u) -> is_Some (a_users t' !! u)) ->
  (forall u, is_Some (a_zones t' !! u) -> is_Some (a_zones t !! u)) ->
  (forall s row, a_sessions t' !! s = Some row -> exists row0, a_sessions t !! s = Some row0 /\ ss_username row0 = ss_username row) ->
  a_history t' = a_history t -> rows_wf t'.
Proof.
  intros [Hz Hs Hh] Hu Hz' Hs' Hh'. split.
  - intros u Hu'. by apply Hu, Hz, Hz'.
  - intros s row Hrow. destruct (Hs' s row Hrow) as (row0 & H0 & <-). by apply Hu, (Hs s).
  - intros h. rewrite Hh'. intros Hin. by apply Hu, Hh.
Qed.

(** An update of one user that keeps the profile. *)
Lemma map_user_same u f t : (forall r, profile (f r) = profile r) -> same_accounts t (map_user u f t).
Proof.
  intros Hf. split; [|done|done]. intros v. simpl. destruct (decide (u = v)) as [->|].
  - rewrite lookup_alter_eq. destruct (a_users t !! v) as [r|]; simpl; [|done]. by rewrite Hf.
  - by rewrite lookup_alter_ne.
Qed.

Lemma map_user_users u f t v : is_Some (a_users t !! v) -> is_Some (a_users (map_user u f t) !! v).
Proof. intros Hv. simpl. rewrite lookup_alter_is_Some. done. Qed.

Lemma map_user_rows u f t : rows_wf t -> rows_wf (map_user u f t).
Proof. intros Hr. apply (rows_same t); [done|apply map_user_users|done|eauto|done]. Qed.

(** An update that leaves the cached domain alone or clears it. *)
Lemma map_user_bindings but u f t :
  (forall r, us_user_domain (f r) = us_user_domain r \/ us_user_domain (f r) = None) ->
  bindings_wf but t -> bindings_wf but (map_user u f t).
Proof.
  intros Hf [Ho Hs Ha Hc]. split; [|done|done|].
  - intros id b Hb. destruct (Ho id b Hb). split; [by apply map_user_users|done].
  - intros v row d Hbut. simpl. rewrite lookup_alter_Some. intros [(-> & r & Hr & ->)|[_ Hr]] Hd; [|by apply (Hc v row)].
    destruct (Hf r) as [E|E]; [|congruence]. apply (Hc v r); congruence.
Qed.

Lemma map_user_owned u f t : (forall r, us_state (f r) = us_state r) -> names_owned t -> names_owned (map_user u f t).
Proof.
  intros Hf Hn n row Hrow. destruct (Hn n row Hrow) as (Hok & r & Hr & Hd). split; [done|]. simpl.
  destruct (decide (u = nm_owner row)) as [->|]; [rewrite lookup_alter_eq, Hr; simpl|rewrite lookup_alter_ne by done].
  - exists (f r). by rewrite Hf.
  - eauto.
Qed.

(** An update of one user that changes neither the profile nor the domain. *)
Lemma map_user_wf u f t :
  (forall r, profile (f r) = profile r) -> (forall r, us_user_domain (f r) = us_user_domain r) ->
  auth_wf t -> auth_wf (map_user u f t).
Proof.
  intros Hp Hd [Ha Hb Hr Hdns Ho]. split.
  - by eapply accounts_same, Ha; apply map_user_same.
  - apply map_user_bindings; [by left|done].
  - by apply map_user_rows.
  - done.
  - apply map_user_owned; [|done]. intros r. specialize (Hp r). unfold profile in Hp. congruence.
Qed.

(** ** DNS transactions *)

(** Names may disappear, and a new one is canonical and belongs to a user that
    is not deleted. *)
Lemma dns_wf_step t d' :
  auth_wf t -> dns_wf d' ->
  (forall n row, d_names d' !! n = Some row -> dns_name_ok n /\ exists u, a_users t !! nm_owner row = Some u /\
     us_state u <> user_state_to_string UsDeleted) ->
  auth_wf (on_dns (fun _ => d') t).
Proof. intros [[] [] [] _ _] Hd Hn. split; [by split|by split|by split|done|done]. Qed.

(** The names after some mutations that add none. *)
Definition fewer_names (d d' : DnsTables) : Prop :=
  forall n row, d_names d' !! n = Some row -> exists row0, d_names d !! n = Some row0 /\ nm_owner row0 = nm_owner row.

#[export] Instance fewer_names_preorder : PreOrder fewer_names.
Proof.
  split; [intros d n row; eauto|]. intros d1 d2 d3 H12 H23 n row Hrow.
  destruct (H23 n row Hrow) as (r2 & Hr2 & E2). destruct (H12 n r2 Hr2) as (r1 & Hr1 & E1). exists r1. split; congruence.
Qed.

Lemma fewer_names_wf t d' :
  auth_wf t -> dns_wf d' -> fewer_names (a_dns t) d' -> auth_wf (on_dns (fun _ => d') t).
Proof.
  intros Hwf Hd Hf. apply dns_wf_step; [done..|]. intros n row Hrow. destruct (Hf n row Hrow) as (r0 & Hr0 & <-).
  by apply (wf_owned t Hwf n).
Qed.

(** What a transaction on the DNS tables is allowed to do. *)
Definition dns_step (d d' : DnsTables) : Prop := dns_wf d' /\ dns_evolves d d' /\ fewer_names d d'.

Lemma dns_step_refl d : dns_wf d -> dns_step d d.
Proof. by split. Qed.

Lemma dns_step_trans d1 d2 d3 : dns_step d1 d2 -> dns_step d2 d3 -> dns_step d1 d3.
Proof. intros (_ & E1 & F1) (W2 & E2 & F2). split_and!; [done|by etrans|by etrans]. Qed.

Lemma delete_names_step owner dom now d r d' :
  dns_wf d -> delete_user_dns_names_tx owner dom now d = SOk (r, d') -> dns_step d d'.
Proof.
  intros Hwf E. pose proof (delete_names_run owner dom now d Hwf) as H. rewrite E in H.
  destruct H as (Hm & _ & Hgone). destruct (mutations_wf _ _ _ Hm Hwf). split_and!; [done|done|].
  intros n row Hn. destruct (decide (n ∈ owned_names d owner dom)) as [Hin|Hout]; [by rewrite Hgone in Hn|].
  destruct (mutations_off _ _ _ n Hm Hout) as [<- _]. eauto.
Qed.

(** ** The bindings *)

Lemma bindings_same but t t' :
  a_bindings t' = a_bindings t -> a_binding_seq t' = a_binding_seq t -> a_users t' = a_users t ->
  bindings_wf but t -> bindings_wf but t'.
Proof.
  intros Eb Es Eu [Ho Hs Ha Hc]. split; intros *; rewrite ?Eb, ?Es, ?Eu; eauto.
  intros Hb Hu Hd. destruct (Hc u row d Hb Hu Hd) as (id & b & H). exists id, b. by rewrite Eb.
Qed.

Lemma bindings_but but t : bindings_wf None t -> bindings_wf but t.
Proof. intros [Ho Hs Ha Hc]. split; [done..|]. intros u row d _. by apply Hc. Qed.

Lemma active_binding_some t d id b :
  active_binding d t = Some (id, b) -> a_bindings t !! id = Some b /\ bi_domain b = d /\ is_active_binding b = true.
Proof.
  unfold active_binding. intros Hf. destruct (List.find_some _ _ Hf) as [Hin Hp].
  apply andb_true_iff in Hp as [Hd Ha]. apply String.eqb_eq in Hd.
  split_and!; [|done|done]. by apply elem_of_map_to_list, list_elem_of_In.
Qed.

Lemma active_binding_none t d id b :
  active_binding d t = None -> a_bindings t !! id = Some b -> is_active_binding b = true -> bi_domain b <> d.
Proof.
  unfold active_binding. intros Hf Hb Ha Hd.
  assert (Hin : In (id, b) (map_to_list (a_bindings t))) by (by apply list_elem_of_In, elem_of_map_to_list).
  specialize (List.find_none _ _ Hf _ Hin). simpl. by rewrite Hd, String.eqb_refl, Ha.
Qed.

Lemma active_binding_is_none t d :
  (forall id b, a_bindings t !! id = Some b -> is_active_binding b = true -> bi_domain b <> d) -> active_binding d t = None.
Proof.
  intros Hno. destruct (active_binding d t) as [[id b]|] eqn:E; [|done].
  apply active_binding_some in E as (Hb & Hd & Ha). by destruct (Hno id b Hb Ha).
Qed.

Lemma refresh_bindings but id pkx rec now t :
  bindings_wf but t -> bindings_wf but (on_bindings (alter (refresh_binding pkx rec now) id) t).
Proof.
  intros [Ho Hs Ha Hc].
  assert (Hback : forall i b, alter (refresh_binding pkx rec now) id (a_bindings t) !! i = Some b ->
    exists b0, a_bindings t !! i = Some b0 /\ bi_domain b = bi_domain b0 /\ bi_owner b = bi_owner b0 /\ bi_state b = bi_state b0).
  { intros i b. rewrite lookup_alter_Some. intros [(-> & b0 & Hb0 & ->)|[_ Hb]]; eauto. }
  split; simpl.
  - intros i b Hb. destruct (Hback i b Hb) as (b0 & Hb0 & _ & -> & _). by apply Ho.
  - intros i b Hb. destruct (Hback i b Hb) as (b0 & Hb0 & _ & _ & ->). by apply (Hs i).
  - intros i1 i2 b1 b2 H1 H2. destruct (Hback i1 b1 H1) as (c1 & Hc1 & D1 & _ & S1), (Hback i2 b2 H2) as (c2 & Hc2 & D2 & _ & S2).
    unfold is_active_binding. rewrite S1, S2, D1, D2. by apply Ha.
  - intros u row d Hb Hu Hd. destruct (Hc u row d Hb Hu Hd) as (i & b & Hi & Hact & Hdom & Hown).
    destruct (decide (id = i)) as [->|Hne].
    + exists i, (refresh_binding pkx rec now b). simpl. by rewrite lookup_alter_eq, Hi.
    + exists i, b. simpl. by rewrite lookup_alter_ne.
Qed.

(** Active bindings lose their state where the owner's cached domain goes too. *)
Lemma retire_bindings but (gone : Z -> BindingRow -> bool) st now u f t :
  st ∈ [DOMAIN_BINDING_REVOKED; DOMAIN_BINDING_SUPERSEDED] ->
  (forall id b, a_bindings t !! id = Some b -> gone id b = true -> bi_owner b = u) ->
  (forall r d, us_user_domain (f r) = Some d -> us_user_domain r = Some d /\
     forall id b, a_bindings t !! id = Some b -> is_active_binding b = true -> bi_domain b = d -> bi_owner b = u -> gone id b = false) ->
  bindings_wf but t ->
  bindings_wf but (map_user u f (on_bindings (map_imap (fun id b =>
    Some (if gone id b then set_binding_state st now b else b))) t)).
Proof.
  intros Hst Hgone Hf [Ho Hs Ha Hc].
  assert (Hbind : forall i b, map_imap (fun id b => Some (if gone id b then set_binding_state st now b else b)) (a_bindings t) !! i = Some b ->
    exists b0, a_bindings t !! i = Some b0 /\ b = if gone i b0 then set_binding_state st now b0 else b0).
  { intros i b. rewrite map_lookup_imap. intros (b0 & Hb0 & [= <-])%bind_Some. eauto. }
  assert (Hdead : st <> DOMAIN_BINDING_ACTIVE).
  { rewrite !elem_of_cons in Hst. destruct Hst as [->|[->|Hst]]; [done..|by apply elem_of_nil in Hst]. }
  split; simpl.
  - intros i b Hb. destruct (Hbind i b Hb) as (b0 & Hb0 & ->). destruct (Ho i b0 Hb0) as [Hu Hi].
    split; [|done]. rewrite lookup_alter_is_Some. by case_match.
  - intros i b Hb. destruct (Hbind i b Hb) as (b0 & Hb0 & ->). case_match; [|by apply (Hs i)].
    simpl. rewrite elem_of_cons. by right.
  - intros i1 i2 b1 b2 H1 H2. destruct (Hbind i1 b1 H1) as (c1 & Hc1 & ->), (Hbind i2 b2 H2) as (c2 & Hc2 & ->).
    unfold is_active_binding. do 2 case_match; simpl; rewrite ?(proj2 (String.eqb_neq st _) Hdead); try done. by apply Ha.
  - intros v row d Hbut Hv Hd.
    assert (Hold : exists r, a_users t !! v = Some r /\ us_user_domain r = Some d /\
      (v = u -> forall id b, a_bindings t !! id = Some b -> is_active_binding b = true -> bi_domain b = d -> bi_owner b = u -> gone id b = false)).
    { rewrite lookup_alter_Some in Hv. destruct Hv as [(-> & r & Hr & ->)|[Hne Hv]]; [|exists row; by split_and!].
      destruct (Hf r d Hd) as [Hd' Hg]. by exists r. }
    destruct Hold as (r & Hr & Hd' & Hg). destruct (Hc v r d Hbut Hr Hd') as (i & b & Hi & Hact & Hdom & Hown).
    exists i, b. simpl. rewrite map_lookup_imap, Hi. simpl. split_and!; try done.
    destruct (gone i b) eqn:E; [|done]. rewrite (Hgone i b Hi E) in Hown. subst v.
    rewrite (Hg eq_refl i b Hi Hact Hdom) in E; [done|by apply (Hgone i)].
Qed.

Lemma alter_as_imap (f : BindingRow -> BindingRow) id (m : gmap Z BindingRow) :
  alter f id m = map_imap (fun i b => Some (if bool_decide (i = id) then f b else b)) m.
Proof.
  apply map_eq. intros i. rewrite map_lookup_imap. destruct (decide (id = i)) as [->|].
  - rewrite lookup_alter_eq. destruct (m !! i); simpl; [|done]. by rewrite bool_decide_eq_true_2.
  - rewrite lookup_alter_ne by done. destruct (m !! i); simpl; [|done]. by rewrite bool_decide_eq_false_2.
Qed.

Lemma fmap_as_imap (g : BindingRow -> bool) (f : BindingRow -> BindingRow) (m : gmap Z BindingRow) :
  (fun b => if g b then f b else b) <$> m = map_imap (fun _ b => Some (if g b then f b else b)) m.
Proof. apply map_eq. intros i. rewrite map_lookup_imap, lookup_fmap. by destruct (m !! i). Qed.

(** The binding of another user for the domain ends, and so does its cached copy. *)
Lemma supersede_bindings but id b d now t :
  active_binding d t = Some (id, b) -> bindings_wf but t ->
  bindings_wf but (clear_user_domain (bi_owner b) d now
    (on_bindings (alter (set_binding_state DOMAIN_BINDING_SUPERSEDED now) id) t)).
Proof.
  intros Hact Hwf. apply active_binding_some in Hact as (Hb & Hd & Hact).
  unfold clear_user_domain, on_bindings. cbn [a_bindings]. rewrite alter_as_imap.
  apply (retire_bindings but (fun i _ => bool_decide (i = id))); [rewrite !elem_of_cons; auto|..|done].
  - intros i b' Hi ->%bool_decide_eq_true. congruence.
  - intros r d'. case_bool_decide as Er; simpl; [done|]. intros Hd'. split; [done|].
    intros i b' Hi Ha' Hdom _. apply bool_decide_eq_false. intros ->. congruence.
Qed.

Lemma insert_bindings but d u pkx rec now t :
  bindings_wf but t -> active_binding d t = None -> is_Some (a_users t !! u) ->
  exists t', insert_binding d u pkx rec now t = SOk (tt, t') /\ bindings_wf but t' /\ active_for t' d u /\
    t' = mkAuthTables (a_schema_version t) (a_codes t) (a_users t) (a_auth t) (a_history t)
           (<[a_binding_seq t + 1 := mkBindingRow d u DOMAIN_BINDING_ACTIVE pkx rec (Some now) now now]> (a_bindings t))
           (a_binding_seq t + 1) (a_zones t) (a_sessions t) (a_dns t).
Proof.
  intros [Ho Hs Ha Hc] Hno [row Hu]. unfold insert_binding. rewrite Hno, Hu. simpl.
  set (id := a_binding_seq t + 1).
  assert (Hfresh : a_bindings t !! id = None).
  { destruct (a_bindings t !! id) as [b|] eqn:E; [|done]. destruct (Ho id b E). lia. }
  set (nb := mkBindingRow d u DOMAIN_BINDING_ACTIVE pkx rec (Some now) now now).
  assert (Hno' : forall i b, a_bindings t !! i = Some b -> is_active_binding b = true -> bi_domain b <> d).
  { intros i b. by apply active_binding_none. }
  eexists. split_and!; [done| |exists id, nb; simpl; by rewrite lookup_insert_eq|done].
  split; simpl.
  - intros i b. rewrite lookup_insert_Some. intros [[<- <-]|[_ Hb]]; simpl; [by rewrite Hu|].
    destruct (Ho i b Hb). split; [done|lia].
  - intros i b. rewrite lookup_insert_Some. intros [[<- <-]|[_ Hb]]; [|by apply (Hs i)].
    simpl. rewrite elem_of_cons. by left.
  - intros i1 i2 b1 b2. rewrite !lookup_insert_Some.
    intros [[<- <-]|[_ H1]] [[<- <-]|[_ H2]] A1 A2; simpl; try done; intros HD.
    + by destruct (Hno' i2 b2 H2 A2).
    + by destruct (Hno' i1 b1 H1 A1).
    + by apply (Ha i1 i2 b1 b2).
  - intros v r d' Hbut Hv Hd'. destruct (Hc v r d' Hbut Hv Hd') as (i & b & Hi & H).
    exists i, b. simpl. rewrite lookup_insert_ne; [done|]. intros <-. congruence.
Qed.

Lemma set_domain_bindings u d now t :
  bindings_wf (Some u) t -> active_for t d u -> bindings_wf None (map_user u (set_user_domain (Some d) now) t).
Proof.
  intros [Ho Hs Ha Hc] Hact. split; simpl; [|done|done|].
  - intros i b Hb. destruct (Ho i b Hb). by rewrite lookup_alter_is_Some.
  - intros v r d' _. rewrite lookup_alter_Some. intros [(-> & r0 & _ & ->)|[Hne Hv]]; simpl; [by intros [= <-]|].
    apply (Hc v r); congruence.
Qed.

(** The active bindings of a user end, and so do their cached copies. *)
Lemma revoke_user_bindings but (which : BindingRow -> bool) u f now t :
  (forall b, which b = true -> bi_owner b = u) ->
  (forall r d, us_user_domain (f r) = Some d -> us_user_domain r = Some d /\
     forall b, bi_domain b = d -> bi_owner b = u -> which b = false) ->
  bindings_wf but t -> bindings_wf but (map_user u f (revoke_bindings which now t)).
Proof.
  intros Hw Hf Hwf. unfold revoke_bindings, on_bindings. cbn [a_bindings].
  rewrite (fmap_as_imap (fun b => which b && is_active_binding b)).
  apply (retire_bindings but (fun _ b => which b && is_active_binding b)); [rewrite !elem_of_cons; auto|..|done].
  - intros i b _ [Hb _]%andb_true_iff. by apply Hw.
  - intros r d Hd. destruct (Hf r d Hd) as [Hd' Hno]. split; [done|]. intros i b _ _ Hdom Hown. by rewrite (Hno b).
Qed.

(** ** Names of other owners under a domain *)

Lemma omap_length_le {A B} (f : A -> option B) l : (length (omap f l) <= length l)%nat.
Proof. induction l as [|x l IH]; csimpl; [done|]. destruct (f x); simpl; lia. Qed.

Lemma owned_names_length d o dom : (length (owned_names d o dom) <= size (d_names d))%nat.
Proof.
  unfold owned_names, sorted_texts. rewrite stable_sort_Permutation, <- length_map_to_list. apply omap_length_le.
Qed.

Lemma fewer_names_size d d' : fewer_names d d' -> (size (d_names d') <= size (d_names d))%nat.
Proof.
  intros Hf. rewrite <- !size_dom. apply subseteq_size. intros n [row Hn]%elem_of_dom.
  destruct (Hf n row Hn) as (r & Hr & _). by apply elem_of_dom.
Qed.

Definition name_of (owners : list string) (dom : option string) (d : DnsTables) (n : string) : Prop :=
  exists row, d_names d !! n = Some row /\ nm_owner row ∈ owners /\
    match dom with Some x => under_domain n x = true | None => True end.

Lemma owned_names_of d o dom n : n ∈ owned_names d o dom <-> name_of [o] dom d n.
Proof.
  rewrite elem_of_owned_names. unfold name_of. setoid_rewrite list_elem_of_singleton.
  split; intros (row & H1 & H2 & H3); exists row; split_and!; try done; by destruct dom.
Qed.

Definition delete_owners (dom : option string) (now : Z) (owners : list string) : Tx DnsTables unit :=
  titer (fun owner => delete_user_dns_names_tx owner dom now ;! tret tt) owners.

(** The names of several owners go and no other is touched; only the revisions
    can run out. *)
Lemma delete_owners_run owners dom now d :
  dns_wf d ->
  match delete_owners dom now owners d with
  | SOk (_, d') => dns_step d d' /\ mutations (name_of owners dom d) d d' /\
      forall n, name_of owners dom d n -> d_names d' !! n = None
  | SErr e => 2 ^ 63 <= d_revision d + Z.of_nat (length owners * size (d_names d)) /\
      e = db_err "allocate user DNS revision failed"
  end.
Proof.
  unfold delete_owners. revert d. induction owners as [|o owners IH]; intros d Hwf; simpl.
  { split_and!; [by apply dns_step_refl|apply rtc_refl|]. intros n (row & _ & Hin & _). by apply elem_of_nil in Hin. }
  unfold tthen at 1. unfold tthen at 1. pose proof (delete_names_run o dom now d Hwf) as H1.
  pose proof (owned_names_length d o dom) as Hlen.
  destruct (delete_user_dns_names_tx o dom now d) as [[r d1]|e] eqn:E; [|destruct H1 as [? ->]; split; [nia|done]].
  destruct H1 as (Hm & [Hr1 Hr2] & Hgone). pose proof (delete_names_step o dom now d r d1 Hwf E) as Hs.
  destruct Hs as (Hwf1 & Hev1 & Hf1). pose proof (fewer_names_size d d1 Hf1) as Hsize.
  specialize (IH d1 Hwf1). unfold tret at 1.
  destruct (titer _ owners d1) as [[[] d']|e]; [|destruct IH as [? ->]; split; [nia|done]].
  destruct IH as (Hs' & Hm' & Hgone'). split_and!; [by eapply dns_step_trans|..].
  - etrans; [eapply mutations_weaken, Hm|eapply mutations_weaken, Hm'].
    + intros n (row & Hn & Ho & Hd)%elem_of_owned_names. exists row. rewrite elem_of_cons. auto.
    + intros n (row & Hn & Hin & Hd). destruct (Hf1 n row Hn) as (r0 & Hr0 & Ho).
      exists r0. rewrite Ho, elem_of_cons. auto.
  - intros n (row & Hn & Hin & Hd). destruct (decide (n ∈ owned_names d o dom)) as [Hown|Hown].
    + destruct (d_names d' !! n) as [r'|] eqn:E'; [|done]. destruct Hs' as (_ & _ & Hf').
      destruct (Hf' n r' E') as (r0 & Hr0 & _). by rewrite Hgone in Hr0.
    + apply Hgone'. exists row. destruct (mutations_off _ _ _ n Hm Hown) as [-> _]. split_and!; [done| |done].
      rewrite elem_of_cons in Hin. destruct Hin as [Ho|Hin]; [|done]. destruct Hown. apply elem_of_owned_names. eauto.
Qed.
