(* ===== verification/AuthTx.v ===== *)
(** * Account database: what the transactions do

    The exact effect of the transactions that change accounts and domains, and
    that every transaction keeps the invariant of the tables and only extends
    the feed of DNS changes. *)

From S2P Require Import Prelude RelayModel RelayStore AuthModel AuthStore Auth AuthDns AuthDnsOps AuthTexts AuthInv.

(** ** Activation of a domain *)

(** Names under the domain that another user owns. *)
Definition foreign_to (u dom : string) (d : DnsTables) (n : string) : Prop :=
  exists row, d_names d !! n = Some row /\ nm_owner row <> u /\ under_domain n dom = true.

Lemma elem_of_previous_owners u dom d o :
  o ∈ previous_dns_owners u dom d <->
  exists n row, d_names d !! n = Some row /\ nm_owner row = o /\ o <> u /\ under_domain n dom = true.
Proof.
  unfold previous_dns_owners. rewrite elem_of_sorted_texts, elem_of_remove_dups, list_elem_of_omap. split.
  - intros ([n row] & Hin%elem_of_map_to_list & He). case_match eqn:E; [|done]. simplify_eq.
    apply andb_true_iff in E as [E1 E2]. rewrite negb_true_iff in E1. apply String.eqb_neq in E1. by exists n, row.
  - intros (n & row & Hn & <- & Hne & Hu). exists (n, row). rewrite elem_of_map_to_list. split; [done|].
    by rewrite (proj2 (String.eqb_neq _ _) Hne), Hu.
Qed.

Lemma previous_owners_length u dom d : (length (previous_dns_owners u dom d) <= size (d_names d))%nat.
Proof.
  unfold previous_dns_owners, sorted_texts. rewrite stable_sort_Permutation, <- length_map_to_list.
  etrans; [|apply (omap_length_le (fun '(n, row) =>
    if negb (String.eqb (nm_owner row) u) && under_domain n dom then Some (nm_owner row) else None))].
  generalize (omap (fun '(n, row) => if negb (String.eqb (nm_owner row) u) && under_domain n dom
    then Some (nm_owner row) else None) (map_to_list (d_names d))).
  intros l. induction l as [|x l IH]; simpl; [done|]. case_decide; simpl; lia.
Qed.

Lemma name_of_previous u dom d n : name_of (previous_dns_owners u dom d) (Some dom) d n <-> foreign_to u dom d n.
Proof.
  unfold name_of, foreign_to. split.
  - intros (row & Hn & Ho & Hd). exists row. apply elem_of_previous_owners in Ho as (_ & _ & _ & _ & Hne & _). done.
  - intros (row & Hn & Hne & Hd). exists row. split_and!; [done| |done]. apply elem_of_previous_owners. by exists n, row.
Qed.

(** The part of the transaction on the bindings and the users. *)
Definition bind_domain (username canonical_domain pkx : string) (now : Z) : Tx AuthTables unit :=
  let record_name := pkx_record_name canonical_domain in
  let! existing := tget (active_binding canonical_domain) in
  let! refreshed :=
    match existing with
    | Some (id, b) =>
        if String.eqb (bi_owner b) username then
          tput (on_bindings (alter (refresh_binding pkx record_name now) id)) ;! tret true
        else
          tput (on_bindings (alter (set_binding_state DOMAIN_BINDING_SUPERSEDED now) id)) ;!
          tput (clear_user_domain (bi_owner b) canonical_domain now) ;!
          tret false
    | None => tret false
    end in
  (if refreshed : bool then tret tt
   else
     insert_binding canonical_domain username pkx record_name now ;!
     insert_history canonical_domain username now) ;!
  tput (map_user username (set_user_domain (Some canonical_domain) now)).

(** What it does, apart from the names. *)
Record bound (u dom : string) (now : Z) (t t' : AuthTables) : Prop := mkBound {
  bd_same : same_accounts t t';
  bd_rest : a_auth t' = a_auth t /\ a_zones t' = a_zones t /\ a_sessions t' = a_sessions t /\ a_dns t' = a_dns t;
  bd_history : a_history t' = a_history t \/ a_history t' = a_history t ++ [mkHistoryRow dom u now];
  bd_bindings : bindings_wf None t';
  bd_active : active_for t' dom u;
  bd_cached row : a_users t !! u = Some row -> a_users t' !! u = Some (set_user_domain (Some dom) now row);
  bd_users v : v <> u -> a_users t' !! v = a_users t !! v \/
    exists row, a_users t !! v = Some row /\ us_user_domain row = Some dom /\
      a_users t' !! v = Some (set_user_domain None now row);
  bd_domains d v : d <> dom -> active_for t' d v <-> active_for t d v
}.

Lemma same_accounts_ext t t' t'' :
  a_users t'' = a_users t' -> a_auth t'' = a_auth t' -> a_codes t'' = a_codes t' -> same_accounts t t' -> same_accounts t t''.
Proof. intros Eu Ea Ec [Hp Ha Hc]. split; intros; rewrite ?Eu, ?Ea, ?Ec; eauto. Qed.

Lemma set_user_domain_profile d now r : profile (set_user_domain d now r) = profile r.
Proof. done. Qed.

Lemma clear_user_domain_same v d now t : same_accounts t (clear_user_domain v d now t).
Proof. apply map_user_same. intros r. by case_bool_decide. Qed.

Lemma active_for_alter f id t d v :
  (forall b, bi_domain (f b) = bi_domain b /\ bi_owner (f b) = bi_owner b) ->
  (forall b, a_bindings t !! id = Some b -> bi_domain b <> d) ->
  active_for (on_bindings (alter f id) t) d v <-> active_for t d v.
Proof.
  intros Hf Hid. split; intros (i & b & Hi & Ha & Hd & Ho); simpl in *.
  - rewrite lookup_alter_Some in Hi. destruct Hi as [(-> & b0 & Hb0 & ->)|[_ Hi]]; [|by exists i, b].
    destruct (Hf b0) as [E _]. rewrite E in Hd. by destruct (Hid b0 Hb0).
  - exists i, b. simpl. rewrite lookup_alter_ne; [done|]. intros ->. by destruct (Hid b Hi).
Qed.

Lemma active_for_insert id nb t t' d v :
  a_bindings t' = <[id := nb]> (a_bindings t) -> a_bindings t !! id = None -> bi_domain nb <> d ->
  active_for t' d v <-> active_for t d v.
Proof.
  intros E Hno Hne. unfold active_for. rewrite E. split; intros (i & b & Hi & Ha & Hd & Ho).
  - rewrite lookup_insert_Some in Hi. destruct Hi as [[_ <-]|[_ Hi]]; [done|by exists i, b].
  - exists i, b. rewrite lookup_insert_ne; [done|]. intros <-. congruence.
Qed.

(** Without an active binding of the domain. *)
Lemma bind_fresh u dom pkx rec now t :
  bindings_wf (Some u) t -> is_Some (a_users t !! u) -> active_binding dom t = None ->
  exists t', ((insert_binding dom u pkx rec now ;! insert_history dom u now) ;!
    tput (map_user u (set_user_domain (Some dom) now))) t = SOk (tt, t') /\ bound u dom now t t'.
Proof.
  intros Hwf Hu Hno. destruct (insert_bindings (Some u) dom u pkx rec now t Hwf Hno Hu) as (t1 & E1 & Hwf1 & Hact & Ht1).
  unfold tthen. rewrite E1. unfold insert_history. destruct Hu as [row Hu].
  assert (Hu1 : a_users t1 !! u = Some row) by by rewrite Ht1.
  rewrite Hu1. simpl. eexists. split; [done|].
  assert (Hfresh : a_bindings t !! (a_binding_seq t + 1) = None).
  { destruct (a_bindings t !! (a_binding_seq t + 1)) as [b|] eqn:E; [|done]. destruct (bw_owner _ _ Hwf _ _ E). lia. }
  split; simpl.
  - etrans; [|apply map_user_same; done]. by rewrite Ht1.
  - by rewrite Ht1.
  - right. by rewrite Ht1.
  - apply set_domain_bindings; [|done]. by eapply bindings_same; [..|exact Hwf1].
  - done.
  - intros row'. rewrite Ht1. simpl. rewrite lookup_alter_eq, Hu. by intros [= ->].
  - intros v Hv. left. rewrite Ht1. simpl. by rewrite lookup_alter_ne.
  - intros d v Hd. by apply (active_for_insert (a_binding_seq t + 1)
      (mkBindingRow dom u DOMAIN_BINDING_ACTIVE pkx rec (Some now) now now)); [rewrite Ht1| |].
Qed.

(** The user's own binding is refreshed. *)
Lemma bind_refresh u dom pkx rec now id b t :
  bindings_wf (Some u) t -> active_binding dom t = Some (id, b) -> bi_owner b = u ->
  bound u dom now t (map_user u (set_user_domain (Some dom) now)
    (on_bindings (alter (refresh_binding pkx rec now) id) t)).
Proof.
  intros Hwf Hact Ho. apply active_binding_some in Hact as (Hb & Hd & Ha).
  assert (Hact' : active_for (on_bindings (alter (refresh_binding pkx rec now) id) t) dom u).
  { exists id, (refresh_binding pkx rec now b). simpl. by rewrite lookup_alter_eq, Hb. }
  split; [|done|by left|..].
  - etrans; [|by apply map_user_same]. by split.
  - apply set_domain_bindings; [|done]. by apply refresh_bindings.
  - done.
  - intros row. simpl. rewrite lookup_alter_eq. by intros ->.
  - intros v Hv. left. simpl. by rewrite lookup_alter_ne.
  - intros d v Hne. apply active_for_alter; [done|]. intros b' Hb'. congruence.
Qed.

(** The binding of another user ends first. *)
Lemma bind_supersede u dom now id b t t' :
  active_binding dom t = Some (id, b) -> bi_owner b <> u ->
  bound u dom now (clear_user_domain (bi_owner b) dom now
    (on_bindings (alter (set_binding_state DOMAIN_BINDING_SUPERSEDED now) id) t)) t' ->
  bound u dom now t t'.
Proof.
  intros Hact Ho [Hs Hr Hh Hb Ha Hc Hu Hd]. apply active_binding_some in Hact as (Hid & Hdom & _). split; try done.
  - etrans; [|exact Hs]. etrans; [|apply clear_user_domain_same]. by split.
  - intros row Hrow. apply Hc. simpl. by rewrite lookup_alter_ne.
  - intros v Hv. destruct (Hu v Hv) as [->|(row & Hrow & Hdom' & ->)]; simpl in *.
    + destruct (decide (bi_owner b = v)) as [E|]; [|left; by rewrite lookup_alter_ne].
      rewrite E, lookup_alter_eq. destruct (a_users t !! v) as [row|]; simpl; [|by left].
      case_bool_decide; [right; by exists row|by left].
    + rewrite lookup_alter_Some in Hrow. right.
      destruct Hrow as [(_ & r & Hr' & ->)|[_ Hrow]]; [|by exists row].
      exists r. case_bool_decide; done.
  - intros d v Hne. rewrite Hd by done. apply active_for_alter; [done|]. intros b' Hb'. congruence.
Qed.

Lemma bind_domain_run u dom pkx now t :
  bindings_wf (Some u) t -> is_Some (a_users t !! u) ->
  exists t', bind_domain u dom pkx now t = SOk (tt, t') /\ bound u dom now t t'.
Proof.
  intros Hwf Hu. unfold bind_domain. rewrite tthen_tget.
  destruct (active_binding dom t) as [[id b]|] eqn:E; [|by apply (bind_fresh u dom pkx (pkx_record_name dom))].
  destruct (String.eqb_spec (bi_owner b) u) as [Ho|Ho].
  - eexists. split; [reflexivity|]. by apply (bind_refresh u dom pkx (pkx_record_name dom) now id b).
  - pose proof (supersede_bindings (Some u) id b dom now t E Hwf) as Hwf0.
    set (t0 := clear_user_domain _ _ _ _) in Hwf0.
    assert (Hno : active_binding dom t0 = None).
    { apply active_binding_is_none. intros i b' Hi Ha Hd. apply active_binding_some in E as (Hid & Hdom & Hact).
      simpl in Hi. rewrite lookup_alter_Some in Hi. destruct Hi as [(-> & b0 & _ & ->)|[Hne Hi]]; [done|].
      apply Hne, (bw_active _ _ Hwf id i b b'); congruence. }
    destruct (bind_fresh u dom pkx (pkx_record_name dom) now t0) as (t' & Ht' & Hb); [done| |done|].
    { simpl. rewrite lookup_alter_is_Some. done. }
    exists t'. split; [exact Ht'|]. by apply (bind_supersede u dom now id b).
Qed.

Record activated (u dom : string) (now : Z) (t t' : AuthTables) : Prop := mkActivated {
  ac_bound : bound u dom now (on_dns (fun _ => a_dns t') t) t';
  ac_dns : dns_step (a_dns t) (a_dns t');
  ac_foreign : mutations (foreign_to u dom (a_dns t)) (a_dns t) (a_dns t');
  ac_gone n : foreign_to u dom (a_dns t) n -> d_names (a_dns t') !! n = None
}.

(** Only the DNS revisions can run out. *)
Lemma activate_run u dom pkx now t :
  bindings_wf (Some u) t -> dns_wf (a_dns t) -> is_Some (a_users t !! u) ->
  match activate_binding_tx u dom pkx now t with
  | SOk (_, t') => activated u dom now t t'
  | SErr e => 2 ^ 63 <= d_revision (a_dns t) + Z.of_nat (size (d_names (a_dns t)) * size (d_names (a_dns t))) /\
      e = db_err "allocate user DNS revision failed"
  end.
Proof.
  intros Hb Hd Hu. unfold activate_binding_tx. rewrite tthen_tget. unfold tthen at 1. unfold in_dns at 1.
  pose proof (delete_owners_run (previous_dns_owners u dom (a_dns t)) (Some dom) now (a_dns t) Hd) as H.
  pose proof (previous_owners_length u dom (a_dns t)) as Hlen.
  unfold delete_owners in H. destruct (titer _ _ (a_dns t)) as [[[] d']|e]; [|destruct H as [? ->]; split; [nia|done]].
  destruct H as (Hs & Hm & Hg). destruct (bind_domain_run u dom pkx now (on_dns (fun _ => d') t)) as (t' & Ht' & Hbd).
  { by eapply bindings_same; [..|exact Hb]. } { done. }
  unfold bind_domain in Ht'. rewrite Ht'. assert (Edns : a_dns t' = d') by apply (bd_rest _ _ _ _ _ Hbd).
  split; rewrite ?Edns; [done|done| |].
  - eapply mutations_weaken; [|exact Hm]. intros n. apply name_of_previous.
  - intros n Hn. apply Hg. by apply name_of_previous.
Qed.

(** ** Steps *)

(** What a committed transaction does to the tables. *)
Definition auth_step (t t' : AuthTables) : Prop := auth_wf t' /\ dns_evolves (a_dns t) (a_dns t').

Definition keeps {A} (m : Tx AuthTables A) : Prop :=
  forall t a t', auth_wf t -> m t = SOk (a, t') -> auth_step t t'.

Lemma auth_step_refl t : auth_wf t -> auth_step t t.
Proof. by split. Qed.

Lemma auth_step_trans t1 t2 t3 : auth_step t1 t2 -> auth_step t2 t3 -> auth_step t1 t3.
Proof. intros [_ E1] [W2 E2]. split; [done|by etrans]. Qed.

Lemma keeps_tret {A} (a : A) : keeps (tret a).
Proof. intros t b t' Hwf [= _ <-]. by apply auth_step_refl. Qed.

Lemma keeps_tget {A} (f : AuthTables -> A) : keeps (tget f).
Proof. intros t b t' Hwf [= _ <-]. by apply auth_step_refl. Qed.

Lemma keeps_tlift {A} (r : SnResult A) : keeps (tlift r).
Proof. intros t b t' Hwf. unfold tlift. destruct r; [|done]. intros [= _ <-]. by apply auth_step_refl. Qed.

Lemma keeps_tthen {A B} (m : Tx AuthTables A) (k : A -> Tx AuthTables B) :
  keeps m -> (forall a, keeps (k a)) -> keeps (tthen m k).
Proof.
  intros Hm Hk t b t' Hwf. unfold tthen. destruct (m t) as [[a t1]|] eqn:E; [|done]. intros E'.
  pose proof (Hm t a t1 Hwf E) as H1. eapply auth_step_trans; [exact H1|]. apply (Hk a t1 b t' (proj1 H1) E').
Qed.

Lemma keeps_tput f : (forall t, auth_wf t -> auth_step t (f t)) -> keeps (tput f).
Proof. intros Hf t a t' Hwf [= _ <-]. by apply Hf. Qed.

Lemma dns_step_auth t d' : auth_wf t -> dns_step (a_dns t) d' -> auth_step t (on_dns (fun _ => d') t).
Proof. intros Hwf (Hd & He & Hf). split; [by apply fewer_names_wf|done]. Qed.

Lemma keeps_in_dns {A} (m : Tx DnsTables A) :
  (forall d a d', dns_wf d -> m d = SOk (a, d') -> dns_step d d') -> keeps (in_dns m).
Proof.
  intros Hm t a t' Hwf. unfold in_dns. destruct (m (a_dns t)) as [[x d']|] eqn:E; [|done]. intros [= <- <-].
  apply dns_step_auth; [done|]. by apply (Hm _ x), E; apply wf_dns.
Qed.

Lemma keeps_map_user u f :
  (forall r, profile (f r) = profile r) -> (forall r, us_user_domain (f r) = us_user_domain r) -> keeps (tput (map_user u f)).
Proof. intros Hp Hd. apply keeps_tput. intros t Hwf. split; [by apply map_user_wf|done]. Qed.

(** ** Accounts *)

Lemma email_taken_spec e t : email_taken e t = true <-> exists u row, a_users t !! u = Some row /\ us_email row = Some e.
Proof.
  unfold email_taken. rewrite existsb_exists. split.
  - intros ([u row] & Hin & He%bool_decide_eq_true). exists u, row. split; [|done].
    by apply elem_of_map_to_list, list_elem_of_In.
  - intros (u & row & Hu & He). exists (u, row). split; [by apply list_elem_of_In, elem_of_map_to_list|].
    by apply bool_decide_eq_true.
Qed.

Definition add_user (u c : string) (row : UserRow) (a : AuthRow) (t : AuthTables) : AuthTables :=
  use_code c (on_auth <[u := a]> (on_users <[u := row]> t)).

Lemma add_user_accounts u c e s row a t :
  accounts_wf t -> a_users t !! u = None -> email_taken e t = false -> a_codes t !! c = Some 0 ->
  us_email row = Some e -> us_activation_code row = Some c -> us_state row = user_state_to_string s ->
  accounts_wf (add_user u c row a t).
Proof.
  intros [Hst Hpr Hem Hco Hon] Hu He Hc Re Rc Rs. split; simpl.
  - intros v r. rewrite lookup_insert_Some. intros [[<- <-]|[_ Hv]]; eauto.
  - intros v. destruct (decide (u = v)) as [->|]; [rewrite !lookup_insert_eq; split; eauto|].
    rewrite !lookup_insert_ne by done. apply Hpr.
  - assert (Hfree : forall v r, a_users t !! v = Some r -> us_email r <> Some e).
    { intros v r Hv Hr. assert (email_taken e t = true) by (apply email_taken_spec; eauto). congruence. }
    intros u1 u2 r1 r2 e'. rewrite !lookup_insert_Some.
    intros [[<- <-]|[_ H1]] [[<- <-]|[_ H2]] E1 E2; try done.
    + destruct (Hfree u2 r2 H2). congruence.
    + destruct (Hfree u1 r1 H1). congruence.
    + by apply (Hem u1 u2 r1 r2 e').
  - intros v r c'. rewrite lookup_insert_Some. intros [[<- <-]|[_ Hv]] Hc'.
    + simplify_eq. by rewrite lookup_alter_eq, Hc.
    + destruct (decide (c = c')) as [->|]; [by rewrite lookup_alter_eq, Hc|].
      rewrite lookup_alter_ne by done. by apply (Hco v r).
  - assert (Hfree : forall v r, a_users t !! v = Some r -> us_activation_code r <> Some c).
    { intros v r Hv Hr. specialize (Hco v r c Hv Hr). congruence. }
    intros u1 u2 r1 r2 c'. rewrite !lookup_insert_Some.
    intros [[<- <-]|[_ H1]] [[<- <-]|[_ H2]] E1 E2; try done.
    + destruct (Hfree u2 r2 H2). congruence.
    + destruct (Hfree u1 r1 H1). congruence.
    + by apply (Hon u1 u2 r1 r2 c').
Qed.

(** The rest of the invariant when a user is added. *)
Lemma insert_user_bindings u row t :
  a_users t !! u = None -> bindings_wf None t -> bindings_wf (Some u) (on_users <[u := row]> t).
Proof.
  intros Hu [Ho Hs Ha Hc]. split; simpl; [|done|done|].
  - intros i b Hb. destruct (Ho i b Hb) as [Hv ?]. split; [|done]. apply lookup_insert_is_Some'. by right.
  - intros v r d Hne. rewrite lookup_insert_ne by congruence. by apply Hc.
Qed.

Lemma insert_user_bindings_none u row t :
  a_users t !! u = None -> us_user_domain row = None -> bindings_wf None t -> bindings_wf None (on_users <[u := row]> t).
Proof.
  intros Hu Hd Hb. destruct (insert_user_bindings u row t Hu Hb) as [Ho Hs Ha Hc]. split; [done..|].
  intros v r d _ Hv Hd'. simpl in Hv. destruct (decide (v = u)) as [->|Hne].
  - rewrite lookup_insert_eq in Hv. simplify_eq.
  - apply (Hc v r); [congruence|done|done].
Qed.

Lemma insert_user_rows u row t : rows_wf t -> rows_wf (on_users <[u := row]> t).
Proof.
  intros Hr. apply (rows_same t); [done| |done|eauto|done]. intros v Hv. simpl. apply lookup_insert_is_Some'. by right.
Qed.

Lemma insert_user_owned u row t : a_users t !! u = None -> names_owned t -> names_owned (on_users <[u := row]> t).
Proof.
  intros Hu Hn n r Hr. destruct (Hn n r Hr) as (Hok & x & Hx & Hd). split; [done|]. exists x. simpl. rewrite lookup_insert_ne; [done|]. congruence.
Qed.

Lemma auth_wf_use_code c t :
  accounts_wf (use_code c t) -> bindings_wf None t -> rows_wf t -> dns_wf (a_dns t) -> names_owned t -> auth_wf (use_code c t).
Proof. intros Ha [] [] Hd Hn. by split. Qed.

(** ** Registration *)

Definition registered_user (code username email : string) (now : Z) : UserRow :=
  {| us_email := Some email; us_state := user_state_to_string UsActive; us_bns_name := Some username;
     us_public_key := ""; us_activation_code := Some code; us_owner_key_ref := None; us_zone_config := "";
     us_self_cert := 0; us_user_domain := None; us_sn_ips := None; us_created_at := now; us_updated_at := now;
     us_last_login_at := None |}.

Definition register_fails (code username : string) (t : AuthTables) : bool :=
  negb (bool_decide (a_codes t !! code = Some 0)) || is_some (a_users t !! username) || is_some (a_auth t !! username).

Lemma register_run code u e h s al now t :
  register_user_tx code u e h s al now t =
    if register_fails code u t then SOk (false, t)
    else if email_taken e t then SErr (sn_err EcEmailAlreadyBound "email already bound")
    else SOk (true, add_user u code (registered_user code u e now) (mkAuthRow h s al now now None) t).
Proof.
  unfold register_user_tx, register_fails. autorewrite with tx.
  destruct (bool_decide (a_codes t !! code = Some 0)); simpl; [|done]. autorewrite with tx.
  destruct (a_users t !! u) as [r|] eqn:Eu; simpl; [done|]. autorewrite with tx.
  destruct (a_auth t !! u) as [r|] eqn:Ea; simpl; [done|]. autorewrite with tx.
  destruct (email_taken e t) eqn:Em; simpl; autorewrite with tx; [done|].
  unfold tthen at 1, insert_user. rewrite Eu, Em. simpl.
  unfold tthen at 1, insert_user_auth_tx. simpl. by rewrite Ea, lookup_insert_eq.
Qed.

Lemma register_fails_false code u t :
  register_fails code u t = false -> a_codes t !! code = Some 0 /\ a_users t !! u = None /\ a_auth t !! u = None.
Proof.
  unfold register_fails. intros [[H1 H2]%orb_false_iff H3]%orb_false_iff.
  rewrite negb_false_iff in H1. apply bool_decide_eq_true in H1.
  by destruct (a_users t !! u), (a_auth t !! u).
Qed.

Lemma keeps_register code u e h s al now : keeps (register_user_tx code u e h s al now).
Proof.
  intros t b t' Hwf. rewrite register_run. destruct (register_fails code u t) eqn:Ef.
  { intros [= _ <-]. by apply auth_step_refl. }
  destruct (email_taken e t) eqn:Em; [done|]. intros [= _ <-].
  apply register_fails_false in Ef as (Hc & Hu & Ha). destruct Hwf as [Wa Wb Wr Wd Wo]. split; [|done].
  apply auth_wf_use_code.
  - by apply (add_user_accounts u code e UsActive).
  - by eapply bindings_same, (insert_user_bindings_none u (registered_user code u e now) t).
  - by eapply rows_same; [by apply (insert_user_rows u (registered_user code u e now) t)|..]; eauto.
  - done.
  - by apply (insert_user_owned u (registered_user code u e now) t).
Qed.

(** ** Domains *)

Lemma bound_users u dom now t t' v : bound u dom now t t' -> is_Some (a_users t' !! v) <-> is_Some (a_users t !! v).
Proof. intros Hb. apply same_users, Hb. Qed.

Lemma bound_rows u dom now t t' : bound u dom now t t' -> is_Some (a_users t !! u) -> rows_wf t -> rows_wf t'.
Proof.
  intros Hb Hu [Hz Hs Hh]. destruct (bd_rest _ _ _ _ _ Hb) as (_ & Ez & Es & _). split.
  - intros v. rewrite Ez, (bound_users u dom now t t' v Hb). apply Hz.
  - intros s row. rewrite Es, (bound_users u dom now t t' _ Hb). apply Hs.
  - intros h. rewrite (bound_users u dom now t t' _ Hb). destruct (bd_history _ _ _ _ _ Hb) as [->| ->]; [apply Hh|].
    rewrite elem_of_app, list_elem_of_singleton. intros [Hin| ->]; [by apply Hh|done].
Qed.

Lemma same_owned t t' : same_accounts t t' -> a_dns t' = a_dns t -> names_owned t -> names_owned t'.
Proof.
  intros Hs Hd Hn n row. rewrite Hd. intros Hrow. destruct (Hn n row Hrow) as (Hok & u & Hu & Hdel). split; [done|].
  pose proof (sa_profiles _ _ Hs (nm_owner row)) as Hp. rewrite Hu in Hp.
  destruct (a_users t' !! nm_owner row) as [u'|]; [|done]. exists u'. unfold profile in Hp. simplify_eq/=. split; [done|congruence].
Qed.

Lemma activated_parts u dom now t t' :
  activated u dom now t t' -> rows_wf t -> names_owned t -> is_Some (a_users t !! u) ->
  same_accounts t t' /\ bindings_wf None t' /\ rows_wf t' /\ dns_wf (a_dns t') /\ names_owned t'.
Proof.
  intros [Hb (Hwf & He & Hf) _ _] Hr Ho Hu. split_and!.
  - etrans; [|apply (bd_same _ _ _ _ _ Hb)]. by split.
  - apply Hb.
  - eapply bound_rows; [exact Hb|exact Hu|]. apply (rows_same t); eauto.
  - done.
  - eapply same_owned; [apply (bd_same _ _ _ _ _ Hb)|done|].
    intros n row Hn. destruct (Hf n row Hn) as (r0 & Hr0 & <-). by apply (Ho n).
Qed.

Lemma keeps_activate u dom pkx now t a t' :
  auth_wf t -> is_Some (a_users t !! u) -> activate_binding_tx u dom pkx now t = SOk (a, t') -> auth_step t t'.
Proof.
  intros [Wa Wb Wr Wd Wo] Hu E. pose proof (activate_run u dom pkx now t (bindings_but _ _ Wb) Wd Hu) as H.
  rewrite E in H. destruct (activated_parts u dom now t t' H Wr Wo Hu) as (Hs & ? & ? & ? & ?).
  split; [|apply H]. split; try done. by eapply accounts_same.
Qed.

Lemma keeps_activate_binding u dom pkx now : keeps (activate_user_domain_binding_tx u dom pkx now).
Proof.
  intros t a t' Hwf. unfold activate_user_domain_binding_tx. autorewrite with tx.
  destruct (a_users t !! u) as [row|] eqn:Eu; simpl; autorewrite with tx; [|done].
  destruct (user_state_is_active _); simpl; autorewrite with tx; [|done]. by apply keeps_activate.
Qed.

(** ** Registration with an owner key *)

Section owner_key.
Context `{JsonKeys}.

Definition owner_domain (req : RegisterUserWithOwnerKeyReq) : option string :=
  rk_user_domain req ≫= canonical_user_domain.

Definition owner_row (req : RegisterUserWithOwnerKeyReq) (email : string) (now : Z) : UserRow :=
  {| us_email := Some email; us_state := user_state_to_string UsActive;
     us_bns_name := Some (rk_username req); us_public_key := rk_public_key req;
     us_activation_code := Some (rk_active_code req); us_owner_key_ref := None;
     us_zone_config := rk_zone_config req; us_self_cert := 0; us_user_domain := owner_domain req;
     us_sn_ips := rk_sn_ips req; us_created_at := now; us_updated_at := now; us_last_login_at := None |}.

Definition owner_zone (req : RegisterUserWithOwnerKeyReq) (now : Z) : ZoneRow :=
  {| zr_bns_name := rk_username req;
     zr_zone := if is_empty (trim (rk_zone_config req)) then None else Some (rk_zone_config req);
     zr_relay_sn := None; zr_self_cert := 0; zr_cert_checked_at := None; zr_cert_expires_at := None;
     zr_sn_ips := rk_sn_ips req; zr_source_version := None; zr_updated_at := now |}.

(** The tables with the account, its credentials and its zone. *)
Definition owner_added (req : RegisterUserWithOwnerKeyReq) (email : string) (now : Z) (t : AuthTables) : AuthTables :=
  let u := rk_username req in
  on_zones <[u := owner_zone req now]>
    (on_auth <[u := mkAuthRow (rk_password_hash req) (rk_password_salt req) (rk_password_algo req) now now None]>
      (on_users <[u := owner_row req email now]> t)).

Lemma owner_added_bindings req email now t :
  auth_wf t -> a_users t !! rk_username req = None -> bindings_wf (Some (rk_username req)) (owner_added req email now t).
Proof.
  intros Hwf Hu. eapply bindings_same; [..|apply (insert_user_bindings (rk_username req) (owner_row req email now) t)]; try done.
  by apply wf_bindings.
Qed.

Lemma owner_added_unbound req email now t :
  auth_wf t -> a_users t !! rk_username req = None -> owner_domain req = None ->
  bindings_wf None (owner_added req email now t).
Proof.
  intros Hwf Hu Hd. eapply bindings_same; [..|apply (insert_user_bindings_none (rk_username req) (owner_row req email now) t)];
    try done. by apply wf_bindings.
Qed.

Lemma owner_added_rows req email now t :
  auth_wf t -> rows_wf (owner_added req email now t).
Proof.
  intros Hwf. destruct (insert_user_rows (rk_username req) (owner_row req email now) t (wf_rows t Hwf)) as [Hz Hs Hh].
  split; [|done|done]. intros v. simpl. rewrite lookup_insert_is_Some'.
  intros [->|Hv]; [by rewrite lookup_insert_eq|by apply Hz].
Qed.

Lemma owner_added_owned req email now t :
  auth_wf t -> a_users t !! rk_username req = None -> names_owned (owner_added req email now t).
Proof. intros Hwf Hu. by apply (insert_user_owned (rk_username req) (owner_row req email now) t), wf_owned. Qed.

Lemma owner_key_run req email now t :
  auth_wf t ->
  match register_user_with_owner_key_tx req email now t with
  | SOk (false, t') => t' = t /\ (a_codes t !! rk_active_code req <> Some 0 \/ is_Some (a_users t !! rk_username req))
  | SOk (true, t') =>
      a_codes t !! rk_active_code req = Some 0 /\ a_users t !! rk_username req = None /\ email_taken email t = false /\
      exists t1, t' = use_code (rk_active_code req) t1 /\
        match owner_domain req with
        | Some d => activated (rk_username req) d now (owner_added req email now t) t1
        | None => t1 = owner_added req email now t
        end
  | SErr e =>
      (e = sn_err EcEmailAlreadyBound "email already bound" /\ email_taken email t = true) \/
      (is_Some (owner_domain req) /\ pkx_value (rk_public_key req) = SErr e) \/
      (is_Some (owner_domain req) /\ e = db_err "allocate user DNS revision failed")
  end.
Proof.
  intros Hwf. unfold register_user_with_owner_key_tx. autorewrite with tx.
  destruct (bool_decide (a_codes t !! rk_active_code req = Some 0)) eqn:Ec; simpl;
    [apply bool_decide_eq_true in Ec|apply bool_decide_eq_false in Ec; by auto].
  autorewrite with tx. destruct (a_users t !! rk_username req) as [r|] eqn:Eu; simpl; [by split; eauto|].
  autorewrite with tx. destruct (email_taken email t) eqn:Em; simpl; autorewrite with tx; [by left|].
  assert (Ha : a_auth t !! rk_username req = None).
  { apply eq_None_not_Some. rewrite <- (acc_pair _ (wf_accounts t Hwf)), Eu. by intros []. }
  assert (Hz : a_zones t !! rk_username req = None).
  { apply eq_None_not_Some. intros Hz%(rw_zone _ (wf_rows t Hwf)). rewrite Eu in Hz. by destruct Hz. }
  unfold tthen at 1, insert_user. rewrite Eu, Em. cbn [is_some].
  unfold tthen at 1, insert_user_auth_tx. simpl. rewrite Ha, lookup_insert_eq. cbn [is_some negb orb].
  unfold tthen at 1, insert_zone_info. simpl. rewrite Hz, lookup_insert_eq. cbn [is_some negb orb].
  change (on_zones _ _) with (owner_added req email now t). fold (owner_domain req).
  destruct (owner_domain req) as [d|] eqn:Ed; cycle 1.
  { autorewrite with tx. split_and!; [done..|]. eexists. done. }
  unfold tthen at 1. destruct (pkx_value (rk_public_key req)) as [pkx|e] eqn:Ep; autorewrite with tx; [|eauto].
  pose proof (activate_run (rk_username req) d pkx now (owner_added req email now t)
    (owner_added_bindings req email now t Hwf Eu) (wf_dns t Hwf)) as Hact.
  destruct (activate_binding_tx _ _ _ _ _) as [[[] t1]|e]; autorewrite with tx.
  - split_and!; [done..|]. exists t1. split; [done|]. apply Hact. simpl. by rewrite lookup_insert_eq.
  - right; right. split; [done|]. apply Hact. simpl. by rewrite lookup_insert_eq.
Qed.

Lemma use_code_same c t t' : same_accounts t t' -> same_accounts (use_code c t) (use_code c t').
Proof. intros [Hp Ha Hc]. split; [done|done|]. simpl. by rewrite Hc. Qed.

Lemma keeps_owner_key req email now : keeps (register_user_with_owner_key_tx req email now).
Proof.
  intros t b t' Hwf E. pose proof (owner_key_run req email now t Hwf) as Hrun. rewrite E in Hrun.
  destruct b; [|destruct Hrun as [-> _]; by apply auth_step_refl].
  destruct Hrun as (Hc & Hu & Hem & t1 & -> & Ht1).
  assert (Hacc : accounts_wf (use_code (rk_active_code req) (owner_added req email now t))).
  { eapply accounts_same, (add_user_accounts (rk_username req) (rk_active_code req) email UsActive
      (owner_row req email now) (mkAuthRow (rk_password_hash req) (rk_password_salt req) (rk_password_algo req) now now None) t);
      [|by apply wf_accounts|done..]. by split. }
  pose proof (owner_added_rows req email now t Hwf) as Hr. pose proof (owner_added_owned req email now t Hwf Hu) as Ho.
  pose proof (wf_dns t Hwf) as Hd.
  assert (Hu' : is_Some (a_users (owner_added req email now t) !! rk_username req)) by (simpl; by rewrite lookup_insert_eq).
  destruct (owner_domain req) as [d|] eqn:Ed; [|subst t1].
  - destruct (activated_parts _ _ _ _ _ Ht1 Hr Ho Hu') as (Hs & ? & ? & ? & ?). split; [|apply Ht1].
    apply auth_wf_use_code; try done. by eapply accounts_same, Hacc; apply use_code_same.
  - split; [|done]. apply auth_wf_use_code; try done. by apply owner_added_unbound.
Qed.
End owner_key.
