(* ===== verification/AuthKeeps.v ===== *)
(** * Account database: every transaction and every request keeps the invariant

    The transactions on domains, states, zones, sessions, codes and DNS records
    that [AuthTx] leaves, the one that clears an activation code, and the
    requests made of them, under every interleaving. *)

From S2P Require Import Prelude IpAddr Tasks RelayModel RelayStore Relay RelaySafe RelayInv RelaySeq RelayFacts AuthModel AuthStore Auth AuthDb AuthDns AuthDnsOps AuthTexts AuthInv AuthTx.

Create HintDb keeps.
#[export] Hint Resolve keeps_tret keeps_tget keeps_tlift keeps_register keeps_activate_binding keeps_owner_key : keeps.

(** ** Domains and states *)

Section keys.
Context `{JsonKeys}.

Lemma revoke_wf (which : BindingRow -> bool) u f now t :
  (forall b, which b = true -> bi_owner b = u) ->
  (forall r, profile (f r) = profile r) ->
  (forall r d, us_user_domain (f r) = Some d -> us_user_domain r = Some d /\
     forall b, bi_domain b = d -> bi_owner b = u -> which b = false) ->
  auth_wf t -> auth_wf (map_user u f (revoke_bindings which now t)).
Proof.
  intros Hw Hp Hf [Wa Wb Wr Wd Wo]. split.
  - eapply accounts_same, Wa. etrans; [|by apply map_user_same]. by split.
  - by apply revoke_user_bindings.
  - apply map_user_rows. by destruct Wr.
  - done.
  - apply map_user_owned; [|done]. intros r. specialize (Hp r). unfold profile in Hp. congruence.
Qed.

Lemma keeps_update_domain u dom now : keeps (update_user_domain_tx u dom now).
Proof.
  intros t a t' Hwf. unfold update_user_domain_tx. destruct (dom ≫= canonical_user_domain) as [d|].
  - autorewrite with tx. destruct (a_users t !! u) as [row|] eqn:Eu; simpl; autorewrite with tx; [|done].
    unfold tthen. destruct (tlift _ t) as [[pkx t1]|] eqn:E; [|done]. intros E'.
    assert (t1 = t) as ->. { unfold tlift in E. by destruct (if _ : bool then _ else _); simplify_eq/=. }
    eapply keeps_activate; [done| |exact E']. by rewrite Eu.
  - autorewrite with tx. intros [= _ <-]. split; [|done]. apply revoke_wf; [|done|done|done].
    intros b. apply String.eqb_eq.
Qed.

Lemma revoked_unbound u d now t :
  auth_wf t -> auth_wf (clear_user_domain u d now (revoke_bindings (fun b =>
    String.eqb (bi_domain b) d && String.eqb (bi_owner b) u) now t)).
Proof.
  intros Hwf. apply revoke_wf; [..|done].
  - intros b [_ Ho]%andb_true_iff. by apply String.eqb_eq.
  - intros r. by case_bool_decide.
  - intros r d'. case_bool_decide as E; simpl; [done|]. intros Hd. split; [done|].
    intros b Hb _. apply andb_false_iff. left. apply String.eqb_neq. congruence.
Qed.

Lemma keeps_delete_names u dom now : keeps (in_dns (delete_user_dns_names_tx u dom now)).
Proof. apply keeps_in_dns. intros d r d'. apply delete_names_step. Qed.

Lemma keeps_unbind u d now : keeps (unbind_user_domain_tx u d now).
Proof.
  intros t a t' Hwf. unfold unbind_user_domain_tx. autorewrite with tx. intros E.
  eapply auth_step_trans; [split; [by apply (revoked_unbound u d now)|done]|].
  eapply (keeps_tthen _ _ (keeps_delete_names u (Some d) now) (fun _ => keeps_tret tt)), E. by apply revoked_unbound.
Qed.

(** A deletion drops the names of the user. *)
Lemma set_state_parts u s now t :
  auth_wf t -> let t1 := map_user u (set_state_of_user s now) t in
  accounts_wf t1 /\ bindings_wf None t1 /\ rows_wf t1 /\
  forall n row, d_names (a_dns t) !! n = Some row -> s = UsDeleted -> nm_owner row <> u ->
    exists v, a_users t1 !! nm_owner row = Some v /\ us_state v <> user_state_to_string UsDeleted.
Proof.
  intros [[Hst Hpr Hem Hco Hon] Wb Wr Wd Wo]. simpl.
  assert (Hback : forall v r, alter (set_state_of_user s now) u (a_users t) !! v = Some r ->
    exists r0, a_users t !! v = Some r0 /\ us_email r = us_email r0 /\ us_activation_code r = us_activation_code r0 /\
      (us_state r = user_state_to_string s \/ us_state r = us_state r0)).
  { intros v r. rewrite lookup_alter_Some. intros [(-> & r0 & Hr0 & ->)|[_ Hr]]; [exists r0|exists r]; simpl; auto. }
  split_and!; [split; simpl| | |].
  - intros v r Hv. destruct (Hback v r Hv) as (r0 & Hr0 & _ & _ & [E|E]); [eauto|]. rewrite E. by apply (Hst v).
  - intros v. by rewrite lookup_alter_is_Some.
  - intros u1 u2 r1 r2 e H1 H2. destruct (Hback _ _ H1) as (x1 & Hx1 & -> & _), (Hback _ _ H2) as (x2 & Hx2 & -> & _). by apply Hem.
  - intros v r c Hv. destruct (Hback v r Hv) as (r0 & Hr0 & _ & -> & _). by apply (Hco v).
  - intros u1 u2 r1 r2 c H1 H2. destruct (Hback _ _ H1) as (x1 & Hx1 & _ & -> & _), (Hback _ _ H2) as (x2 & Hx2 & _ & -> & _). by apply Hon.
  - apply map_user_bindings; [by left|done].
  - by apply map_user_rows.
  - intros n row Hn _ Hne. rewrite lookup_alter_ne by done. by apply (Wo n).
Qed.

Lemma keeps_set_state u s now : keeps (set_user_state_tx u s now).
Proof.
  intros t a t' Hwf. unfold set_user_state_tx. autorewrite with tx.
  destruct (set_state_parts u s now t Hwf) as (Pa & Pb & Pr & Po). case_bool_decide as Es.
  - unfold tthen, in_dns. simpl. pose proof (delete_names_run u None now (a_dns t) (wf_dns t Hwf)) as Hrun.
    destruct (delete_user_dns_names_tx u None now (a_dns t)) as [[r d']|e] eqn:E; [|done]. intros [= _ <-].
    destruct Hrun as (_ & _ & Hgone). destruct (delete_names_step _ _ _ _ _ _ (wf_dns t Hwf) E) as (Hd & He & Hf).
    split; [|done]. destruct Pa, Pb, Pr. split; [by split|by split|by split|exact Hd|].
    intros n row Hn. simpl in Hn. destruct (Hf n row Hn) as (r0 & Hr0 & <-).
    split; [by apply (wf_owned t Hwf n r0)|]. apply (Po n r0 Hr0 Es). intros Ho.
    rewrite Hgone in Hn; [done|]. apply elem_of_owned_names. eauto.
  - intros [= _ <-]. split; [|done]. split; try done; [by destruct Hwf|].
    intros n row Hn. destruct (wf_owned t Hwf n row Hn) as (Hok & v & Hv & Hdel). split; [done|]. simpl.
    destruct (decide (u = nm_owner row)) as [->|]; [|rewrite lookup_alter_ne by done; eauto].
    rewrite lookup_alter_eq, Hv. eexists. split; [done|]. simpl. by destruct s.
Qed.

(** ** DNS records *)

Lemma active_not_deleted t u :
  accounts_wf t -> active_user t u = Some true ->
  exists row, a_users t !! u = Some row /\ us_state row <> user_state_to_string UsDeleted.
Proof.
  intros Hwf. unfold active_user. destruct (a_users t !! u) as [row|] eqn:E; [|done]. simpl. intros [= Ha].
  exists row. split; [done|]. destruct (acc_state t Hwf u row E) as [s Hs]. rewrite Hs in *. by destruct s.
Qed.

Lemma keeps_put owner n ty value ttl now :
  dns_name_ok n -> USER_DNS_MIN_TTL <= ttl <= USER_DNS_MAX_TTL ->
  keeps (put_user_dns_value_tx owner n ty value ttl now).
Proof.
  intros Hn Httl t m t' Hwf. rewrite put_run by (done || apply Hwf || by apply dns_name_check_ok).
  destruct (active_user t owner) as [[]|] eqn:Ea; [|done|done].
  destruct (match d_names (a_dns t) !! n with Some _ => _ | None => _ end) eqn:Eo; [done|].
  destruct (put_is_noop _ _ _ _ _); [intros [= _ <-]; by apply auth_step_refl|].
  destruct (Z.leb_spec (2 ^ 63) (d_revision (a_dns t) + 1)); [done|]. intros [= _ <-].
  pose proof (put_mutated owner n ty value ttl now (a_dns t) (wf_dns t Hwf) ltac:(lia) Httl) as Hm.
  split; [|by eapply mutated_evolves, Hm; apply wf_dns]. apply dns_wf_step; [done|eapply mutated_wf; [|exact Hm]; apply Hwf|].
  intros k row. unfold put_dns. simpl. rewrite lookup_insert_Some. intros [[<- <-]|[_ Hk]]; [|by apply (wf_owned t Hwf k)].
  destruct (active_not_deleted t owner (wf_accounts t Hwf) Ea) as (u & Hu & Hdel). split; [done|].
  destruct (d_names (a_dns t) !! n) as [row|]; simpl; [|eauto].
  rewrite negb_false_iff in Eo. apply String.eqb_eq in Eo. rewrite Eo. eauto.
Qed.

Lemma mutated_fewer n o d d' :
  dns_wf d -> mutated n o d d' -> (forall row, d_names d' !! n = Some row -> exists row0, d_names d !! n = Some row0 /\ nm_owner row0 = nm_owner row) ->
  dns_step d d'.
Proof.
  intros Hwf Hm Hn. split_and!; [by eapply mutated_wf|by eapply mutated_evolves|].
  intros k row Hk. destruct (decide (k = n)) as [->|Hne]; [by apply Hn|].
  destruct (mt_off _ _ _ _ Hm) as (Ho & _). rewrite Ho in Hk by done. eauto.
Qed.

Lemma removed_step n ty gone d d' : dns_wf d -> removed n ty gone d d' -> dns_step d d'.
Proof.
  intros Hwf [Hm _ _ _ _ Ho _]. apply (mutated_fewer n (Some ty)); [done|done|]. intros row Hrow.
  rewrite Ho in Hrow; [eauto|]. apply (mt_name _ _ _ _ Hm). by rewrite Hrow.
Qed.

Lemma keeps_remove owner n ty value now : keeps (in_dns (remove_user_dns_value_tx owner n ty value now)).
Proof.
  apply keeps_in_dns. intros d m d' Hwf E. pose proof (remove_run owner n ty value now d Hwf) as Hrun. rewrite E in Hrun.
  destruct Hrun as (_ & [(_ & -> & _)|(_ & Hr & _)]); [by apply dns_step_refl|by eapply removed_step].
Qed.

Lemma keeps_delete_rrset owner n ty now : keeps (in_dns (delete_user_dns_rrset_tx owner n ty now)).
Proof.
  apply keeps_in_dns. intros d m d' Hwf E. pose proof (delete_rrset_run owner n ty now d Hwf) as Hrun. rewrite E in Hrun.
  destruct Hrun as (_ & [(_ & -> & _)|(_ & Hr & _)]); [by apply dns_step_refl|by eapply removed_step].
Qed.

Lemma keeps_ttl owner n ty ttl now :
  USER_DNS_MIN_TTL <= ttl <= USER_DNS_MAX_TTL -> keeps (in_dns (set_user_dns_rrset_ttl_tx owner n ty ttl now)).
Proof.
  intros Httl. apply keeps_in_dns. intros d m d' Hwf. rewrite ttl_run by done.
  destruct (d_names d !! n) as [row|]; [|done]. destruct (negb _); [done|].
  destruct (d_rrsets d !! (n, ty)) as [r|] eqn:Er; [|done].
  destruct (rw_ttl r =? ttl); [intros [= _ <-]; by apply dns_step_refl|].
  destruct (Z.leb_spec (2 ^ 63) (d_revision d + 1)); [done|]. intros [= _ <-].
  apply (mutated_fewer n (Some ty)); [done|by eapply ttl_mutated; [..|done]; try lia|]. intros k. simpl. eauto.
Qed.
End keys.

(** ** Zones, sessions and codes *)

Lemma keeps_last_login u at_ : keeps (update_last_login_tx u at_).
Proof.
  intros t a t' [Wa Wb Wr Wd Wo]. unfold update_last_login_tx. autorewrite with tx. intros [= _ <-]. split; [|done].
  apply map_user_wf; [done|done|]. split; [|by destruct Wb|by destruct Wr|done|done].
  eapply accounts_same, Wa. split; [done| |done]. intros v. simpl. by rewrite lookup_alter_is_Some.
Qed.

Lemma keeps_write_zone u z : keeps (write_zone_info_tx u z).
Proof.
  intros t a t' [[] [] [Hz Hs Hh] Wd Wo]. unfold write_zone_info_tx. destruct (a_users t !! u) as [row|] eqn:Eu; [|done].
  intros [= _ <-]. split; [|done]. apply map_user_wf; [done|done|]. split; [by split|by split| |done|done].
  split; [|done|done]. intros v. simpl. rewrite lookup_insert_is_Some'. intros [->|Hv]; [by rewrite Eu|by apply Hz].
Qed.

Lemma sessions_wf t f :
  auth_wf t -> (forall s row, f (a_sessions t) !! s = Some row -> is_Some (a_users t !! ss_username row)) ->
  auth_step t (on_sessions f t).
Proof. intros [[] [] [] Wd Wo] Hf. split; [|done]. split; [by split|by split|by split|done|done]. Qed.

Lemma keeps_create_session sid u aud i e : keeps (create_account_session_tx sid u aud i e).
Proof.
  intros t a t' Hwf. unfold create_account_session_tx.
  destruct (_ || _) eqn:E; [done|]. intros [= _ <-]. apply sessions_wf; [done|].
  intros s row. rewrite lookup_insert_Some. intros [[<- <-]|[_ Hs]]; [|by apply (rw_session t (wf_rows t Hwf) s)].
  apply orb_false_iff in E as [_ E]. simpl. by destruct (a_users t !! u).
Qed.

Lemma keeps_revoke_user_sessions u at_ : keeps (revoke_user_sessions_tx u at_).
Proof.
  intros t a t' Hwf [= _ <-]. apply sessions_wf; [done|]. intros s row. rewrite lookup_fmap.
  intros (r0 & Hr0 & ->)%fmap_Some. specialize (rw_session t (wf_rows t Hwf) s r0 Hr0). by case_match.
Qed.

Lemma keeps_revoke_session sid at_ : keeps (tput (on_sessions (alter (revoke_session at_) sid))).
Proof.
  apply keeps_tput. intros t Hwf. apply sessions_wf; [done|]. intros s row. rewrite lookup_alter_Some.
  intros [(-> & r0 & Hr0 & ->)|[_ Hs]]; [by apply (rw_session t (wf_rows t Hwf) s r0)|by apply (rw_session t (wf_rows t Hwf) s)].
Qed.

(** A new code is not the code of a user. *)
Lemma new_code_wf c t : a_codes t !! c = None -> auth_wf t -> auth_step t (on_codes <[c := 0]> t).
Proof.
  intros Hc [[] [] [] Wd Wo]. split; [|done]. split; [|by split|by split|done|done]. split; try done.
  intros u row c' Hu Hc'. simpl. rewrite lookup_insert_ne; [eauto|]. intros <-. specialize (acc_code u row c Hu Hc'). congruence.
Qed.

Lemma keeps_insert_code c : keeps (insert_activation_code_tx c).
Proof.
  intros t a t' Hwf. unfold insert_activation_code_tx. destruct (a_codes t !! c) eqn:E; [done|].
  intros [= _ <-]. by apply new_code_wf.
Qed.

Lemma keeps_try_code c : keeps (try_insert_code c).
Proof.
  intros t a t' Hwf. unfold try_insert_code. destruct (a_codes t !! c) eqn:E; simpl; intros [= _ <-];
    [by apply auth_step_refl|by apply new_code_wf].
Qed.

Lemma keeps_generate_codes draws count codes : keeps (generate_codes_loop draws count codes).
Proof.
  revert codes. induction draws as [|draw draws IH]; intros codes; simpl; case_match; try apply keeps_tret.
  apply keeps_tthen; [apply keeps_try_code|done].
Qed.

Lemma keeps_generate_tx draws count : keeps (generate_codes_tx draws count).
Proof.
  intros t a t' Hwf. pose proof (keeps_generate_codes draws count [] t) as Hk. unfold generate_codes_tx.
  destruct (generate_codes_loop draws count [] t) as [[[codes|] t1]|]; intros [= <- <-]; [by eapply Hk|].
  by apply auth_step_refl.
Qed.

#[export] Hint Resolve keeps_update_domain keeps_unbind keeps_set_state keeps_put keeps_remove keeps_delete_rrset
  keeps_ttl keeps_last_login keeps_write_zone keeps_create_session keeps_revoke_user_sessions keeps_revoke_session
  keeps_insert_code keeps_generate_tx : keeps.

(** ** Clearing a code *)

Lemma elem_of_users_of_code c t u :
  u ∈ users_of_code c t <-> exists row, a_users t !! u = Some row /\ us_activation_code row = Some c.
Proof.
  unfold users_of_code. rewrite elem_of_sorted_texts, list_elem_of_omap. split.
  - intros ([v row] & Hin%elem_of_map_to_list & He). case_bool_decide; simplify_eq. eauto.
  - intros (row & Hu & Hc). exists (u, row). rewrite elem_of_map_to_list. split; [done|]. by rewrite bool_decide_eq_true_2.
Qed.

(** Whether a row belongs to a user that is deleted. *)
Definition dead_user (c : string) (t : AuthTables) (u : string) : bool :=
  match a_users t !! u with Some row => bool_decide (us_activation_code row = Some c) | None => false end.

Arguments dead_user : simpl never.

Lemma delete_users_unfold c t :
  delete_users_by_code c t =
    mkAuthTables (a_schema_version t) (a_codes t)
      (filter (fun '(u, _) => dead_user c t u = false) (a_users t))
      (filter (fun '(u, _) => dead_user c t u = false) (a_auth t))
      (List.filter (fun h => negb (dead_user c t (hi_owner h))) (a_history t))
      (filter (fun '(_, b) => dead_user c t (bi_owner b) = false) (a_bindings t))
      (a_binding_seq t)
      (filter (fun '(u, _) => dead_user c t u = false) (a_zones t))
      (filter (fun '(_, s) => dead_user c t (ss_username s) = false) (a_sessions t))
      (delete_names (fun _ row => dead_user c t (nm_owner row)) (a_dns t)).
Proof. done. Qed.

Lemma dead_user_spec c t u : dead_user c t u = true <-> u ∈ users_of_code c t.
Proof.
  rewrite elem_of_users_of_code. unfold dead_user. split.
  - destruct (a_users t !! u) as [row|]; [|done]. intros Hd%bool_decide_eq_true. eauto.
  - intros (row & -> & Hc). by apply bool_decide_eq_true.
Qed.

Lemma filter_key {A} (p : string -> bool) (m : gmap string A) u :
  filter (fun '(v, _) => p v = false) m !! u = if p u then None else m !! u.
Proof.
  rewrite map_lookup_filter. destruct (m !! u); simpl; [|by destruct (p u)].
  destruct (p u); [by rewrite option_guard_False|by rewrite option_guard_True].
Qed.

Lemma filter_value {K A} `{Countable K} (p : A -> bool) (m : gmap K A) k a :
  filter (fun '(_, b) => p b = false) m !! k = Some a <-> m !! k = Some a /\ p a = false.
Proof. rewrite map_lookup_filter_Some. done. Qed.

Lemma delete_names_none gone d :
  (forall n row, d_names d !! n = Some row -> gone n row = false) -> delete_names gone d = d.
Proof.
  intros Hno. assert (Hg : forall n, name_gone gone d n = false).
  { intros n. unfold name_gone. destruct (d_names d !! n) as [row|] eqn:E; [by apply Hno|done]. }
  unfold delete_names. rewrite !map_filter_id; [by destruct d|..].
  - by intros [[n t] v] x _.
  - by intros [n t] x _.
  - by intros n x _.
Qed.

(** The tables without the users of the code; their names are gone already. *)
Lemma delete_users_wf c t :
  auth_wf t -> (forall n row, d_names (a_dns t) !! n = Some row -> dead_user c t (nm_owner row) = false) ->
  auth_wf (on_codes <[c := 0]> (delete_users_by_code c t)) /\
  a_dns (delete_users_by_code c t) = a_dns t.
Proof.
  intros [[Hst Hpr Hem Hco Hon] [Ho Hs Ha Hc] [Hz Hse Hh] Wd Wo] Hnames.
  assert (Hdns : delete_names (fun _ row => dead_user c t (nm_owner row)) (a_dns t) = a_dns t) by by apply delete_names_none.
  rewrite delete_users_unfold. split; [|exact Hdns].
  assert (Hlive : forall u, dead_user c t u = false -> is_Some (a_users t !! u) ->
    is_Some (filter (fun '(u, _) => dead_user c t u = false) (a_users t) !! u)).
  { intros u Hu Hs'. by rewrite filter_key, Hu. }
  split; [split|split|split| |]; simpl.
  - intros u row. rewrite filter_key. destruct (dead_user c t u); [done|]. apply Hst.
  - intros u. rewrite !filter_key. destruct (dead_user c t u); [by split; intros []|]. apply Hpr.
  - intros u1 u2 r1 r2 e. rewrite !filter_key. destruct (dead_user c t u1), (dead_user c t u2); try done. apply Hem.
  - intros u row c'. rewrite filter_key. destruct (dead_user c t u) eqn:E; [done|]. intros Hu Hc'.
    rewrite lookup_insert_ne; [by apply (Hco u row)|]. intros <-. unfold dead_user in E. rewrite Hu in E.
    by apply bool_decide_eq_false in E.
  - intros u1 u2 r1 r2 c'. rewrite !filter_key. destruct (dead_user c t u1), (dead_user c t u2); try done. apply Hon.
  - intros id b [Hb Hd]%filter_value. destruct (Ho id b Hb). eauto.
  - intros id b [Hb Hd]%filter_value. eauto.
  - intros i1 i2 b1 b2 [H1 _]%filter_value [H2 _]%filter_value. eauto.
  - intros u row d Hbut. rewrite filter_key. destruct (dead_user c t u) eqn:E; [done|]. intros Hu Hd.
    destruct (Hc u row d Hbut Hu Hd) as (id & b & Hb & Hact & Hdom & Hown). exists id, b. split_and!; try done.
    apply filter_value. by rewrite Hown.
  - intros u. rewrite filter_key. destruct (dead_user c t u) eqn:E; [by intros []|]. eauto.
  - intros s row [Hs' Hd]%filter_value. eauto.
  - intros h. rewrite list_elem_of_In, filter_In, <- list_elem_of_In, negb_true_iff. intros [Hin Hd]. eauto.
  - by rewrite Hdns.
  - intros n row. cbn [a_dns on_codes a_users]. rewrite Hdns. intros Hn. destruct (Wo n row Hn) as (Hok & u & Hu & Hdel).
    split; [done|]. exists u. by rewrite filter_key, (Hnames n row Hn).
Qed.

(** Clearing a code: its users go with all their rows, and the code is free. *)
Lemma clear_state_run c now t r :
  auth_wf t ->
  match clear_state_tx c now (t, r) with
  | SOk (res, (t', r')) =>
      auth_step t t' /\ r' = delete_relay_zones (users_of_code c t) r /\
      res = mkClearState (Z.of_nat (length (users_of_code c t))) true /\
      a_codes t' = <[c := 0]> (a_codes t) /\
      (forall u, a_users t' !! u = if bool_decide (u ∈ users_of_code c t) then None else a_users t !! u) /\
      (forall n, name_of (users_of_code c t) None (a_dns t) n -> d_names (a_dns t') !! n = None) /\
      mutations (name_of (users_of_code c t) None (a_dns t)) (a_dns t) (a_dns t')
  | SErr e => 2 ^ 63 <= d_revision (a_dns t) + Z.of_nat (length (users_of_code c t) * size (d_names (a_dns t))) /\
      e = db_err "allocate user DNS revision failed"
  end.
Proof.
  intros Hwf. unfold clear_state_tx, in_dns.
  pose proof (delete_owners_run (users_of_code c t) None now (a_dns t) (wf_dns t Hwf)) as Hrun. unfold delete_owners in Hrun.
  destruct (titer _ _ (a_dns t)) as [[[] d']|e]; [|done]. destruct Hrun as (Hs & Hm & Hg).
  pose proof (dns_step_auth t d' Hwf Hs) as Hst.
  destruct (delete_users_wf c (on_dns (fun _ => d') t)) as [Hwf' Hdns]; [apply Hst| |].
  { intros n row Hn. simpl in Hn. destruct (dead_user c (on_dns (fun _ => d') t) (nm_owner row)) eqn:E; [|done].
    apply dead_user_spec in E. destruct Hs as (_ & _ & Hf). destruct (Hf n row Hn) as (r0 & Hr0 & Ho).
    rewrite Hg in Hn; [done|]. exists r0. by rewrite Ho. }
  change (a_dns (on_codes <[c:=0]> (delete_users_by_code c (on_dns (fun _ => d') t))) = d') in Hdns.
  rewrite Hdns. split_and!; try done.
  - split; [done|]. rewrite Hdns. apply Hs.
  - intros u. simpl. change (filter _ (a_users t)) with (filter (fun '(u, _) => dead_user c t u = false) (a_users t)).
    rewrite filter_key. destruct (dead_user c t u) eqn:E.
    + rewrite bool_decide_eq_true_2; [done|]. by apply dead_user_spec.
    + rewrite bool_decide_eq_false_2; [done|]. rewrite <- dead_user_spec. congruence.
Qed.

(** * What holds under every interleaving

    Every action of every request keeps the invariants of the account tables and
    of the relay tables, and the DNS change feed only grows: whatever a reader
    saw at a revision, the feed tells it afterwards which names have changed. *)

Section registration.
Context `{NamedLocker, DeviceInfoDB, Clock, JsonStrings, !JsonStringsLaws, SqlNumbers, CharTables}.
Context (self : RelayManager) (strict : bool).

Notation Safe := (Safe Inv Grow).
Notation Good := (Good strict).

(** ** The relay of a registration *)

Lemma good_plan req : Safe (plan_registration_allocation self req) (fun _ => True) (Good (fun _ _ => True)).
Proof.
  do 2 (apply good_check_seq; [auto with nodb|]). apply good_count_seq; [apply stable_true|].
  eapply good_let; [apply good_geo, stable_true|]. intros geo. apply good_choose_automatic, stable_true.
Qed.
End registration.

Section registration_tx.
Context `{NamedLocker, DeviceInfoDB, Clock, JsonStrings, !JsonStringsLaws, SqlNumbers, CharTables}.

Notation Safe := (Safe Inv Grow).
Notation Good := (Good false).

(** The insertion may find a row of the zone. *)
Lemma good_execute_checked {A} (f : Tables -> SnResult (A * Tables)) (K : World -> Prop) :
  (forall w a t', Inv w -> K w -> f (w_db w) = SOk (a, t') -> tables_wf t' /\ nodes_grow (w_db w) t') ->
  stable Inv Grow K -> Safe (execute_checked f) K (Good (fun _ w => K w)).
Proof.
  intros Hf HK. apply Safe_atomic. intros w HI HKw. specialize (Hf w). destruct (f (w_db w)) as [[a t']|e] eqn:E; simpl.
  - destruct (Hf a t' HI HKw eq_refl) as [Hwf HG]. split_and!; [done|done|]. exists K. split_and!; [done| |done].
    by apply (HK w).
  - split_and!; [done|apply Grow_refl|]. exists (fun _ => True). split_and!; [apply stable_true|done|]. intros w2 _ _. done.
Qed.

Lemma good_insert_registration a K :
  stable Inv Grow K -> (forall w, K w -> known (as_relay_id a) w) -> as_state a = RaActive -> as_generation a = 1 ->
  Safe (insert_registration_assignment_tx a) K (Good (fun _ w => K w)).
Proof.
  intros HK Hk Hst Hg. unfold insert_registration_assignment_tx.
  eapply good_let; [apply good_check; auto with nodb|]. intros g. simpl.
  eapply good_let; [apply good_check; auto with nodb|]. intros c. simpl.
  eapply good_let; [apply good_check; auto with nodb|]. intros u. simpl.
  eapply Safe_weaken; [apply (good_execute_checked _ (fun w => to_db_time (as_generation a) "generation" = SOk g /\ K w))| |]; cycle 1.
  - auto with stab.
  - naive_solver.
  - intros [x|e] w _; simpl; naive_solver.
  - intros w x t' HI [Hg' HKw]. destruct (t_assignments (w_db w) !! as_zone a) eqn:Ea; [done|]. intros [= _ <-].
    split; [|by intros id]. apply wf_insert_assignment; [done| |by apply Hk].
    apply to_db_time_ok in Hg' as [-> _]. exists (as_state a), (as_source a). simpl. rewrite Hg, Hst. split_and!; [done|done|lia|done].
Qed.

Lemma good_commit req plan :
  Safe (commit_registration_allocation req plan) (fun _ => True) (Good (fun _ _ => True)).
Proof.
  unfold commit_registration_allocation. eapply (good_let _ _ _ _ (fun _ _ => True)).
  - unfold registration_assignment. destruct plan as [plan|e]; [|by apply good_ret].
    eapply good_let; [apply good_select_node, stable_true|]. intros [node|]; [|by apply good_ret].
    destruct (is_assignable_node node); [|by apply good_ret].
    eapply good_let; [apply (good_now false _ (fun _ => known (rn_relay_id node)))|].
    { apply stable_and; [apply stable_true|]. apply stable_and; [apply stable_node_known|apply stable_pure]. }
    { intros n w _ (_ & [Hk _] & _). exact Hk. }
    intros now. simpl. apply good_then; [by apply good_insert_registration; [auto with stab|..]|].
    apply good_then; [apply good_clear_pending; auto with stab|].
    apply good_count_seq; [auto with stab|].
    apply good_then; [destruct (sel_fallback plan); [apply good_count; auto with stab|by apply good_ret]|].
    by apply good_ret.
  - intros [a|e]; [by apply good_ret|]. apply good_then; [apply good_record_pending, stable_true|].
    apply good_count_seq; [apply stable_true|]. by apply good_ret.
Qed.
End registration_tx.

(** ** Both databases *)

Section sound.
Context `{NamedLocker, DeviceInfoDB, Clock, JsonStrings, !JsonStringsLaws, SqlNumbers, CharTables}.
Context `{JsonKeys, RowOrder, SqlxNull}.
Context (self : RelayManager).

Definition SnInv (w : SnWorld) : Prop := auth_wf (sw_auth w) /\ tables_wf (w_db (sw_relay w)).

(** What one request may rely on while the others act. *)
Definition SnStep (w w' : SnWorld) : Prop :=
  dns_evolves (a_dns (sw_auth w)) (a_dns (sw_auth w')) /\ Grow (sw_relay w) (sw_relay w').

#[export] Instance SnStep_preorder : PreOrder SnStep.
Proof.
  split; [intros w; split; [done|apply Grow_refl]|].
  intros w1 w2 w3 [E1 G1] [E2 G2]. split; [by etrans|]. intros id Hid. by apply G2, G1.
Qed.

(** A task that keeps the invariants, whatever happens in between. *)
Definition Sound {A} (t : Task SnWorld A) : Prop := Safe SnInv SnStep t (fun _ => True) (fun _ _ => True).

Lemma sound_tbind {A B} (t : Task SnWorld A) (f : A -> Task SnWorld B) :
  Sound t -> (forall a, Sound (f a)) -> Sound (tbind t f).
Proof. intros Ht Hf. by eapply Safe_tbind. Qed.

Lemma sound_abind {A B} (t : AT A) (f : A -> AT B) : Sound t -> (forall a, Sound (f a)) -> Sound (abind t f).
Proof. intros Ht Hf. apply sound_tbind; [done|]. intros [a|e]; [done|]. by intros w. Qed.

Lemma sound_Ret {A} (a : A) : Sound (Ret a).
Proof. by intros w. Qed.

Lemma sound_alift {A} (r : SnResult A) : Sound (alift r).
Proof. by intros w. Qed.

(** What a check found is known afterwards. *)
Lemma sound_check {A B} (r : SnResult A) (f : A -> AT B) :
  (forall a, r = SOk a -> Sound (f a)) -> Sound (abind (alift r) f).
Proof. intros Hf. destruct r as [a|e]; [by apply Hf|by intros w]. Qed.

Lemma sound_atomic {A} (f : SnWorld -> A * SnWorld) :
  (forall w, SnInv w -> SnInv (f w).2 /\ SnStep w (f w).2) -> Sound (atomic f).
Proof.
  intros Hf. apply Safe_atomic. intros w HI _. destruct (Hf w HI). split_and!; [done|done|].
  exists (fun _ => True). by split_and!.
Qed.

Lemma sound_select {A} (f : AuthTables -> A) : Sound (select f).
Proof. apply sound_atomic. by intros w HI. Qed.

Lemma auth_step_world w t r :
  SnInv w -> auth_step (sw_auth w) t -> w_db r = w_db (sw_relay w) ->
  SnInv (mkSnWorld t r) /\ SnStep w (mkSnWorld t r).
Proof.
  intros [Ha Hr] [Hwf He] Hdb. split; split; simpl; [done|by rewrite Hdb|done|].
  intros id. by rewrite Hdb.
Qed.

Lemma sound_transact {A} (f : Tx AuthTables A) : keeps f -> Sound (transact f).
Proof.
  intros Hf. apply sound_atomic. intros w HI. destruct (f (sw_auth w)) as [[a t]|e] eqn:E; simpl; [|done].
  apply auth_step_world; [done| |done]. apply (Hf _ a t); [apply HI|done].
Qed.

Lemma sound_now : Sound auth_now.
Proof. apply sound_atomic. intros w HI. apply auth_step_world; [done| |done]. apply auth_step_refl, HI. Qed.

Lemma sound_transact_now {A} (f : Z -> Tx AuthTables A) : (forall now, keeps (f now)) -> Sound (transact_now f).
Proof.
  intros Hf. apply sound_atomic. intros w HI.
  destruct (f (now_of (sw_relay w)) (sw_auth w)) as [[a t]|e] eqn:E; simpl; apply auth_step_world; try done.
  - apply (Hf (now_of (sw_relay w)) _ a t); [apply HI|done].
  - apply auth_step_refl, HI.
Qed.

(** A task of the relay manager leaves the account tables alone. *)
Lemma safe_on_relay {A} (t : Task World A) K Q :
  Safe Inv Grow t K Q -> Safe SnInv SnStep (on_relay t) (fun w => K (sw_relay w)) (fun a w => Q a (sw_relay w)).
Proof.
  revert K. induction t as [a|X act k IH]; intros K Ht; simpl.
  - intros w [_ HI] HK. by apply Ht.
  - intros w x w' [Ha HI] HK Hact. destruct (act (sw_relay w)) as [[y r]|] eqn:E; simplify_eq.
    destruct (Ht (sw_relay w) x r HI HK E) as (HI' & HG & K' & Hst & HK' & Hk).
    split_and!; [done|by split|]. exists (fun w => K' (sw_relay w)). split_and!; [|done|by apply IH].
    intros w1 w2 [_ HI1] [_ HI2] [_ HG']. by apply Hst.
Qed.

Lemma sound_on_relay {A} (t : Task World A) Q : Safe Inv Grow t (fun _ => True) Q -> Sound (on_relay t).
Proof. intros Ht. eapply Safe_weaken; [by apply safe_on_relay|done|done]. Qed.

Lemma sound_locker {A} name (t : AT A) : Sound t -> Sound (with_locker name t).
Proof.
  intros Ht. apply sound_abind; [by eapply sound_on_relay, (good_locker true), stable_true|]. intros _.
  apply sound_tbind; [done|]. intros r.
  apply sound_abind; [by eapply sound_on_relay, (good_drop_locker true), stable_true|]. intros _. apply sound_Ret.
Qed.

(** A transaction of several steps. *)
Lemma sound_auth_transaction {A} (commit : A -> bool) (t : AT A) : Sound t -> Sound (auth_transaction commit t).
Proof.
  intros Ht w x w' HI _ Hact.
  assert (Hundo : forall w1, SnInv (mkSnWorld (sw_auth w) (set_db (fun _ => w_db (sw_relay w)) (sw_relay w1))) /\
    SnStep w (mkSnWorld (sw_auth w) (set_db (fun _ => w_db (sw_relay w)) (sw_relay w1)))).
  { intros w1. apply auth_step_world; [done|apply auth_step_refl, HI|done]. }
  assert (Hdone : SnInv w' /\ SnStep w w').
  { destruct (run t w) as [[[a|e] w1]|] eqn:E; [|injection Hact as _ <-; apply Hundo|done]. injection Hact as _ <-.
    destruct (Safe_run SnInv SnStep t _ _ w (SOk a) w1 Ht HI I E) as (HI' & HG & _).
    destruct (commit a); [|apply Hundo]. split; [done|]. clear -HG. induction HG; [done|by etrans]. }
  destruct Hdone. split_and!; [done|done|]. exists (fun _ => True). split_and!; [done|done|]. apply sound_Ret.
Qed.

(** ** The requests *)

(** The clearing of a code. *)
Lemma delete_relay_zones_wf zones t : tables_wf t -> tables_wf (delete_relay_zones zones t).
Proof.
  intros [Wn Wa Wb Wu Ws]. constructor; try done. intros z row. simpl.
  rewrite map_lookup_filter_Some. intros [Hz _]. by apply (Ws z).
Qed.

Lemma sound_clear code : Sound (clear_state_by_active_code code).
Proof.
  apply sound_atomic. intros w HI. pose proof HI as [Ha Hr].
  pose proof (clear_state_run code (now_of (sw_relay w)) (sw_auth w) (w_db (sw_relay w)) Ha) as Hrun.
  destruct (clear_state_tx _ _ _) as [[res [t r]]|e]; simpl.
  - destruct Hrun as ([Hwf He] & -> & _). split; split; simpl; [done|by apply delete_relay_zones_wf|done|by intros id].
  - apply auth_step_world; [done|by apply auth_step_refl|done].
Qed.

Lemma sound_relay_projection zone : Sound (relay_projection zone).
Proof.
  apply sound_abind; [eapply sound_on_relay, (good_get_zone_relay true), stable_true|]. intros a. apply sound_Ret.
Qed.

Lemma sound_project_optional u : Sound (project_optional u).
Proof.
  destruct u as [u|]; [|apply sound_Ret]. apply sound_abind; [|intros v; apply sound_Ret].
  unfold project_user_relay. destruct (ui_username u); [|apply sound_Ret].
  apply sound_abind; [apply sound_relay_projection|]. intros r. apply sound_Ret.
Qed.

Lemma sound_get_zone_info u : Sound (get_zone_info u).
Proof.
  apply sound_abind; [apply sound_select|]. intros row.
  apply sound_abind; [apply sound_relay_projection|]. intros r. apply sound_Ret.
Qed.

Lemma sound_register_relay req : Sound (register_user_with_relay_allocation self req).
Proof.
  apply sound_check. intros email _. do 3 apply sound_locker.
  apply sound_tbind; [eapply sound_on_relay, (good_plan self true)|]. intros plan.
  apply sound_abind; [apply sound_auth_transaction|].
  - apply sound_abind; [apply sound_transact_now; auto with keeps|]. intros [|]; [|apply sound_Ret].
    apply sound_abind; [eapply sound_on_relay, good_commit|]. intros r. apply sound_Ret.
  - intros [[a|e]|]; apply sound_Ret.
Qed.

Lemma sound_owner_key req : Sound (register_user_with_owner_key req).
Proof.
  apply sound_check. intros email _. do 2 apply sound_locker.
  assert (Hbody : forall now, keeps (register_user_with_owner_key_tx req email now)) by auto with keeps.
  case_match; [apply sound_locker|]; (apply sound_check; intros _ _; by apply sound_transact_now).
Qed.

Lemma dns_name_canonical name n : canonical_user_dns_name name = SOk n -> dns_name_check n = true.
Proof. intros Hn. by apply dns_name_check_ok, (canonical_dns_name_inv name). Qed.

Lemma ttl_valid ttl v : validate_user_dns_ttl ttl = SOk v -> USER_DNS_MIN_TTL <= v <= USER_DNS_MAX_TTL.
Proof.
  unfold validate_user_dns_ttl, refuse_if, USER_DNS_MIN_TTL, USER_DNS_MAX_TTL. destruct (_ && _) eqn:E; simpl; [|done].
  intros [= <-]. zbool. lia.
Qed.

(** The requests whose arguments have their types. *)
Definition auth_call_ok (c : AuthCall) : Prop := match c with AcRelay c => typed_call c | _ => True end.

Lemma sound_reply {A} (t : AT A) (f : SnResult A -> AuthReply) : Sound t -> Sound (tbind t (fun r => Ret (f r))).
Proof. intros Ht. apply sound_tbind; [done|]. intros r. apply sound_Ret. Qed.

Lemma sound_auth_task c : auth_call_ok c -> Sound (auth_task self c).
Proof.
  intros Hc. destruct c; unfold auth_task; try apply sound_reply.
  - apply sound_transact. auto with keeps.
  - apply sound_transact. auto with keeps.
  - apply sound_clear.
  - apply sound_check. intros e _. do 2 apply sound_locker. apply sound_transact_now. auto with keeps.
  - apply sound_register_relay.
  - apply sound_owner_key.
  - apply sound_abind; [apply sound_now|]. intros now. apply sound_abind; [apply sound_transact; auto with keeps|]. intros _.
    destruct (negb _); [|apply sound_Ret]. apply sound_abind; [apply sound_transact; auto with keeps|]. intros n. apply sound_Ret.
  - apply sound_abind; [apply sound_now|]. intros now. apply sound_transact. by apply keeps_map_user.
  - apply sound_check. intros _ _. apply sound_abind; [apply sound_get_zone_info|]. intros z.
    apply sound_abind; [eapply sound_on_relay, (good_now true _ (fun _ _ => True)); [apply stable_true|done]|]. intros now.
    apply sound_transact. auto with keeps.
  - apply sound_locker, sound_transact_now. auto with keeps.
  - apply sound_transact. auto with keeps.
  - apply sound_check. intros d _. apply sound_check. intros _ _. apply sound_locker.
    apply sound_abind; [|intros now; apply sound_Ret]. apply sound_transact_now. intros now.
    apply keeps_tthen; auto with keeps.
  - apply sound_check. intros d _. apply sound_locker, sound_transact_now. auto with keeps.
  - apply sound_check. intros _ _. apply sound_check. intros n Hn. apply sound_check. intros v _.
    apply sound_check. intros l Hl. apply sound_abind; [apply sound_now|]. intros now. apply sound_transact, keeps_put.
    + by eapply canonical_dns_name_inv.
    + by eapply ttl_valid.
  - apply sound_check. intros _ _. apply sound_check. intros n Hn. apply sound_check. intros v _.
    apply sound_abind; [apply sound_now|]. intros now. apply sound_transact. auto with keeps.
  - apply sound_check. intros _ _. apply sound_check. intros n Hn.
    apply sound_abind; [apply sound_now|]. intros now. apply sound_transact. auto with keeps.
  - apply sound_check. intros _ _. apply sound_check. intros n Hn. apply sound_check. intros l Hl.
    apply sound_abind; [apply sound_now|]. intros now. apply sound_transact, keeps_ttl. by eapply ttl_valid.
  - apply sound_check. intros n _. apply sound_select.
  - apply sound_check. intros _ _. do 3 (apply sound_abind; [apply sound_select|]; intros ?). apply sound_alift.
  - apply sound_abind; [apply sound_select|]. intros u. apply sound_project_optional.
  - unfold get_user_by_domain. destruct (canonical_user_domain domain); [|apply sound_Ret].
    apply sound_abind; [apply sound_select|]. intros u. apply sound_project_optional.
  - apply sound_transact. auto with keeps.
  - apply sound_transact. auto with keeps.
  - apply sound_transact. auto with keeps.
  - apply sound_tbind; [eapply sound_on_relay, (safe_task self c), Hc|]. intros r. apply sound_Ret.
Qed.
End sound.
