(* ===== verification/AuthLocks.v ===== *)
(** * Account database: locks

    A registration takes the lock of its code, then the one of its e-mail
    address, then the one of its zone or of the domain bindings; every other
    request takes one lock at most.  So no set of requests can block itself. *)

From S2P Require Import Prelude IpAddr Tasks Locks RelayModel RelayStore Relay RelaySafe RelayInv AuthModel AuthStore Auth AuthDb.

(** Codes before addresses before the rest. *)
Definition lock_level (name : string) : nat :=
  if String.prefix "active_code_" name then 0 else if String.prefix "sn_email_" name then 1 else 2.

Section relay.
Context `{NamedLocker, !NamedLockerLaws, DeviceInfoDB, Clock, JsonStrings, SqlNumbers, CharTables}.

(** ** Tasks of the relay manager *)

Notation Disc := (Disc w_locks lock_level).

Definition Quiet {A} (t : Task World A) : Prop := forall L, Disc t L L (fun _ => True).

Lemma quiet_Ret {A} (a : A) : Quiet (Ret a).
Proof. done. Qed.
Lemma quiet_tbind {A B} (t : Task World A) (f : A -> Task World B) : Quiet t -> (forall a, Quiet (f a)) -> Quiet (tbind t f).
Proof. intros Ht Hf L. eapply disc_tbind; [apply Ht|]. intros a _. apply Hf. Qed.
Lemma quiet_bind {A B} (m : T A) (k : A -> T B) : Quiet m -> (forall a, Quiet (k a)) -> Quiet (bind m k).
Proof. intros Hm Hk. apply quiet_tbind; [done|]. intros [a|e]; [apply Hk|apply quiet_Ret]. Qed.
Lemma quiet_ignoring {A} (t : T A) : Quiet t -> Quiet (ignoring t).
Proof. intros Ht. apply quiet_tbind; [done|]. intros a. apply quiet_Ret. Qed.
Lemma quiet_atomic {A} (f : World -> A * World) : (forall w, w_locks (f w).2 = w_locks w) -> Quiet (atomic f).
Proof. intros Hf L. by apply disc_atomic. Qed.
Lemma quiet_execute_checked {A} (f : Tables -> SnResult (A * Tables)) : Quiet (execute_checked f).
Proof. apply quiet_atomic. intros w. by destruct (f (w_db w)) as [[??]|]. Qed.
Lemma quiet_on_devices {A} (f : DeviceDb -> SnResult A * DeviceDb) : Quiet (on_devices f).
Proof. apply quiet_atomic. intros w. by destruct (f (w_devices w)). Qed.
Lemma quiet_transaction {A} (t : T A) : EndsHolding t -> Quiet (transaction t).
Proof.
  intros Ht L. right; right. split; [|done]. intros w. destruct (Ht w) as ([a|e] & w' & -> & Hl); done.
Qed.

(** A lock, and giving it back. *)
Lemma disc_get_locker name L :
  Forall (fun m => lock_level m < lock_level name)%nat L -> Disc (get_locker name) L (name :: L) (fun r => r = SOk tt).
Proof.
  intros HL. left. exists name. split_and!; [|done|].
  - intros w. by destruct (lock_held name (w_locks w)) eqn:E.
  - intros w x w' Hact. destruct (lock_held name (w_locks w)); by simplify_eq.
Qed.
Lemma disc_drop_locker name L : Disc (drop_locker name) (name :: L) L (fun r => r = SOk tt).
Proof. right; left. exists name, L. split_and!; [done|done|]. by intros w x w' [= <- _]. Qed.

(** A task that holds no lock when it starts and when it ends. *)
Definition Calm {A} (t : Task World A) : Prop := Disc t [] [] (fun _ => True).

Lemma calm_quiet {A} (t : Task World A) : Quiet t -> Calm t.
Proof. intros Ht. apply Ht. Qed.
Lemma calm_tbind {A B} (t : Task World A) (f : A -> Task World B) : Calm t -> (forall a, Calm (f a)) -> Calm (tbind t f).
Proof. intros Ht Hf. eapply disc_tbind; [apply Ht|]. intros a _. apply Hf. Qed.
Lemma calm_bind {A B} (m : T A) (k : A -> T B) : Calm m -> (forall a, Calm (k a)) -> Calm (bind m k).
Proof. intros Hm Hk. apply calm_tbind; [done|]. intros [a|e]; [apply Hk|done]. Qed.
Lemma calm_ignoring {A} (t : T A) : Calm t -> Calm (ignoring t).
Proof. intros Ht. apply calm_tbind; [done|]. intros a. done. Qed.
End relay.

(** Split a task into its actions. *)
Ltac quiet :=
  repeat first
  [ progress intros
  | apply quiet_bind
  | apply quiet_tbind
  | apply quiet_ignoring
  | apply quiet_transaction; holding
  | apply quiet_execute_checked
  | apply quiet_on_devices
  | apply quiet_atomic; intros; reflexivity
  | apply quiet_Ret
  | match goal with |- Quiet (match ?x with _ => _ end) => destruct x end ].

Section tasks.
Context `{NamedLocker, !NamedLockerLaws, DeviceInfoDB, Clock, JsonStrings, SqlNumbers, CharTables}.
Context (self : RelayManager).

Lemma quiet_allocate_locked req : Quiet (allocate_locked self req).
Proof.
  unfold allocate_locked, allocate_zone_relay_inner, reusable_assignment, lookup_geo_for_allocation,
    choose_automatic_relay, assign_zone_relay, choose_relay_node, sticky_node, upsert_assignment,
    record_pending_allocation, clear_pending_allocation, get_zone_relay, get_relay_node, get_relay_node_by_sn,
    list_relay_nodes, fetch_assignment_for_update.
  quiet.
Qed.

Lemma calm_allocate req : Calm (allocate_zone_relay self req).
Proof.
  apply calm_bind; [by apply calm_quiet, quiet_Ret|]. intros _. apply calm_bind; [by apply calm_quiet, quiet_Ret|]. intros _.
  apply calm_bind; [by apply calm_quiet, quiet_atomic|]. intros _.
  eapply disc_tbind; [by apply disc_get_locker|]. intros _ ->.
  eapply disc_tbind; [apply quiet_allocate_locked|]. intros r _.
  eapply disc_tbind; [apply disc_drop_locker|]. by intros _ ->.
Qed.

Lemma calm_retry : Calm (retry_pending_allocations self).
Proof.
  apply calm_bind; [by apply calm_quiet, quiet_atomic|]. intros rows.
  induction rows as [|[zone row] rows IH]; [by apply calm_quiet, quiet_Ret|].
  apply calm_bind; [apply calm_ignoring, calm_allocate|done].
Qed.

(** Requests whose locks are those of allocations. *)
Ltac calm :=
  repeat first
  [ progress intros
  | apply calm_retry
  | apply calm_allocate
  | solve [apply calm_quiet; quiet]
  | apply calm_bind
  | apply calm_tbind
  | apply calm_ignoring
  | match goal with |- Calm (match ?x with _ => _ end) => destruct x end ].

Lemma calm_task c : Calm (relay_task self c).
Proof.
  destruct c; unfold relay_task; (apply calm_tbind; [|intros a; apply calm_quiet, quiet_Ret]).
  - unfold register_relay_node, ensure_relay_sn_unique, registration_tx, get_relay_node. calm.
  - unfold heartbeat_relay_node, heartbeat_tx, get_relay_node. calm.
  - unfold update_relay_node_addresses, address_tx, get_relay_node. calm.
  - unfold get_relay_node. calm.
  - unfold list_relay_nodes. calm.
  - unfold get_relay_nodes_ip_map_snapshot. calm.
  - unfold assign_zone_relay, choose_relay_node, sticky_node, upsert_assignment, get_zone_relay,
      get_relay_node, get_relay_node_by_sn, fetch_assignment_for_update. calm.
  - apply calm_allocate.
  - unfold get_zone_relay. calm.
  - unfold check_relay_admission, resolve_assignment_for_admission, verify_device_binding,
      build_admission_decision, record_admission_event, get_zone_relay, get_relay_node. calm.
  - unfold start_relay_migration, choose_relay_node, sticky_node, upsert_assignment, get_zone_relay,
      get_relay_node, get_relay_node_by_sn. calm.
  - unfold complete_relay_migration, complete_assignment_migration. calm.
Qed.
End tasks.

(** ** Requests of the account database *)

Section auth.
Context `{NamedLocker, !NamedLockerLaws, DeviceInfoDB, Clock, JsonStrings, SqlNumbers, CharTables}.
Context `{JsonKeys, RowOrder, SqlxNull}.
Context (self : RelayManager).

Definition sn_locks (w : SnWorld) : LockState := w_locks (sw_relay w).

Notation Disc := (Disc sn_locks lock_level).

Lemma disc_on_relay {A} (t : Task World A) L L' Q :
  Locks.Disc w_locks lock_level t L L' Q -> Disc (on_relay t) L L' Q.
Proof.
  revert L. induction t as [a|X act k IH]; intros L Ht; simpl in *; [done|].
  assert (Hk : forall L1, (forall r x r', act r = Some (x, r') -> Locks.Disc w_locks lock_level (k x) L1 L' Q) ->
    forall w x w', match act (sw_relay w) with Some (x, r) => Some (x, mkSnWorld (sw_auth w) r) | None => None end = Some (x, w') ->
    Disc (on_relay (k x)) L1 L' Q).
  { intros L1 Hk w x w'. destruct (act (sw_relay w)) as [[y r]|] eqn:E; [|done]. intros [= <- _]. by eapply IH, Hk. }
  destruct Ht as [(n & Ha & HL & Hn)|[(n & L1 & -> & Hr & Hn)|[He Hn]]].
  - left. exists n. split_and!; [|done|by apply Hk]. intros w. specialize (Ha (sw_relay w)).
    by destruct (act (sw_relay w)) as [[x r]|].
  - right; left. exists n, L1. split_and!; [done| |by apply Hk]. intros w. specialize (Hr (sw_relay w)).
    by destruct (act (sw_relay w)) as [[x r]|].
  - right; right. split; [|by apply Hk]. intros w. specialize (He (sw_relay w)). by destruct (act (sw_relay w)) as [[x r]|].
Qed.

Definition ADisc {A} (t : Task SnWorld A) (L : list string) : Prop := Disc t L L (fun _ => True).

Lemma adisc_Ret {A} (a : A) L : ADisc (Ret a) L.
Proof. done. Qed.
Lemma adisc_tbind {A B} (t : Task SnWorld A) (f : A -> Task SnWorld B) L :
  ADisc t L -> (forall a, ADisc (f a) L) -> ADisc (tbind t f) L.
Proof. intros Ht Hf. eapply disc_tbind; [apply Ht|]. intros a _. apply Hf. Qed.
Lemma adisc_abind {A B} (t : AT A) (f : A -> AT B) L : ADisc t L -> (forall a, ADisc (f a) L) -> ADisc (abind t f) L.
Proof. intros Ht Hf. apply adisc_tbind; [done|]. intros [a|e]; [apply Hf|done]. Qed.
Lemma adisc_atomic {A} (f : SnWorld -> A * SnWorld) L : (forall w, sn_locks (f w).2 = sn_locks w) -> ADisc (atomic f) L.
Proof. intros Hf. by apply disc_atomic. Qed.
Lemma adisc_select {A} (f : AuthTables -> A) L : ADisc (select f) L.
Proof. by apply adisc_atomic. Qed.
Lemma adisc_transact {A} (f : Tx AuthTables A) L : ADisc (transact f) L.
Proof. apply adisc_atomic. intros w. by destruct (f (sw_auth w)) as [[??]|]. Qed.
Lemma adisc_now L : ADisc auth_now L.
Proof. by apply adisc_atomic. Qed.
Lemma adisc_transact_now {A} (f : Z -> Tx AuthTables A) L : ADisc (transact_now f) L.
Proof. apply adisc_atomic. intros w. by destruct (f (now_of (sw_relay w)) (sw_auth w)) as [[??]|]. Qed.
Lemma adisc_transact_both {A} (f : Z -> Tx (AuthTables * Tables) A) L : ADisc (transact_both f) L.
Proof. apply adisc_atomic. intros w. by destruct (f _ _) as [[?[??]]|]. Qed.
Lemma adisc_quiet {A} (t : Task World A) L : Quiet t -> ADisc (on_relay t) L.
Proof. intros Ht. apply disc_on_relay, Ht. Qed.

Lemma adisc_locker {A} name (t : AT A) L :
  Forall (fun m => lock_level m < lock_level name)%nat L -> ADisc t (name :: L) -> ADisc (with_locker name t) L.
Proof.
  intros HL Ht. eapply disc_tbind; [by apply disc_on_relay, disc_get_locker|]. intros _ ->.
  eapply disc_tbind; [apply Ht|]. intros r _. eapply disc_tbind; [apply disc_on_relay, disc_drop_locker|]. by intros _ ->.
Qed.

(** A transaction of tasks that take no lock. *)
Definition AHolding {A} (t : Task SnWorld A) : Prop :=
  forall w, exists a w', run t w = Some (a, w') /\ sn_locks w' = sn_locks w.

Lemma run_on_relay {A} (t : Task World A) w :
  run (on_relay t) w =
  match run t (sw_relay w) with Some (a, r) => Some (a, mkSnWorld (sw_auth w) r) | None => None end.
Proof.
  revert w. induction t as [a|X act k IH]; intros w; simpl; [by destruct w|].
  destruct (act (sw_relay w)) as [[x r]|]; [|done]. by rewrite IH.
Qed.

Lemma aholding_on_relay {A} (t : Task World A) : EndsHolding t -> AHolding (on_relay t).
Proof.
  intros Ht w. rewrite run_on_relay. destruct (Ht (sw_relay w)) as (a & r & -> & Hl). eauto.
Qed.

Lemma aholding_abind {A B} (t : AT A) (f : A -> AT B) : AHolding t -> (forall a, AHolding (f a)) -> AHolding (abind t f).
Proof.
  intros Ht Hf w. unfold abind. rewrite run_tbind. destruct (Ht w) as ([a|e] & w1 & -> & Hl); [|by eauto].
  destruct (Hf a w1) as (b & w2 & -> & Hl2). exists b, w2. split; [done|congruence].
Qed.

Lemma aholding_transact_now {A} (f : Z -> Tx AuthTables A) : AHolding (transact_now f).
Proof.
  intros w. unfold transact_now. rewrite run_atomic.
  destruct (f (now_of (sw_relay w)) (sw_auth w)) as [[??]|]; by eexists _, _.
Qed.

Lemma holding_commit req plan : EndsHolding (commit_registration_allocation req plan).
Proof.
  unfold commit_registration_allocation, registration_assignment, insert_registration_assignment_tx,
    record_registration_pending_tx, record_pending_allocation, clear_pending_allocation. holding.
Qed.

Lemma quiet_plan req : Quiet (plan_registration_allocation self req).
Proof.
  unfold plan_registration_allocation, lookup_geo_for_allocation, choose_automatic_relay, list_relay_nodes. quiet.
Qed.

Lemma adisc_auth_transaction {A} (commit : A -> bool) (t : AT A) L : AHolding t -> ADisc (auth_transaction commit t) L.
Proof.
  intros Ht. right; right. split; [|done]. intros w. destruct (Ht w) as ([a|e] & w' & -> & Hl); [|done]. by destruct (commit a).
Qed.

(** The levels are in order. *)
Lemma below_email code email : Forall (fun m => lock_level m < lock_level (email_lock email))%nat [active_code_lock code].
Proof. constructor; [|constructor]. unfold lock_level. destruct code, email; simpl; lia. Qed.
Lemma below_zone email code zone :
  Forall (fun m => lock_level m < lock_level (zone_lock zone))%nat [email_lock email; active_code_lock code].
Proof. rewrite !Forall_cons, Forall_nil. unfold lock_level. destruct code, email; simpl; lia. Qed.
Lemma below_binding email code :
  Forall (fun m => lock_level m < lock_level USER_DOMAIN_BINDING_LOCK)%nat [email_lock email; active_code_lock code].
Proof. rewrite !Forall_cons, Forall_nil. unfold lock_level. destruct code, email; simpl; lia. Qed.

Lemma adisc_register code u e h s al L : L = [] -> ADisc (register_user code u e h s al) L.
Proof.
  intros ->. apply adisc_abind; [done|]. intros email. apply adisc_locker; [done|].
  apply adisc_locker; [apply below_email|]. apply adisc_transact_now.
Qed.

Lemma aholding_register_tx req email plan : AHolding (register_with_relay_tx req email plan).
Proof.
  apply aholding_abind; [apply aholding_transact_now|]. intros b. destruct (negb b); [intros w; by exists (SOk None), w|].
  apply aholding_abind; [apply aholding_on_relay, holding_commit|]. intros r w. by eexists _, _.
Qed.

Lemma adisc_register_relay req : ADisc (register_user_with_relay_allocation self req) [].
Proof.
  apply adisc_abind; [done|]. intros email. apply adisc_locker; [done|]. apply adisc_locker; [apply below_email|].
  apply adisc_locker; [apply below_zone|]. apply adisc_tbind; [apply adisc_quiet, quiet_plan|]. intros plan.
  apply adisc_abind; [|intros [[a|e]|]; apply adisc_Ret]. apply adisc_auth_transaction, aholding_register_tx.
Qed.
End auth.

(** Split a request into its actions. *)
Ltac adisc :=
  repeat first
  [ progress intros
  | apply adisc_Ret
  | apply adisc_select
  | apply adisc_transact
  | apply adisc_now
  | apply adisc_transact_now
  | apply adisc_transact_both
  | apply adisc_locker; [first [apply below_email|apply below_binding|by constructor]|]
  | apply adisc_abind
  | apply adisc_tbind
  | apply adisc_quiet; quiet
  | match goal with |- ADisc (match ?x with _ => _ end) _ => destruct x end ].

Section auth_tasks.
Context `{NamedLocker, !NamedLockerLaws, DeviceInfoDB, Clock, JsonStrings, SqlNumbers, CharTables}.
Context `{JsonKeys, RowOrder, SqlxNull}.
Context (self : RelayManager).

Lemma adisc_task c : ADisc (auth_task self c) [].
Proof.
  destruct c; unfold auth_task; (apply adisc_tbind; [|intros r; apply adisc_Ret]).
  - apply adisc_transact.
  - apply adisc_transact.
  - apply adisc_transact_both.
  - by apply adisc_register.
  - apply adisc_register_relay.
  - unfold register_user_with_owner_key. adisc.
  - unfold set_user_state, revoke_user_sessions. adisc.
  - unfold update_user_public_key. adisc.
  - unfold update_zone_info, get_zone_info, relay_projection, get_zone_relay. adisc.
  - unfold update_user_domain. adisc.
  - apply adisc_transact.
  - unfold activate_user_domain_binding. adisc.
  - unfold unbind_user_domain. adisc.
  - unfold put_user_dns_value. adisc.
  - unfold remove_user_dns_value. adisc.
  - unfold delete_user_dns_rrset. adisc.
  - unfold set_user_dns_rrset_ttl. adisc.
  - unfold get_user_dns_rrset. adisc.
  - unfold list_user_dns_changes. adisc.
  - unfold get_user_info, project_optional, project_user_relay, relay_projection, get_zone_relay. adisc.
  - unfold get_user_by_domain, project_optional, project_user_relay, relay_projection, get_zone_relay. adisc.
  - apply adisc_transact.
  - apply adisc_transact.
  - apply adisc_transact.
  - apply disc_on_relay, calm_task.
Qed.
End auth_tasks.
