(* ===== verification/AuthFacts.v ===== *)
(** * Account database: theorems

    A registration with a relay is atomic, the tables stay well formed under
    every interleaving, the change feed is complete, requests are answered, and
    what the operations on activation codes, domains and DNS records do. *)

From S2P Require Import Prelude IpAddr Tasks Locks RelayModel RelayStore Relay RelaySafe RelayInv RelaySeq RelayFacts AuthModel AuthStore Auth AuthDb AuthDns AuthDnsOps AuthTexts AuthInv AuthTx AuthKeeps AuthLocks.

(** ** The system *)

Section system.
Context `{NamedLocker, DeviceInfoDB, Clock, JsonStrings, !JsonStringsLaws, SqlNumbers, CharTables}.
Context `{JsonKeys, RowOrder, SqlxNull}.
Context (self : RelayManager).

Notation reachable := (rtc (sys_step (auth_task self) auth_call_ok)).

Lemma sound_call c : auth_call_ok c ->
  Safe SnInv SnStep (auth_task self c) (fun _ => True) (fun r _ => (fun _ _ => True) c r).
Proof. apply (sound_auth_task self). Qed.

Lemma system_ok w s : SnInv w -> reachable (started w) s ->
  sys_ok SnInv SnStep (fun (_ : AuthCall) (_ : AuthReply) => True) s.
Proof. intros HI Hs. by apply (sys_safe SnInv SnStep (auth_task self) auth_call_ok _ w s sound_call). Qed.

(** C16: Whatever requests arrive and however their actions interleave, the tables
    of the account database and of the relay manager stay well formed: every user
    has credentials and the other way round, an e-mail address and an activation
    code belong to one user at most and the code of a user is used, a domain has
    one active binding at most and the cached domain of a user is one of its own,
    every row refers to a user that exists, DNS names are canonical and belong to
    users that are not deleted, and every RRset has a name, a lifetime in range and a revision that was given
    out. *)
Theorem accounts_invariant w s :
  auth_wf (sw_auth w) -> tables_wf (w_db (sw_relay w)) -> reachable (started w) s ->
  auth_wf (sw_auth (sys_world s)) /\ tables_wf (w_db (sw_relay (sys_world s))).
Proof. intros Ha Hr Hs. destruct (system_ok w s (conj Ha Hr) Hs) as (HI & _). exact HI. Qed.

Lemma step_evolves w w' : rtc SnStep w w' -> dns_evolves (a_dns (sw_auth w)) (a_dns (sw_auth w')).
Proof. intros Hst. induction Hst as [|w1 w2 w3 [He _] _ IH]; [done|by etrans]. Qed.

(** C17: The DNS change feed is complete.  Between any two moments of any
    interleaving, if what a lookup of a name and a type gives has changed, then
    the revision has moved on and the feed of the later moment has a row above the
    revision of the earlier moment for that name and that type, or for the
    deletion of the name, unless more changes have happened since than the feed
    keeps, which the gap in front of its oldest row shows. *)
Theorem change_feed_complete w s s' n ty :
  SnInv w -> reachable (started w) s -> reachable s s' ->
  let d := a_dns (sw_auth (sys_world s)) in
  let d' := a_dns (sw_auth (sys_world s')) in
  user_dns_rrset d n ty <> user_dns_rrset d' n ty ->
  d_revision d < d_revision d' /\
  ((exists r row, d_revision d < r <= d_revision d' /\ d_changes d' !! r = Some row /\ tells n ty row) \/
   d_revision d + 1 < oldest d').
Proof.
  intros HI Hs Hs' d d' Hne. pose proof (system_ok w s HI Hs) as Hok.
  pose proof (sys_guarantee SnInv SnStep (auth_task self) auth_call_ok _ s s' sound_call Hok Hs') as HG.
  pose proof (step_evolves _ _ HG) as Hev. destruct (ev_tells _ _ Hev n ty Hne) as (r & Hr & Hrow).
  fold d d' in Hr, Hrow. split; [lia|].
  assert (Hwf : dns_wf d').
  { destruct (system_ok w s' HI) as ([Ha _] & _); [by etrans|]. apply Ha. }
  destruct (d_changes d' !! r) as [row|] eqn:E; [left; by exists r, row|right].
  assert (Hgone : ~ retained (d_revision d') r) by (rewrite <- (dw_kept d' Hwf r), E; by intros []).
  rewrite retained_iff in Hgone. lia.
Qed.

(** C18: Requests do not block each other for good: from a world in which no lock
    is held, whatever requests have arrived and however far each has come, the
    requests that are there all get their replies, in any order of their actions:
    no run of them is infinite, and a run only stops when none is left. *)
Theorem requests_answered `{!NamedLockerLaws} w s :
  no_lock_held (sw_relay w) -> reachable (started w) s ->
  Acc (flip (proceeds (auth_task self))) s /\
  ((forall s', ~ proceeds (auth_task self) s s') -> sys_tasks s = []).
Proof.
  intros Hno Hs. apply (all_answered sn_locks lock_level (auth_task self) auth_call_ok) with (w := w); [|done|done].
  intros c _. apply (adisc_task self c).
Qed.

(** C20: A page of the change feed, read while nothing else happens: its changes
    are those of consecutive revisions after the asked one, from the first that is
    still kept, at most the limit, each with the name, the type and the operation
    of its row; it names the current revision and the oldest that is kept. *)
Theorem change_page_exact w after limit :
  dns_wf (a_dns (sw_auth w)) -> 0 <= after < 2 ^ 63 -> 1 <= limit <= 1000 ->
  let d := a_dns (sw_auth w) in
  let start := Z.max (after + 1) (oldest d) in
  exists p, run (list_user_dns_changes after limit) w = Some (SOk p, w) /\
    pg_current_revision p = d_revision d /\ pg_earliest_available_revision p = oldest d /\
    (ch_revision <$> pg_changes p) = seqZ start (Z.min limit (d_revision d + 1 - start)) /\
    forall ch, ch ∈ pg_changes p -> exists row, d_changes d !! ch_revision ch = Some row /\
      cw_name row = ch_name ch /\ cw_record_type row = as_str <$> ch_record_type ch /\
      cw_operation row = as_str (ch_operation ch).
Proof.
  intros Hwf Ha Hl d start. pose proof (dw_revision _ Hwf) as Hrev.
  destruct (change_page_ok (d_revision d) (earliest_change d) (change_rows after (Z.to_nat limit) d)) as (chs & Hp & Hf);
    [fold d in Hrev; lia|intros r row; by apply rows_readable|].
  eexists. split_and!.
  - unfold list_user_dns_changes, refuse_if. rewrite (proj2 (Z.leb_le 1 limit)), (proj2 (Z.leb_le limit 1000)) by lia.
    unfold abind. simpl. rewrite u64_as_i64_small by lia. fold d. rewrite Hp. reflexivity.
  - done.
  - simpl. rewrite earliest_change_eq by done. fold d in Hrev. destruct (Z.eqb_spec (d_revision d) 0) as [E|E].
    + unfold oldest, u64_saturating_add, USER_DNS_CHANGE_RETENTION. rewrite E. lia.
    + apply i64_to_u64_pos. unfold oldest. lia.
  - simpl. transitivity (fst <$> change_rows after (Z.to_nat limit) d).
    + apply list_eq_Forall2. eapply Forall2_fmap_2, Forall2_flip, Forall2_impl; [exact Hf|]. by intros row ch (-> & _).
    + rewrite change_rows_keys by done. unfold page_start. fold start. f_equal. lia.
  - simpl. intros ch [i Hi]%list_elem_of_lookup. destruct (Forall2_lookup_r _ _ _ _ _ Hf Hi) as ([r row] & Hr & Hch & Hn & Ht & Ho).
    apply list_elem_of_lookup_2, change_rows_elem in Hr as [Hr _]. simpl in *. exists row. rewrite Hch, Hn. done.
Qed.
End system.

(** ** Domains *)

Section domains.
Context `{JsonKeys}.

(** The effect of an activation, with the names that [LIKE] finds. *)
Lemma activation_effect u dom pkx now t :
  auth_wf t -> active_user t u = Some true ->
  d_revision (a_dns t) + Z.of_nat (size (d_names (a_dns t)) * size (d_names (a_dns t))) < 2 ^ 63 ->
  exists t', activate_user_domain_binding_tx u dom pkx now t = SOk (tt, t') /\ auth_wf t' /\
    (forall v, active_for t' dom v <-> v = u) /\
    (forall v row, a_users t' !! v = Some row -> us_user_domain row = Some dom <-> v = u) /\
    (forall d v, d <> dom -> active_for t' d v <-> active_for t d v) /\
    (forall n, foreign_to u dom (a_dns t) n -> d_names (a_dns t') !! n = None) /\
    (forall n, ~ foreign_to u dom (a_dns t) n ->
       d_names (a_dns t') !! n = d_names (a_dns t) !! n /\
       forall ty, user_dns_rrset (a_dns t') n ty = user_dns_rrset (a_dns t) n ty).
Proof.
  intros Hwf Hact Hroom. unfold active_user in Hact. destruct (a_users t !! u) as [row|] eqn:Eu; [|done].
  simpl in Hact. injection Hact as Ha.
  assert (Hrun : activate_user_domain_binding_tx u dom pkx now t = activate_binding_tx u dom pkx now t).
  { unfold activate_user_domain_binding_tx. autorewrite with tx. rewrite Eu. simpl. autorewrite with tx.
    rewrite Ha. simpl. by autorewrite with tx. }
  pose proof (keeps_activate_binding u dom pkx now) as Hkeep. unfold keeps in Hkeep. rewrite Hrun in *.
  pose proof (activate_run u dom pkx now t (bindings_but _ _ (wf_bindings t Hwf)) (wf_dns t Hwf)) as Hac.
  specialize (Hac ltac:(by rewrite Eu)). specialize (Hkeep t).
  destruct (activate_binding_tx u dom pkx now t) as [[[] t']|e]; [|lia].
  destruct (Hkeep tt t' Hwf ltac:(by rewrite Hrun)) as [Hwf' _]. destruct Hac as [Hb (_ & _ & Hfew) Hm Hg].
  assert (Huniq : forall v, active_for t' dom v <-> v = u).
  { intros v. split; [|intros ->; apply Hb]. intros (i & b & Hi & Hai & Hdi & Hoi).
    destruct (bd_active _ _ _ _ _ Hb) as (j & c & Hj & Haj & Hdj & Hoj).
    assert (i = j) as -> by (apply (bw_active _ _ (bd_bindings _ _ _ _ _ Hb) i j b c); congruence). congruence. }
  exists t'. split_and!; try done.
  - intros v r Hr. split.
    + intros Hd. apply Huniq. by apply (bw_cache _ _ (wf_bindings t' Hwf') v r).
    + intros ->. rewrite (bd_cached _ _ _ _ _ Hb row) in Hr by done. by injection Hr as <-.
  - apply Hb.
  - intros n Hn. by apply (mutations_off _ _ _ n Hm).
Qed.

(** A name of another user in the zone of the domain. *)
Definition taken_over (u dom : string) (d : DnsTables) (n : string) : Prop :=
  exists row, d_names d !! n = Some row /\ nm_owner row <> u /\ in_zone n dom.

Lemma taken_over_foreign u dom t n :
  auth_wf t -> plain_domain dom -> taken_over u dom (a_dns t) n <-> foreign_to u dom (a_dns t) n.
Proof.
  intros Hwf Hd. unfold taken_over, foreign_to. split; intros (row & Hn & Ho & Hz); exists row; split_and!; try done;
    apply (under_domain_plain n dom); try done; by apply (wf_owned t Hwf n row).
Qed.


(** C37: The domain of a binding is put into a [LIKE] pattern as it is, where an
    underscore stands for any character.  Activating a domain with an underscore,
    in the form of a DNS name, therefore deletes the names of other users that
    end with a dot and the domain with another character in its place, although
    they are not under the domain. *)
Theorem wildcard_domain_takes_names u l c r name pkx now t row :
  let dom := l +:+ String "_" r in
  let n := name +:+ "." +:+ l +:+ String c r in
  auth_wf t -> active_user t u = Some true -> dns_name_ok dom -> c <> "_"%char ->
  d_revision (a_dns t) + Z.of_nat (size (d_names (a_dns t)) * size (d_names (a_dns t))) < 2 ^ 63 ->
  d_names (a_dns t) !! n = Some row -> nm_owner row <> u ->
  ~ in_zone n dom /\
  exists t', activate_user_domain_binding_tx u dom pkx now t = SOk (tt, t') /\
    d_names (a_dns t') !! n = None /\ forall ty, user_dns_rrset (a_dns t') n ty = None.
Proof.
  intros dom n Hwf Hact Hd Hc Hroom Hn Ho. split; [by apply wildcard_out_of_zone|].
  destruct (activation_effect u dom pkx now t Hwf Hact Hroom) as (t' & E & Hwf' & _ & _ & _ & Hg & _).
  assert (Hgone : d_names (a_dns t') !! n = None).
  { apply Hg. exists row. split_and!; [done|done|]. apply under_domain_wildcard; [by apply (wf_owned t Hwf _ row)|done]. }
  exists t'. split_and!; try done. intros ty. apply no_name_no_rrset; [apply Hwf'|done].
Qed.
End domains.

Section lookup.
Context `{RowOrder, !RowOrderLaws}.

(** An active binding of an active user whose zone the domain is in. *)
Definition covers (t : AuthTables) (dom : string) (b : BindingRow) : Prop :=
  (exists id, a_bindings t !! id = Some b) /\ is_active_binding b = true /\ in_zone dom (bi_domain b) /\
  exists u, a_users t !! bi_owner b = Some u /\ us_state u = "active".

(** The bindings in force have domains without an underscore. *)
Definition bound_domains_plain (t : AuthTables) : Prop :=
  forall id b, a_bindings t !! id = Some b -> is_active_binding b = true -> plain_domain (bi_domain b).

Lemma elem_of_covering dom t b u :
  (b, u) ∈ covering_bindings dom t <->
  (exists id, a_bindings t !! id = Some b) /\ a_users t !! bi_owner b = Some u /\ is_active_binding b = true /\
  us_state u = "active" /\ under_domain dom (bi_domain b) = true.
Proof.
  unfold covering_bindings. rewrite stable_sort_Permutation, scan_Permutation, list_elem_of_omap. split.
  - intros ([id b'] & Hin%elem_of_map_to_list & He). destruct (a_users t !! bi_owner b') as [u'|] eqn:Eu; [|done].
    destruct (_ && _) eqn:E; [|done]. injection He as -> ->.
    apply andb_true_iff in E as [[Ha Hs]%andb_true_iff Hd]. apply String.eqb_eq in Hs. split_and!; eauto.
  - intros ([id Hb] & Hu & Ha & Hs & Hd). exists (id, b). rewrite elem_of_map_to_list. split; [done|].
    by rewrite Hu, Ha, Hs, Hd.
Qed.

(** The answer is the owner of a binding that covers the domain, and no other
    that does has a longer domain; without an answer nothing covers it. *)
Definition longest_owner (t : AuthTables) (dom : string) (answer : option SNUserInfo) : Prop :=
  match answer with
  | Some info =>
      exists b u, covers t dom b /\ a_users t !! bi_owner b = Some u /\
        ui_username info = Some (bi_owner b) /\ ui_user_domain info = Some (bi_domain b) /\
        ui_public_key info = us_public_key u /\
        forall b', covers t dom b' -> (String.length (bi_domain b') <= String.length (bi_domain b))%nat
  | None => forall b, ~ covers t dom b
  end.

Lemma covers_row t dom b :
  dns_name_ok dom -> bound_domains_plain t ->
  covers t dom b <-> exists u, (b, u) ∈ covering_bindings dom t.
Proof.
  intros Hd Hp. unfold covers. setoid_rewrite elem_of_covering. split.
  - intros ([id Hid] & Ha & Hz & u & Hu & Hs). exists u. split_and!; try done; [by exists id|].
    apply under_domain_plain; [done|by apply (Hp id)|done].
  - intros (u & [id Hid] & Hu & Ha & Hs & Hz). split_and!; [by exists id|done| |by exists u].
    by apply under_domain_plain; [|apply (Hp id)|].
Qed.

End lookup.

(** ** Activation codes *)

(** The codes of some draws that are not in the table. *)
Definition fresh_codes (draws : list (list nat)) (t : AuthTables) : gset string :=
  list_to_set (generate_activation_code <$> draws) ∖ dom (a_codes t).

(** The codes [codes] are in the table, unused, and nothing else has changed. *)
Record codes_added (codes : list string) (t t' : AuthTables) : Prop := mkCodesAdded {
  ca_new : NoDup codes /\ forall c, c ∈ codes -> a_codes t !! c = None;
  ca_codes c : a_codes t' !! c = if bool_decide (c ∈ codes) then Some 0 else a_codes t !! c;
  ca_rest : t' = on_codes (fun _ => a_codes t') t
}.

Lemma codes_added_snoc c codes t t1 :
  codes_added codes t t1 -> a_codes t1 !! c = None ->
  codes_added (codes ++ [c]) t (on_codes <[c := 0]> t1).
Proof.
  intros [[Hnd Hnew] Hc Hr] Hno. assert (Hout : c ∉ codes).
  { intros Hin. rewrite Hc, bool_decide_eq_true_2 in Hno; done. }
  assert (Hold : a_codes t !! c = None) by (by rewrite Hc, bool_decide_eq_false_2 in Hno).
  split; simpl.
  - split; [apply NoDup_app; split_and!; [done|set_solver|apply NoDup_singleton]|].
    intros x [Hx|Hx]%elem_of_app; [by apply Hnew|by apply list_elem_of_singleton in Hx as ->].
  - intros x. destruct (decide (x = c)) as [->|Hne]; [rewrite lookup_insert_eq, bool_decide_eq_true_2; [done|set_solver]|].
    rewrite lookup_insert_ne, Hc by done. by rewrite (bool_decide_ext (x ∈ codes ++ [c]) (x ∈ codes)) by set_solver.
  - rewrite Hr. by destruct t.
Qed.

Lemma fresh_codes_size draw draws t :
  a_codes t !! generate_activation_code draw = None ->
  size (fresh_codes (draw :: draws) t) =
    S (size (fresh_codes draws (on_codes <[generate_activation_code draw := 0]> t))).
Proof.
  intros Hno. apply not_elem_of_dom in Hno. unfold fresh_codes. simpl. set (c := generate_activation_code draw) in *.
  rewrite dom_insert_L. set (X := list_to_set _ : gset string).
  replace (({[c]} ∪ X) ∖ dom (a_codes t)) with ({[c]} ∪ X ∖ ({[c]} ∪ dom (a_codes t))).
  - rewrite size_union by set_solver. by rewrite size_singleton.
  - apply set_eq. intros x. destruct (decide (x = c)) as [->|]; set_solver.
Qed.

Lemma generate_codes_run draws count codes t t1 :
  (length codes <= count)%nat -> codes_added codes t t1 ->
  match generate_codes_loop draws count codes t1 with
  | SOk (Some codes', t') =>
      length codes' = count /\ (forall c, c ∈ codes' -> c ∈ codes \/ c ∈ generate_activation_code <$> draws) /\
      codes_added codes' t t'
  | SOk (None, _) => (length codes + size (fresh_codes draws t1) < count)%nat
  | SErr _ => False
  end.
Proof.
  revert codes t1. induction draws as [|draw draws IH]; intros codes t1 Hlen Hadd; cbn [generate_codes_loop];
    destruct (Nat.leb_spec count (length codes)) as [Hle|Hlt]; try (split_and!; [lia|by left|done]).
  - unfold fresh_codes. simpl. replace (∅ ∖ dom (a_codes t1)) with (∅ : gset string) by set_solver. rewrite size_empty. lia.
  - unfold tthen, try_insert_code. set (c := generate_activation_code draw).
    destruct (a_codes t1 !! c) as [z|] eqn:Ec; simpl.
    + specialize (IH codes t1 Hlen Hadd). destruct (generate_codes_loop draws count codes t1) as [[[codes'|] t']|]; try done.
      * destruct IH as (Hl & Hin & Ha). split_and!; [done| |done]. intros x Hx. destruct (Hin x Hx); [by left|right; by right].
      * replace (fresh_codes (draw :: draws) t1) with (fresh_codes draws t1); [done|].
        apply elem_of_dom_2 in Ec. unfold fresh_codes. simpl. fold c. set_solver.
    + specialize (IH (codes ++ [c]) (on_codes <[c := 0]> t1)). rewrite length_app in IH. simpl in IH.
      specialize (IH ltac:(lia) (codes_added_snoc c codes t t1 Hadd Ec)).
      destruct (generate_codes_loop draws count (codes ++ [c]) _) as [[[codes'|] t']|]; try done.
      * destruct IH as (Hl & Hin & Ha). split_and!; [done| |done]. intros x Hx.
        destruct (Hin x Hx) as [[?|Hs]%elem_of_app|]; [by left| |right; by right].
        apply list_elem_of_singleton in Hs as ->. right. left.
      * rewrite fresh_codes_size by done. fold c. lia.
Qed.

(** C38: Activation codes are generated exactly as asked.  Of the draws of the
    generator, if they hold at least [count] different codes that are not in the
    table the request is answered, with [count] different codes of the draws that
    were not in the table, are in it as unused now, and nothing else changed; with
    fewer it goes on drawing, and has committed nothing. *)
Theorem codes_generated draws count t :
  exists r t', generate_codes_tx draws count t = SOk (r, t') /\
    match r with
    | Some codes =>
        (count <= size (fresh_codes draws t))%nat /\ length codes = count /\
        (forall c, c ∈ codes -> c ∈ generate_activation_code <$> draws) /\ codes_added codes t t'
    | None => (size (fresh_codes draws t) < count)%nat /\ t' = t
    end.
Proof.
  assert (H0 : codes_added [] t t).
  { split; [split; [constructor|by intros c []%not_elem_of_nil]|done|by destruct t]. }
  pose proof (generate_codes_run draws count [] t t ltac:(simpl; lia) H0) as Hrun. unfold generate_codes_tx.
  destruct (generate_codes_loop draws count [] t) as [[[codes|] t']|]; [|by exists None, t|done].
  exists (Some codes), t'. split; [done|]. destruct Hrun as (Hl & Hin & Ha).
  assert (Hsub : forall c, c ∈ codes -> c ∈ generate_activation_code <$> draws).
  { intros c Hc. destruct (Hin c Hc) as [Hx|]; [by apply elem_of_nil in Hx|done]. }
  split_and!; try done. destruct (ca_new _ _ _ Ha) as [Hnd Hnew].
  rewrite <- Hl, <- (size_list_to_set (C := gset string)) by done. apply subseteq_size. intros c Hc.
  apply elem_of_list_to_set in Hc. unfold fresh_codes. apply elem_of_difference. split; [apply elem_of_list_to_set; by apply Hsub|].
  apply not_elem_of_dom. by apply Hnew.
Qed.

(** ** DNS requests *)

Section dns_requests.
Context `{NamedLocker, DeviceInfoDB, Clock, JsonStrings, SqlNumbers, CharTables}.
Context `{JsonKeys, RowOrder, SqlxNull}.

(** The requests of an owner that change the records of a name. *)
Inductive DnsRequest : Type :=
| DnsPut (value : string) (ttl : Z)
| DnsRemove (value : string)
| DnsDelete
| DnsTtl (ttl : Z).

Definition dns_request (owner name : string) (ty : UserDnsRecordType) (q : DnsRequest) : AT UserDnsMutationResult :=
  match q with
  | DnsPut value ttl => put_user_dns_value owner name ty value ttl
  | DnsRemove value => remove_user_dns_value owner name ty value
  | DnsDelete => delete_user_dns_rrset owner name ty
  | DnsTtl ttl => set_user_dns_rrset_ttl owner name ty ttl
  end.

(** What a request that succeeds makes of the RRset of [n] and [ty]. *)
Definition dns_effect (n : string) (ty : UserDnsRecordType) (q : DnsRequest) (d d' : DnsTables) : Prop :=
  match q with
  | DnsPut value ttl =>
      exists v, canonical_user_dns_rdata ty value = SOk v /\
        rw_ttl <$> d_rrsets d' !! (n, ty) =
          Some (match d_rrsets d !! (n, ty) with Some row => Z.min (rw_ttl row) ttl | None => ttl end) /\
        forall x, x ∈ rdata_of d' n ty <-> x ∈ rdata_of d n ty \/ (x = v /\ nul_first v = false)
  | DnsRemove value =>
      exists v, canonical_user_dns_rdata ty value = SOk v /\
        (if bool_decide (rdata_of d n ty = [v]) then d_rrsets d' !! (n, ty) = None
         else rw_ttl <$> d_rrsets d' !! (n, ty) = rw_ttl <$> d_rrsets d !! (n, ty)) /\
        forall x, x ∈ rdata_of d' n ty <-> x ∈ rdata_of d n ty /\ x <> v
  | DnsDelete => d_rrsets d' !! (n, ty) = None /\ rdata_of d' n ty = []
  | DnsTtl ttl =>
      is_Some (d_rrsets d !! (n, ty)) /\ rw_ttl <$> d_rrsets d' !! (n, ty) = Some ttl /\
      rdata_of d' n ty = rdata_of d n ty
  end.

(** What such a request does to the tables if it succeeds. *)
Record dns_changed (owner n : string) (ty : UserDnsRecordType) (q : DnsRequest) (m : UserDnsMutationResult)
    (t t' : AuthTables) : Prop := mkDnsChanged {
  dc_only_dns : t' = on_dns (fun _ => a_dns t') t;
  dc_active : match q with DnsPut _ _ => active_user t owner = Some true | _ => True end;
  dc_owner row : d_names (a_dns t) !! n = Some row -> nm_owner row = owner;
  dc_owner_after row : d_names (a_dns t') !! n = Some row -> nm_owner row = owner;
  dc_effect : dns_effect n ty q (a_dns t) (a_dns t');
  dc_rrsets n' ty' : (n', ty') <> (n, ty) ->
    user_dns_rrset (a_dns t') n' ty' = user_dns_rrset (a_dns t) n' ty';
  dc_names n' : n' <> n -> d_names (a_dns t') !! n' = d_names (a_dns t) !! n';
  dc_reply : mu_revision m = d_revision (a_dns t') /\ mu_rrset m = user_dns_rrset (a_dns t') n ty;
  dc_moved : if mu_changed m then d_revision (a_dns t') = d_revision (a_dns t) + 1 else a_dns t' = a_dns t
}.

Lemma not_foreign d owner n : ~ foreign_name d owner n -> forall row, d_names d !! n = Some row -> nm_owner row = owner.
Proof.
  intros Hnf row Hrow. destruct (decide (nm_owner row = owner)) as [|Hne]; [done|]. destruct Hnf. by exists row.
Qed.

Lemma unchanged_dns t : on_dns (fun _ => a_dns t) t = t.
Proof. by destruct t. Qed.

(** A request that changes nothing, and one that changes the RRset. *)
Lemma dns_unchanged owner n ty q t :
  match q with DnsPut _ _ => active_user t owner = Some true | _ => True end ->
  (forall row, d_names (a_dns t) !! n = Some row -> nm_owner row = owner) ->
  dns_effect n ty q (a_dns t) (a_dns t) ->
  dns_changed owner n ty q (mkMutation (d_revision (a_dns t)) false (user_dns_rrset (a_dns t) n ty)) t t.
Proof. intros Ha Ho He. by split; rewrite ?unchanged_dns. Qed.

Lemma mutated_rrsets n ty d d' n' ty' :
  mutated n (Some ty) d d' -> (n', ty') <> (n, ty) -> user_dns_rrset d' n' ty' = user_dns_rrset d n' ty'.
Proof.
  intros Hm Hne. destruct (mt_off _ _ _ _ Hm) as (_ & Hrr & Hrd). destruct (decide (n' = n)) as [->|Hn].
  - destruct (mt_types _ _ _ _ Hm ty ty' eq_refl) as [Hr Hv]; [congruence|].
    apply user_dns_rrset_ext; [done|]. intros v. by rewrite Hv.
  - apply user_dns_rrset_ext; [by apply Hrr|]. intros v. by rewrite Hrd.
Qed.

Lemma dns_mutated owner n ty q t d' :
  match q with DnsPut _ _ => active_user t owner = Some true | _ => True end ->
  (forall row, d_names (a_dns t) !! n = Some row -> nm_owner row = owner) ->
  (forall row, d_names d' !! n = Some row -> nm_owner row = owner) ->
  dns_effect n ty q (a_dns t) d' -> mutated n (Some ty) (a_dns t) d' ->
  dns_changed owner n ty q (mkMutation (d_revision (a_dns t) + 1) true (user_dns_rrset d' n ty)) t (on_dns (fun _ => d') t).
Proof.
  intros Ha Ho Ho' He Hm. pose proof (mt_revision _ _ _ _ Hm). split; simpl; try done.
  - intros n' ty'. by apply mutated_rrsets.
  - apply (mt_off _ _ _ _ Hm).
Qed.

Lemma put_changed owner n ty value v ttl now t m t' :
  auth_wf t -> dns_name_ok n -> USER_DNS_MIN_TTL <= ttl <= USER_DNS_MAX_TTL ->
  canonical_user_dns_rdata ty value = SOk v ->
  put_user_dns_value_tx owner n ty v ttl now t = SOk (m, t') -> dns_changed owner n ty (DnsPut value ttl) m t t'.
Proof.
  intros Hwf Hn Httl Hv. rewrite put_run by (done || apply Hwf || by apply dns_name_check_ok).
  destruct (active_user t owner) as [[]|] eqn:Ea; [|done|done].
  destruct (match d_names (a_dns t) !! n with Some _ => _ | None => _ end) eqn:Eo; [done|].
  assert (Hown : forall row, d_names (a_dns t) !! n = Some row -> nm_owner row = owner).
  { intros row Hrow. rewrite Hrow, negb_false_iff in Eo. by apply String.eqb_eq. }
  destruct (put_is_noop _ _ _ _ _) eqn:Ep.
  - intros [= <- <-]. apply dns_unchanged; [done..|]. exists v. split; [done|].
    unfold put_is_noop in Ep. apply andb_true_iff in Ep as [Ed Et].
    destruct (d_rrsets (a_dns t) !! (n, ty)) as [row|]; [|done]. apply Z.leb_le in Et. simpl.
    rewrite Z.min_l by done. split; [done|]. intros x. split; [by left|]. intros [?|[-> _]]; [done|].
    apply elem_of_rdata_of. by destruct (d_rdata _ !! _).
  - destruct (Z.leb_spec (2 ^ 63) (d_revision (a_dns t) + 1)); [done|]. intros [= <- <-].
    apply dns_mutated; [done|done| | |apply put_mutated; [apply Hwf|lia|done]].
    + intros row. unfold put_dns. simpl. rewrite lookup_insert_eq. intros [= <-].
      destruct (d_names (a_dns t) !! n) eqn:E; [|done]. simpl. by apply Hown.
    + exists v. split; [done|]. unfold put_dns. simpl. rewrite lookup_insert_eq. split; [done|].
      intros x. rewrite !elem_of_rdata_of. simpl. rewrite (canonical_rdata_check ty value v Hv), negb_involutive.
      destruct (is_some (d_rdata (a_dns t) !! (n, ty, v))) eqn:Ed; simpl.
      * split; [by left|]. intros [?|[-> _]]; [done|]. by destruct (d_rdata (a_dns t) !! (n, ty, v)).
      * destruct (nul_first v); simpl; [naive_solver|]. rewrite lookup_insert_is_Some'. naive_solver.
Qed.

(** The last value of an RRset. *)
Lemma only_value d n ty v :
  (forall x, x ∈ rdata_of d n ty <-> x = v) -> rdata_of d n ty = [v].
Proof.
  intros Hx. pose proof (rdata_of_NoDup d n ty) as Hnd. destruct (rdata_of d n ty) as [|y l].
  - exfalso. by apply (not_elem_of_nil v), Hx.
  - assert (y = v) as -> by (apply Hx; left). f_equal. destruct l as [|z l]; [done|].
    assert (z = v) as -> by (apply Hx; right; left). apply NoDup_cons in Hnd as [Hnd _]. destruct Hnd. left.
Qed.

Lemma removed_effect n ty value v d d' :
  dns_wf d -> dns_wf d' -> canonical_user_dns_rdata ty value = SOk v -> is_Some (d_rdata d !! (n, ty, v)) ->
  removed n ty (eq v) d d' -> dns_effect n ty (DnsRemove value) d d'.
Proof.
  intros Hwf Hwf' Hv Hin Hr. exists v. split; [done|].
  assert (Hval : forall x, x ∈ rdata_of d' n ty <-> x ∈ rdata_of d n ty /\ x <> v).
  { intros x. rewrite !elem_of_rdata_of, (rm_values _ _ _ _ _ Hr). naive_solver. }
  split; [|done]. destruct (d_rrsets d' !! (n, ty)) as [row|] eqn:Er.
  - destruct (rm_revision _ _ _ _ _ Hr row Er) as (_ & old & Hold & Ht).
    destruct (rm_filled _ _ _ _ _ Hr) as [x Hx]; [by rewrite Er|]. apply elem_of_rdata_of, Hval in Hx as [Hx Hne].
    rewrite bool_decide_eq_false_2; [|intros E; rewrite E in Hx; by apply list_elem_of_singleton in Hx].
    rewrite Hold. simpl. by rewrite Ht.
  - rewrite bool_decide_eq_true_2; [done|]. apply only_value. intros x.
    destruct (decide (x = v)) as [->|Hne]; [split; [done|intros _; by apply elem_of_rdata_of]|].
    split; [|done]. intros Hx. exfalso.
    assert (Hx' : x ∈ rdata_of d' n ty) by (by apply Hval). apply elem_of_rdata_of, (dw_rdata d' Hwf') in Hx' as [[? Hs] _].
    congruence.
Qed.

(** A name that is left after a removal belongs to whom it did. *)
Lemma removed_owner n ty gone owner d d' row :
  removed n ty gone d d' -> ~ foreign_name d owner n -> d_names d' !! n = Some row -> nm_owner row = owner.
Proof.
  intros Hr Hnf Hrow. rewrite (rm_owner _ _ _ _ _ Hr) in Hrow; [by eapply not_foreign|].
  apply (mt_name _ _ _ _ (rm_mutated _ _ _ _ _ Hr)). by rewrite Hrow.
Qed.

Lemma remove_changed owner n ty value v now t m t' :
  auth_wf t -> canonical_user_dns_rdata ty value = SOk v ->
  in_dns (remove_user_dns_value_tx owner n ty v now) t = SOk (m, t') -> dns_changed owner n ty (DnsRemove value) m t t'.
Proof.
  intros Hwf Hv. unfold in_dns. pose proof (wf_dns t Hwf) as Hd. pose proof (remove_run owner n ty v now (a_dns t) Hd) as Hrun.
  destruct (remove_user_dns_value_tx _ _ _ _ _ _) as [[m' d']|]; [|done]. intros [= -> <-].
  destruct Hrun as (Hnf & [(Hno & -> & ->)|(Hin & Hr & ->)]).
  - rewrite unchanged_dns. apply dns_unchanged; [done|by apply not_foreign|]. exists v. split; [done|].
    assert (Hout : forall x, x ∈ rdata_of (a_dns t) n ty -> x <> v).
    { intros x Hx ->. apply elem_of_rdata_of in Hx as [? Hx]. congruence. }
    rewrite bool_decide_eq_false_2; [|intros E; by apply (Hout v); [rewrite E; left|]]. split; [done|]. naive_solver.
  - pose proof (rm_mutated _ _ _ _ _ Hr) as Hm. apply dns_mutated; [done|by apply not_foreign| | |done].
    + intros row. by eapply removed_owner.
    + eapply removed_effect; [done|by eapply mutated_wf|done..].
Qed.

Lemma delete_changed owner n ty now t m t' :
  auth_wf t -> in_dns (delete_user_dns_rrset_tx owner n ty now) t = SOk (m, t') -> dns_changed owner n ty DnsDelete m t t'.
Proof.
  intros Hwf. unfold in_dns. pose proof (wf_dns t Hwf) as Hd. pose proof (delete_rrset_run owner n ty now (a_dns t) Hd) as Hrun.
  destruct (delete_user_dns_rrset_tx _ _ _ _ _) as [[m' d']|]; [|done]. intros [= -> <-].
  assert (Hnil : forall d, dns_wf d -> d_rrsets d !! (n, ty) = None -> rdata_of d n ty = []).
  { intros d Hwd Hno. apply length_zero_iff_nil, rdata_of_nil. intros v. apply eq_None_not_Some.
    intros [[? Hs] _]%(dw_rdata d Hwd). congruence. }
  destruct Hrun as (Hnf & [(Hno & -> & ->)|(_ & Hr & Hno & ->)]).
  - rewrite unchanged_dns. pose proof (dns_unchanged owner n ty DnsDelete t I (not_foreign _ _ _ Hnf)) as Hch.
    unfold user_dns_rrset in Hch. rewrite Hno in Hch. apply Hch. split; [done|by apply Hnil].
  - pose proof (rm_mutated _ _ _ _ _ Hr) as Hm.
    pose proof (dns_mutated owner n ty DnsDelete t d' I (not_foreign _ _ _ Hnf)) as Hch.
    unfold user_dns_rrset in Hch. rewrite Hno in Hch. apply Hch; [intros row; by eapply removed_owner| |done].
    split; [done|]. apply Hnil; [by eapply mutated_wf|done].
Qed.

Lemma ttl_changed owner n ty ttl now t m t' :
  auth_wf t -> USER_DNS_MIN_TTL <= ttl <= USER_DNS_MAX_TTL ->
  in_dns (set_user_dns_rrset_ttl_tx owner n ty ttl now) t = SOk (m, t') -> dns_changed owner n ty (DnsTtl ttl) m t t'.
Proof.
  intros Hwf Httl. unfold in_dns. rewrite ttl_run by apply Hwf.
  destruct (d_names (a_dns t) !! n) as [row|] eqn:En; [|done]. destruct (negb _) eqn:Eo; [done|].
  assert (Hown : forall r, d_names (a_dns t) !! n = Some r -> nm_owner r = owner).
  { rewrite negb_false_iff in Eo. apply String.eqb_eq in Eo. intros r Hr. congruence. }
  destruct (d_rrsets (a_dns t) !! (n, ty)) as [r|] eqn:Er; [|done].
  destruct (Z.eqb_spec (rw_ttl r) ttl) as [El|El].
  - intros [= <- <-]. rewrite unchanged_dns. apply dns_unchanged; [done..|]. simpl. rewrite Er. simpl. by rewrite El.
  - destruct (Z.leb_spec (2 ^ 63) (d_revision (a_dns t) + 1)); [done|]. intros [= <- <-].
    apply dns_mutated; [done|done|done| |eapply ttl_mutated; [apply Hwf|lia|done|done]].
    simpl. rewrite lookup_alter_eq, Er. done.
Qed.

Lemma ttl_same ttl l : validate_user_dns_ttl ttl = SOk l -> l = ttl.
Proof. unfold validate_user_dns_ttl, refuse_if. by destruct (negb _); intros [= <-]. Qed.

(** A checked argument, the clock and one transaction. *)
Lemma run_check {A B} (r : SnResult A) (k : A -> AT B) w :
  run (abind (alift r) k) w = match r with SOk a => run (k a) w | SErr e => Some (SErr e, w) end.
Proof. by destruct r. Qed.

Lemma run_now_transact {A} (f : Z -> Tx AuthTables A) w :
  run (abind auth_now (fun now => transact (f now))) w =
  Some (let now := now_of (sw_relay w) in
        match f now (sw_auth w) with
        | SOk (a, t) => (SOk a, mkSnWorld t (tick (sw_relay w)))
        | SErr e => (SErr e, mkSnWorld (sw_auth w) (tick (sw_relay w)))
        end).
Proof. unfold abind, auth_now, transact. simpl. by destruct (f _ _) as [[??]|]. Qed.

End dns_requests.

(** ** A value put and removed *)

Section round_trip.
Context `{JsonKeys}.

(** What is left of a put with the lifetime [ttl] once its value is removed: every
    other RRset is as before, and so are the names with their owners; the RRset
    itself has its values again, with the lifetime of the put if that is shorter,
    and a new revision. *)
Record restored (n : string) (ty : UserDnsRecordType) (ttl : Z) (d d' : DnsTables) : Prop := mkRestored {
  rs_names m : nm_owner <$> d_names d' !! m = nm_owner <$> d_names d !! m;
  rs_others m ty' : (m, ty') <> (n, ty) -> user_dns_rrset d' m ty' = user_dns_rrset d m ty';
  rs_values : rdata_of d' n ty = rdata_of d n ty;
  rs_rrset : (fun row => (rw_ttl row, rw_revision row)) <$> d_rrsets d' !! (n, ty) =
    (fun row => (Z.min (rw_ttl row) ttl, d_revision d + 2)) <$> d_rrsets d !! (n, ty)
}.

Lemma rrsets_of_rdata d d' :
  dns_wf d -> dns_wf d' -> dns_filled d -> dns_filled d' ->
  (forall n ty v, is_Some (d_rdata d' !! (n, ty, v)) <-> is_Some (d_rdata d !! (n, ty, v))) ->
  forall n ty, is_Some (d_rrsets d' !! (n, ty)) <-> is_Some (d_rrsets d !! (n, ty)).
Proof.
  intros Hwf Hwf' Hf Hf' Hv n ty. split.
  - intros (v & Hrd)%Hf'. by apply Hv, (dw_rdata d Hwf) in Hrd as [? _].
  - intros (v & Hrd)%Hf. by apply Hv, (dw_rdata d' Hwf') in Hrd as [? _].
Qed.

(** A put and a removal keep every RRset filled. *)
Lemma put_filled owner n ty value ttl now d :
  dns_filled d -> rdata_check value = true -> dns_filled (put_dns owner n ty value ttl now d).
Proof.
  intros Hf Hc m ty' Hm. unfold put_dns in *. simpl in *. rewrite Hc, orb_false_r.
  destruct (decide ((n, ty) = (m, ty'))) as [[= <- <-]|Hne].
  - exists value. destruct (d_rdata d !! (n, ty, value)) eqn:E; simpl; [by rewrite E|by rewrite lookup_insert_eq].
  - rewrite lookup_insert_ne in Hm by done. destruct (Hf m ty' Hm) as [v Hv]. exists v.
    destruct (d_rdata d !! (n, ty, value)); simpl; [done|]. rewrite lookup_insert_ne; [done|congruence].
Qed.

Lemma removed_filled n ty gone d d' : dns_wf d -> dns_filled d -> removed n ty gone d d' -> dns_filled d'.
Proof.
  intros Hwf Hf Hr m ty' Hm. destruct (decide (m = n)) as [->|Hne].
  - destruct (decide (ty' = ty)) as [->|Hty]; [by apply Hr|]. rewrite (rm_other_rrset _ _ _ _ _ Hr) in Hm by done.
    destruct (Hf n ty' Hm) as [v Hv]. exists v. by rewrite (rm_other_rdata _ _ _ _ _ Hr).
  - destruct (mt_off _ _ _ _ (rm_mutated _ _ _ _ _ Hr)) as (_ & Hrr & Hrd). rewrite Hrr in Hm by done.
    destruct (Hf m ty' Hm) as [v Hv]. exists v. by rewrite Hrd.
Qed.

(** A put of a value that is not there. *)
Lemma put_new_run owner n ty value ttl now t :
  auth_wf t -> active_user t owner = Some true -> dns_name_check n = true ->
  USER_DNS_MIN_TTL <= ttl <= USER_DNS_MAX_TTL -> ~ foreign_name (a_dns t) owner n ->
  d_rdata (a_dns t) !! (n, ty, value) = None -> d_revision (a_dns t) + 1 < 2 ^ 63 ->
  let d1 := put_dns owner n ty value ttl now (a_dns t) in
  put_user_dns_value_tx owner n ty value ttl now t =
    SOk (mkMutation (d_revision d1) true (user_dns_rrset d1 n ty), on_dns (fun _ => d1) t) /\
  mutated n (Some ty) (a_dns t) d1 /\ ~ foreign_name d1 owner n.
Proof.
  intros Hwf Hact Hn Httl Hnf Hnew Hroom d1. split_and!.
  - rewrite put_run by (done || apply Hwf). rewrite Hact. unfold put_is_noop. rewrite Hnew. simpl.
    rewrite (proj2 (Z.leb_gt _ _)) by lia. destruct (d_names (a_dns t) !! n) as [row|] eqn:En; [|done].
    assert (nm_owner row = owner) as -> by by eapply not_foreign. by rewrite String.eqb_refl.
  - apply put_mutated; [apply Hwf|lia|done].
  - intros (row & Hrow & Hne). unfold d1, put_dns in Hrow. simpl in Hrow. rewrite lookup_insert_eq in Hrow. injection Hrow as <-.
    destruct (d_names (a_dns t) !! n) as [row|] eqn:En; simpl in Hne; [|done]. by apply Hne, (not_foreign (a_dns t) owner n).
Qed.

Lemma put_new_rdata owner n ty value ttl now d m ty' v :
  d_rdata d !! (n, ty, value) = None -> rdata_check value = true ->
  is_Some (d_rdata (put_dns owner n ty value ttl now d) !! (m, ty', v)) <->
    (m, ty', v) = (n, ty, value) \/ is_Some (d_rdata d !! (m, ty', v)).
Proof. intros Hnew Hc. unfold put_dns. simpl. rewrite Hnew, Hc. simpl. rewrite lookup_insert_is_Some'. naive_solver. Qed.

(** Removing the value that was added. *)
Lemma remove_added_rdata n ty value d d1 d2 :
  d_rdata d !! (n, ty, value) = None ->
  (forall m ty' v, is_Some (d_rdata d1 !! (m, ty', v)) <-> (m, ty', v) = (n, ty, value) \/ is_Some (d_rdata d !! (m, ty', v))) ->
  removed n ty (eq value) d1 d2 ->
  forall m ty' v, is_Some (d_rdata d2 !! (m, ty', v)) <-> is_Some (d_rdata d !! (m, ty', v)).
Proof.
  intros Hnew Hrd1 Hrm m ty' v. destruct (decide (m = n)) as [->|Hne]; [destruct (decide (ty' = ty)) as [->|Hty]|].
  - rewrite (rm_values _ _ _ _ _ Hrm), Hrd1. split; [naive_solver|]. intros Hv. split; [by right|]. intros <-.
    rewrite Hnew in Hv. by destruct Hv.
  - rewrite (rm_other_rdata _ _ _ _ _ Hrm), Hrd1 by done. naive_solver.
  - destruct (mt_off _ _ _ _ (rm_mutated _ _ _ _ _ Hrm)) as (_ & _ & Ho). rewrite Ho, Hrd1 by done. naive_solver.
Qed.

(** The owners of names after a put and a removal. *)
Lemma restored_names owner n ty value ttl now d d1 d2 :
  dns_wf d -> dns_wf d2 -> ~ foreign_name d owner n -> mutated n (Some ty) d d1 ->
  d1 = put_dns owner n ty value ttl now d -> removed n ty (eq value) d1 d2 ->
  (forall ty', is_Some (d_rrsets d2 !! (n, ty')) <-> is_Some (d_rrsets d !! (n, ty'))) ->
  forall m, nm_owner <$> d_names d2 !! m = nm_owner <$> d_names d !! m.
Proof.
  intros Hwf Hwf2 Hnf Hm1 Ed Hrm Hrr m. destruct (decide (m = n)) as [->|Hne].
  - destruct (d_names d2 !! n) as [row2|] eqn:E2.
    + destruct (dw_name d2 Hwf2 n) as [ty' Hty]; [by rewrite E2|].
      rewrite (rm_owner _ _ _ _ _ Hrm), Ed in E2 by eauto. unfold put_dns in E2. simpl in E2.
      rewrite lookup_insert_eq in E2. injection E2 as <-. destruct (d_names d !! n) as [row|] eqn:E; [done|].
      apply Hrr in Hty as [r Hr]. destruct (dw_rrset d Hwf n ty' r Hr) as ([? Hs] & _). congruence.
    + destruct (d_names d !! n) as [row|] eqn:E; [|done]. destruct (dw_name d Hwf n) as [ty' Hty]; [by rewrite E|].
      apply Hrr in Hty as [r Hr]. destruct (dw_rrset d2 Hwf2 n ty' r Hr) as ([? Hs] & _). congruence.
  - destruct (mt_off _ _ _ _ Hm1) as (Hn1 & _), (mt_off _ _ _ _ (rm_mutated _ _ _ _ _ Hrm)) as (Hn2 & _).
    by rewrite Hn2, Hn1.
Qed.

(** The lifetime and the revision of the RRset. *)
Lemma restored_rrset owner n ty value ttl now d d2 :
  mutated n (Some ty) d (put_dns owner n ty value ttl now d) ->
  removed n ty (eq value) (put_dns owner n ty value ttl now d) d2 ->
  is_Some (d_rrsets d2 !! (n, ty)) <-> is_Some (d_rrsets d !! (n, ty)) ->
  (fun row => (rw_ttl row, rw_revision row)) <$> d_rrsets d2 !! (n, ty) =
    (fun row => (Z.min (rw_ttl row) ttl, d_revision d + 2)) <$> d_rrsets d !! (n, ty).
Proof.
  intros Hm1 Hrm Hiff. destruct (d_rrsets d2 !! (n, ty)) as [row|] eqn:E2.
  - destruct (proj1 Hiff) as [old Hold]; [by eauto|]. rewrite Hold. simpl.
    destruct (rm_revision _ _ _ _ _ Hrm row E2) as (Hrev & row1 & Hrow1 & Ht). rewrite (mt_revision _ _ _ _ Hm1) in Hrev.
    unfold put_dns in Hrow1. simpl in Hrow1. rewrite lookup_insert_eq in Hrow1. injection Hrow1 as <-. simpl in Ht.
    unfold put_ttl in Ht. rewrite Hold in Ht. rewrite Ht, Hrev. do 2 f_equal. lia.
  - destruct (d_rrsets d !! (n, ty)); [|done]. destruct (proj2 Hiff) as [? Hs]; [eauto|congruence].
Qed.

End round_trip.

(** * Registration with a relay

    A registration writes the account and the relay of its zone in one
    transaction: both or neither. *)

Section registration.
Context `{NamedLocker, !NamedLockerLaws, DeviceInfoDB, Clock, JsonStrings, SqlNumbers, CharTables}.
Context (self : RelayManager).

(** ** The relay part *)

(** A task that writes no table. *)
Definition Reading {A} (t : Task World A) : Prop :=
  forall r, exists a r', run t r = Some (a, r') /\ w_db r' = w_db r /\ w_locks r' = w_locks r.

Lemma reading_Ret {A} (a : A) : Reading (Ret a).
Proof. intros r. by exists a, r. Qed.
Lemma reading_tbind {A B} (t : Task World A) (f : A -> Task World B) :
  Reading t -> (forall a, Reading (f a)) -> Reading (tbind t f).
Proof.
  intros Ht Hf r. rewrite run_tbind. destruct (Ht r) as (a & r1 & -> & Hd & Hl).
  destruct (Hf a r1) as (b & r2 & -> & Hd2 & Hl2). exists b, r2. split_and!; congruence.
Qed.
Lemma reading_bind {A B} (m : T A) (k : A -> T B) : Reading m -> (forall a, Reading (k a)) -> Reading (bind m k).
Proof. intros Hm Hk. apply reading_tbind; [done|]. intros [a|e]; [apply Hk|apply reading_Ret]. Qed.
Lemma reading_atomic {A} (f : World -> A * World) :
  (forall r, w_db (f r).2 = w_db r /\ w_locks (f r).2 = w_locks r) -> Reading (atomic f).
Proof. intros Hf r. rewrite run_atomic. exists (f r).1, (f r).2. split; [by destruct (f r)|apply Hf]. Qed.

Lemma reading_plan req : Reading (plan_registration_allocation self req).
Proof.
  unfold plan_registration_allocation, lookup_geo_for_allocation, choose_automatic_relay, list_relay_nodes.
  repeat first [progress intros | apply reading_bind | apply reading_Ret | apply reading_atomic; intros; split; reflexivity
    | match goal with |- Reading (match ?x with _ => _ end) => destruct x end ].
Qed.

(** What a committed registration does to the relay tables. *)
Inductive relay_outcome (zone : string) (t : Tables) : SnResult RelayAssignment -> Tables -> Prop :=
| outcome_assigned a row t' :
    t' = on_pending (delete zone) (on_assignments <[zone := row]> t) ->
    as_zone a = zone -> t_assignments t !! zone = None ->
    aw_relay_id row = as_relay_id a -> aw_state row = as_str RaActive -> aw_generation row = 1 ->
    relay_outcome zone t (SOk a) t'
| outcome_pending e region reason version error now t' :
    t' = upsert_pending_row zone region reason version error now t ->
    relay_outcome zone t (SErr e) t'.

Lemma run_execute_checked {A} (f : Tables -> SnResult (A * Tables)) r :
  run (execute_checked f) r =
  Some (match f (w_db r) with SOk (a, t) => (SOk a, set_db (fun _ => t) r) | SErr e => (SErr e, r) end).
Proof. unfold execute_checked. rewrite run_atomic. by destruct (f (w_db r)) as [[??]|]. Qed.

Lemma assignment_outcome req plan r :
  exists res r1, run (registration_assignment req plan) r = Some (res, r1) /\
    match res with
    | SOk (SOk a) => relay_outcome (trim (al_zone req)) (w_db r) (SOk a) (w_db r1)
    | SOk (SErr _) => w_db r1 = w_db r
    | SErr _ => True
    end.
Proof.
  unfold registration_assignment. destruct plan as [plan|e]; [|by eexists _, _].
  rewrite run_let, run_query_rows. destruct (select_node _ (w_db r)) as [[node|]|e]; [|by eexists _, _..].
  destruct (is_assignable_node node); [|by eexists _, _].
  unfold insert_registration_assignment_tx. autorewrite with runs. simpl as_generation.
  destruct (to_db_time 1 "generation") as [g|e] eqn:Eg; [|done]. autorewrite with runs.
  destruct (to_db_time _ "created_at") as [c|e]; [|by eexists _, _]. autorewrite with runs.
  destruct (to_db_time _ "updated_at") as [u|e]; [|by eexists _, _]. rewrite run_execute_checked. cbn [as_zone w_db with_ticks].
  destruct (t_assignments (w_db r) !! trim (al_zone req)) eqn:Ea; [by eexists _, _|].
  unfold clear_pending_allocation. autorewrite with runs. apply to_db_time_ok in Eg as [-> _].
  destruct (sel_fallback plan); autorewrite with runs; 
    (eexists _, _; split; [reflexivity|]); (eapply outcome_assigned; [reflexivity|done..]).
Qed.

Lemma commit_outcome req plan r :
  exists res r', run (commit_registration_allocation req plan) r = Some (res, r') /\
    match res with
    | SOk relay => relay_outcome (trim (al_zone req)) (w_db r) relay (w_db r')
    | SErr _ => True
    end.
Proof.
  unfold commit_registration_allocation. rewrite run_let.
  destruct (assignment_outcome req plan r) as ([[a|e]|e] & r1 & -> & Hout); [by eexists _, _| |by eexists _, _].
  unfold record_registration_pending_tx, record_pending_allocation. autorewrite with runs.
  destruct (to_db_time _ _) as [now|e']; [|by eexists _, _]. autorewrite with runs. eexists _, _. split; [done|].
  simpl. rewrite Hout. by econstructor.
Qed.

(** ** The request *)

Definition on_locks (f : LockState -> LockState) (w : SnWorld) : SnWorld :=
  mkSnWorld (sw_auth w) (with_locks (f (w_locks (sw_relay w))) (sw_relay w)).

Lemma run_with_locker {A} name (t : AT A) w :
  lock_held name (sn_locks w) = false ->
  run (with_locker name t) w =
  match run t (on_locks (lock_name name) w) with
  | Some (r, w') => Some (r, on_locks (unlock_name name) w')
  | None => None
  end.
Proof.
  intros Hfree. unfold with_locker, abind. rewrite run_tbind, run_on_relay, run_get_locker. unfold sn_locks in Hfree. rewrite Hfree.
  rewrite run_tbind. fold (on_locks (lock_name name) w). destruct (run t _) as [[r w']|]; [|done].
  by rewrite run_tbind, run_on_relay, run_drop_locker.
Qed.

Definition registration_reply (relay : SnResult RelayAssignment) : RegistrationRelayAllocation :=
  match relay with SOk a => RelayAssigned a | SErr e => RelayPending (se_code e) (se_msg e) end.

(** What the request leaves in both databases. *)
Definition registration_effect (req : RegisterUserWithRelayAllocationReq)
    (r : SnResult RegisterUserWithRelayAllocationResult) (w w' : SnWorld) : Prop :=
  let u := rq_username req in
  let c := rq_active_code req in
  match r with
  | SOk res =>
      if rs_registered res then
        exists email now relay,
          canonical_email (rq_email req) = SOk email /\
          register_fails c u (sw_auth w) = false /\ email_taken email (sw_auth w) = false /\
          sw_auth w' = add_user u c (registered_user c u email now)
            (mkAuthRow (rq_password_hash req) (rq_password_salt req) (rq_password_algo req) now now None) (sw_auth w) /\
          relay_outcome (trim u) (w_db (sw_relay w)) relay (w_db (sw_relay w')) /\
          rs_relay res = Some (registration_reply relay)
      else sw_auth w' = sw_auth w /\ w_db (sw_relay w') = w_db (sw_relay w) /\ rs_relay res = None
  | SErr _ => sw_auth w' = sw_auth w /\ w_db (sw_relay w') = w_db (sw_relay w)
  end.

(** The transaction of the request. *)
Lemma registration_tx_effect req email plan w :
  canonical_email (rq_email req) = SOk email ->
  exists r w', run (let@ relay := auth_transaction is_some (register_with_relay_tx req email plan) in
      match relay with
      | None => aret (mkRegisterRelayResult false None)
      | Some (SOk assignment) => aret (mkRegisterRelayResult true (Some (RelayAssigned assignment)))
      | Some (SErr error) => aret (mkRegisterRelayResult true (Some (RelayPending (se_code error) (se_msg error))))
      end) w = Some (r, w') /\ registration_effect req r w w'.
Proof.
  intros He. unfold abind at 1. rewrite run_tbind. unfold auth_transaction. cbn [run].
  unfold register_with_relay_tx, abind at 1. rewrite run_tbind. unfold transact_now. rewrite run_atomic, register_run.
  destruct (register_fails _ _ _) eqn:Ef; [by eexists _, _|].
  destruct (email_taken email (sw_auth w)) eqn:Et; [by eexists _, _|]. cbn [negb].
  unfold abind. rewrite run_tbind, run_on_relay. cbn [sw_relay].
  destruct (commit_outcome (registration_alloc_req req) plan (tick (sw_relay w))) as (res & r' & -> & Hout).
  destruct res as [relay|e]; [|by eexists _, _]. cbn [run aret is_some sw_auth].
  destruct relay as [a|e]; (eexists _, _; split; [reflexivity|]); simpl; eexists email, _, _; split_and!; done.
Qed.

Lemma registration_tx_locks req email plan w :
  match run (let@ relay := auth_transaction is_some (register_with_relay_tx req email plan) in
      match relay with
      | None => aret (mkRegisterRelayResult false None)
      | Some (SOk assignment) => aret (mkRegisterRelayResult true (Some (RelayAssigned assignment)))
      | Some (SErr error) => aret (mkRegisterRelayResult true (Some (RelayPending (se_code error) (se_msg error))))
      end) w with
  | Some (_, w') => sn_locks w' = sn_locks w
  | None => True
  end.
Proof.
  unfold abind at 1. rewrite run_tbind. unfold auth_transaction. cbn [run].
  destruct (aholding_register_tx req email plan w) as ([relay|e] & w' & -> & Hl); [|done].
  destruct relay as [[a|e]|]; done.
Qed.

(** C19: Registration with a relay, from a world in which no lock is held: the
    request ends, and leaves either nothing at all (an error, or a code that is
    unknown or used, or a name that is taken) or the account, its credentials and
    the used code together with the relay of its zone: one active assignment of
    generation one to the node it replies, or a pending allocation with the error
    it replies. *)
Theorem registration_atomic req w :
  no_lock_held (sw_relay w) ->
  exists r w', run (register_user_with_relay_allocation self req) w = Some (r, w') /\
    registration_effect req r w w' /\ no_lock_held (sw_relay w').
Proof.
  intros Hno. unfold register_user_with_relay_allocation, abind at 1. rewrite run_tbind. cbn [run alift].
  destruct (canonical_email (rq_email req)) as [email|e] eqn:Ee; [|by eexists _, _].
  rewrite run_with_locker by apply Hno.
  rewrite run_with_locker by (unfold sn_locks; simpl; rewrite lock_name_held; simpl; apply Hno).
  rewrite run_with_locker by (unfold sn_locks; simpl; rewrite !lock_name_held; simpl; apply Hno).
  rewrite run_tbind, run_on_relay. set (w1 := on_locks _ _).
  destruct (reading_plan (registration_alloc_req req) (sw_relay w1)) as (plan & r1 & -> & Hdb & Hlk).
  destruct (registration_tx_effect req email plan (mkSnWorld (sw_auth w1) r1) Ee) as (r & w2 & Hrun & Heff).
  pose proof (registration_tx_locks req email plan (mkSnWorld (sw_auth w1) r1)) as Hlocks.
  rewrite Hrun in *. eexists r, _. split_and!; [reflexivity| |].
  - unfold registration_effect in *. simpl in *. by rewrite Hdb in Heff.
  - intros name. simpl. rewrite !unlock_name_held. unfold sn_locks in Hlocks. rewrite Hlocks. simpl. rewrite Hlk. simpl.
    rewrite !lock_name_held. specialize (Hno name). unfold no_lock_held in Hno. rewrite Hno.
    by destruct (String.eqb name _), (String.eqb name _), (String.eqb name _).
Qed.
End registration.
