(* ===== verification/AuthSamples.v ===== *)
(** * Account database: a sample node

    Concrete functions in place of the crates, a node with two relays and two
    users, the theorems applied to it, and what goes wrong where the code does not
    do what it means to. *)

From S2P Require Import Prelude IpAddr Tasks Locks RelayModel RelayStore Relay RelaySafe RelayInv RelaySeq RelayFacts RelaySamples AuthModel AuthStore Auth AuthDb AuthDns AuthDnsOps AuthTexts AuthInv AuthTx AuthKeeps AuthLocks AuthFacts.

(** ** Instances *)

#[local] Existing Instance sample_locker.
#[local] Existing Instance sample_locker_laws.
#[local] Existing Instance sample_devices.
#[local] Existing Instance relay_clock.
#[local] Existing Instance sample_json.
#[local] Existing Instance sample_json_laws.
#[local] Existing Instance sample_sql.
#[local] Existing Instance sample_chars.

#[local] Instance sample_keys : JsonKeys := fun s => strip_prefix "key:" s.
#[local] Instance sample_order : RowOrder := fun _ l => l.
#[local] Instance sample_order_laws : RowOrderLaws.
Proof. by intros A l. Qed.
#[local] Instance sample_null : SqlxNull := None.

(** ** A node with two users *)

Fixpoint run_auth (cs : list AuthCall) (w : SnWorld) : option SnWorld :=
  match cs with
  | [] => Some w
  | c :: cs' => match run (auth_task from_pool c) w with Some (_, w') => run_auth cs' w' | None => None end
  end.

Definition auth_after (cs : list AuthCall) (w : SnWorld) : SnWorld := default w (run_auth cs w).

Lemma run_auth_inv cs w w' : Forall auth_call_ok cs -> SnInv w -> run_auth cs w = Some w' -> SnInv w'.
Proof.
  intros Hcs. revert w. induction Hcs as [|c cs Hc _ IH]; intros w HI; simpl; [by intros [= <-]|].
  destruct (run (auth_task from_pool c) w) as [[r w1]|] eqn:E; [|done]. apply IH.
  by destruct (Safe_run SnInv SnStep (auth_task from_pool c) _ _ w r w1 (sound_auth_task from_pool c Hc) HI I E).
Qed.

Lemma auth_after_inv cs w :
  Forall auth_call_ok cs -> SnInv w -> is_some (run_auth cs w) = true -> SnInv (auth_after cs w).
Proof.
  intros Hcs HI Hs. unfold auth_after. destruct (run_auth cs w) as [w'|] eqn:E; [|done]. by eapply run_auth_inv.
Qed.

Definition empty_node : SnWorld := mkSnWorld fresh_auth_tables two_relays.

Lemma empty_node_inv : SnInv empty_node.
Proof. split; [apply fresh_auth_wf|apply two_relays_wf]. Qed.

Definition sign_up (code name : string) : AuthCall := AcRegister code name (name +:+ "@example.com") "h" "s" "argon2".

Definition two_users_calls : list AuthCall :=
  [AcInsertCode "code-1"; AcInsertCode "code-2"; AcInsertCode "code-3"; sign_up "code-1" "alice"; sign_up "code-2" "bob"].

Definition two_users : SnWorld := auth_after two_users_calls empty_node.

Lemma two_users_inv : SnInv two_users.
Proof. apply auth_after_inv; [repeat constructor|apply empty_node_inv|vm_compute; reflexivity]. Qed.

(** Each of the two serves a name under a domain of its own. *)
Definition records_calls : list AuthCall :=
  [AcActivate "alice" "alice.net" "k1"; AcActivate "bob" "bob.net" "k2";
   AcDnsPut "alice" "www.alice.net" DnsA "1.2.3.4" 300; AcDnsPut "bob" "www.bob.net" DnsA "5.6.7.8" 300].

Definition with_records : SnWorld := auth_after records_calls two_users.

Lemma with_records_inv : SnInv with_records.
Proof. apply auth_after_inv; [repeat constructor|apply two_users_inv|vm_compute; reflexivity]. Qed.

(** ** Schedules *)

Notation areachable := (rtc (sys_step (auth_task from_pool) auth_call_ok)).

Definition astate_after ms s := default s (schedule (auth_task from_pool) ms s).

Lemma areach ms s :
  Forall (move_allowed auth_call_ok) ms -> is_some (schedule (auth_task from_pool) ms s) = true ->
  areachable s (astate_after ms s).
Proof.
  intros Hms Hs. unfold astate_after. destruct (schedule _ ms s) as [s'|] eqn:E; [|done]. by eapply schedule_sound.
Qed.

(** Two registrations that want the same code: the second waits for its lock. *)
Definition two_sign_ups : list (Move (Call:=AuthCall)) :=
  [Arrive (sign_up "code-3" "carol"); Arrive (sign_up "code-3" "dave"); Proceed 0; Proceed 0; Proceed 0].

Definition sign_up_race := astate_after two_sign_ups (started two_users).

Lemma sign_up_race_reached : areachable (started two_users) sign_up_race.
Proof. apply areach; [repeat constructor|vm_compute; reflexivity]. Qed.

Lemma accounts_invariant_witness :
  is_Some (a_users (sw_auth (sys_world sign_up_race)) !! "carol") /\
  auth_wf (sw_auth (sys_world sign_up_race)) /\ tables_wf (w_db (sw_relay (sys_world sign_up_race))).
Proof.
  split; [eexists; vm_compute; reflexivity|].
  exact (accounts_invariant from_pool two_users sign_up_race (proj1 two_users_inv) (proj2 two_users_inv) sign_up_race_reached).
Defined.

(** A record that changes while somebody watches. *)
Definition change_moves : list (Move (Call:=AuthCall)) :=
  [Arrive (AcDnsPut "alice" "www.alice.net" DnsA "9.9.9.9" 60); Arrive (AcDnsGet "www.bob.net" DnsA);
   Proceed 0; Proceed 1; Proceed 0].

Definition changed_record := astate_after change_moves (started with_records).

Lemma changed_record_reached : areachable (started with_records) changed_record.
Proof. apply areach; [repeat constructor|vm_compute; reflexivity]. Qed.

Definition dns_of (s : Sys (W:=SnWorld) (Call:=AuthCall) (Reply:=AuthReply)) : DnsTables := a_dns (sw_auth (sys_world s)).

Lemma rrset_moved :
  user_dns_rrset (dns_of (started with_records)) "www.alice.net" DnsA <> user_dns_rrset (dns_of changed_record) "www.alice.net" DnsA.
Proof. vm_compute. discriminate. Qed.

Lemma change_feed_complete_witness :
  d_revision (dns_of (started with_records)) < d_revision (dns_of changed_record) /\
  ((exists r row, d_revision (dns_of (started with_records)) < r <= d_revision (dns_of changed_record) /\
      d_changes (dns_of changed_record) !! r = Some row /\ tells "www.alice.net" DnsA row) \/
   d_revision (dns_of (started with_records)) + 1 < oldest (dns_of changed_record)).
Proof.
  exact (change_feed_complete from_pool with_records (started with_records) changed_record "www.alice.net" DnsA
    with_records_inv (rtc_refl _ _) changed_record_reached rrset_moved).
Defined.

Lemma no_lock_two_users : no_lock_held (sw_relay two_users).
Proof. apply free_world. vm_compute. reflexivity. Qed.

Lemma requests_answered_witness :
  length (sys_tasks sign_up_race) = 2%nat /\
  Acc (flip (proceeds (auth_task from_pool))) sign_up_race /\
  ((forall s', ~ proceeds (auth_task from_pool) sign_up_race s') -> sys_tasks sign_up_race = []).
Proof.
  split; [vm_compute; reflexivity|].
  exact (requests_answered from_pool two_users sign_up_race no_lock_two_users sign_up_race_reached).
Defined.

Lemma change_page_exact_witness :
  d_revision (a_dns (sw_auth with_records)) = 2 /\
  exists p, run (list_user_dns_changes 1 256) with_records = Some (SOk p, with_records) /\
    pg_current_revision p = d_revision (a_dns (sw_auth with_records)) /\
    pg_earliest_available_revision p = oldest (a_dns (sw_auth with_records)) /\
    (ch_revision <$> pg_changes p) =
      seqZ (Z.max 2 (oldest (a_dns (sw_auth with_records))))
        (Z.min 256 (d_revision (a_dns (sw_auth with_records)) + 1 - Z.max 2 (oldest (a_dns (sw_auth with_records))))) /\
    forall ch, ch ∈ pg_changes p -> exists row, d_changes (a_dns (sw_auth with_records)) !! ch_revision ch = Some row /\
      cw_name row = ch_name ch /\ cw_record_type row = as_str <$> ch_record_type ch /\
      cw_operation row = as_str (ch_operation ch).
Proof.
  split; [vm_compute; reflexivity|].
  exact (change_page_exact with_records 1 256 (wf_dns _ (proj1 with_records_inv)) ltac:(lia) ltac:(lia)).
Defined.

Definition carol_req : RegisterUserWithRelayAllocationReq :=
  {| rq_active_code := "code-3"; rq_username := "carol"; rq_email := "carol@example.com"; rq_password_hash := "h";
     rq_password_salt := "s"; rq_password_algo := "argon2"; rq_preferred_region := None; rq_source_ip := None;
     rq_source_version := None |}.

Lemma registration_atomic_witness :
  exists r w', run (register_user_with_relay_allocation from_pool carol_req) two_users = Some (r, w') /\
    registration_effect carol_req r two_users w' /\ no_lock_held (sw_relay w').
Proof. exact (registration_atomic from_pool carol_req two_users no_lock_two_users). Defined.

(** Bob takes the domain of Alice. *)
Lemma alice_net_plain : plain_domain "alice.net".
Proof. split; [split; [simpl; lia|vm_compute; reflexivity]|vm_compute; reflexivity]. Qed.

Lemma www_taken : taken_over "bob" "alice.net" (a_dns (sw_auth with_records)) "www.alice.net".
Proof. eexists. split; [vm_compute; reflexivity|]. split; [done|]. right. by exists "www". Qed.


(** Bob takes names of Alice with a domain they are not under. *)
Lemma wildcard_domain_takes_names_witness :
  ~ in_zone "www.alice.net" "_lice.net" /\
  exists t', activate_user_domain_binding_tx "bob" "_lice.net" "k2" 2000 (sw_auth with_records) = SOk (tt, t') /\
    d_names (a_dns t') !! "www.alice.net" = None /\
    forall ty, user_dns_rrset (a_dns t') "www.alice.net" ty = None.
Proof.
  apply (wildcard_domain_takes_names "bob" "" "a" "lice.net" "www" "k2" 2000 (sw_auth with_records)
    (mkNameRow "alice" 1006 1006) (proj1 with_records_inv)); simpl;
    [vm_compute; reflexivity|split; [simpl; lia|vm_compute; reflexivity]|done|vm_compute; reflexivity|vm_compute; reflexivity|done].
Defined.

Lemma with_records_plain : bound_domains_plain (sw_auth with_records).
Proof.
  intros id b Hb _.
  assert (E : bi_domain <$> a_bindings (sw_auth with_records) = <[1 := "alice.net"]> (<[2 := "bob.net"]> ∅))
    by (vm_compute; reflexivity).
  assert (Hd : (bi_domain <$> a_bindings (sw_auth with_records)) !! id = Some (bi_domain b)) by (by rewrite lookup_fmap, Hb).
  rewrite E in Hd. apply lookup_insert_Some in Hd as [[_ <-]|[_ Hd]]; [apply alice_net_plain|].
  apply lookup_insert_Some in Hd as [[_ <-]|[_ Hd]]; [|by rewrite lookup_empty in Hd].
  split; [split; [simpl; lia|vm_compute; reflexivity]|vm_compute; reflexivity].
Qed.



Lemma records_filled : dns_filled (a_dns (sw_auth with_records)).
Proof.
  intros n ty. assert (E : d_rrsets (a_dns (sw_auth with_records)) = <[("www.bob.net", DnsA) := mkRrsetRow 300 2 1007 1007]>
    (<[("www.alice.net", DnsA) := mkRrsetRow 300 1 1006 1006]> ∅)) by (vm_compute; reflexivity).
  rewrite E, !lookup_insert_is_Some', lookup_empty. intros [[= <- <-]|[[= <- <-]|[]]]; [exists "5.6.7.8"|exists "1.2.3.4"|done];
    eexists; vm_compute; reflexivity.
Qed.


(** ** What goes wrong *)

Definition sauth_after {A} (t : Task SnWorld A) (w : SnWorld) : SnWorld :=
  match run t w with Some (_, w') => w' | None => w end.
Definition sanswer {A} (t : Task SnWorld A) (w : SnWorld) : option A := option_map fst (run t w).

Lemma run_sauth {A} (t : Task SnWorld A) w r : sanswer t w = Some r -> run t w = Some (r, sauth_after t w).
Proof. unfold sanswer, sauth_after. destruct (run t w) as [[a w']|]; [|done]. by intros [= ->]. Qed.

(** A TXT value that starts with a NUL character passes the checks of the
    request but not the one of its table, which skips the row: the request
    replies that something changed, and leaves an RRset without values. *)
Theorem nul_text_leaves_empty_rrset :
  exists m w' rr, run (dns_request "alice" "www.alice.net" DnsTxt (DnsPut (String "000" "x") 60)) with_records = Some (SOk m, w') /\
    mu_changed m = true /\ mu_rrset m = Some rr /\ rr_values rr = [].
Proof.
  eexists _, _, _. split; [apply run_sauth; vm_compute; reflexivity|]. by split_and!.
Qed.
