(* ===== verification/ResolverModel.v ===== *)
(** * Service node: the data of the name resolver

    The errors, documents and answers of the resolver
    ([cyfs-sn/src/sn_resolver.rs]) and its functions on them: host names, zones,
    the fields it reads from JSON documents, addresses and keys.

    A JSON value is a tree; the fields of an object come in the order of their
    iteration.  The libraries the code calls are classes: [SerdeJson] for the
    text of a value, [NameLib] for tokens, DIDs and device descriptions,
    [JsonWebKeys] for keys, [NameClient] for record types, and [HashOrder] for
    the order of a [HashMap]. *)

From S2P Require Import Prelude IpAddr RelayModel RelayStore AuthModel BnsModel.

(** ** Errors *)

Inductive SnResolverErrorKind : Type :=
| RkNotManaged | RkNameNotFound | RkDocumentNotFound | RkDeviceNotFound | RkUnsupportedRecordType
| RkUnsupportedDidMethod | RkInvalidHostname | RkInvalidDid | RkBackendUnavailable.

#[export] Instance SnResolverErrorKind_eq_dec : EqDecision SnResolverErrorKind.
Proof. solve_decision. Defined.

Record SnResolverError : Type := rs_err { re_kind : SnResolverErrorKind; re_message : string }.

#[export] Instance SnResolverError_eq_dec : EqDecision SnResolverError.
Proof. solve_decision. Defined.

Definition re_not_found (message : string) : SnResolverError := rs_err RkNameNotFound message.
Definition re_backend (message : string) : SnResolverError := rs_err RkBackendUnavailable message.

Inductive ServerErrorCode : Type := CodeInvalidParam | CodeNotFound | CodeProcessChainError.

Definition to_server_error (e : SnResolverError) : ServerErrorCode * string :=
  (match re_kind e with
   | RkInvalidHostname | RkInvalidDid | RkUnsupportedRecordType | RkUnsupportedDidMethod => CodeInvalidParam
   | RkNotManaged | RkNameNotFound | RkDocumentNotFound | RkDeviceNotFound => CodeNotFound
   | RkBackendUnavailable => CodeProcessChainError
   end, re_message e).

Inductive RsResult (A : Type) : Type :=
| ROk (a : A)
| RErr (e : SnResolverError).
Arguments ROk {A} a.
Arguments RErr {A} e.

Definition rs_bind {A B} (m : RsResult A) (k : A -> RsResult B) : RsResult B :=
  match m with ROk a => k a | RErr e => RErr e end.

(** [Option::and_then], from left to right. *)
Notation "o ?> f" := (mbind (M := option) f o) (at level 50, left associativity) : sn_scope.

(** ** JSON *)

Inductive JsonNumber : Type :=
| PosInt (n : Z)
| NegInt (n : Z)
| Float (bits : Z).

Inductive Json : Type :=
| JNull
| JBool (b : bool)
| JNumber (n : JsonNumber)
| JString (s : string)
| JArray (l : list Json)
| JObject (fields : list (string * Json)).

Definition as_array (v : Json) : option (list Json) := match v with JArray l => Some l | _ => None end.
Definition as_object (v : Json) : option (list (string * Json)) := match v with JObject fs => Some fs | _ => None end.
Definition as_text (v : Json) : option string := match v with JString s => Some s | _ => None end.
Definition as_u64 (v : Json) : option Z := match v with JNumber (PosInt n) => Some n | _ => None end.

Definition field (fields : list (string * Json)) (key : string) : option Json :=
  snd <$> List.find (fun p => String.eqb p.1 key) fields.

(** [Value::get] with a text. *)
Definition get (v : Json) (key : string) : option Json := fields ← as_object v; field fields key.

Fixpoint get_path (v : Json) (path : list string) : option Json :=
  match path with
  | [] => Some v
  | key :: path' => next ← get v key; get_path next path'
  end.

Definition find_string_path (v : Json) (path : list string) : option string := get_path v path ?> as_text.
Definition find_array_path (v : Json) (path : list string) : option (list Json) := get_path v path ?> as_array.

(** An object written out with [json!]: its fields are kept in the order of
    their names. *)
Definition json_object (fields : list (string * Json)) : Json :=
  JObject (stable_sort (fun x y => String.leb x.1 y.1) fields).

Definition json_option (o : option string) : Json := match o with Some s => JString s | None => JNull end.

Class SerdeJson : Type := {
  value_of_text : string -> option Json;
  value_to_text : Json -> string
}.

(** [Iterator::find_map]. *)
Fixpoint find_map {A B} (f : A -> option B) (l : list A) : option B :=
  match l with
  | [] => None
  | x :: l' => match f x with Some y => Some y | None => find_map f l' end
  end.

(** [Option::or]. *)
Definition or_else {A} (o1 o2 : option A) : option A := match o1 with Some _ => o1 | None => o2 end.

(** ** Libraries *)

Record DID : Type := mkDid { did_method : string; did_id : string }.

(** [OODDescriptionString]: the name of the device, and whether its node type is
    [OODOnly]. *)
Record OodDescription : Type := mkOod { od_name : string; od_ood_only : bool }.

Inductive EncodedDocument : Type :=
| JsonLd (v : Json)
| Jwt (jwt : string).

Class NameLib : Type := {
  jwt_to_json : string -> option Json;
  parse_ood_description : string -> option OodDescription;
  did_of_text : string -> option DID;
  did_to_text : DID -> string
}.

(** Keys: their texts and values, whether a key can be decoded, and the [x] of
    an octet key pair. *)
Class JsonWebKeys : Type := {
  Jwk : Type;
  jwk_of_text : string -> option Jwk;
  jwk_of_value : Json -> option Jwk;
  jwk_decodes : Jwk -> bool;
  jwk_octet_x : Jwk -> option string;
  create_jwk_by_x : string -> option Jwk
}.

(** Record types of DNS: the three the resolver answers, and the others. *)
Class DnsTypes : Type := {
  OtherRecordType : Type;
  other_type_eq_dec :: EqDecision OtherRecordType
}.

Inductive RecordType `{DnsTypes} : Type :=
| RtA | RtAAAA | RtTXT
| RtOther (other : OtherRecordType).

#[export] Instance RecordType_eq_dec `{DnsTypes} : EqDecision RecordType.
Proof. solve_decision. Defined.

Class NameClient `{DnsTypes} : Type := {
  record_type_of_text : string -> option RecordType;
  record_type_to_text : RecordType -> string
}.

Class NameClientLaws `{NameClient} : Prop := {
  record_type_names : record_type_to_text RtA = "A" /\ record_type_to_text RtAAAA = "AAAA" /\
    record_type_to_text RtTXT = "TXT";
  record_type_texts ty : record_type_of_text (record_type_to_text ty) = Some ty
}.

(** The order in which a [HashMap] iterates. *)
Class HashOrder : Type := hash_order : forall {A : Type}, list A -> list A.
Class HashOrderLaws `{HashOrder} : Prop := hash_order_Permutation : forall {A} (l : list A), hash_order l ≡ₚ l.

(** ** Host names *)

Definition normalize_host_lossy (hostname : string) : string :=
  to_ascii_lowercase (trim_end_char "." (trim hostname)).

Section hosts.
Context `{CharTables}.

Definition normalize_hostname (hostname : string) : RsResult string :=
  let name := normalize_host_lossy hostname in
  if is_empty name then RErr (rs_err RkInvalidHostname "hostname is empty")
  else if (253 <? String.length name)%nat || existsb char_whitespace (utf8_chars name) then
    RErr (rs_err RkInvalidHostname "invalid hostname")
  else if existsb (fun label => is_empty label || (63 <? String.length label)%nat) (split_on "." name) then
    RErr (rs_err RkInvalidHostname "invalid hostname label")
  else ROk name.
End hosts.

Definition normalize_bns_name (name : string) : RsResult string :=
  match canonical_bns_name (to_ascii_lowercase (trim_end_char "." (trim name))) with
  | BOk name => ROk name
  | _ => RErr (rs_err RkInvalidHostname "invalid BNS name")
  end.

Definition normalize_doc_type (doc_type : option string) : option string :=
  value ← doc_type; if is_empty (trim value) then None else Some (trim value).

Definition first_label (name : string) : string := default "" (head (split_on "." name)).
Definition last_label (name : string) : string := default "" (last (split_on "." name)).

Definition dns_name_in_zone (hostname zone_apex : string) : bool :=
  String.eqb hostname zone_apex
  || match strip_suffix zone_apex hostname with
     | Some prefix => ends_with "." prefix && (1 <? String.length prefix)%nat
     | None => false
     end.

Definition is_user_dns_control_name (name : string) : bool :=
  let label := first_label (normalize_host_lossy name) in
  String.eqb label "_acme-challenge" || String.eqb label "_pkx".

(** [<...>.<name>.web3.<server_host>] names [<name>]. *)
Definition bns_compat_name_for (server_host hostname : string) : option string :=
  prefix ← strip_suffix (".web3." +:+ server_host) hostname;
  if is_empty prefix then None
  else let name := last_label prefix in if is_empty name then None else Some name.

Section types.
Context `{DnsTypes}.

Definition parse_record_type (record_type : string) : option RecordType :=
  let text := to_ascii_uppercase (trim record_type) in
  if String.eqb text "A" then Some RtA
  else if String.eqb text "AAAA" then Some RtAAAA
  else if String.eqb text "TXT" then Some RtTXT
  else None.

Definition is_supported_record_type (ty : RecordType) : bool :=
  match ty with RtA | RtAAAA | RtTXT => true | RtOther _ => false end.

Definition is_explicit_only_dns_name (hostname : string) (ty : RecordType) : bool :=
  bool_decide (ty = RtTXT) && starts_with "_" (first_label hostname).
End types.

(** ** Addresses *)

Definition is_ipv4 (ip : IpAddr) : bool := match ip with V4 _ => true | V6 _ => false end.
Definition is_ipv6 (ip : IpAddr) : bool := negb (is_ipv4 ip).

(** [str::parse::<SocketAddr>] and its address. *)
Definition read_port (s : string) : option (Z * string) :=
  r ← read_given_char ":" s; read_number 10 (String.length r) true 65535 r.

Definition read_scope_id (s : string) : option (Z * string) :=
  r ← read_given_char "%" s; read_number 10 (String.length r) true (2 ^ 32 - 1) r.

Definition read_socket_addr_v4 (s : string) : option (IpAddr * string) :=
  '(os, r) ← read_ipv4_addr s; '(_, r) ← read_port r; Some (V4 os, r).

Definition read_socket_addr_v6 (s : string) : option (IpAddr * string) :=
  r ← read_given_char "[" s;
  '(ss, r) ← read_ipv6_addr r;
  let r := match read_scope_id r with Some (_, r') => r' | None => r end in
  r ← read_given_char "]" r;
  '(_, r) ← read_port r;
  Some (V6 ss, r).

Definition parse_socket_ip (s : string) : option IpAddr :=
  match or_else (read_socket_addr_v4 s) (read_socket_addr_v6 s) with
  | Some (ip, EmptyString) => Some ip
  | _ => None
  end.

Definition parse_ip_or_socket_addr (value : string) : option IpAddr :=
  or_else (parse_ip value) (parse_socket_ip value).

Definition is_loopback (ip : IpAddr) : bool :=
  match ip with
  | V4 os => bool_decide (head os = Some 127)
  | V6 ss => bool_decide (ss = [0; 0; 0; 0; 0; 0; 0; 1])
  end.

Definition is_docker_bridge_ipv4 (os : list Z) : bool :=
  match os with
  | a :: b :: _ => (a =? 172) && (16 <=? b) && (b <=? 31)
  | _ => false
  end.

Definition is_filtered_zonegate_ip (ip : IpAddr) : bool :=
  match ip with
  | V4 os => is_loopback ip || is_docker_bridge_ipv4 os
  | V6 _ => is_loopback ip
  end.

Definition push_new (addresses : list IpAddr) (ip : IpAddr) : list IpAddr :=
  if bool_decide (ip ∈ addresses) then addresses else addresses ++ [ip].

Definition push_exportable_ip (addresses : list IpAddr) (ip : IpAddr) : list IpAddr :=
  if is_filtered_zonegate_ip ip then addresses else push_new addresses ip.

Section push.
Context `{DnsTypes}.

Definition push_dns_address (addresses : list IpAddr) (ip : IpAddr) (ty : RecordType) : list IpAddr :=
  match ty with
  | RtA => if is_ipv4 ip then push_exportable_ip addresses ip else addresses
  | RtAAAA => if is_ipv6 ip then push_exportable_ip addresses ip else addresses
  | _ => addresses
  end.

Definition push_dns_address_unfiltered (addresses : list IpAddr) (ip : IpAddr) (ty : RecordType) : list IpAddr :=
  match ty with
  | RtA => if is_ipv4 ip then push_new addresses ip else addresses
  | RtAAAA => if is_ipv6 ip then push_new addresses ip else addresses
  | _ => addresses
  end.
End push.

(** What one text adds to the addresses. *)
Definition push_ip_text (result : list IpAddr) (value : string) : list IpAddr :=
  match parse_ip_or_socket_addr value with
  | Some ip => push_exportable_ip result ip
  | None => result
  end.

Definition collect_ips_from_value_path (v : Json) (path : list string) (result : list IpAddr) : list IpAddr :=
  match get_path v path with
  | Some (JString value) => push_ip_text result value
  | Some (JArray values) => foldl push_ip_text result (omap as_text values)
  | _ => result
  end.

Definition parse_sn_ips (sn_ips : option string) : list IpAddr :=
  omap parse_ip
    (List.filter (fun value => negb (is_empty value)) (List.map trim (split_on "," (text_or_empty sn_ips)))).

(** ** Reading documents *)

Section documents.
Context `{NameLib, SerdeJson}.

Definition short_device_name (value : string) : option string :=
  description ← parse_ood_description value;
  if od_ood_only description then None else Some (first_label (od_name description)).

(** A device of [gateway_devices] or [oods]. *)
Definition gateway_device_item (item : Json) : option string :=
  or_else (as_text item ?> short_device_name)
    (or_else (find_string_path item ["device_name"]) (find_string_path item ["name"]) ?> short_device_name).

Definition find_gateway_device_name (v : Json) : option string :=
  or_else
    (find_map (find_string_path v)
       [["gateway_device_name"]; ["gateway_device"]; ["default_gateway"]; ["gateway"; "device_name"];
        ["gateway"; "name"]; ["gateway"; "device"]; ["boot"; "gateway_device_name"]])
    (find_map (fun path => find_array_path v path ?> find_map gateway_device_item)
       [["gateway_devices"]; ["oods"]]).

Definition non_empty_jwt (v : Json) : option string :=
  text ← as_text v; if is_empty (trim text) then None else Some (trim text).

Definition extract_boot_jwt (v : Json) : option string :=
  or_else (non_empty_jwt v)
    (find_map (fun path => get_path v path ?> non_empty_jwt)
       [["boot_jwt"]; ["boot_config_jwt"]; ["zone_config_jwt"]; ["boot"; "boot_jwt"];
        ["boot"; "boot_config_jwt"]; ["boot"; "zone_config_jwt"]; ["boot"; "jwt"]; ["boot"];
        ["zone_config_ref"; "boot_jwt"]; ["zone_config_ref"; "boot_config_jwt"];
        ["zone_config_ref"; "zone_config_jwt"]; ["zone_config_ref"; "boot"]]).

(** [Iterator::collect] into a [HashMap]: a later entry replaces an earlier one. *)
Definition collect_map {A} (l : list (string * A)) : gmap string A :=
  foldl (fun m p => <[p.1 := p.2]> m) ∅ l.

Definition find_device_map (v : Json) : gmap string Json :=
  match get v "devices" ?> as_object with
  | Some devices => collect_map devices
  | None => ∅
  end.

Definition text_fields (fields : list (string * Json)) : list (string * string) :=
  omap (fun '(name, v) => text ← as_text v; Some (name, text)) fields.

Definition find_mini_device_jwts (v : Json) : gmap string string :=
  match get v "mini_device_jwts" ?> as_object with
  | Some jwts => collect_map (text_fields jwts)
  | None => ∅
  end.

Definition find_gateway_ips (v : Json) : list IpAddr :=
  foldl (fun result path => collect_ips_from_value_path v path result) []
    [["gateway_ips"]; ["gateway"; "ips"]; ["gateway"; "addresses"]; ["addresses"]].

Definition find_ttl (v : Json) : option Z :=
  ttl ← get v "ttl" ?> as_u64; if ttl <? 2 ^ 32 then Some ttl else None.

(** *** Documents *)

Record BnsOwner : Type := mkBnsOwner {
  bo_name : string;
  bo_effective_owner : option string;
  bo_owner_config : option Json
}.

Record BnsDocumentMeta : Type := mkDocMeta {
  bm_version : option Z;
  bm_name_seq : option Z;
  bm_updated_at : option Z;
  bm_ttl : option Z
}.

Inductive BnsDocumentContent : Type :=
| ContentJson (v : Json)
| ContentJwt (jwt : string)
| ContentText (text : string).

Definition to_encoded_document (c : BnsDocumentContent) : EncodedDocument :=
  match c with
  | ContentJson v => JsonLd v
  | ContentJwt jwt => Jwt jwt
  | ContentText text => Jwt text
  end.

Definition to_json_value (c : BnsDocumentContent) : option Json :=
  match c with
  | ContentJson v => Some v
  | ContentJwt jwt | ContentText jwt => jwt_to_json jwt
  end.

Definition as_jwt (c : BnsDocumentContent) : option string :=
  match c with
  | ContentJwt jwt => Some jwt
  | ContentText text => if starts_with "{" (trim_start text) then None else Some text
  | ContentJson _ => None
  end.

Record BnsDocument : Type := mkBnsDocument {
  bd_name : string;
  bd_doc_type : string;
  bd_content : BnsDocumentContent;
  bd_meta : BnsDocumentMeta
}.

Record ZoneDocument : Type := mkZoneDocument {
  zd_raw : option Json;
  zd_jwt : option string;
  zd_boot_jwt : option string;
  zd_devices : gmap string Json;
  zd_mini_device_jwts : gmap string string;
  zd_gateway_device_name : option string;
  zd_gateway_ips : list IpAddr;
  zd_ttl : option Z;
  zd_version : option Z
}.

Definition empty_zone_document : ZoneDocument := mkZoneDocument None None None ∅ ∅ None [] None None.

Definition zone_of_bns_document (document : BnsDocument) : ZoneDocument :=
  let raw := to_json_value (bd_content document) in
  {| zd_raw := raw;
     zd_jwt := as_jwt (bd_content document);
     zd_boot_jwt := raw ?> extract_boot_jwt;
     zd_devices := default ∅ (find_device_map <$> raw);
     zd_mini_device_jwts := default ∅ (find_mini_device_jwts <$> raw);
     zd_gateway_device_name := raw ?> find_gateway_device_name;
     zd_gateway_ips := default [] (find_gateway_ips <$> raw);
     zd_ttl := or_else (raw ?> find_ttl) (bm_ttl (bd_meta document));
     zd_version := bm_version (bd_meta document) |}.

Record BootDocument : Type := mkBootDocument {
  bt_raw : option Json;
  bt_jwt : option string;
  bt_gateway_device_name : option string;
  bt_ttl : option Z;
  bt_version : option Z
}.

Definition empty_boot_document : BootDocument := mkBootDocument None None None None None.

Definition boot_of_bns_document (document : BnsDocument) : BootDocument :=
  let raw := to_json_value (bd_content document) in
  {| bt_raw := raw;
     bt_jwt := as_jwt (bd_content document);
     bt_gateway_device_name := raw ?> find_gateway_device_name;
     bt_ttl := or_else (raw ?> find_ttl) (bm_ttl (bd_meta document));
     bt_version := bm_version (bd_meta document) |}.

Definition boot_of_legacy_jwt (jwt : string) : BootDocument :=
  let raw := jwt_to_json jwt in
  {| bt_raw := raw;
     bt_jwt := Some jwt;
     bt_gateway_device_name := raw ?> find_gateway_device_name;
     bt_ttl := raw ?> find_ttl;
     bt_version := None |}.

Record DeviceMiniDocument : Type := mkDeviceMini {
  dm_zone_name : string;
  dm_device_name : string;
  dm_did : string;
  dm_mini_config_jwt : option string;
  dm_document : option Json;
  dm_ttl : option Z;
  dm_version : option Z
}.

Definition with_mini_jwt (d : DeviceMiniDocument) (jwt : option string) : DeviceMiniDocument :=
  mkDeviceMini (dm_zone_name d) (dm_device_name d) (dm_did d) jwt (dm_document d) (dm_ttl d) (dm_version d).

Definition device_public_key_x (v : Json) : option string :=
  or_else (get v "verificationMethod" ?> as_array
           ?> find_map (fun m => find_string_path m ["publicKeyJwk"; "x"]))
    (find_string_path v ["public_key"; "x"]).

Definition device_doc_from_value (zone_name fallback_device_name : string) (v : Json) (ttl version : option Z) :
    option DeviceMiniDocument :=
  let device_name :=
    default fallback_device_name
      (or_else (find_string_path v ["device_name"])
         (or_else (find_string_path v ["name"]) (find_string_path v ["n"]))) in
  did ← or_else (String.append "did:dev:" <$> device_public_key_x v)
          (or_else (find_string_path v ["did"])
             (or_else (find_string_path v ["id"])
                (String.append "did:dev:" <$> find_string_path v ["x"])));
  Some (mkDeviceMini zone_name device_name did (find_string_path v ["mini_config_jwt"]) (Some v) ttl version).

Definition device_doc_from_mini_jwt_map (zone_name device_name : string) (jwts : gmap string string)
    (ttl version : option Z) : option DeviceMiniDocument :=
  jwt ← jwts !! device_name;
  v ← jwt_to_json jwt;
  result ← device_doc_from_value zone_name device_name v ttl version;
  Some (with_mini_jwt result (Some jwt)).

Definition device_mini_doc_from_aggregate (zone_name device_name : string) (document : BnsDocument) :
    option DeviceMiniDocument :=
  v ← to_json_value (bd_content document);
  device_value ← or_else (get v "devices" ?> as_object ?> (fun devices => field devices device_name))
                   (get v device_name);
  result ← device_doc_from_value zone_name device_name device_value
             (bm_ttl (bd_meta document)) (bm_version (bd_meta document));
  Some (match dm_mini_config_jwt result with
        | Some _ => result
        | None => with_mini_jwt result
            (get v "mini_device_jwts" ?> as_object ?> (fun jwts => field jwts device_name) ?> as_text)
        end).

Definition device_doc_from_single (zone_name : string) (document : BnsDocument) (child_name : string) :
    option DeviceMiniDocument :=
  v ← to_json_value (bd_content document);
  result ← device_doc_from_value zone_name (first_label child_name) v
             (bm_ttl (bd_meta document)) (bm_version (bd_meta document));
  Some (match dm_mini_config_jwt result with
        | Some _ => result
        | None => with_mini_jwt result (as_jwt (bd_content document))
        end).

Definition device_document_network_type (d : DeviceMiniDocument) : option string :=
  net_id ← dm_document d ?> (fun v => get v "net_id") ?> as_text;
  if is_empty (trim net_id) then None else Some (to_ascii_lowercase (trim net_id)).

Definition device_document_requires_sn_relay (d : DeviceMiniDocument) : bool :=
  match device_document_network_type d with
  | Some net_id => negb (starts_with "wan" net_id)
  | None => true
  end.

Definition BNS_DOC_ZONE : string := "zone".
Definition BNS_DOC_BOOT : string := "boot".
Definition BNS_DOC_DEVICE_MINI : string := "device_mini_doc".
Definition BNS_DOC_DNS_TXT : string := "dns_txt".

Definition device_jwts_from_bns_document (document : BnsDocument) : list string :=
  let mini := String.eqb (bd_doc_type document) BNS_DOC_DEVICE_MINI in
  match to_json_value (bd_content document) with
  | None => if mini then option_list (as_jwt (bd_content document)) else []
  | Some v =>
      (if mini then
         match get v "devices" ?> as_object with
         | Some devices => omap (fun d => find_string_path d.2 ["mini_config_jwt"]) devices
         | None => []
         end
       else []) ++
      match get v "mini_device_jwts" ?> as_object with
      | Some jwts => omap (fun p => as_text p.2) jwts
      | None => []
      end ++
      option_list (find_string_path v ["mini_config_jwt"])
  end.

(** The texts of a record in an array, and of one under [records]. *)
Definition array_record_texts (record : Json) : list string :=
  match as_text record with
  | Some txt => [txt]
  | None =>
      match get record "value" ?> as_text with
      | Some txt => [txt]
      | None =>
          match get record "values" ?> as_array with
          | Some values => omap as_text values
          | None => []
          end
      end
  end.

Definition listed_record_texts (record : Json) : list string :=
  option_list (or_else (as_text record) (get record "value" ?> as_text)).

Definition txt_records_from_bns_document (document : BnsDocument) : list string :=
  match to_json_value (bd_content document) with
  | None => option_list (as_jwt (bd_content document))
  | Some v =>
      match as_array v with
      | Some records => records ≫= array_record_texts
      | None =>
          match get v "records" ?> as_array with
          | Some records => records ≫= listed_record_texts
          | None => option_list (get v "txt" ?> as_text)
          end
      end
  end.

(** [HashSet::insert] tells whether the text is new. *)
Fixpoint dedup_from (seen : gset string) (values : list string) : list string :=
  match values with
  | [] => []
  | value :: values' =>
      if decide (value ∈ seen) then dedup_from seen values'
      else value :: dedup_from ({[value]} ∪ seen) values'
  end.

Definition dedup_strings : list string -> list string := dedup_from ∅.

(** *** Keys *)

Definition pkx_from_public_key (public_key : string) : option string :=
  v ← value_of_text public_key; find_string_path v ["x"].

Definition legacy_owner (name : string) (user : option SNUserInfo) : BnsOwner :=
  {| bo_name := name;
     bo_effective_owner :=
       or_else (user ?> (fun u => pkx_from_public_key (ui_public_key u))) (ui_public_key <$> user);
     bo_owner_config := None |}.

Section keys.
Context `{JsonWebKeys}.

Definition key_like_string_to_jwk (value : string) : option Jwk :=
  let value := trim_end_char ";" (trim value) in
  let usable jwk := if jwk_decodes jwk then Some jwk else None in
  if is_empty value then None
  else
    match jwk_of_text value with
    | Some jwk => usable jwk
    | None =>
        let value := default value (strip_prefix "PKX=" value) in
        let x := default value (head (split_on ":" value)) in
        create_jwk_by_x x ?> usable
    end.

Definition value_to_jwk (v : Json) : option Jwk :=
  match v with
  | JObject _ => jwk_of_value v
  | JString value => key_like_string_to_jwk value
  | _ => None
  end.

Fixpoint value_path (v : Json) (path : list string) : option Json :=
  match path with
  | [] => Some v
  | key :: path' =>
      match parse_usize key with
      | Some index => next ← as_array v ?> (fun l => l !! Z.to_nat index); value_path next path'
      | None => next ← get v key; value_path next path'
      end
  end.

Definition first_jwk_path (v : Json) (paths : list (list string)) : option Jwk :=
  find_map (fun path => value_path v path ?> value_to_jwk) paths.

Definition owner_key_from_config (v : Json) : option Jwk :=
  first_jwk_path v
    [["public_key"]; ["owner_key"]; ["default_key"]; ["key"]; ["verificationMethod"; "0"; "publicKeyJwk"]].

Definition ed25519_jwk_x (jwk : Jwk) : option string :=
  if jwk_decodes jwk then jwk_octet_x jwk else None.

Definition owner_pkx_from_owner_config (owner : BnsOwner) : option string :=
  let from_complete_document := bo_owner_config owner ?> owner_key_from_config ?> ed25519_jwk_x in
  let legacy v := find_map (find_string_path v)
    [["public_key"; "x"]; ["owner_key"; "x"]; ["default_key"; "x"]; ["x"]] in
  let from_legacy_config := bo_owner_config owner ?> legacy ?> key_like_string_to_jwk ?> ed25519_jwk_x in
  let from_effective_owner := bo_effective_owner owner ?> key_like_string_to_jwk ?> ed25519_jwk_x in
  or_else from_complete_document (or_else from_legacy_config from_effective_owner).
End keys.
End documents.
