(* ===== verification/ResolverStore.v ===== *)
(** * Service node: the state of the name resolver

    Configuration, answers and caches of the resolver
    ([cyfs-sn/src/sn_resolver.rs]), and the world its tasks act on: the account
    database and the relay tables behind it, the two answer caches, the cursor
    into the change feed with its mutex, and the cached map of relay nodes.

    The readings of the monotonic clock are the class [Instants], in
    nanoseconds; [Timers] tells when a timer of [tokio] fires.  The documents of
    BNS come from an implementation of the trait [BnsDocumentReader], which is a
    class here as it is in the code. *)

From S2P Require Import Prelude IpAddr Tasks RelayModel RelayStore Relay AuthModel AuthStore Auth AuthDb ResolverModel.

(** ** Configuration *)

Definition DEFAULT_SN_RESOLVER_TTL_SECS : Z := 60.
Definition DEFAULT_LEGACY_GATEWAY_DEVICE : string := "ood1".
Definition UNASSIGNED_RELAY_SN : string := "unassigned".
Definition DEFAULT_AUTH_SOA_SERIAL : Z := 1.
Definition DEFAULT_AUTH_SOA_REFRESH : Z := 300.
Definition DEFAULT_AUTH_SOA_RETRY : Z := 60.
Definition DEFAULT_AUTH_SOA_EXPIRE : Z := 86400.
Definition DEFAULT_AUTH_SOA_MINIMUM : Z := 60.
Definition SN_SERVER_IP_NOT_CONFIGURED : string := "SN server ip is not configured".

(** [Duration::from_secs]. *)
Definition from_secs (secs : Z) : Z := secs * 10 ^ 9.

Definition USER_DNS_SYNC_INTERVAL : Z := from_secs 1.
Definition USER_DNS_SYNC_TIMEOUT : Z := from_secs 5.
Definition USER_DNS_SYNC_MAX_BACKOFF : Z := from_secs 30.

Record SnResolverConfig : Type := mkResolverConfig {
  rc_server_host : string;
  rc_server_ip : option IpAddr;
  rc_aliases : list string;
  rc_boot_jwt : option string;
  rc_owner_pkx : option string;
  rc_device_jwts : list string;
  rc_default_ttl : Z;
  rc_legacy_gateway_device_name : string;
  rc_soa_serial : Z;
  rc_soa_refresh : Z;
  rc_soa_retry : Z;
  rc_soa_expire : Z;
  rc_soa_minimum : Z
}.

Definition not_blank (value : string) : bool := negb (is_empty (trim value)).
Definition filter_text (o : option string) : option string :=
  value ← o; if not_blank value then Some value else None.

Definition new_resolver_config (server_host : string) (server_ip : option IpAddr) (boot_jwt owner_pkx : option string)
    (device_jwts : list string) : SnResolverConfig :=
  {| rc_server_host := normalize_host_lossy server_host;
     rc_server_ip := server_ip;
     rc_aliases := [];
     rc_boot_jwt := filter_text boot_jwt;
     rc_owner_pkx := filter_text owner_pkx;
     rc_device_jwts := List.filter not_blank device_jwts;
     rc_default_ttl := DEFAULT_SN_RESOLVER_TTL_SECS;
     rc_legacy_gateway_device_name := DEFAULT_LEGACY_GATEWAY_DEVICE;
     rc_soa_serial := DEFAULT_AUTH_SOA_SERIAL;
     rc_soa_refresh := DEFAULT_AUTH_SOA_REFRESH;
     rc_soa_retry := DEFAULT_AUTH_SOA_RETRY;
     rc_soa_expire := DEFAULT_AUTH_SOA_EXPIRE;
     rc_soa_minimum := DEFAULT_AUTH_SOA_MINIMUM |}.

Definition with_aliases (c : SnResolverConfig) (aliases : list string) : SnResolverConfig :=
  {| rc_server_host := rc_server_host c;
     rc_server_ip := rc_server_ip c;
     rc_aliases := List.filter (fun alias => negb (is_empty alias)) (List.map normalize_host_lossy aliases);
     rc_boot_jwt := rc_boot_jwt c;
     rc_owner_pkx := rc_owner_pkx c;
     rc_device_jwts := rc_device_jwts c;
     rc_default_ttl := rc_default_ttl c;
     rc_legacy_gateway_device_name := rc_legacy_gateway_device_name c;
     rc_soa_serial := rc_soa_serial c;
     rc_soa_refresh := rc_soa_refresh c;
     rc_soa_retry := rc_soa_retry c;
     rc_soa_expire := rc_soa_expire c;
     rc_soa_minimum := rc_soa_minimum c |}.

(** ** Answers *)

Inductive ZoneResolutionSource : Type := ZoneOfBnsName | ZoneOfUserDomain.

Inductive DnsResolutionSource : Type :=
| FromExplicitRecord | FromBnsDocument | FromDeviceOnlineInfo | FromRelayAssignment | FromSnSelf.

#[export] Instance DnsResolutionSource_eq_dec : EqDecision DnsResolutionSource.
Proof. solve_decision. Defined.

Inductive RelayState : Type := RelayHealthy | RelayDraining | RelayOffline | RelayUnknown.

Record RelayMigrationHint : Type := mkMigrationHint {
  mh_migrated_from : option string;
  mh_migration_deadline : option Z;
  mh_generation : option Z
}.

Record RelayResolution : Type := mkRelayResolution {
  rx_zone_name : string;
  rx_relay_sn : string;
  rx_relay_state : RelayState;
  rx_migration_hint : option RelayMigrationHint
}.

Record ZoneResolution : Type := mkZoneResolution {
  zr_input : string;
  zr_canonical_name : string;
  zr_zone_name : string;
  zr_owner : BnsOwner;
  zr_owner_from_auth_db : bool;
  zr_zone_doc : ZoneDocument;
  zr_boot_doc : BootDocument;
  zr_user_domain : option string;
  zr_self_cert : bool;
  zr_relay_sn : option string;
  zr_source : ZoneResolutionSource
}.

Record GatewayResolution : Type := mkGatewayResolution {
  gr_zone_name : string;
  gr_hostname : string;
  gr_gateway_device_name : string;
  gr_gateway_did : string;
  gr_device_doc : DeviceMiniDocument;
  gr_online : option SnDeviceStateView;
  gr_addresses : list IpAddr;
  gr_relay_sn : option string;
  gr_self_cert : bool
}.

Record DnsAuthority : Type := mkDnsAuthority {
  da_zone_apex : string;
  da_primary_ns : string;
  da_responsible_mailbox : string;
  da_soa_serial : Z;
  da_soa_refresh : Z;
  da_soa_retry : Z;
  da_soa_expire : Z;
  da_soa_minimum : Z;
  da_positive_ttl : Z
}.

Inductive ManagedDnsZoneKind : Type := ZoneWeb3 | ZoneUserDomain.

Record ManagedDnsZone : Type := mkManagedZone {
  mz_kind : ManagedDnsZoneKind;
  mz_authority : DnsAuthority
}.

Definition relay_resolution_from_assignment (zone_name : string) (a : RelayAssignment) : RelayResolution :=
  {| rx_zone_name := zone_name;
     rx_relay_sn := as_relay_sn a;
     rx_relay_state :=
       match as_state a with
       | RaActive => RelayHealthy
       | RaMigrating | RaDraining => RelayDraining
       | RaSuspended => RelayOffline
       end;
     rx_migration_hint :=
       if is_some (as_migrated_from a) || is_some (as_migration_deadline a)
          || bool_decide (as_state a = RaMigrating)
       then Some (mkMigrationHint (as_migrated_from a) (as_migration_deadline a) (Some (as_generation a)))
       else None |}.

Definition effective_ttl (values : list (option Z)) (default_ttl : Z) : Z :=
  match omap id values with
  | [] => default_ttl
  | v :: vs => foldl Z.min v vs
  end.

Section answers.
Context `{DnsTypes}.

Record DnsResolution : Type := mkDnsResolution {
  dr_hostname : string;
  dr_record_type : RecordType;
  dr_ttl : Z;
  dr_addresses : list IpAddr;
  dr_txt : list string;
  dr_source : DnsResolutionSource
}.

Inductive SnAuthoritativeDnsResult : Type :=
| NotManaged
| AuthoritativeAnswer (authority : DnsAuthority) (resolution : DnsResolution)
| AuthoritativeNoData (authority : DnsAuthority)
| AuthoritativeNxDomain (authority : DnsAuthority)
| TemporaryFailure (cause : string).

Definition dns_resolution_has_rrset (r : DnsResolution) : bool :=
  match dr_record_type r with
  | RtA | RtAAAA => negb (bool_decide (dr_addresses r = []))
  | RtTXT => negb (bool_decide (dr_txt r = []))
  | RtOther _ => false
  end.

(** The loop over the values of an RRset: an A answer ends at its first address. *)
Fixpoint explicit_addresses (ty : RecordType) (values : list string) (addresses : list IpAddr) : list IpAddr :=
  match values with
  | [] => addresses
  | value :: values' =>
      match parse_ip_or_socket_addr value with
      | Some ip =>
          let addresses := push_dns_address_unfiltered addresses ip ty in
          if bool_decide (ty = RtA) && negb (bool_decide (addresses = [])) then addresses
          else explicit_addresses ty values' addresses
      | None => explicit_addresses ty values' addresses
      end
  end.

Definition explicit_dns_rrset (hostname : string) (ty : RecordType) (rrset : UserDnsRrset) : RsResult DnsResolution :=
  match ty with
  | RtTXT => ROk (mkDnsResolution hostname ty (rr_ttl rrset) [] (rr_values rrset) FromExplicitRecord)
  | RtA | RtAAAA =>
      ROk (mkDnsResolution hostname ty (rr_ttl rrset) (explicit_addresses ty (rr_values rrset) []) []
             FromExplicitRecord)
  | RtOther _ => RErr (rs_err RkUnsupportedRecordType "unsupported record type")
  end.

(** ** Caches *)

Inductive DnsCacheValue : Type :=
| CacheHit (r : DnsResolution)
| CacheTombstone (kind : SnResolverErrorKind).

Record CacheEntry (A : Type) : Type := mkCacheEntry { ce_value : A; ce_expires_at : Z }.

(** The key of both caches: the host and the text of the record type. *)
Definition CacheKey : Type := string * string.

Definition dns_cache_key `{!NameClient} (hostname : string) (ty : RecordType) : CacheKey :=
  (normalize_host_lossy hostname, record_type_to_text ty).

Definition authoritative_cache_key (hostname record_type : string) : CacheKey :=
  (normalize_host_lossy hostname, to_ascii_uppercase (trim record_type)).

Definition min_ttl : Z := from_secs DEFAULT_SN_RESOLVER_TTL_SECS.

(** The entry that has not expired. *)
Definition live_entry {A} (key : CacheKey) (now : Z) (items : gmap CacheKey (CacheEntry A)) : option A :=
  entry ← items !! key; if now <? ce_expires_at A entry then Some (ce_value A entry) else None.

(** Removes the entry if it has expired. *)
Definition drop_expired {A} (key : CacheKey) (now : Z) (items : gmap CacheKey (CacheEntry A)) :
    gmap CacheKey (CacheEntry A) :=
  match items !! key with
  | Some entry => if ce_expires_at A entry <=? now then delete key items else items
  | None => items
  end.

(** [retain] on the entries of other hosts. *)
Definition without_host {A} (hostname : string) (items : gmap CacheKey (CacheEntry A)) :
    gmap CacheKey (CacheEntry A) :=
  filter (fun p => p.1.1 <> hostname) items.
End answers.

Arguments mkCacheEntry {A} ce_value ce_expires_at.
Arguments ce_value {A} c.
Arguments ce_expires_at {A} c.

(** ** The state of the resolver *)

Record UserDnsSyncState : Type := mkSyncState {
  sy_revision : Z;
  sy_next_attempt : option Z;
  sy_failures : Z;
  sy_last_error : option SnResolverError
}.

Definition initial_sync_state : UserDnsSyncState := mkSyncState 0 None 0 None.

Record RelayNodeMapCache : Type := mkNodeMapCache {
  nc_snapshot : option RelayNodeIpMapSnapshot;
  nc_expires_at : Z
}.

Class Instants : Type := instant_at : nat -> Z.
Class InstantsLaws `{Instants} : Prop := instant_le : forall n m, (n <= m)%nat -> instant_at n <= instant_at m.

(** [timer_fires deadline n]: a timer for [deadline] has fired at the [n]th
    reading of the clock; it does not fire early. *)
Class Timers `{Instants} : Type := timer_fires : Z -> nat -> bool.
Class TimersLaws `{Timers} : Prop := timer_late : forall d n, timer_fires d n = true -> d <= instant_at n.

Class BnsDocumentReader : Type := {
  BnsBackend : Type;
  bns_resolve_owner : string -> BnsBackend -> RsResult (option BnsOwner) * BnsBackend;
  bns_get_document : string -> string -> BnsBackend -> RsResult (option BnsDocument) * BnsBackend
}.

Section world.
Context `{NamedLocker, DeviceInfoDB, DnsTypes, BnsDocumentReader}.

Record RsWorld : Type := mkRsWorld {
  rw_sn : SnWorld;
  rw_bns : BnsBackend;
  rw_dns : gmap CacheKey (CacheEntry DnsCacheValue);
  rw_authoritative : gmap CacheKey (CacheEntry SnAuthoritativeDnsResult);
  rw_sync : UserDnsSyncState;
  rw_sync_locked : bool;
  rw_node_map : RelayNodeMapCache;
  rw_instants : nat
}.

Definition set_sn (s : SnWorld) (w : RsWorld) : RsWorld :=
  mkRsWorld s (rw_bns w) (rw_dns w) (rw_authoritative w) (rw_sync w) (rw_sync_locked w) (rw_node_map w) (rw_instants w).
Definition set_bns (b : BnsBackend) (w : RsWorld) : RsWorld :=
  mkRsWorld (rw_sn w) b (rw_dns w) (rw_authoritative w) (rw_sync w) (rw_sync_locked w) (rw_node_map w) (rw_instants w).
Definition set_dns f (w : RsWorld) : RsWorld :=
  mkRsWorld (rw_sn w) (rw_bns w) (f (rw_dns w)) (rw_authoritative w) (rw_sync w) (rw_sync_locked w) (rw_node_map w)
    (rw_instants w).
Definition set_authoritative f (w : RsWorld) : RsWorld :=
  mkRsWorld (rw_sn w) (rw_bns w) (rw_dns w) (f (rw_authoritative w)) (rw_sync w) (rw_sync_locked w) (rw_node_map w)
    (rw_instants w).
Definition set_sync (f : UserDnsSyncState -> UserDnsSyncState) (w : RsWorld) : RsWorld :=
  mkRsWorld (rw_sn w) (rw_bns w) (rw_dns w) (rw_authoritative w) (f (rw_sync w)) (rw_sync_locked w) (rw_node_map w)
    (rw_instants w).
Definition set_locked (b : bool) (w : RsWorld) : RsWorld :=
  mkRsWorld (rw_sn w) (rw_bns w) (rw_dns w) (rw_authoritative w) (rw_sync w) b (rw_node_map w) (rw_instants w).
Definition set_node_map (c : RelayNodeMapCache) (w : RsWorld) : RsWorld :=
  mkRsWorld (rw_sn w) (rw_bns w) (rw_dns w) (rw_authoritative w) (rw_sync w) (rw_sync_locked w) c (rw_instants w).
Definition next_instant (w : RsWorld) : RsWorld :=
  mkRsWorld (rw_sn w) (rw_bns w) (rw_dns w) (rw_authoritative w) (rw_sync w) (rw_sync_locked w) (rw_node_map w)
    (S (rw_instants w)).

Definition RT (A : Type) : Type := Task RsWorld (RsResult A).

Definition rret {A} (a : A) : RT A := Ret (ROk a).
Definition rfail {A} (e : SnResolverError) : RT A := Ret (RErr e).
Definition rlift {A} (r : RsResult A) : RT A := Ret r.

(** The [?] operator. *)
Definition rbind {A B} (m : RT A) (k : A -> RT B) : RT B :=
  tbind m (fun r => match r with ROk a => k a | RErr e => Ret (RErr e) end).

Lemma rbind_ok {A B} (a : A) (k : A -> RT B) : rbind (Ret (ROk a)) k = k a.
Proof. done. Qed.
Lemma rbind_err {A B} e (k : A -> RT B) : rbind (Ret (RErr e)) k = Ret (RErr e).
Proof. done. Qed.

(** An action on the state of the resolver. *)
Definition rdo {A} (f : RsWorld -> A * RsWorld) : RT A := atomic (fun w => let '(a, w') := f w in (ROk a, w')).
Definition rget {A} (f : RsWorld -> A) : RT A := rdo (fun w => (f w, w)).
Definition rput (f : RsWorld -> RsWorld) : RT unit := rdo (fun w => (tt, f w)).

Section instants.
Context `{Instants}.

(** [Instant::now]. *)
Definition now_of_world (w : RsWorld) : Z := instant_at (rw_instants w).
Definition instant_now : RT Z := rdo (fun w => (now_of_world w, next_instant w)).
End instants.

(** A task of the account database. *)
Fixpoint on_sn {A} (t : Task SnWorld A) : Task RsWorld A :=
  match t with
  | Ret a => Ret a
  | Act act k => Act (fun w =>
      match act (rw_sn w) with
      | Some (x, s) => Some (x, set_sn s w)
      | None => None
      end) (fun x => on_sn (k x))
  end.

(** [map_err] of an error of the database. *)
Definition from_db {A} (context : string) (t : AT A) : RT A :=
  tbind (on_sn t) (fun r => match r with SOk a => rret a | SErr _ => rfail (re_backend context) end).

Definition on_bns {A} (f : BnsBackend -> RsResult A * BnsBackend) : RT A := atomic (fun w =>
  let '(r, b) := f (rw_bns w) in (r, set_bns b w)).
End world.

Arguments rbind : simpl never.

Notation "'let+' x ':=' m 'in' k" := (rbind m (fun x => k))
  (at level 10, x pattern, m at level 100, k at level 200) : sn_scope.
Notation "m1 ;+ m2" := (rbind m1 (fun _ => m2))
  (at level 100, m2 at level 200, right associativity) : sn_scope.
