(* ===== verification/Resolver.v ===== *)
(** * Service node: the name resolver

    The resolver of the service node ([cyfs-sn/src/sn_resolver.rs]) as
    asynchronous tasks: the readers of the account database and of the relay
    map, the answer caches, the synchronisation with the change feed, standard
    and authoritative DNS, zones, gateways, relays and DIDs.

    [fuel] bounds the pages one synchronisation reads; a task that needs more
    does not go on, so what holds for every [fuel] holds for every execution.
    Log output is left out. *)

From S2P Require Import Prelude IpAddr Tasks RelayModel RelayStore Relay AuthModel AuthStore Auth AuthDb ResolverModel ResolverStore.

Definition interrupted : SnResolverError := re_backend "user DNS synchronization interrupted".
Definition timed_out : SnResolverError := re_backend "user DNS synchronization timed out".

(** [Duration::from_secs(1u64 << (failures - 1).min(5)).min(USER_DNS_SYNC_MAX_BACKOFF)]. *)
Definition sync_backoff (failures : Z) : Z :=
  Z.min (from_secs (Z.shiftl 1 (Z.min (failures - 1) 5))) USER_DNS_SYNC_MAX_BACKOFF.

Definition set_cursor (revision : Z) (s : UserDnsSyncState) : UserDnsSyncState :=
  mkSyncState revision (sy_next_attempt s) (sy_failures s) (sy_last_error s).

(** Insertion of a field an object does not have. *)
Definition entry_or_insert (key : string) (v : Json) (fields : list (string * Json)) : list (string * Json) :=
  if is_some (field fields key) then fields
  else stable_sort (fun x y => String.leb x.1 y.1) (fields ++ [(key, v)]).

Inductive SnDidResolverProfile : Type := PublicSupplement | InternalZoneResolver.
Inductive SnDidDocumentStatus : Type := DocActive | DocMissing | DocRevoked | DocTombstoned.
Inductive SnDidDocumentSource : Type :=
| DidBnsDocument | DidDeviceMiniDocument | DidDeviceOnlineInfo | DidAuthDbProjection
| DidSynthesizedOwnerDocument | DidInternalCache.

Record SnDidResolveResponse : Type := mkDidResponse {
  dd_did : string;
  dd_doc_type : string;
  dd_document : EncodedDocument;
  dd_source : SnDidDocumentSource;
  dd_profile : SnDidResolverProfile;
  dd_document_status : option SnDidDocumentStatus;
  dd_metadata : Json
}.

Definition did_response_str (did doc_type : string) (document : EncodedDocument) (source : SnDidDocumentSource) :
    SnDidResolveResponse :=
  mkDidResponse did doc_type document source PublicSupplement None JNull.

Definition build_auth_db_zone_projection (username : string) (user : SNUserInfo) : Json :=
  json_object [("user_name", JString username); ("public_key", JString (ui_public_key user));
    ("boot", JString (ui_zone_config user)); ("self_cert", JBool (ui_self_cert user));
    ("user_domain", json_option (ui_user_domain user)); ("sn_ips", json_option (ui_sn_ips user));
    ("state", JString (user_state_to_string (ui_state user)))].

Definition device_document (d : DeviceMiniDocument) : Json :=
  default (json_object [("id", JString (dm_did d)); ("name", JString (dm_device_name d));
    ("zone", JString (dm_zone_name d)); ("mini_config_jwt", json_option (dm_mini_config_jwt d))]) (dm_document d).

(** [serde_json::to_value] of the state of a device. *)
Class SerdeViews : Type := view_to_json : SnDeviceStateView -> option Json.

Definition device_online_info_document `{SerdeViews} (online : SnDeviceStateView) : Json :=
  match default (JObject []) (view_to_json online) with
  | JObject fields =>
      let ips := List.map JString (dv_public_ips online ++ dv_private_ips online) in
      let fields := entry_or_insert "owner" (JString (dv_zone online)) fields in
      let fields := entry_or_insert "zone_name" (JString (dv_zone online)) fields in
      let fields := match ips with ip :: _ => entry_or_insert "ip" ip fields | [] => fields end in
      JObject (entry_or_insert "all_ip" (JArray ips) (entry_or_insert "ips" (JArray ips) fields))
  | v => v
  end.

Section resolver.
Context `{NamedLocker, DeviceInfoDB, Clock, JsonStrings, SqlNumbers, CharTables}.
Context `{JsonKeys, RowOrder, SqlxNull}.
Context `{DnsTypes, !NameClient, BnsDocumentReader, Instants, !Timers}.
Context `{NameLib, SerdeJson, JsonWebKeys, HashOrder, SerdeViews}.
Context (config : SnResolverConfig) (cache_ttl : Z) (fuel : nat).

(** ** Readers *)

Definition auth_get_user_info (username : string) : RT (option SNUserInfo) :=
  from_db "query user failed" (get_user_info username).

Definition auth_get_user_by_domain (domain : string) : RT (option SNUserInfo) :=
  from_db "query user by domain failed" (get_user_by_domain domain).

Definition auth_get_zone_info (username : string) : RT (option ZoneInfo) :=
  from_db "query zone_info failed" (get_zone_info username).

Definition auth_get_user_dns_rrset (name : string) (ty : UserDnsRecordType) : RT UserDnsLookup :=
  from_db "query user DNS RRset failed" (get_user_dns_rrset name ty).

Definition auth_list_user_dns_changes (after_revision limit : Z) : RT UserDnsChangePage :=
  from_db "list user DNS changes failed" (list_user_dns_changes after_revision limit).

Definition auth_get_user_sn_ips (username : string) : RT (list IpAddr) :=
  let+ zone_info := auth_get_zone_info username in
  match zone_info with
  | Some info => rret (parse_sn_ips (zi_sn_ips info))
  | None => rret []
  end.

Definition online_state (did : string) : RT (option SnDeviceStateView) :=
  from_db "query device online state failed" (on_relay (on_devices (get_device_state did))).

Definition online_state_by_name (zone device_name : string) : RT (option SnDeviceStateView) :=
  from_db "query device online state failed" (on_relay (on_devices (get_device_state_by_name zone device_name))).

Definition resolve_owner (name : string) : RT (option BnsOwner) := on_bns (bns_resolve_owner name).
Definition get_document (name doc_type : string) : RT (option BnsDocument) := on_bns (bns_get_document name doc_type).

(** *** The map of relay nodes *)

Definition relay_of_zone (zone : string) : RT (option RelayAssignment) :=
  from_db "query relay assignment failed" (on_relay (get_zone_relay zone)).

Definition snapshot_ips (relay_id : string) (s : RelayNodeIpMapSnapshot) : option (IpAddr * IpAddr) :=
  ie_ips <$> List.find (fun node => String.eqb (ie_relay_id node) relay_id) (sn_nodes s).

Definition cached_ip_pair (relay_id : string) : RT (option (IpAddr * IpAddr) * bool) := rdo (fun w =>
  let cache := rw_node_map w in
  ((nc_snapshot cache ?> snapshot_ips relay_id, now_of_world w <? nc_expires_at cache), next_instant w)).

Definition refresh (force_full : bool) : RT unit :=
  let+ if_revision :=
    if force_full then rret None else rget (fun w => option_map sn_revision (nc_snapshot (rw_node_map w))) in
  let+ snapshot := from_db "refresh relay node IP map failed" (on_relay (get_relay_nodes_ip_map_snapshot if_revision)) in
  atomic (fun w =>
    let cached := nc_snapshot (rw_node_map w) in
    match snapshot, cached with
    | None, None =>
        (RErr (re_backend "AuthDB returned not-modified without a cached relay node map"), w)
    | _, _ =>
        (ROk tt, next_instant (set_node_map
           (mkNodeMapCache (or_else snapshot cached) (now_of_world w + cache_ttl)) w))
    end).

Definition get_relay_node_ips (relay_id : string) : RT (option (IpAddr * IpAddr)) :=
  let+ (cached, fresh) := cached_ip_pair relay_id in
  if is_some cached && fresh then rret cached
  else if negb (is_some cached) && fresh then
    refresh true ;+
    let+ (found, _) := cached_ip_pair relay_id in rret found
  else
    refresh false ;+
    let+ (refreshed, _) := cached_ip_pair relay_id in
    if is_some refreshed then rret refreshed
    else
      refresh true ;+
      let+ (found, _) := cached_ip_pair relay_id in rret found.

(** ** Caches *)

Definition query_dns (hostname : string) (ty : RecordType) : RT (option DnsCacheValue) :=
  let key := dns_cache_key hostname ty in
  let+ now := instant_now in
  let+ found := rget (fun w => live_entry key now (rw_dns w)) in
  match found with
  | Some value => rret (Some value)
  | None => rput (set_dns (drop_expired key now)) ;+ rret None
  end.

Definition insert_dns (hostname : string) (ty : RecordType) (value : DnsCacheValue) (ttl : option Z) : RT unit :=
  let requested := from_secs (default DEFAULT_SN_RESOLVER_TTL_SECS ttl) in
  let+ now := instant_now in
  rput (set_dns <[dns_cache_key hostname ty := mkCacheEntry value (now + Z.max requested min_ttl)]>).

Definition remove_dns (hostname : string) (ty : RecordType) : RT bool :=
  let key := dns_cache_key hostname ty in
  rdo (fun w => (is_some (rw_dns w !! key), set_dns (delete key) w)).

Definition remove_authoritative_name (hostname : string) : RT nat := rdo (fun w =>
  let items := without_host (normalize_host_lossy hostname) (rw_authoritative w) in
  ((size (rw_authoritative w) - size items)%nat, set_authoritative (fun _ => items) w)).

Definition remove_dns_name (hostname : string) : RT nat :=
  let hostname := normalize_host_lossy hostname in
  let+ removed := rdo (fun w =>
    let items := without_host hostname (rw_dns w) in
    ((size (rw_dns w) - size items)%nat, set_dns (fun _ => items) w)) in
  let+ more := remove_authoritative_name hostname in
  rret (removed + more)%nat.

Definition query_authoritative_dns (hostname record_type : string) : RT (option SnAuthoritativeDnsResult) :=
  let key := authoritative_cache_key hostname record_type in
  let+ now := instant_now in
  let+ found := rget (fun w => live_entry key now (rw_authoritative w)) in
  match found with
  | Some value => rret (Some value)
  | None => rput (set_authoritative (drop_expired key now)) ;+ rret None
  end.

Definition insert_authoritative_dns (hostname record_type : string) (value : SnAuthoritativeDnsResult) (ttl : Z) :
    RT unit :=
  let+ now := instant_now in
  rput (set_authoritative
    <[authoritative_cache_key hostname record_type := mkCacheEntry value (now + Z.max (from_secs ttl) min_ttl)]>).

Definition clear_caches : RT unit := rput (set_dns (fun _ => ∅)) ;+ rput (set_authoritative (fun _ => ∅)).

(** ** The change feed *)

Fixpoint apply_changes (changes : list UserDnsChange) : RT unit :=
  match changes with
  | [] => rret tt
  | change :: changes' =>
      remove_dns_name (ch_name change) ;+
      rput (set_sync (set_cursor (ch_revision change))) ;+
      apply_changes changes'
  end.

(** The caches hold answers of an unknown age. *)
Definition restart_at (revision : Z) : RT Z :=
  clear_caches ;+ rput (set_sync (set_cursor revision)) ;+ rret revision.

Definition gap_after (cursor : Z) (page : UserDnsChangePage) : bool :=
  ((cursor <? pg_current_revision page)
   && (u64_saturating_add cursor 1 <? pg_earliest_available_revision page))
  || match pg_changes page with
     | first :: _ => u64_saturating_add cursor 1 <? ch_revision first
     | [] => false
     end.

Fixpoint drain_user_dns_changes (pages : nat) (deadline : Z) : RT Z :=
  match pages with
  | O => Act (fun _ => None) Ret
  | S pages' =>
      let+ fired := rdo (fun w => (timer_fires deadline (rw_instants w), next_instant w)) in
      if fired : bool then rfail timed_out
      else
        let+ cursor := rget (fun w => sy_revision (rw_sync w)) in
        let+ page := auth_list_user_dns_changes cursor 256 in
        if gap_after cursor page then restart_at (pg_current_revision page)
        else
          apply_changes (pg_changes page) ;+
          let+ cursor := rget (fun w => sy_revision (rw_sync w)) in
          if (pg_current_revision page <=? cursor) || bool_decide (pg_changes page = []) then
            rput (set_sync (set_cursor (pg_current_revision page))) ;+ rret (pg_current_revision page)
          else drain_user_dns_changes pages' deadline
  end.

(** The body of [sync_user_dns_changes] while it holds the mutex. *)
Definition sync_locked (force : bool) : RT Z :=
  let+ now := instant_now in
  let+ state := rget rw_sync in
  if match sy_next_attempt state with Some next => now <? next | None => false end
     && (negb force || is_some (sy_last_error state)) then
    match sy_last_error state with
    | Some error => rfail error
    | None => rret (sy_revision state)
    end
  else
    rput (set_sync (fun s =>
      mkSyncState (sy_revision s) (Some (now + USER_DNS_SYNC_TIMEOUT + USER_DNS_SYNC_INTERVAL))
        (sy_failures s) (Some interrupted))) ;+
    let+ started := instant_now in
    tbind (drain_user_dns_changes fuel (started + USER_DNS_SYNC_TIMEOUT)) (fun result =>
      let+ ended := instant_now in
      match result with
      | ROk revision =>
          rput (set_sync (fun s =>
            mkSyncState (sy_revision s) (Some (ended + USER_DNS_SYNC_INTERVAL)) 0 None)) ;+
          rret revision
      | RErr error =>
          rput (set_sync (fun s =>
            let failures := u32_saturating_add (sy_failures s) 1 in
            mkSyncState (sy_revision s) (Some (ended + sync_backoff failures)) failures (Some error))) ;+
          rfail error
      end).

(** The mutex is released on every path. *)
Definition sync_user_dns_changes (force : bool) : RT Z :=
  Act (fun w => if rw_sync_locked w then None else Some (tt, set_locked true w)) (fun _ =>
    tbind (sync_locked force) (fun r => rput (set_locked false) ;+ rlift r)).

Definition synchronize_user_dns_changes : RT Z := sync_user_dns_changes true.
Definition poll_user_dns_changes : RT Z := sync_user_dns_changes false.

Definition invalidate_user_dns_name (name : string) : RT unit := remove_dns_name name ;+ rret tt.

(** ** Zones *)

Definition is_self_hostname (hostname : string) : bool :=
  let hostname := normalize_host_lossy hostname in
  String.eqb hostname ("sn." +:+ rc_server_host config)
  || String.eqb hostname (rc_server_host config)
  || existsb (String.eqb hostname) (rc_aliases config).

Definition resolve_zone_by_bns_owner (input zone_name : string) (owner : BnsOwner) (owner_from_auth_db : bool)
    (source : ZoneResolutionSource) (user : option SNUserInfo) (user_domain : option string) : RT ZoneResolution :=
  let+ zone_document := get_document zone_name BNS_DOC_ZONE in
  let zone_doc := match zone_document with Some d => zone_of_bns_document d | None => empty_zone_document end in
  let+ boot_document := get_document zone_name BNS_DOC_BOOT in
  let boot_doc :=
    match boot_document, zd_boot_jwt zone_doc, user with
    | Some document, _, _ => boot_of_bns_document document
    | None, Some boot_jwt, _ => boot_of_legacy_jwt boot_jwt
    | None, None, Some user =>
        if is_empty (trim (ui_zone_config user)) then empty_boot_document
        else boot_of_legacy_jwt (ui_zone_config user)
    | None, None, None => empty_boot_document
    end in
  let+ zone_info := auth_get_zone_info zone_name in
  let self_cert := default false (or_else (option_map zi_self_cert zone_info) (option_map ui_self_cert user)) in
  let+ assignment := relay_of_zone zone_name in
  let relay_sn := or_else (option_map as_relay_sn assignment) (zone_info ?> zi_relay_sn) in
  rret {| zr_input := input; zr_canonical_name := zone_name; zr_zone_name := zone_name; zr_owner := owner;
          zr_owner_from_auth_db := owner_from_auth_db; zr_zone_doc := zone_doc; zr_boot_doc := boot_doc;
          zr_user_domain := user_domain; zr_self_cert := self_cert; zr_relay_sn := relay_sn; zr_source := source |}.

Definition resolve_zone_by_user (input username : string) (user : SNUserInfo) (source : ZoneResolutionSource) :
    RT ZoneResolution :=
  let+ bns_owner := resolve_owner username in
  let owner := match bns_owner with Some owner => owner | None => legacy_owner username (Some user) end in
  resolve_zone_by_bns_owner input username owner (negb (is_some bns_owner)) source (Some user) (ui_user_domain user).

Definition resolve_zone_by_bns_name (bns_name input : string) (source : ZoneResolutionSource)
    (user_domain : option string) : RT ZoneResolution :=
  let+ canonical_name := rlift (normalize_bns_name bns_name) in
  let+ bns_owner := resolve_owner canonical_name in
  let+ user := auth_get_user_info canonical_name in
  if negb (is_some bns_owner) && negb (is_some user) then rfail (rs_err RkNameNotFound "BNS name not found")
  else
    let owner := match bns_owner with Some owner => owner | None => legacy_owner canonical_name user end in
    resolve_zone_by_bns_owner input canonical_name owner (negb (is_some bns_owner)) source user user_domain.

Definition bns_compat_name_of (hostname : string) : option string :=
  bns_compat_name_for (rc_server_host config) hostname.

Definition resolve_zone_by_hostname (hostname : string) : RT ZoneResolution :=
  let+ hostname := rlift (normalize_hostname hostname) in
  let+ owner := resolve_owner hostname in
  match owner with
  | Some owner => resolve_zone_by_bns_owner hostname hostname owner false ZoneOfBnsName None None
  | None =>
      let+ user := auth_get_user_by_domain hostname in
      match user with
      | Some user =>
          match ui_username user with
          | None => rfail (re_not_found "user_domain has no username")
          | Some username => resolve_zone_by_user hostname username user ZoneOfUserDomain
          end
      | None =>
          if negb (string_contains "." hostname) then
            resolve_zone_by_bns_name hostname hostname ZoneOfBnsName None
          else
            match bns_compat_name_of hostname with
            | Some bns_name => resolve_zone_by_bns_name bns_name hostname ZoneOfBnsName None
            | None => rfail (rs_err RkNotManaged "hostname is not managed by this SN")
            end
      end
  end.

Definition resolve_relay_for_zone (zone_name : string) : RT RelayResolution :=
  let+ zone_name := rlift (normalize_bns_name zone_name) in
  let+ assignment := relay_of_zone zone_name in
  match assignment with
  | Some assignment => rret (relay_resolution_from_assignment zone_name assignment)
  | None =>
      let+ zone_info := auth_get_zone_info zone_name in
      match zone_info ?> zi_relay_sn ?> (fun sn => if is_empty (trim sn) then None else Some sn) with
      | Some relay_sn => rret (mkRelayResolution zone_name relay_sn RelayUnknown None)
      | None => rret (mkRelayResolution zone_name UNASSIGNED_RELAY_SN RelayUnknown None)
      end
  end.

(** ** Gateways *)

Definition gateway_device_name (zone : ZoneResolution) : string :=
  default (rc_legacy_gateway_device_name config)
    (or_else (zd_gateway_device_name (zr_zone_doc zone)) (bt_gateway_device_name (zr_boot_doc zone))).

Definition resolve_assigned_relay_addresses (zone : ZoneResolution) : RT (list IpAddr) :=
  let+ assignment := relay_of_zone (zr_zone_name zone) in
  match assignment with
  | None => rfail (re_backend "relay assignment is missing")
  | Some assignment =>
      if bool_decide (as_state assignment = RaSuspended) then rfail (re_backend "relay assignment is suspended")
      else
        let+ ips := get_relay_node_ips (as_relay_id assignment) in
        match ips with
        | None => rfail (re_backend "relay assignment points to unknown node")
        | Some (a, b) => rret [a; b]
        end
  end.

Definition resolve_device_mini_doc (zone_name device_name : string) (zone_doc : option ZoneDocument) :
    RT DeviceMiniDocument :=
  let child_name := device_name +:+ "." +:+ zone_name in
  let from_map (z : ZoneDocument) :=
    device_doc_from_mini_jwt_map zone_name device_name (zd_mini_device_jwts z) (zd_ttl z) (zd_version z) in
  let+ single := get_document child_name BNS_DOC_DEVICE_MINI in
  match single ?> (fun document => device_doc_from_single zone_name document child_name) with
  | Some device_doc => rret device_doc
  | None =>
      let+ aggregate := get_document zone_name BNS_DOC_DEVICE_MINI in
      match aggregate ?> device_mini_doc_from_aggregate zone_name device_name with
      | Some device_doc => rret device_doc
      | None =>
          let+ zone_doc :=
            match zone_doc with
            | Some zone_doc => rret (Some zone_doc)
            | None =>
                let+ document := get_document zone_name BNS_DOC_ZONE in
                rret (option_map zone_of_bns_document document)
            end in
          match zone_doc ?> from_map with
          | Some device_doc => rret device_doc
          | None => rfail (rs_err RkDeviceNotFound "BNS device document not found")
          end
      end
  end.

Definition resolve_zone_device_did (zone_name device_name : string) : RT string :=
  let+ device_doc := resolve_device_mini_doc zone_name device_name None in
  rret (dm_did device_doc).

Definition resolve_device_document (zone_name device_name : string) : RT EncodedDocument :=
  let+ document := get_document zone_name device_name in
  match document with
  | None => rfail (rs_err RkDocumentNotFound "BNS DeviceDocument not found")
  | Some document =>
      match as_jwt (bd_content document) with
      | None => rfail (rs_err RkInvalidDid "BNS DeviceDocument must be a compact JWT")
      | Some jwt => rret (Jwt jwt)
      end
  end.

(** The addresses of a gateway before a relay is considered. *)
Definition direct_addresses (zone : ZoneResolution) (device_doc : DeviceMiniDocument)
    (online : option SnDeviceStateView) : list IpAddr :=
  let addresses := foldl push_exportable_ip [] (zd_gateway_ips (zr_zone_doc zone)) in
  let addresses :=
    match online with
    | Some online =>
        foldl push_ip_text addresses (dv_public_ips online ++ dv_private_ips online ++ dv_endpoint_hosts online)
    | None => addresses
    end in
  match dm_document device_doc with
  | Some v =>
      foldl (fun addresses key => collect_ips_from_value_path v [key] addresses) addresses
        ["ip"; "ips"; "all_ip"; "addresses"]
  | None => addresses
  end.

Definition resolve_gateway_addresses (zone : ZoneResolution) (device_doc : DeviceMiniDocument)
    (online : option SnDeviceStateView) : RT (list IpAddr) :=
  let addresses := direct_addresses zone device_doc online in
  if device_document_requires_sn_relay device_doc || bool_decide (addresses = []) then
    let+ relays := resolve_assigned_relay_addresses zone in
    rret (foldl push_new addresses relays)
  else rret addresses.

Definition resolve_gateway_for_zone (hostname : string) (zone : ZoneResolution) : RT GatewayResolution :=
  let gateway_device_name := gateway_device_name zone in
  let+ device_doc := resolve_device_mini_doc (zr_zone_name zone) gateway_device_name (Some (zr_zone_doc zone)) in
  let+ online := online_state_by_name (zr_zone_name zone) gateway_device_name in
  let+ addresses := resolve_gateway_addresses zone device_doc online in
  rret {| gr_zone_name := zr_zone_name zone; gr_hostname := hostname;
          gr_gateway_device_name := gateway_device_name; gr_gateway_did := dm_did device_doc;
          gr_device_doc := device_doc; gr_online := online; gr_addresses := addresses;
          gr_relay_sn := zr_relay_sn zone; gr_self_cert := zr_self_cert zone |}.

Definition resolve_gateway_by_hostname (hostname : string) : RT GatewayResolution :=
  let+ hostname := rlift (normalize_hostname hostname) in
  let+ zone := resolve_zone_by_hostname hostname in
  resolve_gateway_for_zone hostname zone.

(** ** Standard DNS *)

Definition server_ip : RsResult IpAddr :=
  match rc_server_ip config with
  | Some ip => ROk ip
  | None => RErr (re_backend SN_SERVER_IP_NOT_CONFIGURED)
  end.

Definition pkx_text (x : string) : string := "PKX=" +:+ x +:+ ";".
Definition boot_text (jwt : string) : string := "BOOT=" +:+ jwt +:+ ";".
Definition dev_text (jwt : string) : string := "DEV=" +:+ jwt +:+ ";".

Definition resolve_self_dns (hostname : string) (ty : RecordType) : RsResult DnsResolution :=
  match ty with
  | RtA | RtAAAA =>
      rs_bind server_ip (fun ip =>
        ROk (mkDnsResolution hostname ty (rc_default_ttl config) (push_dns_address [] ip ty) [] FromSnSelf))
  | RtTXT =>
      let txt :=
        match rc_owner_pkx config with
        | Some owner_pkx => [pkx_text (default owner_pkx (pkx_from_public_key owner_pkx))]
        | None => []
        end ++ option_list (option_map boot_text (rc_boot_jwt config)) ++ List.map dev_text (rc_device_jwts config) in
      ROk (mkDnsResolution hostname ty (rc_default_ttl config) [] txt FromSnSelf)
  | RtOther _ => ROk (mkDnsResolution hostname ty (rc_default_ttl config) [] [] FromSnSelf)
  end.

Definition resolve_zone_txt (zone : ZoneResolution) : RT (list string) :=
  let+ legacy_user := auth_get_user_info (zr_zone_name zone) in
  let pkx := or_else (owner_pkx_from_owner_config (zr_owner zone))
               (legacy_user ?> (fun user => pkx_from_public_key (ui_public_key user))) in
  let boot :=
    match bt_jwt (zr_boot_doc zone) with
    | Some jwt => [boot_text jwt]
    | None =>
        match bt_raw (zr_boot_doc zone) with
        | Some raw => [boot_text (value_to_text raw)]
        | None => []
        end
    end in
  let+ minis := get_document (zr_zone_name zone) BNS_DOC_DEVICE_MINI in
  let devices :=
    match minis with
    | Some document => device_jwts_from_bns_document document
    | None => hash_order (map_to_list (zd_mini_device_jwts (zr_zone_doc zone))).*2
    end in
  let+ dns_txt := get_document (zr_zone_name zone) BNS_DOC_DNS_TXT in
  let extra := match dns_txt with Some document => txt_records_from_bns_document document | None => [] end in
  rret (option_list (option_map pkx_text pkx) ++ boot ++ List.map dev_text devices ++ extra).

(** The first address that is exportable and of the fourth version. *)
Fixpoint first_public_ipv4 (ips : list IpAddr) : list IpAddr :=
  match ips with
  | [] => []
  | ip :: ips' =>
      let addresses := push_dns_address [] ip RtA in
      if bool_decide (addresses = []) then first_public_ipv4 ips' else addresses
  end.

Definition resolve_standard_dns_ipv4 (hostname : string) (zone : ZoneResolution) : RT DnsResolution :=
  let addresses := first_public_ipv4 (zd_gateway_ips (zr_zone_doc zone)) in
  if negb (bool_decide (addresses = [])) then
    rret (mkDnsResolution hostname RtA (default (rc_default_ttl config) (zd_ttl (zr_zone_doc zone))) addresses []
            FromBnsDocument)
  else
    let+ relays := resolve_assigned_relay_addresses zone in
    rret (mkDnsResolution hostname RtA (rc_default_ttl config) (option_list (List.find is_ipv4 relays)) []
            FromRelayAssignment).

(** The addresses of a zone that names none: those of its gateway, or of the
    relay when the document of the gateway is missing. *)
Definition gateway_or_relay_addresses (hostname : string) (zone : ZoneResolution) : RT (list IpAddr) :=
  tbind (resolve_gateway_for_zone hostname zone) (fun r =>
    match r with
    | ROk gateway => rret (gr_addresses gateway)
    | RErr error =>
        if bool_decide (re_kind error = RkDeviceNotFound) then resolve_assigned_relay_addresses zone
        else rfail error
    end).

Definition user_record_type (ty : RecordType) : option UserDnsRecordType :=
  match ty with
  | RtA => Some DnsA
  | RtAAAA => Some DnsAaaa
  | RtTXT => Some DnsTxt
  | RtOther _ => None
  end.

(** A name of a zone without a record of its own. *)
Definition resolve_zone_dns (hostname : string) (ty : RecordType) (zone : ZoneResolution) : RT DnsResolution :=
  match ty with
  | RtTXT =>
      let+ txt := resolve_zone_txt zone in
      if bool_decide (txt = []) then rfail (rs_err RkDocumentNotFound "TXT document not found")
      else
        rret (mkDnsResolution hostname ty
          (effective_ttl [zd_ttl (zr_zone_doc zone); bt_ttl (zr_boot_doc zone)] (rc_default_ttl config))
          [] (dedup_strings txt) FromBnsDocument)
  | RtA => resolve_standard_dns_ipv4 hostname zone
  | _ =>
      let gateway_ips := zd_gateway_ips (zr_zone_doc zone) in
      if negb (bool_decide (gateway_ips = [])) then
        rret (mkDnsResolution hostname ty (default (rc_default_ttl config) (zd_ttl (zr_zone_doc zone)))
          (foldl (fun addresses ip => push_dns_address addresses ip ty) [] gateway_ips) [] FromBnsDocument)
      else
        let+ gateway_addresses := gateway_or_relay_addresses hostname zone in
        rret (mkDnsResolution hostname ty (rc_default_ttl config)
          (foldl (fun addresses ip => push_dns_address_unfiltered addresses ip ty) [] gateway_addresses) []
          FromDeviceOnlineInfo)
  end.

Definition resolve_dns (hostname : string) (ty : RecordType) : RT DnsResolution :=
  let+ hostname := rlift (normalize_hostname hostname) in
  match user_record_type ty with
  | None => rfail (rs_err RkUnsupportedRecordType "unsupported record type")
  | Some user_type =>
      if is_self_hostname hostname then rlift (resolve_self_dns hostname ty)
      else
        let+ lookup := auth_get_user_dns_rrset hostname user_type in
        match lk_rrset lookup with
        | Some rrset => rlift (explicit_dns_rrset hostname ty rrset)
        | None =>
            if is_explicit_only_dns_name hostname ty then
              rfail (rs_err RkDocumentNotFound "explicit TXT record not found")
            else
              let+ zone := resolve_zone_by_hostname hostname in
              resolve_zone_dns hostname ty zone
        end
  end.

(** An answer that says a name or record is not there is cached as well. *)
Definition is_missing (kind : SnResolverErrorKind) : bool :=
  match kind with
  | RkNotManaged | RkNameNotFound | RkDocumentNotFound | RkDeviceNotFound => true
  | _ => false
  end.

(** The answer is computed, and cached unless the name bypasses the cache. *)
Definition resolve_dns_and_cache (bypass_cache : bool) (normalized : string) (ty : RecordType) : RT DnsResolution :=
  tbind (resolve_dns normalized ty) (fun r =>
    match r with
    | ROk result =>
        (if bypass_cache then rret tt
         else insert_dns normalized ty (CacheHit result) (Some (dr_ttl result))) ;+
        rret result
    | RErr e =>
        (if is_missing (re_kind e) && negb bypass_cache then
           insert_dns normalized ty (CacheTombstone (re_kind e)) (Some DEFAULT_SN_RESOLVER_TTL_SECS)
         else rret tt) ;+
        rfail e
    end).

(** What follows the synchronisation. *)
Definition resolve_dns_synced (normalized : string) (ty : RecordType) : RT DnsResolution :=
  let bypass_cache := is_user_dns_control_name normalized in
  let+ cached := if bypass_cache then rret None else query_dns normalized ty in
  match cached with
  | Some (CacheHit result) => rret result
  | Some (CacheTombstone kind) => rfail (rs_err kind "no dns result")
  | None => resolve_dns_and_cache bypass_cache normalized ty
  end.

Definition resolve_dns_cached (hostname : string) (ty : RecordType) : RT DnsResolution :=
  let+ normalized := rlift (normalize_hostname hostname) in
  if negb (is_supported_record_type ty) then rfail (rs_err RkUnsupportedRecordType "unsupported record type")
  else poll_user_dns_changes ;+ resolve_dns_synced normalized ty.

(** ** Authoritative DNS *)

Definition dns_authority (zone_apex : string) : DnsAuthority :=
  {| da_zone_apex := zone_apex;
     da_primary_ns := "dns." +:+ rc_server_host config;
     da_responsible_mailbox := "hostmaster." +:+ rc_server_host config;
     da_soa_serial := rc_soa_serial config;
     da_soa_refresh := rc_soa_refresh config;
     da_soa_retry := rc_soa_retry config;
     da_soa_expire := rc_soa_expire config;
     da_soa_minimum := rc_soa_minimum config;
     da_positive_ttl := rc_default_ttl config |}.

Definition web3_zone : string := "web3." +:+ rc_server_host config.

(** The domain of an active user that holds the host. *)
Definition user_zone_of (hostname : string) (user : option SNUserInfo) : option string :=
  user ← user;
  if bool_decide (ui_state user = UsActive) then
    domain ← ui_user_domain user;
    let domain := normalize_host_lossy domain in
    if dns_name_in_zone hostname domain then Some domain else None
  else None.

Definition label_count (name : string) : nat := length (split_on "." name).

(** [max_by_key] on the candidates: the last one of those with most labels. *)
Definition longest_zone (web3 user : option string) : option (string * ManagedDnsZoneKind) :=
  match web3, user with
  | Some w, Some u => Some (if (label_count u <? label_count w)%nat then (w, ZoneWeb3) else (u, ZoneUserDomain))
  | Some w, None => Some (w, ZoneWeb3)
  | None, Some u => Some (u, ZoneUserDomain)
  | None, None => None
  end.

Definition managed_dns_zone (hostname : string) : RT (option ManagedDnsZone) :=
  let+ user := auth_get_user_by_domain hostname in
  let web3 := if dns_name_in_zone hostname web3_zone then Some web3_zone else None in
  rret (option_map (fun '(apex, kind) => mkManagedZone kind (dns_authority apex))
          (longest_zone web3 (user_zone_of hostname user))).

Fixpoint has_explicit_rrset (hostname : string) (types : list UserDnsRecordType) : RT bool :=
  match types with
  | [] => rret false
  | ty :: types' =>
      let+ lookup := auth_get_user_dns_rrset hostname ty in
      if is_some (lk_rrset lookup) then rret true else has_explicit_rrset hostname types'
  end.

Definition authoritative_name_exists (hostname : string) (zone : ManagedDnsZone) : RT bool :=
  let apex := da_zone_apex (mz_authority zone) in
  if String.eqb hostname apex then rret true
  else
    let+ explicit := has_explicit_rrset hostname [DnsA; DnsAaaa; DnsTxt] in
    if explicit : bool then rret true
    else if starts_with "_" (first_label hostname) then rret false
    else
      match mz_kind zone with
      | ZoneUserDomain => rret true
      | ZoneWeb3 =>
          let prefix := text_or_empty (strip_suffix ("." +:+ apex) hostname) in
          let bns_name := last_label prefix in
          if is_empty bns_name then rret false
          else
            let+ owner := resolve_owner bns_name in
            if is_some owner then rret true
            else
              let+ user := auth_get_user_info bns_name in
              rret (match user with Some user => bool_decide (ui_state user = UsActive) | None => false end)
      end.

(** Errors that say the name has no such record. *)
Definition means_no_data (kind : SnResolverErrorKind) : bool :=
  is_missing kind || bool_decide (kind = RkUnsupportedRecordType).

Definition resolve_authoritative_dns_uncached (hostname record_type : string) : RT SnAuthoritativeDnsResult :=
  let+ zone := managed_dns_zone hostname in
  match zone with
  | None => rret NotManaged
  | Some zone =>
      let authority := mz_authority zone in
      let+ name_exists := authoritative_name_exists hostname zone in
      if negb name_exists then rret (AuthoritativeNxDomain authority)
      else
        match record_type_of_text record_type with
        | None => rret (AuthoritativeNoData authority)
        | Some ty =>
            if negb (is_supported_record_type ty) then rret (AuthoritativeNoData authority)
            else
              tbind (resolve_dns hostname ty) (fun r =>
                match r with
                | ROk resolution =>
                    if dns_resolution_has_rrset resolution then rret (AuthoritativeAnswer authority resolution)
                    else rret (AuthoritativeNoData authority)
                | RErr error =>
                    if means_no_data (re_kind error) then rret (AuthoritativeNoData authority) else rfail error
                end)
        end
  end.

Definition answer_ttl (result : SnAuthoritativeDnsResult) : option Z :=
  match result with
  | AuthoritativeAnswer _ resolution => Some (dr_ttl resolution)
  | AuthoritativeNoData authority | AuthoritativeNxDomain authority => Some (da_soa_minimum authority)
  | NotManaged | TemporaryFailure _ => None
  end.

Definition resolve_authoritative_dns_cached (hostname record_type : string) : RT SnAuthoritativeDnsResult :=
  let+ hostname := rlift (normalize_hostname hostname) in
  let record_type := to_ascii_uppercase (trim record_type) in
  if is_empty record_type then rfail (rs_err RkUnsupportedRecordType "record type is empty")
  else
    poll_user_dns_changes ;+
    let bypass_cache := is_user_dns_control_name hostname in
    let+ cached := if bypass_cache then rret None else query_authoritative_dns hostname record_type in
    match cached with
    | Some result => rret result
    | None =>
        let+ result :=
          tbind (resolve_authoritative_dns_uncached hostname record_type) (fun r =>
            match r with
            | ROk result => rret result
            | RErr error =>
                if bool_decide (re_kind error = RkBackendUnavailable) then
                  rret (TemporaryFailure ("BackendUnavailable: " +:+ re_message error))
                else rfail error
            end) in
        match answer_ttl result with
        | Some ttl =>
            (if bypass_cache then rret tt else insert_authoritative_dns hostname record_type result ttl) ;+
            rret result
        | None => rret result
        end
    end.

(** ** DIDs *)

Definition did_response (did : DID) (doc_type : string) (document : EncodedDocument) (source : SnDidDocumentSource) :
    SnDidResolveResponse :=
  did_response_str (did_to_text did) doc_type document source.

Definition resolve_bns_object_doc (did : DID) (zone_name obj_name doc_type : string) : RT SnDidResolveResponse :=
  if String.eqb doc_type "doc" || String.eqb doc_type "device" then
    let+ document := resolve_device_document zone_name obj_name in
    rret (did_response did doc_type document DidBnsDocument)
  else if String.eqb doc_type BNS_DOC_DEVICE_MINI then
    let+ device_doc := resolve_device_mini_doc zone_name obj_name None in
    rret (did_response did doc_type (JsonLd (device_document device_doc)) DidDeviceMiniDocument)
  else if String.eqb doc_type "info" then
    let+ online := online_state_by_name zone_name obj_name in
    match online with
    | Some online =>
        rret (did_response did doc_type (JsonLd (device_online_info_document online)) DidDeviceOnlineInfo)
    | None => rfail (rs_err RkDeviceNotFound "online device not found")
    end
  else
    let+ document := get_document (obj_name +:+ "." +:+ zone_name) doc_type in
    match document with
    | Some document => rret (did_response did doc_type (to_encoded_document (bd_content document)) DidBnsDocument)
    | None => rfail (rs_err RkDocumentNotFound "BNS document not found")
    end.

Definition resolve_bns_did (did : DID) (doc_type : option string) : RT SnDidResolveResponse :=
  match split_once "." (did_id did) with
  | Some (obj_name, tail) =>
      let+ zone_name :=
        if string_contains "." tail then
          let+ user := auth_get_user_by_domain tail in
          match user ?> ui_username with
          | Some username => rret username
          | None => rfail (rs_err RkNameNotFound "user_domain not found")
          end
        else rret tail in
      resolve_bns_object_doc did zone_name obj_name (default "doc" doc_type)
  | None =>
      let+ zone_name := rlift (normalize_bns_name (did_id did)) in
      let doc_type := default BNS_DOC_ZONE doc_type in
      let+ document := get_document zone_name doc_type in
      match document with
      | Some document => rret (did_response did doc_type (to_encoded_document (bd_content document)) DidBnsDocument)
      | None =>
          if String.eqb doc_type BNS_DOC_ZONE || String.eqb doc_type BNS_DOC_BOOT then
            let+ user := auth_get_user_info zone_name in
            match user with
            | Some user =>
                let document :=
                  if String.eqb doc_type BNS_DOC_ZONE then build_auth_db_zone_projection zone_name user
                  else json_object [("boot", JString (ui_zone_config user))] in
                rret (did_response did doc_type (JsonLd document) DidAuthDbProjection)
            | None =>
                let+ owner := resolve_owner zone_name in
                rfail (rs_err (if is_some owner then RkDocumentNotFound else RkNameNotFound) "BNS document not found")
            end
          else rfail (rs_err RkDocumentNotFound "BNS device document not found")
      end
  end.

(** [DID::from_str] of a mapped name. *)
Definition mapped_did (id : string) : RsResult DID :=
  match did_of_text ("did:bns:" +:+ id) with
  | Some did => ROk did
  | None => RErr (rs_err RkInvalidDid "invalid mapped bns did")
  end.

(** The device of a host below the domain of its user. *)
Definition device_below (id : string) (user_domain : option string) : option string :=
  domain ← user_domain;
  let domain := normalize_host_lossy domain in
  if String.eqb id domain then None else strip_suffix ("." +:+ domain) id.

Definition resolve_web_did (did : DID) (doc_type : option string) : RT SnDidResolveResponse :=
  let id := normalize_host_lossy (did_id did) in
  let+ user := auth_get_user_by_domain id in
  match user with
  | None => rfail (rs_err RkNameNotFound "user_domain not found")
  | Some user =>
      match ui_username user with
      | None => rfail (re_not_found "user_domain has no username")
      | Some username =>
          let name := match device_below id (ui_user_domain user) with
                      | Some device_name => device_name +:+ "." +:+ username
                      | None => username
                      end in
          let+ mapped := rlift (mapped_did name) in
          resolve_bns_did mapped doc_type
      end
  end.

Definition resolve_dev_did (did : DID) (doc_type : option string) : RT SnDidResolveResponse :=
  let doc_type := default "doc" doc_type in
  let did_str := did_to_text did in
  let+ online := online_state did_str in
  let info := String.eqb doc_type "info" in
  let doc := String.eqb doc_type "doc" in
  match online with
  | Some online =>
      if info then
        rret (did_response_str did_str doc_type (JsonLd (device_online_info_document online)) DidDeviceOnlineInfo)
      else if doc then
        let+ device_doc := resolve_device_mini_doc (dv_zone online) (dv_device_name online) None in
        rret (did_response_str did_str doc_type (JsonLd (device_document device_doc)) DidDeviceMiniDocument)
      else rfail (rs_err RkDocumentNotFound "unsupported doc_type")
  | None =>
      if doc || info then rfail (rs_err RkDeviceNotFound "online device not found")
      else rfail (rs_err RkDocumentNotFound "unsupported doc_type")
  end.

Definition resolve_did (did : DID) (doc_type : option string) : RT SnDidResolveResponse :=
  let doc_type := normalize_doc_type doc_type in
  if String.eqb (did_method did) "web" then resolve_web_did did doc_type
  else if String.eqb (did_method did) "bns" then resolve_bns_did did doc_type
  else if String.eqb (did_method did) "dev" then resolve_dev_did did doc_type
  else rfail (rs_err RkUnsupportedDidMethod "unsupported did method").

(** ** Requests *)

Inductive RsCall : Type :=
| ReqDns (hostname : string) (ty : RecordType)
| ReqAuthoritative (hostname record_type : string)
| ReqSynchronize
| ReqPoll
| ReqInvalidate (name : string)
| ReqZone (hostname : string)
| ReqGateway (hostname : string)
| ReqRelay (zone_name : string)
| ReqZoneDevice (zone_name device_name : string)
| ReqDid (did : DID) (doc_type : option string).

Inductive RsReply : Type :=
| RepDns (r : RsResult DnsResolution)
| RepAuthoritative (r : RsResult SnAuthoritativeDnsResult)
| RepRevision (r : RsResult Z)
| RepUnit (r : RsResult unit)
| RepZone (r : RsResult ZoneResolution)
| RepGateway (r : RsResult GatewayResolution)
| RepRelay (r : RsResult RelayResolution)
| RepText (r : RsResult string)
| RepDid (r : RsResult SnDidResolveResponse).

Definition replying {A} (f : RsResult A -> RsReply) (t : RT A) : Task RsWorld RsReply := tbind t (fun r => Ret (f r)).

Definition rs_task (c : RsCall) : Task RsWorld RsReply :=
  match c with
  | ReqDns hostname ty => replying RepDns (resolve_dns_cached hostname ty)
  | ReqAuthoritative hostname record_type =>
      replying RepAuthoritative (resolve_authoritative_dns_cached hostname record_type)
  | ReqSynchronize => replying RepRevision synchronize_user_dns_changes
  | ReqPoll => replying RepRevision poll_user_dns_changes
  | ReqInvalidate name => replying RepUnit (invalidate_user_dns_name name)
  | ReqZone hostname => replying RepZone (resolve_zone_by_hostname hostname)
  | ReqGateway hostname => replying RepGateway (resolve_gateway_by_hostname hostname)
  | ReqRelay zone_name => replying RepRelay (resolve_relay_for_zone zone_name)
  | ReqZoneDevice zone_name device_name => replying RepText (resolve_zone_device_did zone_name device_name)
  | ReqDid did doc_type => replying RepDid (resolve_did did doc_type)
  end.

(** The resolver and the account database side by side. *)
Definition service_task (self : RelayManager) (c : RsCall + AuthCall) : Task RsWorld (RsReply + AuthReply) :=
  match c with
  | inl c => tbind (rs_task c) (fun r => Ret (inl r))
  | inr c => tbind (on_sn (auth_task self c)) (fun r => Ret (inr r))
  end.
End resolver.
