(* ===== verification/ResolverRun.v ===== *)
(** * Name resolver: requests that only read

    Which parts of the resolver leave the tables, the answer caches and the
    state of the synchronisation as they are, that they always end, and the form
    of the answers they compute. *)

From S2P Require Import Prelude IpAddr Tasks RelayModel RelayStore Relay AuthModel AuthStore Auth AuthDb ResolverModel ResolverStore Resolver.

Section same.
Context `{NamedLocker, DeviceInfoDB, DnsTypes, BnsDocumentReader}.

Definition relay_same (w w' : World) : Prop := w_db w' = w_db w.
Definition sn_same (w w' : SnWorld) : Prop := sw_auth w' = sw_auth w /\ relay_same (sw_relay w) (sw_relay w').
Definition rs_same (w w' : RsWorld) : Prop :=
  sn_same (rw_sn w) (rw_sn w') /\ rw_dns w' = rw_dns w /\ rw_authoritative w' = rw_authoritative w /\
  rw_sync w' = rw_sync w /\ rw_sync_locked w' = rw_sync_locked w.

#[export] Instance relay_same_preorder : PreOrder relay_same.
Proof. unfold relay_same. split; [done|]. intros ???; congruence. Qed.
#[export] Instance sn_same_preorder : PreOrder sn_same.
Proof. split; [done|]. intros ??? [? Hr] [? Hr']. split; [congruence|by etrans]. Qed.
#[export] Instance rs_same_preorder : PreOrder rs_same.
Proof. split; [done|]. intros ??? (Hs & ? & ? & ? & ?) (Hs' & ? & ? & ? & ?). split_and!; [by etrans|congruence..]. Qed.

(** ** Tasks of the databases *)

Lemma peek_bind {A B} (m : T A) (k : A -> T B) :
  Observes relay_same m -> (forall a, Observes relay_same (k a)) -> Observes relay_same (bind m k).
Proof. intros Hm Hk. apply observes_tbind; [done|]. intros [a|e]; [apply Hk|done]. Qed.

Lemma peek_on_devices {A} (f : DeviceDb -> SnResult A * DeviceDb) : Observes relay_same (on_devices f).
Proof. apply observes_atomic. intros w. by destruct (f (w_devices w)). Qed.

Lemma observes_on_relay {A} (t : Task World A) : Observes relay_same t -> Observes sn_same (on_relay t).
Proof.
  induction t as [a|X act k IH]; [done|]. intros [Ha Hk]. split; [|intros x; by apply IH].
  intros w. destruct (Ha (sw_relay w)) as (x & r & E & Hs). simpl. rewrite E. by do 2 eexists.
Qed.

Lemma observes_abind {A B} (m : AT A) (k : A -> AT B) :
  Observes sn_same m -> (forall a, Observes sn_same (k a)) -> Observes sn_same (abind m k).
Proof. intros Hm Hk. apply observes_tbind; [done|]. intros [a|e]; [apply Hk|done]. Qed.

Lemma observes_select {A} (f : AuthTables -> A) : Observes sn_same (select f).
Proof. by apply observes_atomic. Qed.

(** ** Tasks of the resolver *)

Lemma observes_on_sn {A} (t : Task SnWorld A) : Observes sn_same t -> Observes rs_same (on_sn t).
Proof.
  induction t as [a|X act k IH]; [done|]. intros [Ha Hk]. split; [|intros x; by apply IH].
  intros w. destruct (Ha (rw_sn w)) as (x & s & E & Hs). simpl. rewrite E. do 2 eexists. split; [done|]. by split_and!.
Qed.

Lemma observes_rbind {A B} (m : RT A) (k : A -> RT B) :
  Observes rs_same m -> (forall a, Observes rs_same (k a)) -> Observes rs_same (rbind m k).
Proof. intros Hm Hk. apply observes_tbind; [done|]. intros [a|e]; [apply Hk|done]. Qed.

Lemma observes_from_db {A} context (t : AT A) : Observes sn_same t -> Observes rs_same (from_db context t).
Proof. intros Ht. apply observes_tbind; [by apply observes_on_sn|]. by intros [a|e]. Qed.

Lemma observes_on_bns {A} (f : BnsBackend -> RsResult A * BnsBackend) : Observes rs_same (on_bns f).
Proof. apply observes_atomic. intros w. by destruct (f (rw_bns w)). Qed.

Lemma observes_rdo {A} (f : RsWorld -> A * RsWorld) : (forall w, rs_same w (f w).2) -> Observes rs_same (rdo f).
Proof. intros Hf. apply observes_atomic. intros w. specialize (Hf w). by destruct (f w). Qed.

Lemma observes_rget {A} (f : RsWorld -> A) : Observes rs_same (rget f).
Proof. by apply observes_rdo. Qed.
End same.

Create HintDb observes.

(** Split a task into its actions. *)
Ltac observe :=
  repeat first
    [ done
    | solve [auto 1 with observes]
    | apply observes_rbind; [|intros ?]
    | apply observes_abind; [|intros ?]
    | apply peek_bind; [|intros ?]
    | apply observes_from_db
    | apply observes_on_relay
    | apply observes_select
    | apply observes_on_bns
    | apply observes_rget
    | apply peek_on_devices
    | apply observes_tbind; [|intros ?]
    | apply observes_atomic; done
    | case_match ].

Section observers.
Context `{NamedLocker, DeviceInfoDB, Clock, JsonStrings, SqlNumbers, CharTables}.
Context `{JsonKeys, RowOrder, SqlxNull}.
Context `{DnsTypes, !NameClient, BnsDocumentReader, Instants, !Timers}.
Context `{NameLib, SerdeJson, JsonWebKeys, HashOrder, SerdeViews}.
Context (config : SnResolverConfig) (cache_ttl : Z).

Lemma observes_user_info u : Observes rs_same (auth_get_user_info u).
Proof. unfold auth_get_user_info, get_user_info, project_optional, project_user_relay, relay_projection, get_zone_relay. observe. Qed.
#[local] Hint Resolve observes_user_info : observes.

Lemma observes_user_by_domain d : Observes rs_same (auth_get_user_by_domain d).
Proof. unfold auth_get_user_by_domain, get_user_by_domain, project_optional, project_user_relay, relay_projection, get_zone_relay. observe. Qed.
#[local] Hint Resolve observes_user_by_domain : observes.

Lemma observes_zone_info u : Observes rs_same (auth_get_zone_info u).
Proof. unfold auth_get_zone_info, get_zone_info, relay_projection, get_zone_relay. observe. Qed.
#[local] Hint Resolve observes_zone_info : observes.

Lemma observes_rrset n ty : Observes rs_same (auth_get_user_dns_rrset n ty).
Proof. unfold auth_get_user_dns_rrset, get_user_dns_rrset. observe. Qed.
#[local] Hint Resolve observes_rrset : observes.

Lemma observes_changes a l : Observes rs_same (auth_list_user_dns_changes a l).
Proof. unfold auth_list_user_dns_changes, list_user_dns_changes. observe. Qed.
#[local] Hint Resolve observes_changes : observes.

Lemma observes_relay_of_zone z : Observes rs_same (relay_of_zone z).
Proof. unfold relay_of_zone, get_zone_relay. observe. Qed.
#[local] Hint Resolve observes_relay_of_zone : observes.

Lemma observes_node_ips id : Observes rs_same (get_relay_node_ips cache_ttl id).
Proof.
  assert (Hc : forall id, Observes rs_same (cached_ip_pair id)) by (intros ?; by apply observes_rdo).
  assert (Hr : forall b, Observes rs_same (refresh cache_ttl b)).
  { intros b. unfold refresh, get_relay_nodes_ip_map_snapshot. observe. apply observes_atomic. intros w. by repeat case_match. }
  unfold get_relay_node_ips. observe; auto; observe.
Qed.
#[local] Hint Resolve observes_node_ips : observes.

Lemma observes_owner n : Observes rs_same (resolve_owner n).
Proof. apply observes_on_bns. Qed.
Lemma observes_document n ty : Observes rs_same (get_document n ty).
Proof. apply observes_on_bns. Qed.
Lemma observes_online did : Observes rs_same (online_state did).
Proof. unfold online_state. observe. Qed.
Lemma observes_online_by_name z d : Observes rs_same (online_state_by_name z d).
Proof. unfold online_state_by_name. observe. Qed.
#[local] Hint Resolve observes_owner observes_document observes_online observes_online_by_name : observes.

(** ** Zones and gateways *)

Lemma observes_zone_by_owner i z o b s u d : Observes rs_same (resolve_zone_by_bns_owner i z o b s u d).
Proof. unfold resolve_zone_by_bns_owner. observe. Qed.
#[local] Hint Resolve observes_zone_by_owner : observes.

Lemma observes_zone_by_user i n u s : Observes rs_same (resolve_zone_by_user i n u s).
Proof. unfold resolve_zone_by_user. observe. Qed.
Lemma observes_zone_by_name n i s d : Observes rs_same (resolve_zone_by_bns_name n i s d).
Proof. unfold resolve_zone_by_bns_name. observe. Qed.
#[local] Hint Resolve observes_zone_by_user observes_zone_by_name : observes.

Lemma observes_zone_by_hostname h : Observes rs_same (resolve_zone_by_hostname config h).
Proof. unfold resolve_zone_by_hostname. observe. Qed.
Lemma observes_relay_for_zone z : Observes rs_same (resolve_relay_for_zone z).
Proof. unfold resolve_relay_for_zone. observe. Qed.
Lemma observes_relay_addresses z : Observes rs_same (resolve_assigned_relay_addresses cache_ttl z).
Proof. unfold resolve_assigned_relay_addresses. observe. Qed.
Lemma observes_mini_doc z d o : Observes rs_same (resolve_device_mini_doc z d o).
Proof. unfold resolve_device_mini_doc. observe. Qed.
Lemma observes_device_document z d : Observes rs_same (resolve_device_document z d).
Proof. unfold resolve_device_document. observe. Qed.
#[local] Hint Resolve observes_zone_by_hostname observes_relay_addresses observes_mini_doc observes_device_document : observes.

Lemma observes_zone_device z d : Observes rs_same (resolve_zone_device_did z d).
Proof. unfold resolve_zone_device_did. observe. Qed.
Lemma observes_gateway_for_zone h z : Observes rs_same (resolve_gateway_for_zone config cache_ttl h z).
Proof. unfold resolve_gateway_for_zone, resolve_gateway_addresses. observe. Qed.
#[local] Hint Resolve observes_gateway_for_zone : observes.
Lemma observes_gateway h : Observes rs_same (resolve_gateway_by_hostname config cache_ttl h).
Proof. unfold resolve_gateway_by_hostname. observe. Qed.

(** ** Answers *)

Lemma observes_zone_dns h ty z : Observes rs_same (resolve_zone_dns config cache_ttl h ty z).
Proof.
  unfold resolve_zone_dns, resolve_zone_txt, resolve_standard_dns_ipv4, gateway_or_relay_addresses. observe.
Qed.
#[local] Hint Resolve observes_zone_dns : observes.

Lemma observes_resolve_dns h ty : Observes rs_same (resolve_dns config cache_ttl h ty).
Proof. unfold resolve_dns. observe. Qed.
#[local] Hint Resolve observes_resolve_dns : observes.

Lemma observes_has_explicit h types : Observes rs_same (has_explicit_rrset h types).
Proof. induction types as [|ty types IH]; simpl; observe. Qed.
#[local] Hint Resolve observes_has_explicit : observes.

Lemma observes_managed_zone h : Observes rs_same (managed_dns_zone config h).
Proof. unfold managed_dns_zone. observe. Qed.
Lemma observes_name_exists h z : Observes rs_same (authoritative_name_exists h z).
Proof. unfold authoritative_name_exists. observe. Qed.
#[local] Hint Resolve observes_managed_zone observes_name_exists : observes.

Lemma observes_authoritative h ty : Observes rs_same (resolve_authoritative_dns_uncached config cache_ttl h ty).
Proof. unfold resolve_authoritative_dns_uncached. observe. Qed.

Lemma observes_bns_did did ty : Observes rs_same (resolve_bns_did did ty).
Proof. unfold resolve_bns_did, resolve_bns_object_doc. observe. Qed.
#[local] Hint Resolve observes_bns_did : observes.

Lemma observes_did did ty : Observes rs_same (resolve_did did ty).
Proof. unfold resolve_did, resolve_web_did, resolve_dev_did. observe. Qed.
End observers.

#[export] Hint Resolve observes_user_info observes_user_by_domain observes_zone_info observes_rrset observes_changes
  observes_relay_of_zone observes_node_ips observes_owner observes_document observes_online observes_online_by_name
  observes_zone_by_hostname observes_relay_for_zone observes_relay_addresses observes_mini_doc observes_zone_device
  observes_gateway observes_zone_dns observes_resolve_dns observes_has_explicit observes_managed_zone
  observes_name_exists observes_authoritative observes_did : observes.

(** * The form of its answers

    What every answer satisfies, whatever the databases and documents say: the
    addresses are of the family of the question, an A answer has one at most, and
    addresses from documents are never loopback or container-bridge ones. *)

Section answers.
Context `{DnsTypes}.

Definition of_family (ty : RecordType) (ip : IpAddr) : Prop :=
  match ty with RtA => is_ipv4 ip = true | RtAAAA => is_ipv6 ip = true | _ => False end.

Record addresses_ok (ty : RecordType) (ips : list IpAddr) : Prop := mkAddressesOk {
  ao_family : Forall (of_family ty) ips;
  ao_distinct : NoDup ips;
  ao_single : ty = RtA -> (length ips <= 1)%nat
}.

Record answer_wf (hostname : string) (ty : RecordType) (r : DnsResolution) : Prop := mkAnswerWf {
  an_hostname : dr_hostname r = hostname;
  an_type : dr_record_type r = ty;
  an_addresses : addresses_ok ty (dr_addresses r);
  an_txt : ty <> RtTXT -> dr_txt r = [];
  an_exportable : dr_source r = FromBnsDocument \/ dr_source r = FromSnSelf ->
    Forall (fun ip => is_filtered_zonegate_ip ip = false) (dr_addresses r)
}.

Lemma addresses_nil ty : addresses_ok ty [].
Proof. split; [constructor..|simpl; lia]. Qed.

(** ** Collecting addresses *)

Lemma push_new_in ips ip x : x ∈ push_new ips ip <-> x ∈ ips \/ x = ip.
Proof.
  unfold push_new. case_bool_decide as Hin; [naive_solver|].
  by rewrite elem_of_app, list_elem_of_singleton.
Qed.

Lemma push_new_NoDup ips ip : NoDup ips -> NoDup (push_new ips ip).
Proof.
  intros Hnd. unfold push_new. case_bool_decide as Hin; [done|]. apply NoDup_app. split_and!; [done| |apply NoDup_singleton].
  intros x Hx ->%list_elem_of_singleton. done.
Qed.

(** What one address adds. *)
Lemma push_unfiltered_in ty ips ip x :
  x ∈ push_dns_address_unfiltered ips ip ty -> x ∈ ips \/ of_family ty x.
Proof. unfold push_dns_address_unfiltered. repeat case_match; try (by left); rewrite push_new_in; intros [Hx| ->]; auto. Qed.

Lemma push_unfiltered_NoDup ty ips ip : NoDup ips -> NoDup (push_dns_address_unfiltered ips ip ty).
Proof. intros Hnd. unfold push_dns_address_unfiltered. repeat case_match; try done; by apply push_new_NoDup. Qed.

Lemma push_filtered_in ty ips ip x :
  x ∈ push_dns_address ips ip ty -> x ∈ ips \/ of_family ty x /\ is_filtered_zonegate_ip x = false.
Proof.
  unfold push_dns_address, push_exportable_ip.
  destruct ty; repeat case_match; try (by left); rewrite push_new_in; intros [Hx| ->]; auto.
Qed.

Lemma push_filtered_NoDup ty ips ip : NoDup ips -> NoDup (push_dns_address ips ip ty).
Proof.
  intros Hnd. unfold push_dns_address, push_exportable_ip. repeat case_match; try done; by apply push_new_NoDup.
Qed.

Lemma foldl_inv {A B} (f : A -> B -> A) (P : A -> Prop) l a :
  P a -> (forall a b, P a -> P (f a b)) -> P (foldl f a l).
Proof. revert a. induction l as [|b l IH]; intros a Ha Hf; simpl; auto. Qed.

Lemma collected_unfiltered ips :
  addresses_ok RtAAAA (foldl (fun acc ip => push_dns_address_unfiltered acc ip RtAAAA) [] ips).
Proof.
  apply foldl_inv; [apply addresses_nil|]. intros acc ip [Hf Hd _]. split; [|by apply push_unfiltered_NoDup|done].
  rewrite Forall_forall in *. intros x [Hx|Hx]%push_unfiltered_in; auto.
Qed.

Lemma collected_filtered ips :
  addresses_ok RtAAAA (foldl (fun acc ip => push_dns_address acc ip RtAAAA) [] ips) /\
  Forall (fun ip => is_filtered_zonegate_ip ip = false) (foldl (fun acc ip => push_dns_address acc ip RtAAAA) [] ips).
Proof.
  apply foldl_inv; [split; [apply addresses_nil|constructor]|]. intros acc ip [[Hf Hd _] He].
  rewrite Forall_forall in *. split; [split; [|by apply push_filtered_NoDup|done]|].
  - apply Forall_forall. intros x [Hx|[Hx _]]%push_filtered_in; auto.
  - intros x [Hx|[_ Hx]]%push_filtered_in; auto.
Qed.

Lemma pushed_self ty ip : addresses_ok ty (push_dns_address [] ip ty) /\
  Forall (fun ip => is_filtered_zonegate_ip ip = false) (push_dns_address [] ip ty).
Proof.
  split; [split|].
  - apply Forall_forall. intros x [Hx%elem_of_nil|[Hx _]]%push_filtered_in; done.
  - apply push_filtered_NoDup. constructor.
  - intros ->. unfold push_dns_address, push_exportable_ip, push_new. repeat case_match; simpl; lia.
  - apply Forall_forall. intros x [Hx%elem_of_nil|[_ Hx]]%push_filtered_in; done.
Qed.

Lemma first_public_ok ips : addresses_ok RtA (first_public_ipv4 ips) /\
  Forall (fun ip => is_filtered_zonegate_ip ip = false) (first_public_ipv4 ips).
Proof.
  induction ips as [|ip ips IH]; simpl; [split; [apply addresses_nil|constructor]|].
  case_bool_decide; [done|apply (pushed_self RtA ip)].
Qed.

(** The loop over the values of an RRset. *)
Lemma explicit_addresses_ok ty values ips :
  addresses_ok ty ips -> (ty = RtA -> ips = []) -> addresses_ok ty (explicit_addresses ty values ips).
Proof.
  revert ips. induction values as [|v values IH]; intros ips Hok Hnil; simpl; [done|].
  destruct (parse_ip_or_socket_addr v) as [ip|]; [|by apply IH].
  assert (Hpush : addresses_ok ty (push_dns_address_unfiltered ips ip ty)).
  { destruct Hok as [Hf Hd _]. split; [|by apply push_unfiltered_NoDup|].
    - rewrite Forall_forall in *. intros x [Hx|Hx]%push_unfiltered_in; auto.
    - intros ->. rewrite Hnil by done. unfold push_dns_address_unfiltered, push_new. repeat case_match; simpl; lia. }
  destruct (bool_decide (ty = RtA)) eqn:Et, (bool_decide (push_dns_address_unfiltered ips ip ty = [])) eqn:En; simpl; try done;
    apply IH; try done; intros Ht; apply bool_decide_eq_true in En || apply bool_decide_eq_false in Et; done.
Qed.

Lemma explicit_answer_wf hostname ty rrset r :
  explicit_dns_rrset hostname ty rrset = ROk r -> answer_wf hostname ty r /\ dr_source r = FromExplicitRecord.
Proof.
  unfold explicit_dns_rrset. destruct ty; intros [= <-]; (split; [|done]); split; simpl; try done;
    try (by intros []); try apply addresses_nil; apply explicit_addresses_ok; try done; apply addresses_nil.
Qed.
End answers.

(** ** Tasks *)

Section tasks.
Context `{NamedLocker, DeviceInfoDB, Clock, JsonStrings, SqlNumbers, CharTables}.
Context `{JsonKeys, RowOrder, SqlxNull}.
Context `{DnsTypes, !NameClient, BnsDocumentReader, Instants, !Timers}.
Context `{NameLib, SerdeJson, JsonWebKeys, HashOrder, SerdeViews}.
Context (config : SnResolverConfig) (cache_ttl : Z).

Lemma returns_rbind {A B} (m : RT A) (k : A -> RT B) (Q : RsResult B -> Prop) :
  (forall e, Q (RErr e)) -> (forall a, Returns (k a) Q) -> Returns (rbind m k) Q.
Proof. intros He Hk. eapply returns_tbind; [apply returns_true|]. intros [a|e] _; [apply Hk|apply He]. Qed.

(** A well-formed answer from a source that satisfies [P], or an error. *)
Definition answers (hostname : string) (ty : RecordType) (P : DnsResolutionSource -> Prop)
    (r : RsResult DnsResolution) : Prop :=
  match r with ROk res => answer_wf hostname ty res /\ P (dr_source res) | RErr _ => True end.

Notation zone_answers hostname ty := (answers hostname ty (fun s => s <> FromExplicitRecord)).

Lemma returns_standard_ipv4 h z : Returns (resolve_standard_dns_ipv4 config cache_ttl h z) (zone_answers h RtA).
Proof.
  unfold resolve_standard_dns_ipv4. destruct (first_public_ok (zd_gateway_ips (zr_zone_doc z))) as [Hok He].
  case_match; [by split|]. apply returns_rbind; [done|]. intros relays. simpl. split; [|done].
  split; simpl; try done; [|by intros []].
  destruct (List.find is_ipv4 relays) as [ip|] eqn:E; simpl; [|apply addresses_nil].
  apply List.find_some in E as [_ Hip]. split; simpl; [by constructor|apply NoDup_singleton|lia].
Qed.

Lemma returns_zone_dns h ty z :
  is_supported_record_type ty = true -> Returns (resolve_zone_dns config cache_ttl h ty z) (zone_answers h ty).
Proof.
  intros Hty. unfold resolve_zone_dns. destruct ty; [apply returns_standard_ipv4| | |done].
  - destruct (collected_filtered (zd_gateway_ips (zr_zone_doc z))) as [Hok He]. case_match; [by split|].
    apply returns_rbind; [done|]. intros ips. simpl. split; [|done]. split; simpl; try done; [|by intros []].
    apply collected_unfiltered.
  - apply returns_rbind; [done|]. intros txt. case_match; [done|]. simpl. split; [|done].
    split; simpl; try done. apply addresses_nil.
Qed.

Lemma self_dns_wf h ty r : resolve_self_dns config h ty = ROk r -> is_supported_record_type ty = true -> answer_wf h ty r.
Proof.
  unfold resolve_self_dns, rs_bind. destruct (server_ip config) as [ip|e].
  - destruct (pushed_self RtA ip), (pushed_self RtAAAA ip).
    destruct ty; intros [= <-] Hty; try done; split; simpl; try done; apply addresses_nil.
  - destruct ty; intros [= <-] Hty; try done; split; simpl; try done; apply addresses_nil.
Qed.

Lemma returns_resolve_dns h name ty :
  normalize_hostname h = ROk name -> Returns (resolve_dns config cache_ttl h ty) (answers name ty (fun _ => True)).
Proof.
  intros Hn. unfold resolve_dns, rlift. rewrite Hn, rbind_ok. destruct (user_record_type ty) as [uty|] eqn:Eu; [|done].
  assert (Hty : is_supported_record_type ty = true) by by destruct ty.
  case_match. { simpl. destruct (resolve_self_dns config name ty) as [r|e] eqn:E; [|done]. simpl. split; [|done].
    by apply self_dns_wf. }
  apply returns_rbind; [done|]. intros lookup. destruct (lk_rrset lookup) as [rrset|].
  { simpl. destruct (explicit_dns_rrset name ty rrset) as [r|e] eqn:E; [|done]. simpl. split; [|done].
    by eapply explicit_answer_wf. }
  case_match; [done|]. apply returns_rbind; [done|]. intros z.
  eapply returns_mono; [by apply returns_zone_dns|]. intros [r|e]; [|done]. by intros [? _].
Qed.
End tasks.
