(* ===== verification/ResolverCoherence.v ===== *)
(** * Name resolver: the answer caches and the change feed

    What the resolver knows about the records of a name it has cached: either
    they are as they were when the answer was computed, or the feed has a change
    of the name after the cursor, which the next synchronisation will see.  The
    invariant is kept by every request of the resolver while any number of
    requests change the database, as long as the requests of the resolver itself
    do not overlap. *)

From S2P Require Import Prelude IpAddr Tasks RelayModel RelayStore Relay RelaySafe AuthModel AuthStore Auth AuthDb AuthDns AuthTexts AuthInv AuthKeeps ResolverModel ResolverStore Resolver ResolverRun.

(** ** Names *)

Lemma canonical_is_normal name n : canonical_user_dns_name name = SOk n -> n = normalize_host_lossy name.
Proof.
  unfold canonical_user_dns_name, normalize_host_lossy, refuse_if. repeat case_match; simpl; intros [=]; by subst.
Qed.

Lemma name_ok_normal n : dns_name_ok n -> normalize_host_lossy n = n.
Proof.
  intros Hn. destruct (dns_name_ok_ascii n Hn) as (_ & _ & Hl & Ht & Hd). unfold normalize_host_lossy. by rewrite Ht, Hd.
Qed.

(** ** The records of a name *)

Definition Records : Type := option UserDnsRrset * option UserDnsRrset * option UserDnsRrset.

Definition records (d : DnsTables) (n : string) : Records :=
  (user_dns_rrset d n DnsA, user_dns_rrset d n DnsAaaa, user_dns_rrset d n DnsTxt).

Definition record_of (ty : UserDnsRecordType) (rs : Records) : option UserDnsRrset :=
  let '(a, aaaa, txt) := rs in match ty with DnsA => a | DnsAaaa => aaaa | DnsTxt => txt end.

Lemma record_of_records ty d n : record_of ty (records d n) = user_dns_rrset d n ty.
Proof. by destruct ty. Qed.

Lemma records_evolve d d' n : dns_evolves d d' -> records d' n = records d n \/ told d' (d_revision d) n.
Proof.
  intros He. unfold records.
  destruct (decide (user_dns_rrset d n DnsA = user_dns_rrset d' n DnsA)) as [->|Hne];
    [|right; by apply (ev_told d d' He n DnsA)].
  destruct (decide (user_dns_rrset d n DnsAaaa = user_dns_rrset d' n DnsAaaa)) as [->|Hne];
    [|right; by apply (ev_told d d' He n DnsAaaa)].
  destruct (decide (user_dns_rrset d n DnsTxt = user_dns_rrset d' n DnsTxt)) as [->|Hne]; [by left|].
  right. by apply (ev_told d d' He n DnsTxt).
Qed.

Lemma told_bound d c n : told d c n -> c < d_revision d.
Proof. intros (r & Hr & _). lia. Qed.

Section coherence.
Context `{NamedLocker, DeviceInfoDB, Clock, JsonStrings, !JsonStringsLaws, SqlNumbers, CharTables}.
Context `{JsonKeys, RowOrder, SqlxNull}.
Context `{DnsTypes, !NameClient, !NameClientLaws, BnsDocumentReader, Instants, !Timers}.
Context `{NameLib, SerdeJson, JsonWebKeys, HashOrder, SerdeViews}.
Context (config : SnResolverConfig) (cache_ttl : Z) (fuel : nat).

Definition dns_of (w : RsWorld) : DnsTables := a_dns (sw_auth (rw_sn w)).
Definition cursor (w : RsWorld) : Z := sy_revision (rw_sync w).

(** ** Invariant and environment *)

(** A synchronisation fails as a backend does. *)
Definition sync_state_ok (s : UserDnsSyncState) : Prop :=
  0 <= sy_failures s /\ forall e, sy_last_error s = Some e -> re_kind e = RkBackendUnavailable.

Definition RsInv (w : RsWorld) : Prop :=
  (SnInv (rw_sn w) /\ sync_state_ok (rw_sync w)) /\ 0 <= cursor w <= d_revision (dns_of w).

(** Steps of the requests of the account database. *)
Definition db_step (w w' : RsWorld) : Prop := exists s, w' = set_sn s w /\ SnInv s /\ SnStep (rw_sn w) s.

Lemma inv_db w w' : RsInv w -> db_step w w' -> RsInv w'.
Proof.
  intros [[_ Hs] Hc] (s & -> & HI & [He _]). split; [done|]. pose proof (ev_forward _ _ He). unfold dns_of, cursor in *.
  simpl in *. lia.
Qed.

Lemma same_view w w' : rs_same w w' ->
  dns_of w' = dns_of w /\ cursor w' = cursor w /\ rw_dns w' = rw_dns w /\ rw_authoritative w' = rw_authoritative w.
Proof. intros ((Ha & _) & ? & ? & Hs & _). unfold dns_of, cursor. by rewrite Ha, Hs. Qed.

Lemma inv_same w w' : RsInv w -> rs_same w w' -> RsInv w'.
Proof.
  intros [[[Ha Hr] He] Hc] Hs. destruct (same_view w w' Hs) as (Hd & Hcu & _). destruct Hs as ((Ea & Er) & _ & _ & Es & _).
  split; [|by rewrite Hd, Hcu]. split; [|by rewrite Es]. split; [by rewrite Ea|]. unfold Inv in *. unfold relay_same in Er. by rewrite Er.
Qed.

(** The records of the name are as [P] says, or the feed tells otherwise. *)
Definition Known (n : string) (P : Records -> Prop) (w : RsWorld) : Prop :=
  told (dns_of w) (cursor w) n \/ P (records (dns_of w) n).

Lemma known_stable n P : stable_under RsInv db_step (Known n P).
Proof.
  intros w w' [_ Hc] (s & -> & _ & [He _]) Hk. unfold Known, dns_of, cursor in *. simpl in *. destruct Hk as [Ht|HP].
  - left. by apply (told_later _ _ _ _ He).
  - destruct (records_evolve _ _ n He) as [Heq|Ht]; [right; by rewrite Heq|left].
    apply (told_earlier _ _ _ _ (proj2 Hc) Ht).
Qed.

Lemma known_same n P w w' : rs_same w w' -> Known n P w -> Known n P w'.
Proof. intros Hs. destruct (same_view w w' Hs) as (Hd & Hc & _). unfold Known. by rewrite Hd, Hc. Qed.

Lemma known_mono n (P Q : Records -> Prop) w : (forall rs, P rs -> Q rs) -> Known n P w -> Known n Q w.
Proof. intros HPQ [Ht|HP]; [by left|right; auto]. Qed.

Lemma known_and n P Q w : Known n P w -> Known n Q w -> Known n (fun rs => P rs /\ Q rs) w.
Proof. intros [Ht|HP] [Ht'|HQ]; [by left..|by right]. Qed.

Lemma known_pure n (P : Records -> Prop) w : (forall rs, P rs) -> Known n P w.
Proof. intros HP. right. apply HP. Qed.

(** ** Answers and what is stored *)

(** The names whose records decide: valid ones that are not the node's own. *)
Definition claimed (n : string) : Prop := dns_name_ok n /\ is_self_hostname config n = false.

(** The answer for a name and a type, given the stored records of the name: a
    stored RRset is the answer, and without one no stored RRset is claimed. *)
Definition answer_fits (n : string) (ty : RecordType) (r : RsResult DnsResolution) (rs : Records) : Prop :=
  claimed n -> forall uty, user_record_type ty = Some uty ->
  match record_of uty rs, r with
  | Some rrset, ROk res => explicit_dns_rrset n ty rrset = ROk res
  | None, ROk res => dr_source res <> FromExplicitRecord
  | Some _, RErr e => means_no_data (re_kind e) = false
  | None, RErr _ => True
  end.

(** The same of an authoritative answer for the text of a record type. *)
Definition authoritative_fits (n text : string) (v : SnAuthoritativeDnsResult) (rs : Records) : Prop :=
  claimed n ->
  match v with
  | AuthoritativeAnswer _ res => forall ty, record_type_of_text text = Some ty -> answer_fits n ty (ROk res) rs
  | AuthoritativeNoData _ =>
      forall ty uty rrset, record_type_of_text text = Some ty -> user_record_type ty = Some uty ->
      record_of uty rs = Some rrset ->
      exists res, explicit_dns_rrset n ty rrset = ROk res /\ dns_resolution_has_rrset res = false
  | AuthoritativeNxDomain _ => forall uty, record_of uty rs = None
  | NotManaged | TemporaryFailure _ => True
  end.

Definition cached_result (v : DnsCacheValue) : RsResult DnsResolution :=
  match v with CacheHit res => ROk res | CacheTombstone kind => RErr (rs_err kind "no dns result") end.

Definition entry_fits (key : CacheKey) (v : DnsCacheValue) (rs : Records) : Prop :=
  forall ty, record_type_to_text ty = key.2 -> answer_fits key.1 ty (cached_result v) rs.

Record Coherent (w : RsWorld) : Prop := mkCoherent {
  co_dns key e : rw_dns w !! key = Some e -> Known key.1 (entry_fits key (ce_value e)) w;
  co_authoritative key e : rw_authoritative w !! key = Some e ->
    Known key.1 (authoritative_fits key.1 key.2 (ce_value e)) w
}.

Lemma coherent_stable : stable_under RsInv db_step Coherent.
Proof.
  intros w w' HI HR [Hd Ha]. destruct HR as (s & -> & HR). split; intros key e He; apply (known_stable _ _ w);
    try done; try (by eexists); [by apply Hd|by apply Ha].
Qed.

(** Assertions about the tables, the caches and the cursor. *)
Definition respects (K : RsWorld -> Prop) : Prop := forall w w', RsInv w -> rs_same w w' -> K w -> K w'.

Record assertion (K : RsWorld -> Prop) : Prop := mkAssertion {
  as_stable : stable_under RsInv db_step K;
  as_same : respects K
}.

Lemma coherent_assertion : assertion Coherent.
Proof.
  split; [apply coherent_stable|]. intros w w' _ Hs [Hd Ha]. pose proof (same_view w w' Hs) as (_ & _ & Ed & Ea).
  split; intros key e He; apply (known_same _ _ w); try done; [apply Hd|apply Ha]; congruence.
Qed.

Lemma known_assertion n P : assertion (Known n P).
Proof. split; [apply known_stable|]. intros w w' _ Hs. by apply known_same. Qed.

Lemma assertion_and K1 K2 : assertion K1 -> assertion K2 -> assertion (fun w => K1 w /\ K2 w).
Proof.
  intros [S1 P1] [S2 P2]. split.
  - intros w w' HI HR [HK1 HK2]. split; [by apply (S1 w)|by apply (S2 w)].
  - intros w w' HI HR [HK1 HK2]. split; [by apply (P1 w)|by apply (P2 w)].
Qed.

Lemma assertion_pure (P : Prop) : assertion (fun _ => P).
Proof. split; intros w w' _ _ HP; exact HP. Qed.
Create HintDb assertions.
#[local] Hint Resolve coherent_assertion known_assertion assertion_and assertion_pure : assertions.

Notation Keep := (Keeps RsInv db_step).

Lemma keep_observes {A} (t : Task RsWorld A) K : assertion K -> Observes rs_same t -> Keep t K (fun _ => K).
Proof. intros [Hst Hs] Ht. eapply Keeps_observes; [done| |done|done]. intros w w' HI. by apply inv_same. Qed.

Lemma keep_bind {A B} (m : RT A) (k : A -> RT B) K (P : RsResult A -> RsWorld -> Prop) Q :
  Keep m K P -> (forall a, Keep (k a) (P (ROk a)) Q) -> (forall e w, RsInv w -> P (RErr e) w -> Q (RErr e) w) ->
  Keep (rbind m k) K Q.
Proof. intros Hm Hk He. eapply Keeps_tbind; [exact Hm|]. intros [a|e]; [apply Hk|]. intros w HI. by apply He. Qed.

(** ** Looking up records *)

Lemma keep_rrset h uty K :
  assertion K ->
  Keep (auth_get_user_dns_rrset h uty) K (fun r w => K w /\
    match r with
    | ROk lk => Known (normalize_host_lossy h) (fun rs => record_of uty rs = lk_rrset lk) w
    | RErr e => re_kind e = RkBackendUnavailable
    end).
Proof.
  intros [Hst Hs]. unfold auth_get_user_dns_rrset, from_db, get_user_dns_rrset, abind, alift.
  destruct (canonical_user_dns_name h) as [n|e] eqn:En; simpl; [|by intros w HI HK].
  apply canonical_is_normal in En as <-. intros w x w' HI HK Hact. simplify_eq. split; [by destruct HI, w|].
  eexists (fun w' => K w' /\ Known n (fun rs => record_of uty rs = user_dns_rrset (dns_of w) n uty) w'). split_and!.
  - apply assertion_and; [done|apply known_assertion].
  - by destruct w.
  - right. by rewrite record_of_records.
  - simpl. by intros w' HI' HK'.
Qed.

Lemma known_name name P w : Known (normalize_host_lossy name) P w -> Known name (fun rs => claimed name -> P rs) w.
Proof.
  intros Hk. destruct (decide (normalize_host_lossy name = name)) as [E|Hne].
  - rewrite E in Hk. by apply (known_mono _ P).
  - apply known_pure. intros rs [Hok _]. destruct Hne. by apply name_ok_normal.
Qed.

Lemma normalize_hostname_inv h :
  match normalize_hostname h with
  | ROk name => name = normalize_host_lossy h
  | RErr e => re_kind e = RkInvalidHostname
  end.
Proof. unfold normalize_hostname. by repeat case_match; simplify_eq. Qed.

Lemma fits_error n ty e rs : means_no_data (re_kind e) = false -> answer_fits n ty (RErr e) rs.
Proof. intros He _ uty _. by case_match. Qed.

(** A record that was found. *)
Lemma fits_found n ty uty rrset rs :
  user_record_type ty = Some uty -> (claimed n -> record_of uty rs = Some rrset) ->
  answer_fits n ty (explicit_dns_rrset n ty rrset) rs.
Proof.
  intros Hty Hr Hc uty' Hty'. simplify_eq. rewrite Hr by done. by destruct ty; simplify_eq.
Qed.

(** No record was found. *)
Lemma fits_missing n ty uty r rs :
  user_record_type ty = Some uty -> (claimed n -> record_of uty rs = None) ->
  match r with ROk res => dr_source res <> FromExplicitRecord | RErr _ => True end -> answer_fits n ty r rs.
Proof. intros Hty Hr Hres Hc uty' Hty'. simplify_eq. by rewrite Hr. Qed.

Lemma keep_resolve_dns h ty K :
  assertion K ->
  Keep (resolve_dns config cache_ttl h ty) K (fun r w => K w /\
    Known (normalize_host_lossy h) (answer_fits (normalize_host_lossy h) ty r) w).
Proof.
  intros HK. unfold resolve_dns, rlift. pose proof (normalize_hostname_inv h) as Hn.
  destruct (normalize_hostname h) as [n|e]; [rewrite rbind_ok|rewrite rbind_err].
  2: { intros w _ HKw. split; [done|]. apply known_pure. intros rs. apply fits_error. by rewrite Hn. }
  rewrite <- Hn. destruct (user_record_type ty) as [uty|] eqn:Eu.
  2: { intros w _ HKw. split; [done|]. apply known_pure. intros rs _ uty. by rewrite Eu. }
  destruct (is_self_hostname config n) eqn:Es.
  { intros w _ HKw. split; [done|]. apply known_pure. intros rs [_ Hc]. congruence. }
  eapply keep_bind; [by apply (keep_rrset n uty K)| |].
  - intros lk. simpl. eapply Keeps_pre; [|intros w _ [HKw Hr]; exact (conj HKw (known_name n _ w Hr))].
    assert (HA : assertion (fun w => K w /\ Known n (fun rs => claimed n -> record_of uty rs = lk_rrset lk) w))
      by (apply assertion_and; [done|apply known_assertion]).
    destruct (lk_rrset lk) as [rrset|].
    { intros w _ [HKw Hr]. split; [done|]. eapply known_mono; [|exact Hr]. intros rs. simpl. by apply fits_found. }
    destruct (is_explicit_only_dns_name n ty).
    { intros w _ [HKw Hr]. split; [done|]. eapply known_mono; [|exact Hr]. intros rs. simpl. intros Hnone.
      by eapply fits_missing. }
    eapply Keeps_weaken; [eapply Keeps_returns; [apply (keep_observes _ _ HA)|]|done|].
    + observe.
    + apply (returns_rbind _ _ (answers n ty (fun s => s <> FromExplicitRecord))); [done|]. intros z.
      apply returns_zone_dns. by destruct ty.
    + intros r w _ [[HKw Hr] Hres]. split; [done|]. eapply known_mono; [|exact Hr]. intros rs. simpl. intros Hnone.
      eapply fits_missing; [done|done|]. destruct r; [|done]. by destruct Hres.
  - intros e w _ [HKw He]. split; [done|]. apply known_pure. intros rs. apply fits_error. by rewrite He.
Qed.

(** ** Authoritative answers *)

Lemma keep_has_explicit h types K :
  assertion K ->
  Keep (has_explicit_rrset h types) K (fun r w => K w /\
    match r with
    | ROk false => Known (normalize_host_lossy h) (fun rs => forall uty, uty ∈ types -> record_of uty rs = None) w
    | _ => True
    end).
Proof.
  revert K. induction types as [|ty types IH]; intros K HK.
  { intros w _ HKw. split; [done|]. apply known_pure. by intros rs uty ?%elem_of_nil. }
  simpl. eapply keep_bind; [by apply (keep_rrset h ty K)| |by intros e w _ [HKw _]].
  intros lk. simpl.
  assert (HA : assertion (fun w => K w /\ Known (normalize_host_lossy h) (fun rs => record_of ty rs = lk_rrset lk) w))
    by (apply assertion_and; [done|apply known_assertion]).
  destruct (lk_rrset lk) as [rrset|]; [by intros w _ [HKw _]|].
  eapply Keeps_weaken; [exact (IH _ HA)|done|]. intros r w _ [[HKw Hn] Hr]. split; [done|].
  destruct r as [[]|]; [done| |done]. eapply known_mono; [|exact (known_and _ _ _ _ Hn Hr)].
  intros rs [Hty Hrs] uty [->|Hu]%elem_of_cons; [done|by apply Hrs].
Qed.

Lemma keep_name_exists h z K :
  assertion K ->
  Keep (authoritative_name_exists h z) K (fun r w => K w /\
    match r with
    | ROk false => Known (normalize_host_lossy h) (fun rs => forall uty, record_of uty rs = None) w
    | _ => True
    end).
Proof.
  intros HK. unfold authoritative_name_exists. case_match; [by intros w _ HKw|].
  eapply keep_bind; [by apply (keep_has_explicit h _ K)| |by intros e w _ [HKw _]].
  intros []; [by intros w _ [HKw _]|].
  set (N := Known (normalize_host_lossy h) (fun rs => forall uty, record_of uty rs = None)).
  apply (Keeps_weaken _ _ _ (fun w => K w /\ N w) _ (fun _ w => K w /\ N w)).
  - apply keep_observes; [apply assertion_and; [done|apply known_assertion]|]. observe.
  - intros w _ [HKw Hr]. split; [done|]. eapply known_mono; [|exact Hr]. intros rs Hrs uty. apply Hrs.
    destruct uty; set_solver.
  - intros r w _ [HKw HN]. split; [done|]. by destruct r as [[]|].
Qed.

Lemma keep_authoritative h text K :
  assertion K ->
  Keep (resolve_authoritative_dns_uncached config cache_ttl h text) K (fun r w => K w /\
    match r with
    | ROk v => Known (normalize_host_lossy h) (authoritative_fits (normalize_host_lossy h) text v) w
    | RErr _ => True
    end).
Proof.
  intros HK. unfold resolve_authoritative_dns_uncached.
  eapply keep_bind; [apply (keep_observes _ K HK); observe| |by intros e w _ HKw].
  intros [z|]; [|intros w _ HKw; split; [done|by apply known_pure]].
  eapply keep_bind; [by apply (keep_name_exists h z K)| |by intros e w _ [HKw _]].
  intros [|]; simpl.
  2: { intros w _ [HKw Hn]. split; [done|]. eapply known_mono; [|exact Hn]. by intros rs Hrs _. }
  destruct (record_type_of_text text) as [ty|] eqn:Et.
  2: { intros w _ [HKw _]. split; [done|]. apply known_pure. intros rs _ ty uty rrset. by rewrite Et. }
  destruct (is_supported_record_type ty) eqn:Es; simpl.
  2: { intros w _ [HKw _]. split; [done|]. apply known_pure. intros rs _ ty' uty rrset. rewrite Et. intros [= <-].
       by destruct ty. }
  eapply Keeps_tbind; [eapply Keeps_pre; [by apply (keep_resolve_dns h ty K)|by intros w _ [HKw _]]|].
  intros [res|e]; simpl.
  - destruct (dns_resolution_has_rrset res) eqn:Er; intros w _ [HKw Hf]; (split; [done|]); (eapply known_mono; [|exact Hf]);
      intros rs Hrs Hc.
    + intros ty' Hty'. by simplify_eq.
    + intros ty' uty rrset Hty' Hu Hr. simplify_eq. exists res. split; [|done]. specialize (Hrs Hc uty Hu). by rewrite Hr in Hrs.
  - destruct (means_no_data (re_kind e)) eqn:Em; [|by intros w _ [HKw _]].
    intros w _ [HKw Hf]. split; [done|]. eapply known_mono; [|exact Hf]. intros rs Hrs Hc ty' uty rrset Hty' Hu Hr.
    simplify_eq. specialize (Hrs Hc uty Hu). rewrite Hr in Hrs. congruence.
Qed.
End coherence.
