(* ===== verification/ResolverFeed.v ===== *)
(** * Name resolver: caches, synchronisation and requests

    Every operation on the caches, the synchronisation with the change feed and
    every request keep the caches coherent while the database changes. *)

From S2P Require Import Prelude IpAddr Tasks RelayModel RelayStore Relay RelaySafe AuthModel AuthStore Auth AuthDb AuthDns AuthTexts AuthInv AuthKeeps ResolverModel ResolverStore Resolver ResolverRun ResolverCoherence.

Section feed.
Context `{NamedLocker, DeviceInfoDB, Clock, JsonStrings, !JsonStringsLaws, SqlNumbers, CharTables}.
Context `{JsonKeys, RowOrder, SqlxNull}.
Context `{DnsTypes, !NameClient, !NameClientLaws, BnsDocumentReader, Instants, !Timers}.
Context `{NameLib, SerdeJson, JsonWebKeys, HashOrder, SerdeViews}.
Context (config : SnResolverConfig) (cache_ttl : Z) (fuel : nat).

Notation Keep := (Keeps RsInv db_step).
Notation entry_fits := (entry_fits config).
Notation answer_fits := (answer_fits config).
Notation authoritative_fits := (authoritative_fits config).
Notation Coherent := (Coherent config).

(** The result of an action that cannot fail. *)
Definition done_with {A} (Q : A -> RsWorld -> Prop) (r : RsResult A) (w : RsWorld) : Prop :=
  match r with ROk a => Q a w | RErr _ => False end.

Lemma keep_rdo {A} (f : RsWorld -> A * RsWorld) K (Q : A -> RsWorld -> Prop) :
  (forall a, stable_under RsInv db_step (Q a)) ->
  (forall w, RsInv w -> K w -> RsInv (f w).2 /\ Q (f w).1 (f w).2) ->
  Keep (rdo f) K (done_with Q).
Proof.
  intros Hst Hf. apply Keeps_atomic.
  - intros w HI HK. destruct (Hf w HI HK) as [HI' HQ]. by destruct (f w).
  - intros [a|e]; [apply Hst|by intros w w' _ _].
Qed.

Lemma keep_rput (f : RsWorld -> RsWorld) K (Q : RsWorld -> Prop) :
  stable_under RsInv db_step Q -> (forall w, RsInv w -> K w -> RsInv (f w) /\ Q (f w)) ->
  Keep (rput f) K (done_with (fun _ => Q)).
Proof. intros Hst Hf. apply (keep_rdo _ K (fun _ => Q)); [done|]. intros w. apply Hf. Qed.

Lemma keep_seq {A B} (m : RT A) (k : A -> RT B) K (P : A -> RsWorld -> Prop) Q :
  Keep m K (done_with P) -> (forall a, Keep (k a) (P a) Q) -> Keep (rbind m k) K Q.
Proof. intros Hm Hk. by eapply keep_bind; [exact Hm|exact Hk|]. Qed.

Lemma keep_now K : assertion K -> Keep instant_now K (done_with (fun _ => K)).
Proof.
  intros [Hst Hs]. apply (keep_rdo _ K (fun _ => K)); [done|]. intros w HI HK. split.
  - by apply (inv_same w).
  - by apply (Hs w).
Qed.

(** ** Entries *)

(** Entries but for those of the names of [L]: what they say is stored, or the
    feed has a change after [c]. *)
Definition DnsBut (L : list string) (c : Z) (w : RsWorld) : Prop :=
  c <= d_revision (dns_of w) /\
  forall key e, rw_dns w !! key = Some e ->
    key.1 ∈ L \/ told (dns_of w) c key.1 \/ entry_fits key (ce_value e) (records (dns_of w) key.1).

Definition AuthBut (L : list string) (c : Z) (w : RsWorld) : Prop :=
  c <= d_revision (dns_of w) /\
  forall key e, rw_authoritative w !! key = Some e ->
    key.1 ∈ L \/ told (dns_of w) c key.1 \/ authoritative_fits key.1 key.2 (ce_value e) (records (dns_of w) key.1).

Lemma coherent_but w : RsInv w -> Coherent w <-> DnsBut [] (cursor w) w /\ AuthBut [] (cursor w) w.
Proof.
  intros [_ Hc]. split.
  - intros [Hd Ha]. split; (split; [lia|]); intros key e He; right; [by apply Hd|by apply Ha].
  - intros [[_ Hd] [_ Ha]]. split; intros key e He; [destruct (Hd key e He) as [[]%elem_of_nil|]|destruct (Ha key e He) as [[]%elem_of_nil|]]; done.
Qed.

(** The knowledge about a name that survives a step of the database. *)
Lemma told_or_step c n (P : Records -> Prop) w w' :
  db_step w w' -> c <= d_revision (dns_of w) ->
  told (dns_of w) c n \/ P (records (dns_of w) n) -> told (dns_of w') c n \/ P (records (dns_of w') n).
Proof.
  intros (s & -> & _ & [He _]) Hc. unfold dns_of in *. simpl. intros [Ht|HP].
  - left. by apply (told_later _ _ _ _ He).
  - destruct (records_evolve _ _ n He) as [Heq|Ht]; [right; by rewrite Heq|left]. by apply (told_earlier _ _ _ _ Hc Ht).
Qed.

Lemma revision_step w w' : db_step w w' -> d_revision (dns_of w) <= d_revision (dns_of w').
Proof. intros (s & -> & _ & [He _]). apply He. Qed.

Lemma but_stable L c :
  stable_under RsInv db_step (DnsBut L c) /\ stable_under RsInv db_step (AuthBut L c).
Proof.
  split; intros w w' _ Hs [Hc Hk]; pose proof (revision_step w w' Hs); (split; [lia|]); intros key e He;
    pose proof Hs as (s & -> & _); destruct (Hk key e He) as [HL|Hr]; auto; right;
    by eapply (told_or_step c key.1 (fun rs => _ rs)).
Qed.

(** ** The caches *)

Lemma drop_expired_lookup {A} (key : CacheKey) (now : Z) (items : gmap CacheKey (CacheEntry A)) (k : CacheKey) (e : CacheEntry A) :
  drop_expired key now items !! k = Some e -> items !! k = Some e.
Proof. unfold drop_expired. repeat case_match; try done. by intros [_ ?]%lookup_delete_Some. Qed.

Lemma without_host_lookup {A} (n : string) (items : gmap CacheKey (CacheEntry A)) (k : CacheKey) (e : CacheEntry A) :
  without_host n items !! k = Some e <-> items !! k = Some e /\ k.1 <> n.
Proof. unfold without_host. by rewrite map_lookup_filter_Some. Qed.

(** Fewer entries are coherent as well. *)
Lemma coherent_fewer (w w' : RsWorld) :
  dns_of w' = dns_of w -> cursor w' = cursor w ->
  (forall k e, rw_dns w' !! k = Some e -> rw_dns w !! k = Some e) ->
  (forall k e, rw_authoritative w' !! k = Some e -> rw_authoritative w !! k = Some e) -> Coherent w -> Coherent w'.
Proof.
  intros Hd Hc Hs Ha [Cd Ca]. split; intros key e He; unfold Known; rewrite Hd, Hc; [by apply Cd, Hs|by apply Ca, Ha].
Qed.

Lemma keep_query_dns h ty :
  Keep (query_dns h ty) Coherent (done_with (fun found w => Coherent w /\
    match found with
    | Some v => Known (normalize_host_lossy h) (answer_fits (normalize_host_lossy h) ty (cached_result v)) w
    | None => True
    end)).
Proof.
  unfold query_dns. eapply keep_seq; [apply keep_now, coherent_assertion|]. intros now.
  set (F (found : option DnsCacheValue) (w : RsWorld) := match found with
    | Some v => Known (normalize_host_lossy h) (answer_fits (normalize_host_lossy h) ty (cached_result v)) w
    | None => True end).
  eapply keep_seq; [apply (keep_rdo _ _ (fun found w => Coherent w /\ F found w))|].
  - intros [v|]; apply assertion_and; try apply coherent_assertion; [apply known_assertion|apply (assertion_pure True)].
  - intros w HI HC. split; [done|]. split; [done|]. unfold F, live_entry. simpl.
    destruct (rw_dns w !! dns_cache_key h ty) as [e|] eqn:E; simpl; [|done]. destruct (now <? ce_expires_at e); [|done].
    eapply known_mono; [|exact (co_dns _ w HC _ e E)]. intros rs Hrs. by apply Hrs.
  - intros [v|]; [by intros w _ HK|]. eapply keep_seq; [apply (keep_rput _ _ Coherent)|].
    + apply coherent_assertion.
    + intros w HI [HC _]. split; [done|]. apply (coherent_fewer w); try done. intros k e. apply drop_expired_lookup.
    + by intros [] w _ HC.
Qed.

Lemma keep_insert_dns h ty v ttl :
  let P := Known (normalize_host_lossy h) (answer_fits (normalize_host_lossy h) ty (cached_result v)) in
  Keep (insert_dns h ty v ttl) (fun w => Coherent w /\ P w) (done_with (fun _ w => Coherent w /\ P w)).
Proof.
  intros P. assert (HA : assertion (fun w => Coherent w /\ P w))
    by (apply assertion_and; [apply coherent_assertion|apply known_assertion]).
  unfold insert_dns. eapply keep_seq; [by apply keep_now|]. intros now. apply keep_rput; [apply HA|].
  intros w HI [HC HP]. split; [done|]. split; [|exact HP]. split; simpl.
  - intros key e [[<- <-]|[Hne He]]%lookup_insert_Some; [|exact (co_dns _ w HC key e He)]. simpl.
    eapply known_mono; [|exact HP]. intros rs Hrs ty' Hty'. simpl in Hty'.
    assert (ty' = ty) as ->; [|done].
    pose proof (record_type_texts ty'). pose proof (record_type_texts ty). congruence.
  - intros key e He. exact (co_authoritative _ w HC key e He).
Qed.

Lemma keep_query_authoritative h text :
  to_ascii_uppercase (trim text) = text ->
  Keep (query_authoritative_dns h text) Coherent (done_with (fun found w => Coherent w /\
    match found with
    | Some v => Known (normalize_host_lossy h) (authoritative_fits (normalize_host_lossy h) text v) w
    | None => True
    end)).
Proof.
  intros Ht. unfold query_authoritative_dns. eapply keep_seq; [apply keep_now, coherent_assertion|]. intros now.
  set (F (found : option SnAuthoritativeDnsResult) (w : RsWorld) := match found with
    | Some v => Known (normalize_host_lossy h) (authoritative_fits (normalize_host_lossy h) text v) w
    | None => True end).
  eapply keep_seq; [apply (keep_rdo _ _ (fun found w => Coherent w /\ F found w))|].
  - intros [v|]; apply assertion_and; try apply coherent_assertion; [apply known_assertion|apply (assertion_pure True)].
  - intros w HI HC. split; [done|]. split; [done|]. unfold F, live_entry. simpl.
    destruct (rw_authoritative w !! authoritative_cache_key h text) as [e|] eqn:E; simpl; [|done].
    destruct (now <? ce_expires_at e); [|done]. pose proof (co_authoritative _ w HC _ e E) as Hk.
    unfold authoritative_cache_key in Hk. by rewrite Ht in Hk.
  - intros [v|]; [by intros w _ HK|]. eapply keep_seq; [apply (keep_rput _ _ Coherent)|].
    + apply coherent_assertion.
    + intros w HI [HC _]. split; [done|]. apply (coherent_fewer w); try done. intros k e. apply drop_expired_lookup.
    + by intros [] w _ HC.
Qed.

Lemma keep_insert_authoritative h text v ttl :
  to_ascii_uppercase (trim text) = text ->
  let P := Known (normalize_host_lossy h) (authoritative_fits (normalize_host_lossy h) text v) in
  Keep (insert_authoritative_dns h text v ttl) (fun w => Coherent w /\ P w) (done_with (fun _ w => Coherent w /\ P w)).
Proof.
  intros Ht P. assert (HA : assertion (fun w => Coherent w /\ P w))
    by (apply assertion_and; [apply coherent_assertion|apply known_assertion]).
  unfold insert_authoritative_dns. eapply keep_seq; [by apply keep_now|]. intros now. apply keep_rput; [apply HA|].
  intros w HI [HC HP]. split; [done|]. split; [|exact HP]. split; simpl.
  - intros key e He. exact (co_dns _ w HC key e He).
  - unfold authoritative_cache_key. rewrite Ht.
    intros key e [[<- <-]|[Hne He]]%lookup_insert_Some; [exact HP|exact (co_authoritative _ w HC key e He)].
Qed.

(** ** The change feed *)

Definition at_cursor (c : Z) (w : RsWorld) : Prop := cursor w = c.

Lemma cursor_stable c : stable_under RsInv db_step (at_cursor c).
Proof. intros w w' _ (s & -> & _). done. Qed.

Lemma steady_and (K1 K2 : RsWorld -> Prop) :
  stable_under RsInv db_step K1 -> stable_under RsInv db_step K2 -> stable_under RsInv db_step (fun w => K1 w /\ K2 w).
Proof. intros S1 S2 w w' HI HR [HK1 HK2]. split; [by apply (S1 w)|by apply (S2 w)]. Qed.

Lemma but_at_stable L L' c c0 :
  stable_under RsInv db_step (fun w => DnsBut L c w /\ AuthBut L' c w /\ at_cursor c0 w).
Proof.
  apply steady_and; [apply (but_stable L c)|]. apply steady_and; [apply (but_stable L' c)|apply cursor_stable].
Qed.

Lemma but_removed {A} (P : CacheKey -> A -> Prop) name L c (key : CacheKey) d (v : A) :
  (~ dns_name_ok key.1 -> P key v) -> key.1 <> normalize_host_lossy name ->
  key.1 ∈ name :: L \/ told d c key.1 \/ P key v -> key.1 ∈ L \/ told d c key.1 \/ P key v.
Proof.
  intros HP Hne [[Heq|HL]%elem_of_cons|Hr]; auto. right. right. apply HP. intros Hok. destruct Hne.
  rewrite <- Heq. symmetry. by apply name_ok_normal.
Qed.

Lemma keep_remove name L c c0 :
  Keep (remove_dns_name name) (fun w => DnsBut (name :: L) c w /\ AuthBut (name :: L) c w /\ at_cursor c0 w)
    (done_with (fun _ w => DnsBut L c w /\ AuthBut L c w /\ at_cursor c0 w)).
Proof.
  unfold remove_dns_name.
  eapply keep_seq; [apply (keep_rdo _ _ (fun _ w => DnsBut L c w /\ AuthBut (name :: L) c w /\ at_cursor c0 w))|].
  - intros _. apply but_at_stable.
  - intros w HI ([Hc Hd] & Ha & Hcur). split; [done|]. split_and!; [|exact Ha|done]. split; [done|]. simpl.
    intros key e [He Hne]%without_host_lookup. apply (but_removed (fun key v => entry_fits key v _) name); [|done|by apply Hd].
    by intros Hok ty _ [].
  - intros removed. unfold remove_authoritative_name.
    eapply keep_seq; [apply (keep_rdo _ _ (fun _ w => DnsBut L c w /\ AuthBut L c w /\ at_cursor c0 w))|].
    + intros _. apply but_at_stable.
    + intros w HI (Hd & [Hc Ha] & Hcur). split; [done|]. split_and!; [exact Hd| |done]. split; [done|]. simpl.
      intros key e [He Hne]%without_host_lookup.
      destruct (decide (normalize_host_lossy name = normalize_host_lossy (normalize_host_lossy name))) as [E|E].
      * apply (but_removed (fun key v => authoritative_fits key.1 key.2 v _) name); [|by rewrite E|by apply Ha].
        by intros Hok [].
      * destruct (Ha key e He) as [[Heq|HL]%elem_of_cons|Hr]; auto. right. right. intros [Hok _]. destruct E.
        rewrite <- Heq, (name_ok_normal key.1), (name_ok_normal key.1) by done. done.
    + by intros n w _ HK.
Qed.

(** The changes of a page, in order. *)
Lemma keep_apply_changes changes upto c0 :
  (forall ch, ch ∈ changes -> 0 <= ch_revision ch <= upto) ->
  Keep (apply_changes changes)
    (fun w => DnsBut (ch_name <$> changes) upto w /\ AuthBut (ch_name <$> changes) upto w /\ at_cursor c0 w)
    (done_with (fun _ w => DnsBut [] upto w /\ AuthBut [] upto w /\
       at_cursor (default c0 (last (ch_revision <$> changes))) w)).
Proof.
  revert c0. induction changes as [|ch changes IH]; intros c0 Hrev; [by intros w _ HK|].
  simpl apply_changes. change (ch_name <$> ch :: changes) with (ch_name ch :: (ch_name <$> changes)).
  eapply keep_seq; [apply (keep_remove (ch_name ch) (ch_name <$> changes) upto c0)|]. intros removed.
  eapply keep_seq; [apply (keep_rput _ _ (fun w => DnsBut (ch_name <$> changes) upto w /\
    AuthBut (ch_name <$> changes) upto w /\ at_cursor (ch_revision ch) w))|].
  - apply but_at_stable.
  - intros w [Hs Hc] (Hd & Ha & Hcur). split; [|by split_and!]. split; [done|]. unfold cursor, dns_of in *. simpl.
    destruct (Hrev ch) as [Hlo Hhi]; [set_solver|]. destruct Hd as [Hl _]. unfold dns_of in Hl. lia.
  - intros []. eapply Keeps_weaken; [apply (IH (ch_revision ch))|done|].
    + intros ch' Hch'. apply Hrev. set_solver.
    + intros [u|e] w _; [|done]. rewrite fmap_cons, last_cons. by destruct (last (ch_revision <$> changes)).
Qed.

(** A page that was read after the revision [c]. *)
Definition page_fits (c : Z) (page : UserDnsChangePage) (w : RsWorld) : Prop :=
  (0 <= pg_current_revision page <= d_revision (dns_of w)) /\
  (gap_after c page = false ->
   exists upto, (forall ch, ch ∈ pg_changes page -> 0 <= ch_revision ch <= upto) /\
     default c (last (ch_revision <$> pg_changes page)) = upto /\
     (pg_changes page = [] -> pg_current_revision page <= c) /\
     DnsBut (ch_name <$> pg_changes page) upto w /\ AuthBut (ch_name <$> pg_changes page) upto w).

Lemma page_fits_stable c page : stable_under RsInv db_step (page_fits c page).
Proof.
  intros w w' HI HR [Hc Hg]. pose proof (revision_step w w' HR). split; [lia|]. intros Hgap.
  destruct (Hg Hgap) as (upto & Hrev & Hlast & Hnil & Hd & Ha). exists upto. split_and!; try done.
  - by apply (proj1 (but_stable _ _) w).
  - by apply (proj2 (but_stable _ _) w).
Qed.

(** The rows of a page, by their revisions. *)
Lemma page_rows d c current earliest :
  dns_wf d -> 0 <= c < 2 ^ 63 -> 0 <= current ->
  exists page, change_page current earliest (change_rows (u64_as_i64 c) 256 d) = SOk page /\
    pg_current_revision page = current /\
    (ch_revision <$> pg_changes page) = seqZ (page_start c d) (Z.min 256 (d_revision d + 1 - page_start c d)) /\
    forall ch, ch ∈ pg_changes page -> exists row, d_changes d !! ch_revision ch = Some row /\ cw_name row = ch_name ch.
Proof.
  intros Hwf Hc Hcur. rewrite u64_as_i64_small by lia.
  destruct (change_page_ok current earliest (change_rows c 256 d)) as (chs & Hp & Hf);
    [done|intros r row; by apply rows_readable|].
  eexists. split_and!; [exact Hp|done| |].
  - transitivity (fst <$> change_rows c 256 d); [|by rewrite change_rows_keys].
    apply list_eq_Forall2. eapply Forall2_fmap_2, Forall2_flip, Forall2_impl; [exact Hf|]. by intros row ch (-> & _).
  - simpl. intros ch [i Hi]%list_elem_of_lookup.
    destruct (Forall2_lookup_r _ _ _ _ _ Hf Hi) as ([r row] & Hr & Hch & Hn & _).
    apply list_elem_of_lookup_2, change_rows_elem in Hr as [Hr _]. simpl in *. exists row. by rewrite Hch, Hn.
Qed.

Lemma last_seqZ a n : 0 < n -> last (seqZ a n) = Some (a + n - 1).
Proof.
  intros Hn. rewrite last_lookup, length_seqZ. apply lookup_seqZ. lia.
Qed.

(** A change after [c] is in a page without a gap, or after it. *)
Lemma told_in_page d c upto (changes : list UserDnsChange) n :
  dns_wf d -> oldest d <= c + 1 -> (ch_revision <$> changes) = seqZ (c + 1) (upto - c) ->
  (forall ch, ch ∈ changes -> exists row, d_changes d !! ch_revision ch = Some row /\ cw_name row = ch_name ch) ->
  told d c n -> n ∈ ch_name <$> changes \/ told d upto n.
Proof.
  intros Hwf Hold Hrevs Hrows (r & Hr & Hrow). destruct (decide (r <= upto)) as [Hle|Hgt]; [|right; exists r; split; [lia|done]].
  left. assert (Hin : r ∈ ch_revision <$> changes) by (rewrite Hrevs, elem_of_seqZ; lia).
  apply list_elem_of_fmap in Hin as (ch & -> & Hch). destruct (Hrows ch Hch) as (row & Hl & Hname).
  rewrite Hl in Hrow. apply list_elem_of_fmap. exists ch. split; [congruence|done].
Qed.

Lemma page_at w c current earliest :
  RsInv w -> Coherent w -> at_cursor c w -> 0 <= current <= d_revision (dns_of w) ->
  exists page, change_page current earliest (change_rows (u64_as_i64 c) 256 (dns_of w)) = SOk page /\ page_fits c page w.
Proof.
  intros HI HC Hcur Hcurrent. pose proof HI as [[Ha _] Hc]. unfold at_cursor in Hcur. rewrite Hcur in Hc.
  assert (Hwf : dns_wf (dns_of w)) by apply Ha. pose proof (dw_revision _ Hwf) as Hrev.
  destruct (page_rows (dns_of w) c current earliest) as (page & Hp & Hpc & Hrevs & Hrows); [done|lia|lia|].
  exists page. split; [done|]. split; [lia|]. intros Hgap. apply orb_false_iff in Hgap as [_ Hgap].
  assert (Hsat : u64_saturating_add c 1 = c + 1) by (unfold u64_saturating_add; lia). rewrite Hsat in Hgap.
  apply (coherent_but w HI) in HC as [[_ Hd] [_ Hau]]. rewrite Hcur in Hd, Hau.
  assert (Hps : c + 1 <= page_start c (dns_of w)) by (unfold page_start; lia).
  destruct (pg_changes page) as [|ch0 changes] eqn:Ech.
  - exists c. assert (Hle : d_revision (dns_of w) <= c).
    { destruct (decide (d_revision (dns_of w) <= c)); [done|]. symmetry in Hrevs. csimpl in Hrevs. exfalso.
      assert (Hlen : length (seqZ (page_start c (dns_of w)) (Z.min 256 (d_revision (dns_of w) + 1 - page_start c (dns_of w)))) = 0%nat)
        by by rewrite Hrevs.
      rewrite length_seqZ in Hlen. unfold page_start, oldest, USER_DNS_CHANGE_RETENTION in *. lia. }
    split_and!; [by intros ch ?%elem_of_nil|done|lia| |]; (split; [lia|done]).
  - assert (Hfirst : ch_revision ch0 = page_start c (dns_of w) /\ 0 < Z.min 256 (d_revision (dns_of w) + 1 - page_start c (dns_of w))).
    { destruct (decide (0 < Z.min 256 (d_revision (dns_of w) + 1 - page_start c (dns_of w)))) as [Hpos|Hneg].
      - rewrite seqZ_cons in Hrevs by done. csimpl in Hrevs. by simplify_eq.
      - rewrite seqZ_nil in Hrevs by lia. done. }
    destruct Hfirst as [Hfirst Hpos]. apply Z.ltb_ge in Hgap.
    assert (Hstart : page_start c (dns_of w) = c + 1) by lia. rewrite Hstart in *.
    set (n := Z.min 256 (d_revision (dns_of w) + 1 - (c + 1))) in *. rewrite <- Ech in Hrows |- *. rewrite <- Ech in Hrevs.
    assert (Hold : oldest (dns_of w) <= c + 1) by (unfold page_start in Hstart; lia).
    exists (c + n). assert (Hn : c + n - c = n) by lia. split_and!.
    + intros ch Hch. assert (Hin : ch_revision ch ∈ ch_revision <$> pg_changes page) by by apply list_elem_of_fmap_2.
      rewrite Hrevs, elem_of_seqZ in Hin. lia.
    + rewrite Hrevs, last_seqZ by done. simpl. lia.
    + by rewrite Ech.
    + split; [lia|]. intros key e He. destruct (Hd key e He) as [[]%elem_of_nil|[Ht|Hf]]; [|by right; right].
      destruct (told_in_page _ c (c + n) (pg_changes page) key.1 Hwf Hold) as [Hl|Hl]; try done; [by rewrite Hn|by left|by right; left].
    + split; [lia|]. intros key e He. destruct (Hau key e He) as [[]%elem_of_nil|[Ht|Hf]]; [|by right; right].
      destruct (told_in_page _ c (c + n) (pg_changes page) key.1 Hwf Hold) as [Hl|Hl]; try done; [by rewrite Hn|by left|by right; left].
Qed.

Lemma keep_changes c :
  Keep (auth_list_user_dns_changes c 256) (fun w => Coherent w /\ at_cursor c w)
    (done_with (fun page w => (Coherent w /\ at_cursor c w) /\ page_fits c page w)).
Proof.
  assert (HS : stable_under RsInv db_step (fun w => Coherent w /\ at_cursor c w)).
  { apply steady_and; [apply coherent_stable|apply cursor_stable]. }
  unfold auth_list_user_dns_changes, from_db, list_user_dns_changes, abind, alift. simpl.
  set (K n w := (Coherent w /\ at_cursor c w) /\ n <= d_revision (dns_of w)).
  assert (HK : forall n, stable_under RsInv db_step (K n)).
  { intros n. apply steady_and; [done|]. intros w w' HI HR Hn. pose proof (revision_step w w' HR). lia. }
  intros w x w1 HI HC Hact. simplify_eq. split; [by destruct w|]. set (n := d_revision (dns_of w)).
  assert (Hn : 0 <= n) by (apply (dw_revision (dns_of w)), HI).
  exists (K n). split_and!; [done|by destruct w|].
  clear HC. intros w2 x w3 HI2 HC Hact. simplify_eq. split; [by destruct w2|]. exists (K n).
  split_and!; [done|by destruct w2|]. clear HC HI2. set (earliest := earliest_change _). clearbody earliest.
  intros w4 x w5 HI4 HC Hact. simplify_eq. split; [by destruct w4|]. destruct HC as [[HC Hcur] Hle].
  destruct (page_at w4 c n earliest) as (page & Hp & Hfits); [done..|].
  exists (fun w => (Coherent w /\ at_cursor c w) /\ page_fits c page w). split_and!; [|by destruct w4..|].
  - apply steady_and; [done|apply page_fits_stable].
  - simpl. change (a_dns (sw_auth (rw_sn w4))) with (dns_of w4).
    change (Z.to_nat 256) with 256%nat. change (d_revision (a_dns (sw_auth (rw_sn w)))) with n. rewrite Hp. simpl. by intros w' HI' HK'.
Qed.

(** The result of a synchronisation. *)
Definition synced (r : RsResult Z) (w : RsWorld) : Prop :=
  Coherent w /\ match r with ROk _ => True | RErr e => re_kind e = RkBackendUnavailable end.

Lemma keep_restart revision :
  Keep (restart_at revision) (fun w => 0 <= revision <= d_revision (dns_of w)) synced.
Proof.
  unfold restart_at, clear_caches. set (P w := 0 <= revision <= d_revision (dns_of w)).
  assert (HP : stable_under RsInv db_step P).
  { intros w w' HI HR Hc. pose proof (revision_step w w' HR). unfold P in *. lia. }
  eapply keep_seq; [eapply keep_seq; [apply (keep_rput _ _ (fun w => P w /\ rw_dns w = ∅))|]|].
  - apply steady_and; [done|]. by intros w w' _ (s & -> & _).
  - intros w HI Hc. by split_and!.
  - intros []. apply (keep_rput _ _ (fun w => P w /\ rw_dns w = ∅ /\ rw_authoritative w = ∅)).
    + apply steady_and; [done|]. by intros w w' _ (s & -> & _).
    + intros w HI [Hc Hd]. by split_and!.
  - intros []. eapply keep_seq; [apply (keep_rput _ _ Coherent)|by intros [] w _ HC]; [apply coherent_stable|].
    intros w [Hs _] (Hc & Hd & Ha). split; [by split|]. split; simpl; intros key e; [by rewrite Hd|by rewrite Ha].
Qed.

(** The cursor may be set back: the changes are then seen again. *)
Lemma cursor_back c w :
  RsInv w -> Coherent w -> 0 <= c <= cursor w ->
  RsInv (set_sync (set_cursor c) w) /\ Coherent (set_sync (set_cursor c) w).
Proof.
  intros HI HC Hc. assert (HI' : RsInv (set_sync (set_cursor c) w)).
  { destruct HI as [Hs Hr]. split; [done|]. unfold cursor, dns_of in *. simpl. lia. }
  split; [done|]. apply coherent_but in HC as [[_ Hd] [_ Ha]]; [|done]. apply coherent_but; [done|].
  destruct HI' as [_ Hr]. split; (split; [apply Hr|]); intros key e He.
  - destruct (Hd key e He) as [?|[Ht|?]]; auto. right. left. eapply told_earlier; [|exact Ht]. apply Hc.
  - destruct (Ha key e He) as [?|[Ht|?]]; auto. right. left. eapply told_earlier; [|exact Ht]. apply Hc.
Qed.

(** A page without a gap: the cursor ends at its last change. *)
Lemma keep_page c page :
  gap_after c page = false ->
  Keep (apply_changes (pg_changes page)) (fun w => (Coherent w /\ at_cursor c w) /\ page_fits c page w)
    (done_with (fun _ w => Coherent w /\ 0 <= pg_current_revision page /\
       (pg_changes page = [] -> pg_current_revision page <= cursor w))).
Proof.
  intros Eg. eapply Keeps_assume.
  { intros w HI [_ [[Hc0 _] Hg]]. destruct (Hg Eg) as (upto & Hr & Hl & Hn & _).
    exact (ex_intro (fun upto => _) upto (conj Hr (conj Hl (conj Hn Hc0)))). }
  intros (upto & Hr & Hl & Hn & Hc0).
  eapply Keeps_weaken; [apply (keep_apply_changes _ upto c Hr)| |].
  - intros w HI [[_ Hcur] [_ Hg]]. destruct (Hg Eg) as (upto' & _ & Hl' & _ & Hd & Ha).
    assert (upto' = upto) as -> by congruence. by split_and!.
  - intros [u|e] w HI; [|done]. simpl. rewrite Hl. intros (Hd & Ha & Hcur). unfold at_cursor in Hcur. split_and!; [|done|].
    + apply coherent_but; [done|]. by rewrite Hcur.
    + intros Hnil. rewrite Hcur, <- Hl, Hnil. by apply Hn.
Qed.

Lemma keep_drain pages deadline : Keep (drain_user_dns_changes pages deadline) Coherent synced.
Proof.
  induction pages as [|pages IH]; [by intros w x w' _ _|]. cbn [drain_user_dns_changes].
  eapply keep_seq; [apply (keep_rdo _ _ (fun _ => Coherent))|].
  { intros _. apply coherent_stable. }
  { intros w HI HC. split; [by apply (inv_same w)|by apply (as_same _ (coherent_assertion config) w)]. }
  intros []; [by intros w _ HC|].
  eapply keep_seq; [apply (keep_rdo _ _ (fun c w => Coherent w /\ at_cursor c w))|].
  { intros c. apply steady_and; [apply coherent_stable|apply cursor_stable]. }
  { intros w HI HC. by split_and!. }
  intros c. eapply keep_seq; [apply keep_changes|]. intros page.
  destruct (gap_after c page) eqn:Eg; [eapply Keeps_pre; [apply keep_restart|by intros w _ [_ [Hc _]]]|].
  eapply keep_seq; [by apply keep_page|]. intros [].
  eapply keep_seq; [apply (keep_rdo _ _ (fun c' w => at_cursor c' w /\ Coherent w /\ 0 <= pg_current_revision page /\
    (pg_changes page = [] -> pg_current_revision page <= c')))|].
  { intros c'. apply steady_and; [apply cursor_stable|]. apply steady_and; [apply coherent_stable|]. by intros w w' _ _. }
  { intros w HI (HC & Hc0 & Hn). by split_and!. }
  intros c'. simpl. destruct (_ || _) eqn:Eend; [|eapply Keeps_pre; [exact IH|by intros w _ (_ & HC & _)]].
  eapply keep_seq; [apply (keep_rput _ _ Coherent)|by intros [] w _ HC]; [apply coherent_stable|].
  intros w HI (Hcur & HC & Hc0 & Hn). apply cursor_back; [done|done|]. unfold at_cursor in Hcur. rewrite Hcur.
  apply orb_true_iff in Eend as [?%Z.leb_le|Hnil%bool_decide_eq_true]; [lia|]. specialize (Hn Hnil). lia.
Qed.

(** ** Synchronisation *)

(** A change of the state of the synchronisation that keeps the cursor. *)
Lemma keep_set_sync f :
  (forall s, sy_revision (f s) = sy_revision s) -> (forall s, sync_state_ok s -> sync_state_ok (f s)) ->
  Keep (rput (set_sync f)) Coherent (done_with (fun _ => Coherent)).
Proof.
  intros Hf He. apply keep_rput; [apply coherent_stable|]. intros w [[Hs Hy] Hc] HC. split.
  - split; [by split; [|apply He]|]. unfold cursor, dns_of in *. simpl. by rewrite Hf.
  - apply (coherent_fewer w); try done. unfold cursor. simpl. apply Hf.
Qed.

Lemma keep_sync_locked force : Keep (sync_locked fuel force) Coherent synced.
Proof.
  unfold sync_locked. eapply keep_seq; [apply keep_now, coherent_assertion|]. intros now.
  eapply keep_seq; [apply (keep_rdo _ _ (fun state w => sync_state_ok state /\ Coherent w))|].
  { intros state. apply steady_and; [by intros w w' _ _|apply coherent_stable]. }
  { intros w HI HC. split_and!; [done|apply HI|done]. }
  intros state. apply Keeps_pure. intros Hstate.
  destruct (_ && _); [destruct (sy_last_error state) eqn:E; intros w _ HC; (split; [done|]); [by apply Hstate|done]|].
  eapply keep_seq; [apply keep_set_sync; [done|intros s [Hf _]; split; [done|by intros e [= <-]]]|]. intros [].
  eapply keep_seq; [apply keep_now, coherent_assertion|]. intros started.
  eapply Keeps_tbind; [apply keep_drain|]. intros [revision|error].
  - eapply keep_seq; [eapply Keeps_pre; [apply keep_now, coherent_assertion|by intros w _ [HC _]]|]. intros ended.
    eapply keep_seq; [by apply keep_set_sync|]. by intros [] w _ HC.
  - eapply Keeps_assume; [intros w _ [_ He]; exact He|]. intros He.
    eapply keep_seq; [eapply Keeps_pre; [apply keep_now, coherent_assertion|by intros w _ [HC _]]|]. intros ended.
    eapply keep_seq; [apply keep_set_sync; [done|]|by intros [] w _ HC].
    intros s [Hf _]. split; [unfold u32_saturating_add, u32_max; simpl; lia|by intros e [= <-]].
Qed.

Lemma keep_sync force : Keep (sync_user_dns_changes fuel force) Coherent synced.
Proof.
  unfold sync_user_dns_changes. intros w x w' HI HC Hact. destruct (rw_sync_locked w); [done|]. simplify_eq.
  split; [done|]. exists Coherent. split_and!; [apply coherent_stable|by apply (coherent_fewer w)|].
  eapply Keeps_tbind; [apply keep_sync_locked|]. intros r. eapply Keeps_assume; [intros w1 _ [_ Hr]; exact Hr|]. intros Hr.
  eapply keep_seq; [apply (keep_rput _ _ Coherent)|by intros [] w1 _ HC1; destruct r]; [apply coherent_stable|].
  intros w1 HI1 [HC1 _]. split; [done|by apply (coherent_fewer w1)].
Qed.
End feed.

(** * Requests

    What a reply says about the records of the name it is about, for each request
    of the resolver, while requests of the account database change the records. *)

(** ** Texts of record types *)

Lemma upper_idempotent a : char_to_upper (char_to_upper a) = char_to_upper a.
Proof. destruct a as [[] [] [] [] [] [] [] []]; reflexivity. Qed.

Lemma upper_whitespace a : is_whitespace (char_to_upper a) = is_whitespace a.
Proof. destruct a as [[] [] [] [] [] [] [] []]; reflexivity. Qed.

Lemma trim_start_upper s : trim_start (to_ascii_uppercase s) = to_ascii_uppercase (trim_start s).
Proof.
  induction s as [|a s IH]; [done|]. simpl. rewrite upper_whitespace. destruct (is_whitespace a); [exact IH|done].
Qed.

Lemma trim_end_upper s : trim_end (to_ascii_uppercase s) = to_ascii_uppercase (trim_end s).
Proof.
  induction s as [|a s IH]; [done|]. simpl in *. unfold to_ascii_uppercase in *. rewrite IH.
  destruct (trim_end s); simpl; [|done]. rewrite upper_whitespace. by destruct (is_whitespace a).
Qed.

Lemma trim_end_idempotent s : trim_end (trim_end s) = trim_end s.
Proof.
  induction s as [|a s IH]; [done|]. simpl. destruct (trim_end s) as [|b t] eqn:E.
  - destruct (is_whitespace a) eqn:Ea; [done|]. simpl. by rewrite Ea.
  - change (trim_end (String a (String b t))) with
      (match trim_end (String b t) with
       | EmptyString => if is_whitespace a then EmptyString else String a EmptyString
       | u => String a u end). by rewrite IH.
Qed.

Lemma type_text_idempotent s : to_ascii_uppercase (trim (to_ascii_uppercase (trim s))) = to_ascii_uppercase (trim s).
Proof.
  unfold trim at 1. rewrite trim_start_upper, trim_start_trim, trim_end_upper.
  replace (trim_end (trim s)) with (trim s) by (unfold trim; by rewrite trim_end_idempotent).
  generalize (trim s). intros t. induction t as [|a t IH]; [done|].
  cbn [to_ascii_uppercase string_map]. f_equal; [apply upper_idempotent|exact IH].
Qed.

Section requests.
Context `{NamedLocker, DeviceInfoDB, Clock, JsonStrings, !JsonStringsLaws, SqlNumbers, CharTables}.
Context `{JsonKeys, RowOrder, SqlxNull}.
Context `{DnsTypes, !NameClient, !NameClientLaws, BnsDocumentReader, Instants, !Timers}.
Context `{NameLib, SerdeJson, JsonWebKeys, HashOrder, SerdeViews}.
Context (config : SnResolverConfig) (cache_ttl : Z) (fuel : nat).

Notation Keep := (Keeps RsInv db_step).
Notation answer_fits := (answer_fits config).
Notation authoritative_fits := (authoritative_fits config).
Notation Coherent := (Coherent config).
Notation claimed := (claimed config).

(** ** Names that are normal *)

Lemma known_normal name (P Q : Records -> Prop) w :
  (normalize_host_lossy name = name -> forall rs, P rs -> Q rs) -> (~ claimed name -> forall rs, Q rs) ->
  Known (normalize_host_lossy name) P w -> Known name Q w.
Proof.
  intros HPQ HQ Hk. destruct (decide (normalize_host_lossy name = name)) as [E|Hne].
  - rewrite E in Hk. eapply known_mono; [|exact Hk]. by apply HPQ.
  - apply known_pure. apply HQ. intros [Hok _]. destruct Hne. by apply name_ok_normal.
Qed.

Lemma fits_normal name ty r w :
  Known (normalize_host_lossy name) (answer_fits (normalize_host_lossy name) ty r) w ->
  Known name (answer_fits name ty r) w.
Proof. apply known_normal; [by intros ->|]. intros Hn rs Hc. by destruct Hn. Qed.

Lemma authoritative_normal name text v w :
  Known (normalize_host_lossy name) (authoritative_fits (normalize_host_lossy name) text v) w ->
  Known name (authoritative_fits name text v) w.
Proof. apply known_normal; [by intros ->|]. intros Hn rs Hc. by destruct Hn. Qed.

(** ** Requests with a cache *)

(** A reply that is not taken from the records of the name. *)
Lemma fits_backend n ty e w : re_kind e = RkBackendUnavailable -> Known n (answer_fits n ty (RErr e)) w.
Proof. intros He. apply known_pure. intros rs. apply fits_error. by rewrite He. Qed.

(** Only the kind of an error matters. *)
Lemma fits_kind n ty e e' rs : re_kind e = re_kind e' -> answer_fits n ty (RErr e) rs -> answer_fits n ty (RErr e') rs.
Proof. intros He Hf Hc uty Hty. specialize (Hf Hc uty Hty). by rewrite <- He. Qed.

Lemma keep_resolve_and_insert n ty (bypass : bool) :
  let N := normalize_host_lossy n in
  Keep (resolve_dns_and_cache config cache_ttl bypass n ty) Coherent (fun r w => Coherent w /\ Known N (answer_fits N ty r) w).
Proof.
  intros N. eapply Keeps_tbind; [apply keep_resolve_dns, coherent_assertion|]. intros [res|e].
  - destruct bypass; [by intros w _ HK|].
    eapply keep_seq; [apply (keep_insert_dns config n ty (CacheHit res))|]. by intros [] w _ HK.
  - destruct (_ && _); [|by intros w _ HK].
    eapply keep_seq; [eapply Keeps_pre; [apply (keep_insert_dns config n ty (CacheTombstone (re_kind e)))|]|intros []]; intros w _ [HC HK]; (split; [done|]);
      (eapply known_mono; [|exact HK]); intros rs; by apply fits_kind.
Qed.

Lemma keep_dns_cached h ty :
  let n := normalize_host_lossy h in
  Keep (resolve_dns_cached config cache_ttl fuel h ty) Coherent (fun r w => Coherent w /\ Known n (answer_fits n ty r) w).
Proof.
  intros n. unfold resolve_dns_cached, rlift. pose proof (normalize_hostname_inv h) as Hn.
  destruct (normalize_hostname h) as [n'|e]; [rewrite rbind_ok; subst n'; fold n|rewrite rbind_err].
  2: { intros w _ HC. split; [done|]. apply known_pure. intros rs. apply fits_error. by rewrite Hn. }
  destruct (is_supported_record_type ty) eqn:Es; cbn [negb].
  2: { intros w _ HC. split; [done|]. apply known_pure. intros rs _ uty. by destruct ty. }
  eapply keep_bind; [apply keep_sync| |intros e w _ [HC He]; split; [done|by apply fits_backend]].
  intros revision. unfold resolve_dns_synced. set (bypass := is_user_dns_control_name n).
  set (F (found : option DnsCacheValue) (w : RsWorld) := match found with
    | Some v => Known (normalize_host_lossy n) (answer_fits (normalize_host_lossy n) ty (cached_result v)) w
    | None => True end).
  eapply (keep_seq _ _ _ (fun found w => Coherent w /\ F found w)).
  - eapply Keeps_pre; [|by intros w _ [HC _]]. destruct bypass; [by intros w _ HC|apply keep_query_dns].
  - intros [[res|kind]|]; [intros w _ [HC HF]; split; [done|by apply fits_normal]..|].
    eapply Keeps_weaken; [apply keep_resolve_and_insert|by intros w _ [HC _]|].
    intros r w _ [HC HK]. split; [done|by apply fits_normal].
Qed.

(** The text of the type the answer is about. *)
Definition type_text (record_type : string) : string := to_ascii_uppercase (trim record_type).

Definition authoritative_reply_fits (n text : string) (r : RsResult SnAuthoritativeDnsResult) (rs : Records) : Prop :=
  match r with ROk v => authoritative_fits n text v rs | RErr _ => True end.

Lemma keep_authoritative_cached h record_type :
  let n := normalize_host_lossy h in
  Keep (resolve_authoritative_dns_cached config cache_ttl fuel h record_type) Coherent (fun r w => Coherent w /\
    Known n (authoritative_reply_fits n (type_text record_type) r) w).
Proof.
  intros n. unfold resolve_authoritative_dns_cached, rlift. pose proof (normalize_hostname_inv h) as Hn.
  assert (Hfail : forall e w, Known n (authoritative_reply_fits n (type_text record_type) (RErr e)) w)
    by (intros e w; by apply known_pure).
  destruct (normalize_hostname h) as [n'|e]; [rewrite rbind_ok; subst n'; fold n|by rewrite rbind_err; intros w _ HC].
  fold (type_text record_type). set (text := type_text record_type) in *.
  assert (Ht : to_ascii_uppercase (trim text) = text) by apply type_text_idempotent.
  destruct (is_empty text); [by intros w _ HC|].
  eapply keep_bind; [apply keep_sync| |by intros e w _ [HC He]]. intros revision. set (bypass := is_user_dns_control_name n).
  set (N := normalize_host_lossy n).
  set (F (found : option SnAuthoritativeDnsResult) (w : RsWorld) := match found with
    | Some v => Known N (authoritative_fits N text v) w
    | None => True end).
  eapply (keep_seq _ _ _ (fun found w => Coherent w /\ F found w)).
  { eapply Keeps_pre; [|by intros w _ [HC _]]. destruct bypass; [by intros w _ HC|by apply keep_query_authoritative]. }
  intros [v|]; [intros w _ [HC HF]; split; [done|by apply authoritative_normal]|].
  set (G (v : SnAuthoritativeDnsResult) w := Coherent w /\ Known N (authoritative_fits N text v) w).
  eapply (keep_bind _ _ _ (fun r w => Coherent w /\ match r with ROk v => G v w | RErr _ => True end)).
  - eapply Keeps_tbind; [eapply Keeps_pre; [apply keep_authoritative, coherent_assertion|by intros w _ [HC _]]|].
    intros [v|e]; [intros w _ [HC HK]; by split_and!|]. destruct (bool_decide _); [|by intros w _ [HC _]].
    intros w _ [HC _]. split; [done|]. split; [done|by apply known_pure].
  - intros v. destruct (answer_ttl v) as [ttl|]; [|intros w _ [HC [_ HK]]; split; [done|by apply authoritative_normal]].
    eapply (keep_seq _ _ _ (fun _ w => G v w)); [|intros [] w _ [HC HK]; split; [done|by apply authoritative_normal]].
    eapply Keeps_pre; [|intros w _ [_ HG]; exact HG]. destruct bypass; [by intros w _ HK|by apply keep_insert_authoritative].
  - intros e w _ [HC _]. by split.
Qed.

(** ** Every request *)

Definition reply_fits (c : RsCall) (r : RsReply) (w : RsWorld) : Prop :=
  match c, r with
  | ReqDns h ty, RepDns r => let n := normalize_host_lossy h in Known n (answer_fits n ty r) w
  | ReqAuthoritative h record_type, RepAuthoritative r =>
      let n := normalize_host_lossy h in Known n (authoritative_reply_fits n (type_text record_type) r) w
  | _, _ => True
  end.

Lemma keep_invalidate name : Keep (invalidate_user_dns_name name) Coherent (fun _ => Coherent).
Proof.
  unfold invalidate_user_dns_name, remove_dns_name, remove_authoritative_name.
  eapply (keep_seq _ _ _ (fun _ => Coherent)); [|by intros n w _ HC].
  eapply (keep_seq _ _ _ (fun _ => Coherent)); [|intros n; eapply (keep_seq _ _ _ (fun _ => Coherent)); [|by intros m w _ HC]];
    (apply keep_rdo; [intros _; apply coherent_stable|]); intros w HI HC; (split; [done|]);
    apply (coherent_fewer _ w); try done; simpl; intros k e [He _]%without_host_lookup; done.
Qed.

Lemma keep_replying {A} (f : RsResult A -> RsReply) (t : RT A) c P :
  Keep t Coherent P -> (forall r w, RsInv w -> P r w -> Coherent w /\ reply_fits c (f r) w) ->
  Keep (replying f t) Coherent (fun r w => Coherent w /\ reply_fits c r w).
Proof. intros Ht Hf. eapply Keeps_tbind; [exact Ht|]. intros r w HI HP. by apply Hf. Qed.

Lemma keep_request c :
  Keep (rs_task config cache_ttl fuel c) Coherent (fun r w => Coherent w /\ reply_fits c r w).
Proof.
  destruct c; cbn [rs_task].
  - eapply keep_replying; [apply keep_dns_cached|]. by intros r w _ HP.
  - eapply keep_replying; [apply keep_authoritative_cached|]. by intros r w _ HP.
  - eapply keep_replying; [apply keep_sync|]. by intros r w _ [HC _].
  - eapply keep_replying; [apply keep_sync|]. by intros r w _ [HC _].
  - eapply keep_replying; [apply keep_invalidate|]. by intros r w _ HC.
  - eapply keep_replying; [apply keep_observes; [apply coherent_assertion|observe]|]. by intros r w _ HC.
  - eapply keep_replying; [apply keep_observes; [apply coherent_assertion|observe]|]. by intros r w _ HC.
  - eapply keep_replying; [apply keep_observes; [apply coherent_assertion|observe]|]. by intros r w _ HC.
  - eapply keep_replying; [apply keep_observes; [apply coherent_assertion|observe]|]. by intros r w _ HC.
  - eapply keep_replying; [apply keep_observes; [apply coherent_assertion|observe]|]. by intros r w _ HC.
Qed.
End requests.
