(* ===== verification/ResolverServe.v ===== *)
(** * Name resolver: the resolver beside the account database

    The whole service node: requests of the account database in any number and
    in any interleaving, and requests of the resolver one at a time among them.
    Whatever the schedule, a reply of the resolver agrees with the stored
    records of its name, or the change feed still has a change of that name
    which the resolver has not seen.  Replies are well formed even when requests
    of the resolver overlap. *)

From S2P Require Import Prelude IpAddr Tasks RelayModel RelayStore Relay RelaySafe AuthModel AuthStore Auth AuthDb AuthDns AuthTexts AuthInv AuthKeeps ResolverModel ResolverStore Resolver ResolverRun ResolverCoherence ResolverFeed.

Section serve.
Context `{NamedLocker, DeviceInfoDB, Clock, JsonStrings, !JsonStringsLaws, SqlNumbers, CharTables}.
Context `{JsonKeys, RowOrder, SqlxNull}.
Context `{DnsTypes, !NameClient, !NameClientLaws, BnsDocumentReader, Instants, !Timers}.
Context `{NameLib, SerdeJson, JsonWebKeys, HashOrder, SerdeViews}.
Context (config : SnResolverConfig) (cache_ttl : Z) (fuel : nat) (self : RelayManager).

Notation Keep := (Keeps RsInv db_step).
Notation Coherent := (Coherent config).
Notation reply_fits := (reply_fits config).

(** ** The resolver does not change the databases *)

Definition db_kept (w w' : RsWorld) : Prop := sn_same (rw_sn w) (rw_sn w').

Lemma within_observed {A} (t : Task RsWorld A) : Observes rs_same t -> Within db_kept t.
Proof. apply observes_within. by intros w w' [Hs _]. Qed.

Lemma within_rbind {A B} (m : RT A) (k : A -> RT B) :
  Within db_kept m -> (forall a, Within db_kept (k a)) -> Within db_kept (rbind m k).
Proof. intros Hm Hk. apply within_tbind; [done|]. intros [a|e]; [apply Hk|done]. Qed.

Lemma within_rdo {A} (f : RsWorld -> A * RsWorld) : (forall w, rw_sn (f w).2 = rw_sn w) -> Within db_kept (rdo f).
Proof.
  intros Hf. apply within_atomic. intros w. specialize (Hf w). destruct (f w). simpl in *. unfold db_kept. by rewrite Hf.
Qed.

Lemma within_now : Within db_kept instant_now.
Proof. by apply within_rdo. Qed.

Ltac within :=
  repeat first
    [ done
    | apply within_now
    | solve [apply within_observed; auto 1 with observes]
    | apply within_rbind; [|intros ?]
    | apply within_tbind; [|intros ?]
    | apply within_rdo; done
    | case_match ].

Lemma within_apply_changes changes : Within db_kept (apply_changes changes).
Proof.
  induction changes as [|ch changes IH]; [done|]. cbn [apply_changes].
  unfold remove_dns_name, remove_authoritative_name. repeat first [exact IH|progress within].
Qed.

Lemma within_drain pages deadline : Within db_kept (drain_user_dns_changes pages deadline).
Proof.
  induction pages as [|pages IH]; [done|]. cbn [drain_user_dns_changes]. unfold restart_at, clear_caches.
  repeat first [exact IH|apply within_apply_changes|progress within].
Qed.

Lemma within_sync force : Within db_kept (sync_user_dns_changes fuel force).
Proof.
  split.
  - intros w x w'. destruct (rw_sync_locked w); [done|]. by intros [= <- <-].
  - intros _. apply within_tbind; [|intros r; within]. unfold sync_locked.
    repeat first [apply within_drain|progress within].
Qed.

Lemma within_request c : Within db_kept (rs_task config cache_ttl fuel c).
Proof.
  destruct c; apply within_tbind; try done; try (apply within_observed; observe; fail); try apply within_sync.
  - unfold resolve_dns_cached, resolve_dns_synced, resolve_dns_and_cache, query_dns, insert_dns. repeat first [apply within_sync|progress within].
  - unfold resolve_authoritative_dns_cached, query_authoritative_dns, insert_authoritative_dns.
    repeat first [apply within_sync|progress within].
  - unfold invalidate_user_dns_name, remove_dns_name, remove_authoritative_name. within.
Qed.

(** ** Threads *)

Notation Thread := (Task RsWorld (RsReply + AuthReply)).

(** What a request of the account database relies on. *)
Definition sn_step (w w' : RsWorld) : Prop := SnStep (rw_sn w) (rw_sn w').

(** It changes the databases only. *)
Definition only_db (w w' : RsWorld) : Prop := exists s, w' = set_sn s w.

Definition auth_thread (w : RsWorld) (t : Thread) : Prop :=
  Within only_db t /\ exists K, stable RsInv sn_step K /\ K w /\ Safe RsInv sn_step t K (fun _ _ => True).

Definition reply_ok (c : RsCall) (r : RsReply + AuthReply) (w : RsWorld) : Prop :=
  match r with inl r => Coherent w /\ reply_fits c r w | inr _ => False end.

Definition resolver_thread (c : RsCall) (w : RsWorld) (t : Thread) : Prop :=
  Within db_kept t /\ exists K, stable_under RsInv db_step K /\ K w /\ Keep t K (reply_ok c).

Definition thread_ok (w : RsWorld) (ct : (RsCall + AuthCall) * Thread) : Prop :=
  match ct.1 with inl c => resolver_thread c w ct.2 | inr _ => auth_thread w ct.2 end.

Lemma only_db_step w w' : RsInv w' -> only_db w w' -> sn_step w w' -> db_step w w'.
Proof. intros [[HI _] _] (s & ->) HS. by exists s. Qed.

Lemma safe_on_sn {A B} (u : Task SnWorld A) (f : A -> B) K (Q : A -> SnWorld -> Prop) :
  Safe SnInv SnStep u K Q ->
  Safe RsInv sn_step (tbind (on_sn u) (fun r => Ret (f r))) (fun w => K (rw_sn w)) (fun _ _ => True).
Proof.
  revert K. induction u as [a|X act k IH]; intros K Hu; [by intros w|].
  intros w x w' HI HK Hact. destruct (act (rw_sn w)) as [[x' s]|] eqn:E; simplify_eq.
  destruct (Hu (rw_sn w) x s) as (HI' & HG & K' & Hst & HK' & Hk); [apply HI|done|done|].
  split_and!; [by apply (inv_db w); [|exists s]|done|]. exists (fun w => K' (rw_sn w)). split_and!; [|done|by apply IH].
  intros w1 w2 [[I1 _] _] [[I2 _] _] HG12. by apply Hst.
Qed.

Lemma only_db_on_sn {A B} (u : Task SnWorld A) (f : A -> B) : Within only_db (tbind (on_sn u) (fun r => Ret (f r))).
Proof.
  induction u as [a|X act k IH]; [done|]. split; [|exact IH]. intros w x w'. destruct (act (rw_sn w)) as [[x' s]|]; [|done].
  intros [= _ <-]. by exists s.
Qed.

Lemma auth_starts c w : auth_call_ok c -> auth_thread w (service_task config cache_ttl fuel self (inr c)).
Proof.
  intros Hc. split; [apply only_db_on_sn|]. exists (fun _ => True). split_and!; [done|done|].
  eapply (safe_on_sn _ inr (fun _ => True)). by apply sound_auth_task.
Qed.

Lemma resolver_starts c w : Coherent w -> resolver_thread c w (service_task config cache_ttl fuel self (inl c)).
Proof.
  intros HC. split; [apply within_tbind; [apply within_request|done]|]. exists Coherent.
  split_and!; [apply coherent_stable|done|]. eapply Keeps_tbind; [apply keep_request|]. by intros r w' _ HP.
Qed.

Lemma thread_db w w' ct : RsInv w -> db_step w w' -> thread_ok w ct -> thread_ok w' ct.
Proof.
  intros HI HR. pose proof (inv_db w w' HI HR) as HI'. destruct ct as [[c|c] t]; unfold thread_ok; simpl.
  - intros (Hu & K & Hst & HK & Hk). split; [done|]. exists K. split_and!; [done|by apply (Hst w)|done].
  - intros (Ho & K & Hst & HK & Hs). split; [done|]. exists K. split_and!; [done| |done].
    apply (Hst w w'); try done. by destruct HR as (s & -> & _ & HS).
Qed.

Lemma kept_step w w' : db_kept w w' -> sn_step w w'.
Proof. intros [Ha Hr]. unfold relay_same in Hr. split; [by rewrite Ha|]. unfold Grow. rewrite Hr. apply Grow_refl. Qed.

Definition is_resolver (ct : (RsCall + AuthCall) * Thread) : bool := match ct.1 with inl _ => true | inr _ => false end.

Lemma thread_kept w w' ct :
  RsInv w -> RsInv w' -> db_kept w w' -> is_resolver ct = false -> thread_ok w ct -> thread_ok w' ct.
Proof.
  intros HI HI' Hk. destruct ct as [[c|c] t]; [done|]. intros _ (Ho & K & Hst & HK & Hs). split; [done|]. exists K.
  split_and!; [done| |done]. apply (Hst w); try done. by apply kept_step.
Qed.

(** ** Schedules *)

(** How many requests of the resolver are being served. *)
Definition resolving (ts : list ((RsCall + AuthCall) * Thread)) : nat := length (List.filter is_resolver ts).

Definition call_ok (c : RsCall + AuthCall) : Prop := match c with inl _ => True | inr c => auth_call_ok c end.

(** A step of the service in which requests of the resolver do not overlap. *)
Definition turn (s s' : Sys (W:=RsWorld) (Call:=RsCall + AuthCall) (Reply:=RsReply + AuthReply)) : Prop :=
  sys_step (service_task config cache_ttl fuel self) call_ok s s' /\ (resolving (sys_tasks s') <= 1)%nat.

Record served (s : Sys (W:=RsWorld) (Call:=RsCall + AuthCall) (Reply:=RsReply + AuthReply)) : Prop := mkServed {
  sv_inv : RsInv (sys_world s);
  sv_threads : Forall (thread_ok (sys_world s)) (sys_tasks s);
  sv_one : (resolving (sys_tasks s) <= 1)%nat;
  sv_idle : resolving (sys_tasks s) = 0%nat -> Coherent (sys_world s)
}.

Lemma resolving_app ts1 ts2 : resolving (ts1 ++ ts2) = (resolving ts1 + resolving ts2)%nat.
Proof. unfold resolving. by rewrite List.filter_app, length_app. Qed.

Lemma resolving_cons ct ts : resolving (ct :: ts) = (if is_resolver ct then S (resolving ts) else resolving ts).
Proof. unfold resolving. simpl. by destruct (is_resolver ct). Qed.

Lemma not_resolving ts : resolving ts = 0%nat -> Forall (fun ct => is_resolver ct = false) ts.
Proof.
  induction ts as [|ct ts IH]; [by constructor|]. rewrite resolving_cons. destruct (is_resolver ct) eqn:E; [done|].
  intros Hts. constructor; auto.
Qed.

Lemma threads_kept w w' ts :
  RsInv w -> RsInv w' -> db_kept w w' -> resolving ts = 0%nat -> Forall (thread_ok w) ts -> Forall (thread_ok w') ts.
Proof.
  intros HI HI' Hk Hr%not_resolving Hts. induction Hts as [|ct ts Hct Hts IH]; [by constructor|].
  apply Forall_cons in Hr as [Hc Hr]. constructor; [by apply (thread_kept w)|by apply IH].
Qed.

Lemma threads_db w w' ts : RsInv w -> db_step w w' -> Forall (thread_ok w) ts -> Forall (thread_ok w') ts.
Proof. intros HI HR Hts. eapply Forall_impl; [exact Hts|]. intros ct. by apply thread_db. Qed.

(** ** Steps *)

Lemma served_start w ts rs c :
  served (mkSys w ts rs) -> call_ok c -> let t := service_task config cache_ttl fuel self c in
  (resolving (ts ++ [(c, t)]) <= 1)%nat -> served (mkSys w (ts ++ [(c, t)]) rs).
Proof.
  intros [HI Hts H1r Hidle] Hc t. simpl in *. rewrite resolving_app, resolving_cons. simpl. intros Hle. split; simpl; [done| | |].
  - apply Forall_app. split; [done|]. constructor; [|done]. destruct c as [c|c]; [|by apply auth_starts].
    apply resolver_starts, Hidle. simpl in Hle. lia.
  - by rewrite resolving_app, resolving_cons.
  - rewrite resolving_app, resolving_cons. destruct c; simpl; [lia|]. intros Hr. apply Hidle. lia.
Qed.

Lemma served_act w ts1 ts2 rs c X (act : RsWorld -> option (X * RsWorld)) k x w' :
  served (mkSys w (ts1 ++ (c, Act act k) :: ts2) rs) -> act w = Some (x, w') ->
  served (mkSys w' (ts1 ++ (c, k x) :: ts2) rs).
Proof.
  intros [HI Hts H1r Hidle] Hact. simpl in *. rewrite resolving_app, resolving_cons in H1r, Hidle.
  apply Forall_app in Hts as [Ht1 [Hc Ht2]%Forall_cons]. destruct c as [c|c]; simpl in *.
  - destruct Hc as ([Ha Hw] & K & Hst & HK & Hk). destruct (Hk w x w' HI HK Hact) as (HI' & K' & Hst' & HK' & Hk').
    specialize (Ha w x w' Hact). split; simpl; [done| |by rewrite resolving_app, resolving_cons|].
    + apply Forall_app. split; [apply (threads_kept w); try done; lia|]. constructor; [|apply (threads_kept w); try done; lia].
      split; [apply Hw|]. by exists K'.
    + rewrite resolving_app, resolving_cons. simpl. lia.
  - destruct Hc as ([Ha Hw] & K & Hst & HK & Hs). destruct (Hs w x w' HI HK Hact) as (HI' & HG & K' & Hst' & HK' & Hs').
    assert (HR : db_step w w') by (apply only_db_step; [done|by apply (Ha w x)|done]).
    split; simpl; [done| |by rewrite resolving_app, resolving_cons|].
    + apply Forall_app. split; [by apply (threads_db w)|]. constructor; [|by apply (threads_db w)].
      split; [apply Hw|]. by exists K'.
    + rewrite resolving_app, resolving_cons. simpl. intros Hr. apply (coherent_stable config w); [done|done|by apply Hidle].
Qed.

Lemma served_reply w ts1 ts2 rs c r :
  served (mkSys w (ts1 ++ (c, Ret r) :: ts2) rs) ->
  (forall c', c = inl c' -> reply_ok c' r w) /\ served (mkSys w (ts1 ++ ts2) (rs ++ [(c, r)])).
Proof.
  intros [HI Hts H1r Hidle]. simpl in *. rewrite resolving_app, resolving_cons in H1r, Hidle.
  apply Forall_app in Hts as [Ht1 [Hc Ht2]%Forall_cons].
  assert (Hr : forall c', c = inl c' -> reply_ok c' r w).
  { intros c' ->. destruct Hc as (_ & K & _ & HK & Hk). by apply Hk. }
  split; [done|]. split; simpl; [done|by apply Forall_app| |].
  - rewrite resolving_app. destruct (is_resolver _); lia.
  - rewrite resolving_app. intros Hn. destruct c as [c|c]; simpl in *; [|apply Hidle; lia].
    destruct Hc as (_ & K & _ & HK & Hk). specialize (Hk w HI HK). destruct r as [r|r]; [apply Hk|done].
Qed.

Lemma served_turn s s' : served s -> turn s s' -> served s'.
Proof.
  intros Hs [Hstep Hone]. destruct Hstep as [w ts rs c Hc|w ts1 ts2 rs c X act k x w' Hact|w ts1 ts2 rs c r].
  - by apply served_start.
  - by eapply served_act.
  - by apply served_reply.
Qed.

Lemma served_all w s : RsInv w -> Coherent w -> rtc turn (started w) s -> served s.
Proof.
  intros HI HC Hrtc. assert (Hs : served (started w)) by (split; simpl; [done|by constructor|unfold resolving; simpl; lia|done]).
  clear HI HC. induction Hrtc as [|s s' s'' Hst Hrtc IH]; [done|]. apply IH. by apply (served_turn s).
Qed.

(** A resolver that has just started. *)
Definition fresh (w : RsWorld) : Prop := rw_dns w = ∅ /\ rw_authoritative w = ∅ /\ rw_sync w = initial_sync_state.

Lemma fresh_coherent w : SnInv (rw_sn w) -> fresh w -> RsInv w /\ Coherent w.
Proof.
  intros HI (Hd & Ha & Hs). split.
  - split; [split; [done|]|]. { by rewrite Hs. }
    unfold cursor. rewrite Hs. split; [done|]. apply (dw_revision (dns_of w)), HI.
  - split; intros key e; [by rewrite Hd|by rewrite Ha].
Qed.

(** C25: From a resolver that has just started on, under every schedule in which
    requests of the resolver do not overlap while requests of the account
    database overlap them and each other as they like: when a request for a name
    and a type is about to reply, the name a valid one and not one of the node's
    own, either the change feed has a change of the name
    after the cursor of the resolver, or the reply agrees with the records that
    are stored then.  An answer is the stored RRset of the type, an answer from
    another source or a missing name means that no RRset is stored. *)
Theorem answers_coherent w s c r :
  SnInv (rw_sn w) -> fresh w -> rtc turn (started w) s ->
  (inl c, Ret (inl r)) ∈ sys_tasks s -> reply_fits c r (sys_world s).
Proof.
  intros HI Hf Hrtc Hin. destruct (fresh_coherent w HI Hf) as [HI' HC].
  pose proof (served_all w s HI' HC Hrtc) as [HIs Hts _ _]. rewrite Forall_forall in Hts.
  destruct (Hts _ Hin) as (_ & K & _ & HK & Hk). by apply (Hk (sys_world s)).
Qed.

(** Running a schedule in which requests of the resolver do not overlap. *)
Fixpoint take_turns (ms : list (Move (Call:=RsCall + AuthCall))) (s : Sys) : option Sys :=
  match ms with
  | [] => Some s
  | m :: ms' =>
      match move (service_task config cache_ttl fuel self) m s with
      | Some s' => if (resolving (sys_tasks s') <=? 1)%nat then take_turns ms' s' else None
      | None => None
      end
  end.

Lemma take_turns_sound ms s s' : Forall (move_allowed call_ok) ms -> take_turns ms s = Some s' -> rtc turn s s'.
Proof.
  intros Hall. revert s. induction Hall as [|m ms Hm _ IH]; intros s; simpl; [intros [= <-]; apply rtc_refl|].
  destruct (move _ m s) as [s1|] eqn:E; [|done]. destruct (Nat.leb_spec (resolving (sys_tasks s1)) 1) as [Hle|]; [|done].
  intros Hs. eapply rtc_l; [|by apply IH]. split; [by eapply move_sound|done].
Qed.
End serve.

(** * The form of its replies under every interleaving

    Requests of the resolver may overlap here.  What is cached and what is
    answered is well formed all the same: the addresses are of the family of the
    question and distinct, an A answer has one at most, addresses of documents
    are exportable, and a positive authoritative answer has a record. *)

Section form.
Context `{NamedLocker, DeviceInfoDB, Clock, JsonStrings, SqlNumbers, CharTables}.
Context `{JsonKeys, RowOrder, SqlxNull}.
Context `{DnsTypes, !NameClient, !NameClientLaws, BnsDocumentReader, Instants, !Timers}.
Context `{NameLib, SerdeJson, JsonWebKeys, HashOrder, SerdeViews}.
Context (config : SnResolverConfig) (cache_ttl : Z) (fuel : nat) (self : RelayManager).

Definition authoritative_wf (n text : string) (v : SnAuthoritativeDnsResult) : Prop :=
  match v with
  | AuthoritativeAnswer _ res =>
      dns_resolution_has_rrset res = true /\ exists ty, record_type_of_text text = Some ty /\ answer_wf n ty res
  | _ => True
  end.

(** The entries of the caches. *)
Record Formed (w : RsWorld) : Prop := mkFormed {
  fo_dns key e res ty : rw_dns w !! key = Some e -> ce_value e = CacheHit res -> record_type_to_text ty = key.2 ->
    answer_wf key.1 ty res;
  fo_authoritative key e : rw_authoritative w !! key = Some e -> authoritative_wf key.1 key.2 (ce_value e)
}.

(** A task keeps the entries well formed, and its result satisfies [P]. *)
Definition Forms {A} (t : Task RsWorld A) (P : A -> Prop) : Prop :=
  Safe Formed (fun _ _ => True) t (fun _ => True) (fun a _ => P a).

Lemma forms_ret {A} (a : A) (P : A -> Prop) : P a -> Forms (Ret a) P.
Proof. by intros HP w _ _. Qed.

Lemma forms_tbind {A B} (t : Task RsWorld A) (f : A -> Task RsWorld B) P Q :
  Forms t P -> (forall a, P a -> Forms (f a) Q) -> Forms (tbind t f) Q.
Proof.
  intros Ht Hf. eapply Safe_tbind; [exact Ht|]. intros a.
  eapply Safe_weaken; [apply (Safe_pure_l _ _ _ (P a) (fun _ => True)), Hf|by intros w _ HP|done].
Qed.

Lemma forms_rbind {A B} (m : RT A) (k : A -> RT B) (P : A -> Prop) Q :
  (forall e, Q (RErr e)) -> Forms m (fun r => match r with ROk a => P a | RErr _ => True end) ->
  (forall a, P a -> Forms (k a) Q) -> Forms (rbind m k) Q.
Proof. intros He Hm Hk. eapply forms_tbind; [exact Hm|]. intros [a|e] HP; [by apply Hk|]. by apply forms_ret. Qed.

Lemma forms_act {A X} (act : RsWorld -> option (X * RsWorld)) (k : X -> Task RsWorld A) P :
  (forall w x w', Formed w -> act w = Some (x, w') -> Formed w' /\ Forms (k x) P) -> Forms (Act act k) P.
Proof.
  intros Ha w x w' HF _ Hact. destruct (Ha w x w' HF Hact) as [HF' Hk]. split_and!; [done|done|].
  by exists (fun _ => True).
Qed.

Lemma forms_rdo {A} (f : RsWorld -> A * RsWorld) (P : A -> Prop) :
  (forall w, Formed w -> P (f w).1 /\ Formed (f w).2) ->
  Forms (rdo f) (fun r => match r with ROk a => P a | RErr _ => True end).
Proof.
  intros Hf. apply forms_act. intros w x w' HF [= Hx]. destruct (Hf w HF) as [HP HF']. destruct (f w). simplify_eq.
  split; [done|]. by apply forms_ret.
Qed.

(** ** Tasks that do not add entries *)

Definition fewer (w w' : RsWorld) : Prop :=
  rw_dns w' ⊆ rw_dns w /\ rw_authoritative w' ⊆ rw_authoritative w.

Lemma formed_fewer w w' : fewer w w' -> Formed w -> Formed w'.
Proof.
  intros [Hd Ha] [Fd Fa]. split.
  - intros key e res ty He. apply (Fd key e). by apply (lookup_weaken _ _ _ _ He).
  - intros key e He. apply Fa. by apply (lookup_weaken _ _ _ _ He).
Qed.

Lemma forms_fewer {A} (t : Task RsWorld A) P : Within fewer t -> Returns t P -> Forms t P.
Proof.
  induction t as [a|X act k IH]; [intros _; apply forms_ret|]. intros [Ha Hw] HP. apply forms_act.
  intros w x w' HF Hact. split; [|by apply IH]. apply (formed_fewer w); [|done]. by apply (Ha w x).
Qed.

Lemma fewer_observed {A} (t : Task RsWorld A) : Observes rs_same t -> Within fewer t.
Proof. apply observes_within. intros w w' (_ & Hd & Ha & _). split; by rewrite ?Hd, ?Ha. Qed.

Lemma fewer_only_db {A} (t : Task RsWorld A) : Within only_db t -> Within fewer t.
Proof.
  induction t as [a|X act k IH]; [done|]. intros [Ha Hk]. split; [|intros x; by apply IH].
  intros w x w' Hact. by destruct (Ha w x w' Hact) as (s & ->).
Qed.

Lemma fewer_rbind {A B} (m : RT A) (k : A -> RT B) :
  Within fewer m -> (forall a, Within fewer (k a)) -> Within fewer (rbind m k).
Proof. intros Hm Hk. apply within_tbind; [done|]. intros [a|e]; [apply Hk|done]. Qed.

Lemma fewer_rdo {A} (f : RsWorld -> A * RsWorld) : (forall w, fewer w (f w).2) -> Within fewer (rdo f).
Proof. intros Hf. apply within_atomic. intros w. specialize (Hf w). by destruct (f w). Qed.

Lemma without_host_subseteq {A} (n : string) (items : gmap CacheKey (CacheEntry A)) : without_host n items ⊆ items.
Proof. apply map_filter_subseteq. Qed.

Lemma fewer_remove name : Within fewer (remove_dns_name name).
Proof.
  unfold remove_dns_name, remove_authoritative_name.
  repeat (apply fewer_rbind; [apply fewer_rdo|intros ?]); try done; intros w; split; simpl; try done;
    apply without_host_subseteq.
Qed.

Lemma fewer_apply_changes changes : Within fewer (apply_changes changes).
Proof.
  induction changes as [|ch changes IH]; [done|]. cbn [apply_changes]. apply fewer_rbind; [apply fewer_remove|].
  intros _. by apply fewer_rbind; [apply fewer_rdo|].
Qed.

Lemma fewer_drain pages deadline : Within fewer (drain_user_dns_changes pages deadline).
Proof.
  induction pages as [|pages IH]; [done|]. cbn [drain_user_dns_changes]. apply fewer_rbind; [by apply fewer_rdo|].
  intros []; [done|]. apply fewer_rbind; [by apply fewer_rdo|]. intros c.
  apply fewer_rbind; [apply fewer_observed; observe|]. intros page. case_match.
  - unfold restart_at, clear_caches.
    apply fewer_rbind; [apply fewer_rbind; [|intros _]|intros _; apply fewer_rbind; [|done]];
      (apply fewer_rdo; intros w; split; simpl; try done; apply map_empty_subseteq).
  - apply fewer_rbind; [apply fewer_apply_changes|]. intros _. apply fewer_rbind; [by apply fewer_rdo|]. intros c'.
    case_match; [|done]. by apply fewer_rbind; [apply fewer_rdo|].
Qed.

Lemma fewer_sync force : Within fewer (sync_user_dns_changes fuel force).
Proof.
  split; [intros w x w'; destruct (rw_sync_locked w); [done|by intros [= <- <-]]|]. intros _.
  apply within_tbind; [|intros r; by apply fewer_rbind; [apply fewer_rdo|]]. unfold sync_locked.
  apply fewer_rbind; [by apply fewer_rdo|]. intros now. apply fewer_rbind; [by apply fewer_rdo|]. intros state.
  destruct (_ && _); [by destruct (sy_last_error state)|]. apply fewer_rbind; [by apply fewer_rdo|]. intros _.
  apply fewer_rbind; [by apply fewer_rdo|]. intros started. apply within_tbind; [apply fewer_drain|]. intros r.
  apply fewer_rbind; [by apply fewer_rdo|]. intros ended. by destruct r; apply fewer_rbind; [apply fewer_rdo| |apply fewer_rdo|].
Qed.

(** ** The cache of answers *)

Definition hit_wf (n : string) (ty : RecordType) (v : DnsCacheValue) : Prop :=
  match v with CacheHit res => answer_wf n ty res | CacheTombstone _ => True end.

Lemma forms_query_dns h ty :
  Forms (query_dns h ty) (fun r =>
    match r with ROk (Some v) => hit_wf (normalize_host_lossy h) ty v | _ => True end).
Proof.
  unfold query_dns. eapply (forms_rbind _ _ (fun _ => True)); [done|apply forms_rdo; intros w HF; by split; [|apply (formed_fewer w)]|].
  intros now _.
  eapply (forms_rbind _ _ (fun o => match o with Some v => hit_wf (normalize_host_lossy h) ty v | None => True end)); [done| |].
  - apply forms_rdo. intros w HF. split; [|done]. simpl. unfold live_entry.
    destruct (rw_dns w !! dns_cache_key h ty) as [e|] eqn:E; simpl; [|done]. destruct (now <? ce_expires_at e); [|done].
    destruct (ce_value e) as [res|] eqn:Ev; [|done]. by apply (fo_dns w HF _ e res ty E).
  - intros [v|] Hv; [by apply forms_ret|].
    eapply (forms_rbind _ _ (fun _ => True)); [done| |intros ? _; by apply forms_ret]. apply forms_rdo. intros w HF. split; [done|].
    apply (formed_fewer w); [|done]. split; [|done]. apply map_subseteq_spec. intros k e. apply drop_expired_lookup.
Qed.

Lemma forms_insert_dns h ty v ttl : hit_wf (normalize_host_lossy h) ty v -> Forms (insert_dns h ty v ttl) (fun _ => True).
Proof.
  intros Hv. unfold insert_dns.
  eapply (forms_rbind _ _ (fun _ => True)); [done|apply forms_rdo; intros w HF; by split; [|apply (formed_fewer w)]|].
  intros now _. eapply Safe_weaken; [apply (forms_rdo _ (fun _ => True))|done|done].
  intros w HF. split; [done|]. split; simpl; [|apply (fo_authoritative w HF)].
  intros key e res ty' [[<- <-]|[Hne He]]%lookup_insert_Some; [|exact (fo_dns w HF key e res ty' He)]. simpl.
  intros -> Hty. assert (ty' = ty) as ->; [|done].
  pose proof (record_type_texts ty'). pose proof (record_type_texts ty). congruence.
Qed.

(** ** The cache of authoritative answers *)

Lemma forms_query_authoritative h text :
  to_ascii_uppercase (trim text) = text ->
  Forms (query_authoritative_dns h text) (fun r =>
    match r with ROk (Some v) => authoritative_wf (normalize_host_lossy h) text v | _ => True end).
Proof.
  intros Ht. unfold query_authoritative_dns.
  eapply (forms_rbind _ _ (fun _ => True)); [done|apply forms_rdo; intros w HF; by split; [|apply (formed_fewer w)]|]. intros now _.
  eapply (forms_rbind _ _ (fun o => match o with Some v => authoritative_wf (normalize_host_lossy h) text v | None => True end)); [done| |].
  - apply forms_rdo. intros w HF. split; [|done]. simpl. unfold live_entry.
    destruct (rw_authoritative w !! authoritative_cache_key h text) as [e|] eqn:E; simpl; [|done].
    destruct (now <? ce_expires_at e); [|done]. pose proof (fo_authoritative w HF _ e E) as Hw.
    unfold authoritative_cache_key in Hw. by rewrite Ht in Hw.
  - intros [v|] Hv; [by apply forms_ret|].
    eapply (forms_rbind _ _ (fun _ => True)); [done| |intros ? _; by apply forms_ret]. apply forms_rdo. intros w HF. split; [done|].
    apply (formed_fewer w); [|done]. split; [done|]. apply map_subseteq_spec. intros k e. apply drop_expired_lookup.
Qed.

Lemma forms_insert_authoritative h text v ttl :
  to_ascii_uppercase (trim text) = text -> authoritative_wf (normalize_host_lossy h) text v ->
  Forms (insert_authoritative_dns h text v ttl) (fun _ => True).
Proof.
  intros Ht Hv. unfold insert_authoritative_dns.
  eapply (forms_rbind _ _ (fun _ => True)); [done|apply forms_rdo; intros w HF; by split; [|apply (formed_fewer w)]|].
  intros now _. eapply Safe_weaken; [apply (forms_rdo _ (fun _ => True))|done|done].
  intros w HF. split; [done|]. split; simpl; [apply (fo_dns w HF)|]. unfold authoritative_cache_key. rewrite Ht.
  intros key e [[<- <-]|[Hne He]]%lookup_insert_Some; [done|exact (fo_authoritative w HF key e He)].
Qed.

(** ** Requests *)

Lemma returns_dns h ty : Returns (resolve_dns config cache_ttl h ty) (answers (normalize_host_lossy h) ty (fun _ => True)).
Proof.
  pose proof (normalize_hostname_inv h) as Hn. destruct (normalize_hostname h) as [n|e] eqn:E.
  - rewrite <- Hn. by apply returns_resolve_dns.
  - unfold resolve_dns, rlift. by rewrite E, rbind_err.
Qed.

Lemma forms_dns_cached h ty :
  Forms (resolve_dns_cached config cache_ttl fuel h ty)
    (answers (normalize_host_lossy (normalize_host_lossy h)) ty (fun _ => True)).
Proof.
  unfold resolve_dns_cached, rlift. pose proof (normalize_hostname_inv h) as Hn.
  destruct (normalize_hostname h) as [n|e]; [rewrite rbind_ok, <- Hn|rewrite rbind_err; by apply forms_ret].
  destruct (negb _); [by apply forms_ret|].
  eapply (forms_rbind _ _ (fun _ => True)); [done|apply forms_fewer; [apply fewer_sync|eapply returns_mono; [apply returns_true|by intros []]]|].
  intros _ _. unfold resolve_dns_synced. set (bypass := is_user_dns_control_name n). set (N := normalize_host_lossy n).
  eapply (forms_rbind _ _ (fun o => match o with Some v => hit_wf N ty v | None => True end)); [done| |].
  { destruct bypass; [by apply forms_ret|]. eapply Safe_weaken; [apply forms_query_dns|done|]. by intros [[v|]|]. }
  intros [[res|kind]|] Hv; [by apply forms_ret..|]. unfold resolve_dns_and_cache.
  eapply forms_tbind; [apply forms_fewer; [apply fewer_observed; observe|apply returns_dns]|].
  intros [res|e] Hr; (eapply (forms_rbind _ _ (fun _ => True)); [done| |intros _ _; by apply forms_ret]);
    case_match; try (by apply forms_ret);
    (eapply Safe_weaken; [apply forms_insert_dns|done|by intros []]); [apply Hr|done].
Qed.

Lemma returns_authoritative h text :
  Returns (resolve_authoritative_dns_uncached config cache_ttl h text) (fun r =>
    match r with ROk v => authoritative_wf (normalize_host_lossy h) text v | RErr _ => True end).
Proof.
  unfold resolve_authoritative_dns_uncached. apply returns_rbind; [done|]. intros [z|]; [|done].
  apply returns_rbind; [done|]. intros []; [|done]. simpl. destruct (record_type_of_text text) as [ty|] eqn:Et; [|done].
  case_match; [done|]. eapply returns_tbind; [apply returns_dns|]. intros [res|e].
  - intros [Hres _]. destruct (dns_resolution_has_rrset res) eqn:Er; [|done]. simpl. split; [done|]. by exists ty.
  - intros _. by case_match.
Qed.

Definition reply_v (n text : string) (r : RsResult SnAuthoritativeDnsResult) : Prop :=
  match r with ROk v => authoritative_wf n text v | RErr _ => True end.

Lemma forms_authoritative_cached h record_type :
  Forms (resolve_authoritative_dns_cached config cache_ttl fuel h record_type)
    (reply_v (normalize_host_lossy (normalize_host_lossy h)) (type_text record_type)).
Proof.
  unfold resolve_authoritative_dns_cached, rlift. pose proof (normalize_hostname_inv h) as Hn.
  destruct (normalize_hostname h) as [n|e]; [rewrite rbind_ok, <- Hn|rewrite rbind_err; by apply forms_ret].
  fold (type_text record_type). set (text := type_text record_type).
  assert (Ht : to_ascii_uppercase (trim text) = text) by apply type_text_idempotent. case_match; [by apply forms_ret|].
  eapply (forms_rbind _ _ (fun _ => True)); [done|apply forms_fewer; [apply fewer_sync|eapply returns_mono; [apply returns_true|by intros []]]|].
  intros _ _. set (bypass := is_user_dns_control_name n). set (N := normalize_host_lossy n).
  eapply (forms_rbind _ _ (fun o => match o with Some v => authoritative_wf N text v | None => True end)); [done| |].
  { destruct bypass; [by apply forms_ret|]. eapply Safe_weaken; [by apply forms_query_authoritative|done|]. by intros [[v|]|]. }
  intros [v|] Hv; [by apply forms_ret|]. eapply (forms_rbind _ _ (authoritative_wf N text)); [done| |].
  - eapply forms_tbind; [apply forms_fewer; [apply fewer_observed; observe|apply returns_authoritative]|].
    intros [v|e] Hr; [by apply forms_ret|]. case_match; by apply forms_ret.
  - intros v Hr. destruct (answer_ttl v) as [ttl|]; [|by apply forms_ret].
    eapply (forms_rbind _ _ (fun _ => True)); [done| |intros _ _; by apply forms_ret]. destruct bypass; [by apply forms_ret|].
    eapply Safe_weaken; [by apply forms_insert_authoritative|done|by intros []].
Qed.

(** The reply to a question about a name. *)
Definition reply_wf (c : RsCall) (r : RsReply) : Prop :=
  match c, r with
  | ReqDns h ty, RepDns (ROk res) => answer_wf (normalize_host_lossy (normalize_host_lossy h)) ty res
  | ReqAuthoritative h record_type, RepAuthoritative (ROk v) =>
      authoritative_wf (normalize_host_lossy (normalize_host_lossy h)) (type_text record_type) v
  | _, _ => True
  end.

Lemma forms_replying {A} (f : RsResult A -> RsReply) (t : RT A) c (P : RsResult A -> Prop) :
  Forms t P -> (forall r, P r -> reply_wf c (f r)) -> Forms (replying f t) (reply_wf c).
Proof. intros Ht Hf. eapply forms_tbind; [exact Ht|]. intros r Hr. by apply forms_ret, Hf. Qed.

Lemma forms_request c : Forms (rs_task config cache_ttl fuel c) (reply_wf c).
Proof.
  destruct c; cbn [rs_task].
  - eapply forms_replying; [apply forms_dns_cached|]. intros [res|e]; [|done]. by intros [Hr _].
  - eapply forms_replying; [apply forms_authoritative_cached|]. by intros [v|e].
  - by eapply forms_replying; [apply forms_fewer; [apply fewer_sync|apply returns_true]|].
  - by eapply forms_replying; [apply forms_fewer; [apply fewer_sync|apply returns_true]|].
  - eapply forms_replying; [apply forms_fewer; [apply fewer_rbind; [apply fewer_remove|done]|apply returns_true]|done].
  - by eapply forms_replying; [apply forms_fewer; [apply fewer_observed; observe|apply returns_true]|].
  - by eapply forms_replying; [apply forms_fewer; [apply fewer_observed; observe|apply returns_true]|].
  - by eapply forms_replying; [apply forms_fewer; [apply fewer_observed; observe|apply returns_true]|].
  - by eapply forms_replying; [apply forms_fewer; [apply fewer_observed; observe|apply returns_true]|].
  - by eapply forms_replying; [apply forms_fewer; [apply fewer_observed; observe|apply returns_true]|].
Qed.

Definition service_reply_wf (c : RsCall + AuthCall) (r : RsReply + AuthReply) : Prop :=
  match c, r with inl c, inl r => reply_wf c r | _, _ => True end.

Lemma forms_service c : Forms (service_task config cache_ttl fuel self c) (service_reply_wf c).
Proof.
  destruct c as [c|c]; simpl.
  - eapply forms_tbind; [apply forms_request|]. intros r Hr. by apply forms_ret.
  - apply forms_fewer; [apply fewer_only_db, only_db_on_sn|]. eapply returns_tbind; [apply returns_true|]. done.
Qed.

(** C28: Under every interleaving of requests of the resolver and of the account
    database, overlapping as they like: every answer to a question is about the
    normalised name and the type of the question, its addresses are of that
    family and distinct, an A answer has one at most, only TXT answers have
    texts, and an answer from a zone document or with the node's own addresses has
    no loopback or bridge address.  A positive authoritative answer has a record.  The same
    holds of every cached entry. *)
Theorem answers_well_formed w s :
  rw_dns w = ∅ -> rw_authoritative w = ∅ ->
  rtc (sys_step (service_task config cache_ttl fuel self) (fun _ => True)) (started w) s ->
  Formed (sys_world s) /\ Forall (fun cr => service_reply_wf cr.1 cr.2) (sys_replies s).
Proof.
  intros Hd Ha Hrtc.
  destruct (sys_safe Formed (fun _ _ => True) (service_task config cache_ttl fuel self) (fun _ => True) service_reply_wf w s)
    as (HF & _ & Hr); [intros c _; apply forms_service| |done|done].
  split; intros key e; [intros res ty; by rewrite Hd|by rewrite Ha].
Qed.
End form.
