(* ===== verification/ResolverSync.v ===== *)
(** * Name resolver: one synchronisation

    A synchronisation that no other request disturbs: it ends, within the pages
    the retention of the feed allows; it drops the entries of exactly the names
    the feed tells of; and it says when the next one is due.  A question that is
    due for one, after requests that did not overlap, is answered from the records
    of now. *)

From S2P Require Import Prelude IpAddr Tasks RelayModel RelayStore Relay RelaySafe AuthModel AuthStore Auth AuthDb AuthDns AuthTexts AuthInv AuthKeeps ResolverModel ResolverStore Resolver ResolverRun ResolverCoherence ResolverFeed ResolverServe.

Section sync.
Context `{NamedLocker, DeviceInfoDB, Clock, JsonStrings, !JsonStringsLaws, SqlNumbers, CharTables}.
Context `{JsonKeys, RowOrder, SqlxNull}.
Context `{DnsTypes, !NameClient, !NameClientLaws, BnsDocumentReader, Instants, !Timers}.
Context `{NameLib, SerdeJson, JsonWebKeys, HashOrder, SerdeViews}.
Context (config : SnResolverConfig) (cache_ttl : Z) (fuel : nat).

(** ** Running sequences *)

Lemma run_rbind {A B} (m : RT A) (k : A -> RT B) w a w' :
  run m w = Some (ROk a, w') -> run (rbind m k) w = run (k a) w'.
Proof. intros Hm. unfold rbind. by rewrite run_tbind, Hm. Qed.

Lemma run_rbind_err {A B} (m : RT A) (k : A -> RT B) w e w' :
  run m w = Some (RErr e, w') -> run (rbind m k) w = Some (RErr e, w').
Proof. intros Hm. unfold rbind. by rewrite run_tbind, Hm. Qed.

(** ** What is dropped *)

(** [w'] has the caches of [w] without the entries of the names of [T]; nothing
    else but the cursor and the clock has changed. *)
Record purged (T : string -> Prop) (w w' : RsWorld) : Prop := mkPurged {
  pu_dns key e : dns_name_ok key.1 ->
    rw_dns w' !! key = Some e <-> rw_dns w !! key = Some e /\ forall n, T n -> normalize_host_lossy n <> key.1;
  pu_authoritative key e : dns_name_ok key.1 ->
    rw_authoritative w' !! key = Some e <->
    rw_authoritative w !! key = Some e /\ forall n, T n -> normalize_host_lossy (normalize_host_lossy n) <> key.1;
  pu_sn : rw_sn w' = rw_sn w;
  pu_bns : rw_bns w' = rw_bns w;
  pu_node_map : rw_node_map w' = rw_node_map w;
  pu_locked : rw_sync_locked w' = rw_sync_locked w;
  pu_sync : set_cursor 0 (rw_sync w') = set_cursor 0 (rw_sync w);
  pu_clock : (rw_instants w <= rw_instants w')%nat
}.

Lemma purged_nothing (T : string -> Prop) w w' :
  (forall n, ~ T n) -> rw_dns w' = rw_dns w -> rw_authoritative w' = rw_authoritative w -> rw_sn w' = rw_sn w ->
  rw_bns w' = rw_bns w -> rw_node_map w' = rw_node_map w -> rw_sync_locked w' = rw_sync_locked w ->
  set_cursor 0 (rw_sync w') = set_cursor 0 (rw_sync w) -> (rw_instants w <= rw_instants w')%nat -> purged T w w'.
Proof.
  intros HT Hd Ha ?? ??? ?. split; try done; intros key e _; [rewrite Hd|rewrite Ha];
    (split; [intros He; split; [done|]; intros n Hn; by destruct (HT n)|by intros []]).
Qed.

Lemma purged_trans (T1 T2 T : string -> Prop) w w1 w' :
  (forall n, T n <-> T1 n \/ T2 n) -> purged T1 w w1 -> purged T2 w1 w' -> purged T w w'.
Proof.
  intros HT [D1 A1 ?????] [D2 A2 ?????]. split; try congruence; [| |lia]; intros key e Hok.
  - rewrite D2, D1 by done. setoid_rewrite HT. naive_solver.
  - rewrite A2, A1 by done. setoid_rewrite HT. naive_solver.
Qed.

Lemma run_remove name w :
  exists m w', run (remove_dns_name name) w = Some (ROk m, w') /\ purged (eq name) w w' /\ rw_sync w' = rw_sync w.
Proof.
  do 2 eexists. split; [reflexivity|]. split; [|done]. split; try done; simpl; intros key e _; rewrite without_host_lookup; naive_solver.
Qed.

Lemma run_apply_changes changes w :
  exists w', run (apply_changes changes) w = Some (ROk tt, w') /\ purged (fun n => n ∈ ch_name <$> changes) w w' /\
    cursor w' = default (cursor w) (last (ch_revision <$> changes)).
Proof.
  revert w. induction changes as [|ch changes IH]; intros w.
  { exists w. split_and!; [done| |done]. apply purged_nothing; try done. by intros n ?%elem_of_nil. }
  destruct (run_remove (ch_name ch) w) as (m & w1 & Hrun & Hp & Hs).
  destruct (IH (set_sync (set_cursor (ch_revision ch)) w1)) as (w' & Hrun' & Hp' & Hc). exists w'. split_and!.
  - cbn [apply_changes]. erewrite run_rbind by exact Hrun. exact Hrun'.
  - apply (purged_trans (eq (ch_name ch)) (fun n => n ∈ ch_name <$> changes) _ w (set_sync (set_cursor (ch_revision ch)) w1)); [|by destruct Hp|done].
    intros n. rewrite fmap_cons, elem_of_cons. naive_solver.
  - rewrite Hc, fmap_cons, last_cons. by destruct (last (ch_revision <$> changes)).
Qed.

(** ** A page *)

Lemma told_gap d c n : dns_wf d -> 0 <= c -> c + 1 < oldest d -> told d c n.
Proof.
  intros Hwf Hc Ho. exists (c + 1). unfold oldest, USER_DNS_CHANGE_RETENTION in Ho. split; [lia|].
  destruct (d_changes d !! (c + 1)) as [row|] eqn:E; [|done].
  assert (Hk : retained (d_revision d) (c + 1)) by (apply (dw_kept d Hwf); eauto).
  destruct Hk as [Hk _]. unfold USER_DNS_CHANGE_RETENTION in Hk. lia.
Qed.

Lemma told_seen d c upto (changes : list UserDnsChange) n :
  dns_wf d -> oldest d <= c + 1 -> c <= upto <= d_revision d -> (ch_revision <$> changes) = seqZ (c + 1) (upto - c) ->
  (forall ch, ch ∈ changes -> exists row, d_changes d !! ch_revision ch = Some row /\ cw_name row = ch_name ch) ->
  told d c n <-> n ∈ ch_name <$> changes \/ told d upto n.
Proof.
  intros Hwf Ho Hle Hrevs Hrows. split; [by eapply told_in_page|]. intros [Hin|Ht]; [|by apply (told_earlier d upto); [lia|]].
  apply list_elem_of_fmap in Hin as (ch & -> & Hch). destruct (Hrows ch Hch) as (row & Hl & Hn).
  assert (Hr : ch_revision ch ∈ ch_revision <$> changes) by (by apply list_elem_of_fmap_2).
  rewrite Hrevs, elem_of_seqZ in Hr. exists (ch_revision ch). split; [lia|]. by rewrite Hl.
Qed.

Lemma page_earliest current earliest rows page :
  change_page current earliest rows = SOk page ->
  pg_earliest_available_revision page =
    match earliest with Some e => i64_to_u64 e | None => u64_saturating_add (i64_to_u64 current) 1 end.
Proof. unfold change_page. destruct (mapS _ rows); [|done]. by intros [= <-]. Qed.

(** The page after the cursor, when nobody else changes the feed. *)
Lemma run_page w :
  RsInv w -> let d := dns_of w in let c := cursor w in
  exists page, run (auth_list_user_dns_changes c 256) w = Some (ROk page, w) /\
    pg_current_revision page = d_revision d /\ gap_after c page = (c + 1 <? oldest d) /\
    (oldest d <= c + 1 -> (ch_revision <$> pg_changes page) = seqZ (c + 1) (Z.min 256 (d_revision d - c))) /\
    forall ch, ch ∈ pg_changes page -> exists row, d_changes d !! ch_revision ch = Some row /\ cw_name row = ch_name ch.
Proof.
  intros [[[Ha _] _] Hc] d c. assert (Hwf : dns_wf d) by apply Ha. pose proof (dw_revision _ Hwf) as Hrev. fold d c in Hc.
  destruct (page_rows d c (d_revision d) (earliest_change d)) as (page & Hp & Hcur & Hrevs & Hrows); [done|lia|lia|].
  exists page. split_and!; [|done| | |done].
  - unfold auth_list_user_dns_changes, from_db, list_user_dns_changes, abind, alift. simpl.
    fold (dns_of w) d. change (Z.to_nat 256) with 256%nat. rewrite Hp. by destruct w.
  - pose proof (page_earliest _ _ _ _ Hp) as He. rewrite (earliest_change_eq d Hwf) in He.
    unfold gap_after. rewrite Hcur, He. assert (Hs : u64_saturating_add c 1 = c + 1) by (unfold u64_saturating_add; lia).
    rewrite Hs. destruct (Z.eq_dec c (d_revision d)) as [Hz|Hz].
    + rewrite Hz, Z.ltb_irrefl. unfold page_start in Hrevs. rewrite seqZ_nil in Hrevs by lia. apply fmap_nil_inv in Hrevs as ->.
      symmetry. apply Z.ltb_ge. unfold oldest, USER_DNS_CHANGE_RETENTION. lia.
    + rewrite (proj2 (Z.eqb_neq _ _)), (proj2 (Z.ltb_lt c _)) by lia.
      assert (Ho : i64_to_u64 (oldest d) = oldest d) by (apply i64_to_u64_pos; unfold oldest; lia). rewrite Ho. simpl.
      destruct (Z.ltb_spec (c + 1) (oldest d)) as [Hlt|Hge]; [done|]. simpl.
      destruct (pg_changes page) as [|ch chs]; [done|]. rewrite fmap_cons in Hrevs. symmetry in Hrevs.
      unfold page_start in Hrevs. rewrite Z.max_l, seqZ_cons in Hrevs by lia. injection Hrevs as <- _. apply Z.ltb_irrefl.
  - intros Ho. rewrite Hrevs. unfold page_start. rewrite Z.max_l by lia. do 2 f_equal. lia.
Qed.

(** ** All pages *)

(** From [w] to [w'] the entries of the names of the feed up to the cursor of
    [w'] have been dropped. *)
Definition caught_up (w w' : RsWorld) : Prop :=
  cursor w <= cursor w' <= d_revision (dns_of w) /\
  exists T, purged T w w' /\
    forall n, told (dns_of w) (cursor w) n <-> T n \/ told (dns_of w) (cursor w') n.

Lemma caught_up_inv w w' : RsInv w -> caught_up w w' -> RsInv w' /\ dns_of w' = dns_of w.
Proof.
  intros [[Hs He] Hc] [Hle (T & [_ _ Hsn _ _ _ Hsy _] & _)]. unfold dns_of in *. rewrite Hsn. split; [|done].
  split; [|unfold dns_of; rewrite Hsn; lia]. split; [by rewrite Hsn|]. injection Hsy as _ Hf Hl.
  unfold sync_state_ok. by rewrite Hf, Hl.
Qed.

Lemma caught_up_trans w w1 w' : RsInv w -> caught_up w w1 -> caught_up w1 w' -> caught_up w w'.
Proof.
  intros HI Hw1 Hw'. destruct (caught_up_inv w w1 HI Hw1) as [_ Hd]. destruct Hw1 as [Hc (T & Hp & Ht)].
  destruct Hw' as [Hc' (T' & Hp' & Ht')]. rewrite Hd in *. split; [lia|]. exists (fun n => T n \/ T' n). split.
  - by apply (purged_trans T T' _ w w1).
  - intros n. rewrite Ht, Ht'. tauto.
Qed.

Lemma caught_up_page w page :
  RsInv w -> oldest (dns_of w) <= cursor w + 1 ->
  (ch_revision <$> pg_changes page) = seqZ (cursor w + 1) (Z.min 256 (d_revision (dns_of w) - cursor w)) ->
  (forall ch, ch ∈ pg_changes page ->
     exists row, d_changes (dns_of w) !! ch_revision ch = Some row /\ cw_name row = ch_name ch) ->
  exists w', run (apply_changes (pg_changes page)) w = Some (ROk tt, w') /\ caught_up w w' /\
    cursor w' = Z.min (cursor w + 256) (d_revision (dns_of w)).
Proof.
  intros HI Ho Hrevs Hrows. pose proof HI as [[[Ha _] _] Hc]. assert (Hwf : dns_wf (dns_of w)) by apply Ha.
  destruct (run_apply_changes (pg_changes page) w) as (w' & Hrun & Hp & Hcur). exists w'.
  assert (Hcur' : cursor w' = Z.min (cursor w + 256) (d_revision (dns_of w))).
  { rewrite Hcur, Hrevs. destruct (Z.eq_dec (cursor w) (d_revision (dns_of w))) as [Hz|Hz].
    - rewrite seqZ_nil by lia. simpl. lia.
    - rewrite last_seqZ by lia. simpl. lia. }
  split_and!; [done| |done]. split; [lia|]. eexists. split; [exact Hp|]. intros n.
  apply told_seen; [done|done|lia| |done]. rewrite Hrevs, Hcur'. f_equal. lia.
Qed.

(** The caches are cleared when the feed has a gap. *)
Lemma caught_up_restart w :
  RsInv w -> cursor w + 1 < oldest (dns_of w) ->
  exists w', run (restart_at (d_revision (dns_of w))) w = Some (ROk (d_revision (dns_of w)), w') /\ caught_up w w' /\
    cursor w' = d_revision (dns_of w).
Proof.
  intros HI Ho. pose proof HI as [[[Ha _] _] Hc]. assert (Hwf : dns_wf (dns_of w)) by apply Ha.
  assert (Ht : forall n, told (dns_of w) (cursor w) n) by (intros n; apply told_gap; [done|lia|done]).
  eexists. split; [reflexivity|]. split; [|done]. split; [unfold cursor; simpl; fold (cursor w); lia|]. exists (fun _ => True).
  split; [|intros n; specialize (Ht n); tauto].
  split; try done; simpl; intros key e Hok; rewrite lookup_empty; (split; [done|]); intros [_ Hn];
    destruct (Hn key.1 Logic.I); by rewrite !(name_ok_normal key.1 Hok).
Qed.

(** The cursor is set to the revision of the page, which it has reached. *)
Lemma caught_up_set w w' :
  caught_up w w' -> cursor w' = d_revision (dns_of w) -> caught_up w (set_sync (set_cursor (d_revision (dns_of w))) w').
Proof.
  intros [Hc (T & [Hd Ha Hs Hb Hm Hl Hy Hi] & HT)] Hcur. split; [change (cursor w <= d_revision (dns_of w) <= d_revision (dns_of w)); lia|]. exists T.
  split; [by split|]. intros n. rewrite HT, Hcur. done.
Qed.

Lemma caught_up_tick w : RsInv w -> caught_up w (next_instant w).
Proof.
  intros [_ Hc]. split; [unfold cursor in *; simpl; lia|]. exists (fun _ => False). split; [|unfold cursor; simpl; tauto].
  apply purged_nothing; simpl; try done; [tauto|lia].
Qed.

(** How a run of the pages ends: everything has been seen, or the time is up. *)
Definition drained (deadline : Z) (w : RsWorld) (r : RsResult Z) (w' : RsWorld) : Prop :=
  caught_up w w' /\
  (r = ROk (d_revision (dns_of w)) /\ cursor w' = d_revision (dns_of w) \/
   r = RErr timed_out /\
   exists n, (rw_instants w <= n < rw_instants w')%nat /\ timer_fires deadline n = true).

Lemma drained_later deadline w w1 r w' :
  RsInv w -> caught_up w w1 -> drained deadline w1 r w' -> drained deadline w r w'.
Proof.
  intros HI Hw [Hw' Hr]. destruct (caught_up_inv w w1 HI Hw) as [_ Hd]. split; [by apply (caught_up_trans w w1)|].
  rewrite Hd in Hr. destruct Hr as [Hr|[-> (n & Hn & Hf)]]; [by left|]. right. split; [done|]. exists n.
  destruct Hw as [_ (T & Hp & _)]. pose proof (pu_clock _ _ _ Hp). split; [lia|done].
Qed.

Lemma run_drain pages deadline w :
  RsInv w -> (0 < pages)%nat ->
  Z.min (d_revision (dns_of w) - cursor w) USER_DNS_CHANGE_RETENTION <= 256 * Z.of_nat pages ->
  exists r w', run (drain_user_dns_changes pages deadline) w = Some (r, w') /\ drained deadline w r w'.
Proof.
  revert w. induction pages as [|pages IH]; intros w HI Hp Hn; [lia|]. clear Hp.
  set (w1 := next_instant w). pose proof (caught_up_tick w HI) as Ht. fold w1 in Ht.
  destruct (caught_up_inv w w1 HI Ht) as [HI1 Hd1]. cbn [drain_user_dns_changes].
  erewrite (run_rbind _ _ _ (timer_fires deadline (rw_instants w)) w1) by reflexivity.
  destruct (timer_fires deadline (rw_instants w)) eqn:Ef.
  { do 2 eexists. split; [reflexivity|]. split; [done|]. right. split; [done|]. exists (rw_instants w). split; [simpl; lia|done]. }
  erewrite (run_rbind _ _ w1 (cursor w1) w1) by reflexivity.
  destruct (run_page w1 HI1) as (page & Hrun & Hcur & Hgap & Hrevs & Hrows). erewrite run_rbind by exact Hrun.
  rewrite Hgap, Hcur. destruct (Z.ltb_spec (cursor w1 + 1) (oldest (dns_of w1))) as [Hlt|Hge].
  { destruct (caught_up_restart w1 HI1 Hlt) as (w' & Hr & Hw' & Hc'). do 2 eexists. split; [exact Hr|].
    apply (drained_later _ w w1); [done..|]. split; [done|by left]. }
  destruct (caught_up_page w1 page) as (w2 & Hr2 & Hw2 & Hc2); [done|done|by apply Hrevs|done|].
  destruct (caught_up_inv w1 w2 HI1 Hw2) as [HI2 Hd2]. erewrite run_rbind by exact Hr2.
  erewrite (run_rbind _ _ w2 (cursor w2) w2) by reflexivity. specialize (Hrevs Hge).
  pose proof HI1 as [_ Hb1]. change (cursor w1) with (cursor w) in *. rewrite Hd1 in *.
  destruct (Z.leb_spec (d_revision (dns_of w)) (cursor w2)) as [Hle|Hgt]; simpl.
  { do 2 eexists. split; [reflexivity|]. apply (drained_later _ w w1); [done..|]. rewrite <- Hd1. split; [|by left; rewrite Hd1].
    apply caught_up_set; [done|]. rewrite Hd1. lia. }
  rewrite bool_decide_eq_false_2 by (intros Hnil; rewrite Hnil, seqZ_cons in Hrevs by lia; done).
  destruct (IH w2 HI2) as (r & w' & Hr & Hw').
  - destruct pages; [|lia]. unfold oldest, USER_DNS_CHANGE_RETENTION in *. lia.
  - rewrite Hd2, Hc2. unfold oldest, USER_DNS_CHANGE_RETENTION in *. lia.
  - exists r, w'. split; [exact Hr|]. apply (drained_later _ w w1); [done..|]. by apply (drained_later _ w1 w2).
Qed.

(** ** A synchronisation *)

(** The next attempt is not due. *)
Definition waiting (force : bool) (w : RsWorld) : bool :=
  match sy_next_attempt (rw_sync w) with Some next => instant_at (rw_instants w) <? next | None => false end
  && (negb force || is_some (sy_last_error (rw_sync w))).

(** The caches of [w'] are those of [w] without the entries of the names of [T]. *)
Definition dropped (T : string -> Prop) (w w' : RsWorld) : Prop :=
  (forall key e, dns_name_ok key.1 -> rw_dns w' !! key = Some e <->
     rw_dns w !! key = Some e /\ forall n, T n -> normalize_host_lossy n <> key.1) /\
  (forall key e, dns_name_ok key.1 -> rw_authoritative w' !! key = Some e <->
     rw_authoritative w !! key = Some e /\ forall n, T n -> normalize_host_lossy (normalize_host_lossy n) <> key.1).

(** Seconds until the attempt after the given number of failures. *)
Definition backoff_seconds (failures : Z) : Z := Z.min (2 ^ (failures - 1)) 30.

Lemma backoff_eq failures : 1 <= failures -> sync_backoff failures = from_secs (backoff_seconds failures).
Proof.
  intros Hf. unfold sync_backoff, backoff_seconds, from_secs, USER_DNS_SYNC_MAX_BACKOFF, from_secs.
  rewrite Z.shiftl_1_l. destruct (Z.le_gt_cases 6 failures) as [Hge|Hlt].
  - rewrite (Z.min_r (failures - 1) 5) by lia. pose proof (Z.pow_le_mono_r 2 5 (failures - 1)). lia.
  - rewrite (Z.min_l (failures - 1) 5) by lia. lia.
Qed.

(** The state after a synchronisation that was due. *)
Definition attempted (w : RsWorld) (r : RsResult Z) (w' : RsWorld) : Prop :=
  let ended := instant_at (pred (rw_instants w')) in
  let revision := d_revision (dns_of w) in
  (r = ROk revision /\ rw_sync w' = mkSyncState revision (Some (ended + from_secs 1)) 0 None /\
   dropped (told (dns_of w) (cursor w)) w w') \/
  (r = RErr timed_out /\ instant_at (rw_instants w) + from_secs 5 <= ended /\
   let failures := Z.min (sy_failures (rw_sync w) + 1) (2 ^ 32 - 1) in
   rw_sync w' = mkSyncState (cursor w') (Some (ended + from_secs (backoff_seconds failures))) failures (Some timed_out) /\
   exists T, dropped T w w' /\
     forall n, told (dns_of w) (cursor w) n <-> T n \/ told (dns_of w) (cursor w') n).

Lemma run_attempt `{!InstantsLaws, !TimersLaws} force w :
  RsInv w -> (40 <= fuel)%nat -> waiting force w = false ->
  exists r w', run (sync_locked fuel force) w = Some (r, w') /\ rw_sync_locked w' = rw_sync_locked w /\
    rw_sn w' = rw_sn w /\ attempted w r w'.
Proof.
  intros HI Hfuel Hdue. unfold sync_locked. set (now := instant_at (rw_instants w)).
  erewrite (run_rbind _ _ w now (next_instant w)) by reflexivity.
  erewrite (run_rbind _ _ (next_instant w) (rw_sync w) (next_instant w)) by reflexivity.
  change (match sy_next_attempt (rw_sync w) with Some next => now <? next | None => false end
    && (negb force || is_some (sy_last_error (rw_sync w)))) with (waiting force w). rewrite Hdue.
  set (w1 := next_instant (set_sync (fun s => mkSyncState (sy_revision s)
    (Some (now + USER_DNS_SYNC_TIMEOUT + USER_DNS_SYNC_INTERVAL)) (sy_failures s) (Some interrupted)) (next_instant w))).
  erewrite run_rbind by reflexivity. erewrite (run_rbind _ _ _ (instant_at (S (rw_instants w))) w1) by reflexivity.
  assert (HI1 : RsInv w1). { destruct HI as [[Hs [Hf _]] Hc]. split; [split; [done|]|done]. split; [done|]. by intros e [= <-]. }
  rewrite run_tbind.
  destruct (run_drain fuel (instant_at (S (rw_instants w)) + USER_DNS_SYNC_TIMEOUT) w1 HI1)
    as (r & w2 & Hr & [Hc (T & Hp & HT)] & Hend); [lia|unfold USER_DNS_CHANGE_RETENTION; lia|].
  rewrite Hr. destruct Hp as [Pd Pa Psn _ _ Pl Psy Pclock]. injection Psy as _ Hfail _.
  destruct Hend as [[-> Hcur]|[-> (n & Hn & Hfires)]]; do 2 eexists; (split; [reflexivity|]); (split_and!; [exact Pl|exact Psn|]).
  - left. split_and!; [done|simpl; fold (cursor w2); by rewrite Hcur|].
    assert (HT' : forall m, told (dns_of w) (cursor w) m <-> T m).
    { intros m. split; [|intros Hm; apply HT; by left]. intros [?|Ht]%HT; [done|]. apply told_bound in Ht.
      rewrite Hcur in Ht. lia. }
    split; intros key e Hok; simpl; [rewrite Pd by done|rewrite Pa by done]; simpl; by setoid_rewrite HT'.
  - right. simpl in Hfail. pose proof HI as [[_ [Hf _]] _]. split; [done|]. split; [|split; [|by exists T]].
    + simpl. apply timer_late in Hfires. pose proof (instant_le (rw_instants w) (S (rw_instants w))).
      pose proof (instant_le n (rw_instants w2)). unfold USER_DNS_SYNC_TIMEOUT in Hfires. simpl in Hn. lia.
    + simpl. rewrite Hfail. unfold u32_saturating_add, u32_max. rewrite backoff_eq by lia. done.
Qed.

Lemma run_sync `{!InstantsLaws, !TimersLaws} force w :
  RsInv w -> rw_sync_locked w = false -> (40 <= fuel)%nat ->
  exists r w', run (sync_user_dns_changes fuel force) w = Some (r, w') /\ rw_sync_locked w' = false /\
    rw_sn w' = rw_sn w /\
    if waiting force w then
      r = match sy_last_error (rw_sync w) with Some e => RErr e | None => ROk (cursor w) end /\
      rw_sync w' = rw_sync w /\ rw_dns w' = rw_dns w /\ rw_authoritative w' = rw_authoritative w
    else attempted w r w'.
Proof.
  intros HI Hl Hfuel. unfold sync_user_dns_changes. cbn [run]. rewrite Hl, run_tbind.
  destruct (waiting force w) eqn:Hw.
  - unfold sync_locked. erewrite (run_rbind _ _ (set_locked true w)) by reflexivity.
    erewrite (run_rbind _ _ (next_instant (set_locked true w))) by reflexivity.
    match goal with |- context [if ?b then _ else _] => change b with (waiting force w) end. rewrite Hw.
    change (rw_sync (next_instant (set_locked true w))) with (rw_sync w).
    destruct (sy_last_error (rw_sync w)); by do 2 eexists.
  - destruct (run_attempt force (set_locked true w) HI Hfuel Hw) as (r & w' & -> & _ & Hsn & Ha).
    exists r, (set_locked false w'). split_and!; [by destruct r|done|exact Hsn|exact Ha].
Qed.

(** C27: A synchronisation that no other request disturbs returns, within forty
    pages, with the mutex released and the databases untouched.  If the next
    attempt is not due it repeats the stored outcome and changes nothing.
    Otherwise either it returns the revision of the feed, has dropped the entries
    of exactly the names the feed tells of, and the next attempt is due after a
    second; or five seconds have passed, the names of the feed up to the new
    cursor are dropped and no others, and the next attempt is due after 1, 2, 4,
    8, 16 or 30 seconds, by the number of failures in a row. *)
Theorem sync_exact `{!InstantsLaws, !TimersLaws} force w :
  RsInv w -> rw_sync_locked w = false -> (40 <= fuel)%nat ->
  exists r w', run (sync_user_dns_changes fuel force) w = Some (r, w') /\ rw_sync_locked w' = false /\
    rw_sn w' = rw_sn w /\
    if waiting force w then
      r = match sy_last_error (rw_sync w) with Some e => RErr e | None => ROk (cursor w) end /\
      rw_sync w' = rw_sync w /\ rw_dns w' = rw_dns w /\ rw_authoritative w' = rw_authoritative w
    else attempted w r w'.
Proof.
  intros HI Hl Hfuel. destruct (run_sync force w HI Hl Hfuel) as (r & w' & Hr & Hrest). by exists r, w'.
Qed.

(** ** A question after a synchronisation *)

(** The feed and the cursor are as they were. *)
Definition feed_same (w w' : RsWorld) : Prop := dns_of w' = dns_of w /\ cursor w' = cursor w.

#[local] Instance feed_same_preorder : PreOrder feed_same.
Proof. split; [done|]. intros ??? [??] [??]. split; congruence. Qed.

Lemma feed_observes {A} (t : Task RsWorld A) : Observes rs_same t -> Observes feed_same t.
Proof. apply observes_mono. intros w w' Hs. by destruct (same_view w w' Hs) as (? & ? & _). Qed.

Lemma feed_rbind {A B} (m : RT A) (k : A -> RT B) :
  Observes feed_same m -> (forall a, Observes feed_same (k a)) -> Observes feed_same (rbind m k).
Proof. intros Hm Hk. apply observes_tbind; [done|]. intros [a|e]; [apply Hk|done]. Qed.

Lemma feed_rdo {A} (f : RsWorld -> A * RsWorld) : (forall w, feed_same w (f w).2) -> Observes feed_same (rdo f).
Proof. intros Hf. apply observes_atomic. intros w. specialize (Hf w). by destruct (f w). Qed.

Lemma feed_query_dns h ty : Observes feed_same (query_dns h ty).
Proof.
  unfold query_dns. apply feed_rbind; [by apply feed_rdo|]. intros now. apply feed_rbind; [by apply feed_rdo|].
  intros [v|]; [done|]. apply feed_rbind; [by apply feed_rdo|done].
Qed.

Lemma feed_insert_dns h ty v ttl : Observes feed_same (insert_dns h ty v ttl).
Proof. unfold insert_dns. apply feed_rbind; [by apply feed_rdo|]. intros now. by apply feed_rdo. Qed.

Lemma feed_question n ty : Observes feed_same (resolve_dns_synced config cache_ttl n ty).
Proof.
  unfold resolve_dns_synced, resolve_dns_and_cache. apply feed_rbind; [case_match; [done|apply feed_query_dns]|].
  intros [[res|kind]|]; [done..|]. apply observes_tbind; [apply feed_observes; observe|].
  intros [res|e]; (apply feed_rbind; [|done]); case_match; try done; apply feed_insert_dns.
Qed.

(** On coherent caches. *)
Lemma answer_after_sync `{!InstantsLaws, !TimersLaws} h ty n w :
  RsInv w -> Coherent config w -> rw_sync_locked w = false -> (40 <= fuel)%nat -> waiting false w = false ->
  normalize_hostname h = ROk n -> is_supported_record_type ty = true ->
  exists r w', run (resolve_dns_cached config cache_ttl fuel h ty) w = Some (r, w') /\
    (cursor w' = d_revision (dns_of w') /\ dns_of w' = dns_of w /\ answer_fits config n ty r (records (dns_of w) n) \/
     r = RErr timed_out /\ instant_at (rw_instants w) + from_secs 5 <= instant_at (rw_instants w')).
Proof.
  intros HI HC Hl Hfuel Hdue Hn Hty. pose proof (normalize_hostname_inv h) as Hinv. rewrite Hn in Hinv.
  destruct (run_sync false w HI Hl Hfuel) as (r1 & w1 & Hr1 & _ & Hsn & Ha). rewrite Hdue in Ha.
  assert (Hrun : run (resolve_dns_cached config cache_ttl fuel h ty) w =
    match r1 with ROk _ => run (resolve_dns_synced config cache_ttl n ty) w1 | RErr e => Some (RErr e, w1) end).
  { unfold resolve_dns_cached, rlift. rewrite Hn, rbind_ok, Hty. cbn [negb].
    destruct r1 as [rev|e]; [by erewrite run_rbind by exact Hr1|by erewrite run_rbind_err by exact Hr1]. }
  destruct Ha as [(-> & Hsy & _)|(-> & Hlate & _)].
  2: { do 2 eexists. split; [exact Hrun|]. right. split; [done|].
       pose proof (instant_le (pred (rw_instants w1)) (rw_instants w1)). lia. }
  destruct (observes_run feed_same (resolve_dns_synced config cache_ttl n ty) w1) as (r & w' & Hr & Hd & Hc); [apply feed_question|].
  rewrite Hr in Hrun. exists r, w'. split; [done|]. left.
  assert (Hd' : dns_of w' = dns_of w) by (rewrite Hd; unfold dns_of; by rewrite Hsn).
  assert (Hc' : cursor w' = d_revision (dns_of w')) by (rewrite Hc, Hd'; unfold cursor; by rewrite Hsy).
  split_and!; [done|done|].
  destruct (Keeps_run _ _ _ _ _ w r w' (keep_dns_cached config cache_ttl fuel h ty) HI HC Hrun) as [_ [_ Hk]].
  rewrite <- Hinv in Hk. destruct Hk as [Ht|Hf]; [apply told_bound in Ht; lia|by rewrite <- Hd'].
Qed.

End sync.
