(* ===== verification/ResolverSamples.v ===== *)
(** * Name resolver: a sample node

    Concrete functions in place of the crates, a resolver on the sample node of
    the account database, the theorems applied to it, and a schedule in which two
    requests of the resolver overlap and a deleted record stays cached. *)

From S2P Require Import Prelude IpAddr Tasks RelayModel RelayStore Relay RelaySafe RelaySamples AuthModel AuthStore Auth AuthDb AuthDns AuthTexts AuthInv AuthKeeps AuthSamples ResolverModel ResolverStore Resolver ResolverRun ResolverCoherence ResolverFeed ResolverServe ResolverSync.

(** ** Instances *)

#[local] Existing Instance sample_locker.
#[local] Existing Instance sample_devices.
#[local] Existing Instance relay_clock.
#[local] Existing Instance sample_json.
#[local] Existing Instance sample_json_laws.
#[local] Existing Instance sample_sql.
#[local] Existing Instance sample_chars.
#[local] Existing Instance sample_keys.
#[local] Existing Instance sample_order.
#[local] Existing Instance sample_null.

#[local] Instance sample_types : DnsTypes := {| OtherRecordType := unit |}.
#[local] Instance sample_client : NameClient := {|
  record_type_of_text s :=
    if String.eqb s "A" then Some RtA else if String.eqb s "AAAA" then Some RtAAAA
    else if String.eqb s "TXT" then Some RtTXT else if String.eqb s "MX" then Some (RtOther tt) else None;
  record_type_to_text ty := match ty with RtA => "A" | RtAAAA => "AAAA" | RtTXT => "TXT" | RtOther _ => "MX" end
|}.
#[local] Instance sample_client_laws : NameClientLaws.
Proof. split; [done|]. by intros [| | |[]]. Qed.

(** No name has an owner or a document. *)
#[local] Instance sample_reader : BnsDocumentReader := {|
  BnsBackend := unit;
  bns_resolve_owner _ b := (ROk None, b);
  bns_get_document _ _ b := (ROk None, b)
|}.

(** Readings of the clock are a tenth of a second apart; timers are punctual. *)
#[local] Instance sample_instants : Instants := fun n => Z.of_nat n * 10 ^ 8.
#[local] Instance sample_instants_laws : InstantsLaws.
Proof. intros n m Hle. unfold instant_at, sample_instants. lia. Qed.
#[local] Instance sample_timers : Timers := fun deadline n => deadline <=? instant_at n.
#[local] Instance sample_timers_laws : TimersLaws.
Proof. intros d n Hf. by apply Z.leb_le. Qed.

#[local] Instance sample_names : NameLib := {|
  jwt_to_json _ := None; parse_ood_description _ := None; did_of_text _ := None; did_to_text d := did_id d
|}.
#[local] Instance sample_serde : SerdeJson := {| value_of_text s := Some (JString s); value_to_text _ := "" |}.
#[local] Instance sample_jwk : JsonWebKeys := {|
  Jwk := string; jwk_of_text s := Some s; jwk_of_value _ := None; jwk_decodes _ := true; jwk_octet_x s := Some s;
  create_jwk_by_x s := Some s
|}.
#[local] Instance sample_hash : HashOrder := fun _ l => l.
#[local] Instance sample_views : SerdeViews := fun _ => None.

(** ** A resolver that has just started *)

Definition sample_config : SnResolverConfig := new_resolver_config "gateway.example" None None None [].

Definition resolver_start : RsWorld :=
  mkRsWorld with_records tt ∅ ∅ initial_sync_state false (mkNodeMapCache None 0) 0.

Notation service := (service_task sample_config (from_secs 60) 40 from_pool).

Lemma resolver_start_fresh : fresh resolver_start.
Proof. done. Qed.

Lemma resolver_start_ok : RsInv resolver_start /\ Coherent sample_config resolver_start.
Proof. apply fresh_coherent; [exact with_records_inv|exact resolver_start_fresh]. Qed.

Definition ask_alice : RsCall := ReqDns "WWW.Alice.net." RtA.

Notation service_move := (Move (Call:=RsCall + AuthCall)).

(** A question about a name, and up to its last step the deletion of its record. *)
Definition ask_moves : list service_move := Arrive (inl ask_alice) :: repeat (Proceed 0) 25.
Definition delete_moves : list service_move :=
  Arrive (inr (AcDnsDelete "alice" "www.alice.net" DnsA)) :: repeat (Proceed 1) 3.

(** ** The theorems on the sample *)

Definition turns_after ms s := default s (take_turns sample_config (from_secs 60) 40 from_pool ms s).

Lemma turns_reach ms s :
  Forall (move_allowed call_ok) ms -> is_some (take_turns sample_config (from_secs 60) 40 from_pool ms s) = true ->
  rtc (turn sample_config (from_secs 60) 40 from_pool) s (turns_after ms s).
Proof.
  intros Hms Hs. unfold turns_after. destruct (take_turns _ _ _ _ ms s) as [s'|] eqn:E; [|done]. by eapply take_turns_sound.
Qed.

Definition asked_moves : list service_move := ask_moves ++ delete_moves ++ repeat (Proceed 0) 2.
Definition asked := turns_after asked_moves (started resolver_start).

Lemma asked_reached : rtc (turn sample_config (from_secs 60) 40 from_pool) (started resolver_start) asked.
Proof. apply turns_reach; [repeat constructor|vm_compute; reflexivity]. Qed.

(** The request of the resolver that is about to reply. *)
Definition ready (s : Sys (W:=RsWorld) (Call:=RsCall + AuthCall) (Reply:=RsReply + AuthReply)) : RsCall * RsReply :=
  match sys_tasks s with
  | [(inl c, Ret (inl r))] => (c, r)
  | _ => (ReqPoll, RepUnit (ROk tt))
  end.

Definition is_ready (s : Sys (W:=RsWorld) (Call:=RsCall + AuthCall) (Reply:=RsReply + AuthReply)) : bool :=
  match sys_tasks s with [(inl _, Ret (inl _))] => true | _ => false end.

Lemma ready_in s : is_ready s = true -> (inl (ready s).1, Ret (inl (ready s).2)) ∈ sys_tasks s.
Proof.
  unfold is_ready, ready. destruct (sys_tasks s) as [|[[c|c] [[r|r]|X act k]] [|? ?]]; try done. by constructor.
Qed.

Lemma asked_ready : is_ready asked = true.
Proof. vm_compute. reflexivity. Qed.

(** The record is gone when the reply that was computed with it is sent. *)
Lemma answers_coherent_witness :
  is_some (user_dns_rrset (ResolverCoherence.dns_of (sys_world asked)) "www.alice.net" DnsA) = false /\
  reply_fits sample_config (ready asked).1 (ready asked).2 (sys_world asked).
Proof.
  split; [vm_compute; reflexivity|].
  exact (answers_coherent sample_config (from_secs 60) 40 from_pool resolver_start asked (ready asked).1 (ready asked).2
    with_records_inv resolver_start_fresh asked_reached (ready_in asked asked_ready)).
Defined.

Lemma sync_exact_witness :
  waiting false resolver_start = false /\
  exists r w', run (sync_user_dns_changes 40 false) resolver_start = Some (r, w') /\ rw_sync_locked w' = false /\
    rw_sn w' = rw_sn resolver_start /\
    if waiting false resolver_start then
      r = match sy_last_error (rw_sync resolver_start) with Some e => RErr e | None => ROk (cursor resolver_start) end /\
      rw_sync w' = rw_sync resolver_start /\ rw_dns w' = rw_dns resolver_start /\
      rw_authoritative w' = rw_authoritative resolver_start
    else attempted resolver_start r w'.
Proof. split; [reflexivity|]. exact (sync_exact 40 false resolver_start (proj1 resolver_start_ok) eq_refl (le_n 40)). Defined.

(** The answer of [asked] is sent and stays in the cache, its record is gone; some
    requests later the next synchronisation is due. *)
Definition answered_moves : list service_move :=
  asked_moves ++ [Proceed 0] ++ concat (repeat (Arrive (inl ReqPoll) :: repeat (Proceed 0) 5) 7).
Definition stale := turns_after answered_moves (started resolver_start).

Lemma stale_reached : rtc (turn sample_config (from_secs 60) 40 from_pool) (started resolver_start) stale.
Proof. apply turns_reach; [repeat constructor|vm_compute; reflexivity]. Qed.


(** ** Two requests of the resolver that overlap *)

(** Before the first request caches its answer the record is deleted, and the
    second request synchronises. *)
Definition overlap_moves : list service_move :=
  ask_moves ++ delete_moves ++ (Arrive (inl ReqSynchronize) :: repeat (Proceed 1) 19) ++ repeat (Proceed 0) 3.

Definition service_after ms s := default s (schedule service ms s).

Lemma service_reach ms s :
  is_some (schedule service ms s) = true -> rtc (sys_step service (fun _ => True)) s (service_after ms s).
Proof.
  intros Hs. unfold service_after. destruct (schedule service ms s) as [s'|] eqn:E; [|done].
  eapply schedule_sound; [|exact E]. apply Forall_forall. by intros [].
Qed.

Definition overlapped := service_after overlap_moves (started resolver_start).

Lemma overlapped_reached : rtc (sys_step service (fun _ => True)) (started resolver_start) overlapped.
Proof. apply service_reach. vm_compute. reflexivity. Qed.

Lemma answers_well_formed_witness :
  length (sys_replies overlapped) = 3%nat /\
  Formed (sys_world overlapped) /\ Forall (fun cr => service_reply_wf cr.1 cr.2) (sys_replies overlapped).
Proof.
  split; [vm_compute; reflexivity|].
  exact (answers_well_formed sample_config (from_secs 60) 40 from_pool resolver_start overlapped eq_refl eq_refl overlapped_reached).
Defined.

(** A synchronisation followed by the question. *)
Definition sync_and_ask : Task RsWorld RsReply :=
  tbind (rs_task sample_config (from_secs 60) 40 ReqSynchronize) (fun _ => rs_task sample_config (from_secs 60) 40 ask_alice).

(** The addresses of the answer. *)
Definition answered (t : Task RsWorld RsReply) (w : RsWorld) : list IpAddr :=
  match run t w with Some (RepDns (ROk res), _) => dr_addresses res | _ => [] end.

(** Requests of the resolver may overlap, and then the cache can keep an
    answer the feed has withdrawn: a request has read a record but not yet cached
    its answer when the record is deleted and another request synchronises.  The
    resolver has seen the whole feed and the record is gone, but after another
    synchronisation the question is still answered with it. *)
Theorem overlapping_requests_keep_deleted_record :
  exists s, rtc (sys_step service (fun _ => True)) (started resolver_start) s /\ length (sys_tasks s) = 0%nat /\
    cursor (sys_world s) = d_revision (ResolverCoherence.dns_of (sys_world s)) /\
    is_some (user_dns_rrset (ResolverCoherence.dns_of (sys_world s)) "www.alice.net" DnsA) = false /\
    answered sync_and_ask (sys_world s) = [V4 [1; 2; 3; 4]].
Proof. exists overlapped. split; [apply overlapped_reached|]. split_and!; vm_compute; reflexivity. Qed.

(** A host name with an asterisk is a valid name of a question but not of a
    record, and the refusal of the account database counts as a failure of the
    backend: the question about a name of a managed zone is answered with a
    temporary failure, and no negative answer is cached. *)
Theorem asterisk_question_fails :
  match run (resolve_authoritative_dns_cached sample_config (from_secs 60) 40 "*.alice.net" "A") resolver_start with
  | Some (ROk (TemporaryFailure _), w) => size (rw_authoritative w) = 0%nat
  | _ => False
  end.
Proof. vm_compute. reflexivity. Qed.
